(* ===== verification/_CoqProject ===== *)
-Q . S2P
Prelude.v
Words.v
Text.v
BigInt.v
MathUtil.v
Uint256.v
Uint256Arith.v
Uint256Div.v
Uint256Bits.v
Params.v
Config.v
Stack.v
Memory.v
Opcodes.v
Analysis.v
State.v
GasTable.v
Instructions.v
JumpTable.v
Evm.v
Interpreter.v
Invariants.v
InstrSafety.v
GasSafety.v
StepSafety.v
TableSafety.v
Safety.v
Codec.v
Storage.v
StorageFacts.v
Executor.v
ExecutorFacts.v
World.v
EvmTheorems.v
ArithTheorems.v
MachineTheorems.v
StorageTheorems.v
ExecutorTheorems.v
SkipList.v
SkipListFacts.v
Iterators.v
IteratorFacts.v
SkipListTheorems.v
Cleaning.v
LayerTheorems.v
Blake2b.v
Blake2bFacts.v
Precompiles.v
PrecompileFacts.v
CryptoTheorems.v
AbiType.v
AbiCodec.v
AbiContract.v
AbiFacts.v
AbiDecodeFacts.v
AbiParseFacts.v
AbiContractFacts.v
AbiTheorems.v
Structs.v
StructsFacts.v
StructsTheorems.v
TrackerStore.v
Tracker.v
TrackerFacts.v
TrackerLogs.v
TrackerSync.v
TrackerTheorems.v
Rpc.v
Remote.v
Process.v
ProcessTheorems.v
Fields.v
Bn256.v
Bn256Tower.v
Curves.v
Bn256Power.v
Bn256Curve.v
Bn256Groups.v
Bn256Pairing.v
Bn256Theorems.v
