(* ===== verification/Prelude.v ===== *)
(** * A verification library for the web3 EVM

    The repository is a Go library for Ethereum: a JSON-RPC client, an ABI codec,
    wallets and contract bindings around an executor that runs transactions
    locally on an EVM, with the state of a remote node behind a write cache, and a
    tracker that follows the logs of a chain.  This library models the executor,
    the EVM with its precompiled contracts and the pairing-friendly curve bn256
    behind three of them, its integers, its state database, the ABI codec, the
    JSON forms of blocks and logs and the tracker, and proves what makes them
    correct.

    ** How the program is put together

    [ExecuteTransaction] (src/executor) turns a transaction into a message, buys
    gas, charges the intrinsic gas and calls [EVM.Call] or [EVM.Create]
    (src/evm/evm.go).  These take a snapshot of the state, move the value, and run
    the code in [EVMInterpreter.Run] (src/evm/interpreter.go): a loop that looks
    up the operation of the next opcode in the jump table of the active fork,
    checks the stack, the read-only flag and the memory size, charges constant
    and dynamic gas (src/evm/gas_table.go) and executes it
    (src/evm/instructions.go).  Call and create instructions re-enter the EVM.
    The state sits behind the interface [StateDB] (src/evm/interface.go),
    implemented by src/evm/storage/statedb.go on two write caches, [CacheDB] over
    [OverlayDB], which are skip lists (src/evm/storage/overlaydb/memdb.go), over a
    persistent store.  Values are 256-bit integers of four 64-bit limbs
    (src/utils/common/uint256).  When a transaction ends, the cache is committed
    to the overlay and the suicided contracts are destroyed.

    Around it, src/abi reads interface descriptions, encodes the arguments of
    calls and decodes results and logs; src/structs*.go are the blocks,
    transactions, receipts and logs and their JSON and RLP forms; src/tracker
    keeps the last blocks of the chain, follows its head through reorganisations
    and keeps the logs that match its filters in a store.

    ** How it is modelled

    Pure functions are Rocq functions.  Code that changes state is written in the
    monad [M St A], which returns, panics or runs out of fuel; a panic records
    whether the modelled code or an interface method raised it.  Machine integers
    are [Z] with the wrap-around written out; bytes are [Z] in [0, 256); byte
    slices, addresses and hashes are lists of bytes.  Where Go aliases memory and
    it matters, the model does too: the return data of a call may alias the
    memory of the caller ([Slice] in State.v), [buyGas] divides the balance in
    place.  A send on a channel without a buffer waits for its receiver: the
    events of a filter of the tracker are delivered, dropped when the filter is
    asynchronous, or block for ever when nobody receives them ([emitEvent]).

    - Prelude, Words: outcomes, the state monad with its weakest precondition,
      byte strings, 64-bit arithmetic.  Text: decimal and hexadecimal text.
      BigInt: what the code uses of big.Int.  MathUtil: src/utils/common/math.
    - Uint256 (uint256.go, conversion.go, div.go), with Uint256Arith, Uint256Div
      and Uint256Bits: the integers and their theory.
    - Params, Config, Opcodes: protocol constants, chain configuration, opcodes.
    - Stack, Memory, Analysis: operand stack, memory, JUMPDEST bitmaps.
    - State: contracts, the [StateDB] interface as a class with the promises the
      EVM relies on ([StateDBSpec]), the machine state.
    - GasTable, Instructions, JumpTable, Evm, Interpreter: the EVM.  The mutual
      recursion of calls is tied by a record of entry points.
    - Invariants, InstrSafety, GasSafety, StepSafety, TableSafety, Safety: the
      invariant of the machine, and that every instruction, gas function, table
      entry, step, call and creation preserves it.
    - Codec: the zero-copy encoding (src/utils/codec).
    - Storage, StorageFacts: accounts, layers, [StateDB]; they implement the class
      of State.v.  The tables are a class [MemDB] with laws.
    - SkipList, SkipListFacts, SkipListTheorems: memdb.go and its proof as an
      instance of that class.
    - Iterators, IteratorFacts, Cleaning: the iterators of a table and of joined
      layers, the layered iterators, [CleanContractStorageData] and [Commit].
    - Executor, ExecutorFacts: src/executor and the execution results of
      src/types.go.
    - Rpc: the client of a node (src/jsonrpc) over the transport as a class.
      Remote: the node as a store (src/executor/remotedb), and that its reads come
      from one function of the key.  Process: src/executor/executor.go and
      state_processor.go, which run a transaction on that store, commit it and make
      the receipt.
    - Blake2b, Blake2bFacts: src/crypto/blake2b against RFC 7693.  Precompiles,
      PrecompileFacts, CryptoTheorems: src/evm/contracts*.go; the curve and hash
      functions they call are the record [Crypto].
    - Bn256: src/crypto/bn256 (constants.go, gfp2.go, gfp6.go, gfp12.go, curve.go,
      twist.go, optate.go, bn256.go), on integers with sign as big.Int has them,
      reduced where the code reduces.  A number of the pool keeps its old value
      where [ModInverse] fails: [stale].  Whether a receiver is also an argument is
      the argument [same] where the order of the writes shows.  Fields
      (rings, quadratic and cubic extensions, Fermat, Frobenius maps, and the
      certificate that [P] is prime) and Curves (the chord and tangent law and
      Jacobian coordinates over any field) are the mathematics it is compared with;
      Bn256Tower (the fields), Bn256Power (Frobenius maps, powers, the final
      exponentiation), Bn256Curve (points), Bn256Groups (encodings, subgroups) and
      Bn256Pairing (the Miller loop) the comparison.
    - AbiType, AbiCodec, AbiContract: src/abi (types and their parser; encoding
      and decoding; methods, events, topics, logs, call data).  AbiFacts,
      AbiDecodeFacts, AbiParseFacts, AbiContractFacts: the specification of the
      encoding, and that the code meets it.
    - Structs (src/structs*.go), StructsFacts with a small JSON printer and parser
      that satisfy the laws asked of the JSON library.
    - TrackerStore (src/tracker/store, the in-memory store), Tracker
      (src/tracker/tracker.go, block_tracker.go), TrackerFacts (the window of
      blocks), TrackerLogs (the logs of filters), TrackerSync ([Sync]).
    - World: a small concrete world in which the theorems are instantiated.
    - EvmTheorems, ArithTheorems, MachineTheorems, StorageTheorems,
      ExecutorTheorems, LayerTheorems, CryptoTheorems, AbiTheorems,
      StructsTheorems, TrackerTheorems, ProcessTheorems, Bn256Theorems: the
      properties.  The last puts bn256 in place of the parameter of the precompiled
      contracts.

    ** What the theorems show

    - Safety and termination of the EVM: from any well-formed state a call or a
      creation returns, whatever the code, with no panic of the EVM's own code
      and no more gas than it was given; each step burns gas; a failed call
      leaves the state as it was, in every kind of frame, a failed creation up to
      the nonce of its creator; a static call changes nothing.  They hold for
      every database that satisfies [StateDBSpec], which the database of Storage.v
      does, and for every jump table the configuration can select; which
      configurations select none, and panic, is stated too.
    - Transactions: the gas and the balances add up; intrinsic gas; revert
      reasons; the whole of [ExecuteTransaction], on every branch, from the message
      to the committed state and the receipt; reads of a remote node are those of
      one fixed store.
    - Integers: addition, multiplication, division, modular and signed arithmetic,
      shifts, comparisons and conversions agree with [Z] modulo 2^256.
    - Machine: jump destinations, for every sequence of questions with the
      bitmaps cached on the way; memory and its gas, the gas handed to a callee,
      opcode names, fork order and compatibility.
    - State: snapshots and reverts, commit, storage slots, account encoding; the
      skip list refines a finite map for every random height; joined iterators
      enumerate the two layers; a deleted key keeps its node; commit destroys the suicided contracts and
      nothing else.
    - Precompiled contracts: none but the console panics, gas and output are
      bounded (the nine BLS12-381 contracts are left out of that theorem, as their
      curve is not modelled); modular exponentiation follows EIP-198, BLAKE2b and its compression
      contract RFC 7693 and EIP-152.
    - bn256: the tower computes in the fields with [P^2], [P^6] and [P^12] elements
      and the final exponentiation is the power [(P^12 - 1) / Order]; points stay
      well-formed; the encodings are exact; the contracts of addition and
      multiplication implement the group law of the curve, and the pairing contract
      answers for the product of the Miller values, whose lines are the tangents
      and chords of the points the loop passes (Bn256Pairing).  That the value is a
      bilinear map, and that the chord and tangent law is associative, are theorems
      of algebraic geometry and are not proved; no property needs them.
    - ABI: encoding gives the bytes of the ABI specification for every Go
      representation of a value, and decoding gives the value back; what the type
      parser does on every text, and that the text of a type is read back; logs
      and call data are read back, and which logs and inputs are refused.
    - JSON: blocks, logs and transactions are read back from their JSON, and which
      transactions are not.
    - Tracker: handling a block keeps the window a chain and the logs of every
      synchronised filter those of the blocks it followed (a refinement: the
      stored logs are a function of the history), as long as events are received
      and the node does not answer null for a parent, where it panics; [Sync]
      terminates and completes the logs of a filter on a chain that stands still
      while the window is full.
    - Defects of the code, as theorems on the faithful model: an underfunded
      sender mints wei, by exactly how much being proved for every message that
      cannot pay its intrinsic gas, crafted revert data panics, an account that only has a
      balance is lost, [SubUint64] keeps stale limbs, a joined iterator cannot be
      restarted; doubling a point of bn256 in place leaves the curve; a transaction
      that destroys a contract panics on a remote store, and the logs of a receipt
      have index zero; the ABI
      examples of AbiTheorems; synchronising after a
      reorganisation panics, a race and a failed request lose logs, and the other
      examples at the end of TrackerTheorems and StructsTheorems.

    ** Bounds and fuel

    Loops that Go writes with [for] and that are not structural carry fuel, and
    running out is a value of its own ([NoFuel]), so a theorem that a function
    returns includes that the fuel is enough.  The fuel of the EVM is compared
    with the gas: every step burns at least one unit, so a call with [gas] units
    and more fuel than gas returns.  The searches of the skip list get
    [search_fuel], the length of the node array plus the height; a joined
    iterator needs as much as the pairs it joins plus two.  Sizes are bounded
    where Go's [int] would overflow: slices below 2^58 ([max_slice]), codec
    buffers below 2^59 ([max_sink]), call data below 2^57 ([max_data]).  The
    precompiled contracts allocate what their input asks for; Go refuses more than
    2^48 bytes ([maxAlloc]), and below 2^46 gas no such operand is paid for.  The parser of types gets four times the
    length of its text and eight more ([parse_fuel]), which [NewType_returns]
    proves enough.  A synchronisation needs 65 steps per block: at most 64 times
    a batch is halved before a range of one block succeeds.

    ** Parameters and what is not modelled

    Parameters: Keccak and the other hash functions, secp256k1 and the curve
    bls12381 of the precompiled contracts ([Crypto]), the persistent store and its iterators,
    [util.BytesPrefix] of goleveldb, the random heights of the skip list, the
    abort flag of the interpreter, the spare capacity of slices, the JSON and RLP
    libraries, the transport of the JSON-RPC client and the node behind it, the
    order in which Go visits a map, Etherscan, and the blocks other goroutines
    handle while a lock is free.  Each property that relies on one states the
    documented behaviour it needs as a hypothesis and has a witness in World.v or
    beside it.

    Not modelled: tracing and debug output (no effect on the results); the
    JSON-RPC transports and subscriptions, wallets, the database bindings of the tracker's stores and
    code generators (network and file input/output); the curve
    bls12381 (assembly with a portable version of unrolled limb arithmetic),
    secp256k1 (a C library) and Keccak; text and JSON conversions of
    256-bit integers. *)

From Stdlib Require Export ZArith Lia Bool.
From stdpp Require Export base list gmap numbers.

#[global] Open Scope Z_scope.

(** ** Outcomes of Go code

    A Go function either returns, panics, or, for the fuelled model of an
    unbounded loop, runs out of model fuel.  A panic records where it comes
    from: the modelled code itself (index out of range, nil dereference, an
    explicit [panic]), or a method behind an interface the code calls (a
    [StateDB], a precompiled contract), or a JUMPDEST bitmap cached under the
    hash of other code ([PHash]).  [outcome] is a monad for stdpp's
    [x ← m; k] notation. *)
Inductive panic_source := PCode | PState | PPrecompile | PHash.
Inductive outcome (A : Type) : Type :=
| Ret (a : A)
| PanicAt (src : panic_source)
| NoFuel.
Arguments Ret {A} a.
Arguments PanicAt {A} src.
Arguments NoFuel {A}.
Abbreviation Panic := (PanicAt PCode).

#[export] Instance outcome_ret : MRet outcome := @Ret.
#[export] Instance outcome_bind : MBind outcome := fun A B f m =>
  match m with Ret a => f a | PanicAt p => PanicAt p | NoFuel => NoFuel end.

(** Code that passes a state along: [M St A] reads and updates a state of
    type [St]. *)
Definition M (St A : Type) : Type := St -> outcome (A * St).
#[export] Instance M_ret St : MRet (M St) := fun A a s => Ret (a, s).
#[export] Instance M_bind St : MBind (M St) := fun A B f m s =>
  '(a, s') ← m s; f a s'.
Definition get {St} : M St St := fun s => Ret (s, s).
Definition put {St} (s : St) : M St () := fun _ => Ret ((), s).
Definition modify {St} (f : St -> St) : M St () := fun s => Ret ((), f s).
Definition gets {St A} (f : St -> A) : M St A := fun s => Ret (f s, s).
Definition panic {St A} : M St A := fun _ => Panic.
Definition lift {St A} (m : outcome A) : M St A := fun s => a ← m; Ret (a, s).
(** A method of an interface: [None] is a panic inside it. *)
Definition foreign {St A} (src : panic_source) (m : St -> option (A * St)) : M St A :=
  fun s => match m s with Some r => Ret r | None => PanicAt src end.

(** The weakest precondition of a state-passing computation: it returns with
    [Q], or panics inside an interface method.  It rules out both a panic of
    the code and running out of fuel. *)
Definition wp {St A} (m : M St A) (Q : A -> St -> Prop) (s : St) : Prop :=
  match m s with
  | Ret (a, s') => Q a s'
  | PanicAt PCode => False
  | PanicAt _ => True
  | NoFuel => False
  end.

(** ** Bytes, addresses, hashes

    A byte is a [Z] in [0, 256); [[]byte], [[20]byte] (Address) and [[32]byte]
    (Hash) are lists of them. *)
Abbreviation bytes := (list Z) (only parsing).
Abbreviation Address := (list Z) (only parsing).
Abbreviation Hash := (list Z) (only parsing).

Definition is_byte (b : Z) : Prop := 0 <= b < 256.
Abbreviation bytes_ok := (Forall is_byte).

Definition len (l : bytes) : Z := Z.of_nat (length l).

(** The zero values of [web3.Address] and [web3.Hash]. *)
Definition zero_address : Address := replicate 20 0.
Definition zero_hash : Hash := replicate 32 0.

Definition is_hash (h : Hash) : Prop := bytes_ok h /\ length h = 32%nat.
Definition is_address (a : Address) : Prop := bytes_ok a /\ length a = 20%nat.

(** Slices [l[a:b]]; Go panics unless [0 <= a <= b <= cap(l)], callers
    check the range with [slice_ok]. *)
Definition slice (a b : Z) (l : bytes) : bytes :=
  take (Z.to_nat (b - a)) (drop (Z.to_nat a) l).
Definition slice_ok (a b : Z) (l : bytes) : bool :=
  (0 <=? a) && (a <=? b) && (b <=? len l).

(** [copy(dst[off:off+size], src)]: as many bytes as fit. *)
Definition copy_at (off size : Z) (src dst : bytes) : bytes :=
  let n := Z.min size (len src) in
  take (Z.to_nat off) dst ++ take (Z.to_nat n) src ++ drop (Z.to_nat (off + n)) dst.

(** ** Big-endian and little-endian values *)
Fixpoint le_val (l : bytes) : Z :=
  match l with
  | [] => 0
  | b :: l' => b + 256 * le_val l'
  end.
Definition be_val (l : bytes) : Z := foldl (fun a b => a * 256 + b) 0 l.

Fixpoint le_bytes (n : nat) (z : Z) : bytes :=
  match n with
  | O => []
  | S n' => z mod 256 :: le_bytes n' (z / 256)
  end.
Definition be_bytes (n : nat) (z : Z) : bytes := rev (le_bytes n z).

(** ** Automation

    [evm] holds the rewrite rules and facts every component uses:
    ranges of bytes and words, lengths of list operations. *)
Create HintDb evm.
Create Rewrite HintDb evm_len.

(** Case-split on every boolean integer comparison in the goal or the
    hypotheses, leaving linear facts. *)
Ltac zbool :=
  repeat match goal with
  | |- context [Z.eqb ?a ?b] => destruct (Z.eqb_spec a b)
  | |- context [Z.ltb ?a ?b] => destruct (Z.ltb_spec a b)
  | |- context [Z.leb ?a ?b] => destruct (Z.leb_spec a b)
  | H : context [Z.eqb ?a ?b] |- _ => destruct (Z.eqb_spec a b)
  | H : context [Z.ltb ?a ?b] |- _ => destruct (Z.ltb_spec a b)
  | H : context [Z.leb ?a ?b] |- _ => destruct (Z.leb_spec a b)
  end.

(** Split an outcome bind in a hypothesis [H : (x ← m; k) = r]. *)
Ltac bind_inv H :=
  match type of H with
  | mbind _ ?m = _ =>
      let E := fresh "E" in
      destruct m eqn:E; simpl in H; try discriminate H
  end.

(** Linear arithmetic with [/] and [mod] by constants. *)
Ltac dlia := Z.to_euclidean_division_equations; lia.

(** ** Lemmas on outcomes *)
Lemma bind_Ret {A B} (m : outcome A) (f : A -> outcome B) b :
  (m ≫= f) = Ret b <-> exists a, m = Ret a /\ f a = Ret b.
Proof. destruct m; simpl; split; [eauto|by intros (?&[= ->]&?)|done|by intros (?&?&?)|done|by intros (?&?&?)]. Qed.

(** Running a bind, forwards and backwards *)
Lemma M_bind_inv {St A B} (m : M St A) (f : A -> M St B) s b s2 : (m ≫= f) s = Ret (b, s2) ->
  exists a s1, m s = Ret (a, s1) /\ f a s1 = Ret (b, s2).
Proof. cbv [mbind M_bind outcome_bind]. destruct (m s) as [[a s1]|?|]; intros E; try done. by exists a, s1. Qed.
Lemma M_bind_eq {St A B} (m : M St A) (f : A -> M St B) s a s1 : m s = Ret (a, s1) -> (m ≫= f) s = f a s1.
Proof. intros E. cbv [mbind M_bind outcome_bind]. by rewrite E. Qed.

Section wp.
Context {St : Type}.
Implicit Types s : St.

Lemma wp_mono {A} (m : M St A) (P Q : A -> St -> Prop) s :
  (forall a s', P a s' -> Q a s') -> wp m P s -> wp m Q s.
Proof. unfold wp. intros H. destruct (m s) as [[a s']|[]|]; auto. Qed.
Lemma wp_bind {A B} (m : M St A) (f : A -> M St B) Q s :
  wp m (fun a => wp (f a) Q) s -> wp (m ≫= f) Q s.
Proof. cbv [wp mbind M_bind outcome_bind]. destruct (m s) as [[a s']|[]|]; done. Qed.
Lemma wp_bind_inv {A B} (m : M St A) (f : A -> M St B) Q s :
  wp (m ≫= f) Q s -> wp m (fun a => wp (f a) Q) s.
Proof. cbv [wp mbind M_bind outcome_bind]. destruct (m s) as [[a s']|[]|]; done. Qed.
Lemma wp_ret {A} (a : A) (Q : A -> St -> Prop) s : Q a s -> wp (mret a) Q s.
Proof. done. Qed.
Lemma wp_get (Q : St -> St -> Prop) s : Q s s -> wp get Q s.
Proof. done. Qed.
Lemma wp_put s' (Q : () -> St -> Prop) s : Q () s' -> wp (put s') Q s.
Proof. done. Qed.
Lemma wp_modify f (Q : () -> St -> Prop) s : Q () (f s) -> wp (modify f) Q s.
Proof. done. Qed.
Lemma wp_gets {A} (f : St -> A) (Q : A -> St -> Prop) s : Q (f s) s -> wp (gets f) Q s.
Proof. done. Qed.
Lemma wp_lift {A} (m : outcome A) a (Q : A -> St -> Prop) s : m = Ret a -> Q a s -> wp (lift m) Q s.
Proof. intros ->. done. Qed.
Lemma wp_foreign {A} src (m : St -> option (A * St)) (Q : A -> St -> Prop) s :
  src <> PCode -> (forall a s', m s = Some (a, s') -> Q a s') -> wp (foreign src m) Q s.
Proof. unfold wp, foreign. intros ? H. destruct (m s) as [[a s']|]; [by apply H|]. by destruct src. Qed.
Lemma wp_elim {A} (m : M St A) (Q : A -> St -> Prop) s a s' : wp m Q s -> m s = Ret (a, s') -> Q a s'.
Proof. unfold wp. intros H E. by rewrite E in H. Qed.
End wp.

(** ** Integers *)
Lemma pow64 : 2 ^ 64 = 18446744073709551616.
Proof. reflexivity. Qed.

Lemma land_shift_disjoint a b n :
  0 <= n -> 0 <= a < 2 ^ n -> Z.land a (b * 2 ^ n) = 0.
Proof.
  intros Hn Ha. apply Z.bits_inj'. intros i Hi. rewrite Z.land_spec, Z.bits_0.
  destruct (Z.lt_ge_cases i n).
  - rewrite <- Z.shiftl_mul_pow2 by lia. rewrite Z.shiftl_spec_low by lia.
    apply andb_false_r.
  - rewrite <- (Z.mod_small a (2 ^ n)) by lia.
    rewrite Z.mod_pow2_bits_high by lia. reflexivity.
Qed.

Lemma lor_shift_add a b n :
  0 <= n -> 0 <= a < 2 ^ n -> Z.lor a (b * 2 ^ n) = a + b * 2 ^ n.
Proof.
  intros Hn Ha. pose proof (land_shift_disjoint a b n Hn Ha) as Hd.
  rewrite <- Z.lxor_lor by done. symmetry. by apply Z.add_nocarry_lxor.
Qed.

Lemma lor_eq_0 a b : Z.lor a b = 0 <-> a = 0 /\ b = 0.
Proof. apply Z.lor_eq_0_iff. Qed.

Lemma mod_add_mul a b m : 0 < m -> (a + b * m) mod m = a mod m.
Proof. intros. apply Z.mod_add. lia. Qed.

(** [a] is determined by being congruent and in range. *)
Lemma mod_unique_range a q m r : 0 <= r < m -> a = q * m + r -> a mod m = r.
Proof. intros Hr ->. rewrite Z.add_comm, Z.mod_add by lia. by apply Z.mod_small. Qed.

Lemma div_unique_range a q m r : 0 <= r < m -> a = q * m + r -> a / m = q.
Proof. intros Hr ->. rewrite Z.div_add_l by lia. rewrite Z.div_small by done. lia. Qed.

(** ** Endianness *)
Lemma length_le_bytes n z : length (le_bytes n z) = n.
Proof. revert z. induction n; intros; simpl; [done|]. by rewrite IHn. Qed.

Lemma length_be_bytes n z : length (be_bytes n z) = n.
Proof. unfold be_bytes. by rewrite length_rev, length_le_bytes. Qed.

Lemma le_bytes_ok n z : bytes_ok (le_bytes n z).
Proof.
  revert z. induction n; intros; simpl; constructor; auto.
  unfold is_byte. apply Z.mod_pos_bound. lia.
Qed.

Lemma be_bytes_ok n z : bytes_ok (be_bytes n z).
Proof. apply Forall_rev, le_bytes_ok. Qed.

Lemma le_val_le_bytes n z : le_val (le_bytes n z) = z mod 256 ^ Z.of_nat n.
Proof.
  revert z. induction n as [|n IH]; intros z; cbn [le_bytes le_val].
  - by rewrite Z.mod_1_r.
  - rewrite IH, Nat2Z.inj_succ, Z.pow_succ_r by lia.
    rewrite Z.rem_mul_r by (try lia; apply Z.pow_pos_nonneg; lia). done.
Qed.

Lemma le_val_bound l : bytes_ok l -> 0 <= le_val l < 256 ^ Z.of_nat (length l).
Proof.
  induction 1 as [|b l Hb Hl IH]; simpl le_val; simpl length; [lia|].
  rewrite Nat2Z.inj_succ, Z.pow_succ_r by lia. unfold is_byte in Hb. lia.
Qed.

Lemma le_bytes_le_val l : bytes_ok l -> le_bytes (length l) (le_val l) = l.
Proof.
  induction 1 as [|b l Hb Hl IH]; simpl; [done|]. unfold is_byte in Hb.
  rewrite (Z.mul_comm 256), Z.mod_add, Z.mod_small by lia.
  rewrite Z.div_add, Z.div_small by lia. by rewrite Z.add_0_l, IH.
Qed.

Lemma foldl_be_acc l a :
  foldl (fun a b => a * 256 + b) a l = a * 256 ^ Z.of_nat (length l) + be_val l.
Proof.
  unfold be_val. revert a. induction l as [|b l IH]; intros a; cbn [foldl length].
  - rewrite Z.pow_0_r. lia.
  - rewrite IH, (IH (0 * 256 + b)), Nat2Z.inj_succ, Z.pow_succ_r by lia. lia.
Qed.

Lemma be_val_app l k : be_val (l ++ k) = be_val l * 256 ^ Z.of_nat (length k) + be_val k.
Proof. unfold be_val at 1. rewrite foldl_app. apply foldl_be_acc. Qed.

Lemma be_val_cons b l : be_val (b :: l) = b * 256 ^ Z.of_nat (length l) + be_val l.
Proof. exact (be_val_app [b] l). Qed.

Lemma be_val_rev l : be_val (rev l) = le_val l.
Proof.
  induction l as [|b l IH]; simpl; [done|].
  rewrite be_val_app, IH. unfold be_val. simpl. lia.
Qed.

Lemma be_val_le_val l : be_val l = le_val (rev l).
Proof. by rewrite <- be_val_rev, rev_involutive. Qed.

Lemma be_val_bound l : bytes_ok l -> 0 <= be_val l < 256 ^ Z.of_nat (length l).
Proof.
  intros H. rewrite be_val_le_val, <- length_rev. by apply le_val_bound, Forall_rev.
Qed.

Lemma be_val_be_bytes n z : be_val (be_bytes n z) = z mod 256 ^ Z.of_nat n.
Proof. unfold be_bytes. by rewrite be_val_rev, le_val_le_bytes. Qed.

Lemma be_bytes_be_val l : bytes_ok l -> be_bytes (length l) (be_val l) = l.
Proof.
  intros H. unfold be_bytes. rewrite be_val_le_val, <- length_rev.
  rewrite le_bytes_le_val by by apply Forall_rev. apply rev_involutive.
Qed.

Lemma be_val_replicate0 n l : be_val (replicate n 0 ++ l) = be_val l.
Proof.
  induction n; simpl; [done|]. rewrite be_val_cons, IHn. lia.
Qed.

#[export] Hint Resolve le_bytes_ok be_bytes_ok : evm.
#[export] Hint Rewrite length_le_bytes length_be_bytes : evm_len.
#[global] Arguments be_bytes : simpl never.

Lemma be_bytes_mod n v : be_bytes n (v mod 256 ^ Z.of_nat n) = be_bytes n v.
Proof.
  rewrite <- be_val_be_bytes. rewrite <- (length_be_bytes n v) at 1. apply be_bytes_be_val, be_bytes_ok.
Qed.
Lemma len_nonneg l : 0 <= len l.
Proof. unfold len. lia. Qed.
Lemma len_app l k : len (l ++ k) = len l + len k.
Proof. unfold len. rewrite length_app. lia. Qed.
