(* ===== verification/Words.v ===== *)
(** * Machine words

    [uint64] values are [Z] in [0, 2^64).  This file models the operators of
    Go the sources use on them (wrap-around [+], [-], [*], shifts whose count
    may reach the width, [^]) and the functions of [math/bits] with their
    documented results, and the overflow-checked arithmetic of
    src/utils/common/math/integer.go. *)

From S2P Require Import Prelude.

Abbreviation W := 18446744073709551616 (only parsing).

Definition is_u64 (x : Z) : Prop := 0 <= x < W.

(** Conversion [uint64(z)]: reduction modulo 2^64. *)
Definition u64 (z : Z) : Z := z mod W.

(** Go's [x + y], [x - y], [x * y] on uint64. *)
Definition add64 (x y : Z) : Z := u64 (x + y).
Definition sub64 (x y : Z) : Z := u64 (x - y).
Definition mul64 (x y : Z) : Z := u64 (x * y).
(** [x << n], [x >> n]: a count of 64 or more gives 0. *)
Definition shl64 (x n : Z) : Z := u64 (Z.shiftl x n).
Definition shr64 (x n : Z) : Z := Z.shiftr x n.
Definition not64 (x : Z) : Z := W - 1 - x.

(** [int64(x)] of a uint64: two's complement reinterpretation. *)
Definition to_int64 (x : Z) : Z := if x <? 9223372036854775808 then x else x - W.

Definition MaxUint64 : Z := W - 1.

(** ** math/bits *)
Definition Add64 (x y carry : Z) : Z * Z := ((x + y + carry) mod W, (x + y + carry) / W).
Definition Sub64 (x y borrow : Z) : Z * Z :=
  ((x - y - borrow) mod W, - ((x - y - borrow) / W)).
Definition Mul64 (x y : Z) : Z * Z := ((x * y) / W, (x * y) mod W).
(** Panics for [y = 0] and for a quotient that overflows ([y <= hi]). *)
Definition Div64 (hi lo y : Z) : outcome (Z * Z) :=
  if (y =? 0) || (y <=? hi) then Panic
  else Ret ((hi * W + lo) / y, (hi * W + lo) mod y).
Definition Len64 (x : Z) : Z := if x =? 0 then 0 else Z.log2 x + 1.
Definition LeadingZeros64 (x : Z) : Z := 64 - Len64 x.

(** ** src/utils/common/math/integer.go *)
Definition SafeSub (x y : Z) : Z * bool :=
  let '(diff, borrowOut) := Sub64 x y 0 in (diff, negb (borrowOut =? 0)).
Definition SafeAdd (x y : Z) : Z * bool :=
  let '(sum, carryOut) := Add64 x y 0 in (sum, negb (carryOut =? 0)).
Definition SafeMul (x y : Z) : Z * bool :=
  let '(hi, lo) := Mul64 x y in (lo, negb (hi =? 0)).

(** ** Facts *)
Lemma u64_range z : is_u64 (u64 z).
Proof. unfold is_u64, u64. apply Z.mod_pos_bound. lia. Qed.

Lemma u64_small z : is_u64 z -> u64 z = z.
Proof. unfold is_u64, u64. intros. by apply Z.mod_small. Qed.

Lemma add64_range x y : is_u64 (add64 x y).
Proof. apply u64_range. Qed.
Lemma sub64_range x y : is_u64 (sub64 x y).
Proof. apply u64_range. Qed.
Lemma mul64_range x y : is_u64 (mul64 x y).
Proof. apply u64_range. Qed.
Lemma shl64_range x n : is_u64 (shl64 x n).
Proof. apply u64_range. Qed.

Lemma add64_nowrap x y : is_u64 x -> is_u64 y -> x + y < W -> add64 x y = x + y.
Proof. intros. apply u64_small. unfold is_u64 in *. lia. Qed.

Lemma to_int64_nowrap x : x < 2 ^ 63 -> to_int64 x = x.
Proof. intros. unfold to_int64. destruct (Z.ltb_spec x 9223372036854775808); lia. Qed.

Lemma sub64_nowrap x y : is_u64 x -> is_u64 y -> y <= x -> sub64 x y = x - y.
Proof. intros. apply u64_small. unfold is_u64 in *. lia. Qed.

Lemma shr64_range x n : is_u64 x -> 0 <= n -> is_u64 (shr64 x n).
Proof.
  unfold is_u64, shr64. intros Hx Hn. rewrite Z.shiftr_div_pow2 by done.
  assert (1 <= 2 ^ n) by (apply Z.pow_le_mono_r with (b := 0) (c := n) (a := 2); lia).
  split; [apply Z.div_pos; lia|].
  apply Z.le_lt_trans with x; [apply Z.div_le_upper_bound; nia|lia].
Qed.

Lemma not64_range x : is_u64 x -> is_u64 (not64 x).
Proof. unfold is_u64, not64. lia. Qed.

#[export] Hint Resolve u64_range add64_range sub64_range mul64_range shl64_range
  shr64_range not64_range : evm.

(** The value equation of [Add64]: sum plus carry is the exact sum. *)
Lemma Add64_spec x y c s k :
  is_u64 x -> is_u64 y -> 0 <= c <= 1 -> Add64 x y c = (s, k) ->
  s + k * W = x + y + c /\ is_u64 s /\ 0 <= k <= 1.
Proof. unfold is_u64, Add64. intros Hx Hy Hc [= <- <-]. dlia. Qed.

Lemma Sub64_spec x y c s k :
  is_u64 x -> is_u64 y -> 0 <= c <= 1 -> Sub64 x y c = (s, k) ->
  s - k * W = x - y - c /\ is_u64 s /\ 0 <= k <= 1.
Proof. unfold is_u64, Sub64. intros Hx Hy Hc [= <- <-]. dlia. Qed.

Lemma Mul64_spec x y hi lo :
  is_u64 x -> is_u64 y -> Mul64 x y = (hi, lo) ->
  hi * W + lo = x * y /\ is_u64 lo /\ 0 <= hi <= W - 2.
Proof.
  unfold is_u64, Mul64. intros Hx Hy [= <- <-].
  assert (0 <= x * y <= (W - 1) * (W - 1)) by nia. dlia.
Qed.

Lemma SafeAdd_spec x y :
  is_u64 x -> is_u64 y ->
  SafeAdd x y = (add64 x y, negb (x + y <? W)).
Proof.
  unfold is_u64, SafeAdd, Add64, add64, u64. intros Hx Hy. rewrite Z.add_0_r.
  f_equal. f_equal. zbool; try done; dlia.
Qed.

Lemma SafeMul_spec x y :
  is_u64 x -> is_u64 y ->
  SafeMul x y = (mul64 x y, negb (x * y <? W)).
Proof.
  unfold is_u64, SafeMul, Mul64, mul64, u64. intros Hx Hy.
  assert (0 <= x * y) by nia.
  f_equal. f_equal. zbool; try done; dlia.
Qed.

Lemma SafeAdd_ok x y s :
  is_u64 x -> is_u64 y -> SafeAdd x y = (s, false) -> s = x + y /\ is_u64 s.
Proof.
  intros Hx Hy. rewrite SafeAdd_spec by done. intros [= <- E].
  destruct (Z.ltb_spec (x + y) W); [|done].
  rewrite add64_nowrap by done. unfold is_u64 in *. lia.
Qed.

Lemma SafeMul_ok x y s :
  is_u64 x -> is_u64 y -> SafeMul x y = (s, false) -> s = x * y /\ is_u64 s.
Proof.
  intros Hx Hy. rewrite SafeMul_spec by done. intros [= <- E].
  destruct (Z.ltb_spec (x * y) W); [|done].
  unfold mul64. unfold is_u64 in *. rewrite u64_small; unfold is_u64; nia.
Qed.

Lemma Len64_spec x : is_u64 x -> 0 <= Len64 x <= 64 /\ x < 2 ^ Len64 x
  /\ (x <> 0 -> 2 ^ (Len64 x - 1) <= x).
Proof.
  unfold is_u64, Len64. intros Hx. destruct (Z.eqb_spec x 0) as [->|Hn]; [simpl; lia|].
  pose proof (Z.log2_spec x ltac:(lia)) as Hl.
  assert (Z.log2 x < 64) by (apply Z.log2_lt_pow2; simpl; lia).
  pose proof (Z.log2_nonneg x).
  replace (Z.log2 x + 1 - 1) with (Z.log2 x) by lia.
  replace (Z.log2 x + 1) with (Z.succ (Z.log2 x)) by lia. lia.
Qed.
