(* ===== verification/Text.v ===== *)
(** * Text

    Strings are lists of bytes.  This file models what the sources use of Go's
    [strings], [strconv], [encoding/hex], [fmt] and [math/big] to write and read
    numbers and byte strings: decimal and hexadecimal digits, the [0x] prefix,
    and [unmarshalTextByte] of src/structs_unmarshal.go, which reads a hash or an
    address. *)

From Stdlib Require Import Ascii.
From stdpp Require Import strings.
From S2P Require Import Prelude Words.

(** ** Strings *)
Definition str (s : String.string) : bytes := (fun c => Z.of_N (N_of_ascii c)) <$> String.list_ascii_of_string s.
Arguments str s%_string.
(** The longest prefix of bytes that satisfy [p], and the rest. *)
Fixpoint span (p : Z -> bool) (s : bytes) : bytes * bytes :=
  match s with
  | [] => ([], [])
  | c :: s' => if p c then let '(a, r) := span p s' in (c :: a, r) else ([], s)
  end.
Definition join (sep : bytes) (l : list bytes) : bytes :=
  match l with [] => [] | s :: l => s ++ mjoin ((fun s => sep ++ s) <$> l) end.
(** [%d] of a number that is not negative. *)
Fixpoint dec_loop (fuel : nat) (z : Z) (acc : bytes) : bytes :=
  match fuel with
  | O => acc
  | S fuel => if z <? 10 then (48 + z) :: acc else dec_loop fuel (z / 10) ((48 + z mod 10) :: acc)
  end.
Definition dec (z : Z) : bytes := dec_loop (S (Z.to_nat (Z.log2 z))) z [].
(** [big.Int.String] *)
Definition decInt (z : Z) : bytes := if z <? 0 then 45 :: dec (- z) else dec z.
Definition undec (s : bytes) : Z := foldl (fun a c => 10 * a + (c - 48)) 0 s.
Definition isDigit (ch : Z) : bool := (48 <=? ch) && (ch <=? 57).
(** [strconv.Atoi] and [strconv.ParseUint(_, 10, 32)] of a string of digits. *)
Definition Atoi (s : bytes) : option Z := if undec s <? 2 ^ 63 then Some (undec s) else None.
Definition ParseUint32 (s : bytes) : option Z := if undec s <? 2 ^ 32 then Some (undec s) else None.


(** [strings.Trim(s, "c")] for a cutset of one character, [strings.HasPrefix] *)
Definition trim_left (c : Z) (s : bytes) : bytes := (span (Z.eqb c) s).2.
Definition trim (c : Z) (s : bytes) : bytes := rev (trim_left c (rev (trim_left c s))).
Fixpoint strip_prefix (p s : bytes) : option bytes :=
  match p, s with
  | [], _ => Some s
  | a :: p, b :: s => if a =? b then strip_prefix p s else None
  | _ :: _, [] => None
  end.
Definition quote : Z := 34.

(** ** Hexadecimal digits *)
Definition hexDigit (d : Z) : Z := if d <? 10 then 48 + d else 87 + d.
(** The value of a digit, in either case *)
Definition fromHexChar (c : Z) : option Z :=
  if (48 <=? c) && (c <=? 57) then Some (c - 48)
  else if (97 <=? c) && (c <=? 102) then Some (c - 87)
  else if (65 <=? c) && (c <=? 70) then Some (c - 55)
  else None.

(** ** Byte strings: [hex.EncodeToString], [hex.DecodeString] *)
Definition EncodeToString (b : bytes) : bytes := mjoin ((fun x => [hexDigit (x / 16); hexDigit (x mod 16)]) <$> b).
(** The bytes before the first error, and whether there was none *)
Fixpoint DecodeString (s : bytes) : bytes * bool :=
  match s with
  | [] => ([], true)
  | [_] => ([], false)
  | c :: d :: s' =>
      match fromHexChar c, fromHexChar d with
      | Some a, Some b => let '(r, ok) := DecodeString s' in (16 * a + b :: r, ok)
      | _, _ => ([], false)
      end
  end.

(** ** Numbers: [%x], [strconv.ParseUint(s, 16, 64)], [big.Int.SetString(s, 16)] *)
Fixpoint hex_loop (fuel : nat) (z : Z) (acc : bytes) : bytes :=
  match fuel with
  | O => acc
  | S fuel => if z <? 16 then hexDigit z :: acc else hex_loop fuel (z / 16) (hexDigit (z mod 16) :: acc)
  end.
Definition hexNat (z : Z) : bytes := hex_loop (S (Z.to_nat (Z.log2 z))) z [].
Definition hexNum (z : Z) : bytes := if z <? 0 then 45 :: hexNat (- z) else hexNat z.
Fixpoint unhex_acc (acc : Z) (s : bytes) : option Z :=
  match s with
  | [] => Some acc
  | c :: s => match fromHexChar c with Some d => unhex_acc (16 * acc + d) s | None => None end
  end.
Definition unhex (s : bytes) : option Z := match s with [] => None | _ => unhex_acc 0 s end.
Definition ParseUint (s : bytes) : option Z :=
  match unhex s with Some z => if z <? W then Some z else None | None => None end.
Definition SetString (s : bytes) : option Z :=
  match s with
  | c :: s' => if c =? 45 then Z.opp <$> unhex s' else if c =? 43 then unhex s' else unhex s
  | [] => None
  end.
(** [strconv.ParseUint(s, 10, 64)] *)
Definition ParseUint10 (s : bytes) : option Z :=
  if bool_decide (s = []) || negb (forallb isDigit s) then None else if undec s <? W then Some (undec s) else None.
Definition x0 : bytes := [48; 120].

(** ** [unmarshalTextByte]: a byte string of a fixed size *)
Inductive text_error := noPrefix | badHex | badLength.
Definition unmarshalTextByte (src : bytes) (size : Z) : bytes + text_error :=
  match strip_prefix x0 (trim quote src) with
  | None => inr noPrefix
  | Some s =>
      let '(b, ok) := DecodeString s in
      if negb ok then inr badHex else if negb (len b =? size) then inr badLength else inl b
  end.
Definition toText (b : bytes) : bytes := x0 ++ EncodeToString b.

(** ** Round trips *)
Definition hexChar (c : Z) : Prop := exists d, 0 <= d < 16 /\ c = hexDigit d.
Lemma fromHexChar_hexDigit d : 0 <= d < 16 -> fromHexChar (hexDigit d) = Some d.
Proof. intros. unfold fromHexChar, hexDigit. zbool; cbn [andb]; try (f_equal; lia); lia. Qed.
Lemma hexDigit_range d : 0 <= d < 16 -> 48 <= hexDigit d <= 102.
Proof. unfold hexDigit. intros. zbool; lia. Qed.
Lemma hexChar_range c : hexChar c -> 48 <= c <= 102 /\ c <> 92.
Proof. intros (d & Hd & ->). unfold hexDigit. zbool; lia. Qed.
Lemma EncodeToString_hex b : bytes_ok b -> Forall hexChar (EncodeToString b).
Proof.
  unfold EncodeToString. induction 1 as [|x b Hx Hb IH]; cbn; [constructor|]. unfold is_byte in Hx.
  constructor; [exists (x / 16); split; [dlia|done]|]. constructor; [exists (x mod 16); split; [dlia|done]|exact IH].
Qed.
Lemma DecodeString_EncodeToString b : bytes_ok b -> DecodeString (EncodeToString b) = (b, true).
Proof.
  induction 1 as [|x b Hx Hb IH]; [done|]. unfold is_byte in Hx. change (EncodeToString (x :: b)) with (hexDigit (x / 16) :: hexDigit (x mod 16) :: EncodeToString b).
  cbn [DecodeString]. rewrite !fromHexChar_hexDigit by dlia. rewrite IH. do 2 f_equal. dlia.
Qed.
Lemma unhex_acc_app a s t : unhex_acc a (s ++ t) = unhex_acc a s ≫= fun a => unhex_acc a t.
Proof. revert a. induction s as [|c s IH]; intros a; cbn; [done|]. destruct (fromHexChar c); [apply IH|done]. Qed.
Lemma hex_loop_ok fuel : forall z acc, 0 <= z < 16 ^ Z.of_nat fuel -> (0 < fuel)%nat ->
  exists d, hex_loop fuel z acc = d ++ acc /\ unhex_acc 0 d = Some z /\ d <> [] /\ Forall hexChar d.
Proof.
  induction fuel as [|fuel IH]; intros z acc Hz Hf; [lia|]. cbn [hex_loop]. destruct (Z.ltb_spec z 16) as [Hs|Hs].
  - exists [hexDigit z]. cbn. rewrite fromHexChar_hexDigit by lia. split_and!; [done|done|done|].
    constructor; [|constructor]. exists z. split; [lia|done].
  - rewrite Nat2Z.inj_succ, Z.pow_succ_r in Hz by lia.
    assert (0 < fuel)%nat by (destruct fuel; [|lia]; cbn in Hz; lia).
    destruct (IH (z / 16) (hexDigit (z mod 16) :: acc)) as (d & -> & Hv & Hne & Hd); [split; [dlia|apply Z.div_lt_upper_bound; lia]|done|].
    exists (d ++ [hexDigit (z mod 16)]). rewrite <- app_assoc. split_and!; [done| |by destruct d|].
    + rewrite unhex_acc_app, Hv. cbn. rewrite fromHexChar_hexDigit by dlia. f_equal. dlia.
    + apply Forall_app; split; [done|]. constructor; [|constructor]. exists (z mod 16). split; [dlia|done].
Qed.
Lemma hexNat_ok z : 0 <= z -> unhex (hexNat z) = Some z /\ hexNat z <> [] /\ Forall hexChar (hexNat z).
Proof.
  intros Hz. destruct (hex_loop_ok (S (Z.to_nat (Z.log2 z))) z []) as (d & E & Hv & Hne & Hd); [|lia|].
  - split; [done|]. rewrite Nat2Z.inj_succ, Z2Nat.id by apply Z.log2_nonneg.
    destruct (Z.eq_dec z 0) as [->|]; [done|]. destruct (Z.log2_spec z) as [_ H]; [lia|].
    eapply Z.lt_le_trans; [exact H|]. apply Z.pow_le_mono_l. lia.
  - unfold hexNat. rewrite E, app_nil_r. split_and!; [|done|done]. unfold unhex. by destruct d.
Qed.
Lemma ParseUint_hexNum z : is_u64 z -> ParseUint (hexNum z) = Some z.
Proof.
  unfold is_u64. intros Hz. unfold ParseUint, hexNum. destruct (Z.ltb_spec z 0); [lia|].
  destruct (hexNat_ok z) as [-> _]; [lia|]. destruct (Z.ltb_spec z W); [done|lia].
Qed.
Lemma SetString_hexNum z : SetString (hexNum z) = Some z.
Proof.
  unfold SetString, hexNum. destruct (Z.ltb_spec z 0).
  - rewrite Z.eqb_refl. destruct (hexNat_ok (- z)) as [-> _]; [lia|]. cbn. f_equal. lia.
  - destruct (hexNat_ok z) as (Hv & Hne & Hd); [lia|]. destruct (hexNat z) as [|c s]; [done|].
    pose proof (hexChar_range c ltac:(by inversion Hd)). zbool; [lia|lia|done].
Qed.

(** Characters that JSON prints as they are, and that are no quotes *)
Definition plain_char (c : Z) : Prop := 32 <= c < 127 /\ c <> 34 /\ c <> 92.
Abbreviation plain := (Forall plain_char).
Lemma hexChar_plain s : Forall hexChar s -> plain s.
Proof. apply Forall_impl. intros c Hc%hexChar_range. unfold plain_char. lia. Qed.
Lemma plain_x0 s : plain s -> plain (x0 ++ s).
Proof. intros. repeat constructor; cbn; try lia; done. Qed.
Lemma plain_toText b : bytes_ok b -> plain (toText b).
Proof. intros. by apply plain_x0, hexChar_plain, EncodeToString_hex. Qed.
Lemma plain_hexNum z : plain (x0 ++ hexNum z).
Proof.
  apply plain_x0. unfold hexNum. destruct (Z.ltb_spec z 0); [constructor; [unfold plain_char; lia|]|];
    apply hexChar_plain, hexNat_ok; lia.
Qed.
Lemma trim_left_plain c s : Forall (fun b => b <> c) s -> trim_left c s = s.
Proof. intros H. unfold trim_left. destruct H as [|b s Hb]; [done|]. cbn. by destruct (Z.eqb_spec c b). Qed.
Lemma trim_left_hit c s : trim_left c (c :: s) = trim_left c s.
Proof. unfold trim_left. cbn. rewrite Z.eqb_refl. by destruct (span _ s). Qed.
Lemma trim_plain s : plain s -> trim quote s = s.
Proof.
  intros H. assert (Forall (fun b => b <> quote) s) as H' by (eapply Forall_impl; [|exact H]; unfold plain_char, quote; cbn; lia).
  unfold trim. rewrite (trim_left_plain quote s), trim_left_plain; [apply rev_involutive|by apply Forall_rev|done].
Qed.
Lemma trim_left_app c s t : s <> [] -> Forall (fun b => b <> c) s -> trim_left c (s ++ t) = s ++ t.
Proof. intros Hne H. unfold trim_left. destruct H as [|b s Hb]; [done|]. cbn. by destruct (Z.eqb_spec c b). Qed.
Lemma trim_quoted s : plain s -> trim quote (quote :: s ++ [quote]) = s.
Proof.
  intros H. assert (Forall (fun b => b <> quote) s) as H' by (eapply Forall_impl; [|exact H]; unfold plain_char, quote; cbn; lia).
  destruct (decide (s = [])) as [->|Hne]; [done|].
  unfold trim. rewrite trim_left_hit, trim_left_app, rev_app_distr by done. change (rev [quote] ++ rev s) with (quote :: rev s).
  rewrite trim_left_hit, trim_left_plain by by apply Forall_rev. apply rev_involutive.
Qed.
Lemma unmarshal_toText b : bytes_ok b -> unmarshalTextByte (toText b) (len b) = inl b.
Proof.
  intros Hb. unfold unmarshalTextByte. rewrite trim_plain by by apply plain_toText. cbn.
  rewrite DecodeString_EncodeToString by done. cbn. by rewrite Z.eqb_refl.
Qed.
#[export] Hint Resolve plain_toText plain_hexNum : evm.
Lemma dec_loop_ok fuel : forall z acc, 0 <= z < 10 ^ Z.of_nat fuel -> (0 < fuel)%nat ->
  exists d, dec_loop fuel z acc = d ++ acc /\ undec d = z /\ d <> [] /\ Forall (fun c => isDigit c = true) d.
Proof.
  induction fuel as [|fuel IH]; intros z acc Hz Hf; [lia|]. cbn [dec_loop].
  assert (forall k, 0 <= k < 10 -> isDigit (48 + k) = true) as Hdig by (intros k Hk; unfold isDigit; apply andb_true_intro; split; apply Z.leb_le; lia).
  destruct (Z.ltb_spec z 10).
  - exists [48 + z]. split_and!; [done|unfold undec; cbn; lia|done|]. constructor; [apply Hdig; lia|constructor].
  - rewrite Nat2Z.inj_succ, Z.pow_succ_r in Hz by lia. assert (0 < z / 10) as Hq by (apply Z.div_str_pos; lia).
    destruct fuel as [|fuel]; [cbn in Hz; lia|].
    destruct (IH (z / 10) ((48 + z mod 10) :: acc)) as (d & -> & Hv & Hn & Hd); [split; [lia|]; apply Z.div_lt_upper_bound; lia|lia|].
    pose proof (Z.mod_pos_bound z 10 ltac:(lia)). exists (d ++ [48 + z mod 10]). split_and!.
    + by rewrite <- app_assoc.
    + unfold undec in *. rewrite foldl_app, Hv. cbn. pose proof (Z.div_mod z 10 ltac:(lia)). lia.
    + by destruct d.
    + apply Forall_app; split; [done|]. constructor; [apply Hdig; lia|constructor].
Qed.
Lemma dec_ok z : 0 <= z -> undec (dec z) = z /\ dec z <> [] /\ Forall (fun c => isDigit c = true) (dec z).
Proof.
  intros Hz. destruct (dec_loop_ok (S (Z.to_nat (Z.log2 z))) z []) as (d & E & H); [|lia|unfold dec; rewrite E, app_nil_r; exact H].
  split; [done|]. rewrite Nat2Z.inj_succ, Z2Nat.id by apply Z.log2_nonneg. destruct (Z.eq_dec z 0) as [->|]; [done|].
  eapply Z.lt_le_trans; [apply Z.log2_spec; lia|]. apply Z.pow_le_mono_l. lia.
Qed.
