(* ===== verification/BigInt.v ===== *)
(** * Big integers

    What the code uses of [math/big]: a [*big.Int] is a [Z].  [bigBytes] is
    [Bytes] and [BitLen] is [BitLen], both of the absolute value. *)

From S2P Require Import Prelude Words.

(** [big.Int.Bytes]: big-endian without leading zeros. *)
Definition bigBytes (x : Z) : bytes := if x =? 0 then [] else be_bytes (Z.to_nat (Z.log2 (Z.abs x) / 8 + 1)) (Z.abs x).
Definition BitLen (x : Z) : Z := if x =? 0 then 0 else Z.log2 (Z.abs x) + 1.
Definition BigMax (x y : Z) : Z := if x <? y then y else x.
Definition BigMin (x y : Z) : Z := if y <? x then y else x.

Lemma bigBytes_ok x : 0 <= x -> bytes_ok (bigBytes x) /\ be_val (bigBytes x) = x.
Proof.
  intros Hx. unfold bigBytes. rewrite (Z.abs_eq x) by done. destruct (Z.eqb_spec x 0) as [->|Hne]; [by split; [constructor|]|].
  pose proof (Z.log2_spec x ltac:(lia)) as [L1 L2]. pose proof (Z.log2_nonneg x).
  set (k := Z.log2 x / 8 + 1). assert (0 <= Z.log2 x / 8) by (apply Z.div_pos; lia).
  assert (x < 256 ^ k).
  { change 256 with (2 ^ 8). rewrite <- Z.pow_mul_r by lia. eapply Z.lt_le_trans; [exact L2|]. apply Z.pow_le_mono_r; [lia|].
    pose proof (Z.div_mod (Z.log2 x) 8 ltac:(lia)). pose proof (Z.mod_pos_bound (Z.log2 x) 8 ltac:(lia)). unfold k. lia. }
  split.
  - apply be_bytes_ok.
  - rewrite be_val_be_bytes, Z2Nat.id by lia. apply Z.mod_small. lia.
Qed.
Lemma bigBytes_len x n : 0 <= n -> 0 <= x < 256 ^ n -> len (bigBytes x) <= n.
Proof.
  intros Hn Hx. unfold bigBytes. rewrite (Z.abs_eq x) by lia. destruct (Z.eqb_spec x 0) as [->|Hne]; [change (len []) with 0; lia|].
  pose proof (Z.log2_nonneg x). assert (0 <= Z.log2 x / 8) by (apply Z.div_pos; lia). unfold len. rewrite length_be_bytes, Z2Nat.id by lia.
  assert (Z.log2 x < 8 * n). { apply Z.log2_lt_pow2; [lia|]. rewrite Z.pow_mul_r by lia. apply Hx. }
  enough (Z.log2 x / 8 < n) by lia. apply Z.div_lt_upper_bound; lia.
Qed.
Lemma BigMax_max x y : BigMax x y = Z.max x y.
Proof. unfold BigMax. destruct (Z.ltb_spec x y); lia. Qed.
Lemma BitLen_gt x n : 0 <= x -> 0 <= n -> (n <? BitLen x) = (2 ^ n <=? x).
Proof.
  intros Hx Hn. unfold BitLen. rewrite (Z.abs_eq x) by done. destruct (Z.eqb_spec x 0) as [->|Hne].
  - destruct (Z.ltb_spec n 0); [lia|]. symmetry. apply Z.leb_gt. apply Z.pow_pos_nonneg; lia.
  - apply Bool.eq_iff_eq_true. rewrite Z.ltb_lt, Z.leb_le, (Z.log2_le_pow2 x n) by lia. lia.
Qed.
