(* ===== verification/MathUtil.v ===== *)
(** * Integers of package math

    src/utils/common/math: the text forms of integer.go and the operations of
    big.go.  A [*big.Int] is a [Z]; [Bits] is the list of its 64-bit words, the
    lowest first, of the absolute value.  A function that writes into its argument
    returns the value the argument is left with. *)

From stdpp Require Import strings.
From Stdlib Require Import Zpow_facts.
From S2P Require Import Prelude Words Text BigInt.

(** ** integer.go *)
Definition upperX0 : bytes := [48; 88].
(** [s[:2] == "0x" || s[:2] == "0X"], and the rest *)
Definition hexPrefix (s : bytes) : option bytes :=
  match strip_prefix x0 s with Some r => Some r | None => strip_prefix upperX0 s end.
Definition ParseUint64 (s : bytes) : option Z :=
  match s with
  | [] => Some 0
  | _ => match hexPrefix s with Some r => ParseUint r | None => ParseUint10 s end
  end.
Definition MustParseUint64 (s : bytes) : outcome Z := match ParseUint64 s with Some v => Ret v | None => Panic end.
(** The receiver after [UnmarshalText], or an error *)
Definition HexOrDecimal64_UnmarshalText (input : bytes) : option Z := ParseUint64 input.
Definition HexOrDecimal64_MarshalText (i : Z) : bytes := x0 ++ hexNum i.

(** ** big.go: text *)
(** [big.Int.SetString(s, 10)] *)
Definition undecimal (s : bytes) : option Z := if bool_decide (s = []) || negb (forallb isDigit s) then None else Some (undec s).
Definition SetString10 (s : bytes) : option Z :=
  match s with
  | c :: s' => if c =? 45 then Z.opp <$> undecimal s' else if c =? 43 then undecimal s' else undecimal s
  | [] => None
  end.
Definition ParseBig256 (s : bytes) : option Z :=
  match s with
  | [] => Some 0
  | _ =>
      bigint ← match hexPrefix s with Some r => SetString r | None => SetString10 s end;
      if 256 <? BitLen bigint then None else Some bigint
  end.
Definition MustParseBig256 (s : bytes) : outcome Z := match ParseBig256 s with Some v => Ret v | None => Panic end.
(** [%#x] of a [*big.Int]; a nil receiver is zero. *)
Definition hexBig (z : Z) : bytes := if z <? 0 then 45 :: x0 ++ hexNat (- z) else x0 ++ hexNat z.
Definition HexOrDecimal256_UnmarshalText (input : bytes) : option Z := ParseBig256 input.
Definition HexOrDecimal256_MarshalText (i : option Z) : bytes := match i with None => str "0x0" | Some z => hexBig z end.
Definition NewHexOrDecimal256 (x : Z) : Z := x.
Definition NewDecimal256 (x : Z) : Z := x.
Definition Decimal256_UnmarshalText (input : bytes) : option Z := ParseBig256 input.
Definition Decimal256_String (i : option Z) : bytes := match i with None => str "0" | Some z => decInt z end.
Definition Decimal256_MarshalText (i : option Z) : bytes := Decimal256_String i.

(** ** big.go: numbers *)
Definition tt255 : Z := 2 ^ 255.
Definition tt256 : Z := 2 ^ 256.
Definition tt256m1 : Z := tt256 - 1.
Definition tt63 : Z := 2 ^ 63.
Definition MaxBig256 : Z := tt256m1.
Definition MaxBig63 : Z := tt63 - 1.
Definition wordBits : Z := 64.
Definition wordBytes : Z := wordBits / 8.
(** [big.Int.Exp] with no modulus: an exponent below one gives one. *)
Definition BigPow (a b : Z) : Z := if b <=? 0 then 1 else a ^ b.
Definition Bits (x : Z) : list Z :=
  (fun i => Z.abs x / 2 ^ (wordBits * i) mod W) <$> seqZ 0 ((BitLen x + 63) / 64).
(** [big.Int.Bit] looks at two's complement. *)
Fixpoint first_bit (n : nat) (i v : Z) : Z :=
  match n with O => BitLen v | S n => if Z.testbit v i then i else first_bit n (i + 1) v end.
Definition FirstBitSet (v : Z) : Z := first_bit (Z.to_nat (BitLen v)) 0 v.
(** The inner loop of [ReadBits]: at most [j] bytes of the word [d] below [i] *)
Fixpoint read_word (j : nat) (d : Z) (i : nat) (buf : bytes) : nat * bytes :=
  match j, i with
  | S j, S i => read_word j (d / 256) i (<[i := d mod 256]> buf)
  | _, _ => (i, buf)
  end.
Definition ReadBits (bigint : Z) (buf : bytes) : bytes :=
  (foldl (fun '(i, buf) d => read_word (Z.to_nat wordBytes) d i buf) (length buf, buf) (Bits bigint)).2.
Definition PaddedBigBytes (bigint n : Z) : bytes :=
  if n <=? BitLen bigint / 8 then bigBytes bigint else ReadBits bigint (replicate (Z.to_nat n) 0).
(** A negative [n] panics in Go; [Byte] never passes one. *)
Definition bigEndianByteAt (bigint n : Z) : Z :=
  match Bits bigint !! Z.to_nat (n / wordBytes) with None => 0 | Some word => word / 2 ^ (8 * (n mod wordBytes)) mod 256 end.
Definition Byte (bigint padlength n : Z) : Z := if padlength <=? n then 0 else bigEndianByteAt bigint (padlength - 1 - n).
Definition U256 (x : Z) : Z := Z.land x tt256m1.
Definition U256Bytes (n : Z) : bytes := PaddedBigBytes (U256 n) 32.
Definition S256 (x : Z) : Z := if x <? tt255 then x else x - tt256.
(** [Exp]: the result and the base, which is squared in place. *)
Fixpoint exp_word (n : nat) (word result base : Z) : Z * Z :=
  match n with
  | O => (result, base)
  | S n => exp_word n (word / 2) (if Z.odd word then U256 (result * base) else result) (U256 (base * base))
  end.
Definition Exp (base exponent : Z) : Z * Z :=
  foldl (fun '(result, base) word => exp_word (Z.to_nat wordBits) word result base) (1, base) (Bits exponent).

(** ** Two's complement *)
Lemma U256_mod x : U256 x = x mod 2 ^ 256.
Proof. unfold U256, tt256m1, tt256. change (2 ^ 256 - 1) with (Z.ones 256). by rewrite Z.land_ones by lia. Qed.
Lemma S256_U256 x : - 2 ^ 255 <= x < 2 ^ 255 -> S256 (U256 x) = x.
Proof.
  intros Hx. rewrite U256_mod. unfold S256, tt255, tt256. destruct (Z.leb_spec 0 x).
  - rewrite Z.mod_small by lia. destruct (Z.ltb_spec x (2 ^ 255)); lia.
  - rewrite <- (Z.mod_unique x (2 ^ 256) (-1) (x + 2 ^ 256)) by lia. destruct (Z.ltb_spec (x + 2 ^ 256) (2 ^ 255)); lia.
Qed.

(** ** Words *)
Definition words_value (l : list Z) : Z := foldr (fun w acc => w + W * acc) 0 l.
Lemma words_of n : forall x k, 0 <= k -> words_value ((fun i => x / 2 ^ (64 * i) mod W) <$> seqZ k (Z.of_nat n)) = (x / 2 ^ (64 * k)) mod W ^ Z.of_nat n.
Proof.
  induction n as [|n IH]; intros x k Hk; [cbn; by rewrite Z.mod_1_r|].
  rewrite Nat2Z.inj_succ, seqZ_cons by lia. cbn [fmap list_fmap words_value foldr]. fold (words_value ((fun i => x / 2 ^ (64 * i) mod W) <$> seqZ (Z.succ k) (Z.pred (Z.succ (Z.of_nat n))))).
  rewrite Z.pred_succ, IH by lia. rewrite Z.pow_succ_r by lia. replace (64 * Z.succ k) with (64 * k + 64) by lia. rewrite Z.pow_add_r by lia.
  change (2 ^ 64) with W. rewrite <- Z.div_div by (try lia; apply Z.pow_pos_nonneg; lia).
  rewrite Z.rem_mul_r; [lia|lia|]. apply Z.pow_pos_nonneg; lia.
Qed.
Lemma Bits_value x : words_value (Bits x) = Z.abs x.
Proof.
  unfold Bits, wordBits. set (n := (BitLen x + 63) / 64).
  assert (Hb : 0 <= BitLen x) by (unfold BitLen; destruct (_ =? _); [lia|]; pose proof (Z.log2_nonneg (Z.abs x)); lia).
  assert (Hn : 0 <= n) by (apply Z.div_pos; lia).
  rewrite <- (Z2Nat.id n) by done. rewrite words_of by lia. rewrite Z.mul_0_r, Z.pow_0_r, Z.div_1_r, Z2Nat.id by done.
  apply Z.mod_small. split; [lia|]. change W with (2 ^ 64). rewrite <- Z.pow_mul_r by lia.
  apply Z.lt_le_trans with (2 ^ BitLen x); [|apply Z.pow_le_mono_r; [lia|]; unfold n; pose proof (Z.div_mod (BitLen x + 63) 64 ltac:(lia)); pose proof (Z.mod_pos_bound (BitLen x + 63) 64 ltac:(lia)); lia].
  unfold BitLen. destruct (Z.eqb_spec x 0) as [->|Hx]; [done|]. apply Z.log2_spec. lia.
Qed.
Lemma Bits_range x : Forall (fun w => 0 <= w < W) (Bits x).
Proof. apply list.Forall_forall. intros w (i & -> & _)%list_elem_of_fmap. apply Z.mod_pos_bound. done. Qed.

(** ** Exponentiation *)
Abbreviation M256 := (2 ^ 256).
Lemma exp_word_ok n : forall word r b, 0 <= word < 2 ^ Z.of_nat n -> 0 <= r < M256 ->
  let '(r', b') := exp_word n word r b in
  0 <= r' < M256 /\ r' = (r * b ^ word) mod M256 /\ b' mod M256 = (b ^ (2 ^ Z.of_nat n)) mod M256.
Proof.
  induction n as [|n IH]; intros word r b Hw Hr.
  { cbn in Hw. assert (word = 0) as -> by lia. cbn [exp_word]. rewrite Z.pow_0_r, Z.mul_1_r, Z.mod_small by done. cbn. by rewrite Z.pow_1_r. }
  cbn [exp_word]. set (r1 := if Z.odd word then U256 (r * b) else r). set (b1 := U256 (b * b)).
  rewrite Nat2Z.inj_succ, Z.pow_succ_r in Hw by lia.
  assert (Hr1 : 0 <= r1 < M256) by (unfold r1; destruct (Z.odd word); [rewrite U256_mod; apply Z.mod_pos_bound; lia|done]).
  specialize (IH (word / 2) r1 b1 ltac:(split; [apply Z.div_pos; lia|apply Z.div_lt_upper_bound; lia]) Hr1).
  destruct (exp_word n (word / 2) r1 b1) as [r' b']. destruct IH as (Hr' & Er & Eb). split; [done|].
  assert (Hsq : forall k, 0 <= k -> b1 ^ k mod M256 = b ^ (2 * k) mod M256).
  { intros k Hk. unfold b1. rewrite U256_mod, <- Zpower_mod by lia. f_equal. rewrite Z.pow_mul_r by lia. f_equal. lia. }
  split.
  - rewrite Er. rewrite <- Z.mul_mod_idemp_r, Hsq, Z.mul_mod_idemp_r by (lia || (apply Z.div_pos; lia)).
    unfold r1. pose proof (Z.div_mod word 2 ltac:(lia)) as Ew. rewrite Zmod_odd in Ew. destruct (Z.odd word).
    + rewrite U256_mod, Z.mul_mod_idemp_l by lia. f_equal. rewrite Ew at 2. rewrite Z.pow_add_r, Z.pow_1_r by (lia || (apply Z.mul_nonneg_nonneg; [lia|apply Z.div_pos; lia])). lia.
    + f_equal. rewrite Ew at 2. by rewrite Z.add_0_r.
  - rewrite Eb, Hsq by (apply Z.pow_nonneg; lia). by rewrite Nat2Z.inj_succ, Z.pow_succ_r by lia.
Qed.
Lemma Exp_words l : forall r b, Forall (fun w => 0 <= w < W) l -> 0 <= r < M256 ->
  (foldl (fun '(result, base) word => exp_word (Z.to_nat wordBits) word result base) (r, b) l).1 = (r * b ^ words_value l) mod M256.
Proof.
  induction l as [|w l IH]; intros r b Hl Hr; [cbn; by rewrite Z.mul_1_r, Z.mod_small|].
  apply list.Forall_cons in Hl as [Hw Hl]. cbn [foldl]. pose proof (exp_word_ok (Z.to_nat wordBits) w r b Hw Hr) as Hx.
  destruct (exp_word (Z.to_nat wordBits) w r b) as [r' b']. destruct Hx as (Hr' & Er & Eb). rewrite IH by done.
  cbn [words_value foldr]. fold (words_value l). change (Z.of_nat (Z.to_nat wordBits)) with 64 in Eb. change (2 ^ 64) with W in Eb.
  assert (Hv : 0 <= words_value l) by (clear -Hl; induction Hl as [|w l Hw _ IH]; cbn; [lia|]; fold (words_value l); lia).
  rewrite Z.pow_add_r, Z.pow_mul_r by (clear Er Eb; lia). rewrite Er, Z.mul_mod_idemp_l by done.
  rewrite Z.mul_assoc, <- (Z.mul_mod_idemp_r (r * b ^ w)) by done. rewrite Zpower_mod, Eb, <- Zpower_mod by done.
  by rewrite Z.mul_mod_idemp_r by done.
Qed.
(** [Exp] is the power modulo 2^256. *)
Lemma Exp_ok base exponent : 0 <= exponent -> (Exp base exponent).1 = base ^ exponent mod M256.
Proof. intros He. unfold Exp. rewrite Exp_words by (apply Bits_range || lia). by rewrite Bits_value, Z.abs_eq, Z.mul_1_l by done. Qed.
(** The base is not left as it was, although the comment says so. *)
Example Exp_changes_base : (Exp 3 1).2 <> 3.
Proof. vm_compute. discriminate. Qed.

(** ** Text is read back *)
Lemma ParseUint64_hex i : is_u64 i -> ParseUint64 (HexOrDecimal64_MarshalText i) = Some i.
Proof. intros Hi. unfold ParseUint64, HexOrDecimal64_MarshalText, hexPrefix. cbn [app x0 strip_prefix Z.eqb Pos.eqb]. by apply ParseUint_hexNum. Qed.
Lemma BitLen_256 z : 0 <= z < 2 ^ 256 -> (256 <? BitLen z) = false.
Proof. intros Hz. rewrite BitLen_gt by lia. apply Z.leb_gt. lia. Qed.
Lemma ParseBig256_hex z : 0 <= z < 2 ^ 256 -> ParseBig256 (HexOrDecimal256_MarshalText (Some z)) = Some z.
Proof.
  intros Hz. unfold HexOrDecimal256_MarshalText, hexBig. destruct (Z.ltb_spec z 0); [lia|]. unfold ParseBig256, hexPrefix.
  cbn [app x0 strip_prefix Z.eqb Pos.eqb]. pose proof (SetString_hexNum z) as E. unfold hexNum in E. destruct (Z.ltb_spec z 0); [lia|].
  rewrite E. cbn [mbind option_bind]. by rewrite BitLen_256.
Qed.
(** A negative number is written as [-0x...], which does not parse. *)
Example negative_text_lost : ParseBig256 (HexOrDecimal256_MarshalText (Some (-1))) = None.
Proof. vm_compute. reflexivity. Qed.

(** ** Bits *)
Lemma first_bit_ok n : forall i v, 0 <= i -> (forall j, 0 <= j < i -> Z.testbit v j = false) ->
  (exists j, i <= j < i + Z.of_nat n /\ Z.testbit v j = true) ->
  Z.testbit v (first_bit n i v) = true /\ forall j, 0 <= j < first_bit n i v -> Z.testbit v j = false.
Proof.
  induction n as [|n IH]; intros i v Hi Hlow (j & Hj & Ej); [lia|]. cbn [first_bit]. destruct (Z.testbit v i) eqn:E; [by split|].
  apply IH; [lia| |].
  - intros k Hk. destruct (Z.eq_dec k i) as [->|]; [done|]. apply Hlow. lia.
  - exists j. split; [|done]. assert (j <> i) by congruence. lia.
Qed.
(** The lowest bit that is set *)
Lemma FirstBitSet_ok v : 0 < v -> Z.testbit v (FirstBitSet v) = true /\ forall j, 0 <= j < FirstBitSet v -> Z.testbit v j = false.
Proof.
  intros Hv. apply first_bit_ok; [lia|lia|]. exists (Z.log2 v). pose proof (Z.log2_nonneg v). split; [|by apply Z.bit_log2].
  unfold BitLen. destruct (Z.eqb_spec v 0); [lia|]. rewrite Z.abs_eq by lia. lia.
Qed.

(** ** Bytes *)
Lemma be_bytes_split m : forall k z, be_bytes (m + k) z = be_bytes k (z / 256 ^ Z.of_nat m) ++ be_bytes m z.
Proof.
  intros k. unfold be_bytes. induction m as [|m IH]; intros z; [cbn; by rewrite Z.div_1_r, app_nil_r|].
  cbn [Nat.add le_bytes rev]. rewrite IH, Nat2Z.inj_succ, Z.pow_succ_r, <- Z.div_div by lia. by rewrite app_assoc.
Qed.
Lemma read_word_ok j : forall d i t, read_word j d i (replicate i 0 ++ t) = ((i - j)%nat, replicate (i - j) 0 ++ be_bytes (min j i) d ++ t).
Proof.
  induction j as [|j IH]; intros d i t; [by rewrite Nat.sub_0_r|]. destruct i as [|i]; [done|]. cbn [read_word Nat.sub Nat.min].
  assert (<[i := d mod 256]> (replicate (S i) 0 ++ t) = replicate i 0 ++ d mod 256 :: t) as ->.
  { rewrite <- Nat.add_1_r, replicate_add, <- app_assoc. by rewrite insert_app_r_alt, length_replicate, Nat.sub_diag by (rewrite length_replicate; lia). }
  rewrite IH. do 2 f_equal. change (be_bytes (S (j `min` i)) d) with (rev (le_bytes (j `min` i) (d / 256)) ++ [d mod 256]).
  by rewrite <- app_assoc.
Qed.
Lemma be_bytes_word i w v : 0 <= w < W -> 0 <= v -> be_bytes i (w + W * v) = be_bytes (i - 8) v ++ be_bytes (min 8 i) w.
Proof.
  intros Hw Hv. destruct (Nat.le_gt_cases i 8) as [Hi|Hi].
  - replace (i - 8)%nat with 0%nat by lia. rewrite Nat.min_r by lia. cbn [be_bytes le_bytes rev app].
    rewrite <- (be_bytes_mod i (w + _)), <- (be_bytes_mod i w). f_equal.
    replace W with (256 ^ Z.of_nat (8 - i) * 256 ^ Z.of_nat i) by (rewrite <- Z.pow_add_r by lia; replace (Z.of_nat (8 - i) + Z.of_nat i) with 8 by lia; reflexivity).
    rewrite Z.mul_shuffle0, Z.mod_add; [done|]. apply Z.pow_nonzero; lia.
  - rewrite Nat.min_l by lia. replace i with (8 + (i - 8))%nat at 1 by lia. rewrite be_bytes_split. change (256 ^ Z.of_nat 8) with W.
    rewrite (Z.mul_comm W v), Z.div_add, Z.div_small, Z.add_0_l by lia. f_equal.
    rewrite <- (be_bytes_mod 8 (w + _)), <- (be_bytes_mod 8 w). change (256 ^ Z.of_nat 8) with W. by rewrite Z.mod_add by lia.
Qed.
Lemma read_words l : forall i t, Forall (fun w => 0 <= w < W) l ->
  (foldl (fun '(i, buf) d => read_word (Z.to_nat wordBytes) d i buf) (i, replicate i 0 ++ t) l).2 = be_bytes i (words_value l) ++ t.
Proof.
  induction l as [|w l IH]; intros i t Hl; cbn [foldl words_value foldr snd].
  - f_equal. clear. unfold be_bytes.
    assert (le_bytes i 0 = replicate i 0) as ->.
    { induction i as [|i IH]; [done|]. cbn [le_bytes replicate]. change (0 / 256) with 0. by rewrite IH. }
    symmetry. transitivity (reverse (replicate i 0)); [unfold reverse; by rewrite rev_alt | apply reverse_replicate].
  - apply list.Forall_cons in Hl as [Hw Hl]. fold (words_value l). rewrite read_word_ok, IH by done.
    assert (Hv : 0 <= words_value l) by (clear -Hl; induction Hl as [|x l Hx _ IH]; cbn; [lia|]; fold (words_value l); lia).
    change (Z.to_nat wordBytes) with 8%nat. rewrite be_bytes_word by done. by rewrite app_assoc.
Qed.
(** [ReadBits] fills a zeroed buffer with the low bytes, [PaddedBigBytes] is the
    number in exactly [n] bytes when it fits, and [U256Bytes] the 32 bytes of an
    EVM word. *)
Lemma ReadBits_ok x n : ReadBits x (replicate n 0) = be_bytes n (Z.abs x).
Proof.
  unfold ReadBits. rewrite length_replicate. pose proof (read_words (Bits x) n [] (Bits_range x)) as E. rewrite !app_nil_r in E.
  by rewrite E, Bits_value.
Qed.
Lemma PaddedBigBytes_ok x n : 0 <= n -> 0 <= x < 256 ^ n -> PaddedBigBytes x n = be_bytes (Z.to_nat n) x.
Proof.
  intros Hn Hx. unfold PaddedBigBytes. destruct (Z.leb_spec n (BitLen x / 8)) as [Hl|Hl]; [|by rewrite ReadBits_ok, Z.abs_eq by lia].
  assert (Hlen : BitLen x / 8 <= n).
  { apply Z.div_le_upper_bound; [lia|]. destruct (Z.leb_spec (BitLen x) (8 * n)); [done|]. exfalso.
    assert ((8 * n <? BitLen x) = true) as E by (by apply Z.ltb_lt). rewrite BitLen_gt in E by lia. apply Z.leb_le in E. rewrite Z.pow_mul_r in E by lia. change (2 ^ 8) with 256 in E. lia. }
  destruct (bigBytes_ok x ltac:(lia)) as [Hb Hv]. rewrite <- Hv at 2. rewrite <- (be_bytes_be_val (bigBytes x)) at 1 by done. f_equal.
  unfold bigBytes in *. unfold BitLen in *. destruct (Z.eqb_spec x 0) as [->|Hne]; [assert (n = 0) as -> by (change (0 / 8) with 0 in *; lia); done|].
  rewrite length_be_bytes. rewrite (Z.abs_eq x) in * by lia. pose proof (Z.log2_nonneg x). f_equal.
  assert (Hn8 : n = (Z.log2 x + 1) / 8) by lia. assert (Z.log2 x / 8 < n).
  { apply Z.div_lt_upper_bound; [lia|]. apply Z.log2_lt_pow2; [lia|]. rewrite Z.pow_mul_r by lia. apply Hx. }
  pose proof (Z.div_mod (Z.log2 x) 8 ltac:(lia)). pose proof (Z.mod_pos_bound (Z.log2 x) 8 ltac:(lia)).
  pose proof (Z.div_mod (Z.log2 x + 1) 8 ltac:(lia)). pose proof (Z.mod_pos_bound (Z.log2 x + 1) 8 ltac:(lia)). lia.
Qed.
Lemma U256Bytes_ok x : U256Bytes x = be_bytes 32 (x mod 2 ^ 256).
Proof. unfold U256Bytes. rewrite U256_mod. apply (PaddedBigBytes_ok _ 32); [lia|]. change (256 ^ 32) with (2 ^ 256). apply Z.mod_pos_bound. lia. Qed.
