(* ===== verification/Uint256.v ===== *)
(** * The 256-bit integer library: definitions

    Models src/utils/common/uint256/uint256.go, conversion.go and div.go.
    An [Int] is four uint64 limbs, least significant first.  A method
    [z.F(x, y)] that overwrites the receiver is the function from the
    operands to the new value of the receiver; a method that leaves part of
    the receiver in place ([SubUint64]) takes the receiver too.  Methods that
    can index out of range return an [outcome]. *)

From S2P Require Import Prelude Words.

Record Int := mkInt { w0 : Z; w1 : Z; w2 : Z; w3 : Z }.

#[export] Instance Int_eq_dec : EqDecision Int.
Proof. solve_decision. Defined.

(** The value of an [Int] and the well-formedness of its limbs. *)
Definition val (z : Int) : Z := w0 z + W * (w1 z + W * (w2 z + W * w3 z)).
Definition int_ok (z : Int) : Prop :=
  is_u64 (w0 z) /\ is_u64 (w1 z) /\ is_u64 (w2 z) /\ is_u64 (w3 z).

(** The representative of an integer modulo 2^256. *)
Definition W256 : Z := 2 ^ 256.
Definition of_Z (z : Z) : Int :=
  mkInt (z mod W) (z / W mod W) (z / W / W mod W) (z / W / W / W mod W).

(** ** Constants and tests *)
Definition Clear : Int := mkInt 0 0 0 0.
Definition SetOne : Int := mkInt 1 0 0 0.
Definition SetAllOne : Int := mkInt MaxUint64 MaxUint64 MaxUint64 MaxUint64.
Definition SetUint64 (x : Z) : Int := mkInt x 0 0 0.

Definition Uint64 (z : Int) : Z := w0 z.
Definition Uint64WithOverflow (z : Int) : Z * bool :=
  (w0 z, negb (Z.lor (Z.lor (w1 z) (w2 z)) (w3 z) =? 0)).
Definition IsUint64 (z : Int) : bool := Z.lor (Z.lor (w1 z) (w2 z)) (w3 z) =? 0.
Definition IsZero (z : Int) : bool :=
  Z.lor (Z.lor (Z.lor (w0 z) (w1 z)) (w2 z)) (w3 z) =? 0.
Definition LtUint64 (z : Int) (n : Z) : bool :=
  (w0 z <? n) && (Z.lor (Z.lor (w1 z) (w2 z)) (w3 z) =? 0).
Definition GtUint64 (z : Int) (n : Z) : bool :=
  (n <? w0 z) || negb (Z.lor (Z.lor (w1 z) (w2 z)) (w3 z) =? 0).
Definition Eq (z x : Int) : bool :=
  (w0 z =? w0 x) && (w1 z =? w1 x) && (w2 z =? w2 x) && (w3 z =? w3 x).

(** ** Addition and subtraction *)
Definition AddOverflow (x y : Int) : Int * bool :=
  let '(z0, carry) := Add64 (w0 x) (w0 y) 0 in
  let '(z1, carry) := Add64 (w1 x) (w1 y) carry in
  let '(z2, carry) := Add64 (w2 x) (w2 y) carry in
  let '(z3, carry) := Add64 (w3 x) (w3 y) carry in
  (mkInt z0 z1 z2 z3, negb (carry =? 0)).
Definition Add (x y : Int) : Int :=
  let '(z0, carry) := Add64 (w0 x) (w0 y) 0 in
  let '(z1, carry) := Add64 (w1 x) (w1 y) carry in
  let '(z2, carry) := Add64 (w2 x) (w2 y) carry in
  let '(z3, _) := Add64 (w3 x) (w3 y) carry in
  mkInt z0 z1 z2 z3.
Definition SubOverflow (x y : Int) : Int * bool :=
  let '(z0, carry) := Sub64 (w0 x) (w0 y) 0 in
  let '(z1, carry) := Sub64 (w1 x) (w1 y) carry in
  let '(z2, carry) := Sub64 (w2 x) (w2 y) carry in
  let '(z3, carry) := Sub64 (w3 x) (w3 y) carry in
  (mkInt z0 z1 z2 z3, negb (carry =? 0)).
Definition Sub (x y : Int) : Int :=
  let '(z0, carry) := Sub64 (w0 x) (w0 y) 0 in
  let '(z1, carry) := Sub64 (w1 x) (w1 y) carry in
  let '(z2, carry) := Sub64 (w2 x) (w2 y) carry in
  let '(z3, _) := Sub64 (w3 x) (w3 y) carry in
  mkInt z0 z1 z2 z3.
(** Returns as soon as no borrow is left, keeping the receiver's own upper
    limbs, and decrements the receiver's (not [x]'s) top limb. *)
Definition SubUint64 (z x : Int) (y : Z) : Int :=
  let '(z0, carry) := Sub64 (w0 x) y 0 in
  if carry =? 0 then mkInt z0 (w1 z) (w2 z) (w3 z) else
  let '(z1, carry) := Sub64 (w1 x) 0 carry in
  if carry =? 0 then mkInt z0 z1 (w2 z) (w3 z) else
  let '(z2, carry) := Sub64 (w2 x) 0 carry in
  if carry =? 0 then mkInt z0 z1 z2 (w3 z) else
  mkInt z0 z1 z2 (sub64 (w3 z) 1).
Definition Neg (x : Int) : Int := Sub Clear x.

(** ** Comparison *)
Definition Lt (z x : Int) : bool :=
  let '(_, carry) := Sub64 (w0 z) (w0 x) 0 in
  let '(_, carry) := Sub64 (w1 z) (w1 x) carry in
  let '(_, carry) := Sub64 (w2 z) (w2 x) carry in
  let '(_, carry) := Sub64 (w3 z) (w3 x) carry in
  negb (carry =? 0).
Definition Gt (z x : Int) : bool := Lt x z.
Definition Cmp (z x : Int) : Z :=
  if Gt z x then 1 else if Lt z x then -1 else 0.
Definition Sign (z : Int) : Z :=
  if IsZero z then 0 else if w3 z <? 0x8000000000000000 then 1 else -1.
Definition Slt (z x : Int) : bool :=
  let zSign := Sign z in
  let xSign := Sign x in
  if (0 <=? zSign) && (xSign <? 0) then false
  else if (zSign <? 0) && (0 <=? xSign) then true
  else Lt z x.
Definition Sgt (z x : Int) : bool :=
  let zSign := Sign z in
  let xSign := Sign x in
  if (0 <=? zSign) && (xSign <? 0) then true
  else if (zSign <? 0) && (0 <=? xSign) then false
  else Gt z x.
Definition Abs (x : Int) : Int := if w3 x <? 0x8000000000000000 then x else Sub Clear x.

(** ** Multiplication *)
(** [hi * 2^64 + lo = z + x * y + carry]. *)
Definition umulStep (z x y carry : Z) : Z * Z :=
  let '(hi, lo) := Mul64 x y in
  let '(lo, carry) := Add64 lo carry 0 in
  let '(hi, _) := Add64 hi 0 carry in
  let '(lo, carry) := Add64 lo z 0 in
  let '(hi, _) := Add64 hi 0 carry in
  (hi, lo).
Definition umulHop (z x y : Z) : Z * Z :=
  let '(hi, lo) := Mul64 x y in
  let '(lo, carry) := Add64 lo z 0 in
  let '(hi, _) := Add64 hi 0 carry in
  (hi, lo).
(** The full 512-bit product, eight limbs. *)
Definition umul (x y : Int) : list Z :=
  let '(carry, r0) := Mul64 (w0 x) (w0 y) in
  let '(carry, res1) := umulHop carry (w1 x) (w0 y) in
  let '(carry, res2) := umulHop carry (w2 x) (w0 y) in
  let '(carry4, res3) := umulHop carry (w3 x) (w0 y) in
  let '(carry, r1) := umulHop res1 (w0 x) (w1 y) in
  let '(carry, res2) := umulStep res2 (w1 x) (w1 y) carry in
  let '(carry, res3) := umulStep res3 (w2 x) (w1 y) carry in
  let '(carry5, res4) := umulStep carry4 (w3 x) (w1 y) carry in
  let '(carry, r2) := umulHop res2 (w0 x) (w2 y) in
  let '(carry, res3) := umulStep res3 (w1 x) (w2 y) carry in
  let '(carry, res4) := umulStep res4 (w2 x) (w2 y) carry in
  let '(carry6, res5) := umulStep carry5 (w3 x) (w2 y) carry in
  let '(carry, r3) := umulHop res3 (w0 x) (w3 y) in
  let '(carry, r4) := umulStep res4 (w1 x) (w3 y) carry in
  let '(carry, r5) := umulStep res5 (w2 x) (w3 y) carry in
  let '(r7, r6) := umulStep carry6 (w3 x) (w3 y) carry in
  [r0; r1; r2; r3; r4; r5; r6; r7].
Definition Mul (x y : Int) : Int :=
  let '(carry, r0) := Mul64 (w0 x) (w0 y) in
  let '(carry, res1) := umulHop carry (w1 x) (w0 y) in
  let '(carry, res2) := umulHop carry (w2 x) (w0 y) in
  let res3 := add64 (mul64 (w3 x) (w0 y)) carry in
  let '(carry, r1) := umulHop res1 (w0 x) (w1 y) in
  let '(carry, res2) := umulStep res2 (w1 x) (w1 y) carry in
  let res3 := add64 (add64 res3 (mul64 (w2 x) (w1 y))) carry in
  let '(carry, r2) := umulHop res2 (w0 x) (w2 y) in
  let res3 := add64 (add64 res3 (mul64 (w1 x) (w2 y))) carry in
  let r3 := add64 res3 (mul64 (w0 x) (w3 y)) in
  mkInt r0 r1 r2 r3.
(** [copy(z[:], p[:4])] of the full product, with the overflow flag. *)
Definition MulOverflow (x y : Int) : Int * bool :=
  let p := umul x y in
  (mkInt (p !!! 0%nat) (p !!! 1%nat) (p !!! 2%nat) (p !!! 3%nat),
   negb (Z.lor (Z.lor (Z.lor (p !!! 4%nat) (p !!! 5%nat)) (p !!! 6%nat)) (p !!! 7%nat) =? 0)).
Definition squared (z : Int) : Int :=
  let '(carry0, r0) := Mul64 (w0 z) (w0 z) in
  let '(carry0, res1) := umulHop carry0 (w0 z) (w1 z) in
  let '(carry0, res2) := umulHop carry0 (w0 z) (w2 z) in
  let '(carry1, r1) := umulHop res1 (w0 z) (w1 z) in
  let '(carry1, res2) := umulStep res2 (w1 z) (w1 z) carry1 in
  let '(carry2, r2) := umulHop res2 (w0 z) (w2 z) in
  let r3 := add64 (add64 (add64
              (mul64 2 (add64 (mul64 (w0 z) (w3 z)) (mul64 (w1 z) (w2 z))))
              carry0) carry1) carry2 in
  mkInt r0 r1 r2 r3.

(** ** Division *)
(** Knuth's algorithm D on little-endian limb slices; [reciprocal2by1] and
    [udivrem2by1] are div.go. *)
Definition reciprocal2by1 (d : Z) : outcome Z :=
  '(reciprocal, _) ← Div64 (not64 d) (not64 0) d; Ret reciprocal.

Definition udivrem2by1 (uh ul d reciprocal : Z) : Z * Z :=
  let '(qh, ql) := Mul64 reciprocal uh in
  let '(ql, carry) := Add64 ql ul 0 in
  let '(qh, _) := Add64 qh uh carry in
  let qh := add64 qh 1 in
  let r := sub64 ul (mul64 qh d) in
  let '(qh, r) := if ql <? r then (sub64 qh 1, add64 r d) else (qh, r) in
  if d <=? r then (add64 qh 1, sub64 r d) else (qh, r).

(** [for i := 0; i < len(y); i++ { x[i], carry = Add64(x[i], y[i], carry) }]
    on the prefix of [x] that [y] covers; the rest of [x] is untouched. *)
Fixpoint addTo_from (x y : list Z) (carry : Z) : list Z * Z :=
  match x, y with
  | xi :: xs, yi :: ys =>
      let '(s, c) := Add64 xi yi carry in
      let '(xs', c') := addTo_from xs ys c in (s :: xs', c')
  | _, _ => (x, carry)
  end.
Definition addTo (x y : list Z) : list Z * Z := addTo_from x y 0.

Fixpoint subMulTo_from (x y : list Z) (multiplier borrow : Z) : list Z * Z :=
  match x, y with
  | xi :: xs, yi :: ys =>
      let '(s, carry1) := Sub64 xi borrow 0 in
      let '(ph, pl) := Mul64 yi multiplier in
      let '(t, carry2) := Sub64 s pl 0 in
      let '(xs', b') := subMulTo_from xs ys multiplier (add64 (add64 ph carry1) carry2) in
      (t :: xs', b')
  | _, _ => (x, borrow)
  end.
Definition subMulTo (x y : list Z) (multiplier : Z) : list Z * Z :=
  subMulTo_from x y multiplier 0.

(** [for j := len(u) - 2; j >= 0; j--]: the counter [j] is one more than the
    index about to be processed. *)
Fixpoint udivremBy1_loop (j : nat) (quot u : list Z) (d reciprocal rem : Z) : list Z * Z :=
  match j with
  | O => (quot, rem)
  | S j' =>
      let '(q, r) := udivrem2by1 rem (u !!! j') d reciprocal in
      udivremBy1_loop j' (<[j' := q]> quot) u d reciprocal r
  end.
Definition udivremBy1 (quot u : list Z) (d : Z) : outcome (list Z * Z) :=
  reciprocal ← reciprocal2by1 d;
  Ret (udivremBy1_loop (length u - 1) quot u d reciprocal (u !!! (length u - 1)%nat)).

(** The estimate [qhat] of one quotient digit. *)
Definition knuth_qhat (u2 u1 u0 dh dl reciprocal : Z) : Z :=
  if dh <=? u2 then not64 0
  else
    let '(qhat, rhat) := udivrem2by1 u2 u1 dh reciprocal in
    let '(ph, pl) := Mul64 qhat dl in
    if (rhat <? ph) || ((ph =? rhat) && (u0 <? pl)) then sub64 qhat 1 else qhat.

(** One iteration of the loop at index [j]: the digit and the updated [u]. *)
Definition knuth_step (j : nat) (u d : list Z) (dh dl reciprocal : Z) : Z * list Z :=
  let n := length d in
  let u2 := u !!! (j + n)%nat in
  let u1 := u !!! (j + n - 1)%nat in
  let u0 := u !!! (j + n - 2)%nat in
  let qhat := knuth_qhat u2 u1 u0 dh dl reciprocal in
  let '(tl, borrow) := subMulTo (drop j u) d qhat in
  let u := <[(j + n)%nat := sub64 u2 borrow]> (take j u ++ tl) in
  if u2 <? borrow then
    let '(tl, carry) := addTo (drop j u) d in
    let u := take j u ++ tl in
    (sub64 qhat 1, <[(j + n)%nat := add64 (u !!! (j + n)%nat) carry]> u)
  else (qhat, u).

Fixpoint udivremKnuth_loop (j : nat) (quot u d : list Z) (dh dl reciprocal : Z)
  : list Z * list Z :=
  match j with
  | O => (quot, u)
  | S j' =>
      let '(q, u') := knuth_step j' u d dh dl reciprocal in
      udivremKnuth_loop j' (<[j' := q]> quot) u' d dh dl reciprocal
  end.
Definition udivremKnuth (quot u d : list Z) : outcome (list Z * list Z) :=
  let dh := d !!! (length d - 1)%nat in
  let dl := d !!! (length d - 2)%nat in
  reciprocal ← reciprocal2by1 dh;
  Ret (udivremKnuth_loop (length u - length d) quot u d dh dl reciprocal).

(** The number of significant limbs ([dLen], [uLen]). *)
Fixpoint sig_len (l : list Z) : nat :=
  match l with
  | [] => 0
  | x :: l' => match sig_len l' with
               | O => if x =? 0 then 0%nat else 1%nat
               | S n => S (S n)
               end
  end.

(** [x[i] << shift | x[i-1] >> (64 - shift)], with [x[-1] = 0]. *)
Fixpoint shl_limbs (l : list Z) (shift below : Z) : list Z :=
  match l with
  | [] => []
  | x :: l' => Z.lor (shl64 x shift) (shr64 below (64 - shift)) :: shl_limbs l' shift x
  end.
(** [x[i] >> shift | x[i+1] << (64 - shift)], the last limb without the
    upper part. *)
Fixpoint shr_limbs (l : list Z) (shift : Z) : list Z :=
  match l with
  | [] => []
  | [x] => [shr64 x shift]
  | x :: (y :: _) as l' => Z.lor (shr64 x shift) (shl64 y (64 - shift)) :: shr_limbs l' shift
  end.

Definition limbs (z : Int) : list Z := [w0 z; w1 z; w2 z; w3 z].
(** A zero-initialised [Int] whose first limbs are assigned. *)
Definition of_limbs (l : list Z) : Int :=
  let at0 i := default 0 (l !! i) in mkInt (at0 0%nat) (at0 1%nat) (at0 2%nat) (at0 3%nat).

(** The quotient words and the remainder of [u] by [d].  The index
    expressions [d[dLen-1]] and [u[uLen-1]] panic when [dLen] or [uLen] is
    zero, [un[dLen-1]] when [un], of length [uLen+1], is shorter, the slice
    [unStorage[:uLen+1]] when [u] has more than eight limbs, and [quot[j]],
    first written at [j = uLen - dLen], when [quot] is too short. *)
Definition udivrem (quot u : list Z) (d : Int) : outcome (list Z * Int) :=
  let dLen := sig_len (limbs d) in
  let uLen := sig_len u in
  if (dLen =? 0)%nat || (uLen =? 0)%nat || (uLen + 1 <? dLen)%nat || (8 <? uLen)%nat
     || (length quot <? uLen + 1 - dLen)%nat then Panic else
  let shift := LeadingZeros64 (limbs d !!! (dLen - 1)%nat) in
  let dn := shl_limbs (take dLen (limbs d)) shift 0 in
  let un := shl_limbs (take uLen u) shift 0 ++ [shr64 (u !!! (uLen - 1)%nat) (64 - shift)] in
  if (dLen =? 1)%nat then
    '(quot, r) ← udivremBy1 quot un (dn !!! 0%nat);
    Ret (quot, SetUint64 (shr64 r shift))
  else
    '(quot, un) ← udivremKnuth quot un dn;
    Ret (quot, of_limbs (shr_limbs (take dLen un) shift)).

Definition Div (x y : Int) : outcome Int :=
  if IsZero y || Gt y x then Ret Clear
  else if Eq x y then Ret SetOne
  else if IsUint64 x then Ret (SetUint64 (Uint64 x / Uint64 y))
  else '(quot, _) ← udivrem (replicate 4 0) (limbs x) y; Ret (of_limbs quot).
Definition Mod (x y : Int) : outcome Int :=
  if IsZero x || IsZero y then Ret Clear
  else
    let c := Cmp x y in
    if c =? -1 then Ret x
    else if c =? 0 then Ret Clear
    else if IsUint64 x then Ret (SetUint64 (Uint64 x mod Uint64 y))
    else '(_, rem) ← udivrem (replicate 4 0) (limbs x) y; Ret rem.
Definition AddMod (x y m : Int) : outcome Int :=
  if IsZero m then Ret Clear
  else
    let '(z, overflow) := AddOverflow x y in
    if overflow then
      '(_, rem) ← udivrem (replicate 5 0) (limbs z ++ [1]) m; Ret rem
    else Mod z m.
Definition MulMod (x y m : Int) : outcome Int :=
  if IsZero x || IsZero y || IsZero m then Ret Clear
  else
    let p := umul x y in
    let pl := of_limbs (take 4 p) in
    let ph := of_limbs (drop 4 p) in
    if IsZero ph then Mod pl m
    else '(_, rem) ← udivrem (replicate 8 0) p m; Ret rem.
Definition SDiv (n d : Int) : outcome Int :=
  if 0 <? Sign n then
    if 0 <? Sign d then Div n d
    else z ← Div n (Neg d); Ret (Neg z)
  else if Sign d <? 0 then Div (Neg n) (Neg d)
  else z ← Div (Neg n) d; Ret (Neg z).
Definition SMod (x y : Int) : outcome Int :=
  let ys := Sign y in
  let xs := Sign x in
  let x := if xs =? -1 then Neg x else x in
  let y := if ys =? -1 then Neg y else y in
  z ← Mod x y;
  Ret (if xs =? -1 then Neg z else z).

(** ** Lengths and bits *)
Definition BitLen (z : Int) : Z :=
  if negb (w3 z =? 0) then 192 + Len64 (w3 z)
  else if negb (w2 z =? 0) then 128 + Len64 (w2 z)
  else if negb (w1 z =? 0) then 64 + Len64 (w1 z)
  else Len64 (w0 z).
Definition ByteLen (z : Int) : Z := (BitLen z + 7) / 8.
Definition isBitSet (z : Int) (n : Z) : bool :=
  negb (Z.land (limbs z !!! Z.to_nat (n / 64)) (shl64 1 (n mod 64)) =? 0).

Definition Not (x : Int) : Int := mkInt (not64 (w0 x)) (not64 (w1 x)) (not64 (w2 x)) (not64 (w3 x)).
Definition Or (x y : Int) : Int :=
  mkInt (Z.lor (w0 x) (w0 y)) (Z.lor (w1 x) (w1 y)) (Z.lor (w2 x) (w2 y)) (Z.lor (w3 x) (w3 y)).
Definition And (x y : Int) : Int :=
  mkInt (Z.land (w0 x) (w0 y)) (Z.land (w1 x) (w1 y)) (Z.land (w2 x) (w2 y)) (Z.land (w3 x) (w3 y)).
Definition Xor (x y : Int) : Int :=
  mkInt (Z.lxor (w0 x) (w0 y)) (Z.lxor (w1 x) (w1 y)) (Z.lxor (w2 x) (w2 y)) (Z.lxor (w3 x) (w3 y)).

(** ** Shifts *)
Definition lsh64 (x : Int) : Int := mkInt 0 (w0 x) (w1 x) (w2 x).
Definition lsh128 (x : Int) : Int := mkInt 0 0 (w0 x) (w1 x).
Definition lsh192 (x : Int) : Int := mkInt 0 0 0 (w0 x).
Definition rsh64 (x : Int) : Int := mkInt (w1 x) (w2 x) (w3 x) 0.
Definition rsh128 (x : Int) : Int := mkInt (w2 x) (w3 x) 0 0.
Definition rsh192 (x : Int) : Int := mkInt (w3 x) 0 0 0.
Definition srsh64 (x : Int) : Int := mkInt (w1 x) (w2 x) (w3 x) MaxUint64.
Definition srsh128 (x : Int) : Int := mkInt (w2 x) (w3 x) MaxUint64 MaxUint64.
Definition srsh192 (x : Int) : Int := mkInt (w3 x) MaxUint64 MaxUint64 MaxUint64.

(** The labelled tails of [Lsh]: [sh192], [sh128], [sh64] fall through to the
    one before; [a], [b] start at zero when a label is jumped to. *)
Definition Lsh_sh192 (z : Int) (n a : Z) : Int :=
  mkInt (w0 z) (w1 z) (w2 z) (Z.lor (shl64 (w3 z) n) a).
Definition Lsh_sh128 (z : Int) (n b : Z) : Int :=
  let a := shr64 (w2 z) (64 - n) in
  Lsh_sh192 (mkInt (w0 z) (w1 z) (Z.lor (shl64 (w2 z) n) b) (w3 z)) n a.
Definition Lsh_sh64 (z : Int) (n a : Z) : Int :=
  let b := shr64 (w1 z) (64 - n) in
  Lsh_sh128 (mkInt (w0 z) (Z.lor (shl64 (w1 z) n) a) (w2 z) (w3 z)) n b.
Definition Lsh (x : Int) (n : Z) : Int :=
  if Z.land n 0x3f =? 0 then
    if n =? 0 then x else if n =? 64 then lsh64 x else if n =? 128 then lsh128 x
    else if n =? 192 then lsh192 x else Clear
  else if 192 <? n then
    if 256 <? n then Clear else Lsh_sh192 (lsh192 x) (n - 192) 0
  else if 128 <? n then Lsh_sh128 (lsh128 x) (n - 128) 0
  else if 64 <? n then Lsh_sh64 (lsh64 x) (n - 64) 0
  else
    let a := shr64 (w0 x) (64 - n) in
    Lsh_sh64 (mkInt (shl64 (w0 x) n) (w1 x) (w2 x) (w3 x)) n a.

Definition Rsh_sh192 (z : Int) (n a : Z) : Int :=
  mkInt (Z.lor (shr64 (w0 z) n) a) (w1 z) (w2 z) (w3 z).
Definition Rsh_sh128 (z : Int) (n b : Z) : Int :=
  let a := shl64 (w1 z) (64 - n) in
  Rsh_sh192 (mkInt (w0 z) (Z.lor (shr64 (w1 z) n) b) (w2 z) (w3 z)) n a.
Definition Rsh_sh64 (z : Int) (n a : Z) : Int :=
  let b := shl64 (w2 z) (64 - n) in
  Rsh_sh128 (mkInt (w0 z) (w1 z) (Z.lor (shr64 (w2 z) n) a) (w3 z)) n b.
Definition Rsh (x : Int) (n : Z) : Int :=
  if Z.land n 0x3f =? 0 then
    if n =? 0 then x else if n =? 64 then rsh64 x else if n =? 128 then rsh128 x
    else if n =? 192 then rsh192 x else Clear
  else if 192 <? n then
    if 256 <? n then Clear else Rsh_sh192 (rsh192 x) (n - 192) 0
  else if 128 <? n then Rsh_sh128 (rsh128 x) (n - 128) 0
  else if 64 <? n then Rsh_sh64 (rsh64 x) (n - 64) 0
  else
    let a := shl64 (w3 x) (64 - n) in
    Rsh_sh64 (mkInt (w0 x) (w1 x) (w2 x) (shr64 (w3 x) n)) n a.

(** In [SRsh] each label ors [a] into the limb and takes the next [a] from
    the same limb, in one parallel assignment. *)
Definition SRsh_sh192 (z : Int) (n a : Z) : Int :=
  mkInt (Z.lor (shr64 (w0 z) n) a) (w1 z) (w2 z) (w3 z).
Definition SRsh_sh128 (z : Int) (n a : Z) : Int :=
  SRsh_sh192 (mkInt (w0 z) (Z.lor (shr64 (w1 z) n) a) (w2 z) (w3 z)) n (shl64 (w1 z) (64 - n)).
Definition SRsh_sh64 (z : Int) (n a : Z) : Int :=
  SRsh_sh128 (mkInt (w0 z) (w1 z) (Z.lor (shr64 (w2 z) n) a) (w3 z)) n (shl64 (w2 z) (64 - n)).
Definition SRsh (x : Int) (n : Z) : Int :=
  if negb (isBitSet x 255) then Rsh x n
  else if n mod 64 =? 0 then
    if n =? 0 then x else if n =? 64 then srsh64 x else if n =? 128 then srsh128 x
    else if n =? 192 then srsh192 x else SetAllOne
  else
    let a := shl64 MaxUint64 (64 - n mod 64) in
    if 192 <? n then
      if 256 <? n then SetAllOne else SRsh_sh192 (srsh192 x) (n - 192) a
    else if 128 <? n then SRsh_sh128 (srsh128 x) (n - 128) a
    else if 64 <? n then SRsh_sh64 (srsh64 x) (n - 64) a
    else SRsh_sh64 (mkInt (w0 x) (w1 x) (w2 x) (Z.lor (shr64 (w3 x) n) a)) n
                   (shl64 (w3 x) (64 - n)).

(** [z.Byte(n)]: the receiver is the operand. *)
Definition Byte (z n : Int) : Int :=
  let '(number, overflow) := Uint64WithOverflow n in
  if negb overflow && (number <? 32) then
    let word := limbs z !!! Z.to_nat (4 - 1 - number / 8) in
    let offset := shl64 (Z.land (w0 n) 0x7) 3 in
    SetUint64 (shr64 (Z.land word (shr64 0xff00000000000000 offset)) (56 - offset))
  else Clear.

Definition ExtendSign (x byteNum : Int) : Int :=
  if GtUint64 byteNum 31 then x
  else
    let bit := add64 (mul64 (Uint64 byteNum) 8) 7 in
    let mask := Lsh SetOne bit in
    let mask := SubUint64 mask mask 1 in
    if isBitSet x bit then Or x (Not mask) else And x mask.

(** ** Exponentiation by squaring, one exponent word at a time
    ([for ; curBit < expBitLen && curBit < limit; curBit++]).  Each of the
    four loops runs at most 64 times, the fuel it is given. *)
Fixpoint Exp_word (fuel : nat) (curBit expBitLen limit word : Z) (res multiplier : Int)
  : Z * Int * Int :=
  match fuel with
  | O => (curBit, res, multiplier)
  | S fuel' =>
      if (curBit <? expBitLen) && (curBit <? limit) then
        let res := if Z.land word 1 =? 1 then Mul res multiplier else res in
        Exp_word fuel' (curBit + 1) expBitLen limit (shr64 word 1) res (squared multiplier)
      else (curBit, res, multiplier)
  end.
Definition Exp (base exponent : Int) : Int :=
  let expBitLen := BitLen exponent in
  let '(curBit, res, multiplier) := Exp_word 64 0 expBitLen 64 (w0 exponent) SetOne base in
  let '(curBit, res, multiplier) := Exp_word 64 curBit expBitLen 128 (w1 exponent) res multiplier in
  let '(curBit, res, multiplier) := Exp_word 64 curBit expBitLen 192 (w2 exponent) res multiplier in
  let '(_, res, _) := Exp_word 64 curBit expBitLen 256 (w3 exponent) res multiplier in
  res.

(** ** Conversions *)
Definition byte_at (z : Int) (i : Z) : Z :=
  shr64 (limbs z !!! Z.to_nat (i / 8)) (8 * (i mod 8)) mod 256.
Definition Bytes32 (z : Int) : bytes :=
  be_bytes 8 (w3 z) ++ be_bytes 8 (w2 z) ++ be_bytes 8 (w1 z) ++ be_bytes 8 (w0 z).
Definition Bytes20 (z : Int) : bytes :=
  be_bytes 4 (w2 z mod 2 ^ 32) ++ be_bytes 8 (w1 z) ++ be_bytes 8 (w0 z).
Definition Bytes (z : Int) : bytes := drop (Z.to_nat (32 - ByteLen z)) (Bytes32 z).
(** [for i := 0; i <= end; i++ { dest[end-i] = byte(...) }] *)
Definition WriteToSlice (z : Int) (dest : bytes) : bytes :=
  let e := Z.min (len dest - 1) 31 in
  foldl (fun d i => <[Z.to_nat (e - i) := byte_at z i]> d) dest (seqZ 0 (e + 1)).
Definition PaddedBytes (z : Int) (n : nat) : bytes :=
  foldl (fun b i => <[Z.to_nat (Z.of_nat n - 1 - i) := byte_at z i]> b)
        (replicate n 0) (seqZ 0 (Z.min 32 (Z.of_nat n))).

(** [ToBig] on a 64-bit architecture: the words of the big.Int are the limbs. *)
Definition ToBig (z : Int) : Z := val z.
(** [SetFromBig]: the low four words of [|b|], negated for a negative [b],
    and whether [b] has more than four words. *)
Definition SetFromBig (b : Z) : Int * bool :=
  let z := of_Z (Z.abs b) in
  (if Z.sgn b =? -1 then Neg z else z, W256 <=? Z.abs b).
Definition FromBig (b : Z) : Int * bool := SetFromBig b.

(** ** SetBytes

    [SetBytesN] reads exactly [N] bytes: the top limb from the first bytes, the
    others eight bytes each.  Shorter input makes the bounds check panic. *)
Definition BE (a b : Z) (inp : bytes) : Z := be_val (slice a b inp).
Definition at_ (i : nat) (inp : bytes) : Z := inp !!! i.
Definition bigEndianUint40 (b : bytes) : Z :=
  Z.lor (Z.lor (Z.lor (Z.lor (at_ 4 b) (shl64 (at_ 3 b) 8)) (shl64 (at_ 2 b) 16))
    (shl64 (at_ 1 b) 24)) (shl64 (at_ 0 b) 32).
Definition bigEndianUint48 (b : bytes) : Z :=
  Z.lor (Z.lor (Z.lor (Z.lor (Z.lor (at_ 5 b) (shl64 (at_ 4 b) 8)) (shl64 (at_ 3 b) 16))
    (shl64 (at_ 2 b) 24)) (shl64 (at_ 1 b) 32)) (shl64 (at_ 0 b) 40).
Definition bigEndianUint56 (b : bytes) : Z :=
  Z.lor (Z.lor (Z.lor (Z.lor (Z.lor (Z.lor (at_ 6 b) (shl64 (at_ 5 b) 8)) (shl64 (at_ 4 b) 16))
    (shl64 (at_ 3 b) 24)) (shl64 (at_ 2 b) 32)) (shl64 (at_ 1 b) 40)) (shl64 (at_ 0 b) 48).
Definition need (n : Z) (inp : bytes) (z : Int) : outcome Int :=
  if n <=? len inp then Ret z else Panic.
Definition SetBytes1 (inp : bytes) : outcome Int :=
  need 1 inp (mkInt (at_ 0 inp) 0 0 0).
Definition SetBytes2 (inp : bytes) : outcome Int :=
  need 2 inp (mkInt (BE 0 2 inp) 0 0 0).
Definition SetBytes3 (inp : bytes) : outcome Int :=
  need 3 inp (mkInt (Z.lor (BE 1 3 inp) (shl64 (at_ 0 inp) 16)) 0 0 0).
Definition SetBytes4 (inp : bytes) : outcome Int :=
  need 4 inp (mkInt (BE 0 4 inp) 0 0 0).
Definition SetBytes5 (inp : bytes) : outcome Int :=
  need 5 inp (mkInt (bigEndianUint40 (slice 0 5 inp)) 0 0 0).
Definition SetBytes6 (inp : bytes) : outcome Int :=
  need 6 inp (mkInt (bigEndianUint48 (slice 0 6 inp)) 0 0 0).
Definition SetBytes7 (inp : bytes) : outcome Int :=
  need 7 inp (mkInt (bigEndianUint56 (slice 0 7 inp)) 0 0 0).
Definition SetBytes8 (inp : bytes) : outcome Int :=
  need 8 inp (mkInt (BE 0 8 inp) 0 0 0).
Definition SetBytes9 (inp : bytes) : outcome Int :=
  need 9 inp (mkInt (BE 1 9 inp) (at_ 0 inp) 0 0).
Definition SetBytes10 (inp : bytes) : outcome Int :=
  need 10 inp (mkInt (BE 2 10 inp) (BE 0 2 inp) 0 0).
Definition SetBytes11 (inp : bytes) : outcome Int :=
  need 11 inp (mkInt (BE 3 11 inp) (Z.lor (BE 1 3 inp) (shl64 (at_ 0 inp) 16)) 0 0).
Definition SetBytes12 (inp : bytes) : outcome Int :=
  need 12 inp (mkInt (BE 4 12 inp) (BE 0 4 inp) 0 0).
Definition SetBytes13 (inp : bytes) : outcome Int :=
  need 13 inp (mkInt (BE 5 13 inp) (bigEndianUint40 (slice 0 5 inp)) 0 0).
Definition SetBytes14 (inp : bytes) : outcome Int :=
  need 14 inp (mkInt (BE 6 14 inp) (bigEndianUint48 (slice 0 6 inp)) 0 0).
Definition SetBytes15 (inp : bytes) : outcome Int :=
  need 15 inp (mkInt (BE 7 15 inp) (bigEndianUint56 (slice 0 7 inp)) 0 0).
Definition SetBytes16 (inp : bytes) : outcome Int :=
  need 16 inp (mkInt (BE 8 16 inp) (BE 0 8 inp) 0 0).
Definition SetBytes17 (inp : bytes) : outcome Int :=
  need 17 inp (mkInt (BE 9 17 inp) (BE 1 9 inp) (at_ 0 inp) 0).
Definition SetBytes18 (inp : bytes) : outcome Int :=
  need 18 inp (mkInt (BE 10 18 inp) (BE 2 10 inp) (BE 0 2 inp) 0).
Definition SetBytes19 (inp : bytes) : outcome Int :=
  need 19 inp (mkInt (BE 11 19 inp) (BE 3 11 inp) (Z.lor (BE 1 3 inp) (shl64 (at_ 0 inp) 16)) 0).
Definition SetBytes20 (inp : bytes) : outcome Int :=
  need 20 inp (mkInt (BE 12 20 inp) (BE 4 12 inp) (BE 0 4 inp) 0).
Definition SetBytes21 (inp : bytes) : outcome Int :=
  need 21 inp (mkInt (BE 13 21 inp) (BE 5 13 inp) (bigEndianUint40 (slice 0 5 inp)) 0).
Definition SetBytes22 (inp : bytes) : outcome Int :=
  need 22 inp (mkInt (BE 14 22 inp) (BE 6 14 inp) (bigEndianUint48 (slice 0 6 inp)) 0).
Definition SetBytes23 (inp : bytes) : outcome Int :=
  need 23 inp (mkInt (BE 15 23 inp) (BE 7 15 inp) (bigEndianUint56 (slice 0 7 inp)) 0).
Definition SetBytes24 (inp : bytes) : outcome Int :=
  need 24 inp (mkInt (BE 16 24 inp) (BE 8 16 inp) (BE 0 8 inp) 0).
Definition SetBytes25 (inp : bytes) : outcome Int :=
  need 25 inp (mkInt (BE 17 25 inp) (BE 9 17 inp) (BE 1 9 inp) (at_ 0 inp)).
Definition SetBytes26 (inp : bytes) : outcome Int :=
  need 26 inp (mkInt (BE 18 26 inp) (BE 10 18 inp) (BE 2 10 inp) (BE 0 2 inp)).
Definition SetBytes27 (inp : bytes) : outcome Int :=
  need 27 inp (mkInt (BE 19 27 inp) (BE 11 19 inp) (BE 3 11 inp) (Z.lor (BE 1 3 inp) (shl64 (at_ 0 inp) 16))).
Definition SetBytes28 (inp : bytes) : outcome Int :=
  need 28 inp (mkInt (BE 20 28 inp) (BE 12 20 inp) (BE 4 12 inp) (BE 0 4 inp)).
Definition SetBytes29 (inp : bytes) : outcome Int :=
  need 29 inp (mkInt (BE 21 29 inp) (BE 13 21 inp) (BE 5 13 inp) (bigEndianUint40 (slice 0 5 inp))).
Definition SetBytes30 (inp : bytes) : outcome Int :=
  need 30 inp (mkInt (BE 22 30 inp) (BE 14 22 inp) (BE 6 14 inp) (bigEndianUint48 (slice 0 6 inp))).
Definition SetBytes31 (inp : bytes) : outcome Int :=
  need 31 inp (mkInt (BE 23 31 inp) (BE 15 23 inp) (BE 7 15 inp) (bigEndianUint56 (slice 0 7 inp))).
Definition SetBytes32 (inp : bytes) : outcome Int :=
  need 32 inp (mkInt (BE 24 32 inp) (BE 16 24 inp) (BE 8 16 inp) (BE 0 8 inp)).
Definition SetBytes (buf : bytes) : outcome Int :=
  match length buf with
  | 0%nat => Ret Clear
  | 1%nat => SetBytes1 buf
  | 2%nat => SetBytes2 buf
  | 3%nat => SetBytes3 buf
  | 4%nat => SetBytes4 buf
  | 5%nat => SetBytes5 buf
  | 6%nat => SetBytes6 buf
  | 7%nat => SetBytes7 buf
  | 8%nat => SetBytes8 buf
  | 9%nat => SetBytes9 buf
  | 10%nat => SetBytes10 buf
  | 11%nat => SetBytes11 buf
  | 12%nat => SetBytes12 buf
  | 13%nat => SetBytes13 buf
  | 14%nat => SetBytes14 buf
  | 15%nat => SetBytes15 buf
  | 16%nat => SetBytes16 buf
  | 17%nat => SetBytes17 buf
  | 18%nat => SetBytes18 buf
  | 19%nat => SetBytes19 buf
  | 20%nat => SetBytes20 buf
  | 21%nat => SetBytes21 buf
  | 22%nat => SetBytes22 buf
  | 23%nat => SetBytes23 buf
  | 24%nat => SetBytes24 buf
  | 25%nat => SetBytes25 buf
  | 26%nat => SetBytes26 buf
  | 27%nat => SetBytes27 buf
  | 28%nat => SetBytes28 buf
  | 29%nat => SetBytes29 buf
  | 30%nat => SetBytes30 buf
  | 31%nat => SetBytes31 buf
  | l => SetBytes32 (drop (l - 32) buf)
  end.
