(* ===== verification/Uint256Arith.v ===== *)
(** * The 256-bit integer library: arithmetic and comparison

    The limb-level routines of [Uint256] compute arithmetic modulo 2^256 on
    the values of their operands, and their flags and comparisons are the
    mathematical ones. *)

From S2P Require Import Prelude Words Uint256.

(** The two's complement reading of an [Int]. *)
Definition sval (z : Int) : Z := if val z <? 2 ^ 255 then val z else val z - W256.

Lemma W256_eq : W256 = W * (W * (W * W)).
Proof. reflexivity. Qed.
Lemma half256_eq : 2 ^ 255 = 0x8000000000000000 * (W * (W * W)).
Proof. reflexivity. Qed.

(** Replace each call of a word primitive in the goal by its value equation. *)
Ltac prim_step :=
  match goal with
  | |- context [Add64 ?x ?y ?c] =>
      let s := fresh "s" in let k := fresh "k" in let E := fresh "E" in
      destruct (Add64 x y c) as [s k] eqn:E;
      apply Add64_spec in E as (?&?&?); [|unfold is_u64 in *; lia..]
  | |- context [Sub64 ?x ?y ?c] =>
      let s := fresh "s" in let k := fresh "k" in let E := fresh "E" in
      destruct (Sub64 x y c) as [s k] eqn:E;
      apply Sub64_spec in E as (?&?&?); [|unfold is_u64 in *; lia..]
  end.
Ltac prims := repeat (prim_step; cbn beta iota).

Lemma val_range z : int_ok z -> 0 <= val z < W256.
Proof. unfold int_ok, val, is_u64. rewrite W256_eq. lia. Qed.

Lemma val_inj x y : int_ok x -> int_ok y -> val x = val y -> x = y.
Proof.
  unfold int_ok, val, is_u64. destruct x as [x0 x1 x2 x3], y as [y0 y1 y2 y3]; simpl.
  intros. f_equal; lia.
Qed.

Lemma of_Z_ok z : int_ok (of_Z z).
Proof. unfold int_ok, of_Z, is_u64; simpl. repeat split; dlia. Qed.

Lemma val_of_Z z : val (of_Z z) = z mod W256.
Proof.
  unfold val, of_Z; simpl. rewrite W256_eq, !Z.rem_mul_r by lia.
  rewrite !Z.div_div by lia. reflexivity.
Qed.

Lemma of_Z_val z : int_ok z -> of_Z (val z) = z.
Proof.
  intros H. apply val_inj; [apply of_Z_ok|done|].
  rewrite val_of_Z. apply Z.mod_small, val_range, H.
Qed.

Lemma of_Z_mod z : of_Z (z mod W256) = of_Z z.
Proof.
  apply val_inj; try apply of_Z_ok. rewrite !val_of_Z.
  apply Z.mod_mod. rewrite W256_eq. lia.
Qed.

(** To show that a limb routine returns [of_Z v], compare values. *)
Lemma eq_of_Z x v : int_ok x -> val x = v mod W256 -> x = of_Z v.
Proof. intros H1 H2. apply val_inj; [done|apply of_Z_ok|]. by rewrite val_of_Z. Qed.

#[export] Hint Resolve of_Z_ok : evm.

Lemma Clear_of_Z : Clear = of_Z 0.
Proof. reflexivity. Qed.
Lemma SetOne_of_Z : SetOne = of_Z 1.
Proof. reflexivity. Qed.
Lemma SetUint64_of_Z x : is_u64 x -> SetUint64 x = of_Z x.
Proof.
  intros. apply eq_of_Z; unfold int_ok, val, SetUint64, is_u64 in *; simpl; [lia|].
  rewrite Z.mod_small; rewrite ?W256_eq; lia.
Qed.

(** ** Tests *)
Lemma IsZero_spec z : int_ok z -> IsZero z = (val z =? 0).
Proof.
  unfold int_ok, IsZero, val, is_u64. intros H. apply eq_iff_eq_true.
  rewrite !Z.eqb_eq, !lor_eq_0. lia.
Qed.

Lemma IsUint64_spec z : int_ok z -> IsUint64 z = (val z <? W).
Proof.
  unfold int_ok, IsUint64, val, is_u64. intros H. apply eq_iff_eq_true.
  rewrite Z.eqb_eq, Z.ltb_lt, !lor_eq_0. lia.
Qed.

Lemma Uint64_spec z : int_ok z -> Uint64 z = val z mod W.
Proof. unfold int_ok, Uint64, val, is_u64. intros. dlia. Qed.

Lemma Uint64_range z : int_ok z -> is_u64 (Uint64 z).
Proof. unfold int_ok, Uint64. tauto. Qed.

Lemma Uint64WithOverflow_spec z :
  int_ok z -> Uint64WithOverflow z = (val z mod W, negb (val z <? W)).
Proof.
  intros H. unfold Uint64WithOverflow. rewrite <- Uint64_spec, <- IsUint64_spec by done.
  reflexivity.
Qed.

Lemma LtUint64_spec z n : int_ok z -> n <= W -> LtUint64 z n = (val z <? n).
Proof.
  unfold int_ok, LtUint64, val, is_u64. intros H Hn. apply eq_iff_eq_true.
  rewrite andb_true_iff, Z.eqb_eq, !Z.ltb_lt, !lor_eq_0. lia.
Qed.

Lemma GtUint64_spec z n : int_ok z -> n < W -> GtUint64 z n = (n <? val z).
Proof.
  intros H Hn. unfold GtUint64. rewrite <- (negb_involutive (n <? w0 z)), <- negb_andb.
  rewrite <- Z.leb_antisym, (Z.ltb_antisym _ n). f_equal.
  unfold int_ok, val, is_u64 in *. apply eq_iff_eq_true.
  rewrite andb_true_iff, Z.eqb_eq, !Z.leb_le, !lor_eq_0. lia.
Qed.

Lemma Eq_spec x y : int_ok x -> int_ok y -> Eq x y = (val x =? val y).
Proof.
  unfold int_ok, Eq, val, is_u64. intros Hx Hy. apply eq_iff_eq_true.
  rewrite !andb_true_iff, !Z.eqb_eq. lia.
Qed.

(** ** Addition and subtraction *)
Lemma AddOverflow_spec x y :
  int_ok x -> int_ok y ->
  AddOverflow x y = (of_Z (val x + val y), W256 <=? val x + val y).
Proof.
  intros (?&?&?&?) (?&?&?&?). unfold AddOverflow. prims.
  assert (Hv : val (mkInt s s0 s1 s2) + k2 * W256 = val x + val y)
    by (unfold val; rewrite W256_eq; cbn [w0 w1 w2 w3]; lia).
  assert (Hok : int_ok (mkInt s s0 s1 s2)) by by split_and!.
  pose proof (val_range _ Hok). f_equal.
  - apply eq_of_Z; [done|]. symmetry. apply mod_unique_range with k2; [done|]. lia.
  - assert (k2 = 0 \/ k2 = 1) as [-> | ->] by lia; zbool; try done; lia.
Qed.

Lemma Add_AddOverflow x y : Add x y = (AddOverflow x y).1.
Proof. unfold Add, AddOverflow. repeat case_match; by simplify_eq. Qed.

Lemma Add_spec x y : int_ok x -> int_ok y -> Add x y = of_Z (val x + val y).
Proof. intros. by rewrite Add_AddOverflow, AddOverflow_spec. Qed.

Lemma SubOverflow_spec x y :
  int_ok x -> int_ok y ->
  SubOverflow x y = (of_Z (val x - val y), val x <? val y).
Proof.
  intros (?&?&?&?) (?&?&?&?). unfold SubOverflow. prims.
  assert (Hv : val (mkInt s s0 s1 s2) - k2 * W256 = val x - val y)
    by (unfold val; rewrite W256_eq; cbn [w0 w1 w2 w3]; lia).
  assert (Hok : int_ok (mkInt s s0 s1 s2)) by by split_and!.
  pose proof (val_range _ Hok). f_equal.
  - apply eq_of_Z; [done|]. symmetry. apply mod_unique_range with (- k2); [done|]. lia.
  - assert (k2 = 0 \/ k2 = 1) as [-> | ->] by lia; zbool; try done; lia.
Qed.

Lemma Sub_SubOverflow x y : Sub x y = (SubOverflow x y).1.
Proof. unfold Sub, SubOverflow. repeat case_match; by simplify_eq. Qed.

Lemma Sub_spec x y : int_ok x -> int_ok y -> Sub x y = of_Z (val x - val y).
Proof. intros. by rewrite Sub_SubOverflow, SubOverflow_spec. Qed.

Lemma Neg_spec x : int_ok x -> Neg x = of_Z (- val x).
Proof. intros. unfold Neg. rewrite Sub_spec; [done| |done]. by rewrite Clear_of_Z; auto with evm. Qed.

(** In place ([z] and [x] the same variable) [SubUint64] is subtraction. *)
Lemma SubUint64_spec x y :
  int_ok x -> is_u64 y -> SubUint64 x x y = of_Z (val x - y).
Proof.
  intros (?&?&?&?) ?. unfold SubUint64.
  assert (Hdec : sub64 (w3 x) 1 = w3 x - 1 + W * (if w3 x =? 0 then 1 else 0)).
  { unfold sub64, u64, is_u64 in *. destruct (Z.eqb_spec (w3 x) 0) as [E|]; [by rewrite E|].
    rewrite Z.mod_small; lia. }
  prim_step; cbn beta iota. destruct (Z.eqb_spec k 0);
    [|prim_step; cbn beta iota; destruct (Z.eqb_spec k0 0);
      [|prim_step; cbn beta iota; destruct (Z.eqb_spec k1 0)]]; subst;
    (apply eq_of_Z; [split_and!; simpl; auto with evm|]);
    unfold val; rewrite W256_eq; cbn [w0 w1 w2 w3]; unfold is_u64 in *; symmetry.
  1-3: apply mod_unique_range with 0; lia.
  rewrite Hdec. destruct (Z.eqb_spec (w3 x) 0).
  - apply mod_unique_range with (-1); lia.
  - apply mod_unique_range with 0; lia.
Qed.

(** ** Comparison *)
Lemma Lt_SubOverflow x y : Lt x y = (SubOverflow x y).2.
Proof. unfold Lt, SubOverflow. repeat case_match; by simplify_eq. Qed.

Lemma Lt_spec x y : int_ok x -> int_ok y -> Lt x y = (val x <? val y).
Proof. intros. by rewrite Lt_SubOverflow, SubOverflow_spec. Qed.

Lemma Gt_spec x y : int_ok x -> int_ok y -> Gt x y = (val y <? val x).
Proof. intros. unfold Gt. by apply Lt_spec. Qed.

Lemma Cmp_spec x y :
  int_ok x -> int_ok y ->
  Cmp x y = match val x ?= val y with Datatypes.Lt => -1 | Datatypes.Eq => 0 | Datatypes.Gt => 1 end.
Proof.
  intros. unfold Cmp. rewrite Gt_spec, Lt_spec by done. zbool; case_match eqn:E; try done.
  all: try rewrite Z.compare_eq_iff in E; try rewrite Z.compare_lt_iff in E;
    try rewrite Z.compare_gt_iff in E; lia.
Qed.

Lemma w3_half z : int_ok z -> (w3 z <? 0x8000000000000000) = (val z <? 2 ^ 255).
Proof.
  unfold int_ok, val, is_u64. intros H. rewrite half256_eq. apply eq_iff_eq_true.
  rewrite !Z.ltb_lt. lia.
Qed.

Lemma sval_range z : int_ok z -> - 2 ^ 255 <= sval z < 2 ^ 255.
Proof.
  intros H. pose proof (val_range _ H). unfold sval.
  replace W256 with (2 * 2 ^ 255) in * by reflexivity. zbool; lia.
Qed.

Lemma Sign_spec z : int_ok z -> Sign z = Z.sgn (sval z).
Proof.
  intros H. pose proof (val_range _ H). unfold Sign, sval.
  rewrite IsZero_spec, w3_half by done.
  destruct (Z.eqb_spec (val z) 0) as [->|]; [done|].
  replace W256 with (2 * 2 ^ 255) in * by reflexivity.
  destruct (Z.ltb_spec (val z) (2 ^ 255)); symmetry;
    [apply Z.sgn_pos_iff|apply Z.sgn_neg_iff]; lia.
Qed.

Lemma Slt_spec x y : int_ok x -> int_ok y -> Slt x y = (sval x <? sval y).
Proof.
  intros Hx Hy. unfold Slt. rewrite !Sign_spec, Lt_spec by done.
  pose proof (val_range _ Hx). pose proof (val_range _ Hy). unfold sval.
  replace W256 with (2 * 2 ^ 255) in * by reflexivity.
  generalize dependent (2 ^ 255). intros h. zbool; simpl; try done; lia.
Qed.

Lemma Sgt_Slt x y : Sgt x y = Slt y x.
Proof.
  unfold Sgt, Slt, Gt. repeat case_match; try done;
  repeat match goal with
  | H : (_ && _) = true |- _ => apply andb_true_iff in H as [? ?]
  | H : (_ && _) = false |- _ => apply andb_false_iff in H
  end; zbool; try lia; try done; naive_solver.
Qed.

Lemma Sgt_spec x y : int_ok x -> int_ok y -> Sgt x y = (sval y <? sval x).
Proof. intros. rewrite Sgt_Slt. by apply Slt_spec. Qed.

(** ** Multiplication *)
Lemma umulHop_spec z x y hi lo :
  is_u64 z -> is_u64 x -> is_u64 y -> umulHop z x y = (hi, lo) ->
  hi * W + lo = z + x * y /\ is_u64 hi /\ is_u64 lo.
Proof.
  intros Hz Hx Hy. unfold umulHop.
  destruct (Mul64 x y) as [h l] eqn:E. apply Mul64_spec in E as (?&?&?); [|done..].
  prims. intros [= <- <-]. unfold is_u64 in *. lia.
Qed.

Lemma umulStep_spec z x y c hi lo :
  is_u64 z -> is_u64 x -> is_u64 y -> is_u64 c -> umulStep z x y c = (hi, lo) ->
  hi * W + lo = z + x * y + c /\ is_u64 hi /\ is_u64 lo.
Proof.
  intros Hz Hx Hy Hc. unfold umulStep.
  destruct (Mul64 x y) as [h l] eqn:E. apply Mul64_spec in E as (?&?&?); [|done..].
  assert (x * y <= (W - 1) * (W - 1)) by (unfold is_u64 in *; nia).
  prims. intros [= <- <-]. unfold is_u64 in *. lia.
Qed.

Ltac mul_step :=
  match goal with
  | |- context [umulHop ?z ?x ?y] =>
      let h := fresh "h" in let l := fresh "l" in let E := fresh "E" in
      destruct (umulHop z x y) as [h l] eqn:E;
      apply umulHop_spec in E as (?&?&?); [|assumption..]
  | |- context [umulStep ?z ?x ?y ?c] =>
      let h := fresh "h" in let l := fresh "l" in let E := fresh "E" in
      destruct (umulStep z x y c) as [h l] eqn:E;
      apply umulStep_spec in E as (?&?&?); [|assumption..]
  | |- context [Mul64 ?x ?y] =>
      let h := fresh "h" in let l := fresh "l" in let E := fresh "E" in
      destruct (Mul64 x y) as [h l] eqn:E;
      apply Mul64_spec in E as (?&?&?); [|assumption..];
      assert (is_u64 h) by (unfold is_u64; lia)
  end.
Ltac muls := repeat (mul_step; cbn beta iota).

Lemma mul_mod_add_idemp k a b n : (k * (a mod n) + b) mod n = (k * a + b) mod n.
Proof. by rewrite <- Zplus_mod_idemp_l, Zmult_mod_idemp_r, Zplus_mod_idemp_l. Qed.

(** Drop the inner reductions of a sum of products computed on uint64. *)
Ltac pull_u64 :=
  unfold add64, mul64, u64;
  repeat (rewrite <- ?Z.add_assoc, ?Zplus_mod_idemp_l, ?Zplus_mod_idemp_r,
    ?mul_mod_add_idemp, ?Zmult_mod_idemp_l, ?Zmult_mod_idemp_r).

(** A limb list whose top limb is reduced: it suffices to give the value of
    the unreduced top limb up to a multiple of 2^256. *)
Lemma eq_of_Z_top r0 r1 r2 t v q :
  is_u64 r0 -> is_u64 r1 -> is_u64 r2 ->
  v = q * W256 + r0 + W * (r1 + W * (r2 + W * t)) ->
  mkInt r0 r1 r2 (t mod W) = of_Z v.
Proof.
  intros H0 H1 H2 Hv. assert (Ht : t = t / W * W + t mod W) by dlia.
  assert (is_u64 (t mod W)) by (apply u64_range).
  assert (int_ok (mkInt r0 r1 r2 (t mod W))) by by split_and!.
  apply eq_of_Z; [done|]. symmetry. apply mod_unique_range with (q + t / W).
  - by apply val_range.
  - rewrite Hv. unfold val. cbn [w0 w1 w2 w3]. rewrite W256_eq.
    rewrite Ht at 1. ring.
Qed.

Lemma Mul_spec x y : int_ok x -> int_ok y -> Mul x y = of_Z (val x * val y).
Proof.
  intros (?&?&?&?) (?&?&?&?). unfold Mul. muls. pull_u64.
  apply eq_of_Z_top with
    (q := w1 x * w3 y + w2 x * w2 y + w3 x * w1 y
          + W * (w2 x * w3 y + w3 x * w2 y) + W * W * (w3 x * w3 y)); try done.
  unfold val. rewrite W256_eq. lia.
Qed.

Lemma squared_spec z : int_ok z -> squared z = of_Z (val z * val z).
Proof.
  intros (?&?&?&?). unfold squared. muls. pull_u64.
  apply eq_of_Z_top with
    (q := 2 * (w1 z * w3 z) + w2 z * w2 z
          + W * (2 * (w2 z * w3 z)) + W * W * (w3 z * w3 z)); try done.
  unfold val. rewrite W256_eq. lia.
Qed.

(** The value of a little-endian limb list. *)
Fixpoint eval (l : list Z) : Z :=
  match l with
  | [] => 0
  | x :: l' => x + W * eval l'
  end.
Abbreviation limbs_ok := (Forall is_u64).

Lemma umul_spec x y :
  int_ok x -> int_ok y ->
  eval (umul x y) = val x * val y /\ limbs_ok (umul x y) /\ length (umul x y) = 8%nat.
Proof.
  intros (?&?&?&?) (?&?&?&?). unfold umul. muls. split_and!; [|by rewrite !list.Forall_cons, list.Forall_nil|done].
  unfold val. cbn [eval]. lia.
Qed.


Lemma MulOverflow_spec x y :
  int_ok x -> int_ok y ->
  MulOverflow x y = (of_Z (val x * val y), W256 <=? val x * val y).
Proof.
  intros Hx Hy. destruct (umul_spec x y Hx Hy) as (He & Hok & Hl). unfold MulOverflow.
  destruct (umul x y) as [|r0 [|r1 [|r2 [|r3 [|r4 [|r5 [|r6 [|r7 [|]]]]]]]]]; try done.
  rewrite !list.Forall_cons in Hok. destruct Hok as (?&?&?&?&?&?&?&?&_).
  cbn [eval] in He. simpl lookup_total. f_equal.
  - assert (int_ok (mkInt r0 r1 r2 r3)) as Hok by done. apply eq_of_Z; [done|].
    symmetry. apply mod_unique_range with (r4 + W * (r5 + W * (r6 + W * r7))).
    + by apply val_range.
    + unfold val in *. cbn [w0 w1 w2 w3]. rewrite W256_eq. lia.
  - rewrite <- (negb_involutive (W256 <=? _)). f_equal. rewrite <- Z.ltb_antisym.
    apply eq_iff_eq_true. rewrite Z.eqb_eq, Z.ltb_lt, !lor_eq_0, <- He, W256_eq.
    unfold is_u64 in *. lia.
Qed.

(** ** Exponentiation *)
Lemma BitLen_spec z :
  int_ok z -> 0 <= BitLen z <= 256 /\ val z < 2 ^ BitLen z
  /\ (val z <> 0 -> 2 ^ (BitLen z - 1) <= val z).
Proof.
  intros (H0&H1&H2&H3). unfold BitLen, val.
  pose proof (Len64_spec _ H0). pose proof (Len64_spec _ H1).
  pose proof (Len64_spec _ H2). pose proof (Len64_spec _ H3). unfold is_u64 in *.
  assert (Hp : forall k n, 1 <= n -> 0 <= k -> 2 ^ (k + n) = 2 ^ k * 2 ^ n
                             /\ 2 ^ (k + n - 1) = 2 ^ k * 2 ^ (n - 1)).
  { intros k n ? ?. rewrite <- !Z.pow_add_r by lia. split; f_equal; lia. }
  assert (Hn : forall x, x <> 0 -> is_u64 x -> 1 <= Len64 x).
  { intros x Hx Hu. unfold Len64. zbool; [done|]. pose proof (Z.log2_nonneg x). lia. }
  destruct (Z.eqb_spec (w3 z) 0) as [E3|E3]; simpl negb; cbv iota;
    [destruct (Z.eqb_spec (w2 z) 0) as [E2|E2]; simpl negb; cbv iota;
      [destruct (Z.eqb_spec (w1 z) 0) as [E1|E1]; simpl negb; cbv iota|]|].
  - lia.
  - destruct (Hp 64 (Len64 (w1 z))) as [-> ->]; [by apply Hn|lia|].
    change (2 ^ 64) with W. lia.
  - destruct (Hp 128 (Len64 (w2 z))) as [-> ->]; [by apply Hn|lia|].
    change (2 ^ 128) with (W * W). lia.
  - destruct (Hp 192 (Len64 (w3 z))) as [-> ->]; [by apply Hn|lia|].
    change (2 ^ 192) with (W * W * W). lia.
Qed.

Lemma of_Z_pow_mul a b c d n m :
  of_Z a = of_Z (b ^ n) -> of_Z c = of_Z (d ^ m) -> of_Z (a * c) = of_Z (b ^ n * d ^ m).
Proof.
  intros Ha Hc. apply (f_equal val) in Ha, Hc. rewrite !val_of_Z in *.
  apply val_inj; auto with evm. rewrite !val_of_Z.
  by rewrite Zmult_mod, Ha, Hc, <- Zmult_mod.
Qed.

Lemma of_Z_mul_val a b : of_Z (val (of_Z a) * b) = of_Z (a * b).
Proof.
  apply val_inj; auto with evm. rewrite !val_of_Z. apply Zmult_mod_idemp_l.
Qed.
Lemma of_Z_mul_val_r a b : of_Z (a * val (of_Z b)) = of_Z (a * b).
Proof. rewrite Z.mul_comm, of_Z_mul_val. f_equal. lia. Qed.

(** One word of the exponent: [n] iterations multiply by the power given by
    the low [n] bits of the word and square the multiplier [n] times. *)
Lemma Exp_word_spec fuel : forall c bl limit word r m,
  0 <= word ->
  let n := Z.max 0 (Z.min bl limit - c) in
  n <= Z.of_nat fuel ->
  Exp_word fuel c bl limit word (of_Z r) (of_Z m)
  = (c + n, of_Z (r * m ^ (word mod 2 ^ n)), of_Z (m ^ (2 ^ n))).
Proof.
  induction fuel as [|f IH]; intros c bl limit word r m Hw n Hn; simpl Exp_word.
  - replace n with 0 by lia. rewrite Z.mod_1_r, !Z.pow_0_r, Z.pow_1_r, Z.add_0_r, Z.mul_1_r.
    done.
  - destruct (Z.ltb_spec c bl); [destruct (Z.ltb_spec c limit)|]; simpl andb; cbv iota;
    [| replace n with 0 by lia;
       by rewrite Z.mod_1_r, !Z.pow_0_r, Z.pow_1_r, Z.add_0_r, Z.mul_1_r ..].
    set (n' := n - 1). assert (Hn' : n = Z.succ n') by lia.
    assert (Hres : (if Z.land word 1 =? 1 then Mul (of_Z r) (of_Z m) else of_Z r)
                   = of_Z (r * m ^ (word mod 2))).
    { change 1 with (Z.ones 1). rewrite Z.land_ones by lia. change (2 ^ 1) with 2.
      pose proof (Z.mod_pos_bound word 2 ltac:(lia)).
      destruct (Z.eqb_spec (word mod 2) (Z.ones 1)) as [->|E].
      - rewrite Mul_spec, of_Z_mul_val, of_Z_mul_val_r by auto with evm.
        by rewrite Z.pow_1_r.
      - replace (word mod 2) with 0 by (change (Z.ones 1) with 1 in E; lia). by rewrite Z.pow_0_r, Z.mul_1_r. }
    rewrite Hres, squared_spec by auto with evm.
    rewrite of_Z_mul_val, of_Z_mul_val_r.
    unfold shr64. rewrite Z.shiftr_div_pow2 by lia. change (2 ^ 1) with 2.
    rewrite IH by (try apply Z.div_pos; lia).
    replace (Z.max 0 (Z.min bl limit - (c + 1))) with n' by lia.
    rewrite Hn'. rewrite Z.pow_succ_r by lia.
    assert (0 < 2 ^ n') by (apply Z.pow_pos_nonneg; lia).
    rewrite Z.rem_mul_r by lia. f_equal; [f_equal|].
    + lia.
    + f_equal. pose proof (Z.mod_pos_bound word 2 ltac:(lia)).
      pose proof (Z.mod_pos_bound (word / 2) (2 ^ n') ltac:(lia)).
      rewrite Z.pow_add_r, Z.pow_mul_r by lia. rewrite <- Z.pow_2_r. lia.
    + f_equal. rewrite <- Z.pow_2_r, <- Z.pow_mul_r by lia. done.
Qed.

(** Before the word [i], [c = min bl (64 i)] bits of the exponent are done. *)
Lemma Exp_word_step B E bl i :
  0 <= E -> 0 <= i -> 0 <= bl ->
  let c := Z.min bl (64 * i) in
  let c' := Z.min bl (64 * (i + 1)) in
  Exp_word 64 c bl (64 * (i + 1)) (E / 2 ^ (64 * i) mod W)
    (of_Z (B ^ (E mod 2 ^ c))) (of_Z (B ^ (2 ^ c)))
  = (c', of_Z (B ^ (E mod 2 ^ c')), of_Z (B ^ (2 ^ c'))).
Proof.
  intros HE Hi Hbl c c'.
  rewrite Exp_word_spec by (try apply Z.mod_pos_bound; lia).
  set (n := Z.max 0 (Z.min bl (64 * (i + 1)) - c)).
  assert (c + n = c') as Hc by lia. rewrite <- Hc.
  assert (0 < 2 ^ c /\ 0 < 2 ^ n) as [? ?] by (split; apply Z.pow_pos_nonneg; lia).
  pose proof (Z.mod_pos_bound E (2 ^ c) ltac:(lia)).
  pose proof (Z.mod_pos_bound (E / 2 ^ c) (2 ^ n) ltac:(lia)).
  assert (Hw : (E / 2 ^ (64 * i) mod W) mod 2 ^ n = (E / 2 ^ c) mod 2 ^ n).
  { destruct (Z.eq_dec n 0) as [->|]; [by rewrite !Z.mod_1_r|].
    replace c with (64 * i) by lia. change W with (2 ^ 64).
    replace 64 with (n + (64 - n)) at 2 by lia. rewrite Z.pow_add_r by lia.
    rewrite Z.rem_mul_r by (try apply Z.pow_nonzero; lia).
    rewrite (Z.mul_comm (2 ^ n)), Z.mod_add by lia. by rewrite Z.mod_mod by lia. }
  rewrite Hw, !Z.pow_add_r, Z.rem_mul_r by lia.
  rewrite Z.pow_add_r by (try apply Z.mul_nonneg_nonneg; lia).
  rewrite !Z.pow_mul_r by lia. done.
Qed.

Lemma Exp_spec b e : int_ok b -> int_ok e -> Exp b e = of_Z (val b ^ val e).
Proof.
  intros Hb He. destruct (BitLen_spec e He) as (Hbl & Hlt & _).
  pose proof (val_range e He). pose proof (of_Z_val e He) as Hl.
  unfold Exp. set (bl := BitLen e) in *. set (E := val e) in *. clearbody E bl.
  rewrite <- Hl. unfold of_Z at 1 2 3 4; cbn [w0 w1 w2 w3].
  rewrite SetOne_of_Z, <- (of_Z_val b Hb) at 1. set (B := val b).
  assert (Hdiv : E / W / W = E / 2 ^ (64 * 2) /\ E / W / W / W = E / 2 ^ (64 * 3)).
  { rewrite !Z.div_div by lia. done. }
  destruct Hdiv as [-> ->].
  pose proof (Exp_word_step B E bl 0) as H0. pose proof (Exp_word_step B E bl 1) as H1.
  pose proof (Exp_word_step B E bl 2) as H2. pose proof (Exp_word_step B E bl 3) as H3.
  cbv zeta in *. rewrite (Z.min_r bl (64 * 0)) in H0 by lia.
  rewrite Z.mod_1_r, Z.pow_0_r, Z.pow_1_r, Z.div_1_r in H0.
  change (64 * 0) with 0 in H0. rewrite Z.pow_0_r in H0.
  change (64 * (0 + 1)) with 64 in *. change (64 * 1) with 64 in *.
  change (64 * (1 + 1)) with 128 in *. change (64 * 2) with 128 in *.
  change (64 * (2 + 1)) with 192 in *. change (64 * 3) with 192 in *.
  change (64 * (3 + 1)) with 256 in *. change (2 ^ 64) with W in *.
  rewrite H0 by lia. rewrite H1 by lia. rewrite H2, H3 by lia.
  rewrite (Z.min_l bl 256) by lia. by rewrite Z.mod_small by lia.
Qed.
