(* ===== verification/Uint256Div.v ===== *)
(** * The 256-bit integer library: division

    The reciprocal division of div.go and Knuth's algorithm D of uint256.go
    compute exact quotients and remainders; [Div], [Mod], [SDiv], [SMod],
    [AddMod] and [MulMod] never panic and return the EVM's results. *)

From S2P Require Import Prelude Words Uint256 Uint256Arith.

Abbreviation Wn n := (W ^ Z.of_nat n).

Lemma Wn_S n : Wn (S n) = W * Wn n.
Proof. rewrite Nat2Z.inj_succ, Z.pow_succ_r by lia. done. Qed.
Lemma Wn_pos n : 0 < Wn n.
Proof. apply Z.pow_pos_nonneg; lia. Qed.

(** ** Division of two words by a normalized word *)
Definition normalized (d : Z) : Prop := 0x8000000000000000 <= d < W.
(** The reciprocal of [d] in the sense of Moller and Granlund. *)
Definition is_reciprocal (d v : Z) : Prop :=
  0 <= v < W /\ (W + v) * d <= W * W - 1 < (W + v + 1) * d.

Lemma reciprocal2by1_spec d :
  normalized d -> exists v, reciprocal2by1 d = Ret v /\ is_reciprocal d v.
Proof.
  unfold normalized. intros Hd. unfold reciprocal2by1, Div64, not64, is_reciprocal.
  destruct (Z.eqb_spec d 0); [lia|]. destruct (Z.leb_spec d (W - 1 - d)); [lia|]. simpl.
  eexists. split; [done|].
  set (a := (W - 1 - d) * W + (W - 1 - 0)).
  assert (Ha : a = W * W - 1 - W * d) by lia.
  pose proof (Z.div_mod a d ltac:(lia)). pose proof (Z.mod_pos_bound a d ltac:(lia)).
  split; nia.
Qed.

(** The bounds on the candidate remainder, from the two defining equations. *)
Lemma mg_bounds d v uh ul qh ql :
  normalized d -> is_reciprocal d v -> 0 <= uh < d -> is_u64 ul -> is_u64 ql ->
  qh * W + ql = v * uh + uh * W + ul ->
  let rt := uh * W + ul - (qh + 1) * d in
  - d <= rt /\ ql - W < rt /\ (rt < W - d \/ rt < ql).
Proof.
  intros Hd (Hv & Hk1 & Hk2) Hu Hul Hql Hq rt. unfold normalized, is_u64 in *.
  set (k := W * W - (W + v) * d).
  assert (Hrt : W * rt = uh * k + ul * (W - d) + ql * d - W * d).
  { subst rt k. nia. }
  assert (0 < k <= d) by lia.
  assert (0 <= uh * k /\ 0 <= ul * (W - d)) by nia.
  split_and!; [nia|nia|].
  assert (uh * k <= (d - 1) * d) by nia.
  assert (ul * (W - d) <= (W - 1) * (W - d)) by nia.
  assert (Hup : W * rt < (W - d) * (W - d) + ql * d).
  { rewrite Hrt. clear Hrt. generalize dependent (uh * k). generalize dependent (ul * (W - d)).
    intros. lia. }
  clear - Hup Hd. destruct (Z.le_ge_cases ql (W - d)); [left|right]; nia.
Qed.

Lemma udivrem2by1_spec d v uh ul :
  normalized d -> is_reciprocal d v -> 0 <= uh < d -> is_u64 ul ->
  exists q r, udivrem2by1 uh ul d v = (q, r) /\ q * d + r = uh * W + ul /\ 0 <= r < d /\ is_u64 q.
Proof.
  intros Hd Hv Hu Hul. unfold udivrem2by1.
  assert (Hnd : normalized d) by done. assert (Hiv : is_reciprocal d v) by done.
  destruct Hv as (Hv & Hk1 & Hk2). unfold normalized in Hd.
  assert (is_u64 v /\ is_u64 uh) as [? ?] by (unfold is_u64; lia).
  destruct (Mul64 v uh) as [h l] eqn:E. apply Mul64_spec in E as (?&?&?); [|done..].
  prims. rename s into ql, s0 into qh, k0 into kk.
  assert (Hsum : qh + kk * W = h + uh + k) by lia.
  assert (kk = 0).
  { assert ((W + v) * uh <= (W + v) * (d - 1)) by nia. unfold is_u64 in *. nia. }
  subst kk. assert (Hq : qh * W + ql = v * uh + uh * W + ul) by lia.
  destruct (mg_bounds d v uh ul qh ql) as (B1 & B2 & B3); try done.
  set (rt := uh * W + ul - (qh + 1) * d) in *.
  assert (Hr : sub64 ul (mul64 (add64 qh 1) d) = rt mod W).
  { unfold sub64, mul64, add64, u64. rewrite Zmult_mod_idemp_l, Zminus_mod_idemp_r.
    subst rt. replace (uh * W + ul - (qh + 1) * d) with (ul - (qh + 1) * d + uh * W) by lia.
    by rewrite Z.mod_add by lia. }
  rewrite Hr. unfold is_u64 in *.
  destruct (Z.lt_ge_cases rt 0) as [Hneg|Hpos].
  - assert (rt mod W = rt + W) as -> by (apply mod_unique_range with (-1); lia).
    destruct (Z.ltb_spec ql (rt + W)); [|lia].
    assert (add64 (rt + W) d = rt + d) as -> by (apply mod_unique_range with 1; lia).
    destruct (Z.leb_spec d (rt + d)); [lia|].
    assert (sub64 (add64 qh 1) 1 = qh) as ->.
    { unfold sub64, add64, u64. rewrite Zminus_mod_idemp_l. rewrite Z.mod_small; lia. }
    exists qh, (rt + d). split_and!; try done; lia.
  - assert (qh + 1 < W) by (apply (Z.mul_lt_mono_pos_r d); lia).
    rewrite (Z.mod_small rt W) by lia.
    assert (add64 qh 1 = qh + 1) as -> by (apply u64_small; unfold is_u64; lia).
    destruct (Z.ltb_spec ql rt).
    + assert (add64 rt d = rt + d) as -> by (apply u64_small; unfold is_u64; lia).
      destruct (Z.leb_spec d (rt + d)); [|lia].
      rewrite (sub64_nowrap (qh + 1) 1) by (unfold is_u64; lia).
      rewrite add64_nowrap, sub64_nowrap by (unfold is_u64; lia).
      exists (qh + 1), rt. split_and!; try lia. f_equal; lia.
    + destruct (Z.leb_spec d rt).
      * assert (qh + 2 < W) by (apply (Z.mul_lt_mono_pos_r d); lia).
        rewrite add64_nowrap, sub64_nowrap by (unfold is_u64; lia).
        exists (qh + 2), (rt - d). split_and!; try lia. f_equal; lia.
      * exists (qh + 1), rt. split_and!; try lia. done.
Qed.

(** ** Limb lists *)
Lemma eval_app l k : eval (l ++ k) = eval l + Wn (length l) * eval k.
Proof.
  induction l as [|x l IH]; cbn [eval app length]; [rewrite Z.pow_0_r; lia|].
  rewrite IH, Wn_S. lia.
Qed.

Lemma eval_bound l : limbs_ok l -> 0 <= eval l < Wn (length l).
Proof.
  induction 1 as [|x l Hx Hl IH]; cbn [eval length]; [rewrite Z.pow_0_r; lia|].
  rewrite Wn_S. unfold is_u64 in Hx. nia.
Qed.

Lemma eval_replicate0 n : eval (replicate n 0) = 0.
Proof. induction n; simpl; lia. Qed.

Lemma eval_take_S j l x :
  l !! j = Some x -> eval (take (S j) l) = eval (take j l) + Wn j * x.
Proof.
  intros H. erewrite take_S_r by done. rewrite eval_app.
  rewrite length_take_le by (apply lookup_lt_Some in H; lia). simpl. lia.
Qed.

Lemma eval_insert j l x y :
  l !! j = Some x -> eval (<[j := y]> l) = eval l + Wn j * (y - x).
Proof.
  revert j. induction l as [|a l IH]; intros [|j] H; try done; simpl in *.
  - simplify_eq. lia.
  - rewrite (IH _ H), Wn_S. lia.
Qed.

Lemma eval_take_drop j l : eval l = eval (take j l) + Wn (length (take j l)) * eval (drop j l).
Proof. by rewrite <- eval_app, take_drop. Qed.

Lemma lookup_total_Some (l : list Z) j : (j < length l)%nat -> l !! j = Some (l !!! j).
Proof. intros. by apply list_lookup_lookup_total_lt. Qed.

(** A quotient buffer whose first [j] entries are still zero. *)
Definition zero_below (j : nat) (l : list Z) : Prop :=
  forall i, (i < j)%nat -> l !! i = Some 0.

Lemma zero_below_insert j l q : zero_below (S j) l -> zero_below j (<[j := q]> l).
Proof. intros H i Hi. rewrite list_lookup_insert_ne by lia. apply H. lia. Qed.

Lemma zero_below_replicate j n : (j <= n)%nat -> zero_below j (replicate n 0).
Proof. intros H i Hi. apply lookup_replicate_2. lia. Qed.

(** ** Division by one normalized word *)
Lemma udivremBy1_loop_spec d v : normalized d -> is_reciprocal d v ->
  forall j quot u rem,
  limbs_ok u -> limbs_ok quot -> (j <= length u)%nat -> zero_below j quot -> 0 <= rem < d ->
  exists quot' rem',
    udivremBy1_loop j quot u d v rem = (quot', rem') /\
    (eval quot' - eval quot) * d + rem' = eval (take j u) + Wn j * rem /\
    0 <= rem' < d /\ limbs_ok quot' /\ length quot' = length quot.
Proof.
  intros Hd Hv. induction j as [|j IH]; intros quot u rem Hu Hq Hj Hz Hr.
  - exists quot, rem. rewrite Z.pow_0_r, take_0. split_and!; try done; cbn [eval]; lia.
  - cbn [udivremBy1_loop].
    assert (Huj : u !! j = Some (u !!! j)) by (apply lookup_total_Some; lia).
    assert (is_u64 (u !!! j)) by (eapply Forall_lookup_1 in Hu; eauto).
    destruct (udivrem2by1_spec d v rem (u !!! j)) as (q & r & -> & Hqr & Hrd & Hq64); try done.
    destruct (IH (<[j := q]> quot) u r) as (quot' & rem' & -> & He & ?&?&Hl); try done.
    { by apply Forall_insert. } { lia. } { by apply zero_below_insert. }
    exists quot', rem'. rewrite length_insert in Hl. split_and!; try done; try lia.
    rewrite (eval_insert _ _ 0) in He by (apply Hz; lia).
    rewrite (eval_take_S j u (u !!! j)) by done. rewrite Wn_S.
    set (P := Wn j) in *. nia.
Qed.

(** ** Multi-word steps *)
Lemma addTo_from_spec y : forall x c,
  limbs_ok x -> limbs_ok y -> 0 <= c <= 1 -> (length y <= length x)%nat ->
  exists x' c', addTo_from x y c = (x', c') /\
    eval (take (length y) x') + c' * Wn (length y) = eval (take (length y) x) + eval y + c /\
    drop (length y) x' = drop (length y) x /\ 0 <= c' <= 1 /\
    limbs_ok x' /\ length x' = length x.
Proof.
  induction y as [|b y IH]; intros [|a x] c Hx Hy Hc Hl; simpl in Hl; try lia.
  - exists [], c. cbn [length take eval]. rewrite Z.pow_0_r. split_and!; try done; unfold is_u64 in *; lia.
  - exists (a :: x), c. cbn [length take eval]. rewrite Z.pow_0_r. split_and!; try done; unfold is_u64 in *; lia.
  - apply list.Forall_cons in Hx as [Ha Hx]. apply list.Forall_cons in Hy as [Hb Hy].
    cbn [addTo_from]. prims.
    destruct (IH x k) as (x' & c' & -> & He & Hd & ?&?&?); try done; [lia|].
    exists (s :: x'), c'. split_and!; try first [done|by constructor|simpl; unfold is_u64 in *; lia].
    cbn [length take eval]. rewrite Wn_S. lia.
Qed.

Lemma subMulTo_from_spec m y : is_u64 m -> forall x b,
  limbs_ok x -> limbs_ok y -> is_u64 b -> (length y <= length x)%nat ->
  exists x' b', subMulTo_from x y m b = (x', b') /\
    eval (take (length y) x') - b' * Wn (length y) = eval (take (length y) x) - eval y * m - b /\
    drop (length y) x' = drop (length y) x /\ is_u64 b' /\
    limbs_ok x' /\ length x' = length x.
Proof.
  intros Hm. induction y as [|c y IH]; intros [|a x] b Hx Hy Hb Hl; simpl in Hl; try lia.
  - exists [], b. cbn [length take eval]. rewrite Z.pow_0_r. split_and!; try done; unfold is_u64 in *; lia.
  - exists (a :: x), b. cbn [length take eval]. rewrite Z.pow_0_r. split_and!; try done; unfold is_u64 in *; lia.
  - apply list.Forall_cons in Hx as [Ha Hx]. apply list.Forall_cons in Hy as [Hc Hy].
    cbn [subMulTo_from]. prim_step. cbn beta iota.
    destruct (Mul64 c m) as [ph pl] eqn:E. apply Mul64_spec in E as (?&?&?); [|done..].
    assert (c * m <= (W - 1) * (W - 1)) by (unfold is_u64 in *; nia).
    prim_step. cbn beta iota.
    assert (Hb' : add64 (add64 ph k) k0 = ph + k + k0 /\ is_u64 (ph + k + k0)).
    { assert (is_u64 (ph + k + k0)) by (unfold is_u64 in *; lia).
      split; [|done]. unfold is_u64 in *. rewrite (add64_nowrap ph k), add64_nowrap; unfold is_u64; lia. }
    destruct Hb' as [-> ?].
    destruct (IH x (ph + k + k0)) as (x' & b' & -> & He & Hd & ?&?&?); try done; [lia|].
    exists (s0 :: x'), b'. split_and!; try first [done|by constructor|simpl; unfold is_u64 in *; lia].
    cbn [length take eval]. rewrite Wn_S. lia.
Qed.

(** ** The digit estimate *)
Lemma mul_le_cancel a b d : 0 < d -> a * d < (b + 1) * d -> a <= b.
Proof. intros Hd H. apply Z.mul_lt_mono_pos_r in H; lia. Qed.

Lemma mul_le_r a b p : 0 <= p -> a <= b -> a * p <= b * p.
Proof. intros. by apply Z.mul_le_mono_nonneg_r. Qed.

(** The pure inequalities behind the estimate; [P] is the weight of the
    limbs below the three leading ones. *)
Section Estimate.
Context (u2 u1 u0 ur dh dl dr P U D : Z).
Context (Hdh : normalized dh) (H2 : is_u64 u2) (H1 : is_u64 u1) (H0 : is_u64 u0)
        (Hdl : is_u64 dl) (Hur : 0 <= ur < P) (Hdr : 0 <= dr < P).
Context (EU : U = (u2 * W * W + u1 * W + u0) * P + ur)
        (ED : D = (dh * W + dl) * P + dr).

Lemma est_D_bounds : dh * (W * P) <= D < (dh + 1) * (W * P).
Proof.
  unfold is_u64 in *. pose proof (mul_le_r dl (W - 1) P ltac:(lia) ltac:(lia)).
  pose proof (mul_le_r 0 dl P ltac:(lia) ltac:(lia)). rewrite ED. clear EU ED. lia.
Qed.

(** Two below any [q] with [q * dh <= (u2,u1)] is not above the quotient. *)
Lemma est_two_below q : q <= 2 * dh + 1 -> q * dh <= u2 * W + u1 -> (q - 2) * D <= U.
Proof.
  intros Hq Hqd. pose proof est_D_bounds as [HD1 HD2].
  assert (HU : (u2 * W + u1) * (W * P) <= U) by (rewrite EU; clear EU ED; unfold is_u64 in *; nia).
  pose proof (mul_le_r _ _ (W * P) ltac:(nia) Hqd) as Hm.
  assert (0 < W * P) by nia.
  destruct (Z.le_gt_cases q 2); [unfold normalized in *; nia|].
  assert ((q - 2) * D <= (q - 2) * ((dh + 1) * (W * P))) by nia.
  assert (Hle : (q - 2) * (dh + 1) <= q * dh) by nia.
  apply (mul_le_r _ _ (W * P)) in Hle; [|lia]. lia.
Qed.

Lemma est_correct q r :
  0 <= q < W -> q * dh + r = u2 * W + u1 -> 0 <= r < dh ->
  (if r * W + u0 <? q * dl then (q - 2) * D <= U /\ U < q * D
   else (q - 1) * D <= U /\ U < (q + 1) * D).
Proof.
  intros Hq Hqr Hr. pose proof est_D_bounds as [HD1 HD2].
  assert (HU : U = (q * dh + r) * (W * P) + u0 * P + ur) by (rewrite EU, Hqr; clear; lia).
  assert (HqD : q * D = q * dh * (W * P) + q * dl * P + q * dr) by (rewrite ED; clear; lia).
  unfold is_u64, normalized in *.
  destruct (Z.ltb_spec (r * W + u0) (q * dl)) as [Hc|Hc]; split.
  - apply est_two_below; nia.
  - assert (0 <= q * dr) by nia.
    pose proof (mul_le_r (r * W + u0 + 1) (q * dl) P ltac:(lia) ltac:(lia)). lia.
  - assert (q * dr <= W * P) by nia.
    pose proof (mul_le_r _ _ P ltac:(lia) Hc).
    assert (W * P <= dh * (W * P)) by nia. lia.
  - assert (0 <= q * dr /\ 0 <= q * dl * P) as [? ?] by nia.
    assert (u0 * P + ur < W * P) by nia.
    pose proof (mul_le_r (r + 1) dh (W * P) ltac:(nia) ltac:(lia)). lia.
Qed.
End Estimate.

(** With [U = (u2,u1,u0,...)] one word longer than the normalized divisor
    [D = (dh,dl,...)], the estimate is the digit or one more. *)
Lemma knuth_qhat_spec u2 u1 u0 ur dh dl dr P v :
  normalized dh -> is_reciprocal dh v -> is_u64 u2 -> is_u64 u1 -> is_u64 u0 -> is_u64 dl ->
  0 <= ur < P -> 0 <= dr < P ->
  (u2 * W * W + u1 * W + u0) * P + ur < ((dh * W + dl) * P + dr) * W ->
  is_u64 (knuth_qhat u2 u1 u0 dh dl v) /\
  (knuth_qhat u2 u1 u0 dh dl v - 1) * ((dh * W + dl) * P + dr)
    <= (u2 * W * W + u1 * W + u0) * P + ur <
  (knuth_qhat u2 u1 u0 dh dl v + 1) * ((dh * W + dl) * P + dr).
Proof.
  intros Hd Hv H2 H1 H0 Hdl Hur Hdr HU. unfold knuth_qhat.
  destruct (Z.leb_spec dh u2) as [Hov|Hov].
  - unfold not64. split; [unfold is_u64; lia|]. split; [|lia].
    replace (W - 1 - 0 - 1) with (W - 1 - 0 + 1 - 2) by lia.
    apply (est_two_below u2 u1 u0 ur dh dl dr P _ _ Hd H1 H0 Hdl Hur Hdr eq_refl eq_refl);
      unfold normalized, is_u64 in *; lia.
  - unfold is_u64 in H2.
    destruct (udivrem2by1_spec dh v u2 u1) as (q & r & -> & Hqr & Hr & Hq); try done; [lia|].
    pose proof (est_correct u2 u1 u0 ur dh dl dr P _ _ Hd H2 H1 H0 Hdl Hur Hdr eq_refl eq_refl
                  q r Hq Hqr Hr) as He.
    destruct (Mul64 q dl) as [ph pl] eqn:E. apply Mul64_spec in E as (Hp&Hpl&Hph); [|done..].
    assert (Hc : (r <? ph) || ((ph =? r) && (u0 <? pl)) = (r * W + u0 <? q * dl)).
    { rewrite <- Hp. unfold is_u64 in *. apply eq_iff_eq_true.
      rewrite orb_true_iff, andb_true_iff, !Z.ltb_lt, Z.eqb_eq. lia. }
    rewrite Hc. destruct (Z.ltb_spec (r * W + u0) (q * dl)) as [Hlt|Hge].
    + assert (1 <= q) by (unfold is_u64, normalized in *; nia).
      unfold is_u64 in *. rewrite sub64_nowrap by (unfold is_u64; lia).
      replace (q - 1 - 1) with (q - 2) by lia. replace (q - 1 + 1) with q by lia. lia.
    + unfold is_u64 in *. lia.
Qed.

Lemma eval_top (l : list Z) m :
  length l = S m -> eval l = eval (take m l) + Wn m * (l !!! m).
Proof.
  intros Hl. rewrite <- (eval_take_S m l) by (apply lookup_total_Some; lia).
  by rewrite take_ge by lia.
Qed.

Lemma eval_top2 (l : list Z) m :
  length l = S (S m) ->
  eval l = (l !!! S m * W + l !!! m) * Wn m + eval (take m l).
Proof.
  intros Hl. rewrite (eval_top l (S m)) by done.
  rewrite (eval_take_S m l (l !!! m)) by (apply lookup_total_Some; lia).
  rewrite Wn_S. lia.
Qed.

Lemma limbs_ok_lookup (l : list Z) i : limbs_ok l -> (i < length l)%nat -> is_u64 (l !!! i).
Proof. intros H Hi. eapply Forall_lookup_1; [done|]. by apply lookup_total_Some. Qed.

Lemma limbs_ok_take (l : list Z) n : limbs_ok l -> limbs_ok (take n l).
Proof. apply Forall_take. Qed.

(** The estimate, on limb lists. *)
Lemma knuth_qhat_window (x d : list Z) m v :
  limbs_ok x -> limbs_ok d -> length d = S (S m) -> (S (S m) < length x)%nat ->
  normalized (d !!! S m) -> is_reciprocal (d !!! S m) v ->
  eval (take (S (S (S m))) x) < eval d * W ->
  let q := knuth_qhat (x !!! S (S m)) (x !!! S m) (x !!! m) (d !!! S m) (d !!! m) v in
  is_u64 q /\ (q - 1) * eval d <= eval (take (S (S (S m))) x) < (q + 1) * eval d.
Proof.
  intros Hx Hd Hl Hlx Hn Hv HU q.
  pose proof (eval_bound _ (limbs_ok_take x m Hx)) as Hux.
  pose proof (eval_bound _ (limbs_ok_take d m Hd)) as Hdx.
  rewrite length_take_le in Hux, Hdx by lia.
  assert (EU : eval (take (S (S (S m))) x)
    = (x !!! S (S m) * W * W + x !!! S m * W + x !!! m) * Wn m + eval (take m x)).
  { rewrite (eval_take_S (S (S m)) x (x !!! S (S m))) by (apply lookup_total_Some; lia).
    rewrite (eval_take_S (S m) x (x !!! S m)) by (apply lookup_total_Some; lia).
    rewrite (eval_take_S m x (x !!! m)) by (apply lookup_total_Some; lia).
    rewrite !Wn_S. lia. }
  rewrite EU, (eval_top2 d m) in * by done.
  apply knuth_qhat_spec; try done; apply limbs_ok_lookup; try done; lia.
Qed.

(** The numbers of one step: [e1] are the low limbs after the subtraction,
    [b] the borrow out of them, [u2] the window's top limb. *)
Lemma knuth_sub_cases U D N q x1 e1 u2 b :
  0 < D < N -> 0 <= x1 < N -> 0 <= e1 < N -> 0 <= u2 -> 0 <= q ->
  U = x1 + N * u2 -> e1 - b * N = x1 - D * q -> (q - 1) * D <= U < (q + 1) * D ->
  (b <= u2 /\ U - q * D = e1 + N * (u2 - b) /\ 0 <= U - q * D < D) \/
  (b = u2 + 1 /\ 1 <= q /\ U - (q - 1) * D = e1 + D - N /\ 0 <= U - (q - 1) * D < D).
Proof.
  intros HD Hx1 He1 Hu2 Hq HU He Hb.
  assert (HR : U - q * D = e1 + N * (u2 - b)) by lia.
  destruct (Z.le_gt_cases b u2) as [Hle|Hgt]; [left|right].
  - split; [done|]. split; [done|]. assert (0 <= N * (u2 - b)) by nia. lia.
  - assert (b = u2 + 1).
    { assert (- N < U - q * D) by lia. assert (N * (u2 - b) > - (2 * N)) by lia. nia. }
    subst b. assert (U - q * D < 0) by lia. assert (1 <= q) by nia. lia.
Qed.

(** One step of the loop subtracts the right multiple of the divisor from the
    window of [length d + 1] limbs at [j] and leaves the rest alone. *)
Lemma knuth_step_spec (a x d : list Z) m v :
  limbs_ok x -> limbs_ok d -> length d = S (S m) -> (S (S m) < length x)%nat ->
  normalized (d !!! S m) -> is_reciprocal (d !!! S m) v ->
  eval (take (S (S (S m))) x) < eval d * W ->
  exists q x', knuth_step (length a) (a ++ x) d (d !!! S m) (d !!! m) v = (q, a ++ x') /\
    is_u64 q /\ limbs_ok x' /\ length x' = length x /\
    drop (S (S (S m))) x' = drop (S (S (S m))) x /\
    eval (take (S (S (S m))) x') = eval (take (S (S (S m))) x) - q * eval d /\
    0 <= eval (take (S (S (S m))) x') < eval d.
Proof.
  intros Hx Hd Hl Hlx Hn Hv HU.
  destruct (knuth_qhat_window x d m v) as (Hq64 & Hq1 & Hq2); try done.
  unfold knuth_step. rewrite Hl.
  replace (length a + S (S m) - 1)%nat with (length a + S m)%nat by lia.
  replace (length a + S (S m) - 2)%nat with (length a + m)%nat by lia.
  rewrite !lookup_total_app_r by lia.
  replace (length a + S (S m) - length a)%nat with (S (S m)) by lia.
  replace (length a + S m - length a)%nat with (S m) by lia.
  replace (length a + m - length a)%nat with m by lia.
  rewrite !drop_app_length, !take_app_length.
  set (qhat := knuth_qhat _ _ _ _ _ _) in *. clearbody qhat.
  set (n := S (S m)) in *.
  destruct (subMulTo_from_spec qhat d Hq64 x 0) as (tl & b & E & He & Hdr & Hb & Htl & Hltl);
    [done|done|unfold is_u64; lia|lia|].
  rewrite Hl in He, Hdr. unfold subMulTo. rewrite E. cbn beta iota.
  assert (is_u64 (x !!! n)) as Hu2 by (apply limbs_ok_lookup; [done|lia]).
  pose proof (eval_bound _ (limbs_ok_take tl n Htl)) as He1.
  pose proof (eval_bound _ (limbs_ok_take x n Hx)) as Hx1.
  pose proof (eval_bound _ Hd) as HD. rewrite Hl in HD.
  rewrite !length_take_le in He1, Hx1 by lia.
  assert (0 < eval d).
  { rewrite (eval_top2 d m) by done. unfold normalized in Hn.
    pose proof (Wn_pos m). pose proof (eval_bound _ (limbs_ok_take d m Hd)).
    pose proof (limbs_ok_lookup d m Hd ltac:(lia)). unfold is_u64 in *. nia. }
  assert (EU : eval (take (S n) x) = eval (take n x) + Wn n * (x !!! n))
    by (apply eval_take_S, lookup_total_Some; lia).
  rewrite !insert_app_r.
  rewrite !drop_app_length, !take_app_length.
  assert (Hwin : forall l t, length l = length tl -> take n l = take n tl -> is_u64 t ->
    eval (take (S n) (<[n := t]> l)) = eval (take n l) + Wn n * t).
  { intros l t Hll _ Ht. rewrite (eval_take_S n _ t) by (apply list_lookup_insert_eq; lia).
    by rewrite take_insert_ge by lia. }
  destruct (knuth_sub_cases (eval (take (S n) x)) (eval d) (Wn n) qhat
     (eval (take n x)) (eval (take n tl)) (x !!! n) b)
    as [(Hle & HR & Hrange)|(-> & Hq1' & HR & Hrange)]; try done; unfold is_u64 in *; try lia.
  - destruct (Z.ltb_spec (x !!! n) b); [lia|].
    exists qhat, (<[n := sub64 (x !!! n) b]> tl).
    rewrite sub64_nowrap by (unfold is_u64; lia).
    rewrite Hwin by (try done; unfold is_u64; lia).
    split_and!; try done; try lia.
    + apply Forall_insert; [done|unfold is_u64; lia].
    + by rewrite length_insert.
    + rewrite drop_insert_lt by lia.
      replace (S n) with (n + 1)%nat by lia. by rewrite <- !drop_drop, Hdr.
  - destruct (Z.ltb_spec (x !!! n) (x !!! n + 1)); [|lia].
    assert (Ht : sub64 (x !!! n) (x !!! n + 1) = W - 1).
    { unfold sub64, u64. by replace (x !!! n - (x !!! n + 1)) with (-1) by lia. }
    rewrite Ht. set (y := <[n := W - 1]> tl).
    assert (Hy : limbs_ok y) by (apply Forall_insert; [done|unfold is_u64; lia]).
    assert (Hly : length y = length x) by (unfold y; by rewrite length_insert).
    destruct (addTo_from_spec d y 0) as (z & c & E' & He' & Hdr' & Hc & Hz & Hlz);
      [done|done|lia|lia|].
    rewrite Hl in He', Hdr'. unfold addTo. rewrite E'. cbn beta iota.
    rewrite lookup_total_app_r by lia.
    replace (length a + n - length a)%nat with n by lia. rewrite insert_app_r.
    pose proof (eval_bound _ (limbs_ok_take z n Hz)) as He1z.
    rewrite length_take_le in He1z by lia.
    assert (Hty : take n y = take n tl) by (unfold y; by rewrite take_insert_ge by lia).
    rewrite Hty in He'.
    assert (c = 1) as -> by nia.
    assert (Hzn : z !!! n = W - 1).
    { rewrite <- (Nat.add_0_r n), <- lookup_total_drop, Hdr', lookup_total_drop, Nat.add_0_r.
      unfold y. by apply list_lookup_total_insert_eq; lia. }
    rewrite Hzn. change (add64 (W - 1) 1) with 0.
    exists (qhat - 1), (<[n := 0]> z). rewrite sub64_nowrap by (unfold is_u64; lia).
    rewrite (eval_take_S n _ 0) by (apply list_lookup_insert_eq; lia).
    rewrite take_insert_ge by lia.
    split_and!; try done; try lia.
    + apply Forall_insert; [done|unfold is_u64; lia].
    + by rewrite length_insert, Hlz.
    + rewrite drop_insert_lt by lia.
      replace (S n) with (n + 1)%nat by lia. rewrite <- !drop_drop, Hdr'.
      unfold y. rewrite drop_drop, drop_insert_lt, <- drop_drop, Hdr by lia. done.
Qed.

(** A window whose value fits in [n] limbs has a zero limb above them. *)
Lemma eval_take_fits (x : list Z) n :
  limbs_ok x -> (n < length x)%nat -> eval (take (S n) x) < Wn n ->
  eval (take n x) = eval (take (S n) x).
Proof.
  intros Hx Hn Hlt. rewrite (eval_take_S n x (x !!! n)) in * by (apply lookup_total_Some; lia).
  pose proof (limbs_ok_lookup x n Hx Hn) as [? ?].
  pose proof (eval_bound _ (limbs_ok_take x n Hx)). pose proof (Wn_pos n).
  assert (x !!! n = 0) as -> by nia. lia.
Qed.

Lemma udivremKnuth_loop_spec (d : list Z) m v :
  limbs_ok d -> length d = S (S m) -> normalized (d !!! S m) -> is_reciprocal (d !!! S m) v ->
  forall j quot u,
  limbs_ok u -> limbs_ok quot -> (j + S (S m) <= length u)%nat -> zero_below j quot ->
  eval (take (S (S m)) (drop j u)) < eval d ->
  exists quot' u', udivremKnuth_loop j quot u d (d !!! S m) (d !!! m) v = (quot', u') /\
    (eval quot' - eval quot) * eval d + eval (take (S (S m)) u') = eval (take (j + S (S m)) u) /\
    0 <= eval (take (S (S m)) u') < eval d /\
    limbs_ok u' /\ length u' = length u /\ limbs_ok quot' /\ length quot' = length quot.
Proof.
  intros Hd Hl Hn Hv. set (n := S (S m)) in *.
  pose proof (eval_bound _ Hd) as HD. rewrite Hl in HD.
  induction j as [|j IH]; intros quot u Hu Hq Hj Hz Htop.
  - exists quot, u. rewrite drop_0 in Htop.
    pose proof (eval_bound _ (limbs_ok_take u n Hu)).
    split_and!; try done; [|lia]. simpl. lia.
  - cbn [udivremKnuth_loop].
    set (a := take j u). set (x := drop j u).
    assert (Hla : length a = j) by (apply length_take_le; lia).
    assert (Hua : u = a ++ x) by (symmetry; apply take_drop).
    assert (Hx : limbs_ok x) by by apply Forall_drop.
    assert (Hlx : length x = (length u - j)%nat) by apply length_drop.
    assert (Hwin : eval (take (S n) x) = x !!! 0%nat + W * eval (take n (drop (S j) u))).
    { replace (S j) with (j + 1)%nat by lia. rewrite <- drop_drop. fold x.
      destruct x as [|x0 x']; [simpl in Hlx; lia|]. done. }
    pose proof (limbs_ok_lookup x 0 Hx ltac:(lia)) as [? ?].
    destruct (knuth_step_spec a x d m v) as (q & x' & E & Hq64 & Hx' & Hlx' & Hdr & He & Hrng);
      try done; [rewrite Hlx; unfold n in Hj; lia|unfold n in *; nia|]. fold n in He, Hrng, Hdr.
    rewrite Hla, <- Hua in E. rewrite E. cbn beta iota.
    assert (Hfit : eval (take n x') = eval (take (S n) x')) by (apply eval_take_fits; [done|lia|lia]).
    destruct (IH (<[j := q]> quot) (a ++ x')) as (quot' & u' & -> & Hr & ?&?&?&?&?).
    + apply Forall_app; split; [by apply limbs_ok_take|done].
    + by apply Forall_insert.
    + rewrite length_app. lia.
    + by apply zero_below_insert.
    + rewrite <- Hla, drop_app_length. lia.
    + exists quot', u'. rewrite length_insert in *. rewrite length_app in *.
      split_and!; try done; try lia.
      rewrite (eval_insert _ _ 0) in Hr by (apply Hz; lia).
      rewrite <- Hla in Hr at 2. rewrite take_app_add in Hr. rewrite eval_app in Hr.
      rewrite Hfit, He, Hla in Hr.
      replace (S j + n)%nat with (j + S n)%nat by lia.
      rewrite Hua, <- Hla, take_app_add, eval_app, Hla. lia.
Qed.
(** ** Normalization shifts *)
Lemma pow_split s : 0 <= s <= 64 -> 2 ^ s * 2 ^ (64 - s) = W /\ 0 < 2 ^ s /\ 0 < 2 ^ (64 - s).
Proof.
  intros Hs. rewrite <- Z.pow_add_r by lia. split_and!; try (apply Z.pow_pos_nonneg; lia).
  replace (s + (64 - s)) with 64 by lia. done.
Qed.

Lemma shl64_split x s : is_u64 x -> 0 <= s <= 64 ->
  shl64 x s = x mod 2 ^ (64 - s) * 2 ^ s /\ x * 2 ^ s = shl64 x s + W * (x / 2 ^ (64 - s)).
Proof.
  intros Hx Hs. destruct (pow_split s Hs) as (Hw & ? & ?).
  unfold shl64, u64. rewrite Z.shiftl_mul_pow2 by lia.
  pose proof (Z.div_mod x (2 ^ (64 - s)) ltac:(lia)) as Hdm.
  assert (E : (x * 2 ^ s) mod W = x mod 2 ^ (64 - s) * 2 ^ s).
  { rewrite <- Hw at 1. rewrite (Z.mul_comm (2 ^ s) (2 ^ (64 - s))).
    apply Z.mul_mod_distr_r; lia. }
  split; [done|]. rewrite E, <- Hw. rewrite Hdm at 1. lia.
Qed.

Lemma limb_shl x b s : is_u64 x -> is_u64 b -> 0 <= s <= 64 ->
  Z.lor (shl64 x s) (shr64 b (64 - s)) = x * 2 ^ s - W * (x / 2 ^ (64 - s)) + b / 2 ^ (64 - s)
  /\ is_u64 (Z.lor (shl64 x s) (shr64 b (64 - s))).
Proof.
  intros Hx Hb Hs. destruct (pow_split s Hs) as (Hw & ? & ?).
  destruct (shl64_split x s Hx Hs) as [E1 E2].
  unfold shr64. rewrite Z.shiftr_div_pow2 by lia.
  assert (0 <= b / 2 ^ (64 - s) < 2 ^ s).
  { unfold is_u64 in Hb. split; [apply Z.div_pos; lia|apply Z.div_lt_upper_bound; lia]. }
  pose proof (Z.mod_pos_bound x (2 ^ (64 - s)) ltac:(lia)).
  assert (Z.lor (shl64 x s) (b / 2 ^ (64 - s)) = shl64 x s + b / 2 ^ (64 - s)) as ->.
  { rewrite Z.lor_comm, E1, lor_shift_add by lia. lia. }
  split; [lia|]. unfold is_u64. rewrite E1, <- Hw. nia.
Qed.

Lemma limb_shr x y s : is_u64 x -> is_u64 y -> 0 <= s <= 64 ->
  Z.lor (shr64 x s) (shl64 y (64 - s)) = x / 2 ^ s + y mod 2 ^ s * 2 ^ (64 - s)
  /\ is_u64 (Z.lor (shr64 x s) (shl64 y (64 - s))).
Proof.
  intros Hx Hy Hs. destruct (pow_split s Hs) as (Hw & ? & ?).
  destruct (shl64_split y (64 - s) Hy ltac:(lia)) as [E1 _].
  replace (64 - (64 - s)) with s in E1 by lia.
  unfold shr64. rewrite Z.shiftr_div_pow2 by lia.
  assert (0 <= x / 2 ^ s < 2 ^ (64 - s)).
  { unfold is_u64 in Hx. split; [apply Z.div_pos; lia|apply Z.div_lt_upper_bound; lia]. }
  pose proof (Z.mod_pos_bound y (2 ^ s) ltac:(lia)).
  rewrite E1, lor_shift_add by lia. split; [done|]. unfold is_u64. nia.
Qed.

Lemma shl_limbs_spec s : 0 <= s < 64 -> forall l b,
  limbs_ok l -> is_u64 b ->
  eval (shl_limbs l s b) + Wn (length l) * (List.last l b / 2 ^ (64 - s))
    = eval l * 2 ^ s + b / 2 ^ (64 - s) /\
  limbs_ok (shl_limbs l s b) /\ length (shl_limbs l s b) = length l.
Proof.
  intros Hs. induction l as [|x l IH]; intros b Hl Hb.
  - cbn [shl_limbs eval length List.last]. rewrite Z.pow_0_r. split_and!; try done; lia.
  - apply list.Forall_cons in Hl as [Hx Hl]. destruct (IH x Hl Hx) as (E & ? & Hlen).
    destruct (limb_shl x b s) as [Ex ?]; [done|done|lia|].
    cbn [shl_limbs eval length]. split_and!; [rewrite Ex, Wn_S|by constructor|by rewrite Hlen].
    assert (List.last (x :: l) b = List.last l x) as ->.
    { clear. revert x b. induction l as [|y l IH]; intros; [done|].
      change (List.last (x :: y :: l) b) with (List.last (y :: l) b).
      by rewrite !IH. }
    set (P := Wn (length l)) in *. lia.
Qed.

Lemma shr_limbs_spec s : 0 <= s <= 64 -> forall l, limbs_ok l ->
  eval (shr_limbs l s) = eval l / 2 ^ s /\ limbs_ok (shr_limbs l s) /\
  length (shr_limbs l s) = length l.
Proof.
  intros Hs. destruct (pow_split s Hs) as (Hw & ? & ?).
  induction l as [|x l IH]; intros Hl; [done|].
  apply list.Forall_cons in Hl as [Hx Hl]. destruct l as [|y l].
  - cbn [shr_limbs eval]. rewrite !Z.mul_0_r, !Z.add_0_r. unfold shr64 at 1.
    rewrite Z.shiftr_div_pow2 by lia. split_and!; try done.
    constructor; [|done]. apply shr64_range; [done|lia].
  - destruct (IH Hl) as (E & ? & Hlen). apply list.Forall_cons in Hl as [Hy Hl].
    change (shr_limbs (x :: y :: l) s)
      with (Z.lor (shr64 x s) (shl64 y (64 - s)) :: shr_limbs (y :: l) s).
    destruct (limb_shr x y s) as [Ex ?]; [done..|].
    split_and!; [|by constructor|cbn [length] in *; lia].
    change (eval (x :: y :: l)) with (x + W * eval (y :: l)).
    cbn [eval] in *. rewrite Ex, E. set (q := y + W * eval l) in *.
    assert (y mod 2 ^ s = q mod 2 ^ s) as ->.
    { unfold q. rewrite <- Hw. rewrite <- Z.mul_assoc, (Z.mul_comm (2 ^ s)), Z.mod_add by lia. done. }
    pose proof (Z.div_mod q (2 ^ s) ltac:(lia)) as Hq.
    replace (x + W * q) with (x + 2 ^ (64 - s) * q * 2 ^ s) by (rewrite <- Hw; lia).
    rewrite Z.div_add by lia. rewrite Hq at 3. rewrite <- Hw. lia.
Qed.

(** ** Significant limbs *)
Lemma sig_len_spec l : limbs_ok l ->
  (sig_len l <= length l)%nat /\ eval (take (sig_len l) l) = eval l /\
  match sig_len l with
  | O => eval l = 0
  | S n => l !!! n <> 0 /\ Wn n <= eval l
  end.
Proof.
  induction 1 as [|x l Hx Hl IH]; [done|]. cbn [sig_len]. destruct IH as (Hle & He & Hm).
  pose proof (eval_bound _ Hl). destruct (sig_len l) as [|n] eqn:E.
  - destruct (Z.eqb_spec x 0) as [->|Hn]; cbn [take eval length] in *; rewrite ?take_0.
    + rewrite Hm. split_and!; try done; lia.
    + rewrite Z.pow_0_r. unfold is_u64 in Hx. cbn [eval]. rewrite Hm.
      split_and!; try lia. exact Hn.
  - destruct Hm as [Hn Hw]. change (take (S (S n)) (x :: l)) with (x :: take (S n) l).
    cbn [eval length]. rewrite He. split_and!; [lia|done|exact Hn|]. rewrite Wn_S. unfold is_u64 in Hx. lia.
Qed.
Lemma last_total (l : list Z) k b : length l = S k -> List.last l b = l !!! k.
Proof.
  revert k. induction l as [|x [|y l] IH]; intros k Hk; simplify_eq/=; [done|].
  apply (IH (length l)). done.
Qed.

Lemma eval_top_bounds (l : list Z) k :
  limbs_ok l -> length l = S k -> (l !!! k) * Wn k <= eval l < (l !!! k + 1) * Wn k.
Proof.
  intros Hl Hk. rewrite (eval_top l k) by done.
  pose proof (eval_bound _ (limbs_ok_take l k Hl)) as H. rewrite length_take_le in H by lia. lia.
Qed.

Lemma LeadingZeros64_spec x : is_u64 x -> x <> 0 ->
  0 <= LeadingZeros64 x < 64 /\ 0x8000000000000000 <= x * 2 ^ LeadingZeros64 x < W.
Proof.
  intros Hx Hn. unfold LeadingZeros64. destruct (Len64_spec x Hx) as (Hl & Hu & Hlo).
  specialize (Hlo Hn). assert (Len64 x <> 0) by (intros E; rewrite E in Hu; unfold is_u64 in *; lia).
  split; [lia|].
  assert (2 ^ (Len64 x - 1) * 2 ^ (64 - Len64 x) = 0x8000000000000000).
  { rewrite <- Z.pow_add_r by lia. replace (_ + _) with 63 by lia. done. }
  destruct (pow_split (Len64 x)) as (Hw & ? & ?); [lia|]. nia.
Qed.

(** The shifted divisor has the value [d * 2^s] and its top bit set. *)
Lemma norm_divisor (d : list Z) k :
  limbs_ok d -> length d = S k -> d !!! k <> 0 ->
  let s := LeadingZeros64 (d !!! k) in
  let dn := shl_limbs d s 0 in
  0 <= s < 64 /\ eval dn = eval d * 2 ^ s /\ limbs_ok dn /\ length dn = S k /\ normalized (dn !!! k).
Proof.
  intros Hd Hk Hn s dn. assert (Hx : is_u64 (d !!! k)) by (apply limbs_ok_lookup; [done|lia]).
  destruct (LeadingZeros64_spec _ Hx Hn) as [Hs Hr]. fold s in Hs, Hr.
  destruct (shl_limbs_spec s Hs d 0 Hd) as (E & Hok & Hlen); [unfold is_u64; lia|].
  destruct (pow_split s) as (Hw & ? & ?); [lia|].
  fold dn in E, Hok, Hlen. rewrite (last_total d k) in E by done.
  rewrite (Z.div_small (d !!! k)), Z.div_0_l in E by (unfold is_u64 in Hx; nia).
  assert (eval dn = eval d * 2 ^ s) as He by lia.
  split_and!; try done; try lia. unfold normalized.
  pose proof (eval_top_bounds d k Hd Hk). pose proof (eval_top_bounds dn k Hok ltac:(lia)).
  pose proof (limbs_ok_lookup dn k Hok ltac:(lia)) as [? ?]. pose proof (Wn_pos k).
  split; [|done]. set (P := Wn k) in *. clearbody P dn s. clear E Hw Hk Hlen Hok Hs. nia.
Qed.

Lemma norm_dividend (u : list Z) k s :
  limbs_ok u -> length u = S k -> 0 <= s < 64 ->
  let un := shl_limbs u s 0 ++ [shr64 (u !!! k) (64 - s)] in
  eval un = eval u * 2 ^ s /\ limbs_ok un /\ length un = S (S k) /\ 0 <= un !!! S k < 0x8000000000000000.
Proof.
  intros Hu Hk Hs un. assert (Hx : is_u64 (u !!! k)) by (apply limbs_ok_lookup; [done|lia]).
  destruct (shl_limbs_spec s Hs u 0 Hu) as (E & Hok & Hlen); [unfold is_u64; lia|].
  destruct (pow_split s) as (Hw & ? & ?); [lia|].
  rewrite (last_total u k), Z.div_0_l in E by (done || lia).
  assert (Ht : shr64 (u !!! k) (64 - s) = u !!! k / 2 ^ (64 - s)) by (apply Z.shiftr_div_pow2; lia).
  unfold un. rewrite eval_app, length_app, Hlen, Hk. cbn [eval length].
  assert (2 ^ s <= 2 ^ 63) by (apply Z.pow_le_mono_r; lia).
  change (2 ^ 63) with 0x8000000000000000 in *.
  assert (0 <= u !!! k / 2 ^ (64 - s) < 2 ^ s).
  { unfold is_u64 in Hx. split; [apply Z.div_pos; lia|apply Z.div_lt_upper_bound; lia]. }
  split_and!; try lia.
  - rewrite Ht, Z.mul_0_r, Z.add_0_r, <- Hk. lia.
  - apply Forall_app; split; [done|]. constructor; [|done]. rewrite Ht. unfold is_u64. lia.
  - rewrite lookup_total_app_r, Hlen, Hk, Nat.sub_diag by lia. simpl. rewrite Ht. lia.
  - rewrite lookup_total_app_r, Hlen, Hk, Nat.sub_diag by lia. simpl. rewrite Ht. lia.
Qed.

(** [udivremKnuth] and [udivremBy1] on normalized operands. *)
Lemma udivremBy1_spec quot u d k :
  limbs_ok u -> length u = S k -> limbs_ok quot -> zero_below k quot -> eval quot = 0 ->
  normalized d -> 0 <= u !!! k < 0x8000000000000000 ->
  exists quot' r, udivremBy1 quot u d = Ret (quot', r) /\
    eval quot' * d + r = eval u /\ 0 <= r < d /\ limbs_ok quot' /\ length quot' = length quot.
Proof.
  intros Hu Hk Hq Hz H0 Hd Htop. unfold udivremBy1.
  destruct (reciprocal2by1_spec d Hd) as (v & -> & Hv). simpl mbind. rewrite Hk.
  replace (S k - 1)%nat with k by lia.
  destruct (udivremBy1_loop_spec d v Hd Hv k quot u (u !!! k)) as (q & r & -> & E & ?&?&?);
    try done; [lia|unfold normalized in Hd; lia|].
  exists q, r. rewrite (eval_top u k) by done. split_and!; try done; lia.
Qed.

Lemma udivremKnuth_spec quot u d m k :
  limbs_ok u -> length u = S k -> limbs_ok quot -> eval quot = 0 ->
  limbs_ok d -> length d = S (S m) -> normalized (d !!! S m) ->
  (S (S m) <= S k)%nat -> zero_below (S k - S (S m)) quot -> 0 <= u !!! k < 0x8000000000000000 ->
  exists quot' u', udivremKnuth quot u d = Ret (quot', u') /\
    eval quot' * eval d + eval (take (S (S m)) u') = eval u /\
    0 <= eval (take (S (S m)) u') < eval d /\
    limbs_ok u' /\ length u' = S k /\ limbs_ok quot' /\ length quot' = length quot.
Proof.
  intros Hu Hk Hq H0 Hd Hl Hn Hle Hz Htop. unfold udivremKnuth.
  rewrite Hl, Hk. replace (S (S m) - 1)%nat with (S m) by lia. replace (S (S m) - 2)%nat with m by lia.
  set (j := (S k - S (S m))%nat) in *.
  destruct (reciprocal2by1_spec _ Hn) as (v & -> & Hv). simpl mbind.
  destruct (udivremKnuth_loop_spec d m v Hd Hl Hn Hv j quot u) as (q & u' & -> & E & ?&?&Hlu&?&?);
    try done; [lia| |].
  { rewrite take_ge by (rewrite length_drop; lia).
    assert (Hld : length (drop j u) = S (S m)) by (rewrite length_drop; lia).
    pose proof (eval_top_bounds (drop j u) (S m) ltac:(by apply Forall_drop) Hld) as Hb.
    pose proof (eval_top_bounds d (S m) Hd Hl) as Hb'. pose proof (Wn_pos (S m)).
    rewrite lookup_total_drop in Hb. replace (j + S m)%nat with k in Hb by lia.
    unfold normalized in Hn. set (P := Wn (S m)) in *. clearbody P. nia. }
  exists q, u'. rewrite (take_ge u) in E by lia. rewrite Hlu. split_and!; try done; lia.
Qed.
(** ** Division of limb slices by an [Int] *)
Lemma limbs_ok_limbs z : int_ok z <-> limbs_ok (limbs z).
Proof.
  unfold limbs, int_ok. rewrite !list.Forall_cons. split; [|by intros (?&?&?&?&?)].
  intros (?&?&?&?). split_and!; done.
Qed.

Lemma eval_limbs z : eval (limbs z) = val z.
Proof. unfold limbs, val. cbn [eval]. lia. Qed.

Lemma of_limbs_spec l : limbs_ok l -> (length l <= 4)%nat ->
  val (of_limbs l) = eval l /\ int_ok (of_limbs l).
Proof.
  intros Hl Hle. assert (is_u64 0) by (unfold is_u64; lia).
  destruct l as [|a [|b [|c [|d [|? ?]]]]]; simpl in Hle; try lia;
    repeat (apply list.Forall_cons in Hl as [? Hl]);
    (split; [unfold val; cbn; lia|by split; [|split; [|split]]]).
Qed.

Lemma udivrem_spec n u d :
  limbs_ok u -> (length u <= 8)%nat -> (length u <= n)%nat -> int_ok d ->
  val d <> 0 -> val d <= eval u ->
  exists quot rem, udivrem (replicate n 0) u d = Ret (quot, rem) /\
    eval quot * val d + val rem = eval u /\ 0 <= val rem < val d /\ int_ok rem /\
    limbs_ok quot /\ length quot = n.
Proof.
  intros Hu Hu8 Hn Hd Hd0 Hle. pose proof (val_range d Hd) as Hdr.
  apply limbs_ok_limbs in Hd. unfold udivrem.
  destruct (sig_len_spec _ Hd) as (HdL & Hde & HdS). destruct (sig_len_spec _ Hu) as (HuL & Hue & HuS).
  rewrite eval_limbs in Hde, HdS.
  destruct (sig_len (limbs d)) as [|dk]; [lia|]. destruct (sig_len u) as [|uk] eqn:EuL; [lia|].
  destruct HdS as [Hdk HdW]. destruct HuS as [Huk HuW].
  assert (Hlen : (dk <= uk)%nat).
  { assert (~ (uk < dk)%nat); [|lia]. intros Hlt.
    pose proof (eval_bound _ (limbs_ok_take u (S uk) Hu)) as Hb. rewrite length_take_le in Hb by lia.
    assert (Wn (S uk) <= Wn dk) by (apply Z.pow_le_mono_r; lia). lia. }
  change (length (limbs d)) with 4%nat in HdL.
  rewrite length_replicate.
  replace (_ || _ || _ || _ || _) with false by
    (symmetry; rewrite !orb_false_iff, !Nat.eqb_neq, !Nat.ltb_ge; lia).
  replace (S dk - 1)%nat with dk by lia. replace (S uk - 1)%nat with uk by lia.
  set (D := take (S dk) (limbs d)) in *. set (U := take (S uk) u) in *.
  assert (HlD : length D = S dk) by (apply length_take_le; simpl; lia).
  assert (HlU : length U = S uk) by (apply length_take_le; lia).
  assert (limbs d !!! dk = D !!! dk) as HD by (symmetry; apply lookup_total_take_lt; lia).
  assert (u !!! uk = U !!! uk) as -> by (symmetry; apply lookup_total_take_lt; lia).
  rewrite HD. rewrite HD in Hdk.
  destruct (norm_divisor D dk) as (Hs & HdE & HdO & HdLn & HdN); [by apply limbs_ok_take|done|done|].
  set (s := LeadingZeros64 (D !!! dk)) in *. set (dn := shl_limbs D s 0) in *.
  destruct (norm_dividend U uk s) as (HuE & HuO & HuLn & HuT); [by apply limbs_ok_take|done|done|].
  set (un := shl_limbs U s 0 ++ _) in *. rewrite Hde in HdE. rewrite Hue in HuE.
  destruct (pow_split s) as (_ & Hp & _); [lia|].
  assert (Hq : limbs_ok (replicate n 0)) by (apply Forall_replicate; unfold is_u64; lia).
  assert (0 <= s <= 64) as Hs' by lia. clearbody s dn un.
  destruct dk as [|m]; cbn [Nat.eqb].
  - assert (Hdn : eval dn = dn !!! 0%nat).
    { rewrite (eval_top dn 0) by done. rewrite take_0, Z.pow_0_r. cbn [eval]. lia. }
    destruct (udivremBy1_spec (replicate n 0) un (dn !!! 0%nat) (S uk)) as (q & r & -> & E & ?&?&Hlq);
      try done; [by apply zero_below_replicate; lia|apply eval_replicate0|].
    simpl mbind. eexists _, _. split; [done|]. rewrite <- Hdn, HdE, HuE in *.
    assert (Hr : r = (eval u - eval q * val d) * 2 ^ s) by lia.
    assert (shr64 r s = eval u - eval q * val d) as ->.
    { unfold shr64. rewrite Z.shiftr_div_pow2 by lia. rewrite Hr. apply Z.div_mul. lia. }
    set (rr := eval u - eval q * val d) in *. assert (0 <= rr < val d) by nia.
    assert (rr < W).
    { pose proof (limbs_ok_lookup D 0 ltac:(by apply limbs_ok_take) ltac:(lia)) as [? ?].
      rewrite (eval_top D 0) in Hde by done. rewrite take_0, Z.pow_0_r in Hde. cbn [eval] in Hde. lia. }
    unfold val at 2 3 4, SetUint64, int_ok, is_u64. cbn [w0 w1 w2 w3].
    rewrite length_replicate in Hlq. split_and!; try done; lia.
  - destruct (udivremKnuth_spec (replicate n 0) un dn m (S uk)) as (q & u' & -> & E & Hr &?&Hlu&?&Hlq);
      try done; [apply eval_replicate0|lia|apply zero_below_replicate; lia|].
    simpl mbind. eexists _, _. split; [done|]. rewrite HdE, HuE in *.
    destruct (shr_limbs_spec s Hs' (take (S (S m)) u')) as (HE & HO & HL); [by apply limbs_ok_take|].
    destruct (of_limbs_spec _ HO) as [Hv Hok]; [rewrite HL, length_take; lia|].
    change (take (S (S m)) u') with (firstn (S (S m)) u') in *. rewrite Hv, HE.
    assert (Hr' : eval (firstn (S (S m)) u') = (eval u - eval q * val d) * 2 ^ s) by lia.
    rewrite Hr', Z.div_mul by lia. rewrite Hr' in Hr. rewrite length_replicate in Hlq.
    split_and!; try done; nia.
Qed.
(** ** The EVM's division operations *)
Definition evm_div (a b : Z) : Z := if b =? 0 then 0 else a / b.
Definition evm_mod (a b : Z) : Z := if b =? 0 then 0 else a mod b.
Definition evm_sdiv (a b : Z) : Z := if b =? 0 then 0 else Z.quot a b.
Definition evm_smod (a b : Z) : Z := if b =? 0 then 0 else Z.rem a b.

Lemma of_Z_small_val z : 0 <= z < W256 -> val (of_Z z) = z.
Proof. intros. rewrite val_of_Z. by apply Z.mod_small. Qed.

Lemma val_small_w0 z : int_ok z -> val z < W -> Uint64 z = val z.
Proof. intros Hz Hlt. pose proof (val_range z Hz). rewrite Uint64_spec by done. apply Z.mod_small. lia. Qed.

Lemma eq_of_Z_range x v : int_ok x -> val x = v -> x = of_Z v.
Proof. intros Hx <-. symmetry. by apply of_Z_val. Qed.

Lemma Div_ok x y : int_ok x -> int_ok y -> Div x y = Ret (of_Z (evm_div (val x) (val y))).
Proof.
  intros Hx Hy. pose proof (val_range x Hx). pose proof (val_range y Hy). unfold Div, evm_div.
  rewrite IsZero_spec, Gt_spec, Eq_spec, IsUint64_spec by done.
  destruct (Z.eqb_spec (val y) 0) as [E|E]; [done|]. cbn [orb].
  destruct (Z.ltb_spec (val x) (val y)); [by rewrite Z.div_small by lia|].
  destruct (Z.eqb_spec (val x) (val y)) as [->|]; [by rewrite Z.div_same by lia|].
  destruct (Z.ltb_spec (val x) W).
  - rewrite !val_small_w0 by (done || lia). f_equal. apply SetUint64_of_Z. unfold is_u64.
    split; [apply Z.div_pos; lia|]. apply Z.div_lt_upper_bound; nia.
  - destruct (udivrem_spec 4 (limbs x) y) as (q & r & -> & Hqr & ?&?&Hq&Hl); try done.
    { by apply limbs_ok_limbs. } { simpl; lia. } { by rewrite eval_limbs; lia. }
    simpl mbind. f_equal. destruct (of_limbs_spec q Hq) as [Hv Ho]; [lia|].
    apply eq_of_Z_range; [done|]. rewrite Hv, eval_limbs in *.
    symmetry. apply div_unique_range with (val r); lia.
Qed.

Lemma Mod_ok x y : int_ok x -> int_ok y -> Mod x y = Ret (of_Z (evm_mod (val x) (val y))).
Proof.
  intros Hx Hy. pose proof (val_range x Hx). pose proof (val_range y Hy). unfold Mod, evm_mod.
  rewrite !IsZero_spec, Cmp_spec, IsUint64_spec by done.
  destruct (Z.eqb_spec (val y) 0) as [E|E]; [by rewrite orb_true_r|]. rewrite orb_false_r.
  destruct (Z.eqb_spec (val x) 0) as [->|]; [by rewrite Z.mod_0_l by lia|].
  destruct (Z.compare_spec (val x) (val y)) as [->| |]; cbn -[Z.modulo val of_Z Z.ltb replicate limbs udivrem].
  - by rewrite Z.mod_same by lia.
  - rewrite Z.mod_small by lia. by rewrite of_Z_val.
  - destruct (Z.ltb_spec (val x) W).
    + rewrite !val_small_w0 by (done || lia). f_equal. apply SetUint64_of_Z. unfold is_u64.
      pose proof (Z.mod_pos_bound (val x) (val y)). lia.
    + destruct (udivrem_spec 4 (limbs x) y) as (q & r & -> & Hqr & ?&?&Hq&Hl); try done.
      { by apply limbs_ok_limbs. } { simpl; lia. } { by rewrite eval_limbs; lia. }
      simpl mbind. f_equal. apply eq_of_Z_range; [done|]. rewrite eval_limbs in *.
      symmetry. apply mod_unique_range with (eval q); lia.
Qed.

Lemma udivrem_rem n u m :
  limbs_ok u -> (length u <= 8)%nat -> (length u <= n)%nat -> int_ok m ->
  val m <> 0 -> val m <= eval u ->
  exists q, udivrem (replicate n 0) u m = Ret (q, of_Z (eval u mod val m)).
Proof.
  intros. destruct (udivrem_spec n u m) as (q & r & -> & Hqr & ?&?&?&?); try done.
  exists q. repeat f_equal. apply eq_of_Z_range; [done|].
  symmetry. apply mod_unique_range with (eval q); lia.
Qed.

Lemma Wn4 : Wn 4 = W256.
Proof. reflexivity. Qed.

Lemma AddMod_ok x y m : int_ok x -> int_ok y -> int_ok m ->
  AddMod x y m = Ret (of_Z (evm_mod (val x + val y) (val m))).
Proof.
  intros Hx Hy Hm. pose proof (val_range x Hx). pose proof (val_range y Hy).
  pose proof (val_range m Hm). unfold AddMod.
  rewrite IsZero_spec, AddOverflow_spec by done.
  destruct (Z.eqb_spec (val m) 0) as [E|E]; [by unfold evm_mod; rewrite E|].
  set (z := of_Z (val x + val y)). assert (Hz : int_ok z) by apply of_Z_ok.
  destruct (Z.leb_spec W256 (val x + val y)) as [Ho|Ho].
  - assert (Hv : val z = val x + val y - W256)
      by (unfold z; rewrite val_of_Z; apply mod_unique_range with 1; lia).
    assert (He : eval (limbs z ++ [1]) = val x + val y).
    { rewrite eval_app, eval_limbs, Hv. change (length (limbs z)) with 4%nat. rewrite Wn4.
      cbn [eval]. lia. }
    destruct (udivrem_rem 5 (limbs z ++ [1]) m) as [q ->]; try done.
    + apply Forall_app; split; [by apply limbs_ok_limbs|]. constructor; [unfold is_u64; lia|done].
    + simpl; lia.
    + rewrite He; lia.
    + rewrite He. unfold evm_mod. destruct (Z.eqb_spec (val m) 0); done.
  - rewrite Mod_ok by done. unfold z. by rewrite of_Z_small_val by lia.
Qed.

Lemma MulMod_ok x y m : int_ok x -> int_ok y -> int_ok m ->
  MulMod x y m = Ret (of_Z (evm_mod (val x * val y) (val m))).
Proof.
  intros Hx Hy Hm. pose proof (val_range m Hm).
  destruct (umul_spec x y Hx Hy) as (He & Hok & Hlen). unfold MulMod, evm_mod.
  rewrite !IsZero_spec by done. set (p := umul x y) in *. clearbody p.
  destruct (Z.eqb_spec (val m) 0) as [E|E]; [by rewrite orb_true_r|]. rewrite orb_false_r.
  destruct (Z.eqb_spec (val x) 0) as [->|]; [by rewrite Z.mul_0_l, Z.mod_0_l by lia|].
  destruct (Z.eqb_spec (val y) 0) as [->|]; [by rewrite Z.mul_0_r, Z.mod_0_l by lia|]. cbn [orb].
  destruct (of_limbs_spec (take 4 p)) as [Hlo Hlok]; [by apply Forall_take|rewrite length_take; lia|].
  destruct (of_limbs_spec (drop 4 p)) as [Hhi Hhok]; [by apply Forall_drop|rewrite length_drop; lia|].
  rewrite IsZero_spec, Hhi by done.
  pose proof (eval_take_drop 4 p) as Hsplit. rewrite length_take_le, Wn4 in Hsplit by lia.
  pose proof (eval_bound _ (limbs_ok_take p 4 Hok)).
  pose proof (eval_bound (drop 4 p) ltac:(by apply Forall_drop)).
  destruct (Z.eqb_spec (eval (drop 4 p)) 0) as [E0|E0].
  - rewrite Mod_ok, Hlo by done. unfold evm_mod. destruct (Z.eqb_spec (val m) 0); [done|].
    do 3 f_equal. lia.
  - destruct (udivrem_rem 8 p m) as [q ->]; try done; [lia|lia| |].
    + unfold W256 in *. nia.
    + by rewrite He.
Qed.

Lemma sval_cases z : int_ok z ->
  (0 <= sval z /\ val z = sval z) \/ (sval z < 0 /\ val (Neg z) = - sval z /\ int_ok (Neg z)).
Proof.
  intros Hz. pose proof (val_range z Hz). unfold sval. destruct (Z.ltb_spec (val z) (2 ^ 255)); [by left; lia|right].
  rewrite Neg_spec by done. split_and!; [unfold W256 in *; lia| |apply of_Z_ok].
  rewrite val_of_Z. apply mod_unique_range with (-1); unfold W256 in *; lia.
Qed.

Lemma Neg_of_Z z : Neg (of_Z z) = of_Z (- z).
Proof.
  rewrite Neg_spec by apply of_Z_ok. rewrite val_of_Z. apply eq_of_Z; [apply of_Z_ok|].
  rewrite val_of_Z, <- (Z.sub_0_l (z mod _)), Zminus_mod_idemp_r. done.
Qed.

Lemma SDiv_ok n d : int_ok n -> int_ok d -> SDiv n d = Ret (of_Z (evm_sdiv (sval n) (sval d))).
Proof.
  intros Hn Hd. unfold SDiv. rewrite !Sign_spec by done.
  destruct (sval_cases n Hn) as [[? En]|(? & En & ?)], (sval_cases d Hd) as [[? Ed]|(? & Ed & ?)].
  all: destruct (Z.ltb_spec 0 (Z.sgn (sval n))); try lia.
  all: destruct (Z.ltb_spec 0 (Z.sgn (sval d))); try lia.
  all: destruct (Z.ltb_spec (Z.sgn (sval d)) 0); try lia.
  all: try (assert (sval n = 0) as E0 by lia).
  all: try (assert (sval d = 0) as E0' by lia).
  all: try (assert (Hnn : val (Neg n) = - sval n) by
    first [done | rewrite Neg_spec, En, E0 by done; reflexivity]).
  all: try (assert (Hdd : val (Neg d) = - sval d) by
    first [done | rewrite Neg_spec, Ed, E0' by done; reflexivity]).
  all: assert (int_ok (Neg n)) by (rewrite Neg_spec by done; apply of_Z_ok).
  all: assert (int_ok (Neg d)) by (rewrite Neg_spec by done; apply of_Z_ok).
  all: rewrite Div_ok by done; cbn [mbind outcome_bind]; rewrite ?Neg_of_Z.
  all: unfold evm_div, evm_sdiv; f_equal; f_equal.
  all: rewrite ?Hnn, ?Hdd, ?En, ?Ed.
  all: repeat match goal with |- context [Z.eqb ?a ?b] => destruct (Z.eqb_spec a b) end; try lia.
  all: rewrite <- Z.quot_div_nonneg by lia.
  all: rewrite ?Z.quot_opp_opp, ?Z.quot_opp_l, ?Z.quot_opp_r by lia.
  all: rewrite ?E0, ?Z.quot_0_l by lia; lia.
Qed.

Lemma SMod_ok x y : int_ok x -> int_ok y -> SMod x y = Ret (of_Z (evm_smod (sval x) (sval y))).
Proof.
  intros Hx Hy. unfold SMod. rewrite !Sign_spec by done.
  set (x' := if Z.sgn (sval x) =? -1 then Neg x else x).
  set (y' := if Z.sgn (sval y) =? -1 then Neg y else y).
  assert (val x' = Z.abs (sval x) /\ int_ok x') as [Ex ?].
  { unfold x'. destruct (sval_cases x Hx) as [[? En]|(? & En & ?)], (Z.eqb_spec (Z.sgn (sval x)) (-1));
      split; first [done|lia]. }
  assert (val y' = Z.abs (sval y) /\ int_ok y') as [Ey ?].
  { unfold y'. destruct (sval_cases y Hy) as [[? En]|(? & En & ?)], (Z.eqb_spec (Z.sgn (sval y)) (-1));
      split; first [done|lia]. }
  rewrite Mod_ok by done. cbn [mbind outcome_bind]. rewrite Ex, Ey, Neg_of_Z.
  unfold evm_mod, evm_smod. destruct (Z.eqb_spec (sval y) 0) as [->|]; [by destruct (_ =? _)|].
  destruct (Z.eqb_spec (Z.abs (sval y)) 0); [lia|]. f_equal.
  rewrite (Z.rem_mod (sval x)) by done.
  destruct (Z.eqb_spec (Z.sgn (sval x)) (-1)); f_equal; [lia|].
  destruct (Z.eq_dec (sval x) 0) as [->|]; [by rewrite Z.mod_0_l by lia|].
  replace (Z.sgn (sval x)) with 1 by lia. lia.
Qed.
