(* ===== verification/Uint256Bits.v ===== *)
(** * The 256-bit integer library: bits and bytes

    The limb-wise bitwise operations, the shifts with their fall-through
    labels, [Byte], [ExtendSign] and the conversions from and to big-endian
    bytes compute what their names say on the value of an [Int]. *)

From S2P Require Import Prelude Words Uint256 Uint256Arith Uint256Div.

(** ** Bits of a limb list *)
Lemma testbit_cons a b i : is_u64 a -> 0 <= i ->
  Z.testbit (a + W * b) i = if i <? 64 then Z.testbit a i else Z.testbit b (i - 64).
Proof.
  intros Ha Hi. replace (a + W * b) with (Z.lor a (Z.shiftl b 64)).
  - rewrite Z.lor_spec. destruct (Z.ltb_spec i 64).
    + rewrite (Z.shiftl_spec_low b) by lia. by rewrite orb_false_r.
    + rewrite Z.shiftl_spec by lia. rewrite (Z.bits_above_log2 a); [done|unfold is_u64 in Ha; lia|].
      destruct (Z.eq_dec a 0) as [->|]; [simpl; lia|].
      apply Z.lt_le_trans with 64; [|done]. apply Z.log2_lt_pow2; unfold is_u64 in Ha; simpl; lia.
  - rewrite Z.shiftl_mul_pow2 by lia. rewrite lor_shift_add; [change (2 ^ 64) with W; lia|lia|].
    exact Ha.
Qed.

Lemma land_u64 a b : is_u64 a -> is_u64 b -> is_u64 (Z.land a b).
Proof.
  unfold is_u64. intros Ha Hb. assert (0 <= Z.land a b) by (apply Z.land_nonneg; lia). split; [done|].
  change W with (2 ^ 64). destruct (Z.eq_dec (Z.land a b) 0) as [->|]; [lia|].
  apply Z.log2_lt_pow2; [lia|]. pose proof (Z.log2_land a b ltac:(lia) ltac:(lia)).
  assert (a <> 0) by (intros ->; rewrite Z.land_0_l in *; lia).
  assert (Z.log2 a < 64) by (apply Z.log2_lt_pow2; simpl; lia). lia.
Qed.

Lemma log2_u64 a : is_u64 a -> Z.log2 a < 64.
Proof.
  unfold is_u64. intros Ha. destruct (Z.eq_dec a 0) as [->|]; [simpl; lia|].
  apply Z.log2_lt_pow2; simpl; lia.
Qed.

Lemma u64_log2 a : 0 <= a -> Z.log2 a < 64 -> is_u64 a.
Proof.
  intros Ha Hl. unfold is_u64. split; [done|]. destruct (Z.eq_dec a 0) as [->|]; [lia|].
  change W with (2 ^ 64). apply Z.log2_lt_pow2; lia.
Qed.

Lemma lor_u64 a b : is_u64 a -> is_u64 b -> is_u64 (Z.lor a b).
Proof.
  intros Ha Hb. pose proof (log2_u64 a Ha). pose proof (log2_u64 b Hb). destruct Ha, Hb.
  apply u64_log2; [by apply Z.lor_nonneg|]. rewrite Z.log2_lor by done. lia.
Qed.

Lemma lxor_u64 a b : is_u64 a -> is_u64 b -> is_u64 (Z.lxor a b).
Proof.
  intros Ha Hb. pose proof (log2_u64 a Ha). pose proof (log2_u64 b Hb). destruct Ha, Hb.
  apply u64_log2; [by apply Z.lxor_nonneg|]. pose proof (Z.log2_lxor a b ltac:(done) ltac:(done)). lia.
Qed.

Lemma not64_ldiff a : is_u64 a -> not64 a = Z.ldiff (Z.ones 64) a.
Proof.
  intros Ha. unfold not64. change (W - 1) with (Z.ones 64). apply Z.sub_nocarry_ldiff.
  rewrite Z.ldiff_ones_r_low; [done|unfold is_u64 in Ha; lia|by apply log2_u64].
Qed.

Section Bitwise.
Context (f : Z -> Z -> Z) (g : bool -> bool -> bool).
Hypothesis f_spec : forall a b i, 0 <= i -> Z.testbit (f a b) i = g (Z.testbit a i) (Z.testbit b i).
Hypothesis f_u64 : forall a b, is_u64 a -> is_u64 b -> is_u64 (f a b).

Lemma bitwise_cons a b c d : is_u64 a -> is_u64 c ->
  f (a + W * b) (c + W * d) = f a c + W * f b d.
Proof.
  intros Ha Hc. apply Z.bits_inj'. intros i Hi.
  rewrite f_spec, !testbit_cons by auto. destruct (Z.ltb_spec i 64); rewrite f_spec by lia; done.
Qed.

Lemma bitwise_spec x y : int_ok x -> int_ok y ->
  let z := mkInt (f (w0 x) (w0 y)) (f (w1 x) (w1 y)) (f (w2 x) (w2 y)) (f (w3 x) (w3 y)) in
  int_ok z /\ val z = f (val x) (val y).
Proof.
  intros (?&?&?&?) (?&?&?&?) z. split; [by split_and!; apply f_u64|].
  unfold val, z. cbn [w0 w1 w2 w3]. rewrite !bitwise_cons by done. done.
Qed.
End Bitwise.

Lemma And_spec x y : int_ok x -> int_ok y -> int_ok (And x y) /\ val (And x y) = Z.land (val x) (val y).
Proof. apply (bitwise_spec Z.land andb); [intros; apply Z.land_spec|apply land_u64]. Qed.
Lemma Or_spec x y : int_ok x -> int_ok y -> int_ok (Or x y) /\ val (Or x y) = Z.lor (val x) (val y).
Proof. apply (bitwise_spec Z.lor orb); [intros; apply Z.lor_spec|apply lor_u64]. Qed.
Lemma Xor_spec x y : int_ok x -> int_ok y -> int_ok (Xor x y) /\ val (Xor x y) = Z.lxor (val x) (val y).
Proof. apply (bitwise_spec Z.lxor xorb); [intros; apply Z.lxor_spec|apply lxor_u64]. Qed.
Lemma Not_spec x : int_ok x -> int_ok (Not x) /\ val (Not x) = W256 - 1 - val x.
Proof.
  intros (?&?&?&?). split; [by split_and!; apply not64_range|].
  unfold val, Not, not64. rewrite W256_eq. cbn [w0 w1 w2 w3]. lia.
Qed.

(** ** Shifts *)
Lemma eval_take_mod k l : limbs_ok l -> (k <= length l)%nat -> eval (take k l) = eval l mod Wn k.
Proof.
  intros Hl Hk. symmetry. pose proof (eval_take_drop k l) as E.
  pose proof (eval_bound _ (limbs_ok_take l k Hl)) as Hb.
  rewrite length_take_le in E, Hb by done.
  apply mod_unique_range with (eval (drop k l)); lia.
Qed.

Lemma shl_int y s : int_ok y -> 0 <= s < 64 ->
  of_limbs (shl_limbs (limbs y) s 0) = of_Z (val y * 2 ^ s).
Proof.
  intros Hy Hs. apply limbs_ok_limbs in Hy as Hl.
  destruct (shl_limbs_spec s Hs (limbs y) 0 Hl) as (E & Hok & Hlen); [unfold is_u64; lia|].
  destruct (of_limbs_spec _ Hok) as [Hv Hi]; [by rewrite Hlen|].
  apply eq_of_Z; [done|]. pose proof (val_range _ Hi). rewrite Hv in *.
  rewrite eval_limbs, Z.div_0_l in E by (apply Z.pow_nonzero; lia).
  change (length (limbs y)) with 4%nat in E. rewrite Wn4 in E.
  symmetry. apply mod_unique_range with (List.last (limbs y) 0 / 2 ^ (64 - s)); lia.
Qed.

Lemma shr_int y s : int_ok y -> 0 <= s <= 64 ->
  of_limbs (shr_limbs (limbs y) s) = of_Z (val y / 2 ^ s).
Proof.
  intros Hy Hs. apply limbs_ok_limbs in Hy as Hl.
  destruct (shr_limbs_spec s Hs (limbs y) Hl) as (E & Hok & Hlen).
  destruct (of_limbs_spec _ Hok) as [Hv Hi]; [by rewrite Hlen|].
  apply eq_of_Z_range; [done|]. by rewrite Hv, E, eval_limbs.
Qed.

(** An arithmetic shift takes its top limb from an all-ones limb. *)
Lemma sar_int y s : int_ok y -> 0 <= s <= 64 ->
  of_limbs (take 4 (shr_limbs (limbs y ++ [MaxUint64]) s)) = of_Z ((val y - W256) / 2 ^ s).
Proof.
  intros Hy Hs. destruct (pow_split s Hs) as (Hw & ? & ?).
  assert (Hl : limbs_ok (limbs y ++ [MaxUint64])).
  { apply Forall_app; split; [by apply limbs_ok_limbs|]. constructor; [|done].
    unfold is_u64, MaxUint64. lia. }
  destruct (shr_limbs_spec s Hs _ Hl) as (E & Hok & Hlen).
  destruct (of_limbs_spec _ (limbs_ok_take _ 4 Hok)) as [Hv Hi]; [rewrite length_take; lia|].
  apply eq_of_Z; [done|]. rewrite Hv, eval_take_mod, E by (done || (rewrite Hlen; simpl; lia)).
  rewrite eval_app, eval_limbs, Wn4. change (length (limbs y)) with 4%nat. rewrite Wn4.
  replace (val y + W256 * eval [MaxUint64]) with ((val y - W256) + W256 * 2 ^ (64 - s) * 2 ^ s)
    by (cbn [eval]; unfold MaxUint64; rewrite <- Hw; lia).
  rewrite Z.div_add by lia. rewrite (Z.mul_comm W256), Z.mod_add by (unfold W256; lia). done.
Qed.
Lemma shl64_0 s : shl64 0 s = 0.
Proof. unfold shl64. by rewrite Z.shiftl_0_l. Qed.
Lemma shr64_0 s : shr64 0 s = 0.
Proof. apply Z.shiftr_0_l. Qed.
Lemma land63 n : Z.land n 0x3f = n mod 64.
Proof. exact (Z.land_ones n 6 ltac:(lia)). Qed.

Lemma of_Z_congr k a b : a = b + k * W256 -> of_Z a = of_Z b.
Proof.
  intros ->. rewrite <- of_Z_mod, Z.mod_add by (unfold W256; lia). apply of_Z_mod.
Qed.

(** Moving whole limbs up multiplies by a power of 2^64 modulo 2^256. *)
Lemma lsh_limbs x n : int_ok x -> 0 <= n ->
  (int_ok (lsh64 x) /\ of_Z (val (lsh64 x) * 2 ^ n) = of_Z (val x * 2 ^ (64 + n))) /\
  (int_ok (lsh128 x) /\ of_Z (val (lsh128 x) * 2 ^ n) = of_Z (val x * 2 ^ (128 + n))) /\
  (int_ok (lsh192 x) /\ of_Z (val (lsh192 x) * 2 ^ n) = of_Z (val x * 2 ^ (192 + n))).
Proof.
  intros (?&?&?&?) Hn. assert (is_u64 0) by (unfold is_u64; lia).
  rewrite !Z.pow_add_r by lia. set (p := 2 ^ n). clearbody p.
  change (2 ^ 64) with W. change (2 ^ 128) with (W * W). change (2 ^ 192) with (W * (W * W)).
  assert (EW := W256_eq). unfold val.
  split_and!; try done; cbn [w0 w1 w2 w3 lsh64 lsh128 lsh192].
  - apply (of_Z_congr (- w3 x * p)). rewrite EW. ring.
  - apply (of_Z_congr (- (w2 x + W * w3 x) * p)). rewrite EW. ring.
  - apply (of_Z_congr (- (w1 x + W * (w2 x + W * w3 x)) * p)). rewrite EW. ring.
Qed.

Ltac lor0 := rewrite ?shl64_0, ?shr64_0, ?Z.lor_0_l, ?Z.lor_0_r.

Lemma Lsh_limbs x n : int_ok x -> 0 < n < 64 ->
  Lsh x n = of_limbs (shl_limbs (limbs x) n 0) /\
  Lsh_sh64 (lsh64 x) n 0 = of_limbs (shl_limbs (limbs (lsh64 x)) n 0) /\
  Lsh_sh128 (lsh128 x) n 0 = of_limbs (shl_limbs (limbs (lsh128 x)) n 0) /\
  Lsh_sh192 (lsh192 x) n 0 = of_limbs (shl_limbs (limbs (lsh192 x)) n 0).
Proof.
  intros Hx Hn. unfold Lsh. rewrite land63, Z.mod_small by lia.
  destruct (Z.eqb_spec n 0); [lia|].
  destruct (Z.ltb_spec 192 n), (Z.ltb_spec 128 n), (Z.ltb_spec 64 n); try lia.
  unfold Lsh_sh64, Lsh_sh128, Lsh_sh192, lsh64, lsh128, lsh192, of_limbs, limbs.
  cbn [shl_limbs w0 w1 w2 w3 lookup list_lookup]. cbn -[Z.lor shl64 shr64 Z.sub].
  split_and!; by lor0.
Qed.

Lemma of_Z_shift_out v n : 256 <= n -> of_Z (v * 2 ^ n) = Clear.
Proof.
  intros Hn. rewrite Clear_of_Z. apply (of_Z_congr (v * 2 ^ (n - 256))).
  unfold W256. rewrite Z.add_0_l, <- Z.mul_assoc, <- Z.pow_add_r by lia. do 2 f_equal. lia.
Qed.

Lemma Lsh_ok x n : int_ok x -> 0 <= n -> Lsh x n = of_Z (val x * 2 ^ n).
Proof.
  intros Hx Hn. destruct (lsh_limbs x 0 Hx) as ((?&E1)&(?&E2)&(?&E3)); [lia|].
  rewrite Z.pow_0_r, !Z.mul_1_r, of_Z_val in E1, E2, E3 by done.
  destruct (Z.eq_dec (n mod 64) 0) as [Hm|Hm].
  - unfold Lsh. rewrite land63, Hm. cbn [Z.eqb].
    destruct (Z.eqb_spec n 0) as [->|]; [by rewrite Z.pow_0_r, Z.mul_1_r, of_Z_val|].
    destruct (Z.eqb_spec n 64) as [->|]; [done|].
    destruct (Z.eqb_spec n 128) as [->|]; [done|].
    destruct (Z.eqb_spec n 192) as [->|]; [done|].
    symmetry. apply of_Z_shift_out. dlia.
  - destruct (Z.lt_ge_cases n 64).
    { destruct (Lsh_limbs x n Hx) as [-> _]; [dlia|]. apply shl_int; [done|lia]. }
    unfold Lsh. rewrite land63. destruct (Z.eqb_spec (n mod 64) 0); [done|].
    destruct (Z.ltb_spec 192 n); [destruct (Z.ltb_spec 256 n)|destruct (Z.ltb_spec 128 n);
      [|destruct (Z.ltb_spec 64 n)]].
    + symmetry. apply of_Z_shift_out. lia.
    + destruct (Lsh_limbs x (n - 192) Hx) as (_&_&_& ->); [dlia|]. rewrite shl_int by (done || dlia).
      destruct (lsh_limbs x (n - 192) Hx) as (_&_&_& ->); [lia|]. do 3 f_equal. lia.
    + destruct (Lsh_limbs x (n - 128) Hx) as (_&_& -> &_); [dlia|]. rewrite shl_int by (done || dlia).
      destruct (lsh_limbs x (n - 128) Hx) as (_&(_& ->)&_); [lia|]. do 3 f_equal. lia.
    + destruct (Lsh_limbs x (n - 64) Hx) as (_& -> &_); [dlia|]. rewrite shl_int by (done || dlia).
      destruct (lsh_limbs x (n - 64) Hx) as ((_& ->)&_); [lia|]. do 3 f_equal. lia.
    + dlia.
Qed.
Lemma rsh_limbs x n : int_ok x -> 0 <= n ->
  (int_ok (rsh64 x) /\ val (rsh64 x) / 2 ^ n = val x / 2 ^ (64 + n)) /\
  (int_ok (rsh128 x) /\ val (rsh128 x) / 2 ^ n = val x / 2 ^ (128 + n)) /\
  (int_ok (rsh192 x) /\ val (rsh192 x) / 2 ^ n = val x / 2 ^ (192 + n)).
Proof.
  intros (?&?&?&?) Hn. assert (is_u64 0) by (unfold is_u64; lia).
  assert (0 < 2 ^ n) by (apply Z.pow_pos_nonneg; lia).
  rewrite !Z.pow_add_r, <- !Z.div_div by lia.
  split_and!; try done; f_equal; symmetry; unfold val; cbn [w0 w1 w2 w3 rsh64 rsh128 rsh192].
  - apply div_unique_range with (w0 x); unfold is_u64 in *; lia.
  - apply div_unique_range with (w0 x + W * w1 x); unfold is_u64 in *; lia.
  - apply div_unique_range with (w0 x + W * (w1 x + W * w2 x)); unfold is_u64 in *; lia.
Qed.

Lemma Rsh_limbs x n : int_ok x -> 0 < n < 64 ->
  Rsh x n = of_limbs (shr_limbs (limbs x) n) /\
  Rsh_sh64 (rsh64 x) n 0 = of_limbs (shr_limbs (limbs (rsh64 x)) n) /\
  Rsh_sh128 (rsh128 x) n 0 = of_limbs (shr_limbs (limbs (rsh128 x)) n) /\
  Rsh_sh192 (rsh192 x) n 0 = of_limbs (shr_limbs (limbs (rsh192 x)) n).
Proof.
  intros Hx Hn. unfold Rsh. rewrite land63, Z.mod_small by lia.
  destruct (Z.eqb_spec n 0); [lia|].
  destruct (Z.ltb_spec 192 n), (Z.ltb_spec 128 n), (Z.ltb_spec 64 n); try lia.
  unfold Rsh_sh64, Rsh_sh128, Rsh_sh192, rsh64, rsh128, rsh192, of_limbs, limbs.
  cbn -[Z.lor shl64 shr64 Z.sub].
  split_and!; by lor0.
Qed.

Lemma div_shift_out v n : 0 <= v < W256 -> 256 <= n -> v / 2 ^ n = 0.
Proof.
  intros Hv Hn. apply Z.div_small. pose proof (Z.pow_le_mono_r 2 256 n). unfold W256 in *. lia.
Qed.

Lemma Rsh_ok x n : int_ok x -> 0 <= n -> Rsh x n = of_Z (val x / 2 ^ n).
Proof.
  intros Hx Hn. destruct (rsh_limbs x 0 Hx) as ((?&E1)&(?&E2)&(?&E3)); [lia|].
  rewrite Z.pow_0_r, !Z.div_1_r in E1, E2, E3.
  destruct (Z.eq_dec (n mod 64) 0) as [Hm|Hm].
  - unfold Rsh. rewrite land63, Hm. cbn [Z.eqb].
    destruct (Z.eqb_spec n 0) as [->|]; [by rewrite Z.pow_0_r, Z.div_1_r, of_Z_val|].
    destruct (Z.eqb_spec n 64) as [->|]; [by apply eq_of_Z_range|].
    destruct (Z.eqb_spec n 128) as [->|]; [by apply eq_of_Z_range|].
    destruct (Z.eqb_spec n 192) as [->|]; [by apply eq_of_Z_range|].
    rewrite div_shift_out; [done|by apply val_range|dlia].
  - destruct (Z.lt_ge_cases n 64).
    { destruct (Rsh_limbs x n Hx) as [-> _]; [dlia|]. apply shr_int; [done|lia]. }
    unfold Rsh. rewrite land63. destruct (Z.eqb_spec (n mod 64) 0); [done|].
    destruct (Z.ltb_spec 192 n); [destruct (Z.ltb_spec 256 n)|destruct (Z.ltb_spec 128 n);
      [|destruct (Z.ltb_spec 64 n)]].
    + rewrite div_shift_out; [done|by apply val_range|lia].
    + destruct (Rsh_limbs x (n - 192) Hx) as (_&_&_& ->); [dlia|]. rewrite shr_int by (done || dlia).
      destruct (rsh_limbs x (n - 192) Hx) as (_&_&_& ->); [lia|]. do 3 f_equal. lia.
    + destruct (Rsh_limbs x (n - 128) Hx) as (_&_& -> &_); [dlia|]. rewrite shr_int by (done || dlia).
      destruct (rsh_limbs x (n - 128) Hx) as (_&(_& ->)&_); [lia|]. do 3 f_equal. lia.
    + destruct (Rsh_limbs x (n - 64) Hx) as (_& -> &_); [dlia|]. rewrite shr_int by (done || dlia).
      destruct (rsh_limbs x (n - 64) Hx) as ((_& ->)&_); [lia|]. do 3 f_equal. lia.
    + dlia.
Qed.

(** *** Bits and the arithmetic shift *)
Lemma land_bit w k : 0 <= k < 64 -> negb (Z.land w (shl64 1 k) =? 0) = Z.testbit w k.
Proof.
  intros Hk. unfold shl64. rewrite Z.shiftl_1_l, u64_small.
  2:{ unfold is_u64. pose proof (Z.pow_pos_nonneg 2 k). pose proof (Z.pow_lt_mono_r 2 k 64). simpl in *. lia. }
  destruct (Z.testbit w k) eqn:E.
  - apply negb_true_iff, Z.eqb_neq. intros H.
    assert (Z.testbit (Z.land w (2 ^ k)) k = true) as Ht
      by (rewrite Z.land_spec, E, Z.pow2_bits_true by lia; done).
    rewrite H, Z.bits_0 in Ht. done.
  - apply negb_false_iff, Z.eqb_eq, Z.bits_inj'. intros i Hi. rewrite Z.land_spec, Z.bits_0.
    destruct (Z.eq_dec i k) as [->|]; [by rewrite E|]. rewrite Z.pow2_bits_false by lia. apply andb_false_r.
Qed.

Lemma isBitSet_spec z n : int_ok z -> 0 <= n < 256 -> isBitSet z n = Z.testbit (val z) n.
Proof.
  intros (?&?&?&?) Hn. unfold isBitSet. rewrite land_bit by dlia. unfold val.
  assert (Hq : n / 64 = 0 \/ n / 64 = 1 \/ n / 64 = 2 \/ n / 64 = 3) by dlia.
  pose proof (Z.div_mod n 64 ltac:(lia)) as Hd. pose proof (Z.mod_pos_bound n 64 ltac:(lia)).
  set (r := n mod 64) in *. clearbody r.
  destruct Hq as [E|[E|[E|E]]]; rewrite E in Hd |- *; subst n;
    rewrite !testbit_cons by (done || lia).
  all: repeat match goal with |- context [Z.ltb ?a ?b] => destruct (Z.ltb_spec a b); try lia end.
  all: change (limbs z !!! Z.to_nat 0) with (w0 z); change (limbs z !!! Z.to_nat 1) with (w1 z);
    change (limbs z !!! Z.to_nat 2) with (w2 z); change (limbs z !!! Z.to_nat 3) with (w3 z);
    f_equal; lia.
Qed.

Lemma isBitSet_sign z : int_ok z -> isBitSet z 255 = negb (val z <? 2 ^ 255).
Proof.
  intros Hz. pose proof (val_range z Hz). rewrite isBitSet_spec by (done || lia).
  rewrite Z.testbit_odd, Z.shiftr_div_pow2 by lia. destruct (Z.ltb_spec (val z) (2 ^ 255)).
  - by rewrite Z.div_small by lia.
  - rewrite (div_unique_range (val z) 1 (2 ^ 255) (val z - 2 ^ 255)); [done| |lia].
    unfold W256 in *. lia.
Qed.

Lemma is_u64_Max : is_u64 MaxUint64.
Proof. unfold is_u64, MaxUint64. lia. Qed.

Lemma srsh_limbs x n : int_ok x -> 0 <= n ->
  (int_ok (srsh64 x) /\ (val (srsh64 x) - W256) / 2 ^ n = (val x - W256) / 2 ^ (64 + n)) /\
  (int_ok (srsh128 x) /\ (val (srsh128 x) - W256) / 2 ^ n = (val x - W256) / 2 ^ (128 + n)) /\
  (int_ok (srsh192 x) /\ (val (srsh192 x) - W256) / 2 ^ n = (val x - W256) / 2 ^ (192 + n)).
Proof.
  intros (?&?&?&?) Hn. assert (Hm := is_u64_Max).
  assert (0 < 2 ^ n) by (apply Z.pow_pos_nonneg; lia).
  rewrite !Z.pow_add_r, <- !Z.div_div, W256_eq by lia.
  split_and!; try done; f_equal; symmetry; unfold val; cbn [w0 w1 w2 w3 srsh64 srsh128 srsh192];
    unfold MaxUint64.
  - apply div_unique_range with (w0 x); unfold is_u64 in *; lia.
  - apply div_unique_range with (w0 x + W * w1 x); unfold is_u64 in *; lia.
  - apply div_unique_range with (w0 x + W * (w1 x + W * w2 x)); unfold is_u64 in *; lia.
Qed.

Lemma ones_limb n : 0 < n < 64 -> Z.lor (shr64 MaxUint64 n) (shl64 MaxUint64 (64 - n)) = MaxUint64.
Proof.
  intros Hn. destruct (limb_shr MaxUint64 MaxUint64 n) as [-> _]; [apply is_u64_Max..|lia|].
  destruct (pow_split n) as (Hw & ? & ?); [lia|].
  assert (E : MaxUint64 = (2 ^ (64 - n) - 1) * 2 ^ n + (2 ^ n - 1)) by (unfold MaxUint64; lia).
  rewrite (div_unique_range MaxUint64 (2 ^ (64 - n) - 1) (2 ^ n) (2 ^ n - 1)) by (done || lia).
  rewrite (mod_unique_range MaxUint64 (2 ^ (64 - n) - 1) (2 ^ n) (2 ^ n - 1)) by (done || lia).
  unfold MaxUint64. lia.
Qed.

Lemma SRsh_limbs x n : 0 < n < 64 ->
  let a := shl64 MaxUint64 (64 - n) in
  let f y := of_limbs (take 4 (shr_limbs (limbs y ++ [MaxUint64]) n)) in
  SRsh_sh64 (mkInt (w0 x) (w1 x) (w2 x) (Z.lor (shr64 (w3 x) n) a)) n (shl64 (w3 x) (64 - n)) = f x /\
  SRsh_sh64 (srsh64 x) n a = f (srsh64 x) /\
  SRsh_sh128 (srsh128 x) n a = f (srsh128 x) /\
  SRsh_sh192 (srsh192 x) n a = f (srsh192 x).
Proof.
  intros Hn a f. unfold f, a, SRsh_sh64, SRsh_sh128, SRsh_sh192, srsh64, srsh128, srsh192, of_limbs, limbs.
  cbn -[Z.lor shl64 shr64 Z.sub MaxUint64]. rewrite !ones_limb by done. split_and!; done.
Qed.

Lemma SRsh_ok x n : int_ok x -> 0 <= n -> SRsh x n = of_Z (sval x / 2 ^ n).
Proof.
  intros Hx Hn. pose proof (val_range x Hx). unfold SRsh, sval. rewrite isBitSet_sign, negb_involutive by done.
  destruct (Z.ltb_spec (val x) (2 ^ 255)); [by apply Rsh_ok|].
  destruct (srsh_limbs x 0 Hx) as ((?&E1)&(?&E2)&(?&E3)); [lia|].
  rewrite Z.pow_0_r, !Z.div_1_r in E1, E2, E3.
  assert (Hout : 256 <= n -> SetAllOne = of_Z ((val x - W256) / 2 ^ n)).
  { intros Hb. pose proof (Z.pow_le_mono_r 2 256 n).
    rewrite (div_unique_range _ (-1) (2 ^ n) (val x - W256 + 2 ^ n)); [done| |lia].
    unfold W256 in *. lia. }
  assert (Hlim : forall y, int_ok y -> forall k, val y - W256 = k -> y = of_Z k).
  { intros y Hy k <-. rewrite <- (of_Z_val y Hy) at 1. apply (of_Z_congr 1). lia. }
  destruct (Z.eqb_spec (n mod 64) 0) as [Hm|Hm].
  - destruct (Z.eqb_spec n 0) as [->|]; [by apply Hlim; [|rewrite Z.pow_0_r, Z.div_1_r]|].
    destruct (Z.eqb_spec n 64) as [->|]; [by apply Hlim|].
    destruct (Z.eqb_spec n 128) as [->|]; [by apply Hlim|].
    destruct (Z.eqb_spec n 192) as [->|]; [by apply Hlim|]. apply Hout. dlia.
  - destruct (Z.ltb_spec 192 n); [destruct (Z.ltb_spec 256 n); [apply Hout; lia|]|destruct (Z.ltb_spec 128 n);
      [|destruct (Z.ltb_spec 64 n)]].
    + replace (n mod 64) with (n - 192) by dlia.
      destruct (SRsh_limbs x (n - 192)) as (_&_&_& ->); [dlia|]. rewrite sar_int by (done || dlia).
      destruct (srsh_limbs x (n - 192) Hx) as (_&_&_& ->); [lia|]. do 3 f_equal. lia.
    + replace (n mod 64) with (n - 128) by dlia.
      destruct (SRsh_limbs x (n - 128)) as (_&_& -> &_); [dlia|]. rewrite sar_int by (done || dlia).
      destruct (srsh_limbs x (n - 128) Hx) as (_&(_& ->)&_); [lia|]. do 3 f_equal. lia.
    + replace (n mod 64) with (n - 64) by dlia.
      destruct (SRsh_limbs x (n - 64)) as (_& -> &_); [dlia|]. rewrite sar_int by (done || dlia).
      destruct (srsh_limbs x (n - 64) Hx) as ((_& ->)&_); [lia|]. do 3 f_equal. lia.
    + replace (n mod 64) with n by dlia.
      destruct (SRsh_limbs x n) as [-> _]; [dlia|]. apply sar_int; [done|lia].
Qed.

(** ** Bytes of an integer *)
Lemma window_mod a k : 0 <= k <= 56 -> a mod W / 2 ^ k mod 256 = a / 2 ^ k mod 256.
Proof.
  intros Hk. change W with (2 ^ 64). change 256 with (2 ^ 8).
  rewrite <- !Z.shiftr_div_pow2 by lia. apply Z.bits_inj'. intros i Hi.
  destruct (Z.lt_ge_cases i 8).
  - rewrite !Z.mod_pow2_bits_low, !Z.shiftr_spec, Z.mod_pow2_bits_low by lia. done.
  - rewrite !Z.mod_pow2_bits_high by lia. done.
Qed.

Lemma limb_at z q : int_ok z -> 0 <= q <= 3 -> limbs z !!! Z.to_nat q = val z / 2 ^ (64 * q) mod W.
Proof.
  intros (?&?&?&?) Hq. unfold is_u64, val in *. symmetry.
  assert (q = 0 \/ q = 1 \/ q = 2 \/ q = 3) as [->|[->|[->| ->]]] by lia.
  - change (limbs z !!! Z.to_nat 0) with (w0 z). change (2 ^ (64 * 0)) with 1. rewrite Z.div_1_r.
    apply (mod_unique_range _ (w1 z + W * (w2 z + W * w3 z))); lia.
  - change (limbs z !!! Z.to_nat 1) with (w1 z). change (2 ^ (64 * 1)) with W.
    rewrite (div_unique_range _ (w1 z + W * (w2 z + W * w3 z)) _ (w0 z)) by lia.
    apply (mod_unique_range _ (w2 z + W * w3 z)); lia.
  - change (limbs z !!! Z.to_nat 2) with (w2 z). change (2 ^ (64 * 2)) with (W * W).
    rewrite (div_unique_range _ (w2 z + W * w3 z) _ (w0 z + W * w1 z)) by lia.
    apply (mod_unique_range _ (w3 z)); lia.
  - change (limbs z !!! Z.to_nat 3) with (w3 z). change (2 ^ (64 * 3)) with (W * (W * W)).
    rewrite (div_unique_range _ (w3 z) _ (w0 z + W * (w1 z + W * w2 z))) by lia.
    apply Z.mod_small; lia.
Qed.

Lemma limb_byte z q k : int_ok z -> 0 <= q <= 3 -> 0 <= k <= 56 ->
  limbs z !!! Z.to_nat q / 2 ^ k mod 256 = val z / 2 ^ (64 * q + k) mod 256.
Proof.
  intros Hz Hq Hk. rewrite limb_at, window_mod by done.
  rewrite Z.pow_add_r, Z.div_div by (lia || (apply Z.pow_pos_nonneg; lia)). done.
Qed.

Lemma byte_at_spec z i : int_ok z -> 0 <= i < 32 -> byte_at z i = val z / 256 ^ i mod 256.
Proof.
  intros Hz Hi. unfold byte_at, shr64. rewrite Z.shiftr_div_pow2 by dlia.
  rewrite limb_byte by (done || dlia). change 256 with (2 ^ 8) at 2. rewrite <- Z.pow_mul_r by lia.
  do 3 f_equal. dlia.
Qed.

Lemma Byte_ok z n : int_ok z -> int_ok n ->
  Byte z n = of_Z (if val n <? 32 then val z / 2 ^ (8 * (31 - val n)) mod 256 else 0).
Proof.
  intros Hz Hn. pose proof (val_range n Hn). unfold Byte. rewrite Uint64WithOverflow_spec, negb_involutive by done.
  assert (Hw0 : w0 n = val n mod W) by by apply Uint64_spec.
  destruct (Z.ltb_spec (val n) W); [|destruct (Z.ltb_spec (val n) 32); [lia|done]].
  rewrite Hw0, Z.mod_small by lia. cbn [andb]. destruct (Z.ltb_spec (val n) 32); [|done].
  change 0x7 with (Z.ones 3). rewrite Z.land_ones by lia. change (2 ^ 3) with 8.
  assert (Ho : shl64 (val n mod 8) 3 = 8 * (val n mod 8)).
  { unfold shl64. rewrite Z.shiftl_mul_pow2 by lia. rewrite u64_small; [lia|]. unfold is_u64. dlia. }
  rewrite Ho. set (off := 8 * (val n mod 8)). assert (0 <= off <= 56) by (unfold off; dlia).
  unfold shr64. rewrite Z.shiftr_land, Z.shiftr_shiftr by lia.
  replace (off + (56 - off)) with 56 by lia. change (Z.shiftr 0xff00000000000000 56) with (Z.ones 8).
  rewrite Z.land_ones, Z.shiftr_div_pow2 by lia. change (2 ^ 8) with 256.
  rewrite limb_byte by (done || dlia). rewrite SetUint64_of_Z.
  2:{ pose proof (Z.mod_pos_bound (val z / 2 ^ (64 * (4 - 1 - val n / 8) + (56 - off))) 256). unfold is_u64. lia. }
  do 4 f_equal. unfold off. dlia.
Qed.

Lemma le_bytes_app j v : le_bytes (S j) v = le_bytes j v ++ [v / 256 ^ Z.of_nat j mod 256].
Proof.
  revert v. induction j as [|j IH]; intros v.
  - cbn [le_bytes app]. by rewrite Z.pow_0_r, Z.div_1_r.
  - change (le_bytes (S (S j)) v) with (v mod 256 :: le_bytes (S j) (v / 256)). rewrite IH.
    cbn [le_bytes app]. rewrite Nat2Z.inj_succ, Z.pow_succ_r, Z.div_div by lia. done.
Qed.

Lemma be_bytes_cons j v : be_bytes (S j) v = v / 256 ^ Z.of_nat j mod 256 :: be_bytes j v.
Proof. unfold be_bytes. by rewrite le_bytes_app, rev_app_distr. Qed.


(** The byte loops of [WriteToSlice] and [PaddedBytes], after [j] rounds. *)
Lemma write_bytes z (e : nat) dest : int_ok z -> (e <= length dest)%nat -> forall j, (j <= 32)%nat -> (j <= e)%nat ->
  foldl (fun d i => <[Z.to_nat (Z.of_nat e - 1 - i) := byte_at z i]> d) dest (seqZ 0 (Z.of_nat j))
  = take (e - j) dest ++ be_bytes j (val z) ++ drop e dest.
Proof.
  intros Hz He. induction j as [|j IH]; intros H32 Hj.
  - rewrite seqZ_nil by lia. cbn [foldl]. change (be_bytes 0 (val z)) with (@nil Z). cbn [app]. by rewrite Nat.sub_0_r, take_drop.
  - rewrite seqZ_S, foldl_app, IH by lia. cbn [foldl].
    rewrite byte_at_spec, be_bytes_cons by (done || lia).
    replace (Z.to_nat (Z.of_nat e - 1 - (0 + Z.of_nat j))) with (e - S j)%nat by lia.
    assert (Hl : (e - S j < length dest)%nat) by lia.
    replace (e - j)%nat with (S (e - S j)) by lia.
    rewrite (take_S_r dest (e - S j) (dest !!! (e - S j)%nat)) by (by apply lookup_total_Some).
    rewrite <- app_assoc. rewrite insert_app_r_alt by (rewrite length_take; lia).
    rewrite length_take_le, Nat.sub_diag by lia. by rewrite Z.add_0_l.
Qed.

Lemma WriteToSlice_ok z dest : int_ok z ->
  WriteToSlice z dest = be_bytes (Nat.min 32 (length dest)) (val z) ++ drop 32 dest.
Proof.
  intros Hz. unfold WriteToSlice. set (k := Nat.min 32 (length dest)).
  replace (Z.min (len dest - 1) 31) with (Z.of_nat k - 1) by (unfold len, k; lia).
  replace (Z.of_nat k - 1 + 1) with (Z.of_nat k) by lia.
  rewrite (write_bytes z k dest) by (done || lia). rewrite Nat.sub_diag, take_0. simpl. f_equal.
  unfold k. destruct (Nat.le_ge_cases 32 (length dest)).
  - by rewrite Nat.min_l by lia.
  - rewrite Nat.min_r by lia. by rewrite !drop_ge by lia.
Qed.

Lemma PaddedBytes_ok z n : int_ok z ->
  PaddedBytes z n = replicate (n - 32) 0 ++ be_bytes (Nat.min 32 n) (val z).
Proof.
  intros Hz. unfold PaddedBytes. replace (Z.min 32 (Z.of_nat n)) with (Z.of_nat (Nat.min 32 n)) by lia.
  rewrite (write_bytes z n) by (done || lia || (rewrite length_replicate; lia)).
  rewrite drop_ge, app_nil_r by (rewrite length_replicate; lia). rewrite take_replicate.
  do 2 f_equal. lia.
Qed.

Lemma Bytes32_ok z : int_ok z -> Bytes32 z = be_bytes 32 (val z).
Proof.
  intros (?&?&?&?). unfold is_u64 in *.
  assert (E : be_val (Bytes32 z) = val z).
  { unfold Bytes32. rewrite !be_val_app, !be_val_be_bytes, !length_app, !length_be_bytes.
    unfold val. change (256 ^ Z.of_nat 8) with W. rewrite !Z.mod_small by lia.
    change (256 ^ Z.of_nat (8 + (8 + 8))) with (W * (W * W)). change (256 ^ Z.of_nat (8 + 8)) with (W * W). lia. }
  rewrite <- E. change 32%nat with (length (Bytes32 z)). symmetry. apply be_bytes_be_val.
  unfold Bytes32. rewrite !Forall_app. split_and!; apply be_bytes_ok.
Qed.

Lemma Bytes20_ok z : int_ok z -> Bytes20 z = be_bytes 20 (val z).
Proof.
  intros (?&?&?&?). unfold is_u64 in *.
  assert (E : be_val (Bytes20 z) = val z mod 256 ^ Z.of_nat 20).
  { unfold Bytes20. rewrite !be_val_app, !be_val_be_bytes, !length_app, !length_be_bytes.
    change (256 ^ Z.of_nat 8) with W. change (256 ^ Z.of_nat 4) with (2 ^ 32).
    change (256 ^ Z.of_nat (8 + 8)) with (W * W). change (256 ^ Z.of_nat 20) with (W * W * 2 ^ 32).
    rewrite Z.mod_mod, (Z.mod_small (w0 z)), (Z.mod_small (w1 z)) by lia. symmetry.
    apply mod_unique_range with (w2 z / 2 ^ 32 + 2 ^ 32 * w3 z).
    - assert (0 <= w2 z mod 2 ^ 32 < 2 ^ 32) by (apply Z.mod_pos_bound; lia). lia.
    - unfold val. pose proof (Z.div_mod (w2 z) (2 ^ 32) ltac:(lia)). lia. }
  rewrite <- be_bytes_mod, <- E. change 20%nat with (length (Bytes20 z)). symmetry. apply be_bytes_be_val.
  unfold Bytes20. rewrite !Forall_app. split_and!; apply be_bytes_ok.
Qed.
(** ** SetBytes *)
Lemma length_slice a b l : 0 <= a -> a <= b -> b <= len l -> len (slice a b l) = b - a.
Proof.
  unfold len, slice. intros. rewrite length_take, length_drop. lia.
Qed.

Lemma slice_be_val a b l : bytes_ok l -> 0 <= a -> a <= b -> b <= len l ->
  be_val (slice a b l) = be_val l / 256 ^ (len l - b) mod 256 ^ (b - a).
Proof.
  intros Hl Ha Hab Hb. pose proof (length_slice a b l Ha Hab Hb) as Hlen. unfold len in *.
  set (x := take (Z.to_nat a) l). set (y := slice a b l) in *. set (z := drop (Z.to_nat b) l).
  assert (E : l = x ++ y ++ z).
  { unfold x, y, z, slice. rewrite <- (take_drop (Z.to_nat a) l) at 1. f_equal.
    rewrite <- (take_drop (Z.to_nat (b - a)) (drop _ l)) at 1. f_equal. rewrite drop_drop. f_equal. lia. }
  assert (Hz : Z.of_nat (length l) - b = Z.of_nat (length z)) by (unfold z; rewrite length_drop; lia).
  assert (Hok : bytes_ok (y ++ z)) by (rewrite E in Hl; by apply Forall_app in Hl as [_ ?]).
  apply Forall_app in Hok as [Hoky Hokz].
  pose proof (be_val_bound y Hoky) as By. pose proof (be_val_bound z Hokz) as Bz.
  rewrite Hz, <- Hlen. rewrite E at 1. rewrite !be_val_app, length_app, Nat2Z.inj_add, Z.pow_add_r by lia.
  rewrite (div_unique_range _ (be_val x * 256 ^ Z.of_nat (length y) + be_val y) _ (be_val z)) by lia.
  symmetry. apply mod_unique_range with (be_val x); lia.
Qed.

(** Limb [i] of a big-endian buffer. *)
Lemma BE_limb l i a b : bytes_ok l -> 0 <= i -> b = Z.max 0 (len l - 8 * i) -> a = Z.max 0 (b - 8) ->
  BE a b l = be_val l / W ^ i mod W.
Proof.
  intros Hl Hi Hb Ha. pose proof (be_val_bound l Hl) as Bl.
  assert (0 <= len l) by (unfold len; lia). change W with (256 ^ 8). rewrite <- Z.pow_mul_r by lia.
  unfold BE. rewrite slice_be_val by (done || lia).
  destruct (Z.le_gt_cases (len l) (8 * i)).
  - replace (b - a) with 0 by lia. rewrite Z.mod_1_r.
    rewrite (Z.div_small (be_val l)); [done|]. pose proof (Z.pow_le_mono_r 256 (len l) (8 * i)).
    unfold len in *. lia.
  - replace (len l - b) with (8 * i) by lia. destruct (Z.le_gt_cases (8 * i + 8) (len l)).
    + by replace (b - a) with 8 by lia.
    + replace a with 0 by lia.
      assert (0 <= be_val l / 256 ^ (8 * i) < 256 ^ b).
      { split; [apply Z.div_pos; [lia|apply Z.pow_pos_nonneg; lia]|].
        apply Z.div_lt_upper_bound; [apply Z.pow_pos_nonneg; lia|].
        rewrite <- Z.pow_add_r by lia. replace (8 * i + b) with (len l) by lia. apply Bl. }
      pose proof (Z.pow_le_mono_r 256 b 8). rewrite !Z.mod_small by (rewrite ?Z.sub_0_r; lia). done.
Qed.

Lemma of_Z_buf l : bytes_ok l ->
  let f i := let b := Z.max 0 (len l - 8 * i) in BE (Z.max 0 (b - 8)) b l in
  mkInt (f 0) (f 1) (f 2) (f 3) = of_Z (be_val l).
Proof.
  intros Hl f. unfold f, of_Z. rewrite !Z.div_div by lia.
  rewrite (BE_limb l 0), (BE_limb l 1), (BE_limb l 2), (BE_limb l 3) by (done || lia).
  rewrite Z.pow_0_r, Z.div_1_r, Z.pow_1_r. do 3 f_equal.
Qed.

Lemma lor_shl64 a b n : 0 <= n -> 0 <= a < 2 ^ n -> 0 <= b -> b * 2 ^ n < W ->
  Z.lor a (shl64 b n) = a + b * 2 ^ n.
Proof.
  intros. unfold shl64. rewrite Z.shiftl_mul_pow2, u64_small by (unfold is_u64; nia).
  by apply lor_shift_add.
Qed.

Ltac bytes_case l :=
  repeat match goal with
  | H : bytes_ok (_ :: _) |- _ => apply list.Forall_cons in H as [? H]
  | H : is_byte _ |- _ => unfold is_byte in H
  end.

Lemma top1 l : (1 <= length l)%nat -> at_ 0 l = BE 0 1 l.
Proof. destruct l as [|a l]; simpl; [lia|]. intros _. by change (BE 0 1 (a :: l)) with a. Qed.

Lemma top3 l : bytes_ok l -> (3 <= length l)%nat -> Z.lor (BE 1 3 l) (shl64 (at_ 0 l) 16) = BE 0 3 l.
Proof.
  destruct l as [|a [|b [|c l]]]; intros Hl Hn; simpl in Hn; try lia. bytes_case l.
  change (BE 1 3 (a :: b :: c :: l)) with ((0 * 256 + b) * 256 + c).
  change (BE 0 3 (a :: b :: c :: l)) with (((0 * 256 + a) * 256 + b) * 256 + c).
  change (at_ 0 (a :: b :: c :: l)) with a. rewrite lor_shl64 by lia. lia.
Qed.

Lemma top5 l : bytes_ok l -> (5 <= length l)%nat -> bigEndianUint40 (slice 0 5 l) = BE 0 5 l.
Proof.
  destruct l as [|a [|b [|c [|d [|e l]]]]]; intros Hl Hn; simpl in Hn; try lia. bytes_case l.
  unfold bigEndianUint40, BE. change (slice 0 5 _) with [a; b; c; d; e]. unfold at_, be_val.
  cbn [lookup_total list_lookup_total foldl].
  rewrite (lor_shl64 _ _ 8), (lor_shl64 _ _ 16), (lor_shl64 _ _ 24), (lor_shl64 _ _ 32) by lia. lia.
Qed.

Lemma top6 l : bytes_ok l -> (6 <= length l)%nat -> bigEndianUint48 (slice 0 6 l) = BE 0 6 l.
Proof.
  destruct l as [|a [|b [|c [|d [|e [|f l]]]]]]; intros Hl Hn; simpl in Hn; try lia. bytes_case l.
  unfold bigEndianUint48, BE. change (slice 0 6 _) with [a; b; c; d; e; f]. unfold at_, be_val.
  cbn [lookup_total list_lookup_total foldl].
  rewrite (lor_shl64 _ _ 8), (lor_shl64 _ _ 16), (lor_shl64 _ _ 24), (lor_shl64 _ _ 32), (lor_shl64 _ _ 40) by lia. lia.
Qed.

Lemma top7 l : bytes_ok l -> (7 <= length l)%nat -> bigEndianUint56 (slice 0 7 l) = BE 0 7 l.
Proof.
  destruct l as [|a [|b [|c [|d [|e [|f [|g l]]]]]]]; intros Hl Hn; simpl in Hn; try lia. bytes_case l.
  unfold bigEndianUint56, BE. change (slice 0 7 _) with [a; b; c; d; e; f; g]. unfold at_, be_val.
  cbn [lookup_total list_lookup_total foldl].
  rewrite (lor_shl64 _ _ 8), (lor_shl64 _ _ 16), (lor_shl64 _ _ 24), (lor_shl64 _ _ 32), (lor_shl64 _ _ 40), (lor_shl64 _ _ 48) by lia. lia.
Qed.

Lemma SetBytes_short l : bytes_ok l -> (length l <= 32)%nat -> SetBytes l = Ret (of_Z (be_val l)).
Proof.
  intros Hl Hn. rewrite <- of_Z_buf by done. cbv zeta.
  assert (Hlen : len l = Z.of_nat (length l)) by done. unfold SetBytes.
  remember (length l) as n eqn:E. 
  do 33 (destruct n as [|n]; [
    unfold SetBytes1, SetBytes2, SetBytes3, SetBytes4, SetBytes5, SetBytes6, SetBytes7, SetBytes8,
     SetBytes9, SetBytes10, SetBytes11, SetBytes12, SetBytes13, SetBytes14, SetBytes15, SetBytes16,
     SetBytes17, SetBytes18, SetBytes19, SetBytes20, SetBytes21, SetBytes22, SetBytes23, SetBytes24,
     SetBytes25, SetBytes26, SetBytes27, SetBytes28, SetBytes29, SetBytes30, SetBytes31, SetBytes32;
    try (replace (drop (_ - 32) l) with l by done);
    unfold need; rewrite Hlen; cbn [Z.of_nat Pos.of_succ_nat Pos.succ Z.leb Z.compare Pos.compare Pos.compare_cont];
    rewrite ?top3, ?top5, ?top6, ?top7, ?top1 by (done || lia); reflexivity|]); lia.
Qed.

Lemma SetBytes_ok buf : bytes_ok buf -> SetBytes buf = Ret (of_Z (be_val (drop (length buf - 32) buf))).
Proof.
  intros Hb. destruct (Nat.le_gt_cases (length buf) 32).
  - replace (length buf - 32)%nat with 0%nat by lia. rewrite drop_0. by apply SetBytes_short.
  - rewrite <- SetBytes_short by (by apply Forall_drop || (rewrite length_drop; lia)).
    assert (E : length (drop (length buf - 32) buf) = 32%nat) by (rewrite length_drop; lia).
    transitivity (SetBytes32 (drop (length buf - 32) buf)).
    + unfold SetBytes. destruct (length buf) as [|n]; [lia|].
      do 32 (destruct n as [|n]; [exfalso; lia|]). reflexivity.
    + unfold SetBytes. rewrite E. reflexivity.
Qed.
(** ** Sign extension *)
(** The signed value of the low [t] bits of [v]. *)
Definition sext (t v : Z) : Z :=
  let r := v mod 2 ^ t in if r <? 2 ^ (t - 1) then r else r - 2 ^ t.

Lemma or_not_mask x k m : int_ok x -> 0 <= k <= 256 -> m = of_Z (2 ^ k - 1) ->
  val (Or x (Not m)) = W256 - 2 ^ k + val x mod 2 ^ k.
Proof.
  intros Hx Hk ->. pose proof (val_range x Hx).
  assert (0 < 2 ^ k <= W256) by (split; [apply Z.pow_pos_nonneg; lia|unfold W256; apply Z.pow_le_mono_r; lia]).
  destruct (Not_spec (of_Z (2 ^ k - 1)) (of_Z_ok _)) as [Hn En].
  destruct (Or_spec x _ Hx Hn) as [_ ->]. rewrite En, of_Z_small_val by lia.
  pose proof (Z.div_mod (val x) (2 ^ k) ltac:(lia)). pose proof (Z.mod_pos_bound (val x) (2 ^ k) ltac:(lia)).
  assert (E : W256 - 1 - (2 ^ k - 1) = (2 ^ (256 - k) - 1) * 2 ^ k).
  { rewrite Z.mul_sub_distr_r, <- Z.pow_add_r by lia. unfold W256. replace (256 - k + k) with 256 by lia. lia. }
  assert (D : 0 <= val x / 2 ^ k < 2 ^ (256 - k)).
  { split; [apply Z.div_pos; lia|]. apply Z.div_lt_upper_bound; [lia|]. rewrite <- Z.pow_add_r by lia.
    replace (k + (256 - k)) with 256 by lia. unfold W256 in *. lia. }
  transitivity (val x mod 2 ^ k + (2 ^ (256 - k) - 1) * 2 ^ k); [|lia].
  rewrite <- (lor_shift_add (val x mod 2 ^ k)) by lia. rewrite E. apply Z.bits_inj'. intros i Hi.
  rewrite !Z.lor_spec, <- !Z.shiftl_mul_pow2 by lia. destruct (Z.lt_ge_cases i k).
  - rewrite Z.mod_pow2_bits_low by lia. done.
  - rewrite Z.mod_pow2_bits_high, Z.shiftl_spec by lia. cbn [orb].
    change (2 ^ (256 - k) - 1) with (Z.pred (2 ^ (256 - k))). rewrite <- Z.ones_equiv.
    destruct (Z.lt_ge_cases (i - k) (256 - k)).
    + rewrite Z.ones_spec_low by lia. apply orb_true_r.
    + rewrite Z.ones_spec_high by lia. rewrite orb_false_r.
      rewrite <- (Z.mod_small (val x) W256) by lia. apply Z.mod_pow2_bits_high. lia.
Qed.

Lemma and_mask x k m : int_ok x -> 0 <= k <= 256 -> m = of_Z (2 ^ k - 1) ->
  val (And x m) = val x mod 2 ^ k.
Proof.
  intros Hx Hk ->.
  assert (0 < 2 ^ k <= W256) by (split; [apply Z.pow_pos_nonneg; lia|unfold W256; apply Z.pow_le_mono_r; lia]).
  destruct (And_spec x _ Hx (of_Z_ok (2 ^ k - 1))) as [_ ->]. rewrite of_Z_small_val by lia.
  change (2 ^ k - 1) with (Z.pred (2 ^ k)). rewrite <- Z.ones_equiv. apply Z.land_ones. lia.
Qed.

Lemma mod_succ_bit v k : 0 <= k ->
  v mod 2 ^ (k + 1) = v mod 2 ^ k + (if Z.testbit v k then 2 ^ k else 0).
Proof.
  intros Hk. pose proof (Z.pow_pos_nonneg 2 k). rewrite Z.pow_add_r, Z.pow_1_r, Z.rem_mul_r by lia.
  rewrite <- (Z.shiftr_div_pow2 v) by lia.
  replace (Z.shiftr v k mod 2) with (Z.b2z (Z.testbit v k)); [destruct (Z.testbit v k); simpl; lia|].
  rewrite <- Z.bit0_mod, Z.shiftr_spec by lia. done.
Qed.

Lemma ExtendSign_ok x b : int_ok x -> int_ok b ->
  ExtendSign x b = if 31 <? val b then x else of_Z (sext (8 * val b + 8) (val x)).
Proof.
  intros Hx Hb. pose proof (val_range b Hb). unfold ExtendSign. rewrite GtUint64_spec by (done || lia).
  destruct (Z.ltb_spec 31 (val b)); [done|].
  assert (add64 (mul64 (Uint64 b) 8) 7 = 8 * val b + 7) as ->.
  { rewrite val_small_w0 by (done || lia). unfold mul64, add64. rewrite (u64_small (val b * 8)), u64_small by (unfold is_u64; lia). lia. }
  set (k := 8 * val b + 7). assert (Hk : 0 <= k < 256) by lia.
  assert (Hp : 0 < 2 ^ k < W256) by (split; [apply Z.pow_pos_nonneg; lia|unfold W256; apply Z.pow_lt_mono_r; lia]).
  assert (Hmask : SubUint64 (Lsh SetOne k) (Lsh SetOne k) 1 = of_Z (2 ^ k - 1)).
  { rewrite Lsh_ok; [|rewrite SetOne_of_Z; apply of_Z_ok|lia]. change (val SetOne) with 1.
    rewrite SubUint64_spec; [|apply of_Z_ok|unfold is_u64; lia]. rewrite Z.mul_1_l, of_Z_small_val by lia. done. }
  rewrite Hmask, isBitSet_spec by done. unfold sext.
  replace (8 * val b + 8) with (k + 1) by lia. rewrite Z.add_simpl_r, mod_succ_bit by lia.
  pose proof (Z.mod_pos_bound (val x) (2 ^ k) ltac:(lia)).
  assert (2 ^ (k + 1) = 2 * 2 ^ k) by (rewrite Z.pow_add_r; lia).
  destruct (Z.testbit (val x) k) eqn:Et; destruct (Z.ltb_spec (val x mod 2 ^ k + (if Z.testbit (val x) k then 2 ^ k else 0)) (2 ^ k)).
  all: rewrite Et in *; try lia.
  - destruct (Z.ltb_spec (val x mod 2 ^ k + 2 ^ k) (2 ^ k)); [lia|].
    destruct (Not_spec (of_Z (2 ^ k - 1)) (of_Z_ok _)) as [Hn _]. destruct (Or_spec x _ Hx Hn) as [Ho _].
    apply eq_of_Z; [done|]. rewrite (or_not_mask x k) by (done || lia).
    symmetry. apply mod_unique_range with (-1); lia.
  - destruct (Z.ltb_spec (val x mod 2 ^ k + 0) (2 ^ k)); [|lia].
    destruct (And_spec x _ Hx (of_Z_ok (2 ^ k - 1))) as [Ho _].
    apply eq_of_Z_range; [done|]. rewrite (and_mask x k) by (done || lia). lia.
Qed.

(** ** Conversion from a big integer *)
Lemma SetFromBig_ok b : SetFromBig b = (of_Z b, W256 <=? Z.abs b).
Proof.
  unfold SetFromBig. f_equal. destruct (Z.eqb_spec (Z.sgn b) (-1)); [rewrite Neg_of_Z|]; f_equal; lia.
Qed.
