(* ===== verification/Config.v ===== *)
(** * Chain configuration

    src/evm/params/config.go: which forks are active at a block, whether the
    fork blocks of a configuration are in order, and whether a configuration
    may replace another one on a chain that has reached a given height.  A
    [*big.Int] that may be nil is an [option Z]. *)

From S2P Require Import Prelude Words.

Record ChainConfig := mkChainConfig {
  ChainID : option Z;
  HomesteadBlock : option Z;
  DAOForkBlock : option Z;
  DAOForkSupport : bool;
  EIP150Block : option Z;
  EIP155Block : option Z;
  EIP158Block : option Z;
  ByzantiumBlock : option Z;
  ConstantinopleBlock : option Z;
  PetersburgBlock : option Z;
  IstanbulBlock : option Z;
  MuirGlacierBlock : option Z;
  YoloV2Block : option Z;
}.

(** [big.NewInt(int64(chainId))]. *)
Definition GetChainConfig (chainId : Z) : ChainConfig :=
  mkChainConfig (Some (to_int64 chainId)) (Some 0) None true (Some 0) (Some 0) (Some 0) (Some 0)
    (Some 0) (Some 0) (Some 0) (Some 0) None.
Definition MainnetChainConfig : ChainConfig :=
  mkChainConfig (Some 58) (Some 0) None true (Some 0) (Some 0) (Some 0) (Some 0)
    (Some 0) (Some 0) (Some 0) (Some 0) None.
Definition TestChainConfig : ChainConfig :=
  mkChainConfig (Some 1) (Some 0) None false (Some 0) (Some 0) (Some 0) (Some 0)
    (Some 0) (Some 0) (Some 0) None None.

Definition isForked (s head : option Z) : bool :=
  match s, head with
  | Some s, Some h => s <=? h
  | _, _ => false
  end.
Definition configNumEqual (x y : option Z) : bool :=
  match x, y with
  | None, None => true
  | Some x, Some y => x =? y
  | _, _ => false
  end.
Definition isForkIncompatible (s1 s2 head : option Z) : bool :=
  (isForked s1 head || isForked s2 head) && negb (configNumEqual s1 s2).

Definition IsHomestead (c : ChainConfig) (num : option Z) : bool := isForked (HomesteadBlock c) num.
Definition IsDAOFork (c : ChainConfig) (num : option Z) : bool := isForked (DAOForkBlock c) num.
Definition IsEIP150 (c : ChainConfig) (num : option Z) : bool := isForked (EIP150Block c) num.
Definition IsEIP155 (c : ChainConfig) (num : option Z) : bool := isForked (EIP155Block c) num.
Definition IsEIP158 (c : ChainConfig) (num : option Z) : bool := isForked (EIP158Block c) num.
Definition IsByzantium (c : ChainConfig) (num : option Z) : bool := isForked (ByzantiumBlock c) num.
Definition IsConstantinople (c : ChainConfig) (num : option Z) : bool := isForked (ConstantinopleBlock c) num.
Definition IsMuirGlacier (c : ChainConfig) (num : option Z) : bool := isForked (MuirGlacierBlock c) num.
Definition IsPetersburg (c : ChainConfig) (num : option Z) : bool :=
  isForked (PetersburgBlock c) num
  || match PetersburgBlock c with None => isForked (ConstantinopleBlock c) num | Some _ => false end.
Definition IsIstanbul (c : ChainConfig) (num : option Z) : bool := isForked (IstanbulBlock c) num.
Definition IsYoloV2 (c : ChainConfig) (num : option Z) : bool := isForked (YoloV2Block c) num.

Record Rules := mkRules {
  rChainID : Z;
  rIsHomestead : bool; rIsEIP150 : bool; rIsEIP155 : bool; rIsEIP158 : bool;
  rIsByzantium : bool; rIsConstantinople : bool; rIsPetersburg : bool; rIsIstanbul : bool;
  rIsYoloV2 : bool;
}.
Definition RulesAt (c : ChainConfig) (num : option Z) : Rules :=
  mkRules (default 0 (ChainID c)) (IsHomestead c num) (IsEIP150 c num) (IsEIP155 c num) (IsEIP158 c num)
    (IsByzantium c num) (IsConstantinople c num) (IsPetersburg c num) (IsIstanbul c num) (IsYoloV2 c num).

(** ** Fork order *)
Inductive fork_name :=
  homestead | daoFork | eip150 | eip155 | eip158 | byzantium | constantinople | petersburg
| istanbul | muirGlacier | yoloV2.
Record fork := mkFork { name : fork_name; block : option Z; optional : bool }.
Inductive order_error :=
| NotEnabled (last cur : fork_name) (at_block : Z)
| EnabledLater (last : fork_name) (last_block : Z) (cur : fork_name) (cur_block : Z).

Definition forks (c : ChainConfig) : list fork :=
  [mkFork homestead (HomesteadBlock c) false;
   mkFork daoFork (DAOForkBlock c) true;
   mkFork eip150 (EIP150Block c) false;
   mkFork eip155 (EIP155Block c) false;
   mkFork eip158 (EIP158Block c) false;
   mkFork byzantium (ByzantiumBlock c) false;
   mkFork constantinople (ConstantinopleBlock c) false;
   mkFork petersburg (PetersburgBlock c) false;
   mkFork istanbul (IstanbulBlock c) false;
   mkFork muirGlacier (MuirGlacierBlock c) true;
   mkFork yoloV2 (YoloV2Block c) false].

(** The loop over the forks with [lastFork]; [None] is its initial value with
    an empty name. *)
Fixpoint check_forks (lastFork : option fork) (fs : list fork) : option order_error :=
  match fs with
  | [] => None
  | cur :: fs' =>
      let err :=
        match lastFork with
        | None => None
        | Some last =>
            match block last, block cur with
            | None, Some b => Some (NotEnabled (name last) (name cur) b)
            | Some a, Some b => if b <? a then Some (EnabledLater (name last) a (name cur) b) else None
            | _, None => None
            end
        end in
      match err with
      | Some e => Some e
      | None =>
          let keep := negb (optional cur) || match block cur with Some _ => true | None => false end in
          check_forks (if keep then Some cur else lastFork) fs'
      end
  end.
Definition CheckConfigForkOrder (c : ChainConfig) : option order_error := check_forks None (forks c).

(** ** Compatibility *)
Inductive compat_what :=
  WHomestead | WDAO | WDAOSupport | WEIP150 | WEIP155 | WEIP158 | WEIP158ChainID | WByzantium
| WConstantinople | WPetersburg | WIstanbul | WMuirGlacier | WYoloV2.
Record ConfigCompatError := mkCompatError {
  What : compat_what; StoredConfig : option Z; NewConfig : option Z; RewindTo : Z }.

Definition newCompatError (what : compat_what) (storedblock newblock : option Z) : ConfigCompatError :=
  let rew :=
    match storedblock, newblock with
    | None, _ => newblock
    | Some _, None => storedblock
    | Some s, Some n => if s <? n then storedblock else newblock
    end in
  mkCompatError what storedblock newblock
    (match rew with Some r => if 0 <? r then sub64 (u64 r) 1 else 0 | None => 0 end).

Definition checkCompatible (c newcfg : ChainConfig) (head : option Z) : option ConfigCompatError :=
  if isForkIncompatible (HomesteadBlock c) (HomesteadBlock newcfg) head then
    Some (newCompatError WHomestead (HomesteadBlock c) (HomesteadBlock newcfg))
  else if isForkIncompatible (DAOForkBlock c) (DAOForkBlock newcfg) head then
    Some (newCompatError WDAO (DAOForkBlock c) (DAOForkBlock newcfg))
  else if IsDAOFork c head && negb (eqb (DAOForkSupport c) (DAOForkSupport newcfg)) then
    Some (newCompatError WDAOSupport (DAOForkBlock c) (DAOForkBlock newcfg))
  else if isForkIncompatible (EIP150Block c) (EIP150Block newcfg) head then
    Some (newCompatError WEIP150 (EIP150Block c) (EIP150Block newcfg))
  else if isForkIncompatible (EIP155Block c) (EIP155Block newcfg) head then
    Some (newCompatError WEIP155 (EIP155Block c) (EIP155Block newcfg))
  else if isForkIncompatible (EIP158Block c) (EIP158Block newcfg) head then
    Some (newCompatError WEIP158 (EIP158Block c) (EIP158Block newcfg))
  else if IsEIP158 c head && negb (configNumEqual (ChainID c) (ChainID newcfg)) then
    Some (newCompatError WEIP158ChainID (EIP158Block c) (EIP158Block newcfg))
  else if isForkIncompatible (ByzantiumBlock c) (ByzantiumBlock newcfg) head then
    Some (newCompatError WByzantium (ByzantiumBlock c) (ByzantiumBlock newcfg))
  else if isForkIncompatible (ConstantinopleBlock c) (ConstantinopleBlock newcfg) head then
    Some (newCompatError WConstantinople (ConstantinopleBlock c) (ConstantinopleBlock newcfg))
  else if isForkIncompatible (PetersburgBlock c) (PetersburgBlock newcfg) head
          && isForkIncompatible (ConstantinopleBlock c) (PetersburgBlock newcfg) head then
    Some (newCompatError WPetersburg (PetersburgBlock c) (PetersburgBlock newcfg))
  else if isForkIncompatible (IstanbulBlock c) (IstanbulBlock newcfg) head then
    Some (newCompatError WIstanbul (IstanbulBlock c) (IstanbulBlock newcfg))
  else if isForkIncompatible (MuirGlacierBlock c) (MuirGlacierBlock newcfg) head then
    Some (newCompatError WMuirGlacier (MuirGlacierBlock c) (MuirGlacierBlock newcfg))
  else if isForkIncompatible (YoloV2Block c) (YoloV2Block newcfg) head then
    Some (newCompatError WYoloV2 (YoloV2Block c) (YoloV2Block newcfg))
  else None.

(** The [for] loop of [CheckCompatible]; each round but the last rewinds. *)
Fixpoint compat_loop (fuel : nat) (c newcfg : ChainConfig) (bhead : Z) (lasterr : option ConfigCompatError)
  : outcome (option ConfigCompatError) :=
  match fuel with
  | O => NoFuel
  | S fuel' =>
      match checkCompatible c newcfg (Some bhead) with
      | None => Ret lasterr
      | Some err =>
          if match lasterr with Some l => RewindTo err =? RewindTo l | None => false end then Ret lasterr
          else compat_loop fuel' c newcfg (RewindTo err) (Some err)
      end
  end.
Definition CheckCompatible (fuel : nat) (c newcfg : ChainConfig) (height : Z) :=
  compat_loop fuel c newcfg height None.

(** ** Fork order: an accepted configuration activates forks in sequence *)
Lemma check_forks_step last cur fs num :
  check_forks (Some last) (cur :: fs) = None ->
  isForked (block cur) num = true -> isForked (block last) num = true.
Proof.
  simpl. destruct (block last) as [a|], (block cur) as [b|], num as [h|]; try done.
  simpl. destruct (Z.ltb_spec b a); [done|]. rewrite !Z.leb_le. lia.
Qed.

Lemma check_forks_next last cur fs :
  check_forks (Some last) (cur :: fs) = None -> optional cur = false \/ block cur <> None ->
  check_forks (Some cur) fs = None.
Proof.
  simpl. intros H Ho. case_match; [done|].
  assert (negb (optional cur) || match block cur with Some _ => true | None => false end = true) as E.
  { destruct Ho as [->|]; [done|]. destruct (block cur); [apply orb_true_r|done]. }
  by rewrite E in H.
Qed.

Lemma check_forks_skip last cur fs :
  check_forks (Some last) (cur :: fs) = None -> optional cur = true -> block cur = None ->
  check_forks (Some last) fs = None.
Proof. simpl. intros H Ho Hb. rewrite Ho, Hb in H. simpl in H. by destruct (block last). Qed.

(** An optional fork in between does not break the chain. *)
Lemma check_forks_skip_step last opt cur fs num :
  check_forks (Some last) (opt :: cur :: fs) = None -> optional opt = true -> optional cur = false ->
  (isForked (block cur) num = true -> isForked (block last) num = true) /\
  (isForked (block opt) num = true -> isForked (block last) num = true) /\
  (block opt <> None -> isForked (block cur) num = true -> isForked (block opt) num = true) /\
  check_forks (Some cur) fs = None.
Proof.
  intros H Ho Hc. pose proof (check_forks_step _ _ _ num H) as Hopt. destruct (block opt) as [b|] eqn:Eb.
  - assert (check_forks (Some opt) (cur :: fs) = None) as H' by (eapply check_forks_next; [done|right; congruence]).
    pose proof (check_forks_step _ _ _ num H') as Hcur. rewrite Eb in *. split_and!; [auto|done|done|eapply check_forks_next; eauto].
  - apply check_forks_skip in H; [|done..].
    split_and!; [|done|done|eapply check_forks_next; eauto]. intros. eapply check_forks_step; eauto.
Qed.

Definition forks_nested (c : ChainConfig) (num : option Z) : Prop :=
  let active f := f c num = true in
  (active IsYoloV2 -> active IsIstanbul) /\ (active IsIstanbul -> active IsPetersburg) /\
  (active IsPetersburg -> active IsConstantinople) /\ (active IsConstantinople -> active IsByzantium) /\
  (active IsByzantium -> active IsEIP158) /\ (active IsEIP158 -> active IsEIP155) /\
  (active IsEIP155 -> active IsEIP150) /\ (active IsEIP150 -> active IsHomestead) /\
  (* the forks that may be left out *)
  (active IsDAOFork -> active IsHomestead) /\ (DAOForkBlock c <> None -> active IsEIP150 -> active IsDAOFork) /\
  (active IsMuirGlacier -> active IsIstanbul) /\ (MuirGlacierBlock c <> None -> active IsYoloV2 -> active IsMuirGlacier).

Lemma fork_order_nested c num : CheckConfigForkOrder c = None -> forks_nested c num.
Proof.
  unfold CheckConfigForkOrder, forks. intros H.
  change (check_forks (Some (mkFork homestead (HomesteadBlock c) false))
    (tl (forks c)) = None) in H. cbn [forks tl] in H.
  destruct (check_forks_skip_step _ _ _ _ num H) as (H150 & Hdao & Hdao' & H1); [done..|].
  pose proof (check_forks_step _ _ _ num H1) as H155. apply check_forks_next in H1; [|by left].
  pose proof (check_forks_step _ _ _ num H1) as H158. apply check_forks_next in H1; [|by left].
  pose proof (check_forks_step _ _ _ num H1) as Hbyz. apply check_forks_next in H1; [|by left].
  pose proof (check_forks_step _ _ _ num H1) as Hcon. apply check_forks_next in H1; [|by left].
  pose proof (check_forks_step _ _ _ num H1) as Hpet. apply check_forks_next in H1; [|by left].
  pose proof (check_forks_step _ _ _ num H1) as Hist. apply check_forks_next in H1; [|by left].
  destruct (check_forks_skip_step _ _ _ _ num H1) as (Hyol & Hmuir & Hmuir' & _); [done..|].
  cbn [block] in *. unfold forks_nested, IsPetersburg.
  split_and!; try done.
  - intros Hi. by rewrite (Hist Hi).
  - intros Hp. apply orb_true_iff in Hp as [Hp|Hp]; [by apply Hpet|].
    destruct (PetersburgBlock c); done.
Qed.

(** ** Compatibility: the rewind loop ends *)
Lemma newCompatError_rewind w s1 s2 h :
  0 <= h < W -> isForked s1 (Some h) || isForked s2 (Some h) = true ->
  let r := RewindTo (newCompatError w s1 s2) in 0 <= r /\ (r = 0 \/ r < h).
Proof.
  intros Hh Hf. assert (Hk : forall x, 0 < x -> x <= h -> sub64 (u64 x) 1 = x - 1).
  { intros x ? ?. unfold sub64. rewrite !u64_small; unfold is_u64 in *; rewrite ?u64_small; unfold is_u64; lia. }
  apply orb_true_iff in Hf. destruct s1 as [a|], s2 as [b|]; simpl in *; destruct Hf as [Hf|Hf]; try done.
  all: try apply Z.leb_le in Hf; zbool; try (split; [lia|left; lia]); rewrite Hk by lia; lia.
Qed.

Lemma isForkIncompatible_forked s1 s2 h :
  isForkIncompatible s1 s2 h = true -> isForked s1 h || isForked s2 h = true.
Proof. unfold isForkIncompatible. rewrite andb_true_iff. by intros [? _]. Qed.

(** Decide the next [if] of the goal, keeping the equation under [H]. *)
Ltac next_if H := match goal with |- context [if ?b then _ else _] => destruct b eqn:H end.

Lemma checkCompatible_rewind c n h e :
  0 <= h < W -> checkCompatible c n (Some h) = Some e ->
  0 <= RewindTo e /\ (RewindTo e = 0 \/ RewindTo e < h).
Proof.
  intros Hh. unfold checkCompatible.
  repeat (next_if H; [intros [= <-]; apply newCompatError_rewind; [done|]; clear - H;
    first [by apply isForkIncompatible_forked | apply andb_true_iff in H as [H _];
      first [by apply isForkIncompatible_forked | by apply orb_true_iff; left]]|clear H]).
  done.
Qed.

Definition compat_post (c n : ChainConfig) (height : Z) (r : option ConfigCompatError) : Prop :=
  match r with
  | None => checkCompatible c n (Some height) = None
  | Some e => 0 <= RewindTo e <= height /\ checkCompatible c n (Some height) <> None /\
              (RewindTo e = 0 \/ checkCompatible c n (Some (RewindTo e)) = None)
  end.

Lemma compat_loop_ok c n height fuel : forall bhead l,
  0 <= bhead <= height -> height < W -> RewindTo l = bhead -> Z.of_nat fuel > bhead ->
  checkCompatible c n (Some height) <> None ->
  exists r, compat_loop fuel c n bhead (Some l) = Ret r /\ compat_post c n height r.
Proof.
  induction fuel as [|fuel IH]; intros bhead l Hb Hh Hl Hf Hc; [lia|]. simpl.
  destruct (checkCompatible c n (Some bhead)) as [e|] eqn:E.
  - destruct (checkCompatible_rewind c n bhead e) as [H0 H1]; [lia|done|].
    destruct (Z.eqb_spec (RewindTo e) (RewindTo l)) as [He|He].
    + exists (Some l). split; [done|]. simpl. split_and!; try lia; try done.
    + apply IH; try lia; try done.
  - exists (Some l). split; [done|]. simpl. rewrite Hl. split_and!; try lia; try done. by right.
Qed.

Lemma CheckCompatible_ok c n height : 0 <= height < W ->
  exists r, CheckCompatible (Z.to_nat height + 2) c n height = Ret r /\ compat_post c n height r.
Proof.
  intros Hh. unfold CheckCompatible. rewrite Nat.add_comm. simpl.
  destruct (checkCompatible c n (Some height)) as [e|] eqn:E; [|by exists None].
  destruct (checkCompatible_rewind c n height e) as [H0 H1]; [lia|done|].
  apply (compat_loop_ok c n height (S (Z.to_nat height))); [lia|lia|done|lia|congruence].
Qed.
