(* ===== verification/Stack.v ===== *)
(** * The operand stack and the return stack

    src/evm/stack.go and stack_table.go.  A stack is a list with the top
    first, so that [data[len-1-n]] is element [n].  Reading or removing an
    absent element is Go's index panic. *)

From S2P Require Import Prelude Words Uint256 Params.

Abbreviation Stack := (list Int) (only parsing).

Definition push (d : Int) (st : Stack) : Stack := d :: st.
(** The last of [ds] ends up on top. *)
Definition pushN (ds : list Int) (st : Stack) : Stack := rev ds ++ st.
Definition pop (st : Stack) : outcome (Int * Stack) :=
  match st with
  | x :: st' => Ret (x, st')
  | [] => Panic
  end.
Definition Back (n : nat) (st : Stack) : outcome Int :=
  match st !! n with Some x => Ret x | None => Panic end.
Definition peek (st : Stack) : outcome Int := Back 0 st.
(** Writing through the pointer [peek] returns. *)
Definition set_top (x : Int) (st : Stack) : outcome Stack :=
  match st with
  | _ :: st' => Ret (x :: st')
  | [] => Panic
  end.
(** [swap(n)] exchanges [data[len-n]] and [data[len-1]]. *)
Definition swap (n : nat) (st : Stack) : outcome Stack :=
  match n with
  | O => Panic
  | S i =>
      match st !! i, st !! 0%nat with
      | Some x, Some y => Ret (<[0%nat := x]> (<[i := y]> st))
      | _, _ => Panic
      end
  end.
(** [dup(n)] pushes [data[len-n]]. *)
Definition dup (n : nat) (st : Stack) : outcome Stack :=
  match n with
  | O => Panic
  | S i => x ← Back i st; Ret (push x st)
  end.

(** ** The return stack of EIP-2315: uint32 program counters *)
Definition rpush (d : Z) (st : list Z) : list Z := d :: st.
Definition rpop (st : list Z) : outcome (Z * list Z) :=
  match st with
  | x :: st' => Ret (x, st')
  | [] => Panic
  end.

(** ** stack_table.go *)
Definition maxStack (pops pushes : Z) : Z := StackLimit + pops - pushes.
Definition minStack (pops pushes : Z) : Z := pops.
Definition minSwapStack (n : Z) : Z := minStack n n.
Definition maxSwapStack (n : Z) : Z := maxStack n n.
Definition minDupStack (n : Z) : Z := minStack n (n + 1).
Definition maxDupStack (n : Z) : Z := maxStack n (n + 1).

(** ** Facts *)
(** A well-formed stack: at most 1024 words. *)
Definition stack_ok (st : Stack) : Prop :=
  Forall int_ok st /\ Z.of_nat (length st) <= StackLimit.

Lemma Back_ok n (st : Stack) : Forall int_ok st -> (n < length st)%nat ->
  exists x, Back n st = Ret x /\ int_ok x /\ st !! n = Some x.
Proof.
  intros Hf Hn. unfold Back. destruct (lookup_lt_is_Some_2 st n Hn) as [x Hx].
  exists x. rewrite Hx. split_and!; try done. by eapply Forall_lookup_1 in Hf.
Qed.

(** [swap] is a transposition of the two positions and [dup] a copy. *)
Lemma swap_spec n (st : Stack) : (n < length st)%nat ->
  exists st', swap (S n) st = Ret st' /\ length st' = length st /\
    st' !! 0%nat = st !! n /\ st' !! n = st !! 0%nat /\
    (forall i, i <> 0%nat -> i <> n -> st' !! i = st !! i).
Proof.
  intros Hn. unfold swap. destruct (lookup_lt_is_Some_2 st n Hn) as [x Hx].
  assert (Hl0 : (0 < length st)%nat) by lia.
  destruct (lookup_lt_is_Some_2 st 0 Hl0) as [y Hy].
  rewrite Hx, Hy. eexists. split; [done|]. rewrite !length_insert. split_and!; [done| | |].
  - by rewrite list_lookup_insert_eq by (rewrite length_insert; lia).
  - destruct (decide (n = 0)%nat) as [->|].
    + rewrite list_lookup_insert_eq by (rewrite length_insert; lia). congruence.
    + rewrite list_lookup_insert_ne, list_lookup_insert_eq by lia. done.
  - intros i ? ?. by rewrite !list_lookup_insert_ne by lia.
Qed.

Lemma swap_ok n (st st' : Stack) : Forall int_ok st -> swap n st = Ret st' ->
  Forall int_ok st' /\ length st' = length st.
Proof.
  intros Hf. destruct n as [|n]; [done|]. simpl.
  destruct (st !! n) eqn:Hx; [|done]. destruct (st !! 0%nat) eqn:Hy; [|done]. intros [= <-].
  rewrite !length_insert. split; [|done].
  apply Forall_insert; [apply Forall_insert; [done|]|]; by eapply Forall_lookup_1 in Hf.
Qed.
