(* ===== verification/Memory.v ===== *)
(** * Memory and its sizes

    src/evm/memory.go, common.go and memory_table.go.  Slicing past the length
    of the store is a panic here; whether Go panics depends on the capacity of
    the backing array, and the theorems show it never happens. *)

From S2P Require Import Prelude Words Uint256 Uint256Arith Uint256Div Uint256Bits Params Stack.

Record Memory := mkMemory { store : bytes; lastGasCost : Z }.

Definition NewMemory : Memory := mkMemory [] 0.
Definition Len (m : Memory) : Z := len (store m).

Definition Set_ (offset size : Z) (value : bytes) (m : Memory) : outcome Memory :=
  if 0 <? size then
    if (Len m <? add64 offset size) || negb (slice_ok offset (add64 offset size) (store m)) then Panic
    else Ret (mkMemory (copy_at offset size value (store m)) (lastGasCost m))
  else Ret m.

Definition Set32 (offset : Z) (val : Int) (m : Memory) : outcome Memory :=
  if (Len m <? add64 offset 32) || negb (slice_ok offset (add64 offset 32) (store m)) then Panic
  else
    let zeroed := copy_at offset 32 (replicate 32 0) (store m) in
    Ret (mkMemory (take (Z.to_nat offset) zeroed ++ WriteToSlice val (drop (Z.to_nat offset) zeroed))
                  (lastGasCost m)).

Definition Resize (size : Z) (m : Memory) : Memory :=
  if Len m <? size then mkMemory (store m ++ replicate (Z.to_nat (size - Len m)) 0) (lastGasCost m) else m.

(** [make([]byte, size)] and [store[offset:offset+size]] panic out of range;
    [offset] and [size] are int64. *)
Definition GetCopy (offset size : Z) (m : Memory) : outcome bytes :=
  if size =? 0 then Ret []
  else if offset <? Len m then
    if (size <? 0) || negb (slice_ok offset (offset + size) (store m)) then Panic
    else Ret (slice offset (offset + size) (store m))
  else Ret [].
Definition GetPtr (offset size : Z) (m : Memory) : outcome bytes :=
  if size =? 0 then Ret []
  else if offset <? Len m then
    if negb (slice_ok offset (offset + size) (store m)) then Panic
    else Ret (slice offset (offset + size) (store m))
  else Ret [].

(** ** common.go *)
Definition calcMemSize64WithUint (off : Int) (length64 : Z) : Z * bool :=
  if length64 =? 0 then (0, false)
  else
    let '(offset64, overflow) := Uint64WithOverflow off in
    if overflow then (0, true)
    else let val := add64 offset64 length64 in (val, val <? offset64).
Definition calcMemSize64 (off l : Int) : Z * bool :=
  if negb (IsUint64 l) then (0, true) else calcMemSize64WithUint off (Uint64 l).

(** [common.RightPadBytes]; [make] of a huge length panics, a negative [l]
    returns the slice. *)
Definition RightPadBytes (sl : bytes) (l : Z) : bytes :=
  if l <=? len sl then sl else sl ++ replicate (Z.to_nat (l - len sl)) 0.

Definition getData (data : bytes) (start size : Z) : outcome bytes :=
  let length := len data in
  let start := if length <? start then length else start in
  let e := add64 start size in
  let e := if length <? e then length else e in
  if slice_ok start e data then Ret (RightPadBytes (slice start e data) (to_int64 size)) else Panic.

Definition toWordSize (size : Z) : Z :=
  if MaxUint64 - 31 <? size then MaxUint64 / 32 + 1 else (size + 31) / 32.

Definition allZero (b : bytes) : bool := forallb (fun x => x =? 0) b.

(** ** memory_table.go *)
Definition memorySizeFunc := Stack -> outcome (Z * bool).

Definition calcBack (i j : nat) : memorySizeFunc := fun st =>
  off ← Back i st; l ← Back j st; Ret (calcMemSize64 off l).
Definition calcBackUint (i : nat) (n : Z) : memorySizeFunc := fun st =>
  off ← Back i st; Ret (calcMemSize64WithUint off n).

Definition memorySha3 : memorySizeFunc := calcBack 0 1.
Definition memoryCallDataCopy : memorySizeFunc := calcBack 0 2.
Definition memoryReturnDataCopy : memorySizeFunc := calcBack 0 2.
Definition memoryCodeCopy : memorySizeFunc := calcBack 0 2.
Definition memoryExtCodeCopy : memorySizeFunc := calcBack 1 3.
Definition memoryMLoad : memorySizeFunc := calcBackUint 0 32.
Definition memoryMStore8 : memorySizeFunc := calcBackUint 0 1.
Definition memoryMStore : memorySizeFunc := calcBackUint 0 32.
Definition memoryCreate : memorySizeFunc := calcBack 1 2.
Definition memoryCreate2 : memorySizeFunc := calcBack 1 2.
Definition memoryReturn : memorySizeFunc := calcBack 0 1.
Definition memoryRevert : memorySizeFunc := calcBack 0 1.
Definition memoryLog : memorySizeFunc := calcBack 0 1.
(** The larger of the output and the input area. *)
Definition memoryMax (fx fy : Stack -> outcome (Z * bool)) : memorySizeFunc := fun st =>
  '(x, overflow) ← fx st;
  if (overflow : bool) then Ret (0, true)
  else
    '(y, overflow) ← fy st;
    if (overflow : bool) then Ret (0, true)
    else if y <? x then Ret (x, false) else Ret (y, false).
Definition memoryCall : memorySizeFunc := memoryMax (calcBack 5 6) (calcBack 3 4).
Definition memoryDelegateCall : memorySizeFunc := memoryMax (calcBack 4 5) (calcBack 2 3).
Definition memoryStaticCall : memorySizeFunc := memoryMax (calcBack 4 5) (calcBack 2 3).

(** ** Facts *)
(** The total fee for a memory of [w] words. *)
Definition memory_fee (w : Z) : Z := MemoryGas * w + w * w / QuadCoeffDiv.
Definition max_mem : Z := 0x1FFFFFFFE0.

(** Well-formed memory: whole words, within the payable size, and the cached
    fee is the fee of its size. *)
Record mem_ok (m : Memory) : Prop := {
  mem_bytes : bytes_ok (store m);
  mem_words : Len m mod 32 = 0;
  mem_max : Len m <= max_mem;
  mem_fee : lastGasCost m = memory_fee (Len m / 32);
}.

(** The area [off, off + l) lies inside the memory. *)
Definition covered (off l : Int) (m : Memory) : Prop :=
  val l = 0 \/ val off + val l <= Len m.

Lemma len_replicate n x : len (replicate (Z.to_nat n) x) = Z.max 0 n.
Proof. unfold len. rewrite length_replicate. lia. Qed.

Lemma slice_ok_true a b l : slice_ok a b l = true <-> 0 <= a <= b /\ b <= len l.
Proof. unfold slice_ok. rewrite !andb_true_iff, !Z.leb_le. lia. Qed.

Lemma bytes_ok_replicate n : bytes_ok (replicate n 0).
Proof. apply Forall_replicate. unfold is_byte. lia. Qed.

Lemma bytes_ok_slice a b l : bytes_ok l -> bytes_ok (slice a b l).
Proof. intros. unfold slice. by apply Forall_take, Forall_drop. Qed.

Lemma copy_at_len off size src dst :
  0 <= off -> 0 <= size -> off + size <= len dst -> len (copy_at off size src dst) = len dst.
Proof.
  unfold copy_at, len. intros. rewrite !length_app, !length_take, length_drop. lia.
Qed.

Lemma copy_at_bytes off size src dst : bytes_ok src -> bytes_ok dst -> bytes_ok (copy_at off size src dst).
Proof.
  intros. unfold copy_at. rewrite !Forall_app.
  split_and!; [by apply Forall_take|by apply Forall_take|by apply Forall_drop].
Qed.

Lemma calcMemSize64WithUint_ok off n sz : int_ok off -> is_u64 n ->
  calcMemSize64WithUint off n = (sz, false) ->
  is_u64 sz /\ (n = 0 \/ val off + n = sz).
Proof.
  intros Ho Hn. unfold calcMemSize64WithUint, is_u64 in *. destruct (Z.eqb_spec n 0); [intros [= <-]; lia|].
  pose proof (val_range off Ho). rewrite Uint64WithOverflow_spec by done.
  destruct (Z.ltb_spec (val off) W); [|done]. cbn [negb]. rewrite Z.mod_small by lia.
  intros [= <- E]. pose proof (add64_range (val off) n). unfold is_u64, add64, u64 in *.
  destruct (Z.ltb_spec ((val off + n) mod W) (val off)); [done|].
  split; [lia|]. right. dlia.
Qed.

Lemma calcMemSize64_ok off l sz : int_ok off -> int_ok l ->
  calcMemSize64 off l = (sz, false) ->
  is_u64 sz /\ val l < W /\ (val l = 0 \/ val off + val l = sz).
Proof.
  intros Ho Hl. unfold calcMemSize64. rewrite IsUint64_spec by done. pose proof (val_range l Hl).
  destruct (Z.ltb_spec (val l) W); [|done]. cbn [negb].
  rewrite val_small_w0 by done. intros E. apply calcMemSize64WithUint_ok in E as [? ?]; try done.
  unfold is_u64. lia.
Qed.

Lemma to_int64_small x : 0 <= x <= max_mem -> to_int64 x = x.
Proof. unfold to_int64, max_mem. intros. destruct (Z.ltb_spec x 9223372036854775808); lia. Qed.

Lemma covered_uint64 off l m : int_ok off -> int_ok l -> val l < W -> mem_ok m -> covered off l m ->
  Uint64 l = val l /\
  (val l = 0 \/ (Uint64 off = val off /\ 0 < val l /\ 0 <= val off /\ val off + val l <= Len m <= max_mem)).
Proof.
  intros Ho Hl Hw Hm Hc. pose proof (val_range off Ho). pose proof (val_range l Hl).
  rewrite (val_small_w0 l) by done. split; [done|].
  destruct Hc as [Hc|Hc]; [by left|]. destruct (Z.eq_dec (val l) 0); [by left|]. right.
  pose proof (mem_max m Hm). unfold max_mem in *. rewrite val_small_w0 by (done || lia). lia.
Qed.

Lemma GetPtr_covered off l m : int_ok off -> int_ok l -> val l < W -> mem_ok m -> covered off l m ->
  exists bs, GetPtr (to_int64 (Uint64 off)) (to_int64 (Uint64 l)) m = Ret bs /\
    GetCopy (to_int64 (Uint64 off)) (to_int64 (Uint64 l)) m = Ret bs /\
    bytes_ok bs /\ len bs = val l /\ bs = slice (val off) (val off + val l) (store m).
Proof.
  intros Ho Hl Hw Hm Hc. destruct (covered_uint64 off l m) as [-> [E|(-> & ?&?&?)]]; try done.
  - rewrite E. exists []. split_and!; try done. unfold slice. by rewrite Z.add_0_r, Z.sub_diag.
  - rewrite !to_int64_small by lia. exists (slice (val off) (val off + val l) (store m)).
    unfold GetPtr, GetCopy, Len in *.
    destruct (Z.eqb_spec (val l) 0); [lia|]. destruct (Z.ltb_spec (val off) (len (store m))); [|lia].
    assert (slice_ok (val off) (val off + val l) (store m) = true) as -> by (apply slice_ok_true; lia).
    destruct (Z.ltb_spec (val l) 0); [lia|]. cbn [negb orb].
    split_and!; try done; [by apply bytes_ok_slice, mem_bytes|rewrite length_slice; lia].
Qed.

Lemma mem_ok_store m st : mem_ok m -> bytes_ok st -> len st = Len m -> mem_ok (mkMemory st (lastGasCost m)).
Proof. intros [] ? E. split; unfold Len in *; cbn [store lastGasCost]; rewrite ?E; done. Qed.

Lemma Set_covered off l v m : int_ok off -> int_ok l -> val l < W -> mem_ok m -> covered off l m -> bytes_ok v ->
  exists m', Set_ (Uint64 off) (Uint64 l) v m = Ret m' /\ mem_ok m' /\ Len m' = Len m /\
    store m' = if val l =? 0 then store m else copy_at (val off) (val l) v (store m).
Proof.
  intros Ho Hl Hw Hm Hc Hv. destruct (covered_uint64 off l m) as [-> [E|(-> & ?&?&?)]]; try done.
  - rewrite E. by exists m.
  - unfold Set_. destruct (Z.ltb_spec 0 (val l)); [|lia].
    rewrite add64_nowrap by (unfold is_u64, max_mem in *; lia).
    destruct (Z.ltb_spec (Len m) (val off + val l)); [lia|].
    assert (slice_ok (val off) (val off + val l) (store m) = true) as ->
      by (apply slice_ok_true; unfold Len in *; lia).
    cbn [negb orb]. destruct (Z.eqb_spec (val l) 0); [lia|].
    assert (len (copy_at (val off) (val l) v (store m)) = Len m) by (apply copy_at_len; unfold Len in *; lia).
    eexists. split; [done|]. split_and!; [|done|done].
    apply mem_ok_store; [done| |done]. apply copy_at_bytes; [done|by apply mem_bytes].
Qed.

(** [Set32] replaces exactly the 32 bytes at the offset. *)
Lemma Set32_spec offset v m : int_ok v -> 0 <= offset -> offset + 32 <= Len m -> Len m <= max_mem ->
  Set32 offset v m = Ret (mkMemory (take (Z.to_nat offset) (store m) ++ be_bytes 32 (val v)
                                    ++ drop (Z.to_nat offset + 32) (store m)) (lastGasCost m)).
Proof.
  intros Hv Ho Hl Hm. unfold Set32, Len in *. rewrite add64_nowrap by (unfold is_u64, max_mem in *; lia).
  destruct (Z.ltb_spec (len (store m)) (offset + 32)); [lia|].
  assert (slice_ok offset (offset + 32) (store m) = true) as -> by (apply slice_ok_true; lia).
  cbn [negb orb]. do 2 f_equal. unfold copy_at.
  replace (Z.min 32 (len (replicate 32 0))) with 32 by reflexivity.
  rewrite (take_ge (replicate 32 0)) by (rewrite length_replicate; lia).
  assert (Hlt : length (take (Z.to_nat offset) (store m)) = Z.to_nat offset)
    by (rewrite length_take; unfold len in *; lia).
  rewrite take_app_length' by done. rewrite drop_app_length' by done.
  rewrite WriteToSlice_ok by done. f_equal.
  rewrite drop_app_length' by (by rewrite length_replicate).
  rewrite length_app, length_replicate, Nat.min_l by lia. do 2 f_equal. lia.
Qed.

(** After the expansion to [size] bytes has been charged for, before the store
    is resized. *)
Record charged (size : Z) (m : Memory) : Prop := {
  ch_bytes : bytes_ok (store m);
  ch_words : Len m mod 32 = 0;
  ch_max : Len m <= max_mem;
  ch_size : size mod 32 = 0;
  ch_size_max : size <= max_mem;
  ch_fee : lastGasCost m = memory_fee (Z.max size (Len m) / 32);
}.

Lemma Resize_charged size m : charged size m ->
  mem_ok (Resize size m) /\ Len (Resize size m) = Z.max size (Len m).
Proof.
  intros [Hb Hw Hm Hs Hx Hf]. unfold Resize. destruct (Z.ltb_spec (Len m) size).
  - assert (E : Len (mkMemory (store m ++ replicate (Z.to_nat (size - Len m)) 0) (lastGasCost m)) = size).
    { unfold Len in *. cbn [store]. rewrite len_app, len_replicate. lia. }
    split; [|lia]. split; rewrite ?E; cbn [store lastGasCost]; try done.
    + apply Forall_app; split; [done|apply bytes_ok_replicate].
    + by rewrite Z.max_l in Hf by lia.
  - split; [|lia]. split; try done. by rewrite Z.max_r in Hf by lia.
Qed.

(** A word stored is the word loaded. *)
Lemma Set32_GetPtr offset v m m' : int_ok v -> 0 <= offset -> offset + 32 <= Len m -> Len m <= max_mem ->
  Set32 offset v m = Ret m' -> GetPtr offset 32 m' = Ret (be_bytes 32 (val v)) /\ Len m' = Len m.
Proof.
  intros Hv Ho Hl Hm. rewrite Set32_spec by done.
  pose proof (length_be_bytes 32 (val v)) as Hbl. generalize dependent (be_bytes 32 (val v)).
  intros b Hbl [= <-].
  assert (Hlt : length (take (Z.to_nat offset) (store m)) = Z.to_nat offset)
    by (rewrite length_take; unfold Len, len in *; lia).
  unfold GetPtr, Len in *. cbn [store].
  assert (E : len (take (Z.to_nat offset) (store m) ++ b
    ++ drop (Z.to_nat offset + 32) (store m)) = len (store m)).
  { unfold len in *. rewrite !length_app, Hlt, Hbl, length_drop. lia. }
  rewrite E. split; [|done]. cbn [Z.eqb]. destruct (Z.ltb_spec offset (len (store m))); [|lia].
  match goal with |- context [slice_ok ?a ?b ?l] =>
    assert (slice_ok a b l = true) as -> by (apply slice_ok_true; rewrite E; lia) end. cbn [negb].
  f_equal. unfold slice. rewrite drop_app_length' by done.
  replace (Z.to_nat (offset + 32 - offset)) with 32%nat by lia.
  by rewrite take_app_length' by done.
Qed.

(** The theorems are about slices of at most [max_slice] bytes (2^58), more
    than any machine holds. *)
Definition max_slice : Z := 0x400000000000000.

(** [getData] returns [size] bytes: those of the data, then zeros. *)
Lemma getData_spec data start size : is_u64 start -> 0 <= size <= max_slice -> len data <= max_slice ->
  getData data start size
  = Ret (slice (Z.min start (len data)) (Z.min (Z.min start (len data) + size) (len data)) data
         ++ replicate (Z.to_nat (size - (Z.min (Z.min start (len data) + size) (len data) - Z.min start (len data)))) 0).
Proof.
  intros Hs Hz Hd. unfold getData, is_u64, max_slice in *. pose proof (len_nonneg data).
  replace (if len data <? start then len data else start) with (Z.min start (len data))
    by (destruct (Z.ltb_spec (len data) start); lia).
  set (s := Z.min start (len data)).
  rewrite add64_nowrap by (unfold is_u64; lia).
  replace (if len data <? s + size then len data else s + size) with (Z.min (s + size) (len data))
    by (destruct (Z.ltb_spec (len data) (s + size)); lia).
  set (e := Z.min (s + size) (len data)).
  assert (slice_ok s e data = true) as -> by (apply slice_ok_true; lia).
  f_equal. unfold RightPadBytes. rewrite length_slice by lia.
  assert (to_int64 size = size) as -> by (unfold to_int64; destruct (Z.ltb_spec size 9223372036854775808); lia).
  destruct (Z.leb_spec size (e - s)); [|done].
  replace (Z.to_nat (size - (e - s))) with 0%nat by lia. by rewrite app_nil_r.
Qed.

Lemma getData_ok data start size : bytes_ok data -> is_u64 start -> 0 <= size <= max_slice ->
  len data <= max_slice ->
  exists d, getData data start size = Ret d /\ bytes_ok d /\ len d = size.
Proof.
  intros Hb Hs Hz Hd. rewrite getData_spec by done. eexists. split; [done|]. split.
  - apply Forall_app; split; [by apply bytes_ok_slice|apply bytes_ok_replicate].
  - pose proof (len_nonneg data). unfold is_u64 in Hs. rewrite len_app, len_replicate, length_slice by lia. lia.
Qed.

Lemma toWordSize_spec size : is_u64 size -> toWordSize size = (size + 31) / 32.
Proof.
  unfold is_u64, toWordSize, MaxUint64. intros H. destruct (Z.ltb_spec (W - 1 - 31) size); [|done]. dlia.
Qed.
