(* ===== verification/Analysis.v ===== *)
(** * JUMPDEST analysis

    src/evm/analysis.go.  The bit vector marks the bytes of a program that are
    arguments of a PUSH; bit [pos mod 8] of a byte counts from its top. *)

From S2P Require Import Prelude Words Opcodes.

Abbreviation bitvec := (list Z) (only parsing).

(** [bits[i] |= m]; an index out of range panics. *)
Definition or_byte (i m : Z) (bits : bitvec) : outcome bitvec :=
  match bits !! Z.to_nat i with
  | Some b => Ret (<[Z.to_nat i := Z.lor b m]> bits)
  | None => Panic
  end.
Definition set (pos : Z) (bits : bitvec) : outcome bitvec :=
  or_byte (pos / 8) (Z.shiftr 0x80 (pos mod 8)) bits.
Definition set8 (pos : Z) (bits : bitvec) : outcome bitvec :=
  bits ← or_byte (pos / 8) (Z.shiftr 0xFF (pos mod 8)) bits;
  or_byte (pos / 8 + 1) (0xFF - Z.shiftr 0xFF (pos mod 8)) bits.
Definition codeSegment (bits : bitvec) (pos : Z) : outcome bool :=
  match bits !! Z.to_nat (pos / 8) with
  | Some b => Ret (Z.land b (Z.shiftr 0x80 (pos mod 8)) =? 0)
  | None => Panic
  end.

(** [for ; numbits >= 8; numbits -= 8], at most 4 rounds, and
    [for ; numbits > 0; numbits--], at most 7. *)
Fixpoint set8_loop (fuel : nat) (numbits pc : Z) (bits : bitvec) : outcome (Z * Z * bitvec) :=
  if 8 <=? numbits then
    match fuel with
    | O => NoFuel
    | S fuel' => bits ← set8 pc bits; set8_loop fuel' (numbits - 8) (pc + 8) bits
    end
  else Ret (numbits, pc, bits).
Fixpoint set_loop (fuel : nat) (numbits pc : Z) (bits : bitvec) : outcome (Z * bitvec) :=
  if 0 <? numbits then
    match fuel with
    | O => NoFuel
    | S fuel' => bits ← set pc bits; set_loop fuel' (numbits - 1) (pc + 1) bits
    end
  else Ret (pc, bits).

(** [for pc < len(code)]: each round advances [pc]. *)
Fixpoint bitmap_loop (fuel : nat) (code : bytes) (pc : Z) (bits : bitvec) : outcome bitvec :=
  if pc <? len code then
    match fuel with
    | O => NoFuel
    | S fuel' =>
        let op := code !!! Z.to_nat pc in
        if IsPush op then
          let numbits := op - PUSH1 + 1 in
          '(numbits, pc, bits) ← set8_loop 4 numbits (pc + 1) bits;
          '(pc, bits) ← set_loop 7 numbits pc bits;
          bitmap_loop fuel' code pc bits
        else bitmap_loop fuel' code (pc + 1) bits
    end
  else Ret bits.
Definition codeBitmap (code : bytes) : outcome bitvec :=
  bitmap_loop (length code) code 0 (replicate (Z.to_nat (len code / 8 + 1 + 4)) 0).

(** ** Specification: the instruction starts of a program *)
Definition instr_len (op : Z) : Z := if IsPush op then op - PUSH1 + 2 else 1.
Inductive instr_at (code : bytes) : Z -> Prop :=
| instr_first : instr_at code 0
| instr_next p op : instr_at code p -> code !! Z.to_nat p = Some op -> instr_at code (p + instr_len op).

Lemma instr_len_pos op : 1 <= instr_len op <= 33.
Proof. unfold instr_len, IsPush, PUSH1, PUSH32. zbool; simpl; lia. Qed.

Lemma instr_at_nonneg code p : instr_at code p -> 0 <= p.
Proof. induction 1 as [|p op]; [lia|]. pose proof (instr_len_pos op). lia. Qed.

(** No instruction starts inside another one. *)
Lemma instr_at_sparse code q : instr_at code q -> forall p op,
  instr_at code p -> code !! Z.to_nat p = Some op -> q <= p \/ p + instr_len op <= q.
Proof.
  induction 1 as [|q opq Hq IHq Hopq]; intros p op Hp Hop.
  - left. by apply instr_at_nonneg in Hp.
  - pose proof (instr_len_pos op). pose proof (instr_len_pos opq).
    destruct (IHq p op Hp Hop) as [Hle|Hle]; [|right; lia].
    destruct (Z.eq_dec q p) as [->|Hne]; [right; simplify_eq; lia|]. left.
    assert (Hlt : q < p) by lia. clear Hle Hne Hop. revert Hlt.
    induction Hp as [|p0 op0 Hp0 IHp Hop0]; intros Hlt; [apply instr_at_nonneg in Hq; lia|].
    pose proof (instr_len_pos op0).
    destruct (Z.lt_trichotomy q p0) as [Hc|[->|Hc]].
    + specialize (IHp Hc). lia.
    + simplify_eq. lia.
    + destruct (IHq p0 op0 Hp0 Hop0); lia.
Qed.

(** ** Bits *)
Definition bit (bits : bitvec) (pos : Z) : bool :=
  match bits !! Z.to_nat (pos / 8) with
  | Some b => Z.testbit b (7 - pos mod 8)
  | None => false
  end.

(** The masks, by cases on the two offsets in a byte. *)
Lemma mask_bits k r : 0 <= k < 8 -> 0 <= r < 8 ->
  Z.testbit (Z.shiftr 0x80 k) (7 - r) = (r =? k) /\
  Z.testbit (Z.shiftr 0xFF k) (7 - r) = (k <=? r) /\
  Z.testbit (0xFF - Z.shiftr 0xFF k) (7 - r) = (r <? k).
Proof.
  intros Hk Hr.
  assert (H : forallb (fun k => forallb (fun r =>
    eqb (Z.testbit (Z.shiftr 0x80 k) (7 - r)) (r =? k) &&
    eqb (Z.testbit (Z.shiftr 0xFF k) (7 - r)) (k <=? r) &&
    eqb (Z.testbit (0xFF - Z.shiftr 0xFF k) (7 - r)) (r <? k)) (seqZ 0 8)) (seqZ 0 8) = true)
    by (vm_compute; reflexivity).
  rewrite forallb_forall in H. specialize (H k). rewrite forallb_forall in H.
  specialize (H ltac:(apply list_elem_of_In, elem_of_seqZ; lia) r ltac:(apply list_elem_of_In, elem_of_seqZ; lia)).
  rewrite !andb_true_iff, !eqb_true_iff in H. tauto.
Qed.

Lemma or_byte_spec i m bits : 0 <= i < len bits ->
  exists bits', or_byte i m bits = Ret bits' /\ length bits' = length bits /\
    forall q, 0 <= q -> bit bits' q = bit bits q || ((q / 8 =? i) && Z.testbit m (7 - q mod 8)).
Proof.
  intros Hi. unfold or_byte. unfold len in Hi.
  destruct (lookup_lt_is_Some_2 bits (Z.to_nat i)) as [b Hb]; [lia|].
  rewrite Hb. eexists. split; [done|]. split; [apply length_insert|]. intros q Hq. unfold bit.
  destruct (Z.eqb_spec (q / 8) i) as [->|Hne].
  - rewrite list_lookup_insert_eq, Hb by lia. rewrite Z.lor_spec. done.
  - rewrite list_lookup_insert_ne by dlia. by rewrite orb_false_r.
Qed.

Lemma set_spec pos bits : 0 <= pos < 8 * len bits ->
  exists bits', set pos bits = Ret bits' /\ length bits' = length bits /\
    forall q, 0 <= q -> bit bits' q = bit bits q || (q =? pos).
Proof.
  intros Hp. unfold set. destruct (or_byte_spec (pos / 8) (Z.shiftr 0x80 (pos mod 8)) bits)
    as (b & -> & Hl & Hb); [dlia|].
  exists b. split_and!; try done. intros q Hq. rewrite Hb by done. f_equal.
  destruct (mask_bits (pos mod 8) (q mod 8)) as [-> _]; [dlia..|]. zbool; try done; dlia.
Qed.

Lemma set8_spec pos bits : 0 <= pos -> pos + 8 < 8 * len bits ->
  exists bits', set8 pos bits = Ret bits' /\ length bits' = length bits /\
    forall q, 0 <= q -> bit bits' q = bit bits q || ((pos <=? q) && (q <? pos + 8)).
Proof.
  intros Hp Hl8. unfold set8.
  destruct (or_byte_spec (pos / 8) (Z.shiftr 0xFF (pos mod 8)) bits) as (b & -> & Hl & Hb); [dlia|].
  simpl. destruct (or_byte_spec (pos / 8 + 1) (0xFF - Z.shiftr 0xFF (pos mod 8)) b) as (b' & -> & Hl' & Hb').
  { unfold len in *. rewrite Hl. dlia. }
  exists b'. split_and!; [done|congruence|]. intros q Hq. rewrite Hb', Hb by done.
  rewrite <- orb_assoc. f_equal.
  destruct (mask_bits (pos mod 8) (q mod 8)) as (_ & -> & ->); [dlia..|]. zbool; try done; dlia.
Qed.

Lemma codeSegment_bit bits pos : 0 <= pos < 8 * len bits -> codeSegment bits pos = Ret (negb (bit bits pos)).
Proof.
  intros Hp. unfold codeSegment, bit. unfold len in Hp.
  destruct (lookup_lt_is_Some_2 bits (Z.to_nat (pos / 8))) as [b ->]; [dlia|]. f_equal.
  set (k := pos mod 8). assert (Hk : 0 <= k < 8) by (unfold k; dlia).
  assert (Z.shiftr 0x80 k = 2 ^ (7 - k)) as ->.
  { assert (k = 0 \/ k = 1 \/ k = 2 \/ k = 3 \/ k = 4 \/ k = 5 \/ k = 6 \/ k = 7) as Hc by lia.
    destruct Hc as [->|[->|[->|[->|[->|[->|[->| ->]]]]]]]; reflexivity. }
  destruct (Z.testbit b (7 - k)) eqn:E; simpl.
  - apply Z.eqb_neq. intros H0. assert (Z.testbit (Z.land b (2 ^ (7 - k))) (7 - k) = true) as Ht
      by (rewrite Z.land_spec, E, Z.pow2_bits_true by lia; done).
    rewrite H0, Z.bits_0 in Ht. done.
  - apply Z.eqb_eq, Z.bits_inj'. intros i Hi. rewrite Z.land_spec, Z.bits_0.
    destruct (Z.eq_dec i (7 - k)) as [->|]; [by rewrite E|]. rewrite Z.pow2_bits_false by lia. apply andb_false_r.
Qed.

(** ** The loops *)
Lemma set8_loop_spec fuel : forall numbits pc bits,
  0 <= numbits < 8 * (Z.of_nat fuel + 1) -> 0 <= pc -> pc + numbits < 8 * len bits ->
  exists nb pc' bits', set8_loop fuel numbits pc bits = Ret (nb, pc', bits') /\
    0 <= nb < 8 /\ pc' + nb = pc + numbits /\ pc <= pc' /\ length bits' = length bits /\
    forall q, 0 <= q -> bit bits' q = bit bits q || ((pc <=? q) && (q <? pc')).
Proof.
  induction fuel as [|fuel IH]; intros numbits pc bits Hn Hpc Hb; cbn [set8_loop];
    destruct (Z.leb_spec 8 numbits); try lia.
  1, 3: exists numbits, pc, bits; split_and!; try done; try lia; intros q Hq; zbool; try lia; by rewrite orb_false_r.
  destruct (set8_spec pc bits) as (b & -> & Hl & Hs); [lia|lia|]. simpl.
  destruct (IH (numbits - 8) (pc + 8) b) as (nb & pc' & bits' & -> & ?&?&?&Hl'&Hs');
    [lia|lia|unfold len in *; lia|].
  exists nb, pc', bits'. split_and!; try done; try lia. intros q Hq. rewrite Hs', Hs by done.
  rewrite <- orb_assoc. f_equal. zbool; try done; lia.
Qed.

Lemma set_loop_spec fuel : forall numbits pc bits,
  0 <= numbits <= Z.of_nat fuel -> 0 <= pc -> pc + numbits <= 8 * len bits ->
  exists bits', set_loop fuel numbits pc bits = Ret (pc + numbits, bits') /\ length bits' = length bits /\
    forall q, 0 <= q -> bit bits' q = bit bits q || ((pc <=? q) && (q <? pc + numbits)).
Proof.
  induction fuel as [|fuel IH]; intros numbits pc bits Hn Hpc Hb; cbn [set_loop];
    destruct (Z.ltb_spec 0 numbits); try lia.
  1, 3: exists bits; split_and!; try done; [by replace (pc + numbits) with pc by lia|];
    intros q Hq; zbool; try lia; by rewrite orb_false_r.
  destruct (set_spec pc bits) as (b & -> & Hl & Hs); [lia|]. simpl.
  destruct (IH (numbits - 1) (pc + 1) b) as (bits' & -> & Hl' & Hs'); [lia|lia|unfold len in *; lia|].
  exists bits'. split_and!; [do 2 f_equal; lia|congruence|]. intros q Hq. rewrite Hs', Hs by done.
  rewrite <- orb_assoc. f_equal. zbool; try done; lia.
Qed.

(** Below [pc] exactly the instruction starts are unmarked; from [pc] on
    nothing is marked. *)
Definition bitmap_inv (code bits : bytes) (pc : Z) : Prop :=
  instr_at code pc /\
  (forall q, 0 <= q < pc -> bit bits q = false <-> instr_at code q) /\
  (forall q, pc <= q -> bit bits q = false).

Lemma bitmap_inv_step code bits bits' pc op :
  bitmap_inv code bits pc -> code !! Z.to_nat pc = Some op ->
  (forall q, 0 <= q -> bit bits' q = bit bits q || ((pc + 1 <=? q) && (q <? pc + instr_len op))) ->
  bitmap_inv code bits' (pc + instr_len op).
Proof.
  intros (Hi & Hlo & Hhi) Hop Hb. pose proof (instr_len_pos op). pose proof (instr_at_nonneg _ _ Hi).
  split; [by apply instr_next|]. split.
  - intros q Hq. rewrite Hb by lia. destruct (Z.lt_ge_cases q pc).
    + destruct (Z.leb_spec (pc + 1) q); [lia|]. rewrite orb_false_r. apply Hlo. lia.
    + rewrite Hhi by lia. simpl. destruct (Z.eq_dec q pc) as [->|].
      * destruct (Z.leb_spec (pc + 1) pc); [lia|]. done.
      * destruct (Z.leb_spec (pc + 1) q); [|lia]. destruct (Z.ltb_spec q (pc + instr_len op)); [|lia]. simpl.
        split; [done|]. intros Hq'. destruct (instr_at_sparse code q Hq' pc op Hi Hop); lia.
  - intros q Hq. rewrite Hb, Hhi by lia. simpl. destruct (Z.ltb_spec q (pc + instr_len op)); [lia|].
    apply andb_false_r.
Qed.

Lemma bitmap_loop_spec code : forall fuel pc bits,
  bytes_ok code -> bitmap_inv code bits pc -> len code - pc <= Z.of_nat fuel ->
  len bits = len code / 8 + 5 ->
  exists bits' pc', bitmap_loop fuel code pc bits = Ret bits' /\ len bits' = len code / 8 + 5 /\
    len code <= pc' /\ bitmap_inv code bits' pc'.
Proof.
  induction fuel as [|fuel IH]; intros pc bits Hc Hinv Hf Hlen; cbn [bitmap_loop];
    destruct (Z.ltb_spec pc (len code)); try lia.
  1, 3: by exists bits, pc.
  pose proof (instr_at_nonneg _ _ (proj1 Hinv)) as H0.
  assert (Hop : code !! Z.to_nat pc = Some (code !!! Z.to_nat pc))
    by (apply list_lookup_lookup_total_lt; unfold len in *; lia).
  set (op := code !!! Z.to_nat pc) in *. pose proof (instr_len_pos op) as Hil.
  pose proof (bitmap_inv_step code bits) as Hstep.
  destruct (IsPush op) eqn:Hp.
  - assert (Hn : instr_len op = op - PUSH1 + 2) by (unfold instr_len; by rewrite Hp).
    assert (1 <= op - PUSH1 + 1 <= 32)
      by (unfold IsPush in Hp; apply andb_true_iff in Hp as [? ?]; unfold PUSH1, PUSH32 in *; lia).
    destruct (set8_loop_spec 4 (op - PUSH1 + 1) (pc + 1) bits) as (nb & pc1 & b1 & -> & ?&?&?&Hl1&Hb1); [lia|lia|dlia|].
    cbn [mbind outcome_bind]. destruct (set_loop_spec 7 nb pc1 b1) as (b2 & -> & Hl2 & Hb2); [lia|lia|unfold len in *; dlia|].
    cbn [mbind outcome_bind]. replace (pc1 + nb) with (pc + instr_len op) by lia.
    apply IH; try done; [|lia|unfold len in *; lia].
    apply (Hstep b2); [done|done|]. intros q Hq. rewrite Hb2, Hb1 by done. rewrite <- orb_assoc. f_equal.
    zbool; try done; lia.
  - assert (Hn : instr_len op = 1) by (unfold instr_len; by rewrite Hp).
    rewrite <- Hn. apply IH; try done; [|lia].
    apply (Hstep bits); [done|done|]. intros q Hq. rewrite Hn. zbool; try lia; by rewrite orb_false_r.
Qed.

(** [codeBitmap] neither panics nor loops, and a position of the code is in a
    code segment exactly when an instruction starts there. *)
Lemma codeBitmap_ok code : bytes_ok code ->
  exists bits, codeBitmap code = Ret bits /\ len bits = len code / 8 + 5 /\
    forall pos, 0 <= pos < len code ->
      exists b, codeSegment bits pos = Ret b /\ (b = true <-> instr_at code pos).
Proof.
  intros Hc. unfold codeBitmap. assert (0 <= len code) by (unfold len; lia).
  set (init := replicate _ 0).
  assert (Hlen : len init = len code / 8 + 5) by (unfold len, init; rewrite length_replicate; unfold len in *; dlia).
  destruct (bitmap_loop_spec code (length code) 0 init) as (bits & pc' & -> & Hl & Hpc & Hinv);
    [done| |unfold len; lia|done|].
  { split; [constructor|]. split; [lia|]. intros q Hq. unfold bit, init.
    destruct (replicate _ 0 !! _) as [b|] eqn:E; [|done].
    apply lookup_replicate in E as [-> _]. apply Z.bits_0. }
  exists bits. split_and!; try done. intros pos Hpos. exists (negb (bit bits pos)).
  split; [apply codeSegment_bit; dlia|]. destruct Hinv as (_ & Hlo & _).
  rewrite negb_true_iff. apply Hlo. lia.
Qed.
