(* ===== verification/State.v ===== *)
(** * Contracts, the state database interface, and the machine state

    src/evm/contract.go, interface.go, errors.go and errors/errors.go, and the
    records of evm.go and interpreter.go that the other components share.

    The JUMPDEST cache [jumpdests] is one Go map that every contract of a call
    tree points to; it is a field of the [EVM] here, replaced by an empty map
    when a contract is made for a caller that is not itself a contract. *)

From S2P Require Import Prelude Words Uint256 Params Config Stack Memory Opcodes Analysis.

(** ** Errors *)
Inductive error :=
| ErrInvalidSubroutineEntry | ErrOutOfGas | ErrCodeStoreOutOfGas | ErrDepth | ErrInsufficientBalance
| ErrContractAddressCollision | ErrExecutionReverted | ErrMaxCodeSizeExceeded | ErrInvalidJump
| ErrWriteProtection | ErrReturnDataOutOfBounds | ErrGasUintOverflow | ErrInvalidRetsub
| ErrReturnStackExceeded
| ErrStackUnderflow (stackLen required : Z)
| ErrStackOverflow (stackLen limit : Z)
| ErrInvalidOpCode (opcode : Z)
| ErrReentrancySentry
| ErrPrecompile (code : Z).
#[export] Instance error_eq_dec : EqDecision error.
Proof. solve_decision. Defined.
Definition is_err (e : option error) (x : error) : bool := bool_decide (e = Some x).

(** ** Contracts *)
Record Contract := mkContract {
  CallerAddress : Address;
  self : Address;
  analysis : option bytes;
  Code : bytes;
  CodeHash : Hash;
  CodeAddr : option Address;
  Input : bytes;
  Gas : Z;
  value : option Z;
}.
Inductive ContractRef :=
| AccountRef (a : Address)
| ContractCaller (c : Contract).
Definition RefAddress (r : ContractRef) : Address :=
  match r with AccountRef a => a | ContractCaller c => self c end.

Definition jumpdest_map := gmap (list Z) (list Z).

(** The new contract, and the cache it uses. *)
Definition NewContract (caller : ContractRef) (object : Address) (value : option Z) (gas : Z)
  (jumpdests : jumpdest_map) : Contract * jumpdest_map :=
  (mkContract (RefAddress caller) object None [] zero_hash None [] gas value,
   match caller with ContractCaller _ => jumpdests | AccountRef _ => ∅ end).

Definition set_gas (g : Z) (c : Contract) : Contract :=
  mkContract (CallerAddress c) (self c) (analysis c) (Code c) (CodeHash c) (CodeAddr c) (Input c) g (value c).
Definition set_input (i : bytes) (c : Contract) : Contract :=
  mkContract (CallerAddress c) (self c) (analysis c) (Code c) (CodeHash c) (CodeAddr c) i (Gas c) (value c).
Definition set_analysis (a : option bytes) (c : Contract) : Contract :=
  mkContract (CallerAddress c) (self c) a (Code c) (CodeHash c) (CodeAddr c) (Input c) (Gas c) (value c).

Definition SetCallCode (addr : Address) (hash : Hash) (code : bytes) (c : Contract) : Contract :=
  mkContract (CallerAddress c) (self c) (analysis c) code hash (Some addr) (Input c) (Gas c) (value c).
Definition AsDelegate (caller : ContractRef) (c : Contract) : outcome Contract :=
  match caller with
  | ContractCaller parent =>
      Ret (mkContract (CallerAddress parent) (self c) (analysis c) (Code c) (CodeHash c) (CodeAddr c)
             (Input c) (Gas c) (value parent))
  | AccountRef _ => Panic
  end.
Definition GetByte (c : Contract) (n : Z) : Z :=
  if n <? len (Code c) then Code c !!! Z.to_nat n else 0.
Definition GetOp (c : Contract) (n : Z) : Z := GetByte c n.
(** [UseGas]: whether the gas sufficed, and the contract after. *)
Definition UseGas (gas : Z) (c : Contract) : bool * Contract :=
  if Gas c <? gas then (false, c) else (true, set_gas (sub64 (Gas c) gas) c).

(** [analysis.codeSegment(udest)].  A bitmap from the shared cache belongs to
    other code when two codes have the same hash; the index panic this can
    cause is labelled [PHash]. *)
Definition segment (a : bytes) (c : Contract) (udest : Z) : outcome bool :=
  match codeSegment a udest with
  | PanicAt _ => PanicAt (if len a =? len (Code c) / 8 + 5 then PCode else PHash)
  | r => r
  end.
(** [isCode], with the contract's and the shared cache. *)
Definition isCode (udest : Z) (c : Contract) (jumpdests : jumpdest_map)
  : outcome (bool * Contract * jumpdest_map) :=
  match analysis c with
  | Some a => b ← segment a c udest; Ret (b, c, jumpdests)
  | None =>
      if negb (bool_decide (CodeHash c = zero_hash)) then
        '(a, j) ← match jumpdests !! CodeHash c with
                  | Some a => Ret (a, jumpdests)
                  | None => a ← codeBitmap (Code c); Ret (a, <[CodeHash c := a]> jumpdests)
                  end;
        b ← segment a c udest; Ret (b, set_analysis (Some a) c, j)
      else
        a ← codeBitmap (Code c);
        b ← segment a c udest; Ret (b, set_analysis (Some a) c, jumpdests)
  end.
Definition validJumpdest (dest : Int) (c : Contract) (j : jumpdest_map)
  : outcome (bool * Contract * jumpdest_map) :=
  let '(udest, overflow) := Uint64WithOverflow dest in
  if overflow || (len (Code c) <=? udest) then Ret (false, c, j)
  else if negb (Code c !!! Z.to_nat udest =? JUMPDEST) then Ret (false, c, j)
  else isCode udest c j.
Definition validJumpSubdest (udest : Z) (c : Contract) (j : jumpdest_map)
  : outcome (bool * Contract * jumpdest_map) :=
  if (to_int64 udest <? 0) || (len (Code c) <=? udest) then Ret (false, c, j)
  else if negb (Code c !!! Z.to_nat udest =? BEGINSUB) then Ret (false, c, j)
  else isCode udest c j.

(** ** The state database

    The [StateDB] interface.  A method may panic ([None]); a nil [*big.Int],
    which every caller dereferences, counts as a panic of the method. *)
Record StorageLog := mkLog { LogAddress : Address; Topics : list Hash; LogData : bytes }.

Class StateDB (S : Type) := {
  CreateAccount : Address -> S -> option (() * S);
  SubBalance : Address -> Z -> S -> option (() * S);
  AddBalance : Address -> Z -> S -> option (() * S);
  GetBalance : Address -> S -> option (Z * S);
  GetNonce : Address -> S -> option (Z * S);
  SetNonce : Address -> Z -> S -> option (() * S);
  GetCodeHash : Address -> S -> option (Hash * S);
  GetCode : Address -> S -> option (bytes * S);
  SetCode : Address -> bytes -> S -> option (() * S);
  GetCodeSize : Address -> S -> option (Z * S);
  AddRefund : Z -> S -> option (() * S);
  SubRefund : Z -> S -> option (() * S);
  GetRefund : S -> option (Z * S);
  GetCommittedState : Address -> Hash -> S -> option (Hash * S);
  GetState : Address -> Hash -> S -> option (Hash * S);
  SetState : Address -> Hash -> Hash -> S -> option (() * S);
  Suicide : Address -> S -> option (bool * S);
  HasSuicided : Address -> S -> option (bool * S);
  Exist : Address -> S -> option (bool * S);
  Empty : Address -> S -> option (bool * S);
  RevertToSnapshot : Z -> S -> option (() * S);
  Snapshot : S -> option (Z * S);
  AddLog : StorageLog -> S -> option (() * S);
  AddPreimage : Hash -> bytes -> S -> option (() * S);
}.

Definition is_slice (b : bytes) : Prop := bytes_ok b /\ len b <= max_slice.

(** ** What a database promises

    [ok] is an invariant of its states, [same] says that two states show the
    same world (accounts, storage, logs, refund counter), and [saved s id s0]
    that snapshot [id] of [s] holds the world of [s0].  A method keeps the
    invariant and the saved snapshots, and its result has the Go type; unless
    it [writes], it leaves the world alone. *)
Section Methods.
Context {S : Type} (ok : S -> Prop) (same : S -> S -> Prop) (saved : S -> Z -> S -> Prop).
Definition keeps_saved (s s' : S) : Prop := forall j s0, saved s j s0 -> saved s' j s0.
Definition method {A} (writes : bool) (P : A -> Prop) (m : S -> option (A * S)) : Prop :=
  forall s a s', ok s -> m s = Some (a, s') ->
    ok s' /\ P a /\ keeps_saved s s' /\ (writes = false -> same s s').
End Methods.
Definition any {A} (_ : A) : Prop := True.

Class StateDBSpec (S : Type) `{StateDB S} := {
  db_ok : S -> Prop;
  same_world : S -> S -> Prop;
  saved : S -> Z -> S -> Prop;
  same_world_equiv : Equivalence same_world;
  CreateAccount_spec a : method db_ok same_world saved true any (CreateAccount a);
  CreateAccount_fresh a s s1 s2 u : db_ok s -> Exist a s = Some (false, s1) -> CreateAccount a s1 = Some (u, s2) ->
    same_world s1 s2;
  SubBalance_spec a v : method db_ok same_world saved true any (SubBalance a v);
  AddBalance_spec a v : method db_ok same_world saved true any (AddBalance a v);
  AddBalance_zero a : method db_ok same_world saved false any (AddBalance a 0);
  SubBalance_zero a : method db_ok same_world saved false any (SubBalance a 0);
  GetBalance_spec a : method db_ok same_world saved false any (GetBalance a);
  GetNonce_spec a : method db_ok same_world saved false is_u64 (GetNonce a);
  SetNonce_spec a n : is_u64 n -> method db_ok same_world saved true any (SetNonce a n);
  GetCodeHash_spec a : method db_ok same_world saved false is_hash (GetCodeHash a);
  GetCode_spec a : method db_ok same_world saved false is_slice (GetCode a);
  SetCode_spec a b : is_slice b -> method db_ok same_world saved true any (SetCode a b);
  GetCodeSize_spec a : method db_ok same_world saved false (fun n => 0 <= n <= max_slice) (GetCodeSize a);
  AddRefund_spec g : is_u64 g -> method db_ok same_world saved true any (AddRefund g);
  SubRefund_spec g : is_u64 g -> method db_ok same_world saved true any (SubRefund g);
  GetRefund_spec : method db_ok same_world saved false is_u64 GetRefund;
  GetRefund_again s r s1 r' s2 : db_ok s -> GetRefund s = Some (r, s1) -> GetRefund s1 = Some (r', s2) -> r' = r;
  GetCommittedState_spec a k : method db_ok same_world saved false is_hash (GetCommittedState a k);
  GetState_spec a k : method db_ok same_world saved false is_hash (GetState a k);
  SetState_spec a k v : is_hash v -> method db_ok same_world saved true any (SetState a k v);
  Suicide_spec a : method db_ok same_world saved true any (Suicide a);
  HasSuicided_spec a : method db_ok same_world saved false any (HasSuicided a);
  Exist_spec a : method db_ok same_world saved false any (Exist a);
  Empty_spec a : method db_ok same_world saved false any (Empty a);
  AddLog_spec l : method db_ok same_world saved true any (AddLog l);
  AddPreimage_spec h b : method db_ok same_world saved false any (AddPreimage h b);
  Snapshot_spec s id s' : db_ok s -> Snapshot s = Some (id, s') ->
    db_ok s' /\ same_world s s' /\ saved s' id s /\ forall j s0, saved s j s0 -> j < id /\ saved s' j s0;
  RevertToSnapshot_spec id s u s' : db_ok s -> RevertToSnapshot id s = Some (u, s') ->
    db_ok s' /\ forall s0, saved s id s0 ->
      same_world s0 s' /\ forall j s1, j < id -> saved s j s1 -> saved s' j s1;
}.
#[export] Existing Instance same_world_equiv.
Abbreviation db_method := (method db_ok same_world saved).
Create HintDb statedb.
#[export] Hint Resolve CreateAccount_spec SubBalance_spec AddBalance_spec GetBalance_spec GetNonce_spec
  SetNonce_spec GetCodeHash_spec GetCode_spec SetCode_spec GetCodeSize_spec AddRefund_spec SubRefund_spec
  GetRefund_spec GetCommittedState_spec GetState_spec SetState_spec Suicide_spec HasSuicided_spec Exist_spec
  Empty_spec AddLog_spec AddPreimage_spec : statedb.

(** ** The environment of an execution: the parts of the EVM that do not change *)
Inductive ret_slice := Fresh (b : bytes) | InputSlice.
Record PrecompiledContract := mkPrecompiled {
  RequiredGas : bytes -> option Z;
  RunP : bytes -> option (ret_slice * option error);
}.

Record Env (S : Type) := mkEnv {
  CanTransfer : Address -> Z -> S -> option (bool * S);
  Transfer : Address -> Address -> Z -> S -> option (() * S);
  GetHash : Z -> Hash;
  Coinbase : Address;
  GasLimit : Z;
  BlockNumber : Z;
  Time : Z;
  Difficulty : Z;
  Origin : Address;
  GasPrice : Z;
  configChainID : option Z;
  chainRules : Rules;
  NoRecursion : bool;
  EnablePreimageRecording : bool;
  precompile : Address -> option PrecompiledContract;
  keccak256 : bytes -> Hash;
  CreateAddress : Address -> Z -> Address;
  abort_at : nat -> bool;
}.
Arguments CanTransfer {S}. Arguments Transfer {S}. Arguments GetHash {S}. Arguments Coinbase {S}.
Arguments GasLimit {S}. Arguments BlockNumber {S}. Arguments Time {S}. Arguments Difficulty {S}.
Arguments Origin {S}. Arguments GasPrice {S}. Arguments configChainID {S}. Arguments chainRules {S}.
Arguments NoRecursion {S}. Arguments EnablePreimageRecording {S}. Arguments precompile {S}.
Arguments keccak256 {S}. Arguments CreateAddress {S}. Arguments abort_at {S}.

(** ** The mutable state *)
(** The [EVM] and its [EVMInterpreter]; [polls] counts the reads of the abort
    flag, whose [n]th value [abort_at n] another goroutine decides. *)
Record EVM (S : Type) := mkEVM {
  statedb : S;
  depth : Z;
  callGasTemp : Z;
  readOnly : bool;
  returnData : bytes;
  jumpdests : jumpdest_map;
  polls : nat;
}.
Arguments mkEVM {S}. Arguments statedb {S}. Arguments depth {S}. Arguments callGasTemp {S}.
Arguments readOnly {S}. Arguments returnData {S}. Arguments jumpdests {S}. Arguments polls {S}.

(** The locals of one [Run]: program counter, [callCtx], and the EVM. *)
Record Ctx (S : Type) := mkCtx {
  pc : Z;
  stack : list Int;
  memory : Memory;
  rstack : list Z;
  contract : Contract;
  evm : EVM S;
}.
Arguments mkCtx {S}. Arguments pc {S}. Arguments stack {S}. Arguments memory {S}.
Arguments rstack {S}. Arguments contract {S}. Arguments evm {S}.

Section Setters.
Context {S : Type}.
Definition set_statedb (s : S) (e : EVM S) : EVM S :=
  mkEVM s (depth e) (callGasTemp e) (readOnly e) (returnData e) (jumpdests e) (polls e).
Definition set_depth (d : Z) (e : EVM S) : EVM S :=
  mkEVM (statedb e) d (callGasTemp e) (readOnly e) (returnData e) (jumpdests e) (polls e).
Definition set_callGasTemp (g : Z) (e : EVM S) : EVM S :=
  mkEVM (statedb e) (depth e) g (readOnly e) (returnData e) (jumpdests e) (polls e).
Definition set_readOnly (r : bool) (e : EVM S) : EVM S :=
  mkEVM (statedb e) (depth e) (callGasTemp e) r (returnData e) (jumpdests e) (polls e).
Definition set_returnData (d : bytes) (e : EVM S) : EVM S :=
  mkEVM (statedb e) (depth e) (callGasTemp e) (readOnly e) d (jumpdests e) (polls e).
Definition set_jumpdests (j : jumpdest_map) (e : EVM S) : EVM S :=
  mkEVM (statedb e) (depth e) (callGasTemp e) (readOnly e) (returnData e) j (polls e).
Definition set_polls (n : nat) (e : EVM S) : EVM S :=
  mkEVM (statedb e) (depth e) (callGasTemp e) (readOnly e) (returnData e) (jumpdests e) n.

Definition set_pc (p : Z) (c : Ctx S) : Ctx S :=
  mkCtx p (stack c) (memory c) (rstack c) (contract c) (evm c).
Definition set_stack (st : list Int) (c : Ctx S) : Ctx S :=
  mkCtx (pc c) st (memory c) (rstack c) (contract c) (evm c).
Definition set_memory (m : Memory) (c : Ctx S) : Ctx S :=
  mkCtx (pc c) (stack c) m (rstack c) (contract c) (evm c).
Definition set_rstack (r : list Z) (c : Ctx S) : Ctx S :=
  mkCtx (pc c) (stack c) (memory c) r (contract c) (evm c).
Definition set_contract (k : Contract) (c : Ctx S) : Ctx S :=
  mkCtx (pc c) (stack c) (memory c) (rstack c) k (evm c).
Definition set_evm (e : EVM S) (c : Ctx S) : Ctx S :=
  mkCtx (pc c) (stack c) (memory c) (rstack c) (contract c) e.

(** A method of the database as a computation on the EVM, a computation on
    the EVM as one on the whole state. *)
Definition db {A} (m : S -> option (A * S)) : M (EVM S) A := fun e =>
  match m (statedb e) with
  | Some (a, s) => Ret (a, set_statedb s e)
  | None => PanicAt PState
  end.
Definition onEVM {A} (m : M (EVM S) A) : M (Ctx S) A := fun c =>
  '(a, e) ← m (evm c); Ret (a, set_evm e c).
Definition onDB {A} (m : S -> option (A * S)) : M (Ctx S) A := onEVM (db m).

Definition popM : M (Ctx S) Int := fun c =>
  '(x, st) ← pop (stack c); Ret (x, set_stack st c).
Definition peekM : M (Ctx S) Int := fun c => x ← peek (stack c); Ret (x, c).
Definition BackM (n : nat) : M (Ctx S) Int := fun c => x ← Back n (stack c); Ret (x, c).
Definition set_topM (x : Int) : M (Ctx S) () := fun c =>
  st ← set_top x (stack c); Ret ((), set_stack st c).
Definition pushM (x : Int) : M (Ctx S) () := modify (fun c => set_stack (push x (stack c)) c).
Definition useGasM (g : Z) : M (Ctx S) bool := fun c =>
  let '(ok, k) := UseGas g (contract c) in Ret (ok, set_contract k c).
End Setters.
