(* ===== verification/GasTable.v ===== *)
(** * Gas

    src/evm/gas.go ([callGas]) and gas_table.go.  A [gasFunc] may change the
    memory's cached fee, the refund counter and [callGasTemp], so it is a
    computation on the whole state; it returns the gas and an error. *)

From S2P Require Import Prelude Words Uint256 Uint256Arith Uint256Div Uint256Bits Params Config Stack Memory.
From S2P Require Import Opcodes State.

Definition callGas (isEip150 : bool) (availableGas base : Z) (callCost : Int) : Z * option error :=
  let rest :=
    if negb (IsUint64 callCost) then (0, Some ErrGasUintOverflow) else (Uint64 callCost, None) in
  if isEip150 then
    let availableGas := sub64 availableGas base in
    let gas := sub64 availableGas (availableGas / 64) in
    if negb (IsUint64 callCost) || (gas <? Uint64 callCost) then (gas, None) else rest
  else rest.

(** [memoryGasCost]: the fee, and the memory with its new cached total. *)
Definition memoryGasCost (mem : Memory) (newMemSize : Z) : Z * option error * Memory :=
  if newMemSize =? 0 then (0, None, mem)
  else if 0x1FFFFFFFE0 <? newMemSize then (0, Some ErrGasUintOverflow, mem)
  else
    let newMemSizeWords := toWordSize newMemSize in
    let newMemSize := mul64 newMemSizeWords 32 in
    if Len mem <? newMemSize then
      let square := mul64 newMemSizeWords newMemSizeWords in
      let linCoef := mul64 newMemSizeWords MemoryGas in
      let quadCoef := square / QuadCoeffDiv in
      let newTotalFee := add64 linCoef quadCoef in
      let fee := sub64 newTotalFee (lastGasCost mem) in
      (fee, None, mkMemory (store mem) newTotalFee)
    else (0, None, mem).

Section GasTable.
Context {S : Type} `{StateDB S}.

Definition gasFunc := Env S -> Z -> M (Ctx S) (Z * option error).

Definition memGas (memorySize : Z) : M (Ctx S) (Z * option error) := fun c =>
  let '(gas, err, m) := memoryGasCost (memory c) memorySize in Ret ((gas, err), set_memory m c).
(** [gas, overflow = math.SafeAdd(gas, x); if overflow ...] *)
Definition addGas (gas x : Z) : M (Ctx S) (Z * option error) :=
  let '(gas, overflow) := SafeAdd gas x in
  mret (if overflow then (0, Some ErrGasUintOverflow) else (gas, None)).
(** Early return on an error. *)
Definition onOk (m : M (Ctx S) (Z * option error)) (k : Z -> M (Ctx S) (Z * option error))
  : M (Ctx S) (Z * option error) :=
  '(gas, err) ← m;
  match err with Some e => mret (0, Some e) | None => k gas end.

(** Words of the operand at a stack position, priced per word, added to
    the memory fee: memoryCopierGas, gasSha3, gasCreate2. *)
Definition wordGas (stackpos : nat) (perWord : Z) : gasFunc := fun env memorySize =>
  onOk (memGas memorySize) (fun gas =>
    x ← BackM stackpos;
    let '(words, overflow) := Uint64WithOverflow x in
    if overflow then mret (0, Some ErrGasUintOverflow)
    else
      let '(words, overflow) := SafeMul (toWordSize words) perWord in
      if overflow then mret (0, Some ErrGasUintOverflow)
      else addGas gas words).
Definition memoryCopierGas (stackpos : nat) : gasFunc := wordGas stackpos CopyGas.
Definition gasCallDataCopy : gasFunc := memoryCopierGas 2.
Definition gasCodeCopy : gasFunc := memoryCopierGas 2.
Definition gasExtCodeCopy : gasFunc := memoryCopierGas 3.
Definition gasReturnDataCopy : gasFunc := memoryCopierGas 2.
Definition gasSha3 : gasFunc := wordGas 1 Sha3WordGas.
Definition gasCreate2 : gasFunc := wordGas 2 Sha3WordGas.

Definition pureMemoryGascost : gasFunc := fun env memorySize => memGas memorySize.
Definition gasReturn : gasFunc := pureMemoryGascost.
Definition gasRevert : gasFunc := pureMemoryGascost.
Definition gasMLoad : gasFunc := pureMemoryGascost.
Definition gasMStore8 : gasFunc := pureMemoryGascost.
Definition gasMStore : gasFunc := pureMemoryGascost.
Definition gasCreate : gasFunc := pureMemoryGascost.

Definition isZeroHash (h : Hash) : bool := bool_decide (h = zero_hash).

Definition gasSStore : gasFunc := fun env memorySize =>
  y ← BackM 1; x ← BackM 0;
  k ← gets contract;
  current ← onDB (GetState (self k) (Bytes32 x));
  if rIsPetersburg (chainRules env) || negb (rIsConstantinople (chainRules env)) then
    if isZeroHash current && negb (Sign y =? 0) then mret (SstoreSetGas, None)
    else if negb (isZeroHash current) && (Sign y =? 0) then
      _ ← onDB (AddRefund SstoreRefundGas); mret (SstoreClearGas, None)
    else mret (SstoreResetGas, None)
  else
    let value := Bytes32 y in
    if bool_decide (current = value) then mret (NetSstoreNoopGas, None)
    else
      original ← onDB (GetCommittedState (self k) (Bytes32 x));
      if bool_decide (original = current) then
        if isZeroHash original then mret (NetSstoreInitGas, None)
        else
          _ ← (if isZeroHash value then onDB (AddRefund NetSstoreClearRefund) else mret ());
          mret (NetSstoreCleanGas, None)
      else
        _ ← (if negb (isZeroHash original) then
               if isZeroHash current then onDB (SubRefund NetSstoreClearRefund)
               else if isZeroHash value then onDB (AddRefund NetSstoreClearRefund) else mret ()
             else mret ());
        _ ← (if bool_decide (original = value) then
               if isZeroHash original then onDB (AddRefund NetSstoreResetClearRefund)
               else onDB (AddRefund NetSstoreResetRefund)
             else mret ());
        mret (NetSstoreDirtyGas, None).

Definition gasSStoreEIP2200 : gasFunc := fun env memorySize =>
  k ← gets contract;
  if Gas k <=? SstoreSentryGasEIP2200 then mret (0, Some ErrReentrancySentry)
  else
    y ← BackM 1; x ← BackM 0;
    current ← onDB (GetState (self k) (Bytes32 x));
    let value := Bytes32 y in
    if bool_decide (current = value) then mret (SloadGasEIP2200, None)
    else
      original ← onDB (GetCommittedState (self k) (Bytes32 x));
      if bool_decide (original = current) then
        if isZeroHash original then mret (SstoreSetGasEIP2200, None)
        else
          _ ← (if isZeroHash value then onDB (AddRefund SstoreClearsScheduleRefundEIP2200) else mret ());
          mret (SstoreResetGasEIP2200, None)
      else
        _ ← (if negb (isZeroHash original) then
               if isZeroHash current then onDB (SubRefund SstoreClearsScheduleRefundEIP2200)
               else if isZeroHash value then onDB (AddRefund SstoreClearsScheduleRefundEIP2200) else mret ()
             else mret ());
        _ ← (if bool_decide (original = value) then
               if isZeroHash original then onDB (AddRefund (SstoreSetGasEIP2200 - SloadGasEIP2200))
               else onDB (AddRefund (SstoreResetGasEIP2200 - SloadGasEIP2200))
             else mret ());
        mret (SloadGasEIP2200, None).

Definition makeGasLog (n : Z) : gasFunc := fun env memorySize =>
  x ← BackM 1;
  let '(requestedSize, overflow) := Uint64WithOverflow x in
  if overflow then mret (0, Some ErrGasUintOverflow)
  else
    onOk (memGas memorySize) (fun gas =>
    onOk (addGas gas LogGas) (fun gas =>
    onOk (addGas gas (mul64 n LogTopicGas)) (fun gas =>
      let '(memorySizeGas, overflow) := SafeMul requestedSize LogDataGas in
      if overflow then mret (0, Some ErrGasUintOverflow)
      else addGas gas memorySizeGas))).

Definition gasExp (perByte : Z) : gasFunc := fun env memorySize =>
  x ← BackM 1;
  let expByteLen := (BitLen x + 7) / 8 in
  addGas (mul64 expByteLen perByte) ExpGas.
Definition gasExpFrontier : gasFunc := gasExp ExpByteFrontier.
Definition gasExpEIP158 : gasFunc := gasExp ExpByteEIP158.

(** The common end of the gas functions of the calls: reserve the callee's
    gas in [callGasTemp] and add it. *)
Definition reserveCallGas (env : Env S) (gas : Z) : M (Ctx S) (Z * option error) :=
  k ← gets contract;
  x ← BackM 0;
  let '(temp, err) := callGas (rIsEIP150 (chainRules env)) (Gas k) gas x in
  _ ← onEVM (modify (set_callGasTemp temp));
  match err with
  | Some e => mret (0, Some e)
  | None => addGas gas temp
  end.
Definition gasCall : gasFunc := fun env memorySize =>
  v ← BackM 2; a ← BackM 1;
  let transfersValue := negb (IsZero v) in
  let address := Bytes20 a in
  gas ← (if rIsEIP158 (chainRules env) then
           if transfersValue then
             empty ← onDB (Empty address);
             mret (if empty : bool then CallNewAccountGas else 0)
           else mret 0
         else
           exist ← onDB (Exist address);
           mret (if negb exist then CallNewAccountGas else 0));
  let gas := if transfersValue then add64 gas CallValueTransferGas else gas in
  onOk (memGas memorySize) (fun memoryGas =>
  onOk (addGas gas memoryGas) (fun gas => reserveCallGas env gas)).
Definition gasCallCode : gasFunc := fun env memorySize =>
  onOk (memGas memorySize) (fun memoryGas =>
    v ← BackM 2;
    let gas := if negb (Sign v =? 0) then CallValueTransferGas else 0 in
    onOk (addGas gas memoryGas) (fun gas => reserveCallGas env gas)).
Definition gasDelegateCall : gasFunc := fun env memorySize =>
  onOk (memGas memorySize) (fun gas => reserveCallGas env gas).
Definition gasStaticCall : gasFunc := fun env memorySize =>
  onOk (memGas memorySize) (fun gas => reserveCallGas env gas).

Definition gasSelfdestruct : gasFunc := fun env memorySize =>
  k ← gets contract;
  gas ← (if rIsEIP150 (chainRules env) then
           a ← BackM 0;
           let address := Bytes20 a in
           extra ← (if rIsEIP158 (chainRules env) then
                      empty ← onDB (Empty address);
                      if empty : bool then
                        bal ← onDB (GetBalance (self k));
                        mret (if negb (bal =? 0) then CreateBySelfdestructGas else 0)
                      else mret 0
                    else
                      exist ← onDB (Exist address);
                      mret (if negb exist then CreateBySelfdestructGas else 0));
           mret (add64 SelfdestructGasEIP150 extra)
         else mret 0);
  suicided ← onDB (HasSuicided (self k));
  _ ← (if negb suicided then onDB (AddRefund SelfdestructRefundGas) else mret ());
  mret (gas, None).
End GasTable.
