(* ===== verification/Instructions.v ===== *)
(** * Instructions

    src/evm/instructions.go and the opcodes of eips.go: one computation on the
    machine state per [executionFunc].  It yields the instruction's result
    bytes and error; a nil result is the empty list.  The calls an instruction
    makes back into the EVM are the fields of [Calls].

    A callee may return the very slice it was given as input
    ([ret_slice.InputSlice]).  For a CALL that slice is a window of the caller's
    memory, so the result is read from memory after the output area has been
    written, as [CopyBytes] does in the interpreter. *)

From S2P Require Import Prelude Words Uint256 Params Config Stack Memory Opcodes Analysis State.

Record Calls (S : Type) := mkCalls {
  cCall : ContractRef -> Address -> bytes -> Z -> Z -> M (EVM S) (ret_slice * Z * option error);
  cCallCode : ContractRef -> Address -> bytes -> Z -> Z -> M (EVM S) (ret_slice * Z * option error);
  cDelegateCall : ContractRef -> Address -> bytes -> Z -> M (EVM S) (ret_slice * Z * option error);
  cStaticCall : ContractRef -> Address -> bytes -> Z -> M (EVM S) (ret_slice * Z * option error);
  cCreate : ContractRef -> bytes -> Z -> Z -> M (EVM S) (bytes * Address * Z * option error);
  cCreate2 : ContractRef -> bytes -> Z -> Z -> Int -> M (EVM S) (bytes * Address * Z * option error);
}.
Arguments cCall {S}. Arguments cCallCode {S}. Arguments cDelegateCall {S}. Arguments cStaticCall {S}.
Arguments cCreate {S}. Arguments cCreate2 {S}.

Section Instructions.
Context {S : Type} `{StateDB S}.

Definition executionFunc := Env S -> Calls S -> M (Ctx S) (bytes * option error).
Definition nothing : M (Ctx S) (bytes * option error) := mret ([], None).
Definition fail (e : error) : M (Ctx S) (bytes * option error) := mret ([], Some e).

(** [x, y := stack.pop(), stack.peek(); y.F(&x, y)] *)
Definition binop (f : Int -> Int -> outcome Int) : executionFunc := fun env calls =>
  x ← popM; y ← peekM;
  z ← lift (f x y);
  _ ← set_topM z; nothing.
Definition pure2 (f : Int -> Int -> Int) : Int -> Int -> outcome Int := fun x y => Ret (f x y).
Definition cond2 (f : Int -> Int -> bool) : Int -> Int -> outcome Int :=
  fun x y => Ret (if f x y then SetOne else Clear).
(** An operation in place on the top word. *)
Definition unop (f : Int -> outcome Int) : executionFunc := fun env calls =>
  x ← peekM; z ← lift (f x); _ ← set_topM z; nothing.

Definition opAdd : executionFunc := binop (pure2 Add).
Definition opSub : executionFunc := binop (pure2 Sub).
Definition opMul : executionFunc := binop (pure2 Mul).
Definition opDiv : executionFunc := binop Div.
Definition opSdiv : executionFunc := binop SDiv.
Definition opMod : executionFunc := binop Mod.
Definition opSmod : executionFunc := binop SMod.
Definition opExp : executionFunc := binop (pure2 Exp).
Definition opSignExtend : executionFunc := binop (pure2 (fun back num => ExtendSign num back)).
Definition opNot : executionFunc := unop (fun x => Ret (Not x)).
Definition opLt : executionFunc := binop (cond2 Lt).
Definition opGt : executionFunc := binop (cond2 Gt).
Definition opSlt : executionFunc := binop (cond2 Slt).
Definition opSgt : executionFunc := binop (cond2 Sgt).
Definition opEq : executionFunc := binop (cond2 Eq).
Definition opIszero : executionFunc := unop (fun x => Ret (if IsZero x then SetOne else Clear)).
Definition opAnd : executionFunc := binop (pure2 And).
Definition opOr : executionFunc := binop (pure2 Or).
Definition opXor : executionFunc := binop (pure2 Xor).
Definition opByte : executionFunc := binop (pure2 (fun th val => Byte val th)).
Definition opAddmod : executionFunc := fun env calls =>
  x ← popM; y ← popM; z ← peekM;
  r ← lift (if IsZero z then Ret Clear else AddMod x y z);
  _ ← set_topM r; nothing.
Definition opMulmod : executionFunc := fun env calls =>
  x ← popM; y ← popM; z ← peekM;
  r ← lift (MulMod x y z);
  _ ← set_topM r; nothing.
Definition opSHL : executionFunc :=
  binop (pure2 (fun shift value => if LtUint64 shift 256 then Lsh value (Uint64 shift) else Clear)).
Definition opSHR : executionFunc :=
  binop (pure2 (fun shift value => if LtUint64 shift 256 then Rsh value (Uint64 shift) else Clear)).
Definition opSAR : executionFunc :=
  binop (pure2 (fun shift value =>
    if GtUint64 shift 256 then if 0 <=? Sign value then Clear else SetAllOne
    else SRsh value (Uint64 shift))).

Definition opSha3 : executionFunc := fun env calls =>
  offset ← popM; size ← peekM;
  m ← gets memory;
  data ← lift (GetPtr (to_int64 (Uint64 offset)) (to_int64 (Uint64 size)) m);
  let hasherBuf := keccak256 env data in
  _ ← (if EnablePreimageRecording env then onDB (AddPreimage hasherBuf data) else mret ());
  z ← lift (SetBytes hasherBuf);
  _ ← set_topM z; nothing.

(** [stack.push(new(uint256.Int).SetBytes(b))] *)
Definition pushBytes (b : bytes) : M (Ctx S) (bytes * option error) :=
  z ← lift (SetBytes b); _ ← pushM z; nothing.
Definition pushBig (b : Z) : M (Ctx S) (bytes * option error) :=
  _ ← pushM (FromBig b).1; nothing.
Definition pushUint64 (n : Z) : M (Ctx S) (bytes * option error) :=
  _ ← pushM (SetUint64 n); nothing.

Definition opAddress : executionFunc := fun env calls => k ← gets contract; pushBytes (self k).
Definition opBalance : executionFunc := fun env calls =>
  slot ← peekM;
  b ← onDB (GetBalance (Bytes20 slot));
  _ ← set_topM (SetFromBig b).1; nothing.
Definition opOrigin : executionFunc := fun env calls => pushBytes (Origin env).
Definition opCaller : executionFunc := fun env calls => k ← gets contract; pushBytes (CallerAddress k).
(** [FromBig] dereferences its argument. *)
Definition opCallValue : executionFunc := fun env calls =>
  k ← gets contract;
  match value k with Some v => pushBig v | None => panic end.
Definition opCallDataLoad : executionFunc := fun env calls =>
  x ← peekM; k ← gets contract;
  let '(offset, overflow) := Uint64WithOverflow x in
  z ← (if overflow then mret Clear
       else data ← lift (getData (Input k) offset 32); lift (SetBytes data));
  _ ← set_topM z; nothing.
Definition opCallDataSize : executionFunc := fun env calls =>
  k ← gets contract; pushUint64 (len (Input k)).
Definition memSet (offset size : Int) (v : bytes) : M (Ctx S) () := fun c =>
  m ← Set_ (Uint64 offset) (Uint64 size) v (memory c); Ret ((), set_memory m c).
Definition offset64 (x : Int) : Z :=
  let '(o, overflow) := Uint64WithOverflow x in if overflow then 0xffffffffffffffff else o.
Definition opCallDataCopy : executionFunc := fun env calls =>
  memOffset ← popM; dataOffset ← popM; length ← popM;
  k ← gets contract;
  d ← lift (getData (Input k) (offset64 dataOffset) (Uint64 length));
  _ ← memSet memOffset length d; nothing.
Definition opReturnDataSize : executionFunc := fun env calls =>
  e ← gets evm; pushUint64 (len (returnData e)).
Definition opReturnDataCopy : executionFunc := fun env calls =>
  memOffset ← popM; dataOffset ← popM; length ← popM;
  e ← gets evm;
  let '(offset64, overflow) := Uint64WithOverflow dataOffset in
  if overflow then fail ErrReturnDataOutOfBounds
  else
    let '(end64, overflow) := Uint64WithOverflow (Add dataOffset length) in
    if overflow || (len (returnData e) <? end64) then fail ErrReturnDataOutOfBounds
    else if negb (slice_ok offset64 end64 (returnData e)) then panic
    else _ ← memSet memOffset length (slice offset64 end64 (returnData e)); nothing.
Definition opExtCodeSize : executionFunc := fun env calls =>
  slot ← peekM;
  n ← onDB (GetCodeSize (Bytes20 slot));
  _ ← set_topM (SetUint64 n); nothing.
Definition opCodeSize : executionFunc := fun env calls =>
  k ← gets contract; pushUint64 (len (Code k)).
Definition opCodeCopy : executionFunc := fun env calls =>
  memOffset ← popM; codeOffset ← popM; length ← popM;
  k ← gets contract;
  d ← lift (getData (Code k) (offset64 codeOffset) (Uint64 length));
  _ ← memSet memOffset length d; nothing.
Definition opExtCodeCopy : executionFunc := fun env calls =>
  a ← popM; memOffset ← popM; codeOffset ← popM; length ← popM;
  code ← onDB (GetCode (Bytes20 a));
  d ← lift (getData code (offset64 codeOffset) (Uint64 length));
  _ ← memSet memOffset length d; nothing.
Definition opExtCodeHash : executionFunc := fun env calls =>
  slot ← peekM;
  empty ← onDB (Empty (Bytes20 slot));
  z ← (if empty : bool then mret Clear
       else h ← onDB (GetCodeHash (Bytes20 slot)); lift (SetBytes h));
  _ ← set_topM z; nothing.
Definition opGasprice : executionFunc := fun env calls => pushBig (GasPrice env).
Definition opBlockhash : executionFunc := fun env calls =>
  num ← peekM;
  let '(num64, overflow) := Uint64WithOverflow num in
  if overflow then _ ← set_topM Clear; nothing
  else
    let upper := u64 (BlockNumber env) in
    let lower := if upper <? 257 then 0 else sub64 upper 256 in
    z ← (if (lower <=? num64) && (num64 <? upper) then lift (SetBytes (GetHash env num64)) else mret Clear);
    _ ← set_topM z; nothing.
Definition opCoinbase : executionFunc := fun env calls => pushBytes (Coinbase env).
Definition opTimestamp : executionFunc := fun env calls => pushBig (Time env).
Definition opNumber : executionFunc := fun env calls => pushBig (BlockNumber env).
Definition opDifficulty : executionFunc := fun env calls => pushBig (Difficulty env).
Definition opGasLimit : executionFunc := fun env calls => pushUint64 (GasLimit env).
Definition opPop : executionFunc := fun env calls => _ ← popM; nothing.
Definition opMload : executionFunc := fun env calls =>
  v ← peekM; m ← gets memory;
  b ← lift (GetPtr (to_int64 (Uint64 v)) 32 m);
  z ← lift (SetBytes b);
  _ ← set_topM z; nothing.
Definition opMstore : executionFunc := fun env calls =>
  mStart ← popM; val ← popM;
  m ← gets memory;
  m' ← lift (Set32 (Uint64 mStart) val m);
  _ ← modify (set_memory m'); nothing.
Definition opMstore8 : executionFunc := fun env calls =>
  off ← popM; val ← popM;
  m ← gets memory;
  if Uint64 off <? Len m then
    _ ← modify (set_memory (mkMemory (<[Z.to_nat (Uint64 off) := Uint64 val mod 256]> (store m)) (lastGasCost m)));
    nothing
  else panic.
Definition opSload : executionFunc := fun env calls =>
  loc ← peekM; k ← gets contract;
  v ← onDB (GetState (self k) (Bytes32 loc));
  z ← lift (SetBytes v);
  _ ← set_topM z; nothing.
Definition opSstore : executionFunc := fun env calls =>
  loc ← popM; val ← popM; k ← gets contract;
  _ ← onDB (SetState (self k) (Bytes32 loc) (Bytes32 val)); nothing.

(** ** Jumps *)
Definition checkDest (f : Contract -> jumpdest_map -> outcome (bool * Contract * jumpdest_map))
  : M (Ctx S) bool := fun c =>
  '(b, k, j) ← f (contract c) (jumpdests (evm c));
  Ret (b, set_evm (set_jumpdests j (evm c)) (set_contract k c)).
Definition opJump : executionFunc := fun env calls =>
  pos ← popM;
  ok ← checkDest (validJumpdest pos);
  if negb ok then fail ErrInvalidJump
  else _ ← modify (set_pc (Uint64 pos)); nothing.
Definition opJumpi : executionFunc := fun env calls =>
  pos ← popM; cond ← popM;
  if negb (IsZero cond) then
    ok ← checkDest (validJumpdest pos);
    if negb ok then fail ErrInvalidJump
    else _ ← modify (set_pc (Uint64 pos)); nothing
  else _ ← modify (fun c => set_pc (add64 (pc c) 1) c); nothing.
Definition opJumpdest : executionFunc := fun env calls => nothing.
Definition opBeginSub : executionFunc := fun env calls => fail ErrInvalidSubroutineEntry.
Definition opJumpSub : executionFunc := fun env calls =>
  rs ← gets rstack;
  if 1023 <=? Z.of_nat (length rs) then fail ErrReturnStackExceeded
  else
    pos ← popM;
    if negb (IsUint64 pos) then fail ErrInvalidJump
    else
      let posU64 := Uint64 pos in
      ok ← checkDest (validJumpSubdest posU64);
      if negb ok then fail ErrInvalidJump
      else
        _ ← modify (fun c => set_rstack (rpush (pc c mod 2 ^ 32) (rstack c)) c);
        _ ← modify (set_pc (add64 posU64 1)); nothing.
Definition opReturnSub : executionFunc := fun env calls =>
  rs ← gets rstack;
  if Z.of_nat (length rs) =? 0 then fail ErrInvalidRetsub
  else
    '(p, rs') ← lift (rpop rs);
    _ ← modify (set_rstack rs');
    _ ← modify (set_pc (add64 p 1)); nothing.
Definition opPc : executionFunc := fun env calls => p ← gets pc; pushUint64 p.
Definition opMsize : executionFunc := fun env calls => m ← gets memory; pushUint64 (Len m).
Definition opGas : executionFunc := fun env calls => k ← gets contract; pushUint64 (Gas k).

(** ** Calls and creations *)
Definition returnGasM (g : Z) : M (Ctx S) () :=
  modify (fun c => set_contract (set_gas (add64 (Gas (contract c)) g) (contract c)) c).

Definition opCreate : executionFunc := fun env calls =>
  value ← popM; offset ← popM; size ← popM;
  m ← gets memory;
  input ← lift (GetCopy (to_int64 (Uint64 offset)) (to_int64 (Uint64 size)) m);
  k ← gets contract;
  let gas := if rIsEIP150 (chainRules env) then sub64 (Gas k) (Gas k / 64) else Gas k in
  _ ← useGasM gas;
  let bigVal := if IsZero value then 0 else ToBig value in
  k ← gets contract;
  '(res, addr, returnGas, suberr) ← onEVM (cCreate calls (ContractCaller k) input gas bigVal);
  stackvalue ←
    (if rIsHomestead (chainRules env) && is_err suberr ErrCodeStoreOutOfGas then mret Clear
     else if bool_decide (suberr <> None) && negb (is_err suberr ErrCodeStoreOutOfGas) then mret Clear
     else lift (SetBytes addr));
  _ ← pushM stackvalue;
  _ ← returnGasM returnGas;
  if is_err suberr ErrExecutionReverted then mret (res, None) else nothing.

Definition opCreate2 : executionFunc := fun env calls =>
  endowment ← popM; offset ← popM; size ← popM; salt ← popM;
  m ← gets memory;
  input ← lift (GetCopy (to_int64 (Uint64 offset)) (to_int64 (Uint64 size)) m);
  k ← gets contract;
  let gas := sub64 (Gas k) (Gas k / 64) in
  _ ← useGasM gas;
  let bigEndowment := if IsZero endowment then 0 else ToBig endowment in
  k ← gets contract;
  '(res, addr, returnGas, suberr) ← onEVM (cCreate2 calls (ContractCaller k) input gas bigEndowment salt);
  stackvalue ← (if bool_decide (suberr <> None) then mret Clear else lift (SetBytes addr));
  _ ← pushM stackvalue;
  _ ← returnGasM returnGas;
  if is_err suberr ErrExecutionReverted then mret (res, None) else nothing.

(** The end of the four CALL instructions: push the flag, write the output
    area, take back the gas, return the callee's result. *)
Definition finishCall (inOffset inSize retOffset retSize : Int) (args : bytes)
  (r : ret_slice * Z * option error) : M (Ctx S) (bytes * option error) :=
  let '(ret, returnGas, err) := r in
  _ ← pushM (match err with Some _ => Clear | None => SetOne end);
  _ ← (if bool_decide (err = None) || is_err err ErrExecutionReverted then
         memSet retOffset retSize (match ret with Fresh b => b | InputSlice => args end)
       else mret ());
  _ ← returnGasM returnGas;
  m ← gets memory;
  res ← match ret with
        | Fresh b => mret b
        | InputSlice => lift (GetPtr (to_int64 (Uint64 inOffset)) (to_int64 (Uint64 inSize)) m)
        end;
  mret (res, None).
Definition getArgs (inOffset inSize : Int) : M (Ctx S) bytes :=
  m ← gets memory; lift (GetPtr (to_int64 (Uint64 inOffset)) (to_int64 (Uint64 inSize)) m).

Definition opCall : executionFunc := fun env calls =>
  temp ← popM;
  e ← gets evm; let gas := callGasTemp e in
  addr ← popM; value ← popM; inOffset ← popM; inSize ← popM; retOffset ← popM; retSize ← popM;
  args ← getArgs inOffset inSize;
  let gas := if negb (IsZero value) then add64 gas CallStipend else gas in
  let bigVal := if negb (IsZero value) then ToBig value else 0 in
  k ← gets contract;
  r ← onEVM (cCall calls (ContractCaller k) (Bytes20 addr) args gas bigVal);
  finishCall inOffset inSize retOffset retSize args r.
Definition opCallCode : executionFunc := fun env calls =>
  temp ← popM;
  e ← gets evm; let gas := callGasTemp e in
  addr ← popM; value ← popM; inOffset ← popM; inSize ← popM; retOffset ← popM; retSize ← popM;
  args ← getArgs inOffset inSize;
  let gas := if negb (IsZero value) then add64 gas CallStipend else gas in
  let bigVal := if negb (IsZero value) then ToBig value else 0 in
  k ← gets contract;
  r ← onEVM (cCallCode calls (ContractCaller k) (Bytes20 addr) args gas bigVal);
  finishCall inOffset inSize retOffset retSize args r.
Definition opDelegateCall : executionFunc := fun env calls =>
  temp ← popM;
  e ← gets evm; let gas := callGasTemp e in
  addr ← popM; inOffset ← popM; inSize ← popM; retOffset ← popM; retSize ← popM;
  args ← getArgs inOffset inSize;
  k ← gets contract;
  r ← onEVM (cDelegateCall calls (ContractCaller k) (Bytes20 addr) args gas);
  finishCall inOffset inSize retOffset retSize args r.
Definition opStaticCall : executionFunc := fun env calls =>
  temp ← popM;
  e ← gets evm; let gas := callGasTemp e in
  addr ← popM; inOffset ← popM; inSize ← popM; retOffset ← popM; retSize ← popM;
  args ← getArgs inOffset inSize;
  k ← gets contract;
  r ← onEVM (cStaticCall calls (ContractCaller k) (Bytes20 addr) args gas);
  finishCall inOffset inSize retOffset retSize args r.

Definition opReturn : executionFunc := fun env calls =>
  offset ← popM; size ← popM; m ← gets memory;
  ret ← lift (GetPtr (to_int64 (Uint64 offset)) (to_int64 (Uint64 size)) m);
  mret (ret, None).
Definition opRevert : executionFunc := fun env calls =>
  offset ← popM; size ← popM; m ← gets memory;
  ret ← lift (GetPtr (to_int64 (Uint64 offset)) (to_int64 (Uint64 size)) m);
  mret (ret, None).
Definition opStop : executionFunc := fun env calls => nothing.
Definition opSuicide : executionFunc := fun env calls =>
  beneficiary ← popM; k ← gets contract;
  balance ← onDB (GetBalance (self k));
  _ ← onDB (AddBalance (Bytes20 beneficiary) balance);
  _ ← onDB (Suicide (self k)); nothing.

(** ** LOG, PUSH, DUP, SWAP *)
Fixpoint popTopics (size : nat) : M (Ctx S) (list Hash) :=
  match size with
  | O => mret []
  | Datatypes.S n => addr ← popM; ts ← popTopics n; mret (Bytes32 addr :: ts)
  end.
Definition makeLog (size : nat) : executionFunc := fun env calls =>
  mStart ← popM; mSize ← popM;
  topics ← popTopics size;
  m ← gets memory;
  d ← lift (GetCopy (to_int64 (Uint64 mStart)) (to_int64 (Uint64 mSize)) m);
  k ← gets contract;
  _ ← onDB (AddLog (mkLog (self k) topics d)); nothing.
Definition opPush1 : executionFunc := fun env calls =>
  _ ← modify (fun c => set_pc (add64 (pc c) 1) c);
  p ← gets pc; k ← gets contract;
  if p <? len (Code k) then pushUint64 (Code k !!! Z.to_nat p) else _ ← pushM Clear; nothing.
Definition makePush (size pushByteSize : Z) : executionFunc := fun env calls =>
  p ← gets pc; k ← gets contract;
  let codeLen := len (Code k) in
  let p1 := to_int64 (add64 p 1) in
  let startMin := if p1 <? codeLen then p1 else codeLen in
  let endMin := if startMin + pushByteSize <? codeLen then startMin + pushByteSize else codeLen in
  if negb (slice_ok startMin endMin (Code k)) then panic
  else
    z ← lift (SetBytes (RightPadBytes (slice startMin endMin (Code k)) pushByteSize));
    _ ← pushM z;
    _ ← modify (fun c => set_pc (add64 (pc c) size) c); nothing.
Definition makeDup (size : nat) : executionFunc := fun env calls =>
  c ← get; st ← lift (dup size (stack c)); _ ← modify (set_stack st); nothing.
Definition makeSwap (size : nat) : executionFunc := fun env calls =>
  c ← get; st ← lift (swap (size + 1) (stack c)); _ ← modify (set_stack st); nothing.

(** ** eips.go *)
Definition opSelfBalance : executionFunc := fun env calls =>
  k ← gets contract; b ← onDB (GetBalance (self k)); pushBig b.
Definition opChainID : executionFunc := fun env calls =>
  match configChainID env with Some v => pushBig v | None => panic end.
End Instructions.
