(* ===== verification/JumpTable.v ===== *)
(** * Jump tables

    src/evm/jump_table.go and eips.go: the instruction set of every fork.  A
    table [[256]*operation] is a finite map from opcodes; a nil entry is an
    absent key.  Each [new...InstructionSet] builds its own operations, so the
    assignments through the entry pointers ([instructionSet[EXP].dynamicGas = ...])
    are updates of the map. *)

From S2P Require Import Prelude Words Uint256 Params Config Stack Memory Opcodes Analysis State GasTable.
From S2P Require Import Instructions.

Section JumpTable.
Context {S : Type} `{StateDB S}.

Record operation := mkOperation {
  execute : @executionFunc S;
  constantGas : Z;
  dynamicGas : option (@gasFunc S);
  opMinStack : Z;
  opMaxStack : Z;
  memorySize : option memorySizeFunc;
  halts : bool;
  jumps : bool;
  writes : bool;
  reverts : bool;
  returns : bool;
}.
Definition JumpTable := gmap Z operation.

(** An entry with only [execute], [constantGas] and the stack bounds. *)
Definition simple (ex : executionFunc) (gas pops pushes : Z) : operation :=
  mkOperation ex gas None (minStack pops pushes) (maxStack pops pushes) None false false false false false.
(** With dynamic gas and a memory size. *)
Definition withMem (ex : executionFunc) (gas : Z) (dyn : gasFunc) (pops pushes : Z) (ms : memorySizeFunc)
  : operation :=
  mkOperation ex gas (Some dyn) (minStack pops pushes) (maxStack pops pushes) (Some ms)
    false false false false false.

Definition frontier_arith : list (Z * operation) :=
  [(STOP, mkOperation opStop 0 None (minStack 0 0) (maxStack 0 0) None true false false false false);
   (ADD, simple opAdd GasFastestStep 2 1);
   (MUL, simple opMul GasFastStep 2 1);
   (SUB, simple opSub GasFastestStep 2 1);
   (DIV, simple opDiv GasFastStep 2 1);
   (SDIV, simple opSdiv GasFastStep 2 1);
   (MOD, simple opMod GasFastStep 2 1);
   (SMOD, simple opSmod GasFastStep 2 1);
   (ADDMOD, simple opAddmod GasMidStep 3 1);
   (MULMOD, simple opMulmod GasMidStep 3 1);
   (EXP, mkOperation opExp 0 (Some gasExpFrontier) (minStack 2 1) (maxStack 2 1) None
           false false false false false);
   (SIGNEXTEND, simple opSignExtend GasFastStep 2 1);
   (LT, simple opLt GasFastestStep 2 1);
   (GT, simple opGt GasFastestStep 2 1);
   (SLT, simple opSlt GasFastestStep 2 1);
   (SGT, simple opSgt GasFastestStep 2 1);
   (EQ, simple opEq GasFastestStep 2 1);
   (ISZERO, simple opIszero GasFastestStep 1 1);
   (AND, simple opAnd GasFastestStep 2 1);
   (XOR, simple opXor GasFastestStep 2 1);
   (OR, simple opOr GasFastestStep 2 1);
   (NOT, simple opNot GasFastestStep 1 1);
   (BYTE, simple opByte GasFastestStep 2 1)].

Definition frontier_env : list (Z * operation) :=
  [(SHA3, withMem opSha3 Sha3Gas gasSha3 2 1 memorySha3);
   (ADDRESS, simple opAddress GasQuickStep 0 1);
   (BALANCE, simple opBalance BalanceGasFrontier 1 1);
   (ORIGIN, simple opOrigin GasQuickStep 0 1);
   (CALLER, simple opCaller GasQuickStep 0 1);
   (CALLVALUE, simple opCallValue GasQuickStep 0 1);
   (CALLDATALOAD, simple opCallDataLoad GasFastestStep 1 1);
   (CALLDATASIZE, simple opCallDataSize GasQuickStep 0 1);
   (CALLDATACOPY, withMem opCallDataCopy GasFastestStep gasCallDataCopy 3 0 memoryCallDataCopy);
   (CODESIZE, simple opCodeSize GasQuickStep 0 1);
   (CODECOPY, withMem opCodeCopy GasFastestStep gasCodeCopy 3 0 memoryCodeCopy);
   (GASPRICE, simple opGasprice GasQuickStep 0 1);
   (EXTCODESIZE, simple opExtCodeSize ExtcodeSizeGasFrontier 1 1);
   (EXTCODECOPY, withMem opExtCodeCopy ExtcodeCopyBaseFrontier gasExtCodeCopy 4 0 memoryExtCodeCopy);
   (BLOCKHASH, simple opBlockhash GasExtStep 1 1);
   (COINBASE, simple opCoinbase GasQuickStep 0 1);
   (TIMESTAMP, simple opTimestamp GasQuickStep 0 1);
   (NUMBER, simple opNumber GasQuickStep 0 1);
   (DIFFICULTY, simple opDifficulty GasQuickStep 0 1);
   (GASLIMIT, simple opGasLimit GasQuickStep 0 1)].

Definition frontier_flow : list (Z * operation) :=
  [(POP, simple opPop GasQuickStep 1 0);
   (MLOAD, withMem opMload GasFastestStep gasMLoad 1 1 memoryMLoad);
   (MSTORE, withMem opMstore GasFastestStep gasMStore 2 0 memoryMStore);
   (MSTORE8, withMem opMstore8 GasFastestStep gasMStore8 2 0 memoryMStore8);
   (SLOAD, simple opSload SloadGasFrontier 1 1);
   (SSTORE, mkOperation opSstore 0 (Some gasSStore) (minStack 2 0) (maxStack 2 0) None
              false false true false false);
   (JUMP, mkOperation opJump GasMidStep None (minStack 1 0) (maxStack 1 0) None
            false true false false false);
   (JUMPI, mkOperation opJumpi GasSlowStep None (minStack 2 0) (maxStack 2 0) None
             false true false false false);
   (PC, simple opPc GasQuickStep 0 1);
   (MSIZE, simple opMsize GasQuickStep 0 1);
   (GAS, simple opGas GasQuickStep 0 1);
   (Opcodes.JUMPDEST, simple opJumpdest JumpdestGas 0 0)].

(** PUSH1 and [PUSHn: makePush(n, n)] for n = 2, ..., 32. *)
Definition frontier_push : list (Z * operation) :=
  (PUSH1, simple opPush1 GasFastestStep 0 1)
  :: map (fun n => (PUSH1 + n - 1, simple (makePush n n) GasFastestStep 0 1)) (seqZ 2 31).
(** [DUPn: makeDup(n)] for n = 1, ..., 16. *)
Definition frontier_dup : list (Z * operation) :=
  map (fun n => (DUP1 + n - 1,
         mkOperation (makeDup (Z.to_nat n)) GasFastestStep None (minDupStack n) (maxDupStack n) None
           false false false false false)) (seqZ 1 16).
(** [SWAPn: makeSwap(n)] with stack bounds for n + 1, n = 1, ..., 16. *)
Definition frontier_swap : list (Z * operation) :=
  map (fun n => (SWAP1 + n - 1,
         mkOperation (makeSwap (Z.to_nat n)) GasFastestStep None (minSwapStack (n + 1)) (maxSwapStack (n + 1)) None
           false false false false false)) (seqZ 1 16).
(** [LOGn] for n = 0, ..., 4. *)
Definition frontier_log : list (Z * operation) :=
  map (fun n => (LOG0 + n,
         mkOperation (makeLog (Z.to_nat n)) 0 (Some (makeGasLog n)) (minStack (n + 2) 0) (maxStack (n + 2) 0)
           (Some memoryLog) false false true false false)) (seqZ 0 5).
Definition frontier_system : list (Z * operation) :=
  [(CREATE, mkOperation opCreate CreateGas (Some gasCreate) (minStack 3 1) (maxStack 3 1) (Some memoryCreate)
              false false true false true);
   (CALL, mkOperation opCall CallGasFrontier (Some gasCall) (minStack 7 1) (maxStack 7 1) (Some memoryCall)
            false false false false true);
   (CALLCODE, mkOperation opCallCode CallGasFrontier (Some gasCallCode) (minStack 7 1) (maxStack 7 1)
                (Some memoryCall) false false false false true);
   (RETURN, mkOperation opReturn 0 (Some gasReturn) (minStack 2 0) (maxStack 2 0) (Some memoryReturn)
              true false false false false);
   (SELFDESTRUCT, mkOperation opSuicide 0 (Some gasSelfdestruct) (minStack 1 0) (maxStack 1 0) None
                    true false true false false)].

Definition frontier_entries : list (Z * operation) :=
  frontier_arith ++ frontier_env ++ frontier_flow ++ frontier_push ++ frontier_dup ++ frontier_swap
  ++ frontier_log ++ frontier_system.
Definition newFrontierInstructionSet : JumpTable := list_to_map frontier_entries.

(** [jt[op].constantGas = g], [jt[op].dynamicGas = f]; a nil entry panics. *)
Definition upd_const (g : Z) (o : operation) : operation :=
  mkOperation (execute o) g (dynamicGas o) (opMinStack o) (opMaxStack o) (memorySize o)
    (halts o) (jumps o) (writes o) (reverts o) (returns o).
Definition upd_dyn (f : gasFunc) (o : operation) : operation :=
  mkOperation (execute o) (constantGas o) (Some f) (opMinStack o) (opMaxStack o) (memorySize o)
    (halts o) (jumps o) (writes o) (reverts o) (returns o).
Definition update (f : operation -> operation) (op : Z) (jt : JumpTable) : outcome JumpTable :=
  match jt !! op with Some o => Ret (<[op := f o]> jt) | None => Panic end.
Definition setConst (op g : Z) (jt : JumpTable) : outcome JumpTable := update (upd_const g) op jt.
Definition setDyn (op : Z) (f : gasFunc) (jt : JumpTable) : outcome JumpTable := update (upd_dyn f) op jt.

Definition newHomesteadInstructionSet : outcome JumpTable :=
  Ret (<[DELEGATECALL := mkOperation opDelegateCall CallGasFrontier (Some gasDelegateCall) (minStack 6 1)
           (maxStack 6 1) (Some memoryDelegateCall) false false false false true]> newFrontierInstructionSet).
Definition newTangerineWhistleInstructionSet : outcome JumpTable :=
  jt ← newHomesteadInstructionSet;
  jt ← setConst BALANCE BalanceGasEIP150 jt;
  jt ← setConst EXTCODESIZE ExtcodeSizeGasEIP150 jt;
  jt ← setConst SLOAD SloadGasEIP150 jt;
  jt ← setConst EXTCODECOPY ExtcodeCopyBaseEIP150 jt;
  jt ← setConst CALL CallGasEIP150 jt;
  jt ← setConst CALLCODE CallGasEIP150 jt;
  setConst DELEGATECALL CallGasEIP150 jt.
Definition newSpuriousDragonInstructionSet : outcome JumpTable :=
  jt ← newTangerineWhistleInstructionSet;
  setDyn EXP gasExpEIP158 jt.
Definition newByzantiumInstructionSet : outcome JumpTable :=
  jt ← newSpuriousDragonInstructionSet;
  let jt := <[STATICCALL := mkOperation opStaticCall CallGasEIP150 (Some gasStaticCall) (minStack 6 1)
                (maxStack 6 1) (Some memoryStaticCall) false false false false true]> jt in
  let jt := <[RETURNDATASIZE := simple opReturnDataSize GasQuickStep 0 1]> jt in
  let jt := <[RETURNDATACOPY := withMem opReturnDataCopy GasFastestStep gasReturnDataCopy 3 0
                memoryReturnDataCopy]> jt in
  Ret (<[REVERT := mkOperation opRevert 0 (Some gasRevert) (minStack 2 0) (maxStack 2 0) (Some memoryRevert)
           false false false true true]> jt).
Definition newConstantinopleInstructionSet : outcome JumpTable :=
  jt ← newByzantiumInstructionSet;
  let jt := <[SHL := simple opSHL GasFastestStep 2 1]> jt in
  let jt := <[SHR := simple opSHR GasFastestStep 2 1]> jt in
  let jt := <[SAR := simple opSAR GasFastestStep 2 1]> jt in
  let jt := <[EXTCODEHASH := simple opExtCodeHash ExtcodeHashGasConstantinople 1 1]> jt in
  Ret (<[CREATE2 := mkOperation opCreate2 Create2Gas (Some gasCreate2) (minStack 4 1) (maxStack 4 1)
           (Some memoryCreate2) false false true false true]> jt).

(** ** eips.go *)
Definition enable1884 (jt : JumpTable) : outcome JumpTable :=
  jt ← setConst SLOAD SloadGasEIP1884 jt;
  jt ← setConst BALANCE BalanceGasEIP1884 jt;
  jt ← setConst EXTCODEHASH ExtcodeHashGasEIP1884 jt;
  Ret (<[SELFBALANCE := simple opSelfBalance GasFastStep 0 1]> jt).
Definition enable1344 (jt : JumpTable) : outcome JumpTable :=
  Ret (<[CHAINID := simple opChainID GasQuickStep 0 1]> jt).
Definition enable2200 (jt : JumpTable) : outcome JumpTable :=
  jt ← setConst SLOAD SloadGasEIP2200 jt;
  setDyn SSTORE gasSStoreEIP2200 jt.
Definition enable2315 (jt : JumpTable) : outcome JumpTable :=
  let jt := <[BEGINSUB := simple opBeginSub GasQuickStep 0 0]> jt in
  let jt := <[JUMPSUB := mkOperation opJumpSub GasSlowStep None (minStack 1 0) (maxStack 1 0) None
                false true false false false]> jt in
  Ret (<[RETURNSUB := mkOperation opReturnSub GasFastStep None (minStack 0 0) (maxStack 0 0) None
           false true false false false]> jt).
(** [None] is the error "undefined eip". *)
Definition EnableEIP (eipNum : Z) (jt : JumpTable) : outcome (option JumpTable) :=
  if eipNum =? 2200 then jt ← enable2200 jt; Ret (Some jt)
  else if eipNum =? 1884 then jt ← enable1884 jt; Ret (Some jt)
  else if eipNum =? 1344 then jt ← enable1344 jt; Ret (Some jt)
  else if eipNum =? 2315 then jt ← enable2315 jt; Ret (Some jt)
  else Ret None.

Definition newIstanbulInstructionSet : outcome JumpTable :=
  jt ← newConstantinopleInstructionSet;
  jt ← enable1344 jt;
  jt ← enable1884 jt;
  enable2200 jt.
Definition newYoloV2InstructionSet : outcome JumpTable :=
  jt ← newIstanbulInstructionSet;
  enable2315 jt.

(** The table [NewEVMInterpreter] selects when the configuration leaves it
    unset, before the extra EIPs. *)
Definition selectTable (r : Rules) : outcome JumpTable :=
  if rIsYoloV2 r then newYoloV2InstructionSet
  else if rIsIstanbul r then newIstanbulInstructionSet
  else if rIsConstantinople r then newConstantinopleInstructionSet
  else if rIsByzantium r then newByzantiumInstructionSet
  else if rIsEIP158 r then newSpuriousDragonInstructionSet
  else if rIsEIP150 r then newTangerineWhistleInstructionSet
  else if rIsHomestead r then newHomesteadInstructionSet
  else Ret newFrontierInstructionSet.
(** The loop over [cfg.ExtraEips]; an unknown number panics. *)
Fixpoint enableAll (eips : list Z) (jt : JumpTable) : outcome JumpTable :=
  match eips with
  | [] => Ret jt
  | e :: eips' =>
      r ← EnableEIP e jt;
      match r with Some jt => enableAll eips' jt | None => Panic end
  end.
Definition NewEVMInterpreter (r : Rules) (ExtraEips : list Z) : outcome JumpTable :=
  jt ← selectTable r; enableAll ExtraEips jt.
End JumpTable.
Arguments operation S : clear implicits.
Arguments JumpTable S : clear implicits.
