(* ===== verification/Evm.v ===== *)
(** * Message calls and contract creation

    src/evm/evm.go and [RunPrecompiledContract] of contracts.go.  The
    interpreter is the argument [Run]: it runs a contract on an input and
    yields the result, the error and the contract with its remaining gas.
    Tracing ([vmConfig.Debug]) only observes and is left out. *)

From S2P Require Import Prelude Words Uint256 Params Config Stack Memory Opcodes Analysis State Instructions.

Section Evm.
Context {S : Type} `{StateDB S}.
Context (env : Env S) (Run : Contract -> bytes -> bool -> M (EVM S) (bytes * option error * Contract)).

Definition call_result : Type := ret_slice * Z * option error.

Definition RunPrecompiledContract (p : PrecompiledContract) (input : bytes) (suppliedGas : Z)
  : outcome call_result :=
  match RequiredGas p input with
  | None => PanicAt PPrecompile
  | Some gasCost =>
      if suppliedGas <? gasCost then Ret (Fresh [], 0, Some ErrOutOfGas)
      else
        match RunP p input with
        | None => PanicAt PPrecompile
        | Some (output, err) => Ret (output, sub64 suppliedGas gasCost, err)
        end
  end.

(** The contract for a callee, sharing the caller's JUMPDEST cache. *)
Definition newContract (caller : ContractRef) (object : Address) (value : option Z) (gas : Z)
  : M (EVM S) Contract := fun e =>
  let '(c, j) := NewContract caller object value gas (jumpdests e) in Ret (c, set_jumpdests j e).

Definition runContract (c : Contract) (input : bytes) (readOnly : bool) : M (EVM S) call_result :=
  '(ret, err, c) ← Run c input readOnly;
  mret (Fresh ret, Gas c, err).

(** [if err != nil { RevertToSnapshot; if err != ErrExecutionReverted { gas = 0 } }] *)
Definition finish (snapshot : Z) (r : call_result) : M (EVM S) call_result :=
  let '(ret, gas, err) := r in
  match err with
  | Some e =>
      _ ← db (RevertToSnapshot snapshot);
      mret (ret, if bool_decide (e = ErrExecutionReverted) then gas else 0, err)
  | None => mret r
  end.

Definition Call (caller : ContractRef) (addr : Address) (input : bytes) (gas value : Z)
  : M (EVM S) call_result :=
  e ← get;
  if NoRecursion env && (0 <? depth e) then mret (Fresh [], gas, None)
  else if CallCreateDepth <? depth e then mret (Fresh [], gas, Some ErrDepth)
  else
    ok ← (if negb (value =? 0) then db (CanTransfer env (RefAddress caller) value) else mret true);
    if negb ok then mret (Fresh [], gas, Some ErrInsufficientBalance)
    else
      snapshot ← db Snapshot;
      exist ← db (Exist addr);
      if negb exist && bool_decide (precompile env addr = None) && rIsEIP158 (chainRules env) && (value =? 0)
      then mret (Fresh [], gas, None)
      else
        _ ← (if negb exist then db (CreateAccount addr) else mret ());
        _ ← db (Transfer env (RefAddress caller) addr value);
        r ← match precompile env addr with
            | Some p => lift (RunPrecompiledContract p input gas)
            | None =>
                code ← db (GetCode addr);
                if len code =? 0 then mret (Fresh [], gas, None)
                else
                  c ← newContract caller addr (Some value) gas;
                  hash ← db (GetCodeHash addr);
                  runContract (SetCallCode addr hash code c) input false
            end;
        finish snapshot r.

Definition CallCode (caller : ContractRef) (addr : Address) (input : bytes) (gas value : Z)
  : M (EVM S) call_result :=
  e ← get;
  if NoRecursion env && (0 <? depth e) then mret (Fresh [], gas, None)
  else if CallCreateDepth <? depth e then mret (Fresh [], gas, Some ErrDepth)
  else
    ok ← db (CanTransfer env (RefAddress caller) value);
    if negb (ok : bool) then mret (Fresh [], gas, Some ErrInsufficientBalance)
    else
      snapshot ← db Snapshot;
      r ← match precompile env addr with
          | Some p => lift (RunPrecompiledContract p input gas)
          | None =>
              c ← newContract caller (RefAddress caller) (Some value) gas;
              hash ← db (GetCodeHash addr);
              code ← db (GetCode addr);
              runContract (SetCallCode addr hash code c) input false
          end;
      finish snapshot r.

Definition DelegateCall (caller : ContractRef) (addr : Address) (input : bytes) (gas : Z)
  : M (EVM S) call_result :=
  e ← get;
  if NoRecursion env && (0 <? depth e) then mret (Fresh [], gas, None)
  else if CallCreateDepth <? depth e then mret (Fresh [], gas, Some ErrDepth)
  else
    snapshot ← db Snapshot;
    r ← match precompile env addr with
        | Some p => lift (RunPrecompiledContract p input gas)
        | None =>
            c ← newContract caller (RefAddress caller) None gas;
            c ← lift (AsDelegate caller c);
            hash ← db (GetCodeHash addr);
            code ← db (GetCode addr);
            runContract (SetCallCode addr hash code c) input false
        end;
    finish snapshot r.

Definition StaticCall (caller : ContractRef) (addr : Address) (input : bytes) (gas : Z)
  : M (EVM S) call_result :=
  e ← get;
  if NoRecursion env && (0 <? depth e) then mret (Fresh [], gas, None)
  else if CallCreateDepth <? depth e then mret (Fresh [], gas, Some ErrDepth)
  else
    snapshot ← db Snapshot;
    _ ← db (AddBalance addr 0);
    r ← match precompile env addr with
        | Some p => lift (RunPrecompiledContract p input gas)
        | None =>
            c ← newContract caller addr (Some 0) gas;
            hash ← db (GetCodeHash addr);
            code ← db (GetCode addr);
            runContract (SetCallCode addr hash code c) input true
        end;
    finish snapshot r.

(** ** Creation *)
Record codeAndHash := mkCodeAndHash { cahCode : bytes; cahHash : Hash }.
Definition create_result : Type := bytes * Address * Z * option error.

(** The end of [create]: store the code or fail, revert on failure. *)
Definition finishCreate (snapshot : Z) (address : Address) (ret : bytes) (err : option error) (c : Contract)
  : M (EVM S) create_result :=
  let maxCodeSizeExceeded := rIsEIP158 (chainRules env) && (MaxCodeSize <? len ret) in
  '(err, c) ←
    (if bool_decide (err = None) && negb maxCodeSizeExceeded then
       let createDataGas := mul64 (len ret) CreateDataGas in
       let '(ok, c) := UseGas createDataGas c in
       if ok : bool then _ ← db (SetCode address ret); mret (err, c)
       else mret (Some ErrCodeStoreOutOfGas, c)
     else mret (err, c));
  c ← (if maxCodeSizeExceeded
          || (bool_decide (err <> None)
              && (rIsHomestead (chainRules env) || negb (is_err err ErrCodeStoreOutOfGas))) then
         _ ← db (RevertToSnapshot snapshot);
         mret (if negb (is_err err ErrExecutionReverted) then (UseGas (Gas c) c).2 else c)
       else mret c);
  let err := if maxCodeSizeExceeded && bool_decide (err = None) then Some ErrMaxCodeSizeExceeded else err in
  mret (ret, address, Gas c, err).

Definition create (caller : ContractRef) (cah : codeAndHash) (gas value : Z) (address : Address)
  : M (EVM S) create_result :=
  e ← get;
  if CallCreateDepth <? depth e then mret ([], zero_address, gas, Some ErrDepth)
  else
    ok ← db (CanTransfer env (RefAddress caller) value);
    if negb (ok : bool) then mret ([], zero_address, gas, Some ErrInsufficientBalance)
    else
      nonce ← db (GetNonce (RefAddress caller));
      _ ← db (SetNonce (RefAddress caller) (add64 nonce 1));
      contractHash ← db (GetCodeHash address);
      n ← db (GetNonce address);
      if negb (n =? 0)
         || (negb (bool_decide (contractHash = zero_hash))
             && negb (bool_decide (contractHash = keccak256 env []))) then
        mret ([], zero_address, 0, Some ErrContractAddressCollision)
      else
        snapshot ← db Snapshot;
        _ ← db (CreateAccount address);
        _ ← (if rIsEIP158 (chainRules env) then db (SetNonce address 1) else mret ());
        _ ← db (Transfer env (RefAddress caller) address value);
        c ← newContract caller address (Some value) gas;
        let c := SetCallCode address (cahHash cah) (cahCode cah) c in
        if NoRecursion env && (0 <? depth e) then mret ([], address, gas, None)
        else
          '(ret, err, c) ← Run c [] false;
          finishCreate snapshot address ret err c.

Definition Create (caller : ContractRef) (code : bytes) (gas value : Z) : M (EVM S) create_result :=
  nonce ← db (GetNonce (RefAddress caller));
  create caller (mkCodeAndHash code zero_hash) gas value (CreateAddress env (RefAddress caller) nonce).
(** [crypto.CreateAddress2]: the low 20 bytes of the hash. *)
Definition CreateAddress2 (b : Address) (salt inithash : bytes) : Address :=
  drop 12 (keccak256 env (0xff :: b ++ salt ++ inithash)).
Definition Create2 (caller : ContractRef) (code : bytes) (gas endowment : Z) (salt : Int)
  : M (EVM S) create_result :=
  let hash := keccak256 env code in
  create caller (mkCodeAndHash code hash) gas endowment
    (CreateAddress2 (RefAddress caller) (Bytes32 salt) hash).

Definition evm_calls : Calls S := mkCalls S Call CallCode DelegateCall StaticCall Create Create2.
End Evm.
