(* ===== verification/Interpreter.v ===== *)
(** * The interpreter

    src/evm/interpreter.go: one iteration of the main loop ([step]), the loop,
    and [Run] with its deferred restorations.  The loop and the calls it makes
    recursively share one fuel; a fuel above the contract's gas is always
    enough (Safety.v).  The abort flag is read every 1000 steps.  The pooled
    stacks are empty when taken from their pools, so a run starts with fresh
    ones. *)

From S2P Require Import Prelude Words Uint256 Params Config Stack Memory Opcodes Analysis State GasTable.
From S2P Require Import Instructions JumpTable Evm.

Section Interpreter.
Context {S : Type} `{StateDB S}.
Context (env : Env S) (jt : JumpTable S).

Definition result : Type := bytes * option error.
Definition stop (e : error) : M (Ctx S) (option result) := mret (Some ([], Some e)).

(** Whether the read-only mode forbids the operation. *)
Definition writeProtected (op : Z) (o : operation S) : M (Ctx S) bool :=
  e ← gets evm;
  if readOnly e && rIsByzantium (chainRules env) then
    if writes o then mret true
    else if op =? CALL then x ← BackM 2; mret (negb (Sign x =? 0))
    else mret false
  else mret false.
(** The new memory size in bytes, whole words; [None] is an overflow. *)
Definition newMemorySize (o : operation S) : M (Ctx S) (option Z) :=
  match memorySize o with
  | None => mret (Some 0)
  | Some f =>
      st ← gets stack;
      '(memSize, overflow) ← lift (f st);
      if overflow : bool then mret None
      else
        let '(size, overflow) := SafeMul (toWordSize memSize) 32 in
        mret (if overflow then None else Some size)
  end.
(** Charge the dynamic part; any error of the gas function is out of gas. *)
Definition chargeDynamic (o : operation S) (size : Z) : M (Ctx S) bool :=
  match dynamicGas o with
  | None => mret true
  | Some f =>
      '(dynamicCost, err) ← f env size;
      match err with Some _ => mret false | None => useGasM dynamicCost end
  end.
Definition resizeM (size : Z) : M (Ctx S) () :=
  if 0 <? size then modify (fun c => set_memory (Resize size (memory c)) c) else mret ().

(** Execute the operation and decide how to go on: [None] continues. *)
Definition executeOp (calls : Calls S) (o : operation S) : M (Ctx S) (option result) :=
  '(res, err) ← execute o env calls;
  _ ← (if returns o then modify (fun c => set_evm (set_returnData res (evm c)) c) else mret ());
  match err with
  | Some e => stop e
  | None =>
      if reverts o then mret (Some (res, Some ErrExecutionReverted))
      else if halts o then mret (Some (res, None))
      else if negb (jumps o) then _ ← modify (fun c => set_pc (add64 (pc c) 1) c); mret None
      else mret None
  end.

(** The part of an iteration after the constant gas. *)
Definition body (calls : Calls S) (o : operation S) : M (Ctx S) (option result) :=
  size ← newMemorySize o;
  match size with
  | None => stop ErrGasUintOverflow
  | Some size =>
      ok ← chargeDynamic o size;
      if negb ok then stop ErrOutOfGas
      else _ ← resizeM size; executeOp calls o
  end.

Definition step (calls : Calls S) : M (Ctx S) (option result) :=
  c ← get;
  let op := GetOp (contract c) (pc c) in
  match jt !! op with
  | None => stop (ErrInvalidOpCode op)
  | Some o =>
      let sLen := Z.of_nat (length (stack c)) in
      if sLen <? opMinStack o then stop (ErrStackUnderflow sLen (opMinStack o))
      else if opMaxStack o <? sLen then stop (ErrStackOverflow sLen (opMaxStack o))
      else
        protected ← writeProtected op o;
        if protected : bool then stop ErrWriteProtection
        else
          ok ← useGasM (constantGas o);
          if negb ok then stop ErrOutOfGas else body calls o
  end.

(** [steps%1000 == 0 && atomic.LoadInt32(&in.evm.abort) != 0] *)
Definition poll (steps : Z) : M (Ctx S) bool :=
  if steps mod 1000 =? 0 then
    e ← gets evm;
    _ ← modify (fun c => set_evm (set_polls (polls e + 1) (evm c)) c);
    mret (abort_at env (polls e))
  else mret false.

(** [Run] around a main loop. *)
Definition runWith (loop : M (Ctx S) result) (contract : Contract) (input : bytes) (ro : bool)
  : M (EVM S) (bytes * option error * Contract) := fun e =>
  let setRO := ro && negb (readOnly e) in
  let e1 := set_depth (depth e + 1) e in
  let e1 := if setRO then set_readOnly true e1 else e1 in
  let e1 := set_returnData [] e1 in
  let leave (e : EVM S) :=
    let e := if setRO then set_readOnly false e else e in set_depth (depth e - 1) e in
  if len (Code contract) =? 0 then Ret (([], None, contract), leave e1)
  else
    '((ret, err), c) ← loop (mkCtx 0 [] NewMemory [] (set_input input contract) e1);
    Ret ((ret, err, State.contract c), leave (evm c)).

Fixpoint loop (fuel : nat) (steps : Z) (c : Ctx S) {struct fuel} : outcome (result * Ctx S) :=
  match fuel with
  | O => NoFuel
  | Datatypes.S fuel' =>
      let steps := steps + 1 in
      '(aborted, c) ← poll steps c;
      if aborted : bool then Ret (([], None), c)
      else
        '(r, c) ← step (evm_calls env (runWith (loop fuel' 0))) c;
        match r with
        | Some res => Ret (res, c)
        | None => loop fuel' steps c
        end
  end.

Definition Run (fuel : nat) := runWith (loop fuel 0).
(** The EVM whose calls run with the given fuel. *)
Definition EvmCall (fuel : nat) := Call env (Run fuel).
Definition EvmCreate (fuel : nat) := Create env (Run fuel).
End Interpreter.
