(* ===== verification/Invariants.v ===== *)
(** * Invariants of the machine state and proof rules

    What every instruction, gas function and call preserves, and the weakest
    precondition rules for the primitives they are built from. *)

From S2P Require Import Prelude Words Uint256 Uint256Arith Uint256Div Uint256Bits Params Config Stack Memory.
From S2P Require Import Opcodes Analysis State GasTable Instructions JumpTable Evm Interpreter.

Record contract_ok (k : Contract) : Prop := {
  k_gas : is_u64 (Gas k);
  k_code : is_slice (Code k);
  k_input : is_slice (Input k);
  k_self : is_address (self k);
  k_caller : is_address (CallerAddress k);
  k_value : value k <> None;
}.

(** Whether the rules are from Byzantium on, when the interpreter enforces
    read-only calls. *)
Class Mode := byz : bool.
Abbreviation static e := (readOnly e && byz).

Section Invariants.
Context {S : Type} `{StateDBSpec S} `{Mode}.

Record env_ok (env : Env S) : Prop := {
  env_keccak b : is_hash (keccak256 env b);
  env_hash n : is_hash (GetHash env n);
  env_coinbase : is_address (Coinbase env);
  env_origin : is_address (Origin env);
  env_gaslimit : is_u64 (GasLimit env);
  env_chainid : configChainID env <> None;
  env_create a n : is_address (CreateAddress env a n);
  env_mode : rIsByzantium (chainRules env) = byz;
  env_can a v : db_method false any (CanTransfer env a v);
  env_transfer a b v : db_method true any (Transfer env a b v);
  env_transfer0 a b : db_method false any (Transfer env a b 0);
  env_price a p b g : precompile env a = Some p -> is_slice b -> RequiredGas p b = Some g -> is_u64 g;
  env_out a p b r err : precompile env a = Some p -> is_slice b -> RunP p b = Some (Fresh r, err) -> is_slice r;
}.

Record evm_ok (e : EVM S) : Prop := {
  e_db : db_ok (statedb e);
  e_depth : 0 <= depth e;
  e_temp : is_u64 (callGasTemp e);
  e_data : is_slice (returnData e);
}.

Record ctx_ok (c : Ctx S) : Prop := {
  c_pc : 0 <= pc c <= max_slice + 64;
  c_stack : Forall int_ok (stack c);
  c_height : Z.of_nat (length (stack c)) <= StackLimit;
  c_mem : mem_ok (memory c);
  c_rstack : Forall (fun p => 0 <= p < 2 ^ 32) (rstack c);
  c_contract : contract_ok (contract c);
  c_evm : evm_ok (evm c);
}.

(** How the database may change: snapshots are kept, and in read-only mode
    the world is too. *)
Definition db_rel (ro : bool) (s s' : S) : Prop :=
  keeps_saved saved s s' /\ (ro = true -> same_world s s').
#[export] Instance db_rel_preorder ro : PreOrder (db_rel ro).
Proof.
  split; [intros s; split; [by intros j s0|intros _; reflexivity]|]. intros s1 s2 s3 [Hk1 Hs1] [Hk2 Hs2]. split; [by intros j s0 Hj; auto|].
  intros E. etrans; auto.
Qed.

(** What one run leaves alone. *)
Record frame (c c' : Ctx S) : Prop := {
  f_depth : depth (evm c') = depth (evm c);
  f_ro : readOnly (evm c') = readOnly (evm c);
  f_code : Code (contract c') = Code (contract c);
  f_rel : db_rel (static (evm c)) (statedb (evm c)) (statedb (evm c'));
}.

Lemma frame_refl c : frame c c.
Proof. by split. Qed.
Lemma frame_trans c1 c2 c3 : frame c1 c2 -> frame c2 c3 -> frame c1 c3.
Proof.
  intros [? R1 ? L1] [? R2 ? L2]. split; try congruence. rewrite R1 in L2. by etrans.
Qed.

(** A run that has ended keeps only its gas and the EVM. *)
Definition end_ok (c : Ctx S) : Prop := is_u64 (Gas (contract c)) /\ evm_ok (evm c).
Lemma ctx_ok_end c : ctx_ok c -> end_ok c.
Proof. intros []. split; [by apply k_gas|done]. Qed.

(** The interface of the calls an instruction makes: with less than [G] gas
    they return, never more gas than they got, and restore depth and mode. *)
Definition ret_ok (r : ret_slice) : Prop := match r with Fresh b => is_slice b | InputSlice => True end.
Definition ref_ok (r : ContractRef) : Prop :=
  match r with AccountRef a => is_address a | ContractCaller k => contract_ok k end.
Record evm_step (e e' : EVM S) : Prop := {
  s_ok : evm_ok e';
  s_depth : depth e' = depth e;
  s_ro : readOnly e' = readOnly e;
  s_rel : db_rel (static e) (statedb e) (statedb e');
}.
Definition call_post (gas : Z) (e : EVM S) (r : call_result) (e' : EVM S) : Prop :=
  evm_step e e' /\ 0 <= r.1.2 <= gas /\ ret_ok r.1.1 /\
  (r.2 <> None -> same_world (statedb e) (statedb e')).
Definition create_post (gas : Z) (e : EVM S) (r : create_result) (e' : EVM S) : Prop :=
  evm_step e e' /\ 0 <= r.1.2 <= gas /\ is_slice r.1.1.1 /\ is_address r.1.1.2.
Record calls_ok (calls : Calls S) (G : Z) : Prop := {
  call_ok caller addr input gas v e :
    0 <= gas < G -> evm_ok e -> (static e = true -> v = 0) -> ref_ok caller -> is_address addr -> is_slice input ->
    wp (cCall calls caller addr input gas v) (call_post gas e) e;
  callcode_ok caller addr input gas v e :
    0 <= gas < G -> evm_ok e -> ref_ok caller -> is_address addr -> is_slice input ->
    wp (cCallCode calls caller addr input gas v) (call_post gas e) e;
  delegate_ok k addr input gas e :
    0 <= gas < G -> evm_ok e -> contract_ok k -> is_address addr -> is_slice input ->
    wp (cDelegateCall calls (ContractCaller k) addr input gas) (call_post gas e) e;
  static_ok caller addr input gas e :
    0 <= gas < G -> evm_ok e -> ref_ok caller -> is_address addr -> is_slice input ->
    wp (cStaticCall calls caller addr input gas) (call_post gas e) e;
  create_ok caller code gas v e :
    0 <= gas < G -> evm_ok e -> static e = false -> ref_ok caller -> is_slice code ->
    wp (cCreate calls caller code gas v) (create_post gas e) e;
  create2_ok caller code gas v salt e :
    0 <= gas < G -> evm_ok e -> static e = false -> ref_ok caller -> is_slice code -> int_ok salt ->
    wp (cCreate2 calls caller code gas v salt) (create_post gas e) e;
}.

(** ** Memory areas an instruction touches, by stack position *)
Inductive area := AreaAt (off size : nat) | AreaConst (off : nat) (n : Z).
Definition area_ok (st : list Int) (m : Memory) (a : area) : Prop :=
  match a with
  | AreaAt i j => forall x y, st !! i = Some x -> st !! j = Some y -> val y < W /\ covered x y m
  | AreaConst i n => forall x, st !! i = Some x -> val x + n <= Len m
  end.

(** ** Specifications of the parts of an operation *)
(** [execute]: enough operands, room for the results, the areas covered.  An
    instruction that calls ([nc = false]) may get back up to [slack] gas. *)
Definition no_slack (c : Ctx S) : Z := 0.
(** When an instruction may run: always, only when it may write, or, for a
    call, without a value in read-only mode. *)
Definition always (c : Ctx S) : Prop := True.
Definition may_write (c : Ctx S) : Prop := static (evm c) = false.
Definition may_call (c : Ctx S) : Prop :=
  static (evm c) = true -> forall v, stack c !! 2%nat = Some v -> val v = 0.
Definition exec_ok (guard : Ctx S -> Prop) (ex : executionFunc) (pops pushes : Z) (areas : list area)
  (nc : bool) (slack : Ctx S -> Z) : Prop :=
  forall env calls c G,
    env_ok env -> ctx_ok c -> calls_ok calls G -> guard c -> pc c < max_slice ->
    0 <= slack c -> Gas (contract c) + slack c < W -> (nc = false -> Gas (contract c) + slack c < G) ->
    pops <= Z.of_nat (length (stack c)) -> Z.of_nat (length (stack c)) - pops + pushes <= StackLimit ->
    Forall (area_ok (stack c) (memory c)) areas ->
    wp (ex env calls) (fun r c' => ctx_ok c' /\ frame c c' /\ is_slice r.1 /\
      Gas (contract c') <= Gas (contract c) + slack c /\ pc c' < max_slice + 64) c.

(** [memorySize]: no panic, and a memory of that size covers the areas. *)
Definition memsize_ok (f : memorySizeFunc) (pops : Z) (areas : list area) : Prop :=
  forall st, Forall int_ok st -> pops <= Z.of_nat (length st) ->
    exists sz ov, f st = Ret (sz, ov) /\
      (ov = false -> is_u64 sz /\ forall m, sz <= Len m -> Len m <= max_mem -> Forall (area_ok st m) areas).

(** [dynamicGas]: touches only the cached fee, [callGasTemp] and the
    database; the price of the memory is included (unless the operation has
    no memory size), the price covers the slack, and is at least [least]. *)
Record dyn_post (c c' : Ctx S) : Prop := {
  d_pc : pc c' = pc c;
  d_stack : stack c' = stack c;
  d_rstack : rstack c' = rstack c;
  d_contract : contract c' = contract c;
  d_depth : depth (evm c') = depth (evm c);
  d_ro : readOnly (evm c') = readOnly (evm c);
  d_rel : db_rel (static (evm c)) (statedb (evm c)) (statedb (evm c'));
  d_evm : evm_ok (evm c');
}.
Definition dyn_ok (guard : Ctx S -> Prop) (f : gasFunc) (pops least : Z) (memless : bool) (slack : Ctx S -> Z) : Prop :=
  forall env size c,
    env_ok env -> ctx_ok c -> guard c -> is_u64 size -> size mod 32 = 0 -> (memless = true -> size = 0) -> pops <= Z.of_nat (length (stack c)) ->
    wp (f env size) (fun r c' => dyn_post c c' /\
      (r.2 = None -> is_u64 r.1 /\ charged size (memory c') /\ least + slack c' <= r.1 /\ 0 <= slack c')) c.

Lemma contract_ok_gas k g : contract_ok k -> is_u64 g -> contract_ok (set_gas g k).
Proof. intros [] ?. by split. Qed.
Lemma evm_ok_statedb e s : evm_ok e -> db_ok s -> evm_ok (set_statedb s e).
Proof. intros [] ?. by split. Qed.

(** ** Rules *)
Lemma wp_pop x st c (Q : Int -> Ctx S -> Prop) :
  stack c = x :: st -> Q x (set_stack st c) -> wp popM Q c.
Proof. intros E HQ. unfold wp, popM. by rewrite E. Qed.
Lemma wp_peek x st c (Q : Int -> Ctx S -> Prop) :
  stack c = x :: st -> Q x c -> wp peekM Q c.
Proof. intros E HQ. unfold wp, peekM, peek, Back. by rewrite E. Qed.
Lemma wp_Back n x c (Q : Int -> Ctx S -> Prop) :
  stack c !! n = Some x -> Q x c -> wp (BackM n) Q c.
Proof. intros E HQ. unfold wp, BackM, Back. by rewrite E. Qed.
Lemma wp_set_top x y st c (Q : () -> Ctx S -> Prop) :
  stack c = y :: st -> Q () (set_stack (x :: st) c) -> wp (set_topM x) Q c.
Proof. intros E HQ. unfold wp, set_topM. by rewrite E. Qed.
Lemma wp_push x c (Q : () -> Ctx S -> Prop) :
  Q () (set_stack (x :: stack c) c) -> wp (pushM x) Q c.
Proof. done. Qed.
Lemma wp_db {A} w (m : S -> option (A * S)) (P : A -> Prop) e (Q : A -> EVM S -> Prop) :
  db_method w P m -> (w = true -> static e = false) -> db_ok (statedb e) ->
  (forall a s, P a -> db_ok s -> db_rel (static e) (statedb e) s -> Q a (set_statedb s e)) -> wp (db m) Q e.
Proof.
  intros Hm Hw He HQ. unfold wp, db. destruct (m (statedb e)) as [[a s]|] eqn:E; [|done].
  destruct (Hm _ _ _ He E) as (? & ? & ? & Hs). apply HQ; [done..|]. split; [done|]. intros Est. apply Hs.
  destruct w; [|done]. by rewrite Hw in Est.
Qed.
Lemma wp_onEVM {A} (m : M (EVM S) A) c (Q : A -> Ctx S -> Prop) :
  wp m (fun a e => Q a (set_evm e c)) (evm c) -> wp (onEVM m) Q c.
Proof. unfold wp, onEVM. cbv [mbind outcome_bind]. destruct (m (evm c)) as [[a e]|[]|]; done. Qed.
Lemma wp_onDB {A} w (m : S -> option (A * S)) (P : A -> Prop) c (Q : A -> Ctx S -> Prop) :
  db_method w P m -> (w = true -> static (evm c) = false) -> db_ok (statedb (evm c)) ->
  (forall a s, P a -> db_ok s -> db_rel (static (evm c)) (statedb (evm c)) s ->
     Q a (set_evm (set_statedb s (evm c)) c)) -> wp (onDB m) Q c.
Proof. intros Hm Hw He HQ. apply wp_onEVM. by eapply wp_db. Qed.
Lemma wp_useGas g c (Q : bool -> Ctx S -> Prop) :
  is_u64 g -> is_u64 (Gas (contract c)) ->
  (g <= Gas (contract c) -> Q true (set_contract (set_gas (Gas (contract c) - g) (contract c)) c)) ->
  (Gas (contract c) < g -> Q false c) -> wp (useGasM g) Q c.
Proof.
  intros Hg Hk HT HF. unfold wp, useGasM, UseGas. destruct (Z.ltb_spec (Gas (contract c)) g).
  - destruct c. by apply HF.
  - rewrite sub64_nowrap by (unfold is_u64 in *; lia). by apply HT.
Qed.
Lemma wp_memGas size c (Q : Z * option error -> Ctx S -> Prop) :
  (forall gas err m, memoryGasCost (memory c) size = (gas, err, m) -> Q (gas, err) (set_memory m c)) ->
  wp (memGas size) Q c.
Proof.
  intros HQ. unfold wp, memGas. destruct (memoryGasCost (memory c) size) as [[gas err] m] eqn:E. by apply HQ.
Qed.
Lemma wp_addGas gas x c (Q : Z * option error -> Ctx S -> Prop) :
  is_u64 gas -> is_u64 x ->
  Q (0, Some ErrGasUintOverflow) c ->
  (gas + x < W -> Q (gas + x, None) c) -> wp (addGas gas x) Q c.
Proof.
  intros Hg Hx He Ho. unfold addGas. destruct (SafeAdd gas x) as [s o] eqn:E.
  destruct o; [done|]. apply SafeAdd_ok in E as [-> ?]; [|done..]. apply Ho. unfold is_u64 in *. lia.
Qed.
Lemma wp_onOk m k c (Q : Z * option error -> Ctx S -> Prop) :
  wp m (fun r c' => match r.2 with Some e => Q (0, Some e) c' | None => wp (k r.1) Q c' end) c ->
  wp (onOk m k) Q c.
Proof.
  intros Hm. apply wp_bind. eapply wp_mono; [|exact Hm]. intros [gas err] c' HQ.
  destruct err; exact HQ.
Qed.
End Invariants.

#[export] Hint Resolve e_db c_evm : evm.

(** ** Automation *)
Ltac ctx_simpl :=
  cbn [pc stack memory rstack contract evm set_pc set_stack set_memory set_rstack set_contract set_evm
       statedb depth callGasTemp readOnly returnData jumpdests polls set_statedb set_depth set_callGasTemp
       set_readOnly set_returnData set_jumpdests set_polls
       CallerAddress self analysis Code CodeHash CodeAddr Input Gas value set_gas set_input set_analysis
       fst snd] in *.

(** A write is allowed here; two states of the database are related by the
    steps in between. *)
Ltac may_tac :=
  let E := fresh in intros E; first [discriminate E|unfold may_write in *; ctx_simpl; assumption].
Ltac solve_rel :=
  first [assumption|reflexivity|eapply transitivity; [eassumption|solve_rel]].

(** One step of a computation on the machine state. *)
Ltac wp_step :=
  lazymatch goal with
  | |- wp (mbind _ _) _ _ => apply wp_bind
  | |- wp popM _ _ => eapply wp_pop; [first [eassumption|reflexivity]|]
  | |- wp peekM _ _ => eapply wp_peek; [first [eassumption|reflexivity]|]
  | |- wp (set_topM _) _ _ => eapply wp_set_top; [first [eassumption|reflexivity]|]
  | |- wp (pushM _) _ _ => apply wp_push
  | |- wp (gets _) _ _ => apply wp_gets
  | |- wp get _ _ => apply wp_get
  | |- wp (modify _) _ _ => apply wp_modify
  | |- wp (mret _) _ _ => apply wp_ret
  | |- wp nothing _ _ => apply wp_ret
  | |- wp (fail _) _ _ => apply wp_ret
  | |- wp (onDB _) _ _ =>
      eapply wp_onDB; [solve [eauto with statedb evm]|may_tac|ctx_simpl; solve [eauto with evm]|];
      let r := fresh "r" in let s := fresh "s" in let Hdb := fresh "Hdb" in let Hs := fresh "Hs" in
      let Hrel := fresh "Hrel" in intros r s Hdb Hs Hrel
  end; cbv beta iota; ctx_simpl.
Ltac wp_steps := repeat wp_step.

(** Expose [n] operands of the stack. *)
Tactic Notation "expose" constr(c) int_or_var(n) :=
  let Hst := fresh "Hst" in let st := fresh "st" in
  remember (stack c) as st eqn:Hst; symmetry in Hst;
  do n (let x := fresh "x" in destruct st as [|x st]; [exfalso; cbn [length] in *; lia|]);
  cbn [length] in *;
  repeat match goal with H : Forall int_ok (_ :: _) |- _ => apply list.Forall_cons in H as [? H] end.

(** The invariant after some fields have changed. *)
Ltac ctx_done :=
  unfold no_slack in *;
  split_and!; [split; ctx_simpl; cbn [length]; try (by auto with evm); try lia
              | split; ctx_simpl; first [solve_rel|by auto] | try (by auto with evm) | try (ctx_simpl; lia) | try (ctx_simpl; lia)].
