(* ===== verification/InstrSafety.v ===== *)
(** * Every instruction preserves the invariants

    [exec_ok] for each [executionFunc] of Instructions.v. *)

From S2P Require Import Prelude Words Uint256 Uint256Arith Uint256Div Uint256Bits Params Config Stack Memory.
From S2P Require Import Opcodes Analysis State GasTable Instructions JumpTable Evm Interpreter Invariants.

Lemma is_slice_nil : is_slice [].
Proof. split; [done|]. unfold len, max_slice. simpl. lia. Qed.
#[export] Hint Resolve is_slice_nil evm_ok_statedb contract_ok_gas : evm.

Lemma SetUint64_ok n : is_u64 n -> int_ok (SetUint64 n).
Proof. intros. unfold int_ok, SetUint64, is_u64 in *. cbn [w0 w1 w2 w3]. lia. Qed.
Lemma Clear_ok : int_ok Clear.
Proof. apply SetUint64_ok. unfold is_u64. lia. Qed.
Lemma SetOne_ok : int_ok SetOne.
Proof. apply SetUint64_ok. unfold is_u64. lia. Qed.
Lemma Bytes32_hash x : int_ok x -> is_hash (Bytes32 x).
Proof. intros Hx. rewrite Bytes32_ok by done. split; [apply be_bytes_ok|by rewrite length_be_bytes]. Qed.
#[export] Hint Resolve Bytes32_hash : evm.
#[export] Hint Resolve SetUint64_ok Clear_ok SetOne_ok of_Z_ok : evm.

Section InstrSafety.
Context {S : Type} `{StateDBSpec S} `{Mode}.
#[local] Abbreviation safe := (exec_ok (S := S) always).

(** Open an [exec_ok] goal with [n] operands exposed. *)
#[local] Tactic Notation "exec" int_or_var(k) reference(n) :=
  let env := fresh "env" in let calls := fresh "calls" in let c := fresh "c" in let G := fresh "G" in
  intros env calls c G He Hc Hcalls Hguard Hpm Hs0 Hgw Hnc Hp Hh Ha;
  destruct Hc as [Hpc Hs Hl Hm Hr Hk Hev]; unfold n; expose c k.
#[local] Tactic Notation "exec0" reference(n) :=
  let env := fresh "env" in let calls := fresh "calls" in let c := fresh "c" in let G := fresh "G" in
  intros env calls c G He Hc Hcalls Hguard Hpm Hs0 Hgw Hnc Hp Hh Ha;
  destruct Hc as [Hpc Hs Hl Hm Hr Hk Hev]; unfold n.

Lemma binop_ok f :
  (forall x y, int_ok x -> int_ok y -> exists z, f x y = Ret z /\ int_ok z) ->
  safe (binop f) 2 1 [] true no_slack.
Proof.
  intros Hf. exec 2 binop. destruct (Hf x x0) as (z & Hz & Hzk); [done..|].
  wp_steps. eapply wp_lift; [exact Hz|]. wp_steps. ctx_done.
Qed.

Lemma unop_ok f :
  (forall x, int_ok x -> exists z, f x = Ret z /\ int_ok z) -> safe (unop f) 1 1 [] true no_slack.
Proof.
  intros Hf. exec 1 unop. destruct (Hf x) as (z & Hz & Hzk); [done..|].
  wp_steps. eapply wp_lift; [exact Hz|]. wp_steps. ctx_done.
Qed.

Lemma pure2_ok f : (forall x y, int_ok x -> int_ok y -> int_ok (f x y)) ->
  safe (binop (pure2 f)) 2 1 [] true no_slack.
Proof. intros Hf. apply binop_ok. intros x y ? ?. exists (f x y). split; [done|auto]. Qed.
Lemma cond2_ok f : safe (binop (cond2 f)) 2 1 [] true no_slack.
Proof.
  apply binop_ok. intros x y ? ?. unfold cond2. destruct (f x y); eexists; split; try done; auto with evm.
Qed.
Lemma total2_ok (f : Int -> Int -> outcome Int) g :
  (forall x y, int_ok x -> int_ok y -> f x y = Ret (of_Z (g x y))) -> safe (binop f) 2 1 [] true no_slack.
Proof. intros Hf. apply binop_ok. intros x y ? ?. rewrite Hf by done. eauto with evm. Qed.

Lemma opAdd_ok : safe opAdd 2 1 [] true no_slack.
Proof. apply pure2_ok. intros. rewrite Add_spec by done. auto with evm. Qed.
Lemma opSub_ok : safe opSub 2 1 [] true no_slack.
Proof. apply pure2_ok. intros. rewrite Sub_spec by done. auto with evm. Qed.
Lemma opMul_ok : safe opMul 2 1 [] true no_slack.
Proof. apply pure2_ok. intros. rewrite Mul_spec by done. auto with evm. Qed.
Lemma opExp_ok : safe opExp 2 1 [] true no_slack.
Proof. apply pure2_ok. intros. rewrite Exp_spec by done. auto with evm. Qed.
Lemma opDiv_ok : safe opDiv 2 1 [] true no_slack.
Proof. eapply total2_ok. intros. by apply Div_ok. Qed.
Lemma opSdiv_ok : safe opSdiv 2 1 [] true no_slack.
Proof. eapply total2_ok. intros. by apply SDiv_ok. Qed.
Lemma opMod_ok : safe opMod 2 1 [] true no_slack.
Proof. eapply total2_ok. intros. by apply Mod_ok. Qed.
Lemma opSmod_ok : safe opSmod 2 1 [] true no_slack.
Proof. eapply total2_ok. intros. by apply SMod_ok. Qed.
Lemma opSignExtend_ok : safe opSignExtend 2 1 [] true no_slack.
Proof.
  apply pure2_ok. intros x y ? ?. rewrite ExtendSign_ok by done. destruct (31 <? val x); auto with evm.
Qed.
Lemma opNot_ok : safe opNot 1 1 [] true no_slack.
Proof. apply unop_ok. intros x ?. eexists. split; [done|]. by apply Not_spec. Qed.
Lemma opIszero_ok : safe opIszero 1 1 [] true no_slack.
Proof. apply unop_ok. intros x ?. eexists. split; [done|]. destruct (IsZero x); auto with evm. Qed.
Lemma opAnd_ok : safe opAnd 2 1 [] true no_slack.
Proof. apply pure2_ok. intros. by apply And_spec. Qed.
Lemma opOr_ok : safe opOr 2 1 [] true no_slack.
Proof. apply pure2_ok. intros. by apply Or_spec. Qed.
Lemma opXor_ok : safe opXor 2 1 [] true no_slack.
Proof. apply pure2_ok. intros. by apply Xor_spec. Qed.
Lemma opByte_ok : safe opByte 2 1 [] true no_slack.
Proof. apply pure2_ok. intros. rewrite Byte_ok by done. auto with evm. Qed.
Lemma opSHL_ok : safe opSHL 2 1 [] true no_slack.
Proof.
  apply pure2_ok. intros x y Hx Hy. destruct (LtUint64 x 256); [|auto with evm].
  pose proof (Uint64_range x Hx) as [? ?]. rewrite Lsh_ok by done. auto with evm.
Qed.
Lemma opSHR_ok : safe opSHR 2 1 [] true no_slack.
Proof.
  apply pure2_ok. intros x y Hx Hy. destruct (LtUint64 x 256); [|auto with evm].
  pose proof (Uint64_range x Hx) as [? ?]. rewrite Rsh_ok by done. auto with evm.
Qed.
Lemma opSAR_ok : safe opSAR 2 1 [] true no_slack.
Proof.
  apply pure2_ok. intros x y Hx Hy. pose proof (Uint64_range x Hx) as [? ?].
  destruct (GtUint64 x 256); [destruct (0 <=? Sign y); [auto with evm|exact (of_Z_ok (-1))]|].
  rewrite SRsh_ok by done. auto with evm.
Qed.
Lemma opAddmod_ok : safe opAddmod 3 1 [] true no_slack.
Proof.
  exec 3 opAddmod. wp_steps. eapply (wp_lift _ (if IsZero x1 then Clear else _)).
  - destruct (IsZero x1); [done|]. by apply AddMod_ok.
  - wp_steps. ctx_done. constructor; [|done]. destruct (IsZero x1); auto with evm.
Qed.
Lemma opMulmod_ok : safe opMulmod 3 1 [] true no_slack.
Proof.
  exec 3 opMulmod. wp_steps. eapply wp_lift; [by apply MulMod_ok|]. wp_steps. ctx_done.
Qed.

(** ** Environment and state *)
Lemma wp_SetBytes b (Q : Int -> Ctx S -> Prop) c :
  bytes_ok b -> (forall z, int_ok z -> Q z c) -> wp (lift (SetBytes b)) Q c.
Proof. intros Hb HQ. eapply wp_lift; [by apply SetBytes_ok|]. apply HQ. auto with evm. Qed.
Lemma FromBig_ok b : int_ok (FromBig b).1.
Proof. unfold FromBig. rewrite SetFromBig_ok. apply of_Z_ok. Qed.
Lemma SetFromBig_int b : int_ok (SetFromBig b).1.
Proof. rewrite SetFromBig_ok. apply of_Z_ok. Qed.
Lemma len_u64 b : is_slice b -> is_u64 (len b).
Proof. intros [_ ?]. pose proof (len_nonneg b). unfold is_u64, max_slice in *. lia. Qed.
#[local] Hint Resolve FromBig_ok SetFromBig_int len_u64 : evm.

Lemma push_ok (ex : @executionFunc S) f :
  (forall env calls c, env_ok env -> ctx_ok c ->
     ex env calls c = Ret (([], None), set_stack (f env c :: stack c) c) /\ int_ok (f env c)) ->
  safe ex 0 1 [] true no_slack.
Proof.
  intros Hf env calls c G He Hc Hcalls Hguard Hpm Hs0 Hgw Hnc Hp Hh Ha. unfold wp.
  destruct (Hf env calls c He Hc) as [-> ?]. destruct Hc as [Hpc Hs Hl Hm Hr Hk Hev].
  ctx_done.
Qed.

#[local] Ltac push_tac :=
  intros env calls c He Hc; split; [reflexivity|];
  try (destruct Hc as [? ? ? ? ? Hk ?]; destruct Hk; destruct He; auto with evm).

Lemma opCallDataSize_ok : safe opCallDataSize 0 1 [] true no_slack.
Proof. eapply push_ok. push_tac. Qed.
Lemma opCodeSize_ok : safe opCodeSize 0 1 [] true no_slack.
Proof. eapply push_ok. push_tac. Qed.
Lemma opGasprice_ok : safe opGasprice 0 1 [] true no_slack.
Proof. eapply push_ok. push_tac. Qed.
Lemma opTimestamp_ok : safe opTimestamp 0 1 [] true no_slack.
Proof. eapply push_ok. push_tac. Qed.
Lemma opNumber_ok : safe opNumber 0 1 [] true no_slack.
Proof. eapply push_ok. push_tac. Qed.
Lemma opDifficulty_ok : safe opDifficulty 0 1 [] true no_slack.
Proof. eapply push_ok. push_tac. Qed.
Lemma opGasLimit_ok : safe opGasLimit 0 1 [] true no_slack.
Proof. eapply push_ok. push_tac. Qed.
Lemma opPc_ok : safe opPc 0 1 [] true no_slack.
Proof. eapply push_ok. push_tac. apply SetUint64_ok. unfold is_u64, max_slice in *. lia. Qed.
Lemma opGas_ok : safe opGas 0 1 [] true no_slack.
Proof. eapply push_ok. push_tac. Qed.
Lemma opReturnDataSize_ok : safe opReturnDataSize 0 1 [] true no_slack.
Proof. eapply push_ok. push_tac. apply SetUint64_ok, len_u64. by apply e_data. Qed.
Lemma opMsize_ok : safe opMsize 0 1 [] true no_slack.
Proof.
  eapply push_ok. push_tac. apply SetUint64_ok. pose proof (mem_max _ c_mem) as Hx.
  pose proof (len_nonneg (store (memory c))). unfold Len, is_u64, max_mem in *. lia.
Qed.

Lemma pushBytes_ok (ex : @executionFunc S) f :
  (forall env calls c, env_ok env -> ctx_ok c -> ex env calls c = pushBytes (f env c) c /\ bytes_ok (f env c)) ->
  safe ex 0 1 [] true no_slack.
Proof.
  intros Hf. apply (push_ok ex (fun env c => of_Z (be_val (drop (length (f env c) - 32) (f env c))))).
  intros env calls c He Hc. destruct (Hf env calls c He Hc) as [-> Hb]. split; [|auto with evm].
  unfold pushBytes, lift, mbind, M_bind. cbv [outcome_bind mbind]. by rewrite SetBytes_ok.
Qed.
Lemma opAddress_ok : safe opAddress 0 1 [] true no_slack.
Proof. eapply pushBytes_ok. push_tac. apply k_self. Qed.
Lemma opCaller_ok : safe opCaller 0 1 [] true no_slack.
Proof. eapply pushBytes_ok. push_tac. apply k_caller. Qed.
Lemma opOrigin_ok : safe opOrigin 0 1 [] true no_slack.
Proof. eapply pushBytes_ok. push_tac. apply env_origin. Qed.
Lemma opCoinbase_ok : safe opCoinbase 0 1 [] true no_slack.
Proof. eapply pushBytes_ok. push_tac. apply env_coinbase. Qed.

Lemma opCallValue_ok : safe opCallValue 0 1 [] true no_slack.
Proof.
  exec0 opCallValue. wp_steps. pose proof (k_value _ Hk). destruct (value (contract c)); [|done].
  unfold pushBig. wp_steps. ctx_done.
Qed.
Lemma opChainID_ok : safe opChainID 0 1 [] true no_slack.
Proof.
  exec0 opChainID. pose proof (env_chainid _ He). destruct (configChainID env); [|done].
  unfold pushBig. wp_steps. ctx_done.
Qed.
Lemma opSelfBalance_ok : safe opSelfBalance 0 1 [] true no_slack.
Proof.
  exec0 opSelfBalance. wp_steps. unfold pushBig. wp_steps. ctx_done.
Qed.

Lemma opPop_ok : safe opPop 1 0 [] true no_slack.
Proof. exec 1 opPop. wp_steps. ctx_done. Qed.
Lemma opBalance_ok : safe opBalance 1 1 [] true no_slack.
Proof. exec 1 opBalance. wp_steps. ctx_done. Qed.
Lemma opExtCodeSize_ok : safe opExtCodeSize 1 1 [] true no_slack.
Proof.
  exec 1 opExtCodeSize. wp_steps. ctx_done. constructor; [|done]. apply SetUint64_ok.
  unfold is_u64, max_slice in *. lia.
Qed.
Lemma opExtCodeHash_ok : safe opExtCodeHash 1 1 [] true no_slack.
Proof.
  exec 1 opExtCodeHash. wp_steps. destruct r; wp_steps; [ctx_done|].
  destruct Hdb0 as [? _]. apply wp_SetBytes; [done|]. intros z Hz. wp_steps. ctx_done.
Qed.
Lemma opBlockhash_ok : safe opBlockhash 1 1 [] true no_slack.
Proof.
  exec 1 opBlockhash. wp_steps. destruct (Uint64WithOverflow x) as [n o]. destruct o; wp_steps; [ctx_done|].
  match goal with |- context [if ?b then _ else _] => destruct b end; wp_steps; [|ctx_done].
  apply wp_SetBytes; [apply (env_hash _ He)|]. intros z Hz. wp_steps. ctx_done.
Qed.
Lemma opSload_ok : safe opSload 1 1 [] true no_slack.
Proof.
  exec 1 opSload. wp_steps. destruct Hdb as [? _]. apply wp_SetBytes; [done|].
  intros z Hz. wp_steps. ctx_done.
Qed.
Lemma opSstore_ok : exec_ok (S := S) may_write opSstore 2 0 [] true no_slack.
Proof. exec 2 opSstore. wp_steps. ctx_done. Qed.
Lemma opSuicide_ok : exec_ok (S := S) may_write opSuicide 1 0 [] true no_slack.
Proof. exec 1 opSuicide. wp_steps. ctx_done. Qed.
Lemma opStop_ok : safe opStop 0 0 [] true no_slack.
Proof. exec0 opStop. wp_steps. ctx_done. Qed.
Lemma opJumpdest_ok : safe opJumpdest 0 0 [] true no_slack.
Proof. exec0 opJumpdest. wp_steps. ctx_done. Qed.
Lemma opBeginSub_ok : safe opBeginSub 0 0 [] true no_slack.
Proof. exec0 opBeginSub. wp_steps. ctx_done. Qed.

(** ** Memory *)
Lemma opCallDataLoad_ok : safe opCallDataLoad 1 1 [] true no_slack.
Proof.
  exec 1 opCallDataLoad. wp_steps. destruct (Uint64WithOverflow x) as [n o] eqn:Eu.
  rewrite Uint64WithOverflow_spec in Eu by done. injection Eu as <- <-.
  destruct (val x <? W); cbn [negb]; wp_steps; [|ctx_done].
  destruct (k_input _ Hk) as [Hib Hil].
  destruct (getData_ok (Input (contract c)) (val x mod W) 32) as (d & Hd & Hb & _); try done.
  { unfold is_u64. apply Z.mod_pos_bound. lia. }
  eapply wp_lift; [exact Hd|]. apply wp_SetBytes; [done|]. intros z Hz. wp_steps. ctx_done.
Qed.

Lemma area_get st m i j x y areas : Forall (area_ok st m) areas -> AreaAt i j ∈ areas ->
  st !! i = Some x -> st !! j = Some y -> val y < W /\ covered x y m.
Proof. intros Ha Hin Hx Hy. rewrite list.Forall_forall in Ha. exact (Ha _ Hin x y Hx Hy). Qed.
Lemma area_get_const st m i n x areas : Forall (area_ok st m) areas -> AreaConst i n ∈ areas ->
  st !! i = Some x -> val x + n <= Len m.
Proof. intros Ha Hin Hx. rewrite list.Forall_forall in Ha. exact (Ha _ Hin x Hx). Qed.

(** The area at stack positions [i], [j] is covered. *)
#[local] Tactic Notation "area" constr(i) constr(j) "as" simple_intropattern(p) :=
  match goal with Ha : Forall (area_ok _ _) _ |- _ =>
    destruct (area_get _ _ i j _ _ _ Ha ltac:(by repeat constructor) eq_refl eq_refl) as p end.

Lemma wp_GetPtr off l m (Q : bytes -> Ctx S -> Prop) c :
  int_ok off -> int_ok l -> val l < W -> mem_ok m -> covered off l m ->
  (forall b, is_slice b -> len b = val l -> Q b c) ->
  wp (lift (GetPtr (to_int64 (Uint64 off)) (to_int64 (Uint64 l)) m)) Q c.
Proof.
  intros Ho Hl Hw Hm Hc HQ. destruct (GetPtr_covered off l m) as (b & E & _ & Hb & Hlen & _); try done.
  eapply wp_lift; [exact E|]. apply HQ; [|done]. split; [done|].
  destruct Hc as [Hc|Hc]; [unfold max_slice; lia|].
  pose proof (mem_max _ Hm). pose proof (val_range off Ho). unfold max_slice, max_mem in *. lia.
Qed.
Lemma wp_GetCopy off l m (Q : bytes -> Ctx S -> Prop) c :
  int_ok off -> int_ok l -> val l < W -> mem_ok m -> covered off l m ->
  (forall b, is_slice b -> len b = val l -> Q b c) ->
  wp (lift (GetCopy (to_int64 (Uint64 off)) (to_int64 (Uint64 l)) m)) Q c.
Proof.
  intros Ho Hl Hw Hm Hc HQ. destruct (GetPtr_covered off l m) as (b & E1 & E2 & _); try done.
  rewrite E2, <- E1. by apply wp_GetPtr.
Qed.
Lemma wp_memSet off l v c (Q : () -> Ctx S -> Prop) :
  int_ok off -> int_ok l -> val l < W -> mem_ok (memory c) -> covered off l (memory c) -> bytes_ok v ->
  (forall m, mem_ok m -> Len m = Len (memory c) -> Q () (set_memory m c)) -> wp (memSet off l v) Q c.
Proof.
  intros Ho Hl Hw Hm Hc Hv HQ. destruct (Set_covered off l v (memory c)) as (m & E & ? & ? & _); try done.
  unfold wp, memSet. rewrite E. by apply HQ.
Qed.

Lemma opSha3_ok : safe opSha3 2 1 [AreaAt 0 1] true no_slack.
Proof.
  exec 2 opSha3. area 0%nat 1%nat as [Hw Hcov]. wp_steps. apply wp_GetPtr; try done. intros b Hb _.
  wp_steps. destruct (EnablePreimageRecording env); wp_steps;
    (apply wp_SetBytes; [apply (env_keccak _ He)|]; intros z Hz; wp_steps; ctx_done).
Qed.

Lemma offset64_u64 x : int_ok x -> is_u64 (offset64 x).
Proof.
  intros Hx. unfold offset64. rewrite Uint64WithOverflow_spec by done.
  destruct (val x <? W); cbn [negb]; unfold is_u64; [|lia]. apply Z.mod_pos_bound. lia.
Qed.
(** A covered length is a possible slice length. *)
Lemma covered_size off l m : int_ok off -> int_ok l -> val l < W -> mem_ok m -> covered off l m ->
  0 <= Uint64 l <= max_slice.
Proof.
  intros Ho Hl Hw Hm Hc. pose proof (val_range l Hl). pose proof (val_range off Ho).
  rewrite val_small_w0 by done. pose proof (mem_max _ Hm).
  destruct Hc; unfold max_slice, max_mem in *; lia.
Qed.

(** Copy a slice of [data] into the memory: CALLDATACOPY, CODECOPY,
    EXTCODECOPY. *)
Lemma wp_copyData data start off l c (Q : bytes * option error -> Ctx S -> Prop) :
  is_slice data -> is_u64 start -> int_ok off -> int_ok l -> val l < W -> mem_ok (memory c) ->
  covered off l (memory c) ->
  (forall m, mem_ok m -> Len m = Len (memory c) -> Q ([], None) (set_memory m c)) ->
  wp (d ← lift (getData data start (Uint64 l)); _ ← memSet off l d; nothing) Q c.
Proof.
  intros [Hd Hdl] Hs Ho Hl Hw Hm Hc HQ.
  destruct (getData_ok data start (Uint64 l)) as (d & E & Hb & _); try done; [by apply (covered_size off l (memory c))|].
  apply wp_bind. eapply wp_lift; [exact E|]. apply wp_bind. apply wp_memSet; try done.
Qed.

Lemma opCallDataCopy_ok : safe opCallDataCopy 3 0 [AreaAt 0 2] true no_slack.
Proof.
  exec 3 opCallDataCopy. area 0%nat 2%nat as [Hw Hcov]. do 8 wp_step.
  apply wp_copyData; try done; [apply (k_input _ Hk)|by apply offset64_u64|].
  intros m Hm' Hlen. ctx_done.
Qed.
Lemma opCodeCopy_ok : safe opCodeCopy 3 0 [AreaAt 0 2] true no_slack.
Proof.
  exec 3 opCodeCopy. area 0%nat 2%nat as [Hw Hcov]. do 8 wp_step.
  apply wp_copyData; try done; [apply (k_code _ Hk)|by apply offset64_u64|].
  intros m Hm' Hlen. ctx_done.
Qed.
Lemma opExtCodeCopy_ok : safe opExtCodeCopy 4 0 [AreaAt 1 3] true no_slack.
Proof.
  exec 4 opExtCodeCopy. area 1%nat 3%nat as [Hw Hcov]. do 10 wp_step.
  apply wp_copyData; try done; [by apply offset64_u64|].
  intros m Hm' Hlen. ctx_done.
Qed.

Lemma opReturnDataCopy_ok : safe opReturnDataCopy 3 0 [AreaAt 0 2] true no_slack.
Proof.
  exec 3 opReturnDataCopy. area 0%nat 2%nat as [Hw Hcov]. wp_steps.
  pose proof (val_range x0 ltac:(done)). pose proof (val_range x1 ltac:(done)).
  rewrite !Uint64WithOverflow_spec by (done || (rewrite Add_spec by done; apply of_Z_ok)).
  rewrite Add_spec, val_of_Z by done.
  destruct (Z.ltb_spec (val x0) W); cbn [negb]; [|wp_steps; ctx_done].
  rewrite (Z.mod_small (val x0 + val x1)) by (unfold W256; lia).
  destruct (Z.ltb_spec (val x0 + val x1) W); cbn [negb orb]; [|wp_steps; ctx_done].
  rewrite !Z.mod_small by lia. set (d := returnData (evm c)) in *.
  destruct (Z.ltb_spec (len d) (val x0 + val x1)); [wp_steps; ctx_done|].
  assert (slice_ok (val x0) (val x0 + val x1) d = true) as -> by (apply slice_ok_true; lia). cbn [negb].
  wp_steps. apply wp_memSet; try done; [apply bytes_ok_slice, (e_data _ Hev)|].
  intros m Hm' _. wp_steps. ctx_done.
Qed.

Lemma opMload_ok : safe opMload 1 1 [AreaConst 0 32] true no_slack.
Proof.
  exec 1 opMload. pose proof (area_get_const _ _ 0%nat 32 x _ Ha ltac:(by repeat constructor) eq_refl) as Hcov.
  pose proof (mem_max _ Hm). pose proof (val_range x ltac:(done)). wp_steps.
  change 32 with (to_int64 (Uint64 (SetUint64 32))).
  apply wp_GetPtr; try done; [right; exact Hcov|].
  intros b [Hb _] _. apply wp_bind, wp_SetBytes; [done|]. intros z Hz. wp_steps. ctx_done.
Qed.
Lemma opMstore_ok : safe opMstore 2 0 [AreaConst 0 32] true no_slack.
Proof.
  exec 2 opMstore. pose proof (area_get_const _ _ 0%nat 32 x _ Ha ltac:(by repeat constructor) eq_refl) as Hcov.
  pose proof (mem_max _ Hm). pose proof (val_range x ltac:(done)). wp_steps.
  rewrite val_small_w0 by (done || unfold max_mem in *; lia).
  eapply wp_lift; [apply Set32_spec; done || lia|]. wp_steps. ctx_done.
  apply mem_ok_store; [done| |].
  - rewrite !Forall_app. split_and!; [by apply Forall_take, mem_bytes|apply be_bytes_ok|by apply Forall_drop, mem_bytes].
  - unfold Len, len in *. rewrite !length_app, length_be_bytes, length_take, length_drop. lia.
Qed.
Lemma opMstore8_ok : safe opMstore8 2 0 [AreaConst 0 1] true no_slack.
Proof.
  exec 2 opMstore8. pose proof (area_get_const _ _ 0%nat 1 x _ Ha ltac:(by repeat constructor) eq_refl) as Hcov.
  pose proof (mem_max _ Hm). pose proof (val_range x ltac:(done)). wp_steps.
  rewrite val_small_w0 by (done || unfold max_mem in *; lia).
  destruct (Z.ltb_spec (val x) (Len (memory c))); [|lia]. wp_steps. ctx_done.
  apply mem_ok_store; [done| |].
  - apply Forall_insert; [by apply mem_bytes|]. unfold is_byte. apply Z.mod_pos_bound. lia.
  - unfold Len, len in *. by rewrite length_insert.
Qed.

(** ** Jumps *)
Lemma segment_safe a k udest : 0 <= udest < len (Code k) ->
  segment a k udest = PanicAt PHash \/ exists b, segment a k udest = Ret b.
Proof.
  intros Hu. unfold segment. destruct (Z.eqb_spec (len a) (len (Code k) / 8 + 5)).
  - rewrite codeSegment_bit by dlia. eauto.
  - destruct (codeSegment a udest) eqn:E; eauto. unfold codeSegment in E. by case_match.
Qed.

(** A destination check changes only the cached analyses. *)
Definition dest_post (dest : Z) (k : Contract) (r : outcome (bool * Contract * jumpdest_map)) : Prop :=
  match r with
  | Ret (b, k', _) => (b = true -> dest < len (Code k)) /\ exists a, k' = set_analysis a k
  | PanicAt PCode => False
  | PanicAt _ => True
  | NoFuel => False
  end.
Lemma set_analysis_same k : k = set_analysis (analysis k) k.
Proof. by destruct k. Qed.

Lemma dest_post_no dest k j : dest_post dest k (Ret (false, k, j)).
Proof. split; [done|]. eexists. apply set_analysis_same. Qed.

Lemma isCode_post udest k j : bytes_ok (Code k) -> 0 <= udest < len (Code k) ->
  dest_post udest k (isCode udest k j).
Proof.
  intros Hb Hu. unfold isCode. destruct (codeBitmap_ok (Code k) Hb) as (bm & Ebm & _).
  assert (Hseg : forall a (j' : jumpdest_map) k', (exists a', k' = set_analysis a' k) ->
    dest_post udest k (b ← segment a k udest; Ret (b, k', j'))).
  { intros a j' k' Hk'. destruct (segment_safe a k udest Hu) as [->|[b ->]]; [done|]. split; [lia|done]. }
  destruct (analysis k) as [a|] eqn:Ea; [apply Hseg; eexists; apply set_analysis_same|].
  destruct (negb _).
  - destruct (j !! CodeHash k) as [a|]; [apply Hseg; eauto|]. rewrite Ebm. apply Hseg; eauto.
  - rewrite Ebm. apply Hseg; eauto.
Qed.
Lemma validJumpdest_post pos k j : int_ok pos -> bytes_ok (Code k) ->
  dest_post (Uint64 pos) k (validJumpdest pos k j).
Proof.
  intros Hp Hb. unfold validJumpdest. rewrite Uint64WithOverflow_spec by done.
  rewrite <- Uint64_spec by done. pose proof (Uint64_range pos Hp) as [? _].
  destruct (negb (val pos <? W)); [apply dest_post_no|cbn [orb]].
  destruct (Z.leb_spec (len (Code k)) (Uint64 pos)); [apply dest_post_no|].
  destruct (negb _); [apply dest_post_no|]. apply isCode_post; [done|lia].
Qed.
Lemma validJumpSubdest_post u k j : is_u64 u -> bytes_ok (Code k) -> dest_post u k (validJumpSubdest u k j).
Proof.
  intros Hu Hb. unfold validJumpSubdest. unfold is_u64 in Hu.
  destruct (to_int64 u <? 0); [apply dest_post_no|cbn [orb]].
  destruct (Z.leb_spec (len (Code k)) u); [apply dest_post_no|].
  destruct (negb _); [apply dest_post_no|]. apply isCode_post; [done|lia].
Qed.
Lemma contract_ok_analysis k a : contract_ok k -> contract_ok (set_analysis a k).
Proof. intros []. by split. Qed.
Lemma wp_checkDest dest f c (Q : bool -> Ctx S -> Prop) :
  dest_post dest (contract c) (f (contract c) (jumpdests (evm c))) ->
  (forall b a j, (b = true -> dest < len (Code (contract c))) -> Q b (set_evm (set_jumpdests j (evm c)) (set_contract (set_analysis a (contract c)) c))) ->
  wp (checkDest f) Q c.
Proof.
  intros Hd HQ. unfold wp, checkDest. cbv [mbind outcome_bind].
  destruct (f (contract c) (jumpdests (evm c))) as [[[b k'] j]|[]|]; try done. destruct Hd as [Hb [a ->]]. by apply HQ.
Qed.
Lemma evm_ok_jumpdests (e : EVM S) j : evm_ok e -> evm_ok (set_jumpdests j e).
Proof. intros []. by split. Qed.
#[local] Hint Resolve contract_ok_analysis evm_ok_jumpdests Uint64_range : evm.

Lemma next_pc (p n : Z) : 0 <= p <= max_slice + 64 -> 0 <= n <= 32 -> add64 p n = p + n.
Proof. intros. apply add64_nowrap; unfold is_u64, max_slice in *; lia. Qed.
#[local] Ltac use_dest :=
  repeat match goal with H : true = true -> _ |- _ => specialize (H eq_refl) end.

Lemma opJump_ok : safe opJump 1 0 [] true no_slack.
Proof.
  exec 1 opJump. wp_steps. destruct (k_code _ Hk) as [Hcb ?]. pose proof (Uint64_range x ltac:(done)) as [? _].
  eapply wp_checkDest; [by apply validJumpdest_post|]. intros b a j Hb.
  destruct b; cbn [negb]; use_dest; wp_steps; ctx_done.
Qed.
Lemma opJumpi_ok : safe opJumpi 2 0 [] true no_slack.
Proof.
  exec 2 opJumpi. wp_steps. destruct (k_code _ Hk) as [Hcb ?]. pose proof (Uint64_range x ltac:(done)) as [? _].
  destruct (negb (IsZero x0)).
  - wp_steps. eapply wp_checkDest; [by apply validJumpdest_post|]. intros b a j Hb.
    destruct b; cbn [negb]; use_dest; wp_steps; ctx_done.
  - wp_steps. rewrite next_pc by lia. ctx_done.
Qed.
Lemma opJumpSub_ok : safe opJumpSub 1 0 [] true no_slack.
Proof.
  exec 1 opJumpSub. wp_steps. destruct (1023 <=? _); [wp_steps; ctx_done; rewrite Hst; [by constructor|done]|].
  wp_steps. destruct (negb (IsUint64 x)); [wp_steps; ctx_done|]. wp_steps. destruct (k_code _ Hk) as [Hcb ?].
  pose proof (Uint64_range x ltac:(done)) as [? ?].
  eapply wp_checkDest; [by apply validJumpSubdest_post|]. intros b a j Hb.
  destruct b; cbn [negb]; use_dest; wp_steps; [|ctx_done]. rewrite next_pc by lia. ctx_done.
  constructor; [|done]. apply Z.mod_pos_bound. lia.
Qed.
Lemma opReturnSub_ok : safe opReturnSub 0 0 [] true no_slack.
Proof.
  exec0 opReturnSub. wp_steps. destruct (rstack c) as [|p rs] eqn:Er; cbn [length Z.of_nat Z.eqb].
  - wp_steps. ctx_done. by rewrite Er.
  - apply list.Forall_cons in Hr as [? ?]. 
    change (Z.of_nat (Datatypes.S (length rs)) =? 0) with false. cbv iota. wp_step.
    eapply wp_lift; [reflexivity|]. cbv beta iota. wp_steps.
    rewrite next_pc by (unfold max_slice; lia). ctx_done; unfold max_slice; lia.
Qed.

(** ** Halting, logs, pushes *)
Lemma opReturn_ok : safe opReturn 2 0 [AreaAt 0 1] true no_slack.
Proof.
  exec 2 opReturn. area 0%nat 1%nat as [Hw Hcov]. wp_steps. apply wp_GetPtr; try done. intros b Hb _.
  wp_steps. ctx_done.
Qed.
Lemma opRevert_ok : safe opRevert 2 0 [AreaAt 0 1] true no_slack.
Proof. exact opReturn_ok. Qed.

Lemma wp_popTopics n : forall c (Q : list (list Z) -> Ctx S -> Prop),
  (n <= length (stack c))%nat -> (forall ts, Q ts (set_stack (drop n (stack c)) c)) -> wp (popTopics n) Q c.
Proof.
  induction n as [|n IH]; intros c Q Hn HQ; cbn [popTopics].
  - apply wp_ret. specialize (HQ []). rewrite drop_0 in HQ. by destruct c.
  - destruct (stack c) as [|x st] eqn:Hst; [simpl in Hn; lia|].
    wp_step. wp_step. wp_step. apply IH; [simpl in *; lia|]. intros ts. wp_step. exact (HQ _).
Qed.
Lemma makeLog_ok (n : nat) : exec_ok (S := S) may_write (makeLog n) (Z.of_nat n + 2) 0 [AreaAt 0 1] true no_slack.
Proof.
  exec 2 makeLog. area 0%nat 1%nat as [Hw Hcov]. do 5 wp_step.
  apply wp_popTopics; [ctx_simpl; lia|]. intros ts. wp_steps. apply wp_GetCopy; try done. intros b Hb _.
  wp_steps. ctx_done; [by apply Forall_drop|]. rewrite length_drop. lia.
Qed.

Lemma code_byte_ok k n : contract_ok k -> 0 <= n < len (Code k) -> is_byte (Code k !!! Z.to_nat n).
Proof.
  intros Hk Hn. destruct (k_code _ Hk) as [Hcb _]. eapply Forall_lookup_1; [exact Hcb|].
  apply list_lookup_lookup_total_lt. unfold len in *. lia.
Qed.
Lemma opPush1_ok : safe opPush1 0 1 [] true no_slack.
Proof.
  exec0 opPush1. wp_steps. rewrite next_pc by lia.
  destruct (Z.ltb_spec (pc c + 1) (len (Code (contract c)))); unfold pushUint64; wp_steps; ctx_done.
  constructor; [|done]. apply SetUint64_ok.
  pose proof (code_byte_ok (contract c) (pc c + 1) Hk ltac:(lia)). unfold is_byte, is_u64 in *. lia.
Qed.
Lemma bytes_ok_pad b l : bytes_ok b -> bytes_ok (RightPadBytes b l).
Proof.
  intros Hb. unfold RightPadBytes. destruct (_ <=? _); [done|]. apply Forall_app; split; [done|].
  apply bytes_ok_replicate.
Qed.
Lemma makePush_ok n : 0 <= n <= 32 -> safe (makePush n n) 0 1 [] true no_slack.
Proof.
  intros Hn. exec0 makePush. wp_steps. destruct (k_code _ Hk) as [Hcb Hcl].
  pose proof (len_nonneg (Code (contract c))). rewrite next_pc by lia.
  rewrite to_int64_nowrap by (unfold max_slice in *; lia).
  set (L := len (Code (contract c))) in *. set (s := if pc c + 1 <? L then _ else _).
  set (e := if s + n <? L then _ else _).
  assert (Hse : 0 <= s /\ s <= e <= L)
    by (subst e; destruct (Z.ltb_spec (s + n) L); subst s; destruct (Z.ltb_spec (pc c + 1) L); lia).
  assert (slice_ok s e (Code (contract c)) = true) as -> by (apply slice_ok_true; lia). cbn [negb].
  wp_steps. apply wp_SetBytes; [by apply bytes_ok_pad, bytes_ok_slice|]. intros z Hz. wp_steps.
  rewrite next_pc by lia. ctx_done.
Qed.
Lemma makeDup_ok (n : nat) : (0 < n)%nat -> safe (makeDup n) (Z.of_nat n) (Z.of_nat n + 1) [] true no_slack.
Proof.
  intros Hn. exec0 makeDup. wp_steps. destruct n as [|i]; [lia|]. cbn [dup].
  destruct (Back_ok i (stack c)) as (x & E & Hx & _); [done|lia|]. eapply wp_lift; [by rewrite E|].
  unfold push. wp_steps. ctx_done.
Qed.
Lemma makeSwap_ok (n : nat) :
  safe (makeSwap n) (Z.of_nat n + 1) (Z.of_nat n + 1) [] true no_slack.
Proof.
  exec0 makeSwap. wp_steps. destruct (lookup_lt_is_Some_2 (stack c) n ltac:(lia)) as [x Hx].
  destruct (lookup_lt_is_Some_2 (stack c) 0 ltac:(lia)) as [y Hy].
  destruct (swap (n + 1) (stack c)) as [st|p|] eqn:E; rewrite ?Nat.add_1_r in E;
    [|by cbn [swap] in E; rewrite Hx, Hy in E..].
  destruct (swap_ok _ _ _ Hs E) as [? ?]. eapply wp_lift; [reflexivity|]. wp_steps. ctx_done.
Qed.

(** ** Calls and creations *)
(** The gas a call may give back: what was reserved, and the stipend. *)
Definition plain_slack (c : Ctx S) : Z := callGasTemp (evm c).
Definition value_slack (c : Ctx S) : Z :=
  callGasTemp (evm c) +
  match stack c !! 2%nat with Some v => if negb (IsZero v) then CallStipend else 0 | None => 0 end.

Lemma covered_len off l m m' : Len m' = Len m -> covered off l m -> covered off l m'.
Proof. unfold covered. by intros ->. Qed.

Lemma finishCall_ok inOff inSize retOff retSize args r slack (c0 c : Ctx S) :
  ctx_ok c -> frame c0 c -> pc c < max_slice ->
  int_ok inOff -> int_ok inSize -> int_ok retOff -> int_ok retSize -> val inSize < W -> val retSize < W ->
  covered inOff inSize (memory c) -> covered retOff retSize (memory c) -> bytes_ok args ->
  0 <= r.1.2 <= slack -> ret_ok r.1.1 -> Gas (contract c) + slack < W ->
  Z.of_nat (length (stack c)) + 1 <= StackLimit ->
  wp (finishCall inOff inSize retOff retSize args r) (fun r (c' : Ctx S) => ctx_ok c' /\ frame c0 c' /\ is_slice r.1 /\
      Gas (contract c') <= Gas (contract c) + slack /\ pc c' < max_slice + 64) c.
Proof.
  intros [Hpc Hs Hl Hm Hr Hk Hev] Hf Hpm Hio His Hro Hrs Hiw Hrw Hic Hrc Ha Hg Hret Hgw Hh.
  destruct r as [[ret returnGas] err]. cbn [fst snd] in *. unfold finishCall.
  set (flag := match err with Some _ => Clear | None => SetOne end).
  assert (Hflag : int_ok flag) by (subst flag; destruct err; auto with evm). clearbody flag.
  destruct (k_gas _ Hk) as [Hk0 Hkw].
  assert (Hdone : forall m, mem_ok m -> Len m = Len (memory c) ->
    wp (_ ← returnGasM returnGas; m ← gets memory;
        res ← match ret with Fresh b => mret b
              | InputSlice => lift (GetPtr (to_int64 (Uint64 inOff)) (to_int64 (Uint64 inSize)) m) end;
        mret (res, @None error)) (fun (r : bytes * option error) (c' : Ctx S) => ctx_ok c' /\ frame c0 c' /\ is_slice r.1 /\
      Gas (contract c') <= Gas (contract c) + slack /\ pc c' < max_slice + 64)
      (set_memory m (set_stack (flag :: stack c) c))).
  { intros m Hm' Hlen. unfold returnGasM. wp_steps. rewrite add64_nowrap by (unfold is_u64 in *; lia).
    assert (Hk' : contract_ok (set_gas (Gas (contract c) + returnGas) (contract c)))
      by (apply contract_ok_gas; [done|unfold is_u64; lia]).
    destruct Hf as [Hf1 Hf2 Hf3].
    destruct ret; wp_steps; [ctx_done|]. apply wp_GetPtr; try done; [by apply (covered_len _ _ (memory c))|].
    intros b Hb _. wp_steps. ctx_done. }
  do 2 wp_step. wp_step. destruct (_ || _).
  - apply wp_memSet; try done. destruct ret; [apply Hret|done].
  - wp_step. specialize (Hdone (memory c) Hm eq_refl). by destruct c.
Qed.

Lemma Bytes20_address x : int_ok x -> is_address (Bytes20 x).
Proof.
  intros Hx. rewrite Bytes20_ok by done. split; [apply be_bytes_ok|]. by rewrite length_be_bytes.
Qed.

(** The common course of the four calls, once the operands are popped. *)
Lemma callTail_ok (callf : Contract -> bytes -> M (EVM S) call_result) inOff inSize retOff retSize gas bound (c0 c : Ctx S) :
  ctx_ok c -> frame c0 c -> pc c < max_slice ->
  int_ok inOff -> int_ok inSize -> int_ok retOff -> int_ok retSize -> val inSize < W -> val retSize < W ->
  covered inOff inSize (memory c) -> covered retOff retSize (memory c) ->
  Gas (contract c) + gas = bound -> bound < W -> Z.of_nat (length (stack c)) + 1 <= StackLimit ->
  (forall input, is_slice input -> wp (callf (contract c) input) (call_post gas (evm c)) (evm c)) ->
  wp (args ← getArgs inOff inSize; k ← gets contract; r ← onEVM (callf k args);
      finishCall inOff inSize retOff retSize args r)
    (fun r (c' : Ctx S) => ctx_ok c' /\ frame c0 c' /\ is_slice r.1 /\
      Gas (contract c') <= bound /\ pc c' < max_slice + 64) c.
Proof.
  intros Hc Hf Hpm Hio His Hro Hrs Hiw Hrw Hic Hrc <- Hgw Hh Hcall.
  unfold getArgs. do 3 wp_step. apply wp_GetPtr; try done; [apply Hc|]. intros args Hargs _. do 3 wp_step.
  apply wp_onEVM. eapply wp_mono; [|exact (Hcall args Hargs)].
  intros r e' ([Hev Hd Hro' Hrel] & Hg & Hr & _). destruct Hc as [Hpc Hs Hl Hm Hrk Hk _].
  destruct Hf as [Hf1 Hf2 Hf3 Hf4]. rewrite Hf2 in Hrel.
  apply (finishCall_ok _ _ _ _ _ _ gas c0 (set_evm e' c)); try done; [split; ctx_simpl; first [solve_rel|congruence]|apply Hargs].
Qed.

Lemma call_gas_slack g v : is_u64 g -> 0 <= g + (if negb (IsZero v) then CallStipend else 0) < W ->
  (if negb (IsZero v) then add64 g CallStipend else g) = g + (if negb (IsZero v) then CallStipend else 0).
Proof.
  intros [? ?] ?. destruct (negb (IsZero v)); [|lia]. apply add64_nowrap; unfold is_u64, CallStipend in *; lia.
Qed.

Lemma opCall_ok : exec_ok (S := S) may_call opCall 7 1 [AreaAt 3 4; AreaAt 5 6] false value_slack.
Proof.
  exec 7 opCall. area 3%nat 4%nat as [Hw1 Hcov1]. area 5%nat 6%nat as [Hw2 Hcov2].
  specialize (Hnc eq_refl). unfold value_slack in *. rewrite Hst in *. cbn [lookup list_lookup] in *.
  pose proof (e_temp _ Hev). pose proof (k_gas _ Hk) as [? ?]. do 16 wp_step.
  rewrite call_gas_slack by (done || lia). set (gas := callGasTemp (evm c) + _) in *.
  eapply (callTail_ok (fun k args => cCall calls (ContractCaller k) (Bytes20 x0) args gas _)); try done; try (ctx_simpl; lia).
  - split; ctx_simpl; try done. lia.
  - intros input Hi. apply (call_ok _ _ Hcalls); try done; [lia| |by apply Bytes20_address].
    intros Hst'. ctx_simpl. rewrite IsZero_spec by done. by rewrite (Hguard Hst' x1 ltac:(by rewrite Hst)).
Qed.
Lemma opCallCode_ok : safe opCallCode 7 1 [AreaAt 3 4; AreaAt 5 6] false value_slack.
Proof.
  exec 7 opCallCode. area 3%nat 4%nat as [Hw1 Hcov1]. area 5%nat 6%nat as [Hw2 Hcov2].
  specialize (Hnc eq_refl). unfold value_slack in *. rewrite Hst in *. cbn [lookup list_lookup] in *.
  pose proof (e_temp _ Hev). pose proof (k_gas _ Hk) as [? ?]. do 16 wp_step.
  rewrite call_gas_slack by (done || lia). set (gas := callGasTemp (evm c) + _) in *.
  eapply (callTail_ok (fun k args => cCallCode calls (ContractCaller k) (Bytes20 x0) args gas _)); try done; try (ctx_simpl; lia).
  - split; ctx_simpl; try done. lia.
  - intros input Hi. apply (callcode_ok _ _ Hcalls); try done; [lia|by apply Bytes20_address].
Qed.
Lemma opDelegateCall_ok : safe opDelegateCall 6 1 [AreaAt 2 3; AreaAt 4 5] false plain_slack.
Proof.
  exec 6 opDelegateCall. area 2%nat 3%nat as [Hw1 Hcov1]. area 4%nat 5%nat as [Hw2 Hcov2].
  specialize (Hnc eq_refl). unfold plain_slack in *. pose proof (k_gas _ Hk) as [? ?]. do 14 wp_step.
  eapply (callTail_ok (fun k args => cDelegateCall calls (ContractCaller k) (Bytes20 x0) args _)); try done; try (ctx_simpl; lia).
  - split; ctx_simpl; try done. lia.
  - intros input Hi. apply (delegate_ok _ _ Hcalls); try done; [lia|by apply Bytes20_address].
Qed.
Lemma opStaticCall_ok : safe opStaticCall 6 1 [AreaAt 2 3; AreaAt 4 5] false plain_slack.
Proof.
  exec 6 opStaticCall. area 2%nat 3%nat as [Hw1 Hcov1]. area 4%nat 5%nat as [Hw2 Hcov2].
  specialize (Hnc eq_refl). unfold plain_slack in *. pose proof (k_gas _ Hk) as [? ?]. do 14 wp_step.
  eapply (callTail_ok (fun k args => cStaticCall calls (ContractCaller k) (Bytes20 x0) args _)); try done; try (ctx_simpl; lia).
  - split; ctx_simpl; try done. lia.
  - intros input Hi. apply (static_ok _ _ Hcalls); try done; [lia|by apply Bytes20_address].
Qed.

(** The common end of the two creations. *)
Lemma createTail_ok (stackvalue : M (Ctx S) Int) g bound (r : create_result) (c0 c : Ctx S) :
  ctx_ok c -> frame c0 c -> pc c < max_slice -> 0 <= r.1.2 <= g -> is_slice r.1.1.1 ->
  Gas (contract c) + g = bound -> bound < W -> Z.of_nat (length (stack c)) + 1 <= StackLimit ->
  (forall Q : Int -> Ctx S -> Prop, (forall z, int_ok z -> Q z c) -> wp stackvalue Q c) ->
  wp (z ← stackvalue; _ ← pushM z; _ ← returnGasM r.1.2;
      if is_err r.2 ErrExecutionReverted then mret (r.1.1.1, None) else nothing)
    (fun r (c' : Ctx S) => ctx_ok c' /\ frame c0 c' /\ is_slice r.1 /\
      Gas (contract c') <= bound /\ pc c' < max_slice + 64) c.
Proof.
  intros [Hpc Hs Hl Hm Hr Hk Hev] [Hf1 Hf2 Hf3] Hpm Hg Hret <- Hgw Hh Hv. wp_step. apply Hv. intros z Hz.
  destruct (k_gas _ Hk) as [Hk0 Hkw]. unfold returnGasM. do 4 wp_step.
  rewrite add64_nowrap by (unfold is_u64 in *; lia).
  assert (Hk' : contract_ok (set_gas (Gas (contract c) + r.1.2) (contract c)))
    by (apply contract_ok_gas; [done|unfold is_u64; lia]).
  destruct (is_err _ _); wp_steps; ctx_done.
Qed.
Lemma reserve_all_but_64th g : is_u64 g -> sub64 g (g / 64) = g - g / 64 /\ is_u64 (g - g / 64) /\ g - g / 64 <= g.
Proof. intros [? ?]. rewrite sub64_nowrap by (unfold is_u64; dlia). unfold is_u64. dlia. Qed.

Lemma opCreate_ok : exec_ok (S := S) may_write opCreate 3 1 [AreaAt 1 2] false no_slack.
Proof.
  exec 3 opCreate. area 1%nat 2%nat as [Hw Hcov]. specialize (Hnc eq_refl). unfold no_slack in *.
  do 9 wp_step. apply wp_GetCopy; try done. intros input Hi _. do 3 wp_step.
  pose proof (k_gas _ Hk) as Hg. destruct (reserve_all_but_64th _ Hg) as (E & Hg1 & Hg2). rewrite E.
  set (gas := if rIsEIP150 (chainRules env) then _ else _).
  assert (is_u64 gas /\ gas <= Gas (contract c)) as [Hgas Hle] by (subst gas; destruct (rIsEIP150 _); done).
  clearbody gas. apply wp_useGas; [done|done| |ctx_simpl; lia]. intros _. ctx_simpl. do 3 wp_step. apply wp_onEVM.
  assert (Hk' : contract_ok (set_gas (Gas (contract c) - gas) (contract c)))
    by (apply contract_ok_gas; [done|unfold is_u64 in *; lia]).
  eapply wp_mono; [|apply (create_ok _ _ Hcalls)]; try done; [|unfold is_u64 in *; lia].
  intros [[[res addr] rg] suberr] e' ([Hev' Hd Hro Hrel] & Hrg & Hres & [Haddr _]). cbn [fst snd] in *.
  eapply (createTail_ok _ gas _ (res, addr, rg, suberr)); try done; ctx_simpl; try lia.
  - split; ctx_simpl; try done. lia.
  - intros Q HQ. destruct (rIsHomestead _ && _); [apply wp_ret; auto with evm|].
    destruct (bool_decide _ && _); [apply wp_ret; auto with evm|by apply wp_SetBytes].
Qed.
Lemma opCreate2_ok : exec_ok (S := S) may_write opCreate2 4 1 [AreaAt 1 2] false no_slack.
Proof.
  exec 4 opCreate2. area 1%nat 2%nat as [Hw Hcov]. specialize (Hnc eq_refl). unfold no_slack in *.
  do 11 wp_step. apply wp_GetCopy; try done. intros input Hi _. do 3 wp_step.
  pose proof (k_gas _ Hk) as Hg. destruct (reserve_all_but_64th _ Hg) as (E & Hgas & Hle). rewrite E.
  set (gas := Gas (contract c) - _) in *. clearbody gas.
  apply wp_useGas; [done|done| |ctx_simpl; lia]. intros _. ctx_simpl. do 3 wp_step. apply wp_onEVM.
  assert (Hk' : contract_ok (set_gas (Gas (contract c) - gas) (contract c)))
    by (apply contract_ok_gas; [done|unfold is_u64 in *; lia]).
  eapply wp_mono; [|apply (create2_ok _ _ Hcalls)]; try done; [|unfold is_u64 in *; lia].
  intros [[[res addr] rg] suberr] e' ([Hev' Hd Hro Hrel] & Hrg & Hres & [Haddr _]). cbn [fst snd] in *.
  eapply (createTail_ok _ gas _ (res, addr, rg, suberr)); try done; ctx_simpl; try lia.
  - split; ctx_simpl; try done. lia.
  - intros Q HQ. destruct (bool_decide _); [apply wp_ret; auto with evm|by apply wp_SetBytes].
Qed.
End InstrSafety.
