(* ===== verification/GasSafety.v ===== *)
(** * Gas functions and memory sizes meet their specifications

    [memsize_ok] for every function of memory_table.go and [dyn_ok] for every
    function of gas_table.go: no overflow goes unnoticed, the price of the
    memory is the quadratic fee, and what a call may give back was charged. *)

From S2P Require Import Prelude Words Uint256 Uint256Arith Uint256Div Uint256Bits Params Config Stack Memory.
From S2P Require Import Opcodes Analysis State GasTable Instructions JumpTable Evm Interpreter Invariants.
From S2P Require Import InstrSafety.

(** ** The memory fee *)
Lemma mul64_nowrap x y : 0 <= x * y < W -> mul64 x y = x * y.
Proof. apply u64_small. Qed.
Lemma memory_fee_mono v w : 0 <= v <= w -> memory_fee v <= memory_fee w.
Proof.
  intros Hvw. unfold memory_fee, MemoryGas, QuadCoeffDiv.
  assert (v * v <= w * w) by nia. pose proof (Z.div_le_mono (v * v) (w * w) 512 ltac:(lia) ltac:(lia)). lia.
Qed.
Lemma memory_fee_u64 w : 0 <= w <= 0xffffffff -> is_u64 (w * w) /\ is_u64 (memory_fee w).
Proof.
  intros Hw. unfold memory_fee, MemoryGas, QuadCoeffDiv, is_u64.
  assert (0 <= w * w <= 0xffffffff * 0xffffffff) by nia.
  pose proof (Z.div_le_mono (w * w) (0xffffffff * 0xffffffff) 512 ltac:(lia) ltac:(lia)) as Hd.
  pose proof (Z.div_pos (w * w) 512 ltac:(lia) ltac:(lia)).
  change (0xffffffff * 0xffffffff / 512) with 36028797002186752 in Hd. lia.
Qed.

(** The gas charged is the difference of the fees of the two sizes. *)
Lemma memoryGasCost_ok m size gas err m' :
  mem_ok m -> is_u64 size -> size mod 32 = 0 -> memoryGasCost m size = (gas, err, m') ->
  store m' = store m /\
  match err with
  | None => is_u64 gas /\ charged size m' /\ gas = memory_fee (Z.max size (Len m) / 32) - memory_fee (Len m / 32)
  | Some e => e = ErrGasUintOverflow /\ max_mem < size /\ m' = m
  end.
Proof.
  intros [Hb Hw Hx Hf] [Hs0 Hs] Hz. unfold memoryGasCost. pose proof (len_nonneg (store m)) as Hl. change (len (store m)) with (Len m) in Hl.
  assert (Hsame : size <= Len m ->
    is_u64 0 /\ charged size m /\ 0 = memory_fee (Z.max size (Len m) / 32) - memory_fee (Len m / 32)).
  { intros. rewrite Z.max_r by lia. split; [unfold is_u64; lia|]. split; [|lia].
    split; try done; [lia|]. by rewrite Z.max_r by lia. }
  destruct (Z.eqb_spec size 0); [intros [= <- <- <-]; split; [done|apply Hsame; lia]|].
  destruct (Z.ltb_spec 0x1FFFFFFFE0 size); [by intros [= <- <- <-]|].
  rewrite toWordSize_spec by done. assert (Ew : (size + 31) / 32 = size / 32) by dlia. rewrite Ew.
  set (w := size / 32) in *. assert (Esz : size = w * 32) by (subst w; dlia). assert (0 <= w <= 0xffffffff) by lia.
  rewrite (mul64_nowrap w 32) by (unfold is_u64; lia). rewrite <- Esz.
  destruct (Z.ltb_spec (Len m) size); [|intros [= <- <- <-]; split; [done|apply Hsame; lia]].
  destruct (memory_fee_u64 w ltac:(lia)) as [Hsq Hfee].
  assert (Hml : 0 <= Len m / 32 <= w) by dlia.
  pose proof (memory_fee_mono _ _ Hml). destruct (memory_fee_u64 (Len m / 32) ltac:(lia)) as [_ Hfm].
  rewrite (mul64_nowrap w w) by (unfold is_u64 in *; lia). rewrite mul64_nowrap by (unfold is_u64, MemoryGas; lia).
  assert (Et : add64 (w * MemoryGas) (w * w / QuadCoeffDiv) = memory_fee w).
  { unfold memory_fee in *. rewrite add64_nowrap; unfold is_u64, MemoryGas, QuadCoeffDiv in *; [lia|lia| |lia].
    pose proof (Z.div_pos (w * w) 512). lia. }
  rewrite Et, Hf, sub64_nowrap by done. intros [= <- <- <-]. split; [done|].
  unfold Len in *. cbn [store]. rewrite Z.max_l by lia. fold w. split_and!; [unfold is_u64 in *; lia| |done].
  split; unfold Len; cbn [store lastGasCost]; try done. by rewrite Z.max_l by lia.
Qed.

(** ** Memory sizes *)
Lemma calcMemSize64_total off l : exists sz ov, calcMemSize64 off l = (sz, ov).
Proof. destruct (calcMemSize64 off l). eauto. Qed.

Lemma calcBack_ok i j pops : Z.of_nat i < pops -> Z.of_nat j < pops -> memsize_ok (calcBack i j) pops [AreaAt i j].
Proof.
  intros Hi Hj st Hst Hl. unfold calcBack.
  destruct (Back_ok i st) as (x & Ex & Hx & Lx); [done|lia|]. destruct (Back_ok j st) as (y & Ey & Hy & Ly); [done|lia|].
  rewrite Ex, Ey. cbn [mbind outcome_bind]. destruct (calcMemSize64 x y) as [sz ov] eqn:E. exists sz, ov. split; [done|].
  intros ->. destruct (calcMemSize64_ok x y sz) as (Hu & Hyw & Hc); [done..|]. split; [done|].
  intros m Hm Hx'. constructor; [|done]. intros x' y' Ex' Ey'. simplify_eq. split; [done|]. destruct Hc; [by left|].
  right. lia.
Qed.
Lemma calcBackUint_ok i n pops : Z.of_nat i < pops -> is_u64 n -> 0 < n -> memsize_ok (calcBackUint i n) pops [AreaConst i n].
Proof.
  intros Hi Hn Hn0 st Hst Hl. unfold calcBackUint. destruct (Back_ok i st) as (x & Ex & Hx & Lx); [done|lia|].
  rewrite Ex. cbn [mbind outcome_bind]. destruct (calcMemSize64WithUint x n) as [sz ov] eqn:E. exists sz, ov.
  split; [done|]. intros ->. destruct (calcMemSize64WithUint_ok x n sz) as (Hu & Hc); [done..|]. split; [done|].
  intros m Hm Hx'. constructor; [|done]. intros x' Ex'. simplify_eq. lia.
Qed.
Lemma memoryMax_ok f g pops A B : memsize_ok f pops B -> memsize_ok g pops A -> memsize_ok (memoryMax f g) pops (A ++ B).
Proof.
  intros Hf Hg st Hst Hl. unfold memoryMax. destruct (Hf st Hst Hl) as (x & ox & -> & Hx).
  destruct (Hg st Hst Hl) as (y & oy & Ey & Hy). cbn [mbind outcome_bind].
  destruct ox; [by eexists _, true|]. rewrite Ey. cbn [mbind outcome_bind]. destruct oy; [by eexists _, true|].
  destruct (Hx eq_refl) as [Hux Hax]. destruct (Hy eq_refl) as [Huy Hay].
  destruct (Z.ltb_spec y x); (eexists _, false; split; [done|]; intros _; split; [done|]; intros m Hm Hm';
    apply Forall_app; split; [apply Hay|apply Hax]; lia).
Qed.

(** ** Gas functions *)
Section GasSafety.
Context {S : Type} `{StateDBSpec S} `{Mode}.
#[local] Abbreviation dyn := (dyn_ok (S := S) always).

Lemma dyn_post_refl (c : Ctx S) : ctx_ok c -> dyn_post c c.
Proof. intros Hc. split; try done. apply Hc. Qed.
(** Changing the memory, the database or the reserved gas is allowed. *)
Lemma dyn_post_memory (c c' : Ctx S) m : dyn_post c c' -> dyn_post c (set_memory m c').
Proof. intros []. by split. Qed.
Lemma dyn_post_statedb (c c' : Ctx S) s :
  dyn_post c c' -> db_ok s -> db_rel (static (evm c')) (statedb (evm c')) s ->
  dyn_post c (set_evm (set_statedb s (evm c')) c').
Proof.
  intros [] ? Hr. rewrite d_ro in Hr. split; ctx_simpl; try done; [by etrans|by apply evm_ok_statedb].
Qed.
Lemma dyn_post_temp (c c' : Ctx S) g : dyn_post c c' -> is_u64 g ->
  dyn_post c (set_evm (set_callGasTemp g (evm c')) c').
Proof. intros [] ?. split; ctx_simpl; try done. destruct d_evm. by split. Qed.
#[local] Hint Resolve dyn_post_refl dyn_post_memory dyn_post_statedb dyn_post_temp : evm.

(** The part of the postcondition that a gas function builds up: what has
    been charged so far. *)
Definition charge_post (c : Ctx S) (size : Z) (P : Z -> Prop) (r : Z * option error) (c' : Ctx S) : Prop :=
  dyn_post c c' /\ (r.2 = None -> is_u64 r.1 /\ charged size (memory c') /\ P r.1).

Lemma memGas_ok size c0 c : dyn_post c0 c -> mem_ok (memory c) -> is_u64 size -> size mod 32 = 0 ->
  wp (memGas size) (charge_post c0 size (fun g => 0 <= g)) c.
Proof.
  intros Hd Hm Hs Hz. apply wp_memGas. intros gas err m E.
  apply memoryGasCost_ok in E as [_ E]; [|done..]. split; [by apply dyn_post_memory|].
  destruct err; [done|]. intros _. destruct E as (? & ? & _). split_and!; try done. cbn [fst]. unfold is_u64 in *. lia.
Qed.

(** Sequencing with the early return on an error. *)
Lemma onOk_charge m k c0 size P c (Q : Z -> Prop) :
  wp m (charge_post c0 size P) c ->
  (forall g c', dyn_post c0 c' -> is_u64 g -> charged size (memory c') -> P g ->
     wp (k g) (charge_post c0 size Q) c') ->
  wp (onOk m k) (charge_post c0 size Q) c.
Proof.
  intros Hm Hk. apply wp_onOk. eapply wp_mono; [|exact Hm]. intros [g err] c' [Hd Hr]. cbn [snd] in *.
  destruct err; [by split|]. destruct (Hr eq_refl) as (Hg & Hch & HP). by apply Hk.
Qed.
Lemma addGas_charge g x c0 size c (Q : Z -> Prop) :
  dyn_post c0 c -> charged size (memory c) -> is_u64 g -> is_u64 x -> (g + x < W -> Q (g + x)) ->
  wp (addGas g x) (charge_post c0 size Q) c.
Proof.
  intros Hd Hch Hg Hx HQ. apply wp_addGas; [done..| |]; [by split|]. intros Hw. split; [done|]. intros _.
  split_and!; [unfold is_u64 in *; cbn [fst]; lia|done|by apply HQ].
Qed.
Lemma ret_err_charge e c0 size c (Q : Z -> Prop) :
  dyn_post c0 c -> wp (mret (0, Some e)) (charge_post c0 size Q) c.
Proof. intros Hd. by apply wp_ret. Qed.
(** Without slack, the charge is the specification. *)
Lemma charge_dyn env size (f : gasFunc) c least :
  wp (f env size) (charge_post c size (fun g => least <= g)) c ->
  wp (f env size) (fun r c' => dyn_post c c' /\ (r.2 = None -> is_u64 r.1 /\ charged size (memory c') /\
    least + no_slack c' <= r.1 /\ 0 <= no_slack c')) c.
Proof.
  intros Hw. eapply wp_mono; [|exact Hw]. intros r c' [Hd Hr]. split; [done|]. intros E.
  destruct (Hr E) as (? & ? & ?). unfold no_slack. split_and!; try done; lia.
Qed.

Lemma pureMemoryGascost_ok pops : dyn pureMemoryGascost pops 0 false no_slack.
Proof.
  intros env size c He Hc Hguard Hs Hz Hless Hp. apply charge_dyn, memGas_ok; try done; [by apply dyn_post_refl|apply Hc].
Qed.
Lemma wordGas_ok pos per pops : Z.of_nat pos < pops -> is_u64 per -> dyn (wordGas pos per) pops 0 false no_slack.
Proof.
  intros Hpos Hper env size c He Hc Hguard Hs Hz Hless Hp. apply charge_dyn. unfold wordGas.
  eapply onOk_charge; [apply memGas_ok; try done; [by apply dyn_post_refl|apply Hc]|].
  intros g c' Hd Hg Hch Hg0. destruct (lookup_lt_is_Some_2 (stack c) pos ltac:(lia)) as [x Hx].
  apply wp_bind, (wp_Back _ x); [by rewrite (d_stack _ _ Hd)|]. cbv beta.
  assert (Hxo : int_ok x) by (eapply Forall_lookup_1; [apply Hc|done]).
  destruct (Uint64WithOverflow x) as [w o] eqn:Eu. rewrite Uint64WithOverflow_spec in Eu by done. injection Eu as <- <-.
  destruct (negb _); [by apply ret_err_charge|].
  pose proof (Z.mod_pos_bound (val x) W ltac:(lia)). rewrite toWordSize_spec by (unfold is_u64; lia).
  destruct (SafeMul _ per) as [w o] eqn:Em. destruct o; [by apply ret_err_charge|].
  apply SafeMul_ok in Em as [_ Hw]; [|unfold is_u64; dlia|done].
  apply addGas_charge; try done. unfold is_u64 in *. lia.
Qed.

(** Operations without a memory size: a constant-ish price after some reads
    and refunds. *)
Lemma charged_0 m : mem_ok m -> charged 0 m.
Proof.
  intros []. pose proof (len_nonneg (store m)). split; try done; unfold Len, max_mem in *; try lia.
  by rewrite Z.max_r by lia.
Qed.
#[local] Hint Extern 2 (is_u64 _) => solve [vm_compute; by split] : statedb.
#[local] Ltac db_steps c :=
  repeat lazymatch goal with
    | |- wp (BackM ?n) _ _ =>
        let x := fresh "x" in let Hx := fresh "Hx" in
        destruct (lookup_lt_is_Some_2 (stack c) n ltac:(lia)) as [x Hx]; apply (wp_Back n x); [done|]; cbv beta
    | |- wp (if ?b then _ else _) _ _ => destruct b
    | |- wp (mret (if ?b then _ else _)) _ _ => destruct b
    | |- _ => wp_step
    end.
#[local] Ltac memless_done :=
  split; [split; ctx_simpl; first [solve_rel|done|by eauto 8 using evm_ok_statedb with evm]|];
  first [ intros Herr; discriminate Herr
        | intros _; cbn [fst snd]; ctx_simpl; split_and!;
          [unfold is_u64; vm_compute; by split|by apply charged_0, c_mem|by vm_compute..] ].

Lemma gasSStore_ok : dyn_ok (S := S) may_write gasSStore 2 200 true no_slack.
Proof.
  intros env size c He Hc Hguard Hs Hz Hless Hp. rewrite (Hless eq_refl). unfold gasSStore. db_steps c; memless_done.
Qed.
Lemma gasSStoreEIP2200_ok : dyn_ok (S := S) may_write gasSStoreEIP2200 2 200 true no_slack.
Proof.
  intros env size c He Hc Hguard Hs Hz Hless Hp. rewrite (Hless eq_refl). unfold gasSStoreEIP2200.
  db_steps c; memless_done.
Qed.
Lemma gasSelfdestruct_ok : dyn_ok (S := S) may_write gasSelfdestruct 1 0 true no_slack.
Proof.
  intros env size c He Hc Hguard Hs Hz Hless Hp. rewrite (Hless eq_refl). unfold gasSelfdestruct.
  db_steps c; memless_done.
Qed.

(** The operand at a position the bounds guarantee. *)
Lemma wp_operand n (c0 c : Ctx S) (Q : Int -> Ctx S -> Prop) :
  ctx_ok c0 -> stack c = stack c0 -> (n < length (stack c0))%nat ->
  (forall x, stack c0 !! n = Some x -> int_ok x -> Q x c) -> wp (BackM n) Q c.
Proof.
  intros Hc E Hn HQ. destruct (lookup_lt_is_Some_2 (stack c0) n Hn) as [x Hx].
  apply (wp_Back n x); [by rewrite E|]. apply HQ; [done|]. eapply Forall_lookup_1; [apply Hc|done].
Qed.

Lemma makeGasLog_ok n pops : 2 <= pops -> 0 <= n <= 4 -> dyn (makeGasLog n) pops 375 false no_slack.
Proof.
  intros Hpops Hn env size c He Hc Hguard Hs Hz Hless Hp. apply charge_dyn. unfold makeGasLog.
  apply wp_bind, (wp_operand _ c); [done|done|lia|]. intros x _ Hx.
  rewrite Uint64WithOverflow_spec by done. destruct (negb _); [apply ret_err_charge; by apply dyn_post_refl|].
  eapply onOk_charge; [apply memGas_ok; try done; [by apply dyn_post_refl|apply Hc]|]. intros g1 c1 Hd1 Hg1 Hch1 _.
  eapply onOk_charge; [apply (addGas_charge _ _ _ _ _ (fun g => 375 <= g)); try done; unfold is_u64, LogGas in *; lia|].
  intros g2 c2 Hd2 Hg2 Hch2 H2. cbv beta in H2.
  assert (is_u64 (mul64 n LogTopicGas)) as Ht by apply u64_range.
  eapply onOk_charge; [apply (addGas_charge _ _ _ _ _ (fun g => 375 <= g)); try done; unfold is_u64 in *; lia|].
  intros g3 c3 Hd3 Hg3 Hch3 H3. cbv beta in H3. destruct (SafeMul _ LogDataGas) as [w o] eqn:Em.
  destruct o; [by apply ret_err_charge|]. apply SafeMul_ok in Em as [_ Hw]; [|apply Z.mod_pos_bound; lia|by unfold is_u64, LogDataGas].
  apply addGas_charge; try done. unfold is_u64 in *. lia.
Qed.

Lemma gasExp_ok per : dyn (gasExp per) 2 10 true no_slack.
Proof.
  intros env size c He Hc Hguard Hs Hz Hless Hp. rewrite (Hless eq_refl). apply charge_dyn. unfold gasExp.
  apply wp_bind, (wp_operand _ c); [done|done|lia|]. intros x _ Hx.
  assert (is_u64 (mul64 ((BitLen x + 7) / 8) per)) as Ht by apply u64_range.
  apply addGas_charge; try done; [by apply dyn_post_refl|apply charged_0, Hc|].
  intros _. unfold is_u64, ExpGas in *. lia.
Qed.

(** ** Calls *)
Lemma callGas_u64 b avail base x g err : int_ok x -> callGas b avail base x = (g, err) -> is_u64 g.
Proof.
  intros Hx. unfold callGas. pose proof (Uint64_range x Hx) as [? ?].
  assert (is_u64 (sub64 (sub64 avail base) (sub64 avail base / 64))) as [? ?] by apply u64_range.
  repeat case_match; intros [= <- <-]; unfold is_u64; lia.
Qed.
Lemma reserveCallGas_ok (env : Env S) gas size base (c0 c : Ctx S) :
  ctx_ok c0 -> dyn_post c0 c -> charged size (memory c) -> is_u64 gas -> (0 < length (stack c0))%nat -> base <= gas ->
  wp (reserveCallGas env gas) (fun r c' => dyn_post c0 c' /\ (r.2 = None -> is_u64 r.1 /\ charged size (memory c') /\
    base + callGasTemp (evm c') <= r.1 /\ is_u64 (callGasTemp (evm c')))) c.
Proof.
  intros Hc Hd Hch Hg Hl Hb. unfold reserveCallGas. do 3 wp_step. apply (wp_operand _ c0); [done|apply Hd|done|].
  intros x _ Hx. destruct (callGas _ _ gas x) as [temp err] eqn:E. pose proof (callGas_u64 _ _ _ _ _ _ Hx E) as Ht.
  wp_step. apply wp_onEVM, wp_modify. destruct err; [apply wp_ret; split; [by apply dyn_post_temp|done]|].
  apply wp_addGas; [done|done|split; [by apply dyn_post_temp|done]|]. intros Hw. split; [by apply dyn_post_temp|].
  intros _. ctx_simpl. split_and!; try done; unfold is_u64 in *; lia.
Qed.

Lemma wp_charge_then (m : M (Ctx S) (Z * option error)) k c0 size P c (Q : Z * option error -> Ctx S -> Prop) :
  wp m (charge_post c0 size P) c ->
  (forall e c', dyn_post c0 c' -> Q (0, Some e) c') ->
  (forall g c', dyn_post c0 c' -> is_u64 g -> charged size (memory c') -> P g -> wp (k g) Q c') ->
  wp (onOk m k) Q c.
Proof.
  intros Hm He Hk. apply wp_onOk. eapply wp_mono; [|exact Hm]. intros [g err] c' [Hd Hr]. cbn [snd] in *.
  destruct err; [by apply He|]. destruct (Hr eq_refl) as (Hg & Hch & HP). by apply Hk.
Qed.

Lemma plainCall_ok (env : Env S) size c :
  ctx_ok c -> is_u64 size -> size mod 32 = 0 -> 6 <= Z.of_nat (length (stack c)) ->
  wp (onOk (memGas size) (fun gas => reserveCallGas env gas)) (fun r c' => dyn_post c c' /\
    (r.2 = None -> is_u64 r.1 /\ charged size (memory c') /\ 0 + plain_slack c' <= r.1 /\ 0 <= plain_slack c')) c.
Proof.
  intros Hc Hs Hz Hp. eapply wp_charge_then; [apply memGas_ok; try done; [by apply dyn_post_refl|apply Hc]|by intros; split|].
  intros g c' Hd Hg Hch _. eapply wp_mono; [|apply (reserveCallGas_ok env g size 0 c); try done; unfold is_u64 in *; lia].
  intros r c'' [Hd' Hr]. split; [done|]. intros E. destruct (Hr E) as (? & ? & ? & ?).
  unfold plain_slack. split_and!; try done. unfold is_u64 in *. lia.
Qed.
Lemma gasDelegateCall_ok : dyn gasDelegateCall 6 0 false plain_slack.
Proof. intros env size c He Hc Hguard Hs Hz Hless Hp. by apply plainCall_ok. Qed.
Lemma gasStaticCall_ok : dyn gasStaticCall 6 0 false plain_slack.
Proof. intros env size c He Hc Hguard Hs Hz Hless Hp. by apply plainCall_ok. Qed.

(** The price of a transfer pays for the stipend. *)
Lemma valueCall_ok (env : Env S) size gas v (c0 c : Ctx S) :
  ctx_ok c0 -> stack c0 !! 2%nat = Some v -> int_ok v -> dyn_post c0 c -> charged size (memory c) -> is_u64 gas ->
  (if negb (IsZero v) then CallStipend else 0) <= gas ->
  wp (reserveCallGas env gas) (fun r c' => dyn_post c0 c' /\
    (r.2 = None -> is_u64 r.1 /\ charged size (memory c') /\ 0 + value_slack c' <= r.1 /\ 0 <= value_slack c')) c.
Proof.
  intros Hc Hv Hvo Hd Hch Hg Hle. pose proof (lookup_lt_Some _ _ _ Hv).
  eapply wp_mono; [|apply (reserveCallGas_ok env gas size _ c0 c Hc Hd Hch Hg ltac:(lia) Hle)].
  intros r c'' [Hd' Hr]. split; [done|]. intros E. destruct (Hr E) as (? & ? & ? & [? ?]).
  unfold value_slack. rewrite (d_stack _ _ Hd'), Hv. split_and!; try done; [lia|].
  destruct (negb _); unfold CallStipend; lia.
Qed.

Lemma gasCallCode_ok : dyn gasCallCode 7 0 false value_slack.
Proof.
  intros env size c He Hc Hguard Hs Hz Hless Hp. unfold gasCallCode.
  eapply wp_charge_then; [apply memGas_ok; try done; [by apply dyn_post_refl|apply Hc]|by intros; split|].
  intros g c1 Hd1 Hg Hch _. apply wp_bind, (wp_operand _ c); [done|apply Hd1|lia|]. intros v Hv Hvo.
  set (price := if negb (Sign v =? 0) then _ else _).
  assert (Hprice : is_u64 price /\ (if negb (IsZero v) then CallStipend else 0) <= price).
  { subst price. rewrite Sign_spec, IsZero_spec by done. unfold is_u64, CallStipend, CallValueTransferGas.
    destruct (Z.eqb_spec (val v) 0); destruct (Z.eqb_spec (Z.sgn (sval v)) 0); cbn [negb]; try lia.
    pose proof (val_range v Hvo). unfold sval in *; destruct (Z.ltb_spec (val v) (2 ^ 255)); unfold W256 in *; lia. }
  clearbody price. destruct Hprice as [Hpu Hpl].
  eapply (wp_charge_then _ _ _ _ (fun x => (if negb (IsZero v) then CallStipend else 0) <= x)).
  - apply addGas_charge; try done. unfold is_u64 in *. lia.
  - by intros; split.
  - intros x c2 Hd2 Hx Hch2 Hle. by eapply (valueCall_ok env size x v).
Qed.

Lemma gasCall_ok : dyn gasCall 7 0 false value_slack.
Proof.
  intros env size c He Hc Hguard Hs Hz Hless Hp. unfold gasCall.
  apply wp_bind, (wp_operand _ c); [done|done|lia|]. intros v Hv Hvo.
  apply wp_bind, (wp_operand _ c); [done|done|lia|]. intros a _ _. apply wp_bind.
  apply (wp_mono _ (fun g c1 => dyn_post c c1 /\ memory c1 = memory c /\ (g = 0 \/ g = CallNewAccountGas))).
  - intros g c1 (Hd1 & Hm1 & Hg). set (price := if negb (IsZero v) then _ else _).
    assert (Hprice : is_u64 price /\ (if negb (IsZero v) then CallStipend else 0) <= price).
    { subst price. destruct (negb _), Hg as [->| ->]; by vm_compute. }
    clearbody price. destruct Hprice as [Hpu Hpl].
    eapply wp_charge_then; [apply memGas_ok; try done; rewrite Hm1; apply Hc|by intros; split|].
    intros mg c2 Hd2 Hmg Hch2 _.
    eapply (wp_charge_then _ _ _ _ (fun x => (if negb (IsZero v) then CallStipend else 0) <= x)).
    + apply addGas_charge; try done. unfold is_u64 in *. lia.
    + by intros; split.
    + intros x c3 Hd3 Hx Hch3 Hle. by eapply (valueCall_ok env size x v).
  - pose proof (dyn_post_refl c Hc). db_steps c; split_and!; auto with evm.
Qed.
End GasSafety.
