(* ===== verification/StepSafety.v ===== *)
(** * One step of the interpreter

    What a jump table must satisfy ([table_ok]), that the table of every fork
    does, and that a step then keeps the invariants and burns gas. *)

From S2P Require Import Prelude Words Uint256 Uint256Arith Uint256Div Uint256Bits Params Config Stack Memory.
From S2P Require Import Opcodes Analysis State GasTable Instructions JumpTable Evm Interpreter Invariants.
From S2P Require Import InstrSafety GasSafety.

Section Step.
Context {S : Type} `{StateDBSpec S} `{Mode}.

(** ** The contract of a table entry *)
Record entry_spec := mkEntrySpec {
  e_pops : Z;
  e_pushes : Z;
  e_areas : list area;
  e_nocall : bool;
  e_slack : Ctx S -> Z;
  e_least : Z;
  e_guard : Ctx S -> Prop;
}.
(** What the check of read-only mode has established. *)
Definition unprotected (op : Z) (o : operation S) (c : Ctx S) : Prop :=
  static (evm c) = true -> writes o = false /\ (op = CALL -> forall v, stack c !! 2%nat = Some v -> val v = 0).
Record entry_meets (op : Z) (o : operation S) (sp : entry_spec) : Prop := {
  em_min : opMinStack o = minStack (e_pops sp) (e_pushes sp);
  em_max : opMaxStack o = maxStack (e_pops sp) (e_pushes sp);
  em_exec : exec_ok (e_guard sp) (execute o) (e_pops sp) (e_pushes sp) (e_areas sp) (e_nocall sp) (e_slack sp);
  em_const : is_u64 (constantGas o);
  em_least : 0 <= e_least sp;
  em_mem : match memorySize o with
           | None => e_areas sp = []
           | Some f => memsize_ok f (e_pops sp) (e_areas sp)
           end;
  em_dyn : match dynamicGas o with
           | None => memorySize o = None /\ e_slack sp = no_slack /\ e_least sp = 0
           | Some f => dyn_ok (e_guard sp) f (e_pops sp) (e_least sp) (bool_decide (memorySize o = None)) (e_slack sp)
           end;
  em_slack : forall c k m, e_slack sp (set_memory m (set_contract k c)) = e_slack sp c;
  em_guard : forall c, unprotected op o c -> e_guard sp c;
  em_call : e_nocall sp = false -> 0 < constantGas o;
  em_progress : 0 < constantGas o + e_least sp \/ halts o = true \/ reverts o = true;
}.
Definition entry_ok (op : Z) (o : operation S) : Prop := exists sp, entry_meets op o sp.

Lemma unprotected_same op o (c c' : Ctx S) :
  stack c' = stack c -> readOnly (evm c') = readOnly (evm c) -> unprotected op o c -> unprotected op o c'.
Proof. unfold unprotected. by intros -> ->. Qed.

(** The result of an iteration: the run goes on, or it has ended. *)
Definition step_post (c0 : Ctx S) (bound : Z) (r : option result) (c : Ctx S) : Prop :=
  frame c0 c /\ Gas (contract c) <= bound /\
  match r with
  | None => ctx_ok c
  | Some res => end_ok c /\ is_slice res.1
  end.
Lemma stop_post e c0 bound c : end_ok c -> frame c0 c -> Gas (contract c) <= bound ->
  wp (stop e) (step_post c0 bound) c.
Proof. intros He Hf Hg. apply wp_ret. split_and!; try done; apply is_slice_nil. Qed.

(** ** The parts of an iteration *)
Lemma newMemorySize_ok op o sp c (Q : option Z -> Ctx S -> Prop) :
  entry_meets op o sp -> ctx_ok c -> e_pops sp <= Z.of_nat (length (stack c)) ->
  Q None c ->
  (forall size, is_u64 size -> size mod 32 = 0 -> (memorySize o = None -> size = 0) ->
     (forall m, size <= Len m -> Len m <= max_mem -> Forall (area_ok (stack c) m) (e_areas sp)) -> Q (Some size) c) ->
  wp (newMemorySize o) Q c.
Proof.
  intros Ho Hc Hp HN HS. unfold newMemorySize. pose proof (em_mem _ _ _ Ho) as Hm.
  destruct (memorySize o) as [f|].
  - destruct (Hm (stack c)) as (sz & ov & E & Hf); [apply Hc|done|]. do 2 wp_step.
    apply wp_bind. eapply wp_lift; [exact E|]. destruct ov; [by apply wp_ret|]. destruct (Hf eq_refl) as [[? ?] Ha].
    rewrite toWordSize_spec by done. rewrite SafeMul_spec by (unfold is_u64; dlia). apply wp_ret.
    destruct (Z.ltb_spec ((sz + 31) / 32 * 32) W); cbn [negb]; [|done].
    rewrite mul64_nowrap by dlia. apply HS; [unfold is_u64; dlia|apply Z.mod_mul; lia|done|].
    intros m ? ?. apply Ha; [dlia|done].
  - apply wp_ret, HS; [unfold is_u64; lia|done|done|]. intros m ? ?. by rewrite Hm.
Qed.

(** After the dynamic gas is charged, an instruction is within its bounds. *)
Lemma chargeDynamic_ok env op o sp size c (Q : bool -> Ctx S -> Prop) :
  env_ok env -> entry_meets op o sp -> ctx_ok c -> unprotected op o c -> e_pops sp <= Z.of_nat (length (stack c)) ->
  is_u64 size -> size mod 32 = 0 -> (memorySize o = None -> size = 0) ->
  (forall c', end_ok c' -> frame c c' -> Gas (contract c') <= Gas (contract c) -> Q false c') ->
  (forall c' g, dyn_post (set_contract (set_gas g (contract c)) c) c' -> 0 <= g -> charged size (memory c') ->
     0 <= e_slack sp c' -> g + e_slack sp c' <= Gas (contract c) - e_least sp -> Q true c') ->
  wp (chargeDynamic env o size) Q c.
Proof.
  intros He Ho Hc Hunp Hp Hs Hz Hless HF HT. unfold chargeDynamic. pose proof (em_dyn _ _ _ Ho) as Hd.
  destruct (dynamicGas o) as [f|].
  - apply wp_bind. eapply wp_mono; [|apply (Hd env size c); try done; [by apply (em_guard _ _ _ Ho)|]; intros E%bool_decide_eq_true; by apply Hless].
    intros [cost err] c1 [Hd1 Hr]. cbn [fst snd] in *.
    assert (end_ok c1 /\ frame c c1) as [He1 Hf1].
    { destruct Hd1. split; split; rewrite ?d_contract; try done. apply Hc. }
    pose proof (d_contract _ _ Hd1) as Ek.
    destruct err; [apply wp_ret, HF; try done; by rewrite Ek|].
    destruct (Hr eq_refl) as (Hu & Hch & Hle & Hsl).
    apply wp_useGas; [done|by apply He1| |].
    + intros Hg.
      assert (Esl : forall k, e_slack sp (set_contract k c1) = e_slack sp c1)
        by (intros k; pose proof (em_slack _ _ _ Ho c1 k (memory c1)) as E; by destruct c1).
      rewrite Ek in *. apply HT with (g := Gas (contract c) - cost).
      * destruct Hd1. split; ctx_simpl; try done; congruence.
      * lia.
      * done.
      * by rewrite Esl.
      * rewrite Esl. lia.
    + intros _. apply HF; try done. by rewrite Ek.
  - destruct Hd as (Em & Es & El). apply wp_ret.
    apply HT with (g := Gas (contract c)).
    + destruct c as [? ? ? ? [] ?]. apply dyn_post_refl. exact Hc.
    + apply Hc.
    + rewrite (Hless Em). apply charged_0, Hc.
    + rewrite Es. unfold no_slack. lia.
    + rewrite Es, El. unfold no_slack. lia.
Qed.

Lemma resize_ok size (c0 c : Ctx S) (Q : () -> Ctx S -> Prop) :
  charged size (memory c) ->
  (forall m, mem_ok m -> Len m <= max_mem -> size <= Len m -> Q () (set_memory m c)) -> wp (resizeM size) Q c.
Proof.
  intros Hch HQ. destruct (Resize_charged _ _ Hch) as [Hm Hl]. unfold resizeM.
  destruct (Z.ltb_spec 0 size); [apply wp_modify, HQ; [done|apply Hm|lia]|].
  assert (E : Resize size (memory c) = memory c).
  { unfold Resize. pose proof (len_nonneg (store (memory c))).
    destruct (Z.ltb_spec (Len (memory c)) size); [unfold Len in *; lia|done]. }
  rewrite E in *. apply wp_ret. specialize (HQ (memory c) Hm ltac:(apply Hm) ltac:(lia)). by destruct c.
Qed.

(** After [execute]: the results are stored, the run goes on or ends. *)
Lemma executeOp_ok env calls op o sp c G (Q : option result -> Ctx S -> Prop) :
  env_ok env -> entry_meets op o sp -> ctx_ok c -> calls_ok calls G -> unprotected op o c -> pc c < max_slice ->
  0 <= e_slack sp c -> Gas (contract c) + e_slack sp c < W ->
  (e_nocall sp = false -> Gas (contract c) + e_slack sp c < G) ->
  e_pops sp <= Z.of_nat (length (stack c)) ->
  Z.of_nat (length (stack c)) - e_pops sp + e_pushes sp <= StackLimit ->
  Forall (area_ok (stack c) (memory c)) (e_areas sp) ->
  (forall r c', step_post c (Gas (contract c) + e_slack sp c) r c' ->
     (r = None -> halts o = false /\ reverts o = false) -> Q r c') ->
  wp (executeOp env calls o) Q c.
Proof.
  intros He Ho Hc Hcalls Hunp Hpm Hs0 Hgw Hnc Hp Hh Ha HQ. unfold executeOp. apply wp_bind.
  eapply wp_mono; [|apply (em_exec _ _ _ Ho env calls c G); try done; by apply (em_guard _ _ _ Ho)].
  intros [res err] c1 (Hc1 & Hf1 & Hres & Hg1 & Hp1). cbn [fst] in *. apply wp_bind.
  apply (wp_mono _ (fun _ c2 => ctx_ok c2 /\ frame c c2 /\
    Gas (contract c2) <= Gas (contract c) + e_slack sp c /\ pc c2 < max_slice + 64)).
  - intros _ c2 (Hc2 & Hf2 & Hg2 & Hp2). pose proof (ctx_ok_end _ Hc2) as He2.
    destruct err; [apply wp_ret, HQ; [split_and!; try done; apply is_slice_nil|done]|].
    destruct (reverts o); [by apply wp_ret, HQ|]. destruct (halts o); [by apply wp_ret, HQ|].
    destruct (negb (jumps o)); [wp_steps|wp_step]; (apply HQ; [|done]); [|done].
    destruct Hf2, Hc2. rewrite next_pc by lia.
    split_and!; [by split|done|]. split; ctx_simpl; try done. lia.
  - destruct (returns o); [apply wp_modify|by apply wp_ret]. destruct Hf1, Hc1. split_and!; try done.
    split; ctx_simpl; try done. by destruct c_evm.
Qed.

Definition progress (o : operation S) (sp : entry_spec) (c : Ctx S) (r : option result) (c' : Ctx S) : Prop :=
  r = None -> halts o = false /\ reverts o = false /\ Gas (contract c') <= Gas (contract c) - e_least sp.

Lemma body_ok env calls op o sp c G :
  env_ok env -> entry_meets op o sp -> ctx_ok c -> calls_ok calls G -> unprotected op o c -> pc c < max_slice ->
  (e_nocall sp = false -> Gas (contract c) < G) ->
  e_pops sp <= Z.of_nat (length (stack c)) ->
  Z.of_nat (length (stack c)) - e_pops sp + e_pushes sp <= StackLimit ->
  wp (body env calls o) (fun r c' => step_post c (Gas (contract c)) r c' /\ progress o sp c r c') c.
Proof.
  intros He Ho Hc Hcalls Hunp Hpm Hnc Hp Hh. pose proof (em_least _ _ _ Ho). unfold body. apply wp_bind.
  assert (Hstop : forall e c', end_ok c' -> frame c c' -> Gas (contract c') <= Gas (contract c) ->
    wp (stop e) (fun r c' => step_post c (Gas (contract c)) r c' /\ progress o sp c r c') c').
  { intros e c' Hend Hf Hg. apply wp_ret. split; [split_and!; try done; apply is_slice_nil|done]. }
  apply (newMemorySize_ok op o sp); [done..| |]; [apply Hstop; [by apply ctx_ok_end|apply frame_refl|lia]|].
  intros size Hs Hz Hless Hareas. apply wp_bind. apply (chargeDynamic_ok env op o sp); [done..| |]; [by intros; apply Hstop|].
  intros c1 g Hd Hg Hch Hsl Hle. cbn [negb]. pose proof (k_gas _ (c_contract _ Hc)) as [_ Hgw]. apply wp_bind, resize_ok; try done. intros m Hm Hmx Hsm.
  assert (Esl : e_slack sp (set_memory m c1) = e_slack sp c1)
    by (pose proof (em_slack _ _ _ Ho c1 (contract c1) m) as E; by destruct c1).
  destruct Hd as [Dpc Dst Drs Dk Dd Dro Drel Dev]. ctx_simpl.
  assert (Hc1 : ctx_ok (set_memory m c1)).
  { destruct Hc. split; ctx_simpl; rewrite ?Dpc, ?Dst, ?Drs, ?Dk; try done. apply contract_ok_gas; [done|unfold is_u64; lia]. }
  assert (Hu1 : unprotected op o (set_memory m c1)) by by apply (unprotected_same op o c).
  eapply executeOp_ok; try done; rewrite ?Esl; ctx_simpl; rewrite ?Dpc, ?Dst, ?Dk; ctx_simpl; try done; try lia.
  - intros E. specialize (Hnc E). lia.
  - by apply Hareas.
  - intros r c2 (Hf2 & Hg2 & Hr2) Hhr. destruct Hf2 as [F1 F2 F3 F4]. ctx_simpl. rewrite Dro in F4.
    assert (frame c c2) as Hf by (split; rewrite ?F1, ?F2, ?F3, ?Dk, ?Dd, ?Dro; first [solve_rel|done]).
    split; [split_and!; try done; lia|]. intros E. destruct (Hhr E). split_and!; try done. lia.
Qed.

(** ** A step *)
Definition stop_entry : operation S :=
  mkOperation opStop 0 None (minStack 0 0) (maxStack 0 0) None true false false false false.
Definition table_ok (jt : JumpTable S) : Prop :=
  map_Forall entry_ok jt /\ jt !! STOP = Some stop_entry.

Lemma writeProtected_ok env op o c (Q : bool -> Ctx S -> Prop) :
  env_ok env -> ctx_ok c -> (op = CALL -> 3 <= Z.of_nat (length (stack c))) ->
  Q true c -> (unprotected op o c -> Q false c) -> wp (writeProtected env op o) Q c.
Proof.
  intros He Hc Hop HT HF. unfold writeProtected. do 2 wp_step. rewrite (env_mode _ He).
  destruct (readOnly (evm c) && byz) eqn:Est; [|apply wp_ret, HF; unfold unprotected; by rewrite Est].
  destruct (writes o) eqn:Ew; [by apply wp_ret|].
  destruct (Z.eqb_spec op CALL) as [E|]; [|by apply wp_ret, HF].
  specialize (Hop E). destruct (lookup_lt_is_Some_2 (stack c) 2 ltac:(lia)) as [x Hx].
  assert (Hxo : int_ok x) by (eapply Forall_lookup_1; [apply Hc|done]).
  apply wp_bind, (wp_Back 2 x); [done|]. apply wp_ret. rewrite Sign_spec by done. pose proof (val_range x Hxo).
  destruct (Z.eqb_spec (Z.sgn (sval x)) 0) as [Ez|]; [|done]. apply HF. intros _. split; [done|]. intros _ v Hv.
  simplify_eq. unfold sval in Ez. destruct (Z.ltb_spec (val x) (2 ^ 255)); unfold W256 in *; lia.
Qed.

Definition burns (c : Ctx S) (r : option result) (c' : Ctx S) : Prop :=
  step_post c (Gas (contract c)) r c' /\ (r = None -> Gas (contract c') < Gas (contract c)).

Lemma stop_burns e c : ctx_ok c -> wp (stop e) (burns c) c.
Proof.
  intros Hc. apply wp_ret. split; [|done].
  split_and!; [apply frame_refl|lia|by apply ctx_ok_end|apply is_slice_nil].
Qed.

(** Past the end of the code the operation is STOP. *)
Lemma step_past_end env jt calls c :
  table_ok jt -> env_ok env -> ctx_ok c -> len (Code (contract c)) <= pc c -> wp (step env jt calls) (burns c) c.
Proof.
  intros [_ Hstop] He Hc Hpc. unfold step. do 2 wp_step. unfold GetOp, GetByte.
  destruct (Z.ltb_spec (pc c) (len (Code (contract c)))); [lia|]. change (jt !! 0) with (jt !! STOP).
  rewrite Hstop. pose proof (c_height _ Hc). cbn [opMinStack opMaxStack stop_entry].
  destruct (Z.ltb_spec (Z.of_nat (length (stack c))) (minStack 0 0)); [by apply stop_burns|].
  destruct (Z.ltb_spec (maxStack 0 0) (Z.of_nat (length (stack c)))); [by apply stop_burns|].
  wp_step. apply writeProtected_ok; [done|done|done|by apply stop_burns|]. intros _.
  pose proof (k_gas _ (c_contract _ Hc)) as [? ?].
  wp_step. apply wp_useGas; [done|done| |cbn; lia]. intros _. rewrite Z.sub_0_r.
  apply wp_ret. split; [|done]. split_and!; [by split|done|split; [done|apply Hc]|apply is_slice_nil].
Qed.

Lemma step_ok env jt calls c G :
  table_ok jt -> (forall o, jt !! CALL = Some o -> 3 <= opMinStack o) ->
  env_ok env -> ctx_ok c -> calls_ok calls G -> Gas (contract c) <= G ->
  wp (step env jt calls) (burns c) c.
Proof.
  intros Ht Hcall He Hc Hcalls HG. destruct (k_code _ (c_contract _ Hc)) as [Hcb Hcl].
  destruct (Z.le_gt_cases (len (Code (contract c))) (pc c)); [by apply step_past_end|].
  unfold step. do 2 wp_step. set (op := GetOp _ _). destruct (jt !! op) as [o|] eqn:Eo; [|by apply stop_burns].
  destruct Ht as [Ht _]. destruct (Ht _ _ Eo) as [sp Hsp].
  pose proof (em_min _ _ _ Hsp) as Emin. pose proof (em_max _ _ _ Hsp) as Emax. unfold minStack, maxStack in *.
  destruct (Z.ltb_spec (Z.of_nat (length (stack c))) (opMinStack o)); [by apply stop_burns|].
  destruct (Z.ltb_spec (opMaxStack o) (Z.of_nat (length (stack c)))); [by apply stop_burns|].
  wp_step. apply writeProtected_ok; [done|done|intros E; rewrite E in Eo; specialize (Hcall _ Eo); lia|by apply stop_burns|].
  intros Hunp. pose proof (k_gas _ (c_contract _ Hc)) as [? ?].
  wp_step. apply wp_useGas; [apply Hsp|done| |intros; by apply stop_burns].
  intros Hg. cbn [negb]. pose proof (em_const _ _ _ Hsp) as [? ?].
  set (c1 := set_contract _ c).
  assert (Hc1 : ctx_ok c1).
  { destruct Hc. split; ctx_simpl; try done. apply contract_ok_gas; [done|unfold is_u64; lia]. }
  eapply wp_mono; [|apply (body_ok env calls op o sp c1 G); try done; subst c1; ctx_simpl; try lia].
  - intros r c2 [(Hf & Hg2 & Hr) Hpr]. subst c1. unfold progress in Hpr. ctx_simpl. destruct Hf as [F1 F2 F3]. ctx_simpl.
    split; [split_and!; [by split|lia|done]|]. intros E. destruct (Hpr E) as (Hh & Hrv & Hl).
    destruct (em_progress _ _ _ Hsp) as [?|[?|?]]; [lia|congruence..].
  - intros E. pose proof (em_call _ _ _ Hsp E). lia.
Qed.
End Step.
