(* ===== verification/TableSafety.v ===== *)
(** * The instruction sets of the forks are sound

    Every entry of every table of JumpTable.v meets its contract: the stack
    bounds match what [execute] pops and pushes, the memory size covers what it
    touches, and it burns gas or ends the run.  The tables are built without a
    nil dereference. *)

From S2P Require Import Prelude Words Uint256 Uint256Arith Uint256Div Uint256Bits Params Config Stack Memory.
From S2P Require Import Opcodes Analysis State GasTable Instructions JumpTable Evm Interpreter Invariants.
From S2P Require Import InstrSafety GasSafety StepSafety.

Section Tables.
Context {S : Type} `{StateDBSpec S} `{Mode}.
#[local] Abbreviation entry := (entry_ok (S := S)).

(** ** The forms of entries *)
Definition price_ok (g : Z) : Prop := 0 < g < W.
Lemma plain_ok (ex : @executionFunc S) op g pops pushes j :
  price_ok g -> exec_ok always ex pops pushes [] true no_slack ->
  entry op (mkOperation ex g None (minStack pops pushes) (maxStack pops pushes) None false j false false false).
Proof.
  intros [? ?] Hex. exists (mkEntrySpec pops pushes [] true no_slack 0 always).
  split; try done; cbn; [unfold is_u64; lia|lia].
Qed.
Lemma simple_ok (ex : @executionFunc S) op g pops pushes :
  price_ok g -> exec_ok always ex pops pushes [] true no_slack -> entry op (simple ex g pops pushes).
Proof. apply plain_ok. Qed.

(** The guards that the check of read-only mode establishes. *)
Definition guard_from (op : Z) (w : bool) (guard : Ctx S -> Prop) : Prop :=
  guard = always \/ (w = true /\ guard = may_write) \/ (op = CALL /\ guard = may_call).
Lemma guard_from_ok op (o : operation S) guard :
  guard_from op (writes o) guard -> forall c, unprotected op o c -> guard c.
Proof.
  intros Hg c Hu. destruct Hg as [->|[[Ew ->]|[-> ->]]]; [done| |].
  - unfold may_write. destruct (readOnly (evm c) && byz) eqn:E; [|done]. destruct (Hu E). congruence.
  - intros E. by apply (Hu E).
Qed.
Lemma mem_entry_ok (ex : @executionFunc S) op g (dynf : @gasFunc S) guard pops pushes ms areas nc slack least h w r ret :
  is_u64 g -> 0 <= least -> (0 < g + least \/ h = true \/ r = true) -> (nc = false -> 0 < g) ->
  (forall c k m, slack (set_memory m (set_contract k c)) = slack c) -> guard_from op w guard ->
  exec_ok guard ex pops pushes areas nc slack -> memsize_ok ms pops areas -> dyn_ok guard dynf pops least false slack ->
  entry op (mkOperation ex g (Some dynf) (minStack pops pushes) (maxStack pops pushes) (Some ms) h false w r ret).
Proof. intros. exists (mkEntrySpec pops pushes areas nc slack least guard). split; try done. by apply guard_from_ok. Qed.
Lemma memless_entry_ok (ex : @executionFunc S) op g (dynf : @gasFunc S) guard pops pushes least h w :
  is_u64 g -> 0 <= least -> (0 < g + least \/ h = true) -> guard_from op w guard ->
  exec_ok guard ex pops pushes [] true no_slack -> dyn_ok guard dynf pops least true no_slack ->
  entry op (mkOperation ex g (Some dynf) (minStack pops pushes) (maxStack pops pushes) None h false w false false).
Proof.
  intros ? ? Hp ? ? ?. exists (mkEntrySpec pops pushes [] true no_slack least guard).
  split; try done; [by apply guard_from_ok|cbn; tauto].
Qed.
Lemma exec_weaken (guard : Ctx S -> Prop) ex pops pushes areas nc slack :
  exec_ok always ex pops pushes areas nc slack -> exec_ok guard ex pops pushes areas nc slack.
Proof. intros Hex env calls c G ? ? ? _. by apply Hex. Qed.
Lemma dyn_weaken (guard : Ctx S -> Prop) f pops least ml slack :
  dyn_ok always f pops least ml slack -> dyn_ok guard f pops least ml slack.
Proof. intros Hf env size c ? ? _. by apply Hf. Qed.

(** What the later forks rely on at an entry they change, and that STOP and
    CALL are what the interpreter assumes. *)
Record entry_at (op : Z) (o : operation S) : Prop := {
  ea_ok : entry op o;
  ea_stop : op = STOP -> o = stop_entry;
  ea_call : op = CALL -> 3 <= opMinStack o;
  ea_exp : op = EXP -> entry op (upd_dyn gasExpEIP158 o);
  ea_sstore : op = SSTORE -> entry op (upd_dyn gasSStoreEIP2200 o);
}.
Lemma entry_plain op o : op ∉ [STOP; CALL; EXP; SSTORE] -> entry op o -> entry_at op o.
Proof. intros Hop Ho. split; [done|set_solver..]. Qed.

Create HintDb evm_exec.
#[local] Hint Resolve opAdd_ok opSub_ok opMul_ok opDiv_ok opSdiv_ok opMod_ok opSmod_ok opAddmod_ok opMulmod_ok
  opSignExtend_ok opIszero_ok opAnd_ok opOr_ok opXor_ok opNot_ok opByte_ok cond2_ok
  opAddress_ok opBalance_ok opOrigin_ok opCaller_ok opCallValue_ok opCallDataLoad_ok opCallDataSize_ok
  opCodeSize_ok opGasprice_ok opExtCodeSize_ok opBlockhash_ok opCoinbase_ok opTimestamp_ok opNumber_ok
  opDifficulty_ok opGasLimit_ok opPop_ok opSload_ok opPc_ok opMsize_ok opGas_ok opJumpdest_ok opPush1_ok
  opReturnDataSize_ok opSHL_ok opSHR_ok opSAR_ok opExtCodeHash_ok opSelfBalance_ok opChainID_ok opBeginSub_ok
  opJumpSub_ok opReturnSub_ok opJump_ok opJumpi_ok : evm_exec.

#[local] Ltac plain := apply entry_plain; [by apply (bool_decide_unpack _)|].
#[local] Ltac simple_tac := plain; apply simple_ok; [by vm_compute|first [solve [auto with evm_exec]|apply cond2_ok]].
(** An entry with a memory size, under a guard. *)
#[local] Ltac guard_tac :=
  first [by left|right; left; by split|right; right; by split].
#[local] Ltac mem_guarded guard Hex Hms Hdyn :=
  eapply (mem_entry_ok _ _ _ _ guard); [by vm_compute| | | | |guard_tac|apply Hex|apply Hms|apply Hdyn];
  try done; try lia; try (by vm_compute); try (left; by vm_compute); auto.
#[local] Ltac mem_entry Hex Hms Hdyn := mem_guarded (@always S) Hex Hms Hdyn.
#[local] Ltac entries := repeat (constructor; [try simple_tac|]); try (exact (Forall_nil_2 _)).

Lemma frontier_arith_ok : Forall (fun p => entry_at p.1 p.2) frontier_arith.
Proof.
  unfold frontier_arith. entries.
  - split; try done. exists (mkEntrySpec 0 0 [] true no_slack 0 always).
    split; try done; [apply opStop_ok|by right; left].
  - assert (Hexp : forall f, dyn_ok always f 2 10 true no_slack -> entry EXP (mkOperation opExp 0 (Some f) (minStack 2 1)
      (maxStack 2 1) None false false false false false)).
    { intros f Hf. apply (memless_entry_ok _ _ _ _ always _ _ 10); try done; [by left|by left|apply opExp_ok]. }
    split; try done; [|intros _]; apply Hexp, gasExp_ok.
Qed.
Lemma frontier_env_ok : Forall (fun p => entry_at p.1 p.2) frontier_env.
Proof.
  unfold frontier_env. entries.
  - plain. mem_entry (opSha3_ok (S := S)) (calcBack_ok 0 1) (wordGas_ok (S := S) 1).
  - plain. mem_entry (opCallDataCopy_ok (S := S)) (calcBack_ok 0 2) (wordGas_ok (S := S) 2).
  - plain. mem_entry (opCodeCopy_ok (S := S)) (calcBack_ok 0 2) (wordGas_ok (S := S) 2).
  - plain. mem_entry (opExtCodeCopy_ok (S := S)) (calcBack_ok 1 3) (wordGas_ok (S := S) 3).
Qed.
Lemma frontier_flow_ok : Forall (fun p => entry_at p.1 p.2) frontier_flow.
Proof.
  unfold frontier_flow. entries.
  - plain. mem_entry (opMload_ok (S := S)) (calcBackUint_ok 0 32) (pureMemoryGascost_ok (S := S) 1).
  - plain. mem_entry (opMstore_ok (S := S)) (calcBackUint_ok 0 32) (pureMemoryGascost_ok (S := S) 2).
  - plain. mem_entry (opMstore8_ok (S := S)) (calcBackUint_ok 0 1) (pureMemoryGascost_ok (S := S) 2).
  - assert (Hsst : forall f, dyn_ok may_write f 2 200 true no_slack -> entry SSTORE (mkOperation opSstore 0 (Some f) (minStack 2 0)
      (maxStack 2 0) None false false true false false)).
    { intros f Hf. apply (memless_entry_ok _ _ _ _ may_write _ _ 200); try done; [by left|by right; left|apply opSstore_ok]. }
    split; try done; [|intros _]; apply Hsst; [apply gasSStore_ok|apply gasSStoreEIP2200_ok].
  - plain. apply plain_ok; [by vm_compute|apply opJump_ok].
  - plain. apply plain_ok; [by vm_compute|apply opJumpi_ok].
Qed.

Lemma Forall_map_seqZ (f : Z -> Z * operation S) a n :
  (forall i, a <= i < a + n -> entry_at (f i).1 (f i).2) -> Forall (fun p => entry_at p.1 p.2) (map f (seqZ a n)).
Proof.
  intros Hf. apply list.Forall_forall. intros p Hp. apply list_elem_of_fmap in Hp as (i & -> & Hi).
  apply elem_of_seqZ in Hi. by apply Hf.
Qed.
#[local] Ltac not_special := apply entry_plain; [rewrite !elem_of_cons, elem_of_nil; unfold STOP, CALL, EXP, SSTORE,
  PUSH1, DUP1, SWAP1, LOG0; lia|].

Lemma frontier_push_ok : Forall (fun p => entry_at p.1 p.2) frontier_push.
Proof.
  unfold frontier_push. constructor; [simple_tac|]. apply Forall_map_seqZ. intros i Hi. cbn [fst snd].
  not_special. apply simple_ok; [by vm_compute|apply makePush_ok; lia].
Qed.
Lemma frontier_dup_ok : Forall (fun p => entry_at p.1 p.2) frontier_dup.
Proof.
  apply Forall_map_seqZ. intros i Hi. cbn [fst snd]. not_special. apply simple_ok; [by vm_compute|].
  pose proof (makeDup_ok (S := S) (Z.to_nat i) ltac:(lia)) as Hd. by rewrite Z2Nat.id in Hd by lia.
Qed.
Lemma frontier_swap_ok : Forall (fun p => entry_at p.1 p.2) frontier_swap.
Proof.
  apply Forall_map_seqZ. intros i Hi. cbn [fst snd]. not_special. apply simple_ok; [by vm_compute|].
  pose proof (makeSwap_ok (S := S) (Z.to_nat i)) as Hd. by rewrite Z2Nat.id in Hd by lia.
Qed.
Lemma frontier_log_ok : Forall (fun p => entry_at p.1 p.2) frontier_log.
Proof.
  apply Forall_map_seqZ. intros i Hi. cbn [fst snd]. not_special.
  pose proof (makeLog_ok (S := S) (Z.to_nat i)) as Hd. rewrite Z2Nat.id in Hd by lia.
  mem_guarded (@may_write S _) Hd (calcBack_ok 0 1) (dyn_weaken may_write _ _ _ _ _ (makeGasLog_ok (S := S) i (i + 2) ltac:(lia) ltac:(lia))).
Qed.

Lemma memoryCall_ok : memsize_ok memoryCall 7 [AreaAt 3 4; AreaAt 5 6].
Proof. apply (memoryMax_ok _ _ _ [AreaAt 3 4] [AreaAt 5 6]); apply calcBack_ok; lia. Qed.
Lemma memoryDelegateCall_ok : memsize_ok memoryDelegateCall 6 [AreaAt 2 3; AreaAt 4 5].
Proof. apply (memoryMax_ok _ _ _ [AreaAt 2 3] [AreaAt 4 5]); apply calcBack_ok; lia. Qed.

Lemma frontier_system_ok : Forall (fun p => entry_at p.1 p.2) frontier_system.
Proof.
  unfold frontier_system. entries.
  - plain. mem_guarded (@may_write S _) (opCreate_ok (S := S)) (calcBack_ok 1 2) (dyn_weaken may_write _ _ _ _ _ (pureMemoryGascost_ok (S := S) 3)).
  - split; try done. mem_guarded (@may_call S _) (opCall_ok (S := S)) memoryCall_ok (dyn_weaken may_call _ _ _ _ _ (gasCall_ok (S := S))).
  - plain. mem_entry (opCallCode_ok (S := S)) memoryCall_ok (gasCallCode_ok (S := S)).
  - plain. mem_entry (opReturn_ok (S := S)) (calcBack_ok 0 1) (pureMemoryGascost_ok (S := S) 2).
  - plain. apply (memless_entry_ok _ _ _ _ may_write _ _ 0); try done; [by right|by right; left|apply opSuicide_ok|apply gasSelfdestruct_ok].
Qed.
Lemma frontier_entries_ok : Forall (fun p => entry_at p.1 p.2) frontier_entries.
Proof.
  unfold frontier_entries. rewrite !Forall_app.
  eauto 20 using frontier_arith_ok, frontier_env_ok, frontier_flow_ok, frontier_push_ok, frontier_dup_ok,
    frontier_swap_ok, frontier_log_ok, frontier_system_ok.
Qed.

(** ** Tables *)
(** Every entry is sound, and the entries at [ks] are present. *)
Record good (ks : list Z) (jt : JumpTable S) : Prop := {
  g_entries : map_Forall entry_at jt;
  g_keys : Forall (fun k => is_Some (jt !! k)) ks;
}.
Definition good_ret (ks : list Z) (m : outcome (JumpTable S)) : Prop := exists jt, m = Ret jt /\ good ks jt.

Lemma has_insert (jt : JumpTable S) op k o : op = k \/ is_Some (jt !! k) -> is_Some ((<[op := o]> jt : JumpTable S) !! k).
Proof. unfold JumpTable in *. by rewrite lookup_insert_is_Some'. Qed.
Lemma good_bind ks ks' m f :
  good_ret ks m -> (forall jt, good ks jt -> good_ret ks' (f jt)) -> good_ret ks' (m ≫= f).
Proof. intros (jt & -> & Hg) Hf. by apply Hf. Qed.
Lemma good_Ret ks jt : good ks jt -> good_ret ks (Ret jt).
Proof. by exists jt. Qed.
Lemma good_insert ks jt op o : entry_at op o -> good ks jt -> good (op :: ks) (<[op := o]> jt).
Proof.
  intros Ho [He Hk]. split; [by apply (map_Forall_insert_2 (M := gmap Z))|]. constructor; [apply has_insert; by left|].
  eapply Forall_impl; [|exact Hk]. intros k Hs. by apply has_insert; right.
Qed.
Lemma good_update ks jt op f : good ks jt -> op ∈ ks -> (forall o, entry_at op o -> entry_at op (f o)) ->
  good_ret ks (update f op jt).
Proof.
  intros [He Hk] Hin Hf. unfold update. rewrite list.Forall_forall in Hk. destruct (Hk op Hin) as [o Ho]. rewrite Ho.
  apply good_Ret. split; [apply (map_Forall_insert_2 (M := gmap Z)); [by apply Hf, (He op o)|done]|].
  apply list.Forall_forall. intros k Hks. apply has_insert. right. by apply Hk.
Qed.

(** Changing only a positive price. *)
Lemma upd_const_ok op g o : price_ok g -> entry op o -> entry op (upd_const g o).
Proof.
  intros [? ?] [sp []]. exists sp. split; cbn in *; try done; [unfold is_u64; lia|left; lia].
Qed.
Lemma good_setConst ks jt op g : good ks jt -> op ∈ ks -> op ∉ [STOP; EXP; SSTORE] -> price_ok g ->
  good_ret ks (setConst op g jt).
Proof.
  intros Hg Hin Hop Hp. apply good_update; [done..|]. intros o [].
  split; [by apply upd_const_ok|set_solver|done|set_solver|set_solver].
Qed.

Definition frontier_keys : list Z :=
  [STOP; CALL; EXP; SSTORE; BALANCE; EXTCODESIZE; SLOAD; EXTCODECOPY; CALLCODE].
Lemma frontier_good : good frontier_keys newFrontierInstructionSet.
Proof.
  split.
  - intros k o Hk. apply (elem_of_list_to_map_2 (M := gmap Z) frontier_entries) in Hk. pose proof frontier_entries_ok as Hf.
    rewrite list.Forall_forall in Hf. exact (Hf (k, o) Hk).
  - assert (Hk : Forall (fun k => k ∈ (@frontier_entries S _).*1) frontier_keys)
      by (apply (bool_decide_unpack _); vm_compute; reflexivity).
    eapply Forall_impl; [|exact Hk]. intros k Hin. apply not_eq_None_Some. intros E.
    by apply (not_elem_of_list_to_map_2 (M := gmap Z) frontier_entries k) in E.
Qed.

#[local] Ltac insert_tac := apply good_insert; [|try done].
#[local] Ltac set_tac :=
  eapply good_bind; [apply good_setConst; [done|by apply (bool_decide_unpack _)|by apply (bool_decide_unpack _)
    |by vm_compute]|let jt := fresh "jt" in let Hjt := fresh "Hjt" in intros jt Hjt].
#[local] Ltac last_set :=
  apply good_setConst; [done|by apply (bool_decide_unpack _)|by apply (bool_decide_unpack _)|by vm_compute].

Lemma homestead_good : good_ret (DELEGATECALL :: frontier_keys) newHomesteadInstructionSet.
Proof.
  apply good_Ret. apply good_insert; [|apply frontier_good]. plain.
  mem_entry (opDelegateCall_ok (S := S)) memoryDelegateCall_ok (gasDelegateCall_ok (S := S)).
Qed.
Lemma tangerine_good : good_ret (DELEGATECALL :: frontier_keys) newTangerineWhistleInstructionSet.
Proof. eapply good_bind; [apply homestead_good|]. intros jt Hjt. do 6 set_tac. last_set. Qed.
Lemma spurious_good : good_ret (DELEGATECALL :: frontier_keys) newSpuriousDragonInstructionSet.
Proof.
  eapply good_bind; [apply tangerine_good|]. intros jt Hjt. apply good_update; [done|by apply (bool_decide_unpack _)|].
  intros o Ho. split; try done; [|intros _]; by apply (ea_exp _ _ Ho).
Qed.
Definition byzantium_keys : list Z :=
  REVERT :: RETURNDATACOPY :: RETURNDATASIZE :: STATICCALL :: DELEGATECALL :: frontier_keys.
Lemma byzantium_good : good_ret byzantium_keys newByzantiumInstructionSet.
Proof.
  eapply good_bind; [apply spurious_good|]. intros jt Hjt. apply good_Ret. repeat insert_tac.
  - plain. mem_entry (opRevert_ok (S := S)) (calcBack_ok 0 1) (pureMemoryGascost_ok (S := S) 2).
  - plain. mem_entry (opReturnDataCopy_ok (S := S)) (calcBack_ok 0 2) (wordGas_ok (S := S) 2).
  - simple_tac.
  - plain. mem_entry (opStaticCall_ok (S := S)) memoryDelegateCall_ok (gasStaticCall_ok (S := S)).
Qed.
Definition constantinople_keys : list Z := CREATE2 :: EXTCODEHASH :: SAR :: SHR :: SHL :: byzantium_keys.
Lemma constantinople_good : good_ret constantinople_keys newConstantinopleInstructionSet.
Proof.
  eapply good_bind; [apply byzantium_good|]. intros jt Hjt. apply good_Ret. repeat insert_tac; try simple_tac.
  plain. mem_guarded (@may_write S _) (opCreate2_ok (S := S)) (calcBack_ok 1 2) (dyn_weaken may_write _ _ _ _ _ (wordGas_ok (S := S) 2 Sha3WordGas 4 ltac:(lia) ltac:(by vm_compute))).
Qed.

(** ** The EIPs that may be enabled *)
(** Enabling an EIP keeps a sound table sound, whatever is already in it. *)
Lemma good_weaken ks ks' jt : good ks jt -> ks' ⊆ ks -> good ks' jt.
Proof.
  intros [He Hk] Hs. split; [done|]. rewrite list.Forall_forall in *. intros k Hin. by apply Hk, Hs.
Qed.
Lemma enable1344_good ks jt : good ks jt -> good_ret ks (enable1344 jt).
Proof.
  intros Hg. apply good_Ret. apply (good_weaken (CHAINID :: ks)); [|set_solver]. apply good_insert; [simple_tac|done].
Qed.
Lemma enable2315_good ks jt : good ks jt -> good_ret ks (enable2315 jt).
Proof.
  intros Hg. apply good_Ret. apply (good_weaken (RETURNSUB :: JUMPSUB :: BEGINSUB :: ks)); [|set_solver].
  repeat insert_tac; [..|simple_tac]; plain; apply plain_ok; auto with evm_exec; by vm_compute.
Qed.
Lemma enable2200_good ks jt : SLOAD ∈ ks -> SSTORE ∈ ks -> good ks jt -> good_ret ks (enable2200 jt).
Proof.
  intros K1 K2 Hg. eapply good_bind; [apply good_setConst; try done; by apply (bool_decide_unpack _)|].
  intros jt' Hg'. apply good_update; [done..|]. intros o Ho. split; try done; [|intros _]; by apply (ea_sstore _ _ Ho).
Qed.
Lemma enable1884_good ks jt : SLOAD ∈ ks -> BALANCE ∈ ks -> EXTCODEHASH ∈ ks -> good ks jt ->
  good_ret ks (enable1884 jt).
Proof.
  intros K1 K2 K3 Hg.
  do 3 (eapply good_bind; [apply good_setConst; try done; by apply (bool_decide_unpack _)|]; intros ? ?).
  apply good_Ret. apply (good_weaken (SELFBALANCE :: ks)); [|set_solver]. apply good_insert; [simple_tac|done].
Qed.

Lemma istanbul_good : good_ret constantinople_keys newIstanbulInstructionSet.
Proof.
  eapply good_bind; [apply constantinople_good|]. intros jt Hjt.
  eapply good_bind; [by apply enable1344_good|]. intros jt1 Hjt1.
  eapply good_bind; [apply enable1884_good; try done; by apply (bool_decide_unpack _)|]. intros jt2 Hjt2.
  apply enable2200_good; try done; by apply (bool_decide_unpack _).
Qed.
Lemma yolov2_good : good_ret constantinople_keys newYoloV2InstructionSet.
Proof. eapply good_bind; [apply istanbul_good|]. intros jt Hjt. by apply enable2315_good. Qed.

Lemma good_ret_weaken ks ks' m : good_ret ks m -> ks' ⊆ ks -> good_ret ks' m.
Proof. intros (jt & E & Hg) Hs. exists jt. split; [done|]. by eapply good_weaken. Qed.
Lemma selectTable_good r : good_ret frontier_keys (selectTable r).
Proof.
  unfold selectTable.
  destruct (rIsYoloV2 r); [eapply good_ret_weaken; [apply yolov2_good|by apply (bool_decide_unpack _)]|].
  destruct (rIsIstanbul r); [eapply good_ret_weaken; [apply istanbul_good|by apply (bool_decide_unpack _)]|].
  destruct (rIsConstantinople r); [eapply good_ret_weaken; [apply constantinople_good|by apply (bool_decide_unpack _)]|].
  destruct (rIsByzantium r); [eapply good_ret_weaken; [apply byzantium_good|by apply (bool_decide_unpack _)]|].
  destruct (rIsEIP158 r); [eapply good_ret_weaken; [apply spurious_good|by apply (bool_decide_unpack _)]|].
  destruct (rIsEIP150 r); [eapply good_ret_weaken; [apply tangerine_good|by apply (bool_decide_unpack _)]|].
  destruct (rIsHomestead r); [eapply good_ret_weaken; [apply homestead_good|by apply (bool_decide_unpack _)]|].
  apply good_Ret, frontier_good.
Qed.

(** The tables with EXTCODEHASH, on which EIP-1884 may be enabled. *)
Definition from_constantinople (r : Rules) : bool := rIsYoloV2 r || rIsIstanbul r || rIsConstantinople r.
Lemma selectTable_constantinople r : from_constantinople r = true -> good_ret constantinople_keys (selectTable r).
Proof.
  unfold from_constantinople, selectTable. intros E.
  destruct (rIsYoloV2 r); [apply yolov2_good|]. destruct (rIsIstanbul r); [apply istanbul_good|].
  destruct (rIsConstantinople r); [apply constantinople_good|done].
Qed.

Definition known_eip (r : Rules) (e : Z) : bool :=
  (e =? 2200) || (e =? 1344) || (e =? 2315) || ((e =? 1884) && from_constantinople r).
Definition fits (ks : list Z) (r : Rules) : Prop :=
  frontier_keys ⊆ ks /\ (from_constantinople r = true -> EXTCODEHASH ∈ ks).
Lemma EnableEIP_good ks r e jt : fits ks r -> known_eip r e = true -> good ks jt ->
  exists jt', EnableEIP e jt = Ret (Some jt') /\ good ks jt'.
Proof.
  intros [Hks Hx] He Hg. assert (Hin : forall k, k ∈ frontier_keys -> k ∈ ks) by set_solver.
  assert (Hr : forall m, good_ret ks m -> exists jt', (jt ← m; Ret (Some jt)) = Ret (Some jt') /\ good ks jt').
  { intros m (jt' & -> & Hg'). by exists jt'. }
  unfold EnableEIP, known_eip in *.
  destruct (Z.eqb_spec e 2200); [apply Hr, enable2200_good; try done; apply Hin; by apply (bool_decide_unpack _)|].
  destruct (Z.eqb_spec e 1884) as [->|]; cbn in He.
  { apply Hr, enable1884_good; try done; [apply Hin; by apply (bool_decide_unpack _)..|auto]. }
  destruct (Z.eqb_spec e 1344); [by apply Hr, enable1344_good|].
  destruct (Z.eqb_spec e 2315); [by apply Hr, enable2315_good|]. done.
Qed.
Lemma enableAll_good ks r eips : fits ks r ->
  forallb (known_eip r) eips = true -> forall jt, good ks jt -> good_ret ks (enableAll eips jt).
Proof.
  intros Hf. induction eips as [|e eips IH]; intros Hall jt Hg; [by apply good_Ret|].
  cbn [forallb enableAll] in *. apply andb_true_iff in Hall as [He Hall].
  destruct (EnableEIP_good ks r e jt Hf He Hg) as (jt' & -> & Hg'). by apply IH.
Qed.
Lemma constantinople_fits r : from_constantinople r = true -> fits constantinople_keys r.
Proof. split; intros; by apply (bool_decide_unpack _). Qed.
Lemma frontier_fits r : from_constantinople r = false -> fits frontier_keys r.
Proof. intros E. split; [done|by rewrite E]. Qed.
Lemma NewEVMInterpreter_good r eips : forallb (known_eip r) eips = true ->
  good_ret frontier_keys (NewEVMInterpreter r eips).
Proof.
  intros Hall. unfold NewEVMInterpreter. destruct (from_constantinople r) eqn:E.
  - apply (good_ret_weaken constantinople_keys); [|by apply (bool_decide_unpack _)].
    eapply good_bind; [by apply selectTable_constantinople|]. intros jt Hjt.
    apply (enableAll_good _ r); [by apply constantinople_fits|done..].
  - eapply good_bind; [apply selectTable_good|]. intros jt Hjt.
    apply (enableAll_good _ r); [by apply frontier_fits|done..].
Qed.

(** ** The lists of EIPs that may not be enabled
    Before Constantinople no table has an entry for EXTCODEHASH, and none of
    the other EIPs adds one. *)
Definition lacks (jt : JumpTable S) : Prop := jt !! EXTCODEHASH = None.
Definition lacks_ret (m : outcome (JumpTable S)) : Prop := forall jt, m = Ret jt -> lacks jt.
Lemma lacks_Ret jt : lacks jt -> lacks_ret (Ret jt).
Proof. by intros ? ? [= <-]. Qed.
Lemma lacks_bind m f : lacks_ret m -> (forall jt, lacks jt -> lacks_ret (f jt)) -> lacks_ret (m ≫= f).
Proof. intros Hm Hf. destruct m as [jt| |]; [|done..]. by apply Hf, Hm. Qed.
Lemma lacks_insert op o jt : op <> EXTCODEHASH -> lacks jt -> lacks (<[op := o]> jt).
Proof. intros Hop Hl. unfold lacks, JumpTable in *. by rewrite lookup_insert_ne. Qed.
Lemma lacks_update f op jt : lacks jt -> lacks_ret (update f op jt).
Proof.
  intros Hl jt'. unfold update. destruct (jt !! op) as [o|] eqn:E; [|done]. intros [= <-].
  apply lacks_insert; [|done]. intros ->. by rewrite Hl in E.
Qed.
#[local] Ltac lacks_tac :=
  first [done|apply lacks_update; assumption|apply lacks_Ret; repeat (apply lacks_insert; [done|]); assumption
        |apply lacks_bind; [|let jt := fresh "jt" in intros jt ?]; lacks_tac].
Lemma frontier_lacks : lacks newFrontierInstructionSet.
Proof.
  apply (not_elem_of_list_to_map_1 (M := gmap Z)). apply (bool_decide_unpack _). vm_compute. reflexivity.
Qed.
Lemma spurious_lacks : lacks_ret newHomesteadInstructionSet /\ lacks_ret newTangerineWhistleInstructionSet /\
  lacks_ret newSpuriousDragonInstructionSet.
Proof.
  assert (Hh : lacks_ret newHomesteadInstructionSet) by (apply lacks_Ret, lacks_insert; [done|apply frontier_lacks]).
  assert (Ht : lacks_ret newTangerineWhistleInstructionSet) by (apply lacks_bind; [done|]; intros ? ?; lacks_tac).
  split_and!; [done..|]. apply lacks_bind; [done|]. intros ? ?. lacks_tac.
Qed.
Lemma selectTable_lacks r : from_constantinople r = false -> lacks_ret (selectTable r).
Proof.
  unfold from_constantinople, selectTable. intros E. destruct (rIsYoloV2 r), (rIsIstanbul r), (rIsConstantinople r); try done.
  destruct spurious_lacks as (Hh & Ht & Hs).
  destruct (rIsByzantium r); [apply lacks_bind; [exact Hs|]; intros ? ?; lacks_tac|].
  destruct (rIsEIP158 r); [done|]. destruct (rIsEIP150 r); [done|]. destruct (rIsHomestead r); [done|].
  apply lacks_Ret, frontier_lacks.
Qed.
(** EIP-1884 on such a table dereferences the missing entry. *)
Lemma enable1884_panics jt : lacks jt -> good frontier_keys jt -> enable1884 jt = Panic.
Proof.
  intros Hl Hg. unfold enable1884.
  destruct (good_setConst frontier_keys jt SLOAD SloadGasEIP1884 Hg) as (jt1 & E1 & Hg1);
    [by apply (bool_decide_unpack _)|by apply (bool_decide_unpack _)|by vm_compute|].
  destruct (good_setConst frontier_keys jt1 BALANCE BalanceGasEIP1884 Hg1) as (jt2 & E2 & Hg2);
    [by apply (bool_decide_unpack _)|by apply (bool_decide_unpack _)|by vm_compute|].
  pose proof (lacks_update _ _ _ Hl _ E1) as Hl1. pose proof (lacks_update _ _ _ Hl1 _ E2) as Hl2.
  rewrite E1. cbn. rewrite E2. cbn. unfold setConst, update. by rewrite Hl2.
Qed.
Lemma EnableEIP_lacks r e jt jt' : from_constantinople r = false -> known_eip r e = true -> lacks jt ->
  EnableEIP e jt = Ret (Some jt') -> lacks jt'.
Proof.
  intros Hc He Hl. unfold EnableEIP, known_eip in *. rewrite Hc, andb_false_r, orb_false_r in He.
  assert (Hm : forall m, lacks_ret m -> (jt ← m; Ret (Some jt)) = Ret (Some jt') -> lacks jt').
  { intros [m| |] Hm; [|done..]. intros [= ->]. by apply Hm. }
  destruct (Z.eqb_spec e 2200); [apply Hm; unfold enable2200, setConst, setDyn; lacks_tac|].
  destruct (Z.eqb_spec e 1884) as [->|]; [done|].
  destruct (Z.eqb_spec e 1344); [apply Hm; unfold enable1344; lacks_tac|].
  destruct (Z.eqb_spec e 2315); [apply Hm; unfold enable2315; lacks_tac|]. done.
Qed.
Lemma EnableEIP_unknown r e jt : known_eip r e = false -> good frontier_keys jt -> (from_constantinople r = false -> lacks jt) ->
  EnableEIP e jt = Panic \/ EnableEIP e jt = Ret None.
Proof.
  unfold EnableEIP, known_eip. intros He Hg Hl. destruct (Z.eqb_spec e 2200); [done|].
  destruct (Z.eqb_spec e 1884) as [->|].
  { left. cbn in He. by rewrite enable1884_panics by auto. }
  destruct (Z.eqb_spec e 1344); [done|]. destruct (Z.eqb_spec e 2315); [done|]. by right.
Qed.
Lemma enableAll_panics ks r eips : fits ks r -> forallb (known_eip r) eips = false -> forall jt, good ks jt ->
  (from_constantinople r = false -> lacks jt) -> enableAll eips jt = Panic.
Proof.
  intros Hf. induction eips as [|e eips IH]; intros Hall jt Hg Hl; [done|]. cbn [forallb enableAll] in *.
  destruct (known_eip r e) eqn:He.
  - destruct (EnableEIP_good ks r e jt Hf He Hg) as (jt' & E & Hg'). rewrite E. apply IH; [done..|]. intros Hc.
    by eapply EnableEIP_lacks; [..|exact E]; auto.
  - destruct (EnableEIP_unknown r e jt He) as [->| ->]; try done. by eapply good_weaken; [|apply Hf].
Qed.
Lemma NewEVMInterpreter_panics r eips : forallb (known_eip r) eips = false ->
  NewEVMInterpreter (S := S) r eips = Panic.
Proof.
  intros Hall. unfold NewEVMInterpreter. destruct (from_constantinople r) eqn:E.
  - destruct (selectTable_constantinople r E) as (jt & Ej & Hg). rewrite Ej.
    apply (enableAll_panics constantinople_keys r); [by apply constantinople_fits|done..|]. by rewrite E.
  - destruct (selectTable_good r) as (jt & Ej & Hg). pose proof (selectTable_lacks r E jt Ej). rewrite Ej.
    by apply (enableAll_panics frontier_keys r); [apply frontier_fits|..].
Qed.

(** Sound tables are what a step needs. *)
Lemma good_table ks jt : good ks jt -> STOP ∈ ks -> table_ok jt.
Proof.
  intros [He Hk] Hin. split; [intros k o Hko; apply (He k o Hko)|].
  rewrite list.Forall_forall in Hk. destruct (Hk _ Hin) as [o Ho]. by rewrite Ho, (ea_stop _ _ (He _ _ Ho)).
Qed.
Lemma good_call ks jt o : good ks jt -> jt !! CALL = Some o -> 3 <= opMinStack o.
Proof. intros [He _] Ho. by apply (ea_call _ _ (He _ _ Ho)). Qed.
End Tables.
