(* ===== verification/Safety.v ===== *)
(** * The whole machine is safe

    Message calls and creations keep the invariants of the EVM, given an
    interpreter that does; the interpreter does, given calls that do with less
    gas.  The knot is tied by induction on the fuel, which the gas bounds. *)

From S2P Require Import Prelude Words Uint256 Uint256Arith Uint256Div Uint256Bits Params Config Stack Memory.
From S2P Require Import Opcodes Analysis State GasTable Instructions JumpTable Evm Interpreter Invariants.
From S2P Require Import InstrSafety GasSafety StepSafety TableSafety.

Section Safety.
Context {S : Type} `{StateDBSpec S} `{Mode}.
#[local] Abbreviation runner := (Contract -> list Z -> bool -> M (EVM S) (list Z * option error * Contract)).

(** ** What the EVM asks of the interpreter *)
Definition run_post (k : Contract) (ro : bool) (e : EVM S) (r : list Z * option error * Contract) (e' : EVM S) : Prop :=
  evm_step e e' /\ is_slice r.1.1 /\ 0 <= Gas r.2 <= Gas k /\
  (ro = true -> byz = true -> same_world (statedb e) (statedb e')).
Definition run_ok (Run : runner) (G : Z) : Prop :=
  forall k input ro e, contract_ok k -> is_slice input -> Gas k < G -> evm_ok e ->
    wp (Run k input ro) (run_post k ro e) e.

Lemma evm_step_refl (e : EVM S) : evm_ok e -> evm_step e e.
Proof. by intros; split. Qed.
Lemma evm_step_trans (e1 e2 e3 : EVM S) : evm_step e1 e2 -> evm_step e2 e3 -> evm_step e1 e3.
Proof. intros [? ? R1 L1] [? ? R2 L2]. rewrite R1 in L2. split; try congruence. by etrans. Qed.
Lemma evm_step_statedb (e : EVM S) s : evm_ok e -> db_ok s -> db_rel (static e) (statedb e) s -> evm_step e (set_statedb s e).
Proof. intros ? ? ?. split; ctx_simpl; try done. by apply evm_ok_statedb. Qed.
Lemma evm_step_jumpdests (e : EVM S) j : evm_ok e -> evm_step e (set_jumpdests j e).
Proof. intros []. by split. Qed.

(** A step that also leaves the world as it was. *)
Definition quiet (e e' : EVM S) : Prop := evm_step e e' /\ same_world (statedb e) (statedb e').
Lemma quiet_refl e : evm_ok e -> quiet e e.
Proof. intros. split; [by apply evm_step_refl|done]. Qed.
Lemma quiet_trans e1 e2 e3 : quiet e1 e2 -> quiet e2 e3 -> quiet e1 e3.
Proof. intros [? ?] [? ?]. split; [by eapply evm_step_trans|by etrans]. Qed.
Lemma quiet_jumpdests e e1 j : quiet e e1 -> quiet e (set_jumpdests j e1).
Proof. intros Hq. eapply quiet_trans; [exact Hq|]. split; [|done]. apply evm_step_jumpdests, Hq. Qed.

(** Snapshot [id] was taken in the world of [e], after every snapshot of it. *)
Definition snapped (id : Z) (e e' : EVM S) : Prop :=
  evm_step e e' /\ (forall j s1, saved (statedb e) j s1 -> j < id) /\
  exists s0, same_world (statedb e) s0 /\ saved (statedb e') id s0.
Lemma snapped_step id e e1 e2 : snapped id e e1 -> evm_step e1 e2 -> snapped id e e2.
Proof.
  intros (Hs & Hj & s0 & Hw & Hsv) H2. split_and!; [by eapply evm_step_trans|done|]. exists s0. split; [done|].
  by apply (s_rel _ _ H2).
Qed.

(** Database methods, as steps *)
Lemma wp_db_step {A} w (m : S -> option (A * S)) (P : A -> Prop) e (Q : A -> EVM S -> Prop) :
  db_method w P m -> evm_ok e -> (w = true -> static e = false) ->
  (forall a e2, P a -> evm_step e e2 -> Q a e2) -> wp (db m) Q e.
Proof.
  intros Hm He Hw HQ. apply (wp_db w m P); [done|done|apply He|]. intros a s HP Hok Hr. apply HQ; [done|].
  by apply evm_step_statedb.
Qed.
Lemma wp_db_quiet {A} (m : S -> option (A * S)) (P : A -> Prop) e0 e (Q : A -> EVM S -> Prop) :
  db_method false P m -> quiet e0 e -> (forall a e2, P a -> quiet e0 e2 -> Q a e2) -> wp (db m) Q e.
Proof.
  intros Hm Hq HQ. pose proof (s_ok _ _ (proj1 Hq)) as He. unfold wp, db.
  destruct (m (statedb e)) as [[a s]|] eqn:E; [|done]. destruct (Hm _ _ _ (e_db _ He) E) as (? & ? & ? & Hs).
  apply HQ; [done|]. eapply quiet_trans; [exact Hq|]. split; [|by apply Hs]. apply evm_step_statedb; [done..|].
  split; auto.
Qed.
Lemma wp_db_snapped {A} w (m : S -> option (A * S)) (P : A -> Prop) id e0 e (Q : A -> EVM S -> Prop) :
  db_method w P m -> snapped id e0 e -> (w = true -> static e0 = false) ->
  (forall a e2, P a -> snapped id e0 e2 -> Q a e2) -> wp (db m) Q e.
Proof.
  intros Hm Hs Hw HQ. eapply wp_db_step; [exact Hm|apply (s_ok _ _ (proj1 Hs))| |].
  - intros Ew. rewrite (s_ro _ _ (proj1 Hs)). auto.
  - intros a e2 HP Hs2. apply HQ; [done|]. by eapply snapped_step.
Qed.
Lemma wp_Snapshot e0 e (Q : Z -> EVM S -> Prop) :
  quiet e0 e -> (forall id e2, snapped id e0 e2 -> quiet e0 e2 -> Q id e2) -> wp (db Snapshot) Q e.
Proof.
  intros Hq HQ. pose proof (s_ok _ _ (proj1 Hq)) as He. unfold wp, db.
  destruct (Snapshot (statedb e)) as [[id s]|] eqn:E; [|done].
  destruct (Snapshot_spec _ _ _ (e_db _ He) E) as (Hok & Hw & Hsv & Hold).
  assert (Hstep : evm_step e (set_statedb s e)).
  { apply evm_step_statedb; [done..|]. split; [|done]. intros j s0 Hj. by apply Hold. }
  destruct Hq as [Hs0 Hw0]. apply HQ; [|split; [by eapply evm_step_trans|by etrans]].
  split_and!; [by eapply evm_step_trans| |by exists (statedb e)].
  intros j s1 Hj. apply (Hold j s1). by apply (s_rel _ _ Hs0).
Qed.
Lemma wp_Revert id e0 e (Q : () -> EVM S -> Prop) :
  snapped id e0 e -> (forall e2, quiet e0 e2 -> Q () e2) -> wp (db (RevertToSnapshot id)) Q e.
Proof.
  intros (Hs & Hj & s0 & Hw & Hsv) HQ. pose proof (s_ok _ _ Hs) as He. unfold wp, db.
  destruct (RevertToSnapshot id (statedb e)) as [[[] s]|] eqn:E; [|done].
  destruct (RevertToSnapshot_spec _ _ _ _ (e_db _ He) E) as (Hok & Hr). destruct (Hr s0 Hsv) as [Hw' Hold].
  assert (Hww : same_world (statedb e0) s) by by etrans. apply HQ. split; [|done]. destruct Hs.
  split; ctx_simpl; try done; [by apply evm_ok_statedb|]. split; [|done]. intros j s1 Hs1.
  apply Hold; [by eapply Hj|]. by apply s_rel.
Qed.

Lemma ref_address r : ref_ok r -> is_address (RefAddress r).
Proof. destruct r; [done|]. intros []. done. Qed.

Context (env : Env S) (Henv : env_ok env).

Lemma wp_precompile a p input gas (Q : call_result -> EVM S -> Prop) e :
  precompile env a = Some p -> is_u64 gas -> is_slice input ->
  (forall r, 0 <= r.1.2 <= gas -> ret_ok r.1.1 -> Q r e) -> wp (lift (RunPrecompiledContract p input gas)) Q e.
Proof.
  intros Hp [? ?] Hi HQ. unfold wp, lift, RunPrecompiledContract. cbv [mbind outcome_bind].
  destruct (RequiredGas p input) as [g|] eqn:Eg; [|done]. pose proof (env_price _ Henv _ _ _ _ Hp Hi Eg) as [? ?].
  destruct (Z.ltb_spec gas g); [apply HQ; cbn; [lia|apply is_slice_nil]|].
  destruct (RunP p input) as [[out err]|] eqn:Er; [|done].
  rewrite sub64_nowrap by (unfold is_u64; lia). apply HQ; cbn; [lia|].
  destruct out as [b|]; [|done]. by apply (env_out _ Henv _ _ _ _ _ Hp Hi Er).
Qed.

Lemma is_u64_1 : is_u64 1.
Proof. done. Qed.
Lemma can_spec a v : db_method false any (CanTransfer env a v).
Proof. apply Henv. Qed.
Lemma transfer_spec a b v : db_method true any (Transfer env a b v).
Proof. apply Henv. Qed.
Lemma transfer_value_spec a b v : db_method (negb (v =? 0)) any (Transfer env a b v).
Proof. destruct (Z.eqb_spec v 0) as [->|]; apply Henv. Qed.
#[local] Hint Resolve can_spec add64_range is_u64_1 : statedb.

Lemma finish_ok id r e e1 gas :
  snapped id e e1 -> 0 <= r.1.2 <= gas -> ret_ok r.1.1 -> wp (finish id r) (call_post gas e) e1.
Proof.
  intros Hs Hg Hr. destruct r as [[ret g] err]. cbn in *. unfold finish.
  destruct err; [|apply wp_ret; split_and!; try done; by apply Hs || cbn; lia].
  apply wp_bind, (wp_Revert id e); [done|]. intros e2 [Hs2 Hw2]. apply wp_ret.
  split_and!; try done; cbn; destruct (bool_decide _); lia.
Qed.

Context (Run : runner) (G : Z) (Hrun : run_ok Run G) (HG : G <= W).

(** What is known of a call's result before [finish]. *)
Definition pre_finish (id gas : Z) (e : EVM S) (r : call_result) (e' : EVM S) : Prop :=
  snapped id e e' /\ 0 <= r.1.2 <= gas /\ ret_ok r.1.1.
Lemma call_finish (m : M (EVM S) call_result) id gas e e1 :
  wp m (pre_finish id gas e) e1 -> wp (r ← m; finish id r) (call_post gas e) e1.
Proof.
  intros Hm. apply wp_bind. eapply wp_mono; [|exact Hm]. intros r e2 (Hs & Hg & Hr). by apply finish_ok.
Qed.
Lemma runContract_ok k input ro gas id e e1 :
  contract_ok k -> Gas k = gas -> is_slice input -> gas < G -> snapped id e e1 ->
  wp (runContract Run k input ro) (pre_finish id gas e) e1.
Proof.
  intros Hk <- Hi Hg Hs. unfold runContract. apply wp_bind.
  eapply wp_mono; [|apply Hrun; try done; apply Hs]. intros [[ret err] k'] e2 (Hs2 & Hret & Hg' & _). cbn in Hret, Hg'.
  apply wp_ret. split_and!; cbn; try done; try lia. by eapply snapped_step.
Qed.
Lemma ret_call_post gas g (e e1 : EVM S) err : quiet e e1 -> 0 <= g <= gas -> call_post gas e (Fresh [], g, err) e1.
Proof. intros [Hs Hw] Hg. split_and!; cbn; try done; lia. Qed.
Lemma precompile_finish a p input gas id e e1 :
  precompile env a = Some p -> is_u64 gas -> is_slice input -> snapped id e e1 ->
  wp (lift (RunPrecompiledContract p input gas)) (pre_finish id gas e) e1.
Proof. intros Hp Hg Hi Hs. eapply wp_precompile; [done..|]. by intros. Qed.

(** The contract of a callee. *)
Lemma callee_ok caller object v gas addr hash code :
  ref_ok caller -> is_address object -> is_u64 gas -> is_slice code ->
  contract_ok (SetCallCode addr hash code (mkContract (RefAddress caller) object None [] zero_hash None [] gas (Some v))).
Proof.
  intros Hc Ho Hg Hcode. split; cbn; try done; by apply ref_address.
Qed.
Lemma snapped_jumpdests id e e1 j : snapped id e e1 -> snapped id e (set_jumpdests j e1).
Proof. intros Hs. eapply snapped_step; [exact Hs|]. apply evm_step_jumpdests, Hs. Qed.
(** The code and its hash are read, and the callee runs. *)
Lemma callee_run addr input gas ro id e e1 (k : Contract) :
  is_slice input -> 0 <= gas < G -> snapped id e e1 ->
  (forall hash code, is_slice code -> contract_ok (SetCallCode addr hash code k)) -> Gas k = gas ->
  wp (hash ← db (GetCodeHash addr); code ← db (GetCode addr);
      runContract Run (SetCallCode addr hash code k) input ro) (pre_finish id gas e) e1.
Proof.
  intros Hi Hg Hs Hk Eg. apply wp_bind. eapply wp_db_snapped; [apply GetCodeHash_spec|done|done|]. intros hash e2 _ Hs2.
  apply wp_bind. eapply wp_db_snapped; [apply GetCode_spec|done|done|]. intros code e3 Hcode Hs3.
  apply runContract_ok; try done; [by apply Hk|lia].
Qed.

#[local] Ltac db_step :=
  lazymatch goal with
  | |- wp (mbind _ _) _ _ => apply wp_bind
  | |- wp (db Snapshot) _ _ =>
      eapply wp_Snapshot; [eassumption|];
      let id := fresh "id" in let e := fresh "e" in let Hs := fresh "Hs" in let Hq := fresh "Hq" in intros id e Hs Hq
  | H : snapped _ _ _ |- wp (db _) _ _ =>
      eapply wp_db_snapped; [solve [eauto with statedb evm]|eassumption|may_tac|];
      let a := fresh "a" in let e := fresh "e" in let E := fresh "E" in let Hs := fresh "Hs" in
      intros a e E Hs
  | |- wp (db _) _ _ =>
      eapply wp_db_quiet; [solve [eauto with statedb evm]|eassumption|];
      let a := fresh "a" in let e := fresh "e" in let E := fresh "E" in let Hq := fresh "Hq" in
      intros a e E Hq
  | |- wp get _ _ => apply wp_get
  | |- wp (mret _) _ _ => apply wp_ret
  | |- wp (newContract _ _ _ _) _ _ => apply wp_ret
  end; cbv beta iota.
#[local] Ltac early := apply wp_ret, ret_call_post; [done|lia].

Lemma CallCode_ok caller addr input gas v e :
  0 <= gas < G -> evm_ok e -> ref_ok caller -> is_address addr -> is_slice input ->
  wp (CallCode env Run caller addr input gas v) (call_post gas e) e.
Proof.
  intros Hg He Hc Ha Hi. assert (Hq := quiet_refl e He). assert (is_u64 gas) by (unfold is_u64; lia).
  unfold CallCode. do 2 db_step. destruct (NoRecursion env && _); [early|]. destruct (_ <? _); [early|]. do 2 db_step.
  destruct (negb _); [early|]. do 2 db_step.
  apply call_finish. destruct (precompile env addr) as [p|] eqn:Ep; [by eapply precompile_finish|].
  do 2 db_step. pose proof (ref_address _ Hc).
  apply callee_run; [done|done|by apply snapped_jumpdests| |done]. intros. by apply callee_ok.
Qed.
Lemma DelegateCall_ok k addr input gas e :
  0 <= gas < G -> evm_ok e -> contract_ok k -> is_address addr -> is_slice input ->
  wp (DelegateCall env Run (ContractCaller k) addr input gas) (call_post gas e) e.
Proof.
  intros Hg He Hk Ha Hi. assert (Hq := quiet_refl e He). assert (is_u64 gas) by (unfold is_u64; lia).
  unfold DelegateCall. do 2 db_step. destruct (NoRecursion env && _); [early|]. destruct (_ <? _); [early|]. do 2 db_step.
  apply call_finish. destruct (precompile env addr) as [p|] eqn:Ep; [by eapply precompile_finish|].
  do 2 db_step. db_step. eapply wp_lift; [reflexivity|].
  apply callee_run; [done|done|by apply snapped_jumpdests| |done].
  intros hash code Hcode. destruct Hk. by split.
Qed.

(** A static call never changes the world. *)
Definition static_post (gas : Z) (e : EVM S) (r : call_result) (e' : EVM S) : Prop :=
  call_post gas e r e' /\ (byz = true -> same_world (statedb e) (statedb e')).
Lemma wp_db_both {A} (m : S -> option (A * S)) (P : A -> Prop) id e0 e (Q : A -> EVM S -> Prop) :
  db_method false P m -> snapped id e0 e -> quiet e0 e ->
  (forall a e2, P a -> snapped id e0 e2 -> quiet e0 e2 -> Q a e2) -> wp (db m) Q e.
Proof.
  intros Hm Hs Hq HQ. eapply wp_db_quiet; [exact Hm|apply quiet_refl; by apply Hq|]. intros a e2 HP Hq2.
  apply HQ; [done|by eapply snapped_step; [|apply Hq2]|by eapply quiet_trans].
Qed.
Lemma finish_static id gas r e e1 : pre_finish id gas e r e1 -> (byz = true -> same_world (statedb e) (statedb e1)) ->
  wp (finish id r) (static_post gas e) e1.
Proof.
  intros (Hs & Hg & Hr) Hw. pose proof (finish_ok id r e e1 gas Hs Hg Hr) as Hf. unfold finish in *.
  destruct r as [[ret g] err]. destruct err as [er|]; [|by apply wp_ret].
  apply wp_bind_inv in Hf. apply wp_bind. eapply wp_mono; [|exact Hf]. intros u e2 Hpost. apply wp_ret.
  split; [exact Hpost|]. intros _. by apply Hpost.
Qed.
Lemma StaticCall_static caller addr input gas e :
  0 <= gas < G -> evm_ok e -> ref_ok caller -> is_address addr -> is_slice input ->
  wp (StaticCall env Run caller addr input gas) (static_post gas e) e.
Proof.
  intros Hg He Hc Ha Hi. assert (Hq := quiet_refl e He). assert (is_u64 gas) by (unfold is_u64; lia).
  unfold StaticCall. do 2 db_step. destruct (NoRecursion env && _); [apply wp_ret; split; [apply ret_call_post; [done|lia]|done]|].
  destruct (_ <? _); [apply wp_ret; split; [apply ret_call_post; [done|lia]|done]|]. do 2 db_step. apply wp_bind.
  eapply wp_db_both; [apply AddBalance_zero|done|done|]. intros _ e1 _ Hs1 Hq1. apply wp_bind.
  apply (wp_mono _ (fun r e2 => pre_finish id gas e r e2 /\ (byz = true -> same_world (statedb e) (statedb e2)))).
  { intros r e2 [Hpre Hw]. by apply finish_static. }
  destruct (precompile env addr) as [p|] eqn:Ep.
  { eapply wp_precompile; [done..|]. intros r Hr1 Hr2. split; [done|]. intros _. apply Hq1. }
  do 2 db_step. set (j := match caller with AccountRef _ => _ | ContractCaller _ => _ end).
  pose proof (snapped_jumpdests _ _ _ j Hs1) as Hs2. pose proof (quiet_jumpdests _ _ j Hq1) as Hq2.
  apply wp_bind. eapply wp_db_both; [apply GetCodeHash_spec|done|done|]. intros hash e3 _ Hs3 Hq3. apply wp_bind.
  eapply wp_db_both; [apply GetCode_spec|done|done|]. intros code e4 Hcode Hs4 Hq4. unfold runContract. apply wp_bind.
  eapply wp_mono; [|apply Hrun; [by apply callee_ok|done|cbn; lia|apply Hq4]].
  intros [[ret err] k'] e5 (Hs5 & Hret & Hg5 & Hw5). cbn in Hret, Hg5. apply wp_ret. split.
  - split_and!; cbn; try done; try lia. by eapply snapped_step.
  - intros Eb. etrans; [apply Hq4|]. by apply Hw5.
Qed.
Lemma StaticCall_ok caller addr input gas e :
  0 <= gas < G -> evm_ok e -> ref_ok caller -> is_address addr -> is_slice input ->
  wp (StaticCall env Run caller addr input gas) (call_post gas e) e.
Proof. intros. eapply wp_mono; [|by apply StaticCall_static]. by intros r e' [? _]. Qed.

(** Making the account of an address that does not exist changes nothing. *)
Lemma wp_create_absent addr id e0 e s b (Q : () -> EVM S -> Prop) :
  db_ok s -> Exist addr s = Some (b, statedb e) -> snapped id e0 e ->
  (forall e2, snapped id e0 e2 -> Q () e2) ->
  wp (if negb b then db (CreateAccount addr) else mret ()) Q e.
Proof.
  intros Hs Ex Hsn HQ. destruct b; cbn [negb]; [by apply wp_ret, HQ|].
  pose proof (s_ok _ _ (proj1 Hsn)) as He. unfold wp, db.
  destruct (CreateAccount addr (statedb e)) as [[[] s2]|] eqn:E; [|done].
  destruct (CreateAccount_spec _ _ _ _ (e_db _ He) E) as (? & _ & ? & _).
  pose proof (CreateAccount_fresh _ _ _ _ _ Hs Ex E).
  apply HQ. eapply snapped_step; [exact Hsn|]. apply evm_step_statedb; [done..|]. by split.
Qed.
Lemma Call_ok caller addr input gas v e :
  0 <= gas < G -> evm_ok e -> (static e = true -> v = 0) -> ref_ok caller -> is_address addr -> is_slice input ->
  wp (Call env Run caller addr input gas v) (call_post gas e) e.
Proof.
  intros Hg He Hv Hc Ha Hi. assert (Hq := quiet_refl e He). assert (is_u64 gas) by (unfold is_u64; lia).
  unfold Call. do 2 db_step. destruct (NoRecursion env && _); [early|]. destruct (_ <? _); [early|]. apply wp_bind.
  apply (wp_mono _ (fun _ => quiet e)); [|destruct (negb (v =? 0)); db_step; done].
  intros ok e1 Hq1. destruct (negb ok); [early|]. do 2 db_step. apply wp_bind.
  (* Exist, with its equation *)
  unfold wp at 1, db at 1. destruct (Exist addr (statedb e0)) as [[exist s]|] eqn:Ex; [|done].
  pose proof (s_ok _ _ (proj1 Hq0)) as He0.
  destruct (Exist_spec _ _ _ _ (e_db _ He0) Ex) as (Hok & _ & Hk & Hw). specialize (Hw eq_refl).
  assert (Hstep : quiet e0 (set_statedb s e0)) by (split; [apply evm_step_statedb; [done..|by split]|done]).
  assert (Hq2 : quiet e (set_statedb s e0)) by by eapply quiet_trans.
  assert (Hs2 : snapped id e (set_statedb s e0)) by (eapply snapped_step; [exact Hs|apply Hstep]).
  destruct (negb exist && _ && _ && _); [early|]. apply wp_bind. eapply wp_create_absent; [apply (e_db _ He0)|exact Ex|exact Hs2|].
  intros e3 Hs3. apply wp_bind. eapply wp_db_snapped; [apply transfer_value_spec|exact Hs3| |].
  { intros Ev. destruct (readOnly e && byz); [|done]. by rewrite Hv in Ev. }
  intros _ e4 _ Hs4. apply call_finish. destruct (precompile env addr) as [p|] eqn:Ep; [by eapply precompile_finish|].
  apply wp_bind. eapply wp_db_snapped; [apply GetCode_spec|exact Hs4|done|]. intros code e5 Hcode Hs5.
  destruct (_ =? _); [apply wp_ret; split_and!; cbn; [done|lia|lia|apply is_slice_nil..]|].
  do 2 db_step. apply wp_bind.
  eapply wp_db_snapped; [apply GetCodeHash_spec|by apply snapped_jumpdests|done|]. intros hash e6 _ Hs6.
  apply runContract_ok; try done; [by apply callee_ok|lia].
Qed.

(** ** Creation *)
Lemma UseGas_bound g k : is_u64 (Gas k) -> is_u64 g -> 0 <= Gas (UseGas g k).2 <= Gas k.
Proof.
  intros [? ?] [? ?]. unfold UseGas. destruct (Z.ltb_spec (Gas k) g); cbn; [lia|].
  rewrite sub64_nowrap by (unfold is_u64; lia). lia.
Qed.
(** The errors after which [create] reverts: all but the failure to pay for
    the code, which before Homestead leaves the account without code. *)
Definition reverting (err : error) : Prop := err = ErrCodeStoreOutOfGas -> rIsHomestead (chainRules env) = true.
Definition tail_post (gas : Z) (e : EVM S) (r : create_result) (e' : EVM S) : Prop :=
  create_post gas e r e' /\ (forall err, r.2 = Some err -> reverting err -> same_world (statedb e) (statedb e')).
Lemma finishCreate_ok id address ret err k gas e e1 :
  is_address address -> is_slice ret -> 0 <= Gas k <= gas -> gas < W -> static e = false -> snapped id e e1 ->
  wp (finishCreate env id address ret err k) (tail_post gas e) e1.
Proof.
  intros Ha Hr Hg Hgw Hst Hs. unfold finishCreate. set (big := rIsEIP158 _ && _). clearbody big. apply wp_bind.
  apply (wp_mono _ (fun r e' => snapped id e e' /\ 0 <= Gas r.2 <= gas)).
  - intros [err' k'] e2 [Hs2 Hg2]. cbn [snd] in Hg2. apply wp_bind.
    apply (wp_mono _ (fun r e' => evm_step e e' /\ 0 <= Gas r <= gas /\
      (big = true \/ (exists er, err' = Some er /\ reverting er) -> same_world (statedb e) (statedb e')))).
    + intros k2 e3 (Hs3 & Hg3 & Hw3). apply wp_ret. split; [done|]. intros er Er Hrev. apply Hw3. cbn [snd] in Er.
      destruct big; [by left|right; by exists er].
    + destruct (big || _) eqn:Eb.
      * apply wp_bind, (wp_Revert id e); [done|]. intros e3 [Hs3 Hw3]. apply wp_ret. split; [done|]. split; [|done].
        pose proof (UseGas_bound (Gas k') k'). unfold is_u64 in *. destruct (negb (is_err _ ErrExecutionReverted)); lia.
      * apply wp_ret. split_and!; [apply Hs2|lia..|]. apply orb_false_iff in Eb as [-> Eb].
        intros [?|(er & -> & Hrev)]; [done|]. exfalso. rewrite bool_decide_eq_true_2 in Eb by done. cbn in Eb.
        apply orb_false_iff in Eb as [Eh Ee]. rewrite Hrev in Eh; [done|].
        apply negb_false_iff in Ee. unfold is_err in Ee. by apply bool_decide_eq_true_1 in Ee as [=].
  - destruct (bool_decide _ && _); [|by apply wp_ret]. set (cost := mul64 _ _).
    assert (is_u64 cost) by apply u64_range. pose proof (UseGas_bound cost k ltac:(unfold is_u64; lia) ltac:(done)) as Hu.
    destruct (UseGas cost k) as [ok k']. cbn [snd] in Hu. destruct ok; [|apply wp_ret; split; [done|cbn; lia]].
    apply wp_bind. eapply (wp_db_snapped true); [by apply SetCode_spec|done|done|]. intros _ e2 _ Hs2.
    apply wp_ret. split; [done|]. cbn. lia.
Qed.
Lemma zero_address_ok : is_address zero_address.
Proof. split; [apply bytes_ok_replicate|done]. Qed.
Lemma ret_create_post gas g (e e1 : EVM S) address err : is_address address ->
  evm_step e e1 -> 0 <= g <= gas -> create_post gas e ([], address, g, err) e1.
Proof. intros Ha Hs Hg. split_and!; cbn; try done; try lia. Qed.
(** What a failed creation leaves: the world as it was, or with only the
    creator's nonce one higher. *)
Definition undone (creator : Address) (s s' : S) : Prop :=
  same_world s s' \/
  exists sg n s0 s1, same_world s sg /\ GetNonce creator sg = Some (n, s0) /\
    SetNonce creator (add64 n 1) s0 = Some ((), s1) /\ same_world s1 s'.
Definition creation_post (creator : Address) (gas : Z) (e : EVM S) (r : create_result) (e' : EVM S) : Prop :=
  create_post gas e r e' /\ (forall err, r.2 = Some err -> reverting err -> undone creator (statedb e) (statedb e')).
#[local] Hint Resolve zero_address_ok : evm.

(** From the snapshot on. *)
Lemma create_tail_ok caller cah gas v address id d e e1 :
  0 <= gas < G -> snapped id e e1 -> static e = false -> ref_ok caller -> is_slice (cahCode cah) -> is_address address ->
  wp (_ ← db (CreateAccount address);
      _ ← (if rIsEIP158 (chainRules env) then db (SetNonce address 1) else mret ());
      _ ← db (Transfer env (RefAddress caller) address v);
      c ← newContract caller address (Some v) gas;
      let c := SetCallCode address (cahHash cah) (cahCode cah) c in
      if NoRecursion env && (0 <? d) then mret ([], address, gas, None)
      else '(ret, err, c) ← Run c [] false; finishCreate env id address ret err c) (tail_post gas e) e1.
Proof.
  intros Hg Hs Hst Hc Hcode Ha. assert (is_u64 gas) by (unfold is_u64; lia).
  apply wp_bind. eapply wp_db_snapped; [apply CreateAccount_spec|done|done|]. intros _ e2 _ Hs2. apply wp_bind.
  apply (wp_mono _ (fun _ => snapped id e)).
  2: { destruct (rIsEIP158 _); [|by apply wp_ret]. eapply (wp_db_snapped true); [by apply SetNonce_spec|done|done|]. by intros. }
  intros _ e3 Hs3. apply wp_bind. eapply wp_db_snapped; [apply transfer_spec|done|done|]. intros _ e4 _ Hs4.
  do 2 db_step. set (j := match caller with AccountRef _ => _ | ContractCaller _ => _ end).
  pose proof (snapped_jumpdests _ _ _ j Hs4) as Hs5.
  destruct (NoRecursion env && _); [apply wp_ret; split; [apply ret_create_post; [done|apply Hs5|lia]|done]|].
  apply wp_bind. eapply wp_mono; [|apply Hrun; [by apply callee_ok|apply is_slice_nil|cbn; lia|apply Hs5]].
  intros [[ret err] k'] e9 (Hs9 & Hret & Hg9 & _). cbn in Hret, Hg9. apply finishCreate_ok; try done; [lia|].
  by eapply snapped_step.
Qed.
(** One database method, with its equation. *)
Lemma wp_step_eq {A} w (m : S -> option (A * S)) (P : A -> Prop) e (Q : A -> EVM S -> Prop) :
  db_method w P m -> evm_ok e -> static e = false ->
  (forall a s, P a -> m (statedb e) = Some (a, s) -> evm_step e (set_statedb s e) ->
    (w = false -> same_world (statedb e) s) -> Q a (set_statedb s e)) -> wp (db m) Q e.
Proof.
  intros Hm He Hst HQ. unfold wp, db. destruct (m (statedb e)) as [[a s]|] eqn:E; [|done].
  destruct (Hm _ _ _ (e_db _ He) E) as (? & ? & ? & Hs). apply HQ; [done..| |done]. apply evm_step_statedb; [done..|].
  split; [done|]. by rewrite Hst.
Qed.
Lemma create_step_ok caller cah gas v address e e1 :
  0 <= gas < G -> quiet e e1 -> static e = false -> ref_ok caller -> is_slice (cahCode cah) -> is_address address ->
  wp (create env Run caller cah gas v address) (creation_post (RefAddress caller) gas e) e1.
Proof.
  intros Hg Hq Hst Hc Hcode Ha. assert (is_u64 gas) by (unfold is_u64; lia). pose proof zero_address_ok.
  assert (Hearly : forall g (e2 : EVM S) address err, is_address address -> evm_step e e2 -> 0 <= g <= gas ->
    undone (RefAddress caller) (statedb e) (statedb e2) ->
    wp (mret ([], address, g, err)) (creation_post (RefAddress caller) gas e) e2).
  { intros. apply wp_ret. split; [by apply ret_create_post|done]. }
  unfold create. do 2 db_step. destruct (_ <? _); [apply Hearly; [done|apply Hq|lia|left; apply Hq]|].
  apply wp_bind. eapply wp_db_quiet; [apply can_spec|done|]. intros ok e2 _ Hq2.
  destruct (negb _); [apply Hearly; [done|apply Hq2|lia|left; apply Hq2]|].
  assert (Hst2 : static e2 = false) by by rewrite (s_ro _ _ (proj1 Hq2)).
  apply wp_bind. eapply wp_step_eq; [apply GetNonce_spec|apply Hq2|done|]. intros nonce s3 _ E3 Hs3 _.
  apply wp_bind. eapply wp_step_eq; [apply SetNonce_spec, add64_range|apply Hs3|done|]. intros [] s4 _ E4 Hs4 _.
  set (e4 := set_statedb s4 _) in *. assert (H4 : evm_step e e4) by (eapply evm_step_trans; [eapply evm_step_trans; [apply Hq2|exact Hs3]|exact Hs4]).
  assert (Hund : forall s, same_world s4 s -> undone (RefAddress caller) (statedb e) s).
  { intros s Hw. right. exists (statedb e2), nonce, s3, s4. split_and!; try done. apply Hq2. }
  assert (Hq4 := quiet_refl e4 ltac:(apply H4)). change s4 with (statedb e4) in Hund. clearbody e4.
  do 4 db_step.
  destruct (_ || _); [apply Hearly; [done|eapply evm_step_trans; [exact H4|apply Hq1]|lia|apply Hund, Hq1]|].
  do 2 db_step. assert (Hst4 : static e4 = false) by by rewrite (s_ro _ _ H4).
  eapply wp_mono; [|apply (create_tail_ok caller cah gas v address id (depth e1) e4)]; try done.
  intros r e8 [(Hs8 & Hr) Hw]. split; [split; [by eapply evm_step_trans|done]|]. intros er Er Hrev.
  apply Hund. by eapply Hw.
Qed.
Lemma Create_undone caller code gas v e :
  0 <= gas < G -> evm_ok e -> static e = false -> ref_ok caller -> is_slice code ->
  wp (Create env Run caller code gas v) (creation_post (RefAddress caller) gas e) e.
Proof.
  intros Hg He Hst Hc Hcode. unfold Create. assert (Hq := quiet_refl e He). do 2 db_step.
  apply create_step_ok; try done. apply (env_create _ Henv).
Qed.
Lemma Create2_undone caller code gas v salt e :
  0 <= gas < G -> evm_ok e -> static e = false -> ref_ok caller -> is_slice code -> int_ok salt ->
  wp (Create2 env Run caller code gas v salt) (creation_post (RefAddress caller) gas e) e.
Proof.
  intros Hg He Hst Hc Hcode Hsalt. apply create_step_ok; try done.
  unfold CreateAddress2. destruct (env_keccak _ Henv (0xff :: RefAddress caller ++ Bytes32 salt ++ keccak256 env code)).
  split; [by apply Forall_drop|]. rewrite length_drop. lia.
Qed.
Lemma Create_ok caller code gas v e :
  0 <= gas < G -> evm_ok e -> static e = false -> ref_ok caller -> is_slice code ->
  wp (Create env Run caller code gas v) (create_post gas e) e.
Proof. intros. eapply wp_mono; [|by apply Create_undone]. by intros r e' [? _]. Qed.
Lemma Create2_ok caller code gas v salt e :
  0 <= gas < G -> evm_ok e -> static e = false -> ref_ok caller -> is_slice code -> int_ok salt ->
  wp (Create2 env Run caller code gas v salt) (create_post gas e) e.
Proof. intros. eapply wp_mono; [|by apply Create2_undone]. by intros r e' [? _]. Qed.

Lemma evm_calls_ok : calls_ok (evm_calls env Run) G.
Proof.
  split; [apply Call_ok|apply CallCode_ok|apply DelegateCall_ok|apply StaticCall_ok|apply Create_ok|apply Create2_ok].
Qed.
End Safety.

(** ** The interpreter *)
Section Interp.
Context {S : Type} `{StateDBSpec S} `{Mode}.
Context (env : Env S) (Henv : env_ok env).
Context (jt : JumpTable S) (Hjt : good frontier_keys jt).

Lemma poll_ok steps c : ctx_ok c ->
  wp (poll env steps) (fun _ c' => ctx_ok c' /\ frame c c' /\ contract c' = contract c) c.
Proof.
  intros Hc. unfold poll. destruct (_ =? _); [|apply wp_ret; split_and!; try done; apply frame_refl].
  wp_steps. destruct Hc. destruct c_evm. split_and!; [split; ctx_simpl; try done; by split|by split|done].
Qed.

Definition loop_post (c : Ctx S) (r : result) (c' : Ctx S) : Prop :=
  end_ok c' /\ frame c c' /\ is_slice r.1 /\ Gas (contract c') <= Gas (contract c).

Lemma mem_ok_new : mem_ok NewMemory.
Proof. split; [done|done|by vm_compute|done]. Qed.

(** [Run] is as good as its loop. *)
Definition enter (ro : bool) (e : EVM S) : EVM S :=
  let e1 := set_depth (depth e + 1) e in
  set_returnData [] (if ro && negb (readOnly e) then set_readOnly true e1 else e1).
Definition leave (ro : bool) (e e' : EVM S) : EVM S :=
  let e' := if ro && negb (readOnly e) then set_readOnly false e' else e' in set_depth (depth e' - 1) e'.
Lemma enter_ok ro e : evm_ok e -> evm_ok (enter ro e) /\ depth (enter ro e) = depth e + 1 /\
  readOnly (enter ro e) = (ro || readOnly e) /\ statedb (enter ro e) = statedb e.
Proof.
  intros []. unfold enter. destruct ro, (readOnly e) eqn:E; cbn; split_and!; try done;
    (split; cbn; try done; lia).
Qed.
Lemma leave_ok ro e e' : evm_ok e -> evm_ok e' -> depth e' = depth e + 1 -> readOnly e' = (ro || readOnly e) ->
  db_rel ((ro || readOnly e) && byz) (statedb e) (statedb e') -> evm_step e (leave ro e e').
Proof.
  intros [] [] Hd Hr [Hk Hw]. unfold leave.
  assert (Hrel : db_rel (static e) (statedb e) (statedb e')).
  { split; [done|]. intros Es. apply Hw. destruct (readOnly e); [|done]. by rewrite orb_true_r. }
  destruct ro, (readOnly e) eqn:E; split; cbn; rewrite ?E; try done; try lia; split; cbn; try done; lia.
Qed.

Lemma runWith_ok (lp : M (Ctx S) result) (G : Z) :
  (forall c, ctx_ok c -> Gas (contract c) < G -> wp lp (loop_post c) c) -> run_ok (runWith lp) G.
Proof.
  intros Hlp k input ro e Hk Hi HG He. unfold wp, runWith. fold (enter ro e).
  destruct (enter_ok ro e He) as (He1 & Hd1 & Hr1 & Hs1). set (e1 := enter ro e) in *. clearbody e1.
  pose proof (k_gas _ Hk) as [? ?]. fold (leave ro e e1).
  destruct (Z.eqb_spec (len (Code k)) 0).
  { assert (Hsl : evm_step e (leave ro e e1)) by (apply leave_ok; try done; by rewrite Hs1).
    split_and!; [done|apply is_slice_nil|done|cbn; lia|]. intros _ _. unfold leave. destruct (_ && _); cbn; by rewrite Hs1. }
  set (c := mkCtx 0 [] NewMemory [] (set_input input k) e1).
  assert (Hc : ctx_ok c).
  { split; cbn; try done; first [apply mem_ok_new|destruct Hk; by split]. }
  specialize (Hlp c Hc HG). unfold wp in Hlp. cbv [mbind outcome_bind].
  destruct (lp c) as [[[ret err] c']|[]|]; try done. fold (leave ro e (evm c')).
  destruct Hlp as ([[Hg0 _] ?] & [F1 F2 F3 F4] & Hret & Hg). cbn in F1, F2, F4. rewrite Hr1, Hs1 in F4.
  split_and!; [apply leave_ok; try done; congruence|done|exact Hg0|done|].
  intros -> Eb. destruct F4 as [_ Hw]. unfold leave. destruct (readOnly e); cbn; apply Hw; by rewrite Eb.
Qed.

Lemma loop_ok fuel : forall steps c, ctx_ok c -> Gas (contract c) < Z.min (Z.of_nat fuel) W ->
  wp (loop env jt fuel steps) (loop_post c) c.
Proof.
  induction fuel as [|fuel IH]; intros steps c Hc HG; pose proof (k_gas _ (c_contract _ Hc)) as [? ?]; [lia|].
  cbn [loop]. apply (wp_bind (poll env (steps + 1))). eapply wp_mono; [|by apply poll_ok].
  intros aborted c1 (Hc1 & Hf1 & Ek). destruct aborted.
  { apply wp_ret. split_and!; [by apply ctx_ok_end|done|apply is_slice_nil|by rewrite Ek]. }
  apply (wp_bind (step env jt _)).
  assert (Hcalls : calls_ok (evm_calls env (runWith (loop env jt fuel 0))) (Z.min (Z.of_nat fuel) W)).
  { apply evm_calls_ok; [done| |lia]. apply runWith_ok. intros c' Hc' HG'. by apply IH. }
  eapply wp_mono; [|eapply (step_ok env jt _ c1 _); try done].
  - intros r c2 [(Hf2 & Hg2 & Hr2) Hdec]. rewrite Ek in *. pose proof (frame_trans _ _ _ Hf1 Hf2) as Hf.
    destruct r as [res|].
    + destruct Hr2 as [He Hres]. by apply wp_ret.
    + specialize (Hdec eq_refl). eapply wp_mono; [|apply (IH (steps + 1) c2 Hr2); lia].
      intros res c3 (He3 & Hf3 & Hs3 & Hg3). split_and!; try done; [by eapply frame_trans|lia].
  - apply (good_table frontier_keys); [done|by apply (bool_decide_unpack _)].
  - intros o; by apply (good_call frontier_keys).
  - rewrite Ek. lia.
Qed.

Lemma Run_ok fuel : run_ok (Run env jt fuel) (Z.min (Z.of_nat fuel) W).
Proof. apply runWith_ok. intros c Hc HG. by apply loop_ok. Qed.

Lemma calls_of_fuel fuel : calls_ok (evm_calls env (Run env jt fuel)) (Z.min (Z.of_nat fuel) W).
Proof. apply evm_calls_ok; [done|apply Run_ok|lia]. Qed.
End Interp.
