(* ===== verification/Codec.v ===== *)
(** * Binary encoding

    src/utils/codec: [ZeroCopySink] (zero_copy_sink.go) and [ZeroCopySource]
    (zero_copy_source.go).  A sink is its backing array and the length of the
    slice [buf] over it, so that growing by reslicing exposes whatever the array
    holds; the theorems show that no such byte is ever read.  Signed integers are
    written as the unsigned ones with the same bits. *)

From S2P Require Import Prelude Words Uint256 Uint256Arith Stack Memory.

(** ** The sink *)
Record ZeroCopySink := mkSink { arr : bytes; blen : Z }.
Definition sinkBytes (s : ZeroCopySink) : bytes := take (Z.to_nat (blen s)) (arr s).
Definition sinkSize (s : ZeroCopySink) : Z := blen s.
Definition maxInt : Z := 0x7fffffffffffffff.

Definition tryGrowByReslice (n : Z) : M ZeroCopySink (option Z) := fun s =>
  let l := blen s in
  if n <=? len (arr s) - l then Ret (Some l, mkSink (arr s) (l + n)) else Ret (None, s).
(** [makeSlice(2*c + n)] and the copy of the old bytes. *)
Definition grow (n : Z) : M ZeroCopySink Z :=
  i ← tryGrowByReslice n;
  match i with
  | Some i => mret i
  | None => fun s =>
      let l := blen s in
      let c := len (arr s) in
      if maxInt - c - n <? c then Panic
      else Ret (l, mkSink (copy_at 0 (2 * c + n) (sinkBytes s) (replicate (Z.to_nat (2 * c + n)) 0)) (l + n))
  end.
(** The index of the new bytes, [self.buf[m:]]. *)
Definition sinkNextBytes (n : Z) : M ZeroCopySink Z :=
  m ← tryGrowByReslice n;
  match m with Some m => mret m | None => grow n end.
Definition sinkBackUp (n : Z) : M ZeroCopySink () := modify (fun s => mkSink (arr s) (blen s - n)).
(** [copy(buf[off:], b)] *)
Definition poke (off : Z) (b : bytes) : M ZeroCopySink () :=
  modify (fun s => mkSink (copy_at off (blen s - off) b (arr s)) (blen s)).

Definition WriteBytes (p : bytes) : M ZeroCopySink () := m ← sinkNextBytes (len p); poke m p.
Definition WriteUint8 (d : Z) : M ZeroCopySink () := m ← sinkNextBytes 1; poke m [d].
Definition WriteByte (c : Z) : M ZeroCopySink () := WriteUint8 c.
Definition WriteBool (d : bool) : M ZeroCopySink () := if d then WriteByte 1 else WriteByte 0.
(** [binary.LittleEndian.PutUint16], [PutUint32], [PutUint64] *)
Definition WriteUint16 (d : Z) : M ZeroCopySink () := m ← sinkNextBytes 2; poke m (le_bytes 2 d).
Definition WriteUint32 (d : Z) : M ZeroCopySink () := m ← sinkNextBytes 4; poke m (le_bytes 4 d).
Definition WriteUint64 (d : Z) : M ZeroCopySink () := m ← sinkNextBytes 8; poke m (le_bytes 8 d).
Definition WriteVarUint (d : Z) : M ZeroCopySink Z :=
  m ← sinkNextBytes 9;
  size ←
    (if d <? 0xFD then _ ← poke m [d]; mret 1
     else if d <=? 0xFFFF then _ ← poke m [0xFD]; _ ← poke (m + 1) (le_bytes 2 d); mret 3
     else if d <=? 0xFFFFFFFF then _ ← poke m [0xFE]; _ ← poke (m + 1) (le_bytes 4 d); mret 5
     else _ ← poke m [0xFF]; _ ← poke (m + 1) (le_bytes 8 d); mret 9);
  _ ← sinkBackUp (9 - size);
  mret size.
Definition WriteVarBytes (d : bytes) : M ZeroCopySink Z :=
  let l := len d in
  n ← WriteVarUint l;
  let size := add64 n l in
  _ ← WriteBytes d; mret size.
Definition WriteAddress (a : Address) : M ZeroCopySink () := WriteBytes a.
Definition WriteHash (h : Hash) : M ZeroCopySink () := WriteBytes h.
Definition WriteString (d : bytes) : M ZeroCopySink Z := WriteVarBytes d.
(** Signed integers: the conversion keeps the bits. *)
Definition WriteInt64 (d : Z) : M ZeroCopySink () := WriteUint64 (d mod 2 ^ 64).
Definition WriteInt32 (d : Z) : M ZeroCopySink () := WriteUint32 (d mod 2 ^ 32).
Definition WriteInt16 (d : Z) : M ZeroCopySink () := WriteUint16 (d mod 2 ^ 16).
Definition sinkReset : M ZeroCopySink () := modify (fun s => mkSink (arr s) 0).
(** [NewZeroCopySink(b)] for a slice with [spare] bytes behind it, and of nil *)
Definition NewZeroCopySinkOn (b spare : bytes) : ZeroCopySink := mkSink (b ++ spare) (len b).
Definition NewZeroCopySink : ZeroCopySink := mkSink (replicate 512 0) 0.

(** ** The source *)
Record ZeroCopySource := mkSource { src : bytes; off : Z }.
Definition NewZeroCopySource (b : bytes) : ZeroCopySource := mkSource b 0.
Definition sourceLen (s : ZeroCopySource) : Z :=
  let length := len (src s) in if length <=? off s then 0 else length - off s.
(** [codec.SafeAdd] *)
Definition codecSafeAdd (x y : Z) : Z * bool := (add64 x y, MaxUint64 - x <? y).

Definition NextBytes (n : Z) : M ZeroCopySource (bytes * bool) := fun s =>
  let m := len (src s) in
  let '(e, overflow) := codecSafeAdd (off s) n in
  let eof := overflow || (m <? e) in
  let e := if eof then m else e in
  if slice_ok (off s) e (src s) then Ret ((slice (off s) e (src s), eof), mkSource (src s) e) else Panic.
Definition Skip (n : Z) : M ZeroCopySource bool := fun s =>
  let m := len (src s) in
  let '(e, overflow) := codecSafeAdd (off s) n in
  let eof := overflow || (m <? e) in
  Ret (eof, mkSource (src s) (if eof then m else e)).
Definition NextByte : M ZeroCopySource (Z * bool) := fun s =>
  if len (src s) <=? off s then Ret ((0, true), s)
  else Ret ((src s !!! Z.to_nat (off s), false), mkSource (src s) (add64 (off s) 1)).
Definition NextBool : M ZeroCopySource (bool * bool * bool) :=
  '(v, eof) ← NextByte;
  mret (if v =? 0 then (false, false, eof) else if v =? 1 then (true, false, eof) else (true, true, eof)).
Definition sourceBackUp (n : Z) : M ZeroCopySource () := modify (fun s => mkSource (src s) (sub64 (off s) n)).
Definition NextUint (width : Z) : M ZeroCopySource (Z * bool) :=
  '(buf, eof) ← NextBytes width;
  mret (if (eof : bool) then (0, true) else (le_val buf, eof)).
Definition NextUint16 : M ZeroCopySource (Z * bool) := NextUint 2.
Definition NextUint32 : M ZeroCopySource (Z * bool) := NextUint 4.
Definition NextUint64 : M ZeroCopySource (Z * bool) := NextUint 8.
Definition getVarUintSize (v : Z) : Z :=
  if v <? 0xfd then 1 else if v <=? 0xffff then 3 else if v <=? 0xFFFFFFFF then 5 else 9.
(** [data, size, irregular, eof] *)
Definition NextVarUint : M ZeroCopySource (Z * Z * bool * bool) :=
  '(fb, eof) ← NextByte;
  if (eof : bool) then mret (0, 0, false, true)
  else
    '(data, size, e) ←
      (if fb =? 0xFD then '(v, e) ← NextUint16; mret (v, 3, e)
       else if fb =? 0xFE then '(v, e) ← NextUint32; mret (v, 5, e)
       else if fb =? 0xFF then '(v, e) ← NextUint64; mret (v, 9, e)
       else mret (fb, 1, false));
    mret (if (e : bool) then (0, 0, false, true) else (data, size, negb (size =? getVarUintSize data), false)).
Definition NextVarBytes : M ZeroCopySource (bytes * Z * bool * bool) :=
  '(count, size, irregular, eof) ← NextVarUint;
  let size := add64 size count in
  if 0 <? count then
    '(data, eof) ← NextBytes count; mret (data, size, irregular, eof)
  else mret ([], size, irregular, eof).
Inductive codec_error := ErrIrregularData | ErrUnexpectedEOF.
Definition ReadVarBytes : M ZeroCopySource (bytes * option codec_error) :=
  '(data, _, irr, eof) ← NextVarBytes;
  mret (if (irr : bool) then ([], Some ErrIrregularData)
        else if (eof : bool) then ([], Some ErrUnexpectedEOF) else (data, None)).
(** [NextAddress] and [NextHash] return the zero value at the end. *)
Definition NextAddress : M ZeroCopySource (Address * bool) :=
  '(buf, eof) ← NextBytes 20; mret (if (eof : bool) then (zero_address, true) else (buf, eof)).
Definition NextHash : M ZeroCopySource (Hash * bool) :=
  '(buf, eof) ← NextBytes 32; mret (if (eof : bool) then (zero_hash, true) else (buf, eof)).

Definition Pos (s : ZeroCopySource) : Z := off s.
Definition sourceSize (s : ZeroCopySource) : Z := len (src s).
Definition NextUint8 : M ZeroCopySource (Z * bool) := NextByte.
(** The signed integer with the low [w] bits of [v] *)
Definition signed (w v : Z) : Z := let v := v mod 2 ^ w in if v <? 2 ^ (w - 1) then v else v - 2 ^ w.
Definition NextInt16 : M ZeroCopySource (Z * bool) := '(v, eof) ← NextUint16; mret (signed 16 v, eof).
Definition NextInt32 : M ZeroCopySource (Z * bool) := '(v, eof) ← NextUint32; mret (signed 32 v, eof).
Definition NextInt64 : M ZeroCopySource (Z * bool) := '(v, eof) ← NextUint64; mret (signed 64 v, eof).
Definition ReadUint32 : M ZeroCopySource (Z * option codec_error) :=
  '(data, eof) ← NextUint32; mret (if (eof : bool) then (0, Some ErrUnexpectedEOF) else (data, None)).
Definition ReadUint64 : M ZeroCopySource (Z * option codec_error) :=
  '(data, eof) ← NextUint64; mret (if (eof : bool) then (0, Some ErrUnexpectedEOF) else (data, None)).
Definition ReadString : M ZeroCopySource (bytes * option codec_error) := ReadVarBytes.
Definition NextString : M ZeroCopySource (bytes * Z * bool * bool) := NextVarBytes.

(** ** Facts about the sink *)
(** The slice lies in its array, and the array stays proportional to it. *)
Record sink_ok (s : ZeroCopySink) : Prop := {
  sink_range : 0 <= blen s <= len (arr s);
  sink_cap : len (arr s) <= 1024 + 4 * blen s;
}.
Definition max_sink : Z := 0x800000000000000.

(** [m] appends [p] to the buffer and yields [a]. *)
Definition appends {A} (m : M ZeroCopySink A) (p : bytes) (a : A) : Prop :=
  forall s, sink_ok s -> blen s + len p <= max_sink ->
    exists s', m s = Ret (a, s') /\ sink_ok s' /\ sinkBytes s' = sinkBytes s ++ p /\ blen s' = blen s + len p.

Lemma len_take n (l : bytes) : 0 <= n <= len l -> len (take (Z.to_nat n) l) = n.
Proof. intros. unfold len in *. rewrite length_take. lia. Qed.
Lemma NewZeroCopySink_ok : sink_ok NewZeroCopySink /\ sinkBytes NewZeroCopySink = [].
Proof. by split; [split; vm_compute|]. Qed.

(** The bytes up to [blen] survive; the ones from there on are arbitrary. *)
Lemma sinkNextBytes_ok n s : sink_ok s -> 0 <= n -> blen s + n <= max_sink + 9 ->
  exists s', sinkNextBytes n s = Ret (blen s, s') /\ blen s' = blen s + n /\ blen s' <= len (arr s') /\
    (len (arr s') <= len (arr s) \/ len (arr s') <= 3 * blen s') /\
    take (Z.to_nat (blen s)) (arr s') = sinkBytes s.
Proof.
  intros [[H0 Hl] Hc] Hn Hm. unfold sinkNextBytes, tryGrowByReslice, grow. cbv [mbind M_bind outcome_bind mret M_ret].
  unfold tryGrowByReslice. destruct (Z.leb_spec n (len (arr s) - blen s)).
  - eexists. split; [done|]. cbn. split_and!; try done; [lia|by left].
  - cbn. destruct (Z.leb_spec n (len (arr s) - blen s)); [lia|].
    destruct (Z.ltb_spec (maxInt - len (arr s) - n) (len (arr s))); [unfold maxInt, max_sink in *; lia|].
    eexists. split; [done|]. cbn. set (new := replicate _ 0).
    assert (Hnew : len new = 2 * len (arr s) + n) by (subst new; rewrite len_replicate; lia).
    assert (Hcopy : len (copy_at 0 (2 * len (arr s) + n) (sinkBytes s) new) = 2 * len (arr s) + n)
      by (rewrite copy_at_len; lia).
    rewrite Hcopy. split_and!; try done; [lia|right; lia|].
    unfold copy_at, sinkBytes in *. rewrite len_take by lia. rewrite Z.min_r by lia. cbn [Z.to_nat]. rewrite take_0, app_nil_l.
    rewrite take_app_le by (rewrite !length_take; unfold len in *; lia).
    rewrite !take_take. f_equal. lia.
Qed.

Lemma copy_at_within off size src dst : 0 <= off -> 0 <= len src <= size -> off + size <= len dst ->
  copy_at off size src dst = take (Z.to_nat off) dst ++ src ++ drop (Z.to_nat (off + len src)) dst.
Proof.
  intros. unfold copy_at. rewrite Z.min_r by lia. f_equal. f_equal. apply take_ge. unfold len. lia.
Qed.

(** A write whose bytes fill what was requested. *)
Lemma write_appends p : appends (m ← sinkNextBytes (len p); poke m p) p ().
Proof.
  intros s Hs Hm. pose proof (len_nonneg p).
  destruct (sinkNextBytes_ok (len p) s) as (s1 & E & Eb & Hl & Hc & Ht); [done|done|lia|].
  cbv [mbind M_bind outcome_bind]. rewrite E. cbv [poke modify]. eexists. split; [done|]. cbn [arr blen].
  destruct Hs as [[H0 Hl0] Hc0]. rewrite Eb in *. replace (blen s + len p - blen s) with (len p) by lia.
  rewrite copy_at_within by lia. rewrite Ht. 
  assert (Ha : len (sinkBytes s) = blen s) by (apply len_take; lia).
  assert (Hd : len (drop (Z.to_nat (blen s + len p)) (arr s1)) = len (arr s1) - (blen s + len p))
    by (unfold len in *; rewrite length_drop; lia).
  split_and!; [split; cbn; rewrite !len_app; lia| |done].
  unfold sinkBytes at 1. cbn. rewrite app_assoc, take_app_le by (unfold len in *; rewrite !length_app; lia).
  apply take_ge. unfold len in *. rewrite !length_app. lia.
Qed.
Lemma WriteBytes_appends p : appends (WriteBytes p) p ().
Proof. apply write_appends. Qed.
Lemma WriteUint64_appends d : appends (WriteUint64 d) (le_bytes 8 d) ().
Proof. apply (write_appends (le_bytes 8 d)). Qed.

Lemma bind_appends {A B} (m : M ZeroCopySink A) (k : A -> M ZeroCopySink B) p q a b :
  appends m p a -> appends (k a) q b -> appends (m ≫= k) (p ++ q) b.
Proof.
  intros Hm Hk s Hs Hl. rewrite len_app in *. pose proof (len_nonneg p). pose proof (len_nonneg q).
  destruct (Hm s Hs ltac:(lia)) as (s1 & E1 & Hs1 & Eb1 & El1).
  destruct (Hk s1 Hs1 ltac:(lia)) as (s2 & E2 & Hs2 & Eb2 & El2).
  exists s2. cbv [mbind M_bind outcome_bind]. rewrite E1, E2. split_and!; try done; [|lia].
  by rewrite Eb2, Eb1, app_assoc.
Qed.
Lemma ret_appends {A} (a : A) : appends (mret a) [] a.
Proof. intros s Hs _. exists s. rewrite app_nil_r. split_and!; try done. unfold len. cbn. lia. Qed.

(** The prefix form of an integer of variable size. *)
Definition var_uint_bytes (d : Z) : bytes :=
  if d <? 0xFD then [d]
  else if d <=? 0xFFFF then 0xFD :: le_bytes 2 d
  else if d <=? 0xFFFFFFFF then 0xFE :: le_bytes 4 d
  else 0xFF :: le_bytes 8 d.

(** Writing [tag :: p] into nine fresh bytes and giving the rest back. *)
Lemma poke2_appends tag p n s m s1 : sink_ok s -> sinkNextBytes 9 s = Ret (m, s1) ->
  blen s + 9 <= max_sink + 9 -> n = 1 + len p -> n <= 9 ->
  exists s', (_ ← poke m [tag]; _ ← poke (m + 1) p; _ ← sinkBackUp (9 - n); mret n) s1 = Ret (n, s') /\
    sink_ok s' /\ sinkBytes s' = sinkBytes s ++ tag :: p /\ blen s' = blen s + n.
Proof.
  intros Hs E Hb Hn Hn9. pose proof (len_nonneg p).
  destruct (sinkNextBytes_ok 9 s) as (s1' & E' & Eb & Hl & Hc & Ht); [done|lia|lia|].
  rewrite E in E'. injection E' as -> <-.
  eexists. split; [reflexivity|]. cbn [arr blen]. rewrite Eb in *. destruct Hs as [[H0 Hl0] Hc0].
  assert (Ha : len (sinkBytes s) = blen s) by (apply len_take; lia).
  rewrite (copy_at_within (blen s)) by (change (len [tag]) with 1; lia). rewrite Ht.
  change (len [tag]) with 1. set (rest := drop _ (arr s1)).
  assert (Hr : len rest = len (arr s1) - (blen s + 1)) by (subst rest; unfold len in *; rewrite length_drop; lia).
  set (a1 := sinkBytes s ++ [tag] ++ rest).
  assert (Ha1 : len a1 = len (arr s1)) by (subst a1; rewrite !len_app; change (len [tag]) with 1; lia).
  rewrite copy_at_within by lia.
  assert (Et : take (Z.to_nat (blen s + 1)) a1 = sinkBytes s ++ [tag]).
  { subst a1. rewrite app_assoc, take_app_le by (unfold len in *; rewrite length_app; simpl; lia).
    apply take_ge. unfold len in *. rewrite length_app. simpl. lia. }
  rewrite Et. set (tail := drop _ a1).
  assert (Htl : len tail = len (arr s1) - (blen s + 1 + len p)) by (subst tail; unfold len in *; rewrite length_drop; lia).
  split_and!; [split; cbn [arr blen]; rewrite !len_app; change (len [tag]) with 1; lia| |lia].
  unfold sinkBytes at 1. cbn [arr blen]. rewrite app_assoc. rewrite take_app_le
    by (unfold len in *; rewrite !length_app; simpl; lia).
  rewrite take_ge by (unfold len in *; rewrite !length_app; simpl; lia). by rewrite <- !app_assoc.
Qed.

Lemma len_le_bytes n d : len (le_bytes n d) = Z.of_nat n.
Proof. unfold len. by rewrite length_le_bytes. Qed.
Lemma len_var_uint d : len (var_uint_bytes d) = getVarUintSize d.
Proof.
  unfold var_uint_bytes, getVarUintSize. repeat destruct (_ <? _); repeat destruct (_ <=? _); unfold len; cbn [length];
    rewrite ?length_le_bytes; done.
Qed.
Lemma WriteVarUint_appends d : is_u64 d -> appends (WriteVarUint d) (var_uint_bytes d) (getVarUintSize d).
Proof.
  intros [? ?] s Hs Hm. pose proof (len_var_uint d). pose proof (len_nonneg (var_uint_bytes d)).
  destruct (sinkNextBytes_ok 9 s) as (s1 & E & Eb & _); [done|lia|lia|].
  unfold WriteVarUint. cbv [mbind M_bind outcome_bind]. rewrite E. unfold var_uint_bytes, getVarUintSize in *.
  destruct (Z.ltb_spec d 0xFD).
  - pose proof (poke2_appends d [] 1 s _ s1 Hs E ltac:(lia) eq_refl ltac:(lia)) as (s' & E' & Hs' & Hb & Hl).
    exists s'. split_and!; try done. rewrite <- E'. clear E'.
    cbv [mbind M_bind outcome_bind poke modify mret M_ret sinkBackUp]. cbn [arr blen].
    do 3 f_equal. unfold copy_at at 2. change (len []) with 0. rewrite Z.min_r by lia. rewrite Z.add_0_r. cbn [Z.to_nat].
    rewrite take_0, app_nil_l. by rewrite take_drop.
  - destruct (Z.leb_spec d 0xFFFF); [|destruct (Z.leb_spec d 0xFFFFFFFF)].
    + destruct (poke2_appends 0xFD (le_bytes 2 d) 3 s _ s1 Hs E) as (s' & E' & ?); [lia|done|lia|]. by exists s'.
    + destruct (poke2_appends 0xFE (le_bytes 4 d) 5 s _ s1 Hs E) as (s' & E' & ?); [lia|done|lia|]. by exists s'.
    + destruct (poke2_appends 0xFF (le_bytes 8 d) 9 s _ s1 Hs E) as (s' & E' & ?); [lia|done|lia|]. by exists s'.
Qed.
Lemma WriteVarBytes_appends d : len d <= max_sink ->
  appends (WriteVarBytes d) (var_uint_bytes (len d) ++ d) (getVarUintSize (len d) + len d).
Proof.
  intros Hd. pose proof (len_nonneg d). assert (is_u64 (len d)) by (unfold is_u64, max_sink in *; lia).
  assert (Hz : 1 <= getVarUintSize (len d) <= 9) by (unfold getVarUintSize; zbool; lia).
  unfold WriteVarBytes. eapply bind_appends; [by apply WriteVarUint_appends|].
  replace (appends _ d) with (appends (A := Z) (_ ← WriteBytes d; mret (add64 (getVarUintSize (len d)) (len d))) (d ++ []))
    by by rewrite app_nil_r.
  eapply bind_appends; [apply WriteBytes_appends|].
  rewrite add64_nowrap by (unfold is_u64, max_sink in *; lia). apply ret_appends.
Qed.

(** ** Facts about the source *)
(** [m] reads exactly [b], wherever it stands, and yields [a]. *)
Definition reads {A} (m : M ZeroCopySource A) (b : bytes) (a : A) : Prop :=
  forall pre post, len (pre ++ b ++ post) <= max_sink ->
    m (mkSource (pre ++ b ++ post) (len pre)) = Ret (a, mkSource (pre ++ b ++ post) (len (pre ++ b))).

Lemma slice_middle (pre b post : bytes) : slice (len pre) (len (pre ++ b)) (pre ++ b ++ post) = b.
Proof.
  unfold slice. rewrite len_app. replace (Z.to_nat (len pre + len b - len pre)) with (length b) by (unfold len; lia).
  replace (Z.to_nat (len pre)) with (length pre) by (unfold len; lia). by rewrite drop_app_length, take_app_length.
Qed.
Lemma NextBytes_reads b : reads (NextBytes (len b)) b (b, false).
Proof.
  intros pre post Hl. unfold NextBytes, codecSafeAdd. cbn [off src]. rewrite !len_app in *.
  pose proof (len_nonneg pre). pose proof (len_nonneg b). pose proof (len_nonneg post).
  rewrite add64_nowrap by (unfold is_u64, max_slice, max_sink in *; lia).
  destruct (Z.ltb_spec (MaxUint64 - len pre) (len b)); [unfold MaxUint64, max_sink in *; lia|]. cbn [orb].
  destruct (Z.ltb_spec (len pre + (len b + len post)) (len pre + len b)); [lia|].
  assert (slice_ok (len pre) (len pre + len b) (pre ++ b ++ post) = true) as ->
    by (apply slice_ok_true; rewrite !len_app; lia).
  rewrite <- len_app. by rewrite slice_middle.
Qed.
Lemma bind_reads {A B} (m : M ZeroCopySource A) (k : A -> M ZeroCopySource B) p q a b :
  reads m p a -> reads (k a) q b -> reads (m ≫= k) (p ++ q) b.
Proof.
  intros Hm Hk pre post Hl. cbv [mbind M_bind outcome_bind].
  specialize (Hm pre (q ++ post)). specialize (Hk (pre ++ p) post). rewrite <- !app_assoc in *.
  rewrite Hm, Hk by done. done.
Qed.
Lemma ret_reads {A} (a : A) : reads (mret a) [] a.
Proof. intros pre post _. by rewrite app_nil_r. Qed.
Lemma map_reads {A B} (m : M ZeroCopySource A) (k : A -> M ZeroCopySource B) p a b :
  reads m p a -> k a = mret b -> reads (m ≫= k) p b.
Proof. intros Hm Ek. rewrite <- (app_nil_r p). eapply bind_reads; [done|]. rewrite Ek. apply ret_reads. Qed.

Lemma NextByte_reads b : reads NextByte [b] (b, false).
Proof.
  intros pre post Hl. unfold NextByte. cbn [off src]. rewrite !len_app in *. change (len [b]) with 1 in *.
  pose proof (len_nonneg pre). pose proof (len_nonneg post).
  destruct (Z.leb_spec (len pre + (1 + len post)) (len pre)); [lia|].
  rewrite add64_nowrap by (unfold is_u64, max_slice, max_sink in *; lia). do 2 f_equal. f_equal.
  replace (Z.to_nat (len pre)) with (length pre + 0)%nat by (unfold len; lia).
  rewrite lookup_total_app_r by lia. by rewrite Nat.add_sub_swap, Nat.sub_diag by lia.
Qed.
Lemma NextUint_reads n d : 0 <= d < 256 ^ Z.of_nat n -> reads (NextUint (Z.of_nat n)) (le_bytes n d) (d, false).
Proof.
  intros Hd. unfold NextUint. rewrite <- (len_le_bytes n d). eapply map_reads; [apply NextBytes_reads|].
  cbv beta iota. by rewrite le_val_le_bytes, Z.mod_small.
Qed.

(** ** Round trips *)
Lemma NextVarUint_reads d : is_u64 d -> reads NextVarUint (var_uint_bytes d) (d, getVarUintSize d, false, false).
Proof.
  intros [? ?]. unfold NextVarUint, var_uint_bytes, getVarUintSize.
  assert (Hlong : forall n (m : M ZeroCopySource (Z * bool)) size,
    reads m (le_bytes n d) (d, false) -> size = getVarUintSize d ->
    reads ('(data, sz, e) ← ('(v, e) ← m; mret (v, size, e));
           mret (if (e : bool) then (0, 0, false, true) else (data, sz, negb (sz =? getVarUintSize data), false)))
      (le_bytes n d) (d, size, false, false)).
  { intros n m size Hm ->. eapply map_reads; [eapply map_reads; [exact Hm|reflexivity]|].
    cbv beta iota. by rewrite Z.eqb_refl. }
  unfold getVarUintSize in Hlong.
  destruct (Z.ltb_spec d 0xFD) as [Hs|Hs].
  - eapply map_reads; [apply NextByte_reads|]. cbv beta iota.
    destruct (Z.eqb_spec d 0xFD); [lia|]. destruct (Z.eqb_spec d 0xFE); [lia|]. destruct (Z.eqb_spec d 0xFF); [lia|].
    cbv [mbind M_bind outcome_bind mret M_ret]. unfold getVarUintSize. destruct (Z.ltb_spec d 0xfd); [done|lia].
  - destruct (Z.leb_spec d 0xFFFF); [|destruct (Z.leb_spec d 0xFFFFFFFF)];
      (eapply (bind_reads _ _ [_]); [apply NextByte_reads|]; cbn [Z.eqb Pos.eqb]; apply Hlong; [|done]).
    + apply (NextUint_reads 2). lia.
    + apply (NextUint_reads 4). lia.
    + apply (NextUint_reads 8). lia.
Qed.
Lemma ReadVarBytes_reads d : len d <= max_slice -> reads ReadVarBytes (var_uint_bytes (len d) ++ d) (d, None).
Proof.
  intros Hd. pose proof (len_nonneg d). unfold ReadVarBytes, NextVarBytes.
  eapply map_reads; [eapply bind_reads; [apply NextVarUint_reads; unfold is_u64, max_slice, max_sink in *; lia|]|].
  - cbv beta iota. destruct (Z.ltb_spec 0 (len d)).
    + eapply map_reads; [apply NextBytes_reads|reflexivity].
    + assert (d = []) as -> by (destruct d; [done|unfold len in *; simpl in *; lia]). apply ret_reads.
  - done.
Qed.
Lemma NextHash_reads h : length h = 32%nat -> reads NextHash h (h, false).
Proof.
  intros E. unfold NextHash. replace 32 with (len h) by (unfold len; lia).
  eapply map_reads; [apply NextBytes_reads|reflexivity].
Qed.

(** ** Signed integers are read back *)
Lemma signed_mod w d : 0 < w -> - 2 ^ (w - 1) <= d < 2 ^ (w - 1) -> signed w (d mod 2 ^ w) = d.
Proof.
  intros Hw Hd. assert (E : 2 ^ w = 2 * 2 ^ (w - 1)) by (rewrite <- Z.pow_succ_r by lia; f_equal; lia).
  unfold signed. rewrite Z.mod_mod by lia. destruct (Z.leb_spec 0 d).
  - rewrite Z.mod_small by lia. destruct (Z.ltb_spec d (2 ^ (w - 1))); lia.
  - rewrite <- (Z.mod_unique d (2 ^ w) (-1) (d + 2 ^ w)) by lia. destruct (Z.ltb_spec (d + 2 ^ w) (2 ^ (w - 1))); lia.
Qed.
Lemma WriteInt64_NextInt64 d : - 2 ^ 63 <= d < 2 ^ 63 ->
  appends (WriteInt64 d) (le_bytes 8 (d mod 2 ^ 64)) () /\ reads NextInt64 (le_bytes 8 (d mod 2 ^ 64)) (d, false).
Proof.
  intros Hd. split; [apply WriteUint64_appends|]. unfold NextInt64. eapply map_reads.
  - apply (NextUint_reads 8). apply Z.mod_pos_bound. lia.
  - cbn beta iota. by rewrite signed_mod by lia.
Qed.
