(* ===== verification/Storage.v ===== *)
(** * The state database

    src/evm/storage: statedb.go, cachedb.go, overlaydb/overlaydb.go, and the
    account encoding.  The key/value tables of overlaydb/memdb.go are the class
    [MemDB]: what the code relies on is that a table is a finite map with a
    tombstone (the empty value) for deleted keys; [gmap] is an instance.  The
    persistent store below is a parameter.

    [StorageDB] implements the [StateDB] interface of State.v ([storage_StateDB]). *)

From S2P Require Import Prelude Words Uint256 Uint256Arith Uint256Div Uint256Bits Params Config Stack Memory.
From S2P Require Import Opcodes Analysis State Codec.

(** ** The table *)
Class MemDB (D : Type) := {
  memNew : D;
  memGet : bytes -> D -> option bytes;
  memPut : bytes -> bytes -> D -> D;
  memEntries : D -> list (bytes * bytes);
}.
Class MemDBLaws (D : Type) `{MemDB D} : Prop := {
  memGet_new k : memGet k memNew = None;
  memGet_put k v d : memGet k (memPut k v d) = Some v;
  memGet_put_ne k k' v d : k <> k' -> memGet k' (memPut k v d) = memGet k' d;
  memEntries_nodup d : NoDup (memEntries d).*1;
  memEntries_get d k v : (k, v) ∈ memEntries d <-> memGet k d = Some v;
}.
#[export] Instance gmap_MemDB : MemDB (gmap (list Z) (list Z)) := {|
  memNew := ∅;
  memGet k d := d !! k;
  memPut k v d := <[k := v]> d;
  memEntries d := map_to_list d;
|}.
#[export] Instance gmap_MemDBLaws : MemDBLaws (gmap (list Z) (list Z)).
Proof.
  split; intros; cbn.
  - apply lookup_empty.
  - apply lookup_insert_eq.
  - by apply lookup_insert_ne.
  - apply NoDup_fst_map_to_list.
  - apply elem_of_map_to_list.
Qed.

(** ** Accounts *)
Record EthAccount := mkAccount { Nonce : Z; Balance : option Int; acctCode : bytes; acctCodeHash : Hash }.
(** [var val EthAccount]: the balance is a nil pointer. *)
Definition zeroAccount : EthAccount := mkAccount 0 None [] zero_hash.
Definition IsEmpty (a : EthAccount) : bool := (Nonce a =? 0) && bool_decide (acctCodeHash a = zero_hash).

(** [Bytes32] dereferences the balance. *)
Definition Serialization (a : EthAccount) : M ZeroCopySink () :=
  _ ← WriteUint64 (Nonce a);
  match Balance a with
  | None => panic
  | Some b =>
      _ ← WriteBytes (Bytes32 b);
      _ ← WriteVarBytes (acctCode a);
      WriteHash (acctCodeHash a)
  end.
Inductive db_error := EStore (code : Z) | ECodec (e : codec_error).
(** Only the end of the data at the hash is an error; [SetBytes32] panics on
    fewer than 32 bytes. *)
Definition Deserialization : M ZeroCopySource (EthAccount * option db_error) :=
  '(nonce, _) ← NextUint64;
  '(balance, _) ← NextBytes 32;
  b ← lift (SetBytes32 balance);
  '(code, _) ← ReadVarBytes;
  '(hash, eof) ← NextHash;
  mret (if (eof : bool) then (mkAccount nonce (Some b) code zero_hash, Some (ECodec ErrUnexpectedEOF))
        else (mkAccount nonce (Some b) code hash, None)).
Definition SerializeToBytes (a : EthAccount) : outcome bytes :=
  '(_, s) ← Serialization a NewZeroCopySink; Ret (sinkBytes s).

Definition ST_STORAGE : Z := 0x05.
Definition ST_ETH_ACCOUNT : Z := 0x31.

(** [web3.BytesToHash] *)
Definition BytesToHash (b : bytes) : Hash :=
  let b := if 32 <? len b then drop (length b - 32) b else b in replicate (32 - length b) 0 ++ b.

(** ** The layers *)
Inductive store_result := Found (v : bytes) | StoreNotFound | StoreErr (code : Z).
Record OverlayDB (D : Type) := mkOverlay { store_ : bytes -> store_result; omemdb : D; dbErr : option db_error }.
Arguments mkOverlay {D}. Arguments store_ {D}. Arguments omemdb {D}. Arguments dbErr {D}.
Record CacheDB (D : Type) := mkCache { memdb : D; backend : OverlayDB D }.
Arguments mkCache {D}. Arguments memdb {D}. Arguments backend {D}.
Record snapshot (D : Type) := mkSnapshot { changes : D; snSuicided : gset (list Z); logsSize : nat; snRefund : Z }.
Arguments mkSnapshot {D}. Arguments changes {D}. Arguments snSuicided {D}. Arguments logsSize {D}. Arguments snRefund {D}.
Record StorageDB (D : Type) := mkStorage {
  cacheDB : CacheDB D;
  Suicided : gset (list Z);
  logs : list StorageLog;
  thash : Hash;
  bhash : Hash;
  refund : Z;
  snapshots : list (snapshot D);
}.
Arguments mkStorage {D}. Arguments cacheDB {D}. Arguments Suicided {D}. Arguments logs {D}. Arguments thash {D}.
Arguments bhash {D}. Arguments refund {D}. Arguments snapshots {D}.

Section Storage.
Context {D : Type} `{MemDB D}.

Definition SetError (e : db_error) (o : OverlayDB D) : OverlayDB D := mkOverlay (store_ o) (omemdb o) (Some e).
(** [OverlayDB.Get]: the value, nil when deleted or not found; or an error. *)
Definition overlayGet (key : bytes) (o : OverlayDB D) : (bytes + db_error) * OverlayDB D :=
  match memGet key (omemdb o) with
  | Some v => (inl v, o)
  | None =>
      match store_ o key with
      | Found v => (inl v, o)
      | StoreNotFound => (inl [], o)
      | StoreErr c => (inr (EStore c), SetError (EStore c) o)
      end
  end.
Definition overlayPut (key value : bytes) (o : OverlayDB D) : OverlayDB D :=
  mkOverlay (store_ o) (memPut key value (omemdb o)) (dbErr o).
Definition overlayDelete (key : bytes) (o : OverlayDB D) : OverlayDB D := overlayPut key [] o.

Definition NewOverlayDB (store : bytes -> store_result) : OverlayDB D := mkOverlay store memNew None.
Definition overlayReset (o : OverlayDB D) : OverlayDB D := mkOverlay (store_ o) memNew (dbErr o).
Definition GetWriteSet (o : OverlayDB D) : D := omemdb o.
(** [CommitTo] into a store that collects a batch *)
Definition CommitTo {B} (BatchPut : bytes -> bytes -> B -> outcome B) (BatchDelete : bytes -> B -> outcome B)
    (o : OverlayDB D) (batch : B) : outcome B :=
  foldl (fun b '(key, val) => b ← b; if len val =? 0 then BatchDelete key b else BatchPut key val b) (Ret batch) (memEntries (omemdb o)).
(** The SHA-256 of the keys and values of the write set, in order *)
Definition ChangeHash (sha256 : bytes -> Hash) (o : OverlayDB D) : Hash :=
  sha256 (mjoin ((fun '(key, val) => key ++ val) <$> memEntries (omemdb o))).

Definition NewCacheDB (o : OverlayDB D) : CacheDB D := mkCache memNew o.
Definition cacheReset (c : CacheDB D) : CacheDB D := mkCache memNew (backend c).
Definition SetDbErr (e : db_error) (c : CacheDB D) : CacheDB D := mkCache (memdb c) (SetError e (backend c)).
Definition cachePut (prefix : Z) (key value : bytes) (c : CacheDB D) : CacheDB D :=
  mkCache (memPut (prefix :: key) value (memdb c)) (backend c).
Definition cacheDelete (prefix : Z) (key : bytes) (c : CacheDB D) : CacheDB D := cachePut prefix key [] c.
Definition cacheGet (prefix : Z) (key : bytes) (c : CacheDB D) : (bytes + db_error) * CacheDB D :=
  match memGet (prefix :: key) (memdb c) with
  | Some v => (inl v, c)
  | None => let '(r, o) := overlayGet (prefix :: key) (backend c) in (r, mkCache (memdb c) o)
  end.
(** [CacheDB.Commit] *)
Definition cacheCommit (c : CacheDB D) : CacheDB D :=
  mkCache memNew
    (foldl (fun o '(k, v) => if len v =? 0 then overlayDelete k o else overlayPut k v o)
       (backend c) (memEntries (memdb c))).

Definition GetEthAccount (addr : Address) (c : CacheDB D) : option ((EthAccount + db_error) * CacheDB D) :=
  let '(r, c) := cacheGet ST_ETH_ACCOUNT addr c in
  match r with
  | inr e => Some (inr e, c)
  | inl v =>
      if len v =? 0 then Some (inl zeroAccount, c)
      else
        match Deserialization (NewZeroCopySource v) with
        | Ret ((a, None), _) => Some (inl a, c)
        | Ret ((_, Some e), _) => Some (inr e, c)
        | _ => None
        end
  end.
Definition PutEthAccount (addr : Address) (a : EthAccount) (c : CacheDB D) : option (CacheDB D) :=
  if negb (IsEmpty a) then
    match SerializeToBytes a with
    | Ret raw => Some (cachePut ST_ETH_ACCOUNT addr raw c)
    | _ => None
    end
  else Some (cachePut ST_ETH_ACCOUNT addr [] c).
Definition DelEthAccount (addr : Address) (c : CacheDB D) : CacheDB D := cachePut ST_ETH_ACCOUNT addr [] c.

(** ** balanceHandle: [None] is a panic, a nil balance dereferenced *)
Definition modBalance (f : Int -> Int) (addr : Address) (c : CacheDB D) : option (option db_error * CacheDB D) :=
  r ← GetEthAccount addr c;
  match r with
  | (inr e, c) => Some (Some e, c)
  | (inl a, c) =>
      b ← Balance a;
      c ← PutEthAccount addr (mkAccount (Nonce a) (Some (f b)) (acctCode a) (acctCodeHash a)) c;
      Some (None, c)
  end.
Definition bhSubBalance (addr : Address) (val : Z) := modBalance (fun b => Sub b (FromBig val).1) addr.
Definition bhAddBalance (addr : Address) (val : Z) := modBalance (fun b => Add b (FromBig val).1) addr.
(** [SetBalance] replaces the pointer, so a nil one does not matter. *)
Definition bhSetBalance (addr : Address) (val : Z) (c : CacheDB D) : option (option db_error * CacheDB D) :=
  r ← GetEthAccount addr c;
  match r with
  | (inr e, c) => Some (Some e, c)
  | (inl a, c) =>
      c ← PutEthAccount addr (mkAccount (Nonce a) (Some (FromBig val).1) (acctCode a) (acctCodeHash a)) c;
      Some (None, c)
  end.
Definition bhGetBalance (addr : Address) (c : CacheDB D) : option ((Z + db_error) * CacheDB D) :=
  r ← GetEthAccount addr c;
  match r with
  | (inr e, c) => Some (inr e, c)
  | (inl a, c) => b ← Balance a; Some (inl (ToBig b), c)
  end.

(** ** StateDB *)
Definition set_cache (c : CacheDB D) (s : StorageDB D) : StorageDB D :=
  mkStorage c (Suicided s) (logs s) (thash s) (bhash s) (refund s) (snapshots s).
Definition set_refund (r : Z) (s : StorageDB D) : StorageDB D :=
  mkStorage (cacheDB s) (Suicided s) (logs s) (thash s) (bhash s) r (snapshots s).
Definition set_suicided (x : gset (list Z)) (s : StorageDB D) : StorageDB D :=
  mkStorage (cacheDB s) x (logs s) (thash s) (bhash s) (refund s) (snapshots s).
Definition set_logs (l : list StorageLog) (s : StorageDB D) : StorageDB D :=
  mkStorage (cacheDB s) (Suicided s) l (thash s) (bhash s) (refund s) (snapshots s).
Definition set_snapshots (l : list (snapshot D)) (s : StorageDB D) : StorageDB D :=
  mkStorage (cacheDB s) (Suicided s) (logs s) (thash s) (bhash s) (refund s) l.

Definition NewStateDB (c : CacheDB D) (thash bhash : Hash) : StorageDB D := mkStorage c ∅ [] thash bhash 0 [].

Definition Prepare (thash bhash : Hash) (s : StorageDB D) : StorageDB D :=
  mkStorage (cacheDB s) (Suicided s) (logs s) thash bhash (refund s) (snapshots s).
Definition DbErr (s : StorageDB D) : option db_error := dbErr (backend (cacheDB s)).
Definition BlockHash (s : StorageDB D) : Hash := bhash s.
Definition GetLogs (s : StorageDB D) : list StorageLog := logs s.
(** [panic("todo")] *)
Definition ForEachStorage (a : Address) (s : StorageDB D) : option (() * StorageDB D) := None.

Definition sdbAddRefund (gas : Z) (s : StorageDB D) : option (() * StorageDB D) :=
  Some ((), set_refund (add64 (refund s) gas) s).
Definition sdbSubRefund (gas : Z) (s : StorageDB D) : option (() * StorageDB D) :=
  if refund s <? gas then None else Some ((), set_refund (sub64 (refund s) gas) s).
Definition genKey (contract : Address) (key : Hash) : bytes := contract ++ key.
(** After an error the value is nil, hence the zero hash. *)
Definition sdbGetState (contract : Address) (key : Hash) (s : StorageDB D) : option (Hash * StorageDB D) :=
  match cacheGet ST_STORAGE (genKey contract key) (cacheDB s) with
  | (inl v, c) => Some (BytesToHash v, set_cache c s)
  | (inr e, c) => Some (BytesToHash [], set_cache (SetDbErr e c) s)
  end.
Definition sdbSetState (contract : Address) (key value : Hash) (s : StorageDB D) : option (() * StorageDB D) :=
  Some ((), set_cache (cachePut ST_STORAGE (genKey contract key) value (cacheDB s)) s).
Definition GenAccountStateKey (addr : Address) (key : bytes) : bytes := ST_STORAGE :: addr ++ key.
Definition sdbGetCommittedState (addr : Address) (key : Hash) (s : StorageDB D) : option (Hash * StorageDB D) :=
  match overlayGet (GenAccountStateKey addr key) (backend (cacheDB s)) with
  | (inl v, o) => Some (BytesToHash v, set_cache (mkCache (memdb (cacheDB s)) o) s)
  | (inr e, o) => Some (BytesToHash [], set_cache (SetDbErr e (mkCache (memdb (cacheDB s)) o)) s)
  end.

Definition getEthAccount (addr : Address) (s : StorageDB D) : option (EthAccount * StorageDB D) :=
  r ← GetEthAccount addr (cacheDB s);
  match r with
  | (inl a, c) => Some (a, set_cache c s)
  | (inr e, c) => Some (zeroAccount, set_cache (SetDbErr e c) s)
  end.
Definition putEthAccount (addr : Address) (a : EthAccount) (s : StorageDB D) : option (() * StorageDB D) :=
  c ← PutEthAccount addr a (cacheDB s); Some ((), set_cache c s).
Definition sdbGetNonce (addr : Address) (s : StorageDB D) : option (Z * StorageDB D) :=
  '(a, s) ← getEthAccount addr s; Some (Nonce a, s).
Definition sdbSetNonce (addr : Address) (nonce : Z) (s : StorageDB D) : option (() * StorageDB D) :=
  '(a, s) ← getEthAccount addr s;
  putEthAccount addr (mkAccount nonce (Balance a) (acctCode a) (acctCodeHash a)) s.
Definition sdbGetCodeHash (addr : Address) (s : StorageDB D) : option (Hash * StorageDB D) :=
  '(a, s) ← getEthAccount addr s; Some (acctCodeHash a, s).
Definition sdbGetCode (addr : Address) (s : StorageDB D) : option (bytes * StorageDB D) :=
  '(a, s) ← getEthAccount addr s; Some (acctCode a, s).
Definition sdbSetCode (keccak : bytes -> Hash) (addr : Address) (code : bytes) (s : StorageDB D)
  : option (() * StorageDB D) :=
  let codeHash := keccak code in
  '(a, s) ← getEthAccount addr s;
  putEthAccount addr (mkAccount (Nonce a) (Balance a) code codeHash) s.
Definition sdbGetCodeSize (addr : Address) (s : StorageDB D) : option (Z * StorageDB D) :=
  '(code, s) ← sdbGetCode addr s; Some (len code, s).
(** The error of a balance method is recorded. *)
Definition onBalance (m : CacheDB D -> option (option db_error * CacheDB D)) (s : StorageDB D)
  : option (() * StorageDB D) :=
  r ← m (cacheDB s);
  match r with
  | (None, c) => Some ((), set_cache c s)
  | (Some e, c) => Some ((), set_cache (SetDbErr e c) s)
  end.
Definition sdbSuicide (addr : Address) (s : StorageDB D) : option (bool * StorageDB D) :=
  '(a, s) ← getEthAccount addr s;
  if IsEmpty a then Some (false, s)
  else
    let s := set_suicided ({[addr]} ∪ Suicided s) s in
    '(_, s) ← onBalance (bhSetBalance addr 0) s; Some (true, s).
Definition sdbHasSuicided (addr : Address) (s : StorageDB D) : option (bool * StorageDB D) :=
  Some (bool_decide (addr ∈ Suicided s), s).
Definition sdbExist (addr : Address) (s : StorageDB D) : option (bool * StorageDB D) :=
  if bool_decide (addr ∈ Suicided s) then Some (true, s)
  else
    '(a, s) ← getEthAccount addr s;
    r ← bhGetBalance addr (cacheDB s);
    match r with
    | (inr e, c) => Some (false, set_cache (SetDbErr e c) s)
    | (inl balance, c) => Some (negb (IsEmpty a) || (0 <? balance), set_cache c s)
    end.
Definition sdbEmpty (addr : Address) (s : StorageDB D) : option (bool * StorageDB D) :=
  '(a, s) ← getEthAccount addr s;
  r ← bhGetBalance addr (cacheDB s);
  match r with
  | (inr e, c) => Some (false, set_cache (SetDbErr e c) s)
  | (inl balance, c) => Some (IsEmpty a && (balance =? 0), set_cache c s)
  end.
Definition sdbAddLog (log : StorageLog) (s : StorageDB D) : option (() * StorageDB D) :=
  Some ((), set_logs (logs s ++ [log]) s).
Definition sdbAddPreimage (h : Hash) (b : bytes) (s : StorageDB D) : option (() * StorageDB D) := Some ((), s).
Definition sdbCreateAccount (a : Address) (s : StorageDB D) : option (() * StorageDB D) := Some ((), s).
Definition sdbSnapshot (s : StorageDB D) : option (Z * StorageDB D) :=
  let sn := mkSnapshot (memdb (cacheDB s)) (Suicided s) (length (logs s)) (refund s) in
  let sns := snapshots s ++ [sn] in
  Some (Z.of_nat (length sns) - 1, set_snapshots sns s).
Definition sdbRevertToSnapshot (idx : Z) (s : StorageDB D) : option (() * StorageDB D) :=
  if Z.of_nat (length (snapshots s)) <? idx + 1 then None
  else if idx <? 0 then None
  else
    sn ← snapshots s !! Z.to_nat idx;
    Some ((), mkStorage (mkCache (changes sn) (backend (cacheDB s))) (snSuicided sn) (take (logsSize sn) (logs s))
                (thash s) (bhash s) (snRefund sn) (take (Z.to_nat idx) (snapshots s))).
Definition sdbSubBalance (addr : Address) (val : Z) : StorageDB D -> option (() * StorageDB D) :=
  onBalance (bhSubBalance addr val).
Definition sdbAddBalance (addr : Address) (val : Z) : StorageDB D -> option (() * StorageDB D) :=
  onBalance (bhAddBalance addr val).
Definition sdbGetBalance (addr : Address) (s : StorageDB D) : option (Z * StorageDB D) :=
  r ← bhGetBalance addr (cacheDB s);
  match r with
  | (inr e, c) => Some (0, set_cache (SetDbErr e c) s)
  | (inl b, c) => Some (b, set_cache c s)
  end.

Definition storage_StateDB (keccak : bytes -> Hash) : StateDB (StorageDB D) := {|
  CreateAccount := sdbCreateAccount; SubBalance := sdbSubBalance; AddBalance := sdbAddBalance;
  GetBalance := sdbGetBalance; GetNonce := sdbGetNonce; SetNonce := sdbSetNonce;
  GetCodeHash := sdbGetCodeHash; GetCode := sdbGetCode; SetCode := sdbSetCode keccak;
  GetCodeSize := sdbGetCodeSize; AddRefund := sdbAddRefund; SubRefund := sdbSubRefund;
  GetRefund := fun s => Some (refund s, s); GetCommittedState := sdbGetCommittedState;
  GetState := sdbGetState; SetState := sdbSetState; Suicide := sdbSuicide; HasSuicided := sdbHasSuicided;
  Exist := sdbExist; Empty := sdbEmpty; RevertToSnapshot := sdbRevertToSnapshot; Snapshot := sdbSnapshot;
  AddLog := sdbAddLog; AddPreimage := sdbAddPreimage;
|}.
End Storage.
