(* ===== verification/StorageFacts.v ===== *)
(** * Properties of the state database

    The account encoding round-trips, every method keeps the tables well formed
    ([storage_spec]), snapshots restore the state, and a commit changes no value
    that can be read.  On a store that never fails, such as the remote one, no
    method records an error, touches the layer below or changes the hashes the
    database was made with; [calm_spec] adds this to what the EVM is promised of its
    database, so that the theorems about messages carry it to their end. *)

From S2P Require Import Prelude Words Uint256 Uint256Arith Uint256Div Uint256Bits Params Config Stack Memory.
From S2P Require Import Opcodes Analysis State Codec Storage.

(** ** The encoding of accounts *)
Record account_ok (a : EthAccount) : Prop := {
  a_nonce : is_u64 (Nonce a);
  a_balance : forall b, Balance a = Some b -> int_ok b;
  a_code : is_slice (acctCode a);
  a_hash : is_hash (acctCodeHash a);
}.
Definition account_bytes (n : Z) (b : Int) (code : bytes) (h : Hash) : bytes :=
  le_bytes 8 n ++ be_bytes 32 (val b) ++ (var_uint_bytes (len code) ++ code) ++ h.

Lemma len_account n b code h : length h = 32%nat ->
  len (account_bytes n b code h) = 72 + getVarUintSize (len code) + len code.
Proof.
  intros Hh. unfold account_bytes. rewrite !len_app, len_var_uint, len_le_bytes. unfold len.
  rewrite length_be_bytes. lia.
Qed.

Lemma Serialization_appends a b : account_ok a -> Balance a = Some b ->
  appends (Serialization a) (account_bytes (Nonce a) b (acctCode a) (acctCodeHash a)) ().
Proof.
  intros [Hn Hb [Hc Hl] [Hh _]] E. unfold Serialization, account_bytes. rewrite E.
  eapply bind_appends; [apply WriteUint64_appends|].
  rewrite Bytes32_ok by auto. eapply bind_appends; [apply WriteBytes_appends|].
  eapply bind_appends; [apply WriteVarBytes_appends; unfold max_slice, max_sink in *; lia|apply WriteBytes_appends].
Qed.
Lemma SerializeToBytes_ok a b : account_ok a -> Balance a = Some b ->
  SerializeToBytes a = Ret (account_bytes (Nonce a) b (acctCode a) (acctCodeHash a)).
Proof.
  intros Ha Eb. destruct NewZeroCopySink_ok as [Hs Es]. pose proof (a_code _ Ha) as [_ Hl].
  assert (Hz : 1 <= getVarUintSize (len (acctCode a)) <= 9) by (unfold getVarUintSize; zbool; lia).
  destruct (Serialization_appends a b Ha Eb NewZeroCopySink Hs) as (s & E & _ & Hb & _).
  { rewrite len_account by apply Ha. change (blen NewZeroCopySink) with 0. unfold max_slice, max_sink in *. lia. }
  unfold SerializeToBytes. rewrite E. cbn. by rewrite Hb, Es.
Qed.

Lemma SetBytes32_be b : int_ok b -> SetBytes32 (be_bytes 32 (val b)) = Ret b.
Proof.
  intros Hb. pose proof (val_range b Hb). pose proof (length_be_bytes 32 (val b)) as El.
  transitivity (SetBytes (be_bytes 32 (val b))).
  { unfold SetBytes. rewrite El. by rewrite Nat.sub_diag, drop_0. }
  rewrite SetBytes_ok by apply be_bytes_ok. rewrite El, Nat.sub_diag, drop_0, be_val_be_bytes.
  f_equal. symmetry. apply eq_of_Z_range; [done|]. by rewrite Z.mod_small.
Qed.
Lemma lift_bind_reads {A B} (m : outcome A) (k : A -> M ZeroCopySource B) a q b :
  m = Ret a -> reads (k a) q b -> reads (lift m ≫= k) q b.
Proof. intros -> Hk pre post Hl. by rewrite <- Hk. Qed.
Lemma Deserialization_reads n b code h : is_u64 n -> int_ok b -> is_slice code -> is_hash h ->
  reads Deserialization (account_bytes n b code h) (mkAccount n (Some b) code h, None).
Proof.
  intros Hn Hb [_ Hc] [_ Hh]. unfold Deserialization, account_bytes.
  eapply bind_reads; [apply (NextUint_reads 8); unfold is_u64 in *; lia|].
  eapply bind_reads.
  { replace 32 with (len (be_bytes 32 (val b))) by (unfold len; by rewrite length_be_bytes). apply NextBytes_reads. }
  cbv beta iota. eapply lift_bind_reads; [by apply SetBytes32_be|].
  eapply bind_reads; [by apply ReadVarBytes_reads|].
  cbv beta iota. eapply map_reads; [by apply NextHash_reads|done].
Qed.
Lemma Deserialization_account n b code h : is_u64 n -> int_ok b -> is_slice code -> is_hash h ->
  exists s, Deserialization (NewZeroCopySource (account_bytes n b code h)) = Ret ((mkAccount n (Some b) code h, None), s).
Proof.
  intros Hn Hb Hc Hh. pose proof (Deserialization_reads n b code h Hn Hb Hc Hh [] []) as E.
  rewrite app_nil_l, app_nil_r in E. eexists. apply E.
  rewrite len_account by apply Hh. destruct Hc.
  assert (getVarUintSize (len code) <= 9) by (unfold getVarUintSize; zbool; lia). unfold max_slice, max_sink in *. lia.
Qed.

Lemma zeroAccount_ok : account_ok zeroAccount.
Proof.
  split; cbn [zeroAccount Nonce Balance acctCode acctCodeHash]; [unfold is_u64; lia|done| |].
  - split; [done|]. unfold len, max_slice. simpl. lia.
  - split; [apply bytes_ok_replicate|done].
Qed.

(** ** Well-formed tables *)
Section Facts.
Context {D : Type} `{MemDBLaws D}.

(** An account entry is deleted, or the encoding of an account that is not
    empty; any other entry is a byte slice. *)
Definition value_ok (k v : bytes) : Prop :=
  match k with
  | p :: _ =>
      if p =? ST_ETH_ACCOUNT then
        v = [] \/ exists n b code h, v = account_bytes n b code h /\ account_ok (mkAccount n (Some b) code h) /\
          IsEmpty (mkAccount n (Some b) code h) = false
      else is_slice v
  | [] => True
  end.
Definition table_values (d : D) : Prop := forall k v, memGet k d = Some v -> value_ok k v.
Record cache_ok (c : CacheDB D) : Prop := {
  c_values : table_values (memdb c);
  c_over : table_values (omemdb (backend c));
  c_store : forall k v, store_ (backend c) k = Found v -> value_ok k v;
}.
(** The log sizes of the snapshots grow, up to the number of logs. *)
Definition sizes_ok (s : StorageDB D) : Prop := forall i sn, snapshots s !! i = Some sn ->
  (logsSize sn <= length (logs s))%nat /\
  forall j sn', (i <= j)%nat -> snapshots s !! j = Some sn' -> (logsSize sn <= logsSize sn')%nat.
Record storage_ok (s : StorageDB D) : Prop := {
  st_cache : cache_ok (cacheDB s);
  st_refund : is_u64 (refund s);
  st_snaps : Forall (fun sn => table_values (changes sn) /\ is_u64 (snRefund sn)) (snapshots s);
  st_sizes : sizes_ok s;
}.

Lemma value_ok_nil k : value_ok k [].
Proof.
  destruct k; [done|]. cbn. destruct (_ =? _); [by left|]. split; [done|]. unfold len, max_slice. simpl. lia.
Qed.
Lemma memPut_values k v d : value_ok k v -> table_values d -> table_values (memPut k v d).
Proof.
  intros Hv Hd k' v'. destruct (decide (k = k')) as [<-|Hne].
  - rewrite memGet_put. by intros [= <-].
  - rewrite memGet_put_ne by done. apply Hd.
Qed.
Lemma cachePut_ok p k v c : value_ok (p :: k) v -> cache_ok c -> cache_ok (cachePut p k v c).
Proof. intros Hv []. split; cbn; [by apply memPut_values|done|done]. Qed.
Lemma SetDbErr_ok e c : cache_ok c -> cache_ok (SetDbErr e c).
Proof. intros []. by split. Qed.

Lemma overlayGet_ok k c r o : cache_ok c -> overlayGet k (backend c) = (r, o) ->
  cache_ok (mkCache (memdb c) o) /\ (forall v, r = inl v -> value_ok k v).
Proof.
  intros Hc. pose proof Hc as [? Ho Hs]. unfold overlayGet. destruct (memGet k _) as [v|] eqn:E.
  - intros [= <- <-]. destruct c. split; [done|]. intros ? [= <-]. by apply Ho.
  - destruct (store_ _ k) as [v| |code] eqn:Es; intros [= <- <-]; destruct c; (split; [by split|]); intros ? [= <-].
    + by apply Hs.
    + apply value_ok_nil.
Qed.
Lemma cacheGet_ok p k c r c' : cache_ok c -> cacheGet p k c = (r, c') ->
  cache_ok c' /\ (forall v, r = inl v -> value_ok (p :: k) v).
Proof.
  intros Hc. unfold cacheGet. destruct (memGet _ _) as [v|] eqn:E.
  - intros [= <- <-]. split; [done|]. intros ? [= <-]. by apply (c_values _ Hc).
  - destruct (overlayGet _ _) as [r' o] eqn:Eo. intros [= <- <-]. by apply (overlayGet_ok _ _ _ _ Hc).
Qed.

(** Reading an account yields a well-formed one; one that was stored has a balance. *)
Lemma GetEthAccount_ok addr c r c' : cache_ok c -> GetEthAccount addr c = Some (r, c') ->
  cache_ok c' /\ (forall a, r = inl a -> account_ok a).
Proof.
  intros Hc. unfold GetEthAccount. destruct (cacheGet _ _ _) as [r' c1] eqn:E.
  destruct (cacheGet_ok _ _ _ _ _ Hc E) as [Hc1 Hv]. destruct r' as [v|e]; [|by intros [= <- <-]].
  destruct (Z.eqb_spec (len v) 0) as [|Hne].
  - intros [= <- <-]. split; [done|]. intros a [= <-]. apply zeroAccount_ok.
  - destruct (Hv v eq_refl) as [->|(n & b & code & h & -> & Ha & _)]; [done|].
    destruct (Deserialization_account n b code h) as [s ->]; try apply Ha; [done|].
    intros [= <- <-]. split; [done|]. by intros a [= <-].
Qed.
Lemma PutEthAccount_ok addr a c c' : cache_ok c -> account_ok a -> PutEthAccount addr a c = Some c' -> cache_ok c'.
Proof.
  intros Hc Ha. unfold PutEthAccount. destruct (IsEmpty a) eqn:Ee; cbn [negb].
  - intros [= <-]. apply cachePut_ok; [apply value_ok_nil|done].
  - destruct (SerializeToBytes a) as [raw| |] eqn:Es; [|done..]. intros [= <-]. apply cachePut_ok; [|done].
    destruct a as [n [b|] code h].
    + rewrite (SerializeToBytes_ok _ b) in Es by done. injection Es as <-. cbn. right. by exists n, b, code, h.
    + unfold SerializeToBytes, Serialization in Es. cbn in Es. cbv [mbind M_bind outcome_bind] in Es.
      by destruct (WriteUint64 _ _) as [[]| |].
Qed.

(** ** The world a database shows *)
(** The value of a key through the layers; [None] when the store fails. *)
Definition view (c : CacheDB D) (k : bytes) : option bytes :=
  match memGet k (memdb c) with
  | Some v => Some v
  | None => match (overlayGet k (backend c)).1 with inl v => Some v | inr _ => None end
  end.
Definition same_backend (c c' : CacheDB D) : Prop :=
  store_ (backend c') = store_ (backend c) /\ omemdb (backend c') = omemdb (backend c).
(** How an operation may change the cache: never the layers below; and its
    view only if it writes. *)
Definition cache_step (w : bool) (c c' : CacheDB D) : Prop :=
  cache_ok c' /\ same_backend c c' /\ (w = false -> forall k, view c k = view c' k).
Lemma overlayGet_backend k (c c' : CacheDB D) : same_backend c c' ->
  (overlayGet k (backend c')).1 = (overlayGet k (backend c)).1.
Proof. intros [Es Em]. unfold overlayGet. rewrite Es, Em. by destruct (memGet _ _); [|destruct (store_ _ _)]. Qed.
Lemma view_tables (c c' : CacheDB D) : memdb c' = memdb c -> same_backend c c' -> forall k, view c k = view c' k.
Proof. intros Em Hb k. unfold view. by rewrite Em, (overlayGet_backend k c c' Hb). Qed.
Lemma cache_step_refl w c : cache_ok c -> cache_step w c c.
Proof. by intros; split. Qed.
Lemma cache_step_trans w c1 c2 c3 : cache_step w c1 c2 -> cache_step w c2 c3 -> cache_step w c1 c3.
Proof.
  intros (? & [A1 A2] & V1) (? & [B1 B2] & V2). split_and!; [done|split; congruence|].
  intros E k. by rewrite V1, V2.
Qed.
Lemma cache_step_weaken w c c' : cache_step false c c' -> cache_step w c c'.
Proof. intros (? & ? & V). split_and!; try done. auto. Qed.
Lemma cachePut_step p k v c : value_ok (p :: k) v -> cache_ok c -> cache_step true c (cachePut p k v c).
Proof. intros Hv Hc. split_and!; [by apply cachePut_ok|done|done]. Qed.
Lemma SetDbErr_step e c : cache_ok c -> cache_step false c (SetDbErr e c).
Proof.
  intros Hc. split_and!; [by apply SetDbErr_ok|done|]. intros _. by apply view_tables.
Qed.
Lemma overlayGet_tables k (c : CacheDB D) r o : overlayGet k (backend c) = (r, o) ->
  same_backend c (mkCache (memdb c) o) /\ forall v, r = inl v -> memGet k (memdb c) = None -> view c k = Some v.
Proof.
  intros E. split.
  - unfold overlayGet in E. destruct (memGet _ _); [by simplify_eq|]. by destruct (store_ _ _); simplify_eq.
  - intros v -> Em. unfold view. by rewrite Em, E.
Qed.
Lemma overlayGet_step k c r o : cache_ok c -> overlayGet k (backend c) = (r, o) ->
  cache_step false c (mkCache (memdb c) o) /\ forall v, r = inl v -> value_ok k v.
Proof.
  intros Hc E. destruct (overlayGet_ok _ _ _ _ Hc E) as [Ho Hv]. destruct (overlayGet_tables _ _ _ _ E) as [Hb _].
  split; [|done]. split_and!; [done|done|]. intros _. by apply view_tables.
Qed.
Lemma cacheGet_step p k c r c' : cache_ok c -> cacheGet p k c = (r, c') ->
  cache_step false c c' /\ forall v, r = inl v -> view c (p :: k) = Some v /\ value_ok (p :: k) v.
Proof.
  intros Hc E. destruct (cacheGet_ok _ _ _ _ _ Hc E) as [Hc' Hv]. unfold cacheGet in E.
  destruct (memGet _ _) as [v|] eqn:Em.
  - injection E as <- <-. split; [by apply cache_step_refl|]. intros v' [= <-]. split; [|by apply Hv].
    unfold view. by rewrite Em.
  - destruct (overlayGet _ _) as [r' o] eqn:Eo. injection E as <- <-. split; [by eapply overlayGet_step|].
    intros v Er. split; [|by apply Hv]. by eapply overlayGet_tables.
Qed.

(** ** Accounts *)
Lemma GetEthAccount_step addr c r c' : cache_ok c -> GetEthAccount addr c = Some (r, c') ->
  cache_step false c c' /\ forall a, r = inl a -> account_ok a /\
    (forall b, Balance a = Some b -> IsEmpty a = false /\
       view c (ST_ETH_ACCOUNT :: addr) = Some (account_bytes (Nonce a) b (acctCode a) (acctCodeHash a))).
Proof.
  intros Hc. unfold GetEthAccount. destruct (cacheGet _ _ _) as [r' c1] eqn:E.
  destruct (cacheGet_step _ _ _ _ _ Hc E) as [Hc1 Hv]. destruct r' as [v|e]; [|by intros [= <- <-]].
  destruct (Hv v eq_refl) as [Hview Hval]. destruct (Z.eqb_spec (len v) 0) as [|Hne].
  - intros [= <- <-]. split; [done|]. intros a [= <-]. split; [apply zeroAccount_ok|done].
  - destruct Hval as [->|(n & b & code & h & -> & Ha & He)]; [done|].
    destruct (Deserialization_account n b code h) as [s ->]; try apply Ha; [done|].
    intros [= <- <-]. split; [done|]. intros a [= <-]. split; [done|]. by intros b' [= <-].
Qed.
Lemma PutEthAccount_step addr a c c' : cache_ok c -> account_ok a -> PutEthAccount addr a c = Some c' ->
  cache_step true c c'.
Proof.
  intros Hc Ha E. split_and!; [by eapply PutEthAccount_ok| |done]. unfold PutEthAccount in E.
  destruct (negb _); [destruct (SerializeToBytes a)|]; by simplify_eq.
Qed.
(** Storing the bytes that are already there. *)
Lemma PutEthAccount_same addr a b c c' : cache_ok c -> account_ok a -> Balance a = Some b -> IsEmpty a = false ->
  view c (ST_ETH_ACCOUNT :: addr) = Some (account_bytes (Nonce a) b (acctCode a) (acctCodeHash a)) ->
  PutEthAccount addr a c = Some c' -> cache_step false c c'.
Proof.
  intros Hc Ha Eb Ee Ev E. pose proof (PutEthAccount_ok _ _ _ _ Hc Ha E) as Hc'. unfold PutEthAccount in E.
  rewrite Ee, (SerializeToBytes_ok a b) in E by done. injection E as <-.
  split_and!; [done|done|]. intros _ k. unfold view, cachePut in *. cbn [memdb backend].
  destruct (decide (ST_ETH_ACCOUNT :: addr = k)) as [<-|Hne]; [by rewrite memGet_put|by rewrite memGet_put_ne].
Qed.

(** ** Methods *)
Record same_world_db (s s' : StorageDB D) : Prop := {
  w_view : forall k, view (cacheDB s) k = view (cacheDB s') k;
  w_suicided : Suicided s' = Suicided s;
  w_logs : logs s' = logs s;
  w_refund : refund s' = refund s;
}.
#[local] Instance same_world_db_equiv : Equivalence same_world_db.
Proof.
  split; [by intros s; split|intros s s' []; by split|].
  intros s1 s2 s3 [V1 ? ? ?] [V2 ? ? ?]. split; [intros k; by rewrite V1|congruence..].
Qed.
(** Nothing but the tables, the set, the logs (appended) and the counter changes. *)
Record steady (s s' : StorageDB D) : Prop := {
  sd_backend : same_backend (cacheDB s) (cacheDB s');
  sd_snaps : snapshots s' = snapshots s;
  sd_logs : exists ext, logs s' = logs s ++ ext;
}.
Definition kept {A} (w : bool) (P : A -> Prop) (m : StorageDB D -> option (A * StorageDB D)) : Prop :=
  forall s a s', storage_ok s -> m s = Some (a, s') ->
    storage_ok s' /\ P a /\ steady s s' /\ (w = false -> same_world_db s s').

Lemma steady_refl s : steady s s.
Proof. split; try done. exists []. by rewrite app_nil_r. Qed.
Lemma steady_trans s1 s2 s3 : steady s1 s2 -> steady s2 s3 -> steady s1 s3.
Proof.
  intros [[? ?] ? [x Ex]] [[? ?] ? [y Ey]]. split; [split; congruence|congruence|]. exists (x ++ y).
  by rewrite Ey, Ex, app_assoc.
Qed.
(** The sizes of the logs in the snapshots survive. *)
Lemma sizes_ok_app s ext : sizes_ok s -> sizes_ok (set_logs (logs s ++ ext) s).
Proof. intros Hs i sn Hi. destruct (Hs i sn Hi). split; [cbn; rewrite length_app; lia|done]. Qed.
Lemma set_cache_ok w s c : storage_ok s -> cache_step w (cacheDB s) c ->
  storage_ok (set_cache c s) /\ steady s (set_cache c s) /\ (w = false -> same_world_db s (set_cache c s)).
Proof.
  intros [] (Hc & Hb & Hv). split_and!; [by split|split; try done; exists []; by rewrite app_nil_r|].
  intros E. split; try done. by apply Hv.
Qed.
Lemma kept_bind {A B} w (P : A -> Prop) (Q : B -> Prop) (m : StorageDB D -> option (A * StorageDB D)) k :
  kept false P m -> (forall a, P a -> kept w Q (k a)) -> kept w Q (fun s => '(a, s) ← m s; k a s).
Proof.
  intros Hm Hk s b s' Hs E. destruct (m s) as [[a s1]|] eqn:Em; [|done].
  destruct (Hm _ _ _ Hs Em) as (Hs1 & Ha & Hst & Hw). destruct (Hk a Ha s1 b s' Hs1 E) as (? & ? & ? & Hw2).
  split_and!; [done|done|by eapply steady_trans|]. intros Ew. etrans; [by apply Hw|by apply Hw2].
Qed.
Lemma kept_ret {A} w (P : A -> Prop) a : P a -> kept w P (fun s => Some (a, s)).
Proof. intros Ha s a' s' Hs [= <- <-]. split_and!; try done. apply steady_refl. Qed.
(** A method that only works on the cache. *)
Lemma kept_cache {A} w (P : A -> Prop) (f : CacheDB D -> option (A * CacheDB D)) :
  (forall c a c', cache_ok c -> f c = Some (a, c') -> cache_step w c c' /\ P a) ->
  kept w P (fun s => '(a, c) ← f (cacheDB s); Some (a, set_cache c s)).
Proof.
  intros Hf s a s' Hs E. destruct (f (cacheDB s)) as [[x c]|] eqn:Ef; [|done]. cbn in E. injection E as <- <-.
  destruct (Hf _ _ _ (st_cache _ Hs) Ef) as [Hc HP]. destruct (set_cache_ok w s c Hs Hc) as (? & ? & ?). done.
Qed.

Lemma getEthAccount_kept addr : kept false account_ok (getEthAccount addr).
Proof.
  intros s a s' Hs. unfold getEthAccount. destruct (GetEthAccount addr (cacheDB s)) as [[r c]|] eqn:E; [|done].
  destruct (GetEthAccount_step _ _ _ _ (st_cache _ Hs) E) as [Hc Ha]. cbn. destruct r; intros [= <- <-].
  - destruct (set_cache_ok _ _ _ Hs Hc) as (? & ? & ?). split_and!; try done. by apply Ha.
  - destruct (set_cache_ok false s (SetDbErr d c) Hs) as (? & ? & ?); [|split_and!; try done; apply zeroAccount_ok].
    eapply cache_step_trans; [exact Hc|]. apply SetDbErr_step, Hc.
Qed.
Lemma putEthAccount_kept addr a : account_ok a -> kept true any (putEthAccount addr a).
Proof.
  intros Ha s u s' Hs E. unfold putEthAccount in E. destruct (PutEthAccount _ _ _) as [c|] eqn:Ep; [|done].
  injection E as <- <-.
  destruct (set_cache_ok true s c Hs) as (? & ? & ?); [by eapply PutEthAccount_step; [apply Hs|exact Ha|exact Ep]|done].
Qed.
Lemma onBalance_kept w m : (forall c e c', cache_ok c -> m c = Some (e, c') -> cache_step w c c') ->
  kept w any (onBalance m).
Proof.
  intros Hm s u s' Hs. unfold onBalance. destruct (m (cacheDB s)) as [[e c]|] eqn:E; [|done]. cbn.
  pose proof (Hm _ _ _ (st_cache _ Hs) E) as Hc.
  destruct e as [er|]; intros [= <- <-]; [|by destruct (set_cache_ok _ _ _ Hs Hc) as (? & ? & ?)].
  destruct (set_cache_ok w s (SetDbErr er c) Hs) as (? & ? & ?); [|done].
  eapply cache_step_trans; [exact Hc|]. apply cache_step_weaken, SetDbErr_step, Hc.
Qed.
(** Changing a balance; leaving it as it is changes nothing. *)
Lemma modBalance_step w f addr c e c' : (forall b, int_ok b -> int_ok (f b)) ->
  (w = false -> forall b, int_ok b -> f b = b) -> cache_ok c ->
  modBalance f addr c = Some (e, c') -> cache_step w c c'.
Proof.
  intros Hf Hid Hc. unfold modBalance. destruct (GetEthAccount addr c) as [[r c1]|] eqn:E; [|done]. cbn.
  destruct (GetEthAccount_step _ _ _ _ Hc E) as [Hc1 Ha]. destruct r as [a|]; [|by intros [= <- <-]; apply cache_step_weaken].
  destruct (Ha a eq_refl) as [Hok Hb]. destruct (Balance a) as [b|] eqn:Eb; [|done]. cbn.
  destruct (Hb b eq_refl) as [Hne Hview]. pose proof (a_balance _ Hok b Eb) as Hbo.
  destruct (PutEthAccount _ _ _) as [c2|] eqn:Ep; [|done]. intros [= <- <-].
  eapply cache_step_trans; [by apply cache_step_weaken|].
  assert (Hok' : account_ok (mkAccount (Nonce a) (Some (f b)) (acctCode a) (acctCodeHash a))).
  { destruct Hok. split; try done. intros b' [= <-]. auto. }
  destruct w; [by eapply PutEthAccount_step; [apply Hc1|exact Hok'|exact Ep]|].
  rewrite Hid in * by done. eapply PutEthAccount_same; [apply Hc1|exact Hok'|done|exact Hne| |exact Ep].
  destruct Hc1 as (_ & _ & V). by rewrite <- V.
Qed.
Lemma FromBig_int v : int_ok (FromBig v).1.
Proof. unfold FromBig. rewrite SetFromBig_ok. apply of_Z_ok. Qed.
Lemma bhSetBalance_step addr v c e c' : cache_ok c -> bhSetBalance addr v c = Some (e, c') -> cache_step true c c'.
Proof.
  intros Hc. unfold bhSetBalance. destruct (GetEthAccount addr c) as [[r c1]|] eqn:E; [|done]. cbn.
  destruct (GetEthAccount_step _ _ _ _ Hc E) as [Hc1 Ha]. destruct r as [a|]; [|by intros [= <- <-]; apply cache_step_weaken].
  destruct (Ha a eq_refl) as [[] _]. destruct (PutEthAccount _ _ _) as [c2|] eqn:Ep; [|done]. intros [= <- <-].
  eapply cache_step_trans; [by apply cache_step_weaken|]. eapply PutEthAccount_step; [apply Hc1| |exact Ep].
  split; try done. intros b' [= <-]. apply FromBig_int.
Qed.
Lemma bhGetBalance_step addr c r c' : cache_ok c -> bhGetBalance addr c = Some (r, c') -> cache_step false c c'.
Proof.
  intros Hc. unfold bhGetBalance. destruct (GetEthAccount addr c) as [[r' c1]|] eqn:E; [|done]. cbn.
  destruct (GetEthAccount_step _ _ _ _ Hc E) as [Hc1 Ha]. destruct r' as [a|]; [|by intros [= <- <-]].
  destruct (Balance a); [|done]. by intros [= <- <-].
Qed.
(** A query of the balance. *)
Lemma balance_kept {A} addr (f : Z -> A) (d : A) :
  kept false any (fun s => r ← bhGetBalance addr (cacheDB s);
    match r with
    | (inr e, c) => Some (d, set_cache (SetDbErr e c) s)
    | (inl b, c) => Some (f b, set_cache c s)
    end).
Proof.
  intros s x s' Hs E. destruct (bhGetBalance addr (cacheDB s)) as [[r c]|] eqn:Eb; [|done]. cbn in E.
  pose proof (bhGetBalance_step _ _ _ _ (st_cache _ Hs) Eb) as Hc.
  destruct r as [b|er]; injection E as <- <-; [by destruct (set_cache_ok _ _ _ Hs Hc) as (? & ? & ?)|].
  destruct (set_cache_ok false s (SetDbErr er c) Hs) as (? & ? & ?); [|done].
  eapply cache_step_trans; [exact Hc|]. apply SetDbErr_step, Hc.
Qed.
Lemma BytesToHash_ok v : bytes_ok v -> is_hash (BytesToHash v).
Proof.
  intros Hv. unfold BytesToHash. set (b := if 32 <? len v then _ else _).
  assert (Hb : bytes_ok b /\ (length b <= 32)%nat).
  { subst b. destruct (Z.ltb_spec 32 (len v)); unfold len in *; (split; [|rewrite ?length_drop; lia]); [by apply Forall_drop|done]. }
  destruct Hb. split; [apply Forall_app; split; [apply bytes_ok_replicate|done]|]. rewrite length_app, length_replicate. lia.
Qed.
Lemma account_field {A} addr (f : EthAccount -> A) (P : A -> Prop) : (forall a, account_ok a -> P (f a)) ->
  kept false P (fun s => '(a, s) ← getEthAccount addr s; Some (f a, s)).
Proof. intros Hf. eapply kept_bind; [apply getEthAccount_kept|]. intros a Ha. by apply kept_ret, Hf. Qed.
Lemma account_update addr (f : EthAccount -> EthAccount) : (forall a, account_ok a -> account_ok (f a)) ->
  kept true any (fun s => '(a, s) ← getEthAccount addr s; putEthAccount addr (f a) s).
Proof. intros Hf. eapply kept_bind; [apply getEthAccount_kept|]. intros a Ha. by apply putEthAccount_kept, Hf. Qed.
Lemma GetCode_kept addr : kept false is_slice (sdbGetCode addr).
Proof. apply account_field. intros a Ha. apply Ha. Qed.
Lemma GetState_kept addr k : kept false is_hash (sdbGetState addr k).
Proof.
  intros s h s' Hs. unfold sdbGetState. destruct (cacheGet _ _ _) as [r c] eqn:E.
  destruct (cacheGet_step _ _ _ _ _ (st_cache _ Hs) E) as [Hc Hv]. destruct r as [v|e]; intros [= <- <-].
  - destruct (set_cache_ok _ _ _ Hs Hc) as (? & ? & ?). split_and!; try done. apply BytesToHash_ok. by apply (Hv v eq_refl).
  - destruct (set_cache_ok false s (SetDbErr e c) Hs) as (? & ? & ?); [|split_and!; try done; by apply BytesToHash_ok].
    eapply cache_step_trans; [exact Hc|]. apply SetDbErr_step, Hc.
Qed.
Lemma GetCommittedState_kept addr k : kept false is_hash (sdbGetCommittedState addr k).
Proof.
  intros s h s' Hs. unfold sdbGetCommittedState. destruct (overlayGet _ _) as [r o] eqn:E.
  destruct (overlayGet_step _ _ _ _ (st_cache _ Hs) E) as [Hc Hv]. destruct r as [v|e]; intros [= <- <-].
  - destruct (set_cache_ok _ _ _ Hs Hc) as (? & ? & ?). split_and!; try done. apply BytesToHash_ok. by apply (Hv v eq_refl).
  - destruct (set_cache_ok false s (SetDbErr e (mkCache (memdb (cacheDB s)) o)) Hs) as (? & ? & ?);
      [|split_and!; try done; by apply BytesToHash_ok].
    eapply cache_step_trans; [exact Hc|]. apply SetDbErr_step, Hc.
Qed.
Lemma SetState_kept a k v : is_hash v -> kept true any (sdbSetState a k v).
Proof.
  intros [Hv Hl]. apply (kept_cache true any (fun c => Some ((), cachePut ST_STORAGE (genKey a k) v c))).
  intros c [] c' Hc [= <-]. split; [|done]. apply cachePut_step; [|done]. split; [done|]. unfold len, max_slice. lia.
Qed.
(** Methods that change only the counter, the set or the logs. *)
Lemma refund_kept r s : storage_ok s -> is_u64 r ->
  storage_ok (set_refund r s) /\ any () /\ steady s (set_refund r s) /\ (true = false -> same_world_db s (set_refund r s)).
Proof. intros [] ?. split_and!; try done. split; try done. exists []. by rewrite app_nil_r. Qed.
Lemma Suicide_kept addr : kept true any (sdbSuicide addr).
Proof.
  eapply kept_bind; [apply getEthAccount_kept|]. intros a _ s b s' Hs. cbv beta zeta. destruct (IsEmpty a).
  { intros [= <- <-]. split_and!; try done. apply steady_refl. }
  set (s1 := set_suicided _ s). assert (Hs1 : storage_ok s1) by (destruct Hs; by split).
  assert (Hst : steady s s1) by (split; try done; exists []; by rewrite app_nil_r).
  destruct (onBalance (bhSetBalance addr 0) s1) as [[u s2]|] eqn:E; [|done]. cbn. intros [= <- <-].
  destruct (onBalance_kept true _ (bhSetBalance_step addr 0) s1 u s2 Hs1 E) as (? & _ & ? & _).
  split_and!; try done. by eapply steady_trans.
Qed.
Lemma Exist_kept addr : kept false any (sdbExist addr).
Proof.
  intros s b s' Hs E. unfold sdbExist in E. destruct (bool_decide _); [by apply (kept_ret false any true I s b s' Hs E)|].
  revert s b s' Hs E. eapply kept_bind; [apply getEthAccount_kept|]. intros a _.
  apply (balance_kept addr (fun bal => negb (IsEmpty a) || (0 <? bal)) false).
Qed.
Lemma Empty_kept addr : kept false any (sdbEmpty addr).
Proof.
  eapply kept_bind; [apply getEthAccount_kept|]. intros a _.
  apply (balance_kept addr (fun bal => IsEmpty a && (bal =? 0)) false).
Qed.

(** ** Snapshots *)
(** The state a snapshot restores, over the current lower layers and logs. *)
Definition restored (s : StorageDB D) (idx : nat) (sn : snapshot D) : StorageDB D :=
  mkStorage (mkCache (changes sn) (backend (cacheDB s))) (snSuicided sn) (take (logsSize sn) (logs s))
    (thash s) (bhash s) (snRefund sn) (take idx (snapshots s)).
Definition saved_db (s : StorageDB D) (id : Z) (s0 : StorageDB D) : Prop :=
  0 <= id /\ exists sn, snapshots s !! Z.to_nat id = Some sn /\ same_world_db s0 (restored s (Z.to_nat id) sn).

(** Two states whose layers and relevant logs agree restore the same world. *)
Lemma restored_same s s' i j sn : same_backend (cacheDB s) (cacheDB s') ->
  take (logsSize sn) (logs s') = take (logsSize sn) (logs s) ->
  same_world_db (restored s i sn) (restored s' j sn).
Proof. intros Hb Hl. split; cbn; try done. by apply view_tables. Qed.
Lemma steady_saved s s' : storage_ok s -> steady s s' -> keeps_saved saved_db s s'.
Proof.
  intros Hs [Hb Esn [ext El]] id s0 [Hid (sn & Hsn & Hw)]. split; [done|]. exists sn. rewrite Esn. split; [done|].
  etrans; [exact Hw|]. apply restored_same; [done|]. rewrite El. apply take_app_le. by apply (st_sizes _ Hs _ _ Hsn).
Qed.
Lemma kept_method {A} w (P : A -> Prop) m : kept w P m -> method storage_ok same_world_db saved_db w P m.
Proof.
  intros Hm s a s' Hs E. destruct (Hm s a s' Hs E) as (? & ? & ? & ?). split_and!; try done. by apply steady_saved.
Qed.

Lemma Snapshot_db s id s' : storage_ok s -> sdbSnapshot s = Some (id, s') ->
  storage_ok s' /\ same_world_db s s' /\ saved_db s' id s /\
  forall j s0, saved_db s j s0 -> j < id /\ saved_db s' j s0.
Proof.
  intros Hs [= <- <-]. pose proof Hs as [Hc Hr Hsn Hz]. set (sn := mkSnapshot _ _ _ _).
  rewrite length_app, Nat2Z.inj_add. cbn [length]. replace (Z.of_nat (length (snapshots s)) + Z.of_nat 1 - 1) with (Z.of_nat (length (snapshots s))) by lia.
  split_and!; [| |split; [lia|]|].
  - split; cbn; [done|done|by apply Forall_app; split; [|constructor; [split; [apply Hc|]|]]|].
    intros i x Hx. cbn in *. apply lookup_app_Some in Hx as [Hx|[Hge Hx]].
    + destruct (Hz i x Hx) as [Hle Hmono]. split; [done|]. intros j y Hij Hy.
      apply lookup_app_Some in Hy as [Hy|[_ Hy]]; [by apply (Hmono j)|].
      apply list_lookup_singleton_Some in Hy as [_ <-]. exact Hle.
    + apply list_lookup_singleton_Some in Hx as [E <-]. split; [done|]. intros j y Hij Hy.
      apply lookup_app_Some in Hy as [Hy|[_ Hy]]; [apply lookup_lt_Some in Hy; lia|].
      by apply list_lookup_singleton_Some in Hy as [_ <-].
  - by split.
  - exists sn. cbn. rewrite Nat2Z.id. split; [by apply list_lookup_middle|].
    split; cbn; try done; by rewrite firstn_all.
  - intros j s0 [Hj (x & Hx & Hw)]. pose proof (lookup_lt_Some _ _ _ Hx). split; [lia|]. split; [done|].
    exists x. cbn. split; [by apply lookup_app_l_Some|]. etrans; [exact Hw|]. by apply restored_same.
Qed.

Lemma RevertToSnapshot_db id s u s' : storage_ok s -> sdbRevertToSnapshot id s = Some (u, s') ->
  storage_ok s' /\ forall s0, saved_db s id s0 ->
    same_world_db s0 s' /\ forall j s1, j < id -> saved_db s j s1 -> saved_db s' j s1.
Proof.
  intros Hs E. unfold sdbRevertToSnapshot in E. destruct (_ <? id + 1); [done|]. destruct (Z.ltb_spec id 0); [done|].
  destruct (snapshots s !! Z.to_nat id) as [sn|] eqn:Esn; [|done]. cbn in E. injection E as _ <-. fold (restored s (Z.to_nat id) sn).
  pose proof Hs as [Hc Hr Hsn Hz]. eapply Forall_lookup_1 in Hsn as Hn; [|exact Esn]. destruct Hn as [Hv Hr'].
  destruct Hc as [_ Ho Hst]. destruct (Hz _ _ Esn) as [Hle _].
  assert (Hlog : forall j x, (j < Z.to_nat id)%nat -> snapshots s !! j = Some x -> (logsSize x <= logsSize sn)%nat)
    by (intros j x Hj Hx; destruct (Hz j x Hx) as [_ Hm]; apply (Hm (Z.to_nat id)); [lia|done]).
  split; [split; cbn; [by split|done|by apply Forall_take|]|].
  - intros i x Hx. cbn in *. apply lookup_take_Some in Hx as [Hx Hi]. split.
    + rewrite length_take. pose proof (Hlog i x Hi Hx). lia.
    + intros j y Hij Hy. apply lookup_take_Some in Hy as [Hy Hj]. destruct (Hz i x Hx) as [_ Hm]. by apply (Hm j).
  - intros s0 [_ (sn' & E' & Hw)]. rewrite Esn in E'. injection E' as <-. split; [done|].
    intros j s1 Hj [Hj0 (x & Hx & Hw1)]. split; [done|]. exists x. cbn. split; [rewrite lookup_take_lt by lia; done|].
    etrans; [exact Hw1|]. apply restored_same; [done|]. cbn. rewrite take_take. f_equal.
    pose proof (Hlog (Z.to_nat j) x ltac:(lia) Hx). lia.
Qed.

(** ** The interface *)
Context (keccak : bytes -> Hash) (Hkeccak : forall b, is_hash (keccak b)).

Definition storage_spec : @StateDBSpec (StorageDB D) (storage_StateDB keccak).
Proof.
  refine {| db_ok := storage_ok; same_world := same_world_db; saved := saved_db; same_world_equiv := _ |}; cbn.
  - intros a. apply kept_method, kept_ret. done.
  - by intros a s s1 s2 u Hs Ex [= <- <-].
  - intros a v. apply kept_method, onBalance_kept. intros c e c'. apply modBalance_step; [|done].
    intros b Hb. rewrite Sub_spec by (done || apply FromBig_int). apply of_Z_ok.
  - intros a v. apply kept_method, onBalance_kept. intros c e c'. apply modBalance_step; [|done].
    intros b Hb. rewrite Add_spec by (done || apply FromBig_int). apply of_Z_ok.
  - intros a. apply kept_method, onBalance_kept. intros c e c'. apply modBalance_step.
    + intros b Hb. rewrite Add_spec by (done || apply FromBig_int). apply of_Z_ok.
    + intros _ b Hb. rewrite Add_spec by (done || apply FromBig_int). pose proof (val_range b Hb).
      change (val (FromBig 0).1) with 0. rewrite Z.add_0_r. symmetry. by apply eq_of_Z_range.
  - intros a. apply kept_method, onBalance_kept. intros c e c'. apply modBalance_step.
    + intros b Hb. rewrite Sub_spec by (done || apply FromBig_int). apply of_Z_ok.
    + intros _ b Hb. rewrite Sub_spec by (done || apply FromBig_int). pose proof (val_range b Hb).
      change (val (FromBig 0).1) with 0. rewrite Z.sub_0_r. symmetry. by apply eq_of_Z_range.
  - intros a. apply kept_method, (balance_kept a (fun b => b) 0).
  - intros a. apply kept_method, account_field. intros x Hx. apply Hx.
  - intros a n Hn. apply kept_method, (account_update a (fun x => mkAccount n _ _ _)). intros x []. by split.
  - intros a. apply kept_method, account_field. intros x Hx. apply Hx.
  - intros a. apply kept_method, GetCode_kept.
  - intros a b Hb. apply kept_method, (account_update a (fun x => mkAccount _ _ _ _)). intros x []. by split; cbn.
  - intros a. apply kept_method. eapply kept_bind; [apply GetCode_kept|]. intros b [_ Hb]. apply kept_ret.
    pose proof (len_nonneg b). lia.
  - intros g Hg. apply kept_method. intros s u s' Hs [= <- <-]. apply refund_kept; [done|apply add64_range].
  - intros g Hg. apply kept_method. intros s u s' Hs E. unfold sdbSubRefund in E. destruct (_ <? _); [done|].
    injection E as <- <-. apply refund_kept; [done|apply sub64_range].
  - apply kept_method. intros s r s' Hs [= <- <-]. split_and!; try done; [apply Hs|apply steady_refl].
  - by intros s r s1 r' s2 _ [= <- <-] [= <- <-].
  - intros a k. apply kept_method, GetCommittedState_kept.
  - intros a k. apply kept_method, GetState_kept.
  - intros a k v Hv. by apply kept_method, SetState_kept.
  - intros a. apply kept_method, Suicide_kept.
  - intros a. apply kept_method. intros s b s' Hs [= <- <-]. split_and!; try done. apply steady_refl.
  - intros a. apply kept_method, Exist_kept.
  - intros a. apply kept_method, Empty_kept.
  - intros l. apply kept_method. intros s u s' [] [= <- <-]. split_and!; try done.
    + split; try done. by apply sizes_ok_app.
    + split; try done. by exists [l].
  - intros h b. apply kept_method, kept_ret. done.
  - apply Snapshot_db.
  - apply RevertToSnapshot_db.
Defined.

(** ** Commit *)
Lemma fold_puts (l : list (bytes * bytes)) (o : OverlayDB D) k : NoDup l.*1 ->
  memGet k (omemdb (foldl (fun o '(k, v) => if len v =? 0 then overlayDelete k o else overlayPut k v o) o l))
  = match (list_to_map l : gmap _ _) !! k with Some v => Some v | None => memGet k (omemdb o) end.
Proof.
  revert o. induction l as [|[k1 v1] l IH]; intros o Hnd; [done|]. cbn [foldl fmap list_fmap fst] in *.
  apply list.NoDup_cons in Hnd as [Hni Hnd]. rewrite IH by done. cbn [list_to_map foldr].
  assert (E : omemdb (if len v1 =? 0 then overlayDelete k1 o else overlayPut k1 v1 o) = memPut k1 v1 (omemdb o)).
  { destruct (Z.eqb_spec (len v1) 0); [|done]. destruct v1; [done|]. unfold len in *. simpl in *. lia. }
  rewrite E. destruct (decide (k1 = k)) as [<-|Hne].
  - rewrite lookup_insert_eq. rewrite not_elem_of_list_to_map_1 by done. apply memGet_put.
  - rewrite lookup_insert_ne, memGet_put_ne by done. done.
Qed.
Lemma fold_store (l : list (bytes * bytes)) (o : OverlayDB D) :
  store_ (foldl (fun o '(k, v) => if len v =? 0 then overlayDelete k o else overlayPut k v o) o l) = store_ o.
Proof. revert o. induction l as [|[k v] l IH]; intros o; [done|]. cbn [foldl]. rewrite IH. by destruct (_ =? _). Qed.

(** After a commit every key reads as before, now from the layer below. *)
Lemma cacheCommit_view c k : view (cacheCommit c) k = view c k /\ memGet k (memdb (cacheCommit c)) = None.
Proof.
  unfold view, cacheCommit. cbn [memdb backend]. rewrite memGet_new. split; [|done].
  unfold overlayGet. rewrite fold_puts by apply memEntries_nodup. rewrite fold_store.
  destruct (memGet k (memdb c)) as [v|] eqn:E.
  - apply memEntries_get in E. rewrite (elem_of_list_to_map_1 _ k v); [done|apply memEntries_nodup|done].
  - assert (list_to_map (memEntries (memdb c)) !! k = @None bytes) as ->.
    { apply not_elem_of_list_to_map_1. intros Hin. apply list_elem_of_fmap in Hin as ([k' v] & -> & Hin).
      apply memEntries_get in Hin. cbn in E. congruence. }
    destruct (memGet k (omemdb _)); [done|]. by destruct (store_ _ k).
Qed.
(** [CommitTo] writes to a store what the overlay shows over it. *)
Abbreviation batch := (gmap (list Z) (list Z)).
Lemma commit_fold (l : list (bytes * bytes)) : forall m : batch, NoDup l.*1 -> exists m' : batch,
  foldl (fun b '(key, val) => b ← b; if len val =? 0 then Ret (delete key b) else Ret (<[key := val]> b)) (Ret m) l = Ret m' /\
  (forall k v, (k, v) ∈ l -> m' !! k = match v with [] => None | v => Some v end) /\ forall k, k ∉ l.*1 -> m' !! k = m !! k.
Proof.
  induction l as [|[k v] l IH]; intros m Hn; [exists m; split_and!; set_solver|]. cbn in Hn. apply list.NoDup_cons in Hn as [Hk Hn].
  cbn [foldl mbind outcome_bind]. set (m1 := if len v =? 0 then delete k m else <[k := v]> m).
  destruct (IH m1 Hn) as (m' & E & Hin & Hout). exists m'. split_and!.
  - rewrite <- E. unfold m1. by destruct (len v =? 0).
  - intros k' v' [[= -> ->]|Hi]%list.elem_of_cons; [|by apply Hin]. rewrite Hout by done. unfold m1. destruct v as [|c v].
    + apply lookup_delete_eq.
    + rewrite (proj2 (Z.eqb_neq _ _)) by (unfold len; cbn; lia). apply lookup_insert_eq.
  - intros k' Hk'. cbn in Hk'. rewrite Hout by set_solver. unfold m1.
    destruct (_ =? _); [apply lookup_delete_ne | apply lookup_insert_ne]; set_solver.
Qed.
Lemma CommitTo_ok (o : OverlayDB D) (m : batch) : exists m' : batch,
  CommitTo (fun k v m => Ret (<[k := v]> m)) (fun k m => Ret (delete k m)) o m = Ret m' /\
  forall k, m' !! k = match memGet k (omemdb o) with Some [] => None | Some v => Some v | None => m !! k end.
Proof.
  destruct (commit_fold (memEntries (omemdb o)) m (memEntries_nodup _)) as (m' & E & Hin & Hout). exists m'. split; [done|]. intros k.
  destruct (memGet k (omemdb o)) as [v|] eqn:Ek.
  - apply memEntries_get in Ek. rewrite (Hin _ _ Ek). by destruct v.
  - apply Hout. intros ([k' v] & -> & Hi)%list_elem_of_fmap. apply memEntries_get in Hi. cbn in *. congruence.
Qed.
End Facts.

(** ** The database after a commit *)
Section Commit.
Context {D : Type} `{MemDBLaws D}.
Lemma cacheCommit_ok c : cache_ok c -> cache_ok (cacheCommit c).
Proof.
  intros [Hm Ho Hs]. unfold cacheCommit. split; cbn [memdb backend].
  - intros k v. by rewrite memGet_new.
  - intros k v. rewrite fold_puts by apply memEntries_nodup.
    destruct (list_to_map (memEntries (memdb c)) !! k) as [x|] eqn:E; [|apply Ho].
    intros [= <-]. apply Hm. apply memEntries_get. by apply elem_of_list_to_map_2.
  - rewrite fold_store. exact Hs.
Qed.
(** Reading an account never panics. *)
Lemma GetEthAccount_total addr c : cache_ok c -> GetEthAccount addr c <> None.
Proof.
  intros Hc. unfold GetEthAccount. destruct (cacheGet ST_ETH_ACCOUNT addr c) as [[v|e] c1] eqn:E; [|done].
  destruct (cacheGet_ok _ _ _ _ _ Hc E) as [_ Hv]. destruct (Z.eqb_spec (len v) 0) as [|Hl]; [done|].
  specialize (Hv v eq_refl). cbn [value_ok] in Hv. rewrite Z.eqb_refl in Hv.
  destruct Hv as [->|(n & b & code & h & -> & [Hn Hb Hcode Hh] & _)]; [done|].
  destruct (Deserialization_account n b code h) as (q & ->); try done. by apply Hb.
Qed.
Lemma storage_balances a (s : StorageDB D) b s' : storage_ok s -> sdbGetBalance a s = Some (b, s') -> 0 <= b.
Proof.
  intros Hs. unfold sdbGetBalance, bhGetBalance. destruct (GetEthAccount a (cacheDB s)) as [[[ac|er] c]|] eqn:E; try done; cbn.
  - destruct (Balance ac) as [x|] eqn:Eb; [|done]. cbn. intros [= <- <-].
    destruct (GetEthAccount_ok _ _ _ _ (st_cache _ Hs) E) as [_ Ha]. apply val_range. by apply (Ha ac eq_refl).
  - by intros [= <- <-].
Qed.
Lemma NewStateDB_ok c t b : cache_ok c -> storage_ok (NewStateDB (D := D) c t b).
Proof. intros Hc. by split. Qed.
End Commit.


(** ** A store that does not fail *)
Section Calm.
Context {D : Type} `{MemDBLaws D}.
Definition calm (b : OverlayDB D) : Prop := dbErr b = None /\ forall k code, store_ b k <> StoreErr code.
Lemma overlayGet_calm k b r b' : calm b -> overlayGet k b = (r, b') -> b' = b /\ exists v, r = inl v.
Proof.
  intros [_ Hs]. unfold overlayGet. destruct (memGet k _) as [v|]; [intros [= <- <-]; by eauto|].
  destruct (store_ b k) eqn:E; [intros [= <- <-]; by eauto..|]. by destruct (Hs k code).
Qed.
Lemma cacheGet_calm p k c r c' : calm (backend c) -> cacheGet p k c = (r, c') -> c' = c /\ exists v, r = inl v.
Proof.
  intros Hc. unfold cacheGet. destruct (memGet _ _) as [v|]; [intros [= <- <-]; by eauto|].
  destruct (overlayGet _ _) as [r' b] eqn:E. destruct (overlayGet_calm _ _ _ _ Hc E) as [-> Hv]. intros [= <- <-].
  by destruct c.
Qed.
Lemma GetEthAccount_calm addr c r c' : cache_ok c -> calm (backend c) -> GetEthAccount addr c = Some (r, c') ->
  c' = c /\ exists a, r = inl a.
Proof.
  intros Hc Hb. unfold GetEthAccount. destruct (cacheGet _ _ c) as [v c1] eqn:E.
  destruct (cacheGet_ok _ _ _ _ _ Hc E) as [_ Hv]. destruct (cacheGet_calm _ _ _ _ _ Hb E) as [-> [v' ->]].
  destruct (Z.eqb_spec (len v') 0) as [|Hl]; [intros [= <- <-]; by eauto|]. specialize (Hv v' eq_refl).
  cbn [value_ok] in Hv. rewrite Z.eqb_refl in Hv. destruct Hv as [->|(n & b & code & h & -> & [Hn Hbal Hcode Hh] & _)]; [done|].
  destruct (Deserialization_account n b code h) as (q & ->); try done; [by apply Hbal|]. intros [= <- <-]. by eauto.
Qed.
Lemma PutEthAccount_calm addr a c c' : PutEthAccount addr a c = Some c' -> backend c' = backend c.
Proof. unfold PutEthAccount. destruct (IsEmpty a); cbn [negb]; [by intros [= <-]|]. destruct (SerializeToBytes a); intros E; by simplify_eq. Qed.

Lemma cacheCommit_calm c : calm (backend c) -> calm (backend (cacheCommit c)).
Proof.
  intros [He Hst]. unfold cacheCommit. cbn [backend]. split; [|by rewrite fold_store].
  revert He. generalize (backend c). induction (memEntries (memdb c)) as [|[k v] l IH]; intros b Hb; [done|].
  cbn [foldl]. apply IH. by destruct (_ =? _).
Qed.

(** What stays: the layer below and the hashes of the block and the transaction *)
Record framed (s s' : StorageDB D) : Prop := {
  fr_backend : backend (cacheDB s') = backend (cacheDB s);
  fr_bhash : bhash s' = bhash s;
  fr_thash : thash s' = thash s;
}.
#[local] Instance framed_preorder : PreOrder framed.
Proof. split; [by intros s|intros s1 s2 s3 [] []; split; congruence]. Qed.
Definition frames {A} (m : StorageDB D -> option (A * StorageDB D)) : Prop :=
  forall s a s', storage_ok s -> calm (backend (cacheDB s)) -> m s = Some (a, s') -> framed s s'.
Lemma frames_bind {A B} w (P : A -> Prop) (m : StorageDB D -> option (A * StorageDB D)) (k : A -> StorageDB D -> option (B * StorageDB D)) :
  kept w P m -> frames m -> (forall a, frames (k a)) -> frames (fun s => '(a, s) ← m s; k a s).
Proof.
  intros Hm Hf Hk s b s' Hs Hc E. destruct (m s) as [[a s1]|] eqn:Em; [|done].
  pose proof (Hf _ _ _ Hs Hc Em) as H1. etrans; [exact H1|]. apply (Hk a s1 b s'); [apply (Hm _ _ _ Hs Em)| |done].
  by rewrite (fr_backend _ _ H1).
Qed.
Lemma frames_ret {A} (a : A) : frames (fun s => Some (a, s)).
Proof. by intros s b s' _ _ [= <- <-]. Qed.
Lemma getEthAccount_frames addr : frames (getEthAccount addr).
Proof.
  intros s a s' Hs Hc. unfold getEthAccount. destruct (GetEthAccount addr (cacheDB s)) as [[r c]|] eqn:E; [|done].
  destruct (GetEthAccount_calm _ _ _ _ (st_cache _ Hs) Hc E) as [-> [x ->]]. by intros [= <- <-].
Qed.
Lemma putEthAccount_frames addr a : frames (putEthAccount addr a).
Proof.
  intros s u s' Hs Hc. unfold putEthAccount. destruct (PutEthAccount addr a (cacheDB s)) as [c|] eqn:E; [|done].
  intros [= <- <-]. split; try done. by apply PutEthAccount_calm in E.
Qed.
Lemma account_frames {B} addr (k : EthAccount -> StorageDB D -> option (B * StorageDB D)) : (forall a, frames (k a)) ->
  frames (fun s => '(a, s) ← getEthAccount addr s; k a s).
Proof. apply frames_bind with (w := false) (P := account_ok); [apply getEthAccount_kept | apply getEthAccount_frames]. Qed.
(** The balance methods *)
Lemma onBalance_frames (m : CacheDB D -> option (option db_error * CacheDB D)) :
  (forall c e c', cache_ok c -> calm (backend c) -> m c = Some (e, c') -> e = None /\ backend c' = backend c) ->
  frames (onBalance m).
Proof.
  intros Hm s u s' Hs Hc. unfold onBalance. destruct (m (cacheDB s)) as [[e c]|] eqn:E; [|done].
  destruct (Hm _ _ _ (st_cache _ Hs) Hc E) as [-> Hb]. by intros [= <- <-].
Qed.
Lemma modBalance_calm f addr c e c' : cache_ok c -> calm (backend c) -> modBalance f addr c = Some (e, c') ->
  e = None /\ backend c' = backend c.
Proof.
  intros Hc Hb. unfold modBalance. destruct (GetEthAccount addr c) as [[r c1]|] eqn:E; [|done].
  destruct (GetEthAccount_calm _ _ _ _ Hc Hb E) as [-> [a ->]]. cbn. destruct (Balance a) as [b|]; [|done]. cbn.
  destruct (PutEthAccount _ _ c) as [c2|] eqn:Ep; [|done]. intros [= <- <-]. split; [done|]. by eapply PutEthAccount_calm.
Qed.
Lemma bhSetBalance_calm addr v c e c' : cache_ok c -> calm (backend c) -> bhSetBalance addr v c = Some (e, c') ->
  e = None /\ backend c' = backend c.
Proof.
  intros Hc Hb. unfold bhSetBalance. destruct (GetEthAccount addr c) as [[r c1]|] eqn:E; [|done].
  destruct (GetEthAccount_calm _ _ _ _ Hc Hb E) as [-> [a ->]]. cbn.
  destruct (PutEthAccount _ _ c) as [c2|] eqn:Ep; [|done]. intros [= <- <-]. split; [done|]. by eapply PutEthAccount_calm.
Qed.
Lemma bhGetBalance_calm addr c r c' : cache_ok c -> calm (backend c) -> bhGetBalance addr c = Some (r, c') ->
  c' = c /\ exists b, r = inl b.
Proof.
  intros Hc Hb. unfold bhGetBalance. destruct (GetEthAccount addr c) as [[x c1]|] eqn:E; [|done].
  destruct (GetEthAccount_calm _ _ _ _ Hc Hb E) as [-> [a ->]]. cbn. destruct (Balance a) as [b|]; [|done].
  intros [= <- <-]. by eauto.
Qed.
(** Reading a balance, as [GetBalance], [Exist] and [Empty] do *)
Lemma balance_frames {A} addr (f : Z -> A) (d : A) : frames (fun s =>
  r ← bhGetBalance addr (cacheDB s);
  match r with (inr e, c) => Some (d, set_cache (SetDbErr e c) s) | (inl b, c) => Some (f b, set_cache c s) end).
Proof.
  intros s a s' Hs Hc. destruct (bhGetBalance addr (cacheDB s)) as [[r c]|] eqn:E; [|done].
  destruct (bhGetBalance_calm _ _ _ _ (st_cache _ Hs) Hc E) as [-> [b ->]]. by intros [= <- <-].
Qed.
Lemma slot_frames contract key : frames (sdbGetState contract key).
Proof.
  intros s a s' _ Hc. unfold sdbGetState. destruct (cacheGet _ _ _) as [r c] eqn:E.
  destruct (cacheGet_calm _ _ _ _ _ Hc E) as [-> [v ->]]. by intros [= <- <-].
Qed.
Lemma committed_frames addr key : frames (sdbGetCommittedState addr key).
Proof.
  intros s a s' _ Hc. unfold sdbGetCommittedState. destruct (overlayGet _ _) as [r b] eqn:E.
  destruct (overlayGet_calm _ _ _ _ Hc E) as [-> [v ->]]. by intros [= <- <-].
Qed.
Lemma Suicide_frames addr : frames (sdbSuicide addr).
Proof.
  unfold sdbSuicide. apply account_frames. intros a. destruct (IsEmpty a); [apply frames_ret|].
  intros s b s' Hs Hc E. set (s1 := set_suicided _ s) in E. destruct (onBalance _ s1) as [[u s2]|] eqn:E2; [|done].
  injection E as <- <-. apply (onBalance_frames _ (bhSetBalance_calm addr 0) s1 u s2) in E2; [by destruct E2|by destruct Hs|done].
Qed.
Lemma Exist_frames addr : frames (sdbExist addr).
Proof.
  intros s b s' Hs Hc. unfold sdbExist. destruct (bool_decide _); [by intros [= <- <-]|].
  apply (account_frames addr _ (fun a => balance_frames addr (fun x => negb (IsEmpty a) || (0 <? x)) false)); done.
Qed.
Lemma Empty_frames addr : frames (sdbEmpty addr).
Proof. exact (account_frames addr _ (fun a => balance_frames addr (fun x => IsEmpty a && (x =? 0)) false)). Qed.
Lemma update_frames addr (f : EthAccount -> EthAccount) : frames (fun s => '(a, s) ← getEthAccount addr s; putEthAccount addr (f a) s).
Proof. apply account_frames. intros a. apply putEthAccount_frames. Qed.
Lemma code_frames addr : frames (sdbGetCode addr).
Proof. apply account_frames. intros a. apply frames_ret. Qed.
Lemma pure_frames {A} (m : StorageDB D -> option (A * StorageDB D)) :
  (forall s a s', m s = Some (a, s') -> framed s s') -> frames m.
Proof. intros Hm s a s' _ _. apply Hm. Qed.

Lemma sdbGetNonce_calm addr s : storage_ok s -> calm (backend (cacheDB s)) -> exists n, sdbGetNonce addr s = Some (n, s).
Proof.
  intros Hs Hc. unfold sdbGetNonce, getEthAccount. pose proof (GetEthAccount_total addr _ (st_cache _ Hs)) as Ht.
  destruct (GetEthAccount addr (cacheDB s)) as [[r c]|] eqn:E; [|done].
  destruct (GetEthAccount_calm _ _ _ _ (st_cache _ Hs) Hc E) as [-> [a ->]]. exists (Nonce a). by destruct s.
Qed.

(** ** The interface, with what stays *)
Context (keccak : bytes -> Hash) (Hkeccak : forall b, is_hash (keccak b)).
Context (s0 : StorageDB D) (Hcalm : calm (backend (cacheDB s0))).
Definition calm_ok (s : StorageDB D) : Prop := storage_ok s /\ framed s0 s.
Lemma calm_method {A} w (P : A -> Prop) m : method storage_ok same_world_db saved_db w P m -> frames m ->
  method calm_ok same_world_db saved_db w P m.
Proof.
  intros Hm Hf s a s' [Hs Hfr] E. destruct (Hm _ _ _ Hs E) as (Hs' & HP & Hk & Hw). split_and!; try done.
  split; [done|]. etrans; [exact Hfr|]. apply (Hf s a s'); [done| |done]. by rewrite (fr_backend _ _ Hfr).
Qed.
Definition calm_spec : @StateDBSpec (StorageDB D) (storage_StateDB keccak).
Proof.
  pose (spec := storage_spec (D := D) keccak Hkeccak).
  refine {| db_ok := calm_ok; same_world := same_world_db; saved := saved_db; same_world_equiv := @same_world_equiv _ _ spec |}.
  - intros a. apply calm_method; [apply (@CreateAccount_spec _ _ spec) | apply frames_ret].
  - intros a s s1 s2 u [Hs _]. by apply (@CreateAccount_fresh _ _ spec).
  - intros a v. apply calm_method; [apply (@SubBalance_spec _ _ spec)|]. apply onBalance_frames. intros c e c'. apply modBalance_calm.
  - intros a v. apply calm_method; [apply (@AddBalance_spec _ _ spec)|]. apply onBalance_frames. intros c e c'. apply modBalance_calm.
  - intros a. apply calm_method; [apply (@AddBalance_zero _ _ spec)|]. apply onBalance_frames. intros c e c'. apply modBalance_calm.
  - intros a. apply calm_method; [apply (@SubBalance_zero _ _ spec)|]. apply onBalance_frames. intros c e c'. apply modBalance_calm.
  - intros a. apply calm_method; [apply (@GetBalance_spec _ _ spec)|]. exact (balance_frames a (fun b => b) 0).
  - intros a. apply calm_method; [apply (@GetNonce_spec _ _ spec)|]. apply account_frames. intros x. apply frames_ret.
  - intros a n Hn. apply calm_method; [by apply (@SetNonce_spec _ _ spec)|]. exact (update_frames a (fun x => mkAccount n _ _ _)).
  - intros a. apply calm_method; [apply (@GetCodeHash_spec _ _ spec)|]. apply account_frames. intros x. apply frames_ret.
  - intros a. apply calm_method; [apply (@GetCode_spec _ _ spec)|]. apply code_frames.
  - intros a b Hb. apply calm_method; [by apply (@SetCode_spec _ _ spec)|]. exact (update_frames a (fun x => mkAccount _ _ b _)).
  - intros a. apply calm_method; [apply (@GetCodeSize_spec _ _ spec)|].
    eapply frames_bind; [apply GetCode_kept | apply code_frames | intros b; apply frames_ret].
  - intros g Hg. apply calm_method; [by apply (@AddRefund_spec _ _ spec)|]. apply pure_frames. by intros s u s' [= <- <-].
  - intros g Hg. apply calm_method; [by apply (@SubRefund_spec _ _ spec)|]. apply pure_frames. intros s u s'. cbn. unfold sdbSubRefund.
    destruct (_ <? _); [done|]. by intros [= <- <-].
  - apply calm_method; [apply (@GetRefund_spec _ _ spec)|]. apply pure_frames. by intros s u s' [= <- <-].
  - intros s r s1 r' s2 [Hs _]. by apply (@GetRefund_again _ _ spec).
  - intros a k. apply calm_method; [apply (@GetCommittedState_spec _ _ spec) | apply committed_frames].
  - intros a k. apply calm_method; [apply (@GetState_spec _ _ spec) | apply slot_frames].
  - intros a k v Hv. apply calm_method; [by apply (@SetState_spec _ _ spec)|]. apply pure_frames. by intros s u s' [= <- <-].
  - intros a. apply calm_method; [apply (@Suicide_spec _ _ spec) | apply Suicide_frames].
  - intros a. apply calm_method; [apply (@HasSuicided_spec _ _ spec)|]. apply pure_frames. by intros s u s' [= <- <-].
  - intros a. apply calm_method; [apply (@Exist_spec _ _ spec) | apply Exist_frames].
  - intros a. apply calm_method; [apply (@Empty_spec _ _ spec) | apply Empty_frames].
  - intros l. apply calm_method; [apply (@AddLog_spec _ _ spec)|]. apply pure_frames. by intros s u s' [= <- <-].
  - intros h b. apply calm_method; [apply (@AddPreimage_spec _ _ spec)|]. apply pure_frames. by intros s u s' [= <- <-].
  - intros s id s' [Hs Hf] E. destruct (@Snapshot_spec _ _ spec s id s' Hs E) as (Hs' & Hw & Hsv & Hk).
    split_and!; try done. split; [done|]. etrans; [exact Hf|]. by injection E as _ <-.
  - intros id s u s' [Hs Hf] E. destruct (@RevertToSnapshot_spec _ _ spec id s u s' Hs E) as [Hs' Hsv].
    split; [|done]. split; [done|]. etrans; [exact Hf|]. cbn in E. unfold sdbRevertToSnapshot in E.
    destruct (_ <? _); [done|]. destruct (_ <? _); [done|]. destruct (snapshots s !! _); [|done]. by injection E as _ <-.
Defined.
End Calm.
