(* ===== verification/Executor.v ===== *)
(** * Transaction execution

    src/executor: evm.go (balance transfers, block and transaction contexts),
    state_transition.go (buying gas, the nonce check, intrinsic gas, the
    message, the refund) and [NewExecutionResult] / [DecodeRevert] of
    src/types.go.

    A [*big.Int] is a [Z]; where the code goes on using an integer it has
    changed in place through another name ([buyGas]), the model uses the
    changed value. *)

From S2P Require Import Prelude Words Uint256 Params Config Stack Memory Opcodes Analysis State GasTable.
From S2P Require Import Instructions JumpTable Evm Interpreter.

(** ** Messages *)
Record Transaction := mkTransaction {
  txFrom : Address;
  txTo : option Address;
  txInput : bytes;
  txGasPrice : Z;
  txGas : Z;
  txValue : option Z;
  txNonce : Z;
}.
Record message := mkMessage {
  from : Address;
  to : option Address;
  gasPrice : Z;
  msgGas : Z;
  msgValue : Z;
  msgNonce : Z;
  checkNonce : bool;
  data : bytes;
}.
Definition MessageFromTx (tx : Transaction) (check : bool) : message :=
  mkMessage (txFrom tx) (txTo tx) (txGasPrice tx) (txGas tx) (default 0 (txValue tx)) (txNonce tx) check (txInput tx).

(** ** Intrinsic gas *)
Definition count_nonzero (data : bytes) : Z := foldl (fun nz b => if b =? 0 then nz else add64 nz 1) 0 data.
(** One overflow check and addition: [n] more bytes at [price] each. *)
Definition addDataGas (gas price n : Z) : outcome Z :=
  if sub64 MaxUint64 gas / price <? n then Panic else Ret (add64 gas (mul64 n price)).
Definition IntrinsicGas (data : bytes) (contractCreation isHomestead isEIP2028 : bool) : outcome Z :=
  let gas := if contractCreation && isHomestead then TxGasContractCreation else TxGas in
  if 0 <? len data then
    let nz := count_nonzero data in
    let nonZeroGas := if isEIP2028 then TxDataNonZeroGasEIP2028 else TxDataNonZeroGasFrontier in
    gas ← addDataGas gas nonZeroGas nz;
    addDataGas gas TxDataZeroGas (sub64 (u64 (len data)) nz)
  else Ret gas.

(** ** Results *)
Inductive exec_error :=
| ErrNonceTooLow | ErrNonceTooHigh | ErrInsufficientFundsForTransfer | ErrIntrinsicGas
| VMError (e : error).
Inductive revert_reason := NoReason | ErrorText | Reason (text : bytes).
Record ExecutionResult := mkResult {
  UsedGas : Z;
  Err : option exec_error;
  ReturnData : bytes;
  RevertReason : revert_reason;
}.
Definition Failed (r : ExecutionResult) : bool := bool_decide (Err r <> None).
Definition Return (r : ExecutionResult) : bytes := match Err r with Some _ => [] | None => ReturnData r end.
Definition Revert (r : ExecutionResult) : bytes :=
  match Err r with Some (VMError ErrExecutionReverted) => ReturnData r | _ => [] end.

(** [readLength]: [None] is an error. *)
Definition readLength (data : bytes) : outcome (option Z) :=
  if negb (slice_ok 0 32 data) then Panic
  else
    let lengthBig := be_val (slice 0 32 data) in
    if 2 ^ 63 <=? lengthBig then Ret None
    else if len data <? lengthBig then Ret None
    else Ret (Some lengthBig).
(** The selector of [Error(string)]. *)
Definition revertSelector : bytes := [0x08; 0xc3; 0x79; 0xa0].
(** [spare]: the bytes between the length and the capacity of the slice, which
    [data[32:32+length]] may reach into. *)
Definition DecodeRevert (ret spare : bytes) : outcome (option bytes) :=
  if (68 <=? len ret) && bool_decide (slice 0 4 ret = revertSelector) then
    let data := drop 36 ret in
    length ← readLength data;
    match length with
    | None => Panic
    | Some length =>
        if slice_ok 32 (32 + length) (data ++ spare) then Ret (Some (slice 32 (32 + length) (data ++ spare)))
        else Panic
    end
  else Ret None.
Definition NewExecutionResult (usedGas : Z) (err : option exec_error) (ret spare : bytes) : outcome ExecutionResult :=
  match err with
  | None => Ret (mkResult usedGas err ret NoReason)
  | Some _ =>
      r ← DecodeRevert ret spare;
      Ret (mkResult usedGas err ret (match r with Some text => Reason text | None => ErrorText end))
  end.

(** ** The transition *)
Record StateTransition := mkTransition { stGas : Z; initialGas : Z }.
Definition gasUsed (st : StateTransition) : Z := sub64 (initialGas st) (stGas st).

(** [big.Int.Div] (Euclidean) and [big.Int.Uint64]. *)
Definition bigDiv (x y : Z) : Z := Z.sgn y * (x / Z.abs y).
Definition bigUint64 (x : Z) : Z := Z.abs x mod W.

Section Transfers.
Context {S : Type} `{StateDB S}.
Definition CanTransfer_ (addr : Address) (amount : Z) (s : S) : option (bool * S) :=
  '(b, s) ← GetBalance addr s; Some (amount <=? b, s).
Definition Transfer_ (sender recipient : Address) (amount : Z) (s : S) : option (() * S) :=
  '(_, s) ← SubBalance sender amount s; AddBalance recipient amount s.
End Transfers.

Section Transition.
Context {S : Type} `{StateDB S}.
Context (env : Env S) (config : ChainConfig).
(** The EVM's interpreter. *)
Context (Run : Contract -> bytes -> bool -> M (EVM S) (bytes * option error * Contract)).
Context (msg : message) (GasReceiver : Address).

(** When the sender cannot pay the whole limit, [mgval] is the balance
    [have], which [have.Div(have, gasPrice)] then overwrites: both the gas
    and the amount charged are the quotient. *)
Definition buyGas (st : StateTransition) : M (EVM S) StateTransition :=
  let gas := msgGas msg in
  let mgval := gas * gasPrice msg in
  have ← db (GetBalance (from msg));
  '(mgval, gas) ←
    (if have <? mgval then
       if gasPrice msg =? 0 then panic
       else let q := bigDiv have (gasPrice msg) in mret (q, bigUint64 q)
     else mret (mgval, gas));
  _ ← db (SubBalance (from msg) mgval);
  mret (mkTransition (add64 (stGas st) gas) gas).

Definition preCheck (st : StateTransition) : M (EVM S) (StateTransition + exec_error) :=
  err ←
    (if checkNonce msg then
       stNonce ← db (GetNonce (from msg));
       mret (if stNonce <? msgNonce msg then Some ErrNonceTooHigh
             else if msgNonce msg <? stNonce then Some ErrNonceTooLow else None)
     else mret None);
  match err with
  | Some e => mret (inr e)
  | None => st ← buyGas st; mret (inl st)
  end.

Definition refundGas (st : StateTransition) : M (EVM S) StateTransition :=
  let refund := gasUsed st / 2 in
  r ← db GetRefund;
  refund ← (if r <? refund then db GetRefund else mret refund);
  let st := mkTransition (add64 (stGas st) refund) (initialGas st) in
  _ ← db (AddBalance (from msg) (stGas st * gasPrice msg));
  mret st.

(** [SetNonce(from, GetNonce(from) + 1)] *)
Definition bumpNonce : M (EVM S) () :=
  n ← db (GetNonce (from msg)); db (SetNonce (from msg) (add64 n 1)).

Definition vmErr (err : option error) : option exec_error := VMError <$> err.

(** The message proper: creation or call. *)
Definition execMessage (gas : Z) : M (EVM S) (bytes * Z * option exec_error) :=
  match to msg with
  | None =>
      '(ret, _, gas, err) ← Create env Run (AccountRef (from msg)) (data msg) gas (msgValue msg);
      mret (ret, gas, vmErr err)
  | Some addr =>
      _ ← bumpNonce;
      '(ret, gas, err) ← Call env Run (AccountRef (from msg)) addr (data msg) gas (msgValue msg);
      mret (match ret with Fresh b => b | InputSlice => data msg end, gas, vmErr err)
  end.

(** Clauses 4 to 6: the intrinsic gas, and whether the message may run. *)
Definition intrinsic (st : StateTransition) : M (EVM S) (Z * option exec_error) :=
  let homestead := IsHomestead config (Some (BlockNumber env)) in
  let istanbul := IsIstanbul config (Some (BlockNumber env)) in
  gas ← lift (IntrinsicGas (data msg) (bool_decide (to msg = None)) homestead istanbul);
  if stGas st <? gas then mret (stGas st, Some ErrIntrinsicGas)
  else if Z.sgn (msgValue msg) =? 1 then
    ok ← db (CanTransfer env (from msg) (msgValue msg));
    mret (gas, if ok : bool then None else Some ErrInsufficientFundsForTransfer)
  else mret (gas, None).

(** The middle of [TransitionDb]: charge the intrinsic gas and run the
    message, or only count the nonce.  The data, the gas left, the error. *)
Definition deliver (st : StateTransition) : M (EVM S) (bytes * Z * option exec_error) :=
  '(gas, vmerr) ← intrinsic st;
  let rest := sub64 (stGas st) gas in
  match vmerr with
  | None => execMessage rest
  | Some _ => _ ← bumpNonce; mret ([], rest, vmerr)
  end.
(** [TransitionDb] up to its result: the gas used, the error and the data. *)
Definition applyMsg : M (EVM S) (Z * option exec_error * bytes + exec_error) :=
  r ← preCheck (mkTransition 0 0);
  match r with
  | inr e => mret (inr e)
  | inl st =>
      '(ret, rest, vmerr) ← deliver st;
      st ← refundGas (mkTransition rest (initialGas st));
      _ ← db (AddBalance GasReceiver (gasUsed st * gasPrice msg));
      mret (inl (gasUsed st, vmerr, ret))
  end.
(** [spare]: the bytes behind the returned slice (see [DecodeRevert]). *)
Definition TransitionDb (spare : bytes -> bytes) : M (EVM S) (ExecutionResult + exec_error) :=
  r ← applyMsg;
  match r with
  | inr e => mret (inr e)
  | inl (used, vmerr, ret) => res ← lift (NewExecutionResult used vmerr ret (spare ret)); mret (inl res)
  end.
End Transition.

(** ** Contexts *)
Record BlockContext (S : Type) := mkBlockContext {
  bcCanTransfer : Address -> Z -> S -> option (bool * S);
  bcTransfer : Address -> Address -> Z -> S -> option (() * S);
  bcGetHash : Z -> Hash;
  bcCoinbase : Address;
  bcGasLimit : Z;
  bcBlockNumber : Z;
  bcTime : Z;
  bcDifficulty : Z;
}.
Arguments mkBlockContext {S}. Arguments bcCanTransfer {S}. Arguments bcTransfer {S}. Arguments bcGetHash {S}.
Arguments bcCoinbase {S}. Arguments bcGasLimit {S}. Arguments bcBlockNumber {S}. Arguments bcTime {S}.
Arguments bcDifficulty {S}.
Record TxContext := mkTxContext { tcOrigin : Address; tcGasPrice : Z }.
(** The fields of [evm.Config] the EVM reads. *)
Record EvmConfig := mkEvmConfig { cfgNoRecursion : bool; cfgEnablePreimageRecording : bool; ExtraEips : list Z }.

Section Contexts.
Context {S : Type} `{StateDB S}.
Definition NewEVMBlockContext (height timestamp : Z) (hashFn : Z -> Hash) : BlockContext S :=
  mkBlockContext CanTransfer_ Transfer_ hashFn zero_address MaxUint64 (to_int64 height) (to_int64 timestamp) 0.
Definition NewEVMTxContext (msg : message) : TxContext := mkTxContext (from msg) (gasPrice msg).

(** What lies outside: the precompiled contracts for some rules, Keccak-256,
    [crypto.CreateAddress], and the abort flag. *)
Record Outside := mkOutside {
  oPrecompile : Rules -> Address -> option PrecompiledContract;
  oKeccak256 : bytes -> Hash;
  oCreateAddress : Address -> Z -> Address;
  oAbort : nat -> bool;
}.
(** [NewEVM], and [Reset] which replaces the transaction context. *)
Definition evm_env (o : Outside) (b : BlockContext S) (t : TxContext) (config : ChainConfig) (cfg : EvmConfig) : Env S :=
  let rules := RulesAt config (Some (bcBlockNumber b)) in
  mkEnv S (bcCanTransfer b) (bcTransfer b) (bcGetHash b) (bcCoinbase b) (bcGasLimit b) (bcBlockNumber b) (bcTime b)
    (bcDifficulty b) (tcOrigin t) (tcGasPrice t) (ChainID config) rules
    (cfgNoRecursion cfg) (cfgEnablePreimageRecording cfg) (oPrecompile o rules) (oKeccak256 o) (oCreateAddress o)
    (oAbort o).
Definition NewEVM (b : BlockContext S) (statedb : S) (config : ChainConfig) (cfg : EvmConfig)
  : outcome (JumpTable S * EVM S) :=
  jt ← NewEVMInterpreter (RulesAt config (Some (bcBlockNumber b))) (ExtraEips cfg);
  Ret (jt, mkEVM statedb 0 0 false [] ∅ 0).
Definition Reset (statedb : S) (e : EVM S) : EVM S := set_statedb statedb e.

Definition ApplyMessage (env : Env S) (config : ChainConfig) (jt : JumpTable S) (fuel : nat) (msg : message)
  (feeReceiver : Address) (spare : bytes -> bytes) : M (EVM S) (ExecutionResult + exec_error) :=
  TransitionDb env config (Run env jt fuel) msg feeReceiver spare.
End Contexts.
