(* ===== verification/ExecutorFacts.v ===== *)
(** * Facts about transaction execution

    Intrinsic gas in closed form, the environment a transaction runs in, and
    the gas accounting of a message: what is bought, what is used, what is
    given back. *)

From S2P Require Import Prelude Words Uint256 Uint256Arith Params Config Stack Memory Opcodes Analysis State.
From S2P Require Import GasTable Instructions JumpTable Evm Interpreter Invariants InstrSafety GasSafety.
From S2P Require Import StepSafety TableSafety Safety Executor.

(** ** Intrinsic gas *)
Definition nonzero (data : bytes) : Z := Z.of_nat (length (filter (fun b => b <> 0) data)).
Definition intrinsic_cost (data : bytes) (contractCreation isHomestead isEIP2028 : bool) : Z :=
  (if contractCreation && isHomestead then 53000 else 21000)
  + (if isEIP2028 then 16 else 68) * nonzero data + 4 * (len data - nonzero data).

Lemma nonzero_bound data : 0 <= nonzero data <= len data.
Proof. unfold nonzero, len. pose proof (length_filter (fun b : Z => b <> 0) data). lia. Qed.
Lemma intrinsic_cost_pos data c h e : 0 < intrinsic_cost data c h e.
Proof. pose proof (nonzero_bound data). unfold intrinsic_cost. destruct (c && h), e; lia. Qed.
Lemma count_nonzero_ok data : len data < W -> count_nonzero data = nonzero data.
Proof.
  unfold count_nonzero. intros Hl.
  assert (E : forall l acc, 0 <= acc -> acc + len l < W ->
    foldl (fun nz b => if b =? 0 then nz else add64 nz 1) acc l = acc + nonzero l).
  { induction l as [|b l IH]; intros acc Ha Hb; [unfold nonzero; simpl; lia|].
    unfold len in *. cbn [length] in Hb. cbn [foldl]. unfold nonzero. rewrite filter_cons.
    destruct (Z.eqb_spec b 0) as [->|Hne].
    - rewrite decide_False by tauto. apply IH; lia.
    - rewrite decide_True by done. rewrite add64_nowrap by (unfold is_u64 in *; lia).
      rewrite IH by lia. cbn [length]. unfold nonzero. lia. }
  rewrite E by (unfold len in *; lia). lia.
Qed.
Lemma addDataGas_ok gas price n : is_u64 gas -> 0 < price -> is_u64 n -> gas + n * price < W ->
  addDataGas gas price n = Ret (gas + n * price).
Proof.
  intros Hg Hp Hn Hb. unfold addDataGas.
  assert (0 <= n * price) by (unfold is_u64 in *; nia).
  rewrite sub64_nowrap by (unfold is_u64, MaxUint64 in *; lia).
  destruct (Z.ltb_spec ((MaxUint64 - gas) / price) n) as [Hlt|_].
  - exfalso. assert (n <= (MaxUint64 - gas) / price); [|lia].
    apply Z.div_le_lower_bound; [lia|]. unfold MaxUint64 in *. lia.
  - rewrite mul64_nowrap by (unfold is_u64 in *; lia).
    by rewrite add64_nowrap by (unfold is_u64 in *; lia).
Qed.
(** The largest message for which the uint64 sum cannot overflow in any fork. *)
Definition max_data : Z := 0x200000000000000.
Lemma IntrinsicGas_ok data c h e : len data <= max_data ->
  IntrinsicGas data c h e = Ret (intrinsic_cost data c h e).
Proof.
  intros Hl. pose proof (nonzero_bound data). unfold max_data in Hl. unfold IntrinsicGas, intrinsic_cost.
  destruct (Z.ltb_spec 0 (len data)).
  - rewrite count_nonzero_ok by lia. rewrite u64_small by (unfold is_u64; lia).
    rewrite sub64_nowrap by (unfold is_u64; lia).
    unfold TxGasContractCreation, TxGas, TxDataNonZeroGasEIP2028, TxDataNonZeroGasFrontier, TxDataZeroGas.
    rewrite addDataGas_ok; [|destruct (c && h); unfold is_u64; lia|destruct e; lia|unfold is_u64; lia
      |destruct (c && h), e; lia].
    cbn [mbind outcome_bind].
    rewrite addDataGas_ok; [|destruct (c && h), e; unfold is_u64; lia|lia|unfold is_u64; lia
      |destruct (c && h), e; lia].
    f_equal. destruct (c && h), e; lia.
  - assert (E : len data = 0) by lia. rewrite E in *. unfold TxGasContractCreation, TxGas.
    f_equal. destruct (c && h), e; lia.
Qed.

(** ** The environment *)
Section Compose.
Context {S : Type} `{StateDBSpec S}.
Lemma db_method_bind {A B} w (P : A -> Prop) (Q : B -> Prop) (m : S -> option (A * S)) (k : A -> S -> option (B * S)) :
  db_method w P m -> (forall a, P a -> db_method w Q (k a)) ->
  db_method w Q (fun s => '(a, s) ← m s; k a s).
Proof.
  intros Hm Hk s b s' Hs E. destruct (m s) as [[a s1]|] eqn:E1; [|done]. cbn in E.
  destruct (Hm _ _ _ Hs E1) as (Hs1 & HP & Hk1 & Hw1). destruct (Hk a HP _ _ _ Hs1 E) as (Hs' & HQ & Hk2 & Hw2).
  split_and!; [done|done|by intros j s0 Hj; apply Hk2, Hk1|]. intros Ew. etrans; auto.
Qed.
Lemma db_method_ret {A} w (P : A -> Prop) a : P a -> db_method w P (fun s : S => Some (a, s)).
Proof. intros HP s b s' Hs [= <- <-]. split_and!; [done|done|by intros j s0|]. intros _. reflexivity. Qed.
Lemma CanTransfer_spec a v : db_method false any (CanTransfer_ (S := S) a v).
Proof. eapply db_method_bind; [apply GetBalance_spec|]. intros b _. by apply db_method_ret. Qed.
Lemma Transfer_spec a b v : db_method true any (Transfer_ (S := S) a b v).
Proof. eapply db_method_bind; [apply SubBalance_spec|]. intros _ _. apply AddBalance_spec. Qed.
Lemma Transfer_zero a b : db_method false any (Transfer_ (S := S) a b 0).
Proof. eapply db_method_bind; [apply SubBalance_zero|]. intros _ _. apply AddBalance_zero. Qed.

(** What the environment's outside parts are asked for. *)
Record outside_ok (o : Outside) : Prop := {
  out_keccak b : is_hash (oKeccak256 o b);
  out_create a n : is_address (oCreateAddress o a n);
  out_price r a p b g : oPrecompile o r a = Some p -> is_slice b -> RequiredGas p b = Some g -> is_u64 g;
  out_data r a p b d err : oPrecompile o r a = Some p -> is_slice b -> RunP p b = Some (Fresh d, err) -> is_slice d;
}.
Lemma evm_env_ok o height timestamp hashFn msg config cfg :
  outside_ok o -> (forall n, is_hash (hashFn n)) -> is_address (from msg) -> ChainID config <> None ->
  @env_ok S _ _ (IsByzantium config (Some (to_int64 height)))
    (evm_env o (NewEVMBlockContext height timestamp hashFn) (NewEVMTxContext msg) config cfg).
Proof.
  intros [] Hh Hf Hc.
  split; cbn; try done; eauto using CanTransfer_spec, Transfer_spec, Transfer_zero, zero_address_ok.
Qed.
End Compose.

(** ** Gas accounting of a message *)
Section Accounting.
Context {S : Type} `{StateDBSpec S} `{Mode}.
Context (env : Env S) (Henv : env_ok env) (config : ChainConfig).
Context (jt : JumpTable S) (Hjt : good frontier_keys jt) (fuel : nat).
Context (msg : message) (GasReceiver : Address).
Abbreviation Run := (Run env jt fuel).

Record msg_ok : Prop := {
  m_from : is_address (from msg);
  m_to a : to msg = Some a -> is_address a;
  m_gas : 0 <= msgGas msg < Z.min (Z.of_nat fuel) W;
  m_price : 0 <= gasPrice msg;
  m_data : bytes_ok (data msg);
  m_len : len (data msg) <= max_data;
}.

(** What the sender pays for how much gas, given the balance. *)
Definition purchase (have : Z) : Z * Z :=
  if have <? msgGas msg * gasPrice msg then (have / gasPrice msg, have / gasPrice msg)
  else (msgGas msg * gasPrice msg, msgGas msg).

(** [m] turned the database of [e] into [s]. *)
Lemma wp_db_eq {A} w (m : S -> option (A * S)) (P : A -> Prop) e (Q : A -> EVM S -> Prop) :
  db_method w P m -> evm_ok e -> static e = false ->
  (forall a s, P a -> m (statedb e) = Some (a, s) -> evm_step e (set_statedb s e) -> Q a (set_statedb s e)) ->
  wp (db m) Q e.
Proof.
  intros Hm He Hs HQ. unfold wp, db. destruct (m (statedb e)) as [[a s]|] eqn:E; [|done].
  destruct (Hm _ _ _ (e_db _ He) E) as (? & ? & ? & _). apply HQ; [done..|].
  apply evm_step_statedb; [done..|]. split; [done|]. by rewrite Hs.
Qed.

(** A read-only method, with the equation of its result. *)
Lemma wp_db_reads {A} (m : S -> option (A * S)) (P : A -> Prop) e0 e (Q : A -> EVM S -> Prop) :
  db_method false P m -> quiet e0 e ->
  (forall a s, P a -> m (statedb e) = Some (a, s) -> quiet e0 (set_statedb s e) -> Q a (set_statedb s e)) -> wp (db m) Q e.
Proof.
  intros Hm Hq HQ. unfold wp, db. destruct (m (statedb e)) as [[a s]|] eqn:E; [|done].
  destruct (Hm _ _ _ (e_db _ (s_ok _ _ (proj1 Hq))) E) as (? & ? & ? & Hs). apply HQ; [done..|].
  eapply quiet_trans; [exact Hq|]. split; [|by apply Hs]. apply evm_step_statedb; [apply (s_ok _ _ (proj1 Hq))|done|by split; auto].
Qed.

(** The database after buying gas, before the message. *)
Definition bought (e : EVM S) (paid gas : Z) (e1 : EVM S) : Prop :=
  exists have s0 s1, GetBalance (from msg) s0 = Some (have, s1) /\ same_world (statedb e) s0 /\ (paid, gas) = purchase have /\
    SubBalance (from msg) paid s1 = Some ((), statedb e1).

Context (Hbal : forall a s b s', db_ok s -> GetBalance a s = Some (b, s') -> 0 <= b) (Hmsg : msg_ok).

Lemma purchase_bound have : 0 <= have -> 0 <= (purchase have).2 <= msgGas msg.
Proof.
  intros Hh. destruct Hmsg as [_ _ Hg Hp _ _]. unfold purchase. destruct (Z.ltb_spec have (msgGas msg * gasPrice msg)); cbn; [|lia].
  assert (0 < gasPrice msg) by nia. split; [by apply Z.div_pos|]. apply Z.div_le_upper_bound; lia.
Qed.
Lemma buyGas_ok e e1 : evm_step e e1 -> same_world (statedb e) (statedb e1) -> static e = false ->
  wp (buyGas msg (mkTransition 0 0)) (fun st e2 => evm_step e e2 /\ stGas st = initialGas st /\ 0 <= stGas st <= msgGas msg /\
    exists paid, bought e paid (stGas st) e2) e1.
Proof.
  intros Hs Hw Est. pose proof Hmsg as [_ _ Hg Hp _ _]. unfold buyGas. apply wp_bind.
  assert (Est1 : static e1 = false) by by rewrite (s_ro _ _ Hs).
  eapply wp_db_eq; [apply GetBalance_spec|apply (s_ok _ _ Hs)|done|]. intros have s1 _ E1 Hs1.
  pose proof (Hbal _ _ _ _ (e_db _ (s_ok _ _ Hs)) E1) as Hh. pose proof (purchase_bound have Hh) as Hb.
  apply wp_bind. eapply wp_mono with (P := fun r e2 => r = purchase have /\ e2 = set_statedb s1 e1).
  - intros r e2 [-> ->]. destruct (purchase have) as [paid gas] eqn:Ep. cbn in Hb. apply wp_bind.
    eapply wp_db_eq; [apply SubBalance_spec|apply (s_ok _ _ Hs1)|by rewrite (s_ro _ _ Hs1)|]. intros [] s2 _ E2 Hs2.
    apply wp_ret. cbn [stGas initialGas]. rewrite add64_nowrap by (unfold is_u64; lia). rewrite Z.add_0_l.
    split_and!; [eapply evm_step_trans; [exact Hs|by eapply evm_step_trans]|done|lia|lia|]. exists paid, have, (statedb e1), s1. by cbn in *.
  - unfold purchase in *. destruct (Z.ltb_spec have (msgGas msg * gasPrice msg)); [|by apply wp_ret].
    destruct (Z.eqb_spec (gasPrice msg) 0); [nia|]. apply wp_ret. split; [|done]. cbn in Hb.
    unfold bigDiv, bigUint64. rewrite Z.sgn_pos, Z.abs_eq, Z.mul_1_l by lia. rewrite Z.abs_eq, Z.mod_small by lia. done.
Qed.

Lemma preCheck_ok e : evm_ok e -> static e = false ->
  wp (preCheck msg (mkTransition 0 0)) (fun r e2 => evm_step e e2 /\
    match r with
    | inr _ => checkNonce msg = true /\ same_world (statedb e) (statedb e2)
    | inl st => stGas st = initialGas st /\ 0 <= stGas st <= msgGas msg /\ exists paid, bought e paid (stGas st) e2
    end) e.
Proof.
  intros He Est. unfold preCheck. apply wp_bind.
  eapply wp_mono with (P := fun r e1 => quiet e e1 /\ (r <> None -> checkNonce msg = true)).
  - intros err e1 [[Hs Hw] Hc]. destruct err.
    + apply wp_ret. split; [done|]. split; [by apply Hc|done].
    + apply wp_bind. eapply wp_mono; [|by apply (buyGas_ok e e1)]. intros st e2 ?. by apply wp_ret.
  - destruct (checkNonce msg); [|by apply wp_ret; split; [apply quiet_refl|]]. apply wp_bind.
    eapply wp_db_quiet; [apply GetNonce_spec|by apply quiet_refl|]. intros n e1 _ Hq. by apply wp_ret.
Qed.

Abbreviation cost := (intrinsic_cost (data msg) (bool_decide (to msg = None))
  (IsHomestead config (Some (BlockNumber env))) (IsIstanbul config (Some (BlockNumber env)))).

Lemma bumpNonce_ok e (Q : () -> EVM S -> Prop) : evm_ok e -> static e = false ->
  (forall e2, evm_step e e2 -> Q () e2) -> wp (bumpNonce msg) Q e.
Proof.
  intros He Est HQ. apply wp_bind. eapply wp_db_step; [apply GetNonce_spec|done|done|]. intros n e1 _ Hs1.
  eapply wp_db_step; [apply SetNonce_spec, add64_range|apply (s_ok _ _ Hs1)|by rewrite (s_ro _ _ Hs1)|].
  intros [] e2 _ Hs2. apply HQ. by eapply evm_step_trans.
Qed.
Lemma execMessage_ok gas e : 0 <= gas <= msgGas msg -> evm_ok e -> static e = false ->
  wp (execMessage env Run msg gas) (fun r e2 => evm_step e e2 /\ 0 <= r.1.2 <= gas) e.
Proof.
  intros Hg He Est. destruct Hmsg as [Hf Ht Hgas _ Hd Hl]. unfold execMessage.
  assert (Hsl : is_slice (data msg)) by (split; [done|unfold max_data, max_slice in *; lia]).
  pose proof (calls_of_fuel env Henv jt Hjt fuel) as Hcalls.
  destruct (to msg) as [addr|].
  - apply wp_bind, bumpNonce_ok; [done..|]. intros e1 Hs1. apply wp_bind.
    eapply wp_mono; [|apply (call_ok _ _ Hcalls); try done; try lia; auto; [apply (s_ok _ _ Hs1)|by rewrite (s_ro _ _ Hs1), Est]].
    intros [[ret g] err] e2 (Hs2 & Hg2 & _). apply wp_ret. split; [by eapply evm_step_trans|done].
  - apply wp_bind. eapply wp_mono; [|apply (create_ok _ _ Hcalls); try done; lia].
    intros [[[ret a] g] err] e2 (Hs2 & Hg2 & _). by apply wp_ret.
Qed.

Lemma deliver_ok gas e : 0 <= gas <= msgGas msg -> evm_ok e -> static e = false ->
  wp (deliver env config Run msg (mkTransition gas gas))
     (fun r e2 => evm_step e e2 /\ 0 <= r.1.2 <= gas - Z.min cost gas) e.
Proof.
  intros Hg He Est. pose proof Hmsg as [Hf Ht Hgas _ Hd Hl]. unfold deliver. apply wp_bind.
  pose proof (intrinsic_cost_pos (data msg) (bool_decide (to msg = None))
    (IsHomestead config (Some (BlockNumber env))) (IsIstanbul config (Some (BlockNumber env)))) as Hc.
  eapply wp_mono with (P := fun r e1 => evm_step e e1 /\ r.1 = Z.min cost gas).
  - intros [c vmerr] e1 [Hs1 E]. cbn in E. subst c. assert (Est1 : static e1 = false) by by rewrite (s_ro _ _ Hs1).
    cbn [stGas fst]. rewrite sub64_nowrap by (unfold is_u64; lia). destruct vmerr.
    + apply wp_bind, bumpNonce_ok; [apply (s_ok _ _ Hs1)|done|]. intros e2 Hs2. apply wp_ret.
      split; [by eapply evm_step_trans|]. cbn. lia.
    + eapply wp_mono; [|apply execMessage_ok; [lia|apply (s_ok _ _ Hs1)|done]]. intros r e2 [Hs2 Hr].
      split; [by eapply evm_step_trans|lia].
  - unfold intrinsic. rewrite IntrinsicGas_ok by done. apply wp_bind. eapply wp_lift; [done|]. cbn [stGas].
    destruct (Z.ltb_spec gas cost); [apply wp_ret; split; [by apply evm_step_refl|cbn; lia]|].
    destruct (_ =? 1); [|apply wp_ret; split; [by apply evm_step_refl|cbn; lia]]. apply wp_bind.
    eapply wp_db_step; [apply (env_can _ Henv)|done|done|]. intros ok e1 _ Hs1. apply wp_ret. split; [done|cbn; lia].
Qed.

(** The end of the transition: with [gas] bought, the message run and
    [used] gas charged, the rest goes back to the sender and the charge to
    the receiver. *)
Definition settled (e : EVM S) (used : Z) (vmerr : option exec_error) (ret : bytes) (e' : EVM S) : Prop :=
  exists paid gas e1 rest e2 s2 s3,
    bought e paid gas e1 /\
    deliver env config Run msg (mkTransition gas gas) e1 = Ret ((ret, rest, vmerr), e2) /\
    0 <= used <= gas - rest /\ gas <= msgGas msg /\ Z.min cost gas <= 2 * used /\ same_world (statedb e2) s2 /\
    AddBalance (from msg) ((gas - used) * gasPrice msg) s2 = Some ((), s3) /\
    AddBalance GasReceiver (used * gasPrice msg) s3 = Some ((), statedb e').

Lemma refundGas_ok gas rest e : 0 <= rest <= gas -> is_u64 gas -> evm_ok e -> static e = false ->
  wp (refundGas msg (mkTransition rest gas)) (fun st e2 => evm_step e e2 /\ initialGas st = gas /\
    rest <= stGas st <= gas /\ gas - rest <= 2 * (gas - stGas st) /\
    exists s2, same_world (statedb e) s2 /\ AddBalance (from msg) (stGas st * gasPrice msg) s2 = Some ((), statedb e2)) e.
Proof.
  intros Hr Hg He Est. unfold is_u64 in Hg. unfold refundGas, gasUsed. cbn [stGas initialGas].
  rewrite sub64_nowrap by (unfold is_u64; lia). set (half := (gas - rest) / 2).
  assert (0 <= half /\ 2 * half <= gas - rest) by (unfold half; dlia).
  apply wp_bind, (wp_db_reads _ is_u64 e); [apply GetRefund_spec|by apply quiet_refl|]. intros r s1 Hu1 E1 Hq1. apply wp_bind.
  eapply wp_mono with (P := fun x e2 => quiet e e2 /\ 0 <= x <= half).
  - intros x e2 [Hq2 Hx]. pose proof (proj1 Hq2) as Hs2. apply wp_bind. rewrite add64_nowrap by (unfold is_u64; lia).
    eapply wp_db_eq; [apply AddBalance_spec|apply (s_ok _ _ Hs2)|by rewrite (s_ro _ _ Hs2)|]. intros [] s3 _ E3 Hs3.
    apply wp_ret. cbn [stGas initialGas]. split; [by eapply evm_step_trans|]. split_and!; try lia.
    exists (statedb e2). split; [apply Hq2|done].
  - unfold is_u64 in Hu1. destruct (Z.ltb_spec r half); [|apply wp_ret; split; [done|lia]].
    apply (wp_db_reads _ is_u64 e); [apply GetRefund_spec|done|]. intros r' s2 _ E2 Hq2. split; [done|].
    rewrite (GetRefund_again _ _ _ _ _ (e_db _ He) E1 E2). lia.
Qed.

(** A computation that satisfies a postcondition also satisfies it together
    with the equation of its result. *)
Lemma wp_eqn {St A} (m : M St A) (Q : A -> St -> Prop) s : wp m Q s -> wp m (fun a s' => m s = Ret (a, s') /\ Q a s') s.
Proof. unfold wp. destruct (m s) as [[a s']|[]|]; by try split. Qed.

Definition applied (e : EVM S) (r : Z * option exec_error * bytes + exec_error) (e' : EVM S) : Prop :=
  evm_step e e' /\
  match r with
  | inr _ => checkNonce msg = true /\ same_world (statedb e) (statedb e')
  | inl (used, vmerr, ret) => settled e used vmerr ret e'
  end.
Lemma applyMsg_ok e : evm_ok e -> static e = false ->
  wp (applyMsg env config Run msg GasReceiver) (applied e) e.
Proof.
  intros He Est. unfold applyMsg. apply wp_bind. eapply wp_mono; [|by apply preCheck_ok].
  intros [[g g']|err] e1 [Hs1 Hr]; [|by apply wp_ret]. cbn [stGas initialGas] in *. destruct Hr as (<- & Hg & paid & Hb).
  assert (Hu : is_u64 g) by (destruct Hmsg as [_ _ ? _ _ _]; unfold is_u64; lia).
  assert (Est1 : static e1 = false) by by rewrite (s_ro _ _ Hs1).
  apply wp_bind. eapply wp_mono; [|apply wp_eqn, deliver_ok; [done|apply (s_ok _ _ Hs1)|done]].
  intros [[ret rest] vmerr] e2 (Ed & Hs2 & Hrest). cbn [fst snd] in Hrest.
  assert (Est2 : static e2 = false) by by rewrite (s_ro _ _ Hs2).
  pose proof (intrinsic_cost_pos (data msg) (bool_decide (to msg = None))
    (IsHomestead config (Some (BlockNumber env))) (IsIstanbul config (Some (BlockNumber env)))) as Hc.
  apply wp_bind. eapply wp_mono; [|apply (refundGas_ok g rest); [lia|done|apply (s_ok _ _ Hs2)|done]].
  intros [x y] e3 (Hs3 & Ey & Hx & Hhalf & s2 & Hw & E3). cbn [stGas initialGas] in *. subst y.
  assert (Eu : gasUsed (mkTransition x g) = g - x) by (unfold gasUsed; cbn; rewrite sub64_nowrap; unfold is_u64 in *; lia).
  rewrite Eu. apply wp_bind.
  eapply wp_db_eq; [apply AddBalance_spec|apply (s_ok _ _ Hs3)|by rewrite (s_ro _ _ Hs3)|]. intros [] s4 _ E4 Hs4.
  apply wp_ret. split; [do 3 (eapply evm_step_trans; [eassumption|]); done|]. exists paid, g, e1, rest, e2, s2, (statedb e3).
  replace (g - (g - x)) with x by lia. split_and!; try done; lia.
Qed.
End Accounting.
