(* ===== verification/World.v ===== *)
(** * A concrete world

    A small chain the general theorems are applied to: a store with one funded
    account and one contract, a stand-in hash function, no precompiled
    contracts.  Everything evaluates. *)

From S2P Require Import Prelude Words Uint256 Uint256Arith Uint256Div Uint256Bits Params Config Stack Memory.
From S2P Require Import Opcodes Analysis State GasTable Instructions JumpTable Evm Interpreter Invariants.
From S2P Require Import InstrSafety GasSafety StepSafety TableSafety Safety Codec Storage StorageFacts.
From S2P Require Import Executor ExecutorFacts.

Definition Table : Type := gmap (list Z) (list Z).
(** A stand-in for Keccak-256: never zero. *)
Definition hash0 (b : bytes) : Hash := 128 :: be_bytes 31 (be_val b).
Definition addr0 (n : Z) : Address := be_bytes 20 n.
Definition alice : Address := addr0 0xa11ce.
Definition bob : Address := addr0 0xb0b.
(** [PUSH1 7; PUSH1 0; SSTORE; STOP] and [PUSH1 0; PUSH1 0; REVERT]. *)
Definition storeCode : bytes := [0x60; 7; 0x60; 0; 0x55; 0x00].
Definition revertCode : bytes := [0x60; 0; 0x60; 0; 0xfd].
Definition storer : Address := addr0 0xc0de.
Definition reverter : Address := addr0 0xdead.

(** The account an address has in the store. *)
Definition account0 (a : Address) : bytes :=
  let code := if bool_decide (a = storer) then storeCode else if bool_decide (a = reverter) then revertCode else [] in
  account_bytes 0 (of_Z (if bool_decide (a = alice) then 10 ^ 18 else 0)) code (hash0 code).
Definition store0 (k : bytes) : store_result :=
  match k with
  | p :: a => if p =? ST_ETH_ACCOUNT then Found (account0 a) else StoreNotFound
  | [] => StoreNotFound
  end.
Definition state0 : StorageDB Table := NewStateDB (mkCache ∅ (mkOverlay store0 ∅ None)) zero_hash zero_hash.

#[export] Instance world_db : StateDB (StorageDB Table) := storage_StateDB hash0.
Lemma is_hash0 b : is_hash (hash0 b).
Proof. split; [constructor; [done|apply be_bytes_ok]|cbn [hash0 length]; by rewrite length_be_bytes]. Qed.
Lemma hash0_nonzero b : hash0 b <> zero_hash.
Proof. done. Qed.
Lemma is_addr0 n : is_address (addr0 n).
Proof. split; [apply be_bytes_ok|apply length_be_bytes]. Qed.
#[export] Instance world_spec : StateDBSpec (StorageDB Table) := storage_spec hash0 is_hash0.

Definition outside0 : Outside := mkOutside (fun _ _ => None) hash0 (fun a n => addr0 (be_val a + n)) (fun _ => false).
Lemma outside0_ok : outside_ok outside0.
Proof. split; cbn; try done; intros; [apply is_hash0|apply is_addr0]. Qed.

Definition config0 : ChainConfig := GetChainConfig 1234.
Definition evmConfig0 : EvmConfig := mkEvmConfig false false [].
Definition msg0 (dst : option Address) (gas price value : Z) : message := mkMessage alice dst price gas value 0 false [].
Definition env0 (m : message) : Env (StorageDB Table) :=
  evm_env outside0 (NewEVMBlockContext 100 1600000000 (fun n => hash0 [n mod 256])) (NewEVMTxContext m) config0 evmConfig0.
Definition evm0 : EVM (StorageDB Table) := mkEVM state0 0 0 false [] ∅ 0.
#[export] Instance mode0 : Mode := true.


(** A literal code is a slice. *)
Lemma slice_lit (b : bytes) :
  forallb (fun x => (0 <=? x) && (x <? 256)) b && (len b <=? max_slice) = true -> is_slice b.
Proof.
  intros [Hb Hl]%andb_prop. split; [|by apply Z.leb_le]. apply list.Forall_forall. intros x Hx.
  rewrite forallb_forall in Hb. apply list_elem_of_In in Hx. specialize (Hb x Hx). unfold is_byte. lia.
Qed.
Lemma account0_ok a : exists n b code h, account0 a = account_bytes n b code h /\
  account_ok (mkAccount n (Some b) code h) /\ IsEmpty (mkAccount n (Some b) code h) = false.
Proof.
  unfold account0. set (code := if bool_decide (a = storer) then _ else _). set (bal := if bool_decide (a = alice) then _ else _).
  exists 0, (of_Z bal), code, (hash0 code). split_and!; [done| |].
  - split; cbn; [done|intros b [= <-]; apply of_Z_ok| |apply is_hash0].
    unfold code. destruct (bool_decide (a = storer)); [|destruct (bool_decide (a = reverter))]; by apply slice_lit.
  - unfold IsEmpty. cbn [acctCodeHash Nonce]. by rewrite bool_decide_eq_false_2 by apply hash0_nonzero.
Qed.
Lemma state0_ok : storage_ok state0.
Proof.
  split; [split|..]; try done. cbn. intros [|p a] v; [done|]. cbn. destruct (Z.eqb_spec p ST_ETH_ACCOUNT) as [->|]; [|done].
  intros [= <-]. right. apply account0_ok.
Qed.
Lemma evm0_ok : evm_ok evm0.
Proof. split; try done. apply state0_ok. Qed.
Lemma env0_ok m : from m = alice -> env_ok (env0 m).
Proof. 
  intros E.
  refine (evm_env_ok outside0 100 1600000000 (fun n => hash0 [n mod 256]) m config0 evmConfig0 outside0_ok _ _ _);
    [intros; apply is_hash0|rewrite E; apply is_addr0|done].
 Qed.

(** The table of the Istanbul rules. *)
Definition msg0' : message := msg0 None 0 0 0.
Definition table0 : JumpTable (StorageDB Table) :=
  match newIstanbulInstructionSet with Ret jt => jt | _ => ∅ end.
Lemma table0_built : NewEVMInterpreter (chainRules (env0 msg0')) [] = Ret table0.
Proof.
  unfold table0. destruct (istanbul_good (S := StorageDB Table)) as (jt & E & _).
  unfold NewEVMInterpreter. change (selectTable _) with (newIstanbulInstructionSet (S := StorageDB Table)). by rewrite E.
Qed.
(** The state a computation ends in. *)
Definition final {St A} (d : St) (o : outcome (A * St)) : St := match o with Ret (_, s) => s | _ => d end.
Definition value_of {St A} (o : outcome (A * St)) : option A := match o with Ret (a, _) => Some a | _ => None end.
Lemma final_eq {St A} (d : St) (o : outcome (A * St)) a : value_of o = Some a -> o = Ret (a, final d o).
Proof. by destruct o as [[]| |]; intros [= ->]. Qed.
(** A run of [storeCode] about to start. *)
Definition ctx0 : Ctx (StorageDB Table) :=
  mkCtx 0 [] NewMemory [] (mkContract alice storer None storeCode (hash0 storeCode) (Some storer) [] 50 (Some 0)) evm0.
Lemma ctx0_ok : ctx_ok ctx0.
Proof.
  split; cbn; try done; [|apply evm0_ok].
  split; cbn; try done; [by apply slice_lit|apply is_addr0|apply is_addr0].
Qed.
