(* ===== verification/EvmTheorems.v ===== *)
(** * Theorems about the EVM

    The properties a client of the machine relies on, stated for any database
    that meets [StateDBSpec] and any environment that meets [env_ok], with the
    jump table the constructor builds; each is applied to the concrete world of
    World.v. *)

From S2P Require Import Prelude Words Uint256 Uint256Arith Uint256Div Uint256Bits Params Config Stack Memory.
From S2P Require Import Opcodes Analysis State GasTable Instructions JumpTable Evm Interpreter Invariants.
From S2P Require Import InstrSafety GasSafety StepSafety TableSafety Safety Codec Storage StorageFacts.
From S2P Require Import Executor ExecutorFacts World.

Section Evm.
Context {S : Type} `{StateDBSpec S} `{Mode} (env : Env S) (Henv : env_ok env).
Context (eips : list Z) (Heips : forallb (known_eip (chainRules env)) eips = true).
Context (jt : JumpTable S) (Hjt : NewEVMInterpreter (chainRules env) eips = Ret jt).
Context (fuel : nat).

(** The table the constructor returns is sound. *)
Lemma built_good : good frontier_keys jt.
Proof. destruct (NewEVMInterpreter_good (S := S) _ _ Heips) as (jt' & E & Hg). congruence. Qed.
Lemma built_calls : calls_ok (evm_calls env (Run env jt fuel)) (Z.min (Z.of_nat fuel) W).
Proof. apply calls_of_fuel; [done|apply built_good]. Qed.
End Evm.

Section Claims.
Context {S : Type} `{StateDBSpec S} `{Mode}.

(** C1.  A message call terminates and is safe: when the fuel exceeds the
    gas, [EVM.Call] with the interpreter and the table the constructor built
    for the rules returns, never panics in the modelled code (index, nil
    dereference, stack under- or overflow, memory bounds, invalid type
    assertion), returns at most the gas it was given, restores the call depth
    and the read-only flag, keeps the caller's snapshots, and a call that
    fails leaves the world as it was. *)
Theorem call_terminates_safely (env : Env S) eips jt fuel caller addr input gas v e :
  env_ok env -> forallb (known_eip (chainRules env)) eips = true ->
  NewEVMInterpreter (chainRules env) eips = Ret jt ->
  0 <= gas < Z.min (Z.of_nat fuel) W -> evm_ok e -> (static e = true -> v = 0) ->
  ref_ok caller -> is_address addr -> is_slice input ->
  wp (Call env (Run env jt fuel) caller addr input gas v) (call_post gas e) e.
Proof.
  intros Henv He Hjt Hg ? ? ? ? ?. by apply (call_ok _ _ (built_calls env Henv eips He jt Hjt fuel)).
Qed.

(** C8.  Contract creation terminates and is safe: under the same conditions
    [EVM.Create] returns without a panic of the modelled code, returns at
    most the gas it was given and a 20-byte address, and restores depth and
    read-only flag. *)
Theorem create_terminates_safely (env : Env S) eips jt fuel caller code gas v e :
  env_ok env -> forallb (known_eip (chainRules env)) eips = true ->
  NewEVMInterpreter (chainRules env) eips = Ret jt ->
  0 <= gas < Z.min (Z.of_nat fuel) W -> evm_ok e -> static e = false ->
  ref_ok caller -> is_slice code ->
  wp (Create env (Run env jt fuel) caller code gas v) (create_post gas e) e.
Proof.
  intros Henv He Hjt Hg ? ? ? ?. by apply (create_ok _ _ (built_calls env Henv eips He jt Hjt fuel)).
Qed.

(** C5.  The other frames are undone when they fail: under the conditions of
    the message call, [EVM.CallCode] and [EVM.DelegateCall] return within the
    gas without a panic of the modelled code and, on an error, leave the world
    as it was; [EVM.Create] and [EVM.Create2], on an error, leave the world as
    it was or with only the creator's nonce one higher, unless the error is
    that the code could not be paid for before Homestead, where the account is
    kept without code. *)
Theorem failed_frames_are_undone (env : Env S) eips jt fuel caller k addr input gas v salt e :
  env_ok env -> forallb (known_eip (chainRules env)) eips = true ->
  NewEVMInterpreter (chainRules env) eips = Ret jt ->
  0 <= gas < Z.min (Z.of_nat fuel) W -> evm_ok e -> ref_ok caller -> contract_ok k -> is_address addr -> is_slice input ->
  wp (CallCode env (Run env jt fuel) caller addr input gas v) (call_post gas e) e /\
  wp (DelegateCall env (Run env jt fuel) (ContractCaller k) addr input gas) (call_post gas e) e /\
  (static e = false ->
    wp (Create env (Run env jt fuel) caller input gas v) (creation_post env (RefAddress caller) gas e) e /\
    (int_ok salt ->
      wp (Create2 env (Run env jt fuel) caller input gas v salt) (creation_post env (RefAddress caller) gas e) e)).
Proof.
  intros Henv He Hjt Hg ? ? ? ? ?. pose proof (built_calls env Henv eips He jt Hjt fuel) as Hc.
  assert (Hr : run_ok (Run env jt fuel) (Z.min (Z.of_nat fuel) W)) by (apply Run_ok; [done|by eapply built_good]).
  split_and!; [by apply (callcode_ok _ _ Hc)|by apply (delegate_ok _ _ Hc)|].
  intros Hst. split; [|intros Hs]; [eapply Create_undone|eapply Create2_undone]; try done; lia.
Qed.

(** C4.  A static call cannot change the state: from Byzantium on,
    [EVM.StaticCall] leaves the world as it was, whether it succeeds or
    fails, whatever the callee does. *)
Theorem static_call_is_pure (env : Env S) eips jt fuel caller addr input gas e r e' :
  env_ok env -> byz = true -> forallb (known_eip (chainRules env)) eips = true ->
  NewEVMInterpreter (chainRules env) eips = Ret jt ->
  0 <= gas < Z.min (Z.of_nat fuel) W -> evm_ok e -> ref_ok caller -> is_address addr -> is_slice input ->
  StaticCall env (Run env jt fuel) caller addr input gas e = Ret (r, e') ->
  same_world (statedb e) (statedb e').
Proof.
  intros Henv Hb He Hjt Hg ? ? ? ? E.
  assert (Hwp : wp (StaticCall env (Run env jt fuel) caller addr input gas) (static_post gas e) e).
  { eapply StaticCall_static; [done|apply Run_ok; [done|by eapply built_good]|..]; done || lia. }
  destruct (wp_elim _ _ _ _ _ Hwp E) as [_ Hw]. by apply Hw.
Qed.

(** C7.  Every iteration of the interpreter makes progress: from a
    well-formed machine state, one step of the main loop with a sound table
    does not panic, keeps the machine state well formed, and when the run goes
    on the gas is strictly smaller, so every run ends. *)
Theorem step_burns_gas (env : Env S) eips jt fuel c :
  env_ok env -> forallb (known_eip (chainRules env)) eips = true ->
  NewEVMInterpreter (chainRules env) eips = Ret jt ->
  ctx_ok c -> Gas (contract c) < Z.min (Z.of_nat fuel) W ->
  wp (step env jt (evm_calls env (Run env jt fuel))) (burns c) c.
Proof.
  intros Henv He Hjt Hc Hg. pose proof (built_good env eips He jt Hjt) as Hgood.
  eapply step_ok; [|intros o; by apply (good_call frontier_keys)|done|done|by apply calls_of_fuel|lia].
  apply (good_table frontier_keys); [done|by apply (bool_decide_unpack _)].
Qed.

(** C6.  The constructor of the interpreter, for every rules and every list
    of extra EIPs: when each EIP of the list is 2200, 1344, 2315 or, on a table
    with EXTCODEHASH, 1884, it returns a table whose entries are all sound
    (with the operands its stack bounds promise, the operation, its gas
    function and its memory size function neither panic nor leave the machine
    ill-formed, and it costs gas unless it ends the run); in every other case
    it panics, on an undefined EIP or on the nil entry of EXTCODEHASH that EIP
    1884 changes and no table before Constantinople has. *)
Theorem jump_tables_are_sound (r : Rules) eips :
  if forallb (known_eip r) eips
  then exists jt : JumpTable S, NewEVMInterpreter r eips = Ret jt /\ forall op o, jt !! op = Some o -> entry_ok op o
  else NewEVMInterpreter (S := S) r eips = Panic.
Proof.
  destruct (forallb _ _) eqn:He; [|by apply NewEVMInterpreter_panics].
  destruct (NewEVMInterpreter_good (S := S) _ _ He) as (jt & E & Hg). exists jt. split; [done|].
  intros op o Ho. apply (ea_ok _ _ (g_entries _ _ Hg op o Ho)).
Qed.
End Claims.

(** ** In the concrete world *)
Lemma call_terminates_safely_witness :
  wp (Call (env0 msg0') (Run (env0 msg0') table0 100) (AccountRef alice) storer [] 50 0) (call_post 50 evm0) evm0.
Proof.
  exact (call_terminates_safely (env0 msg0') [] table0 100 (AccountRef alice) storer [] 50 0 evm0
    (env0_ok msg0' eq_refl) eq_refl table0_built ltac:(done) evm0_ok ltac:(done) (is_addr0 _) (is_addr0 _) is_slice_nil).
Defined.
Lemma create_terminates_safely_witness :
  wp (Create (env0 msg0') (Run (env0 msg0') table0 100) (AccountRef alice) storeCode 50 0) (create_post 50 evm0) evm0.
Proof.
  exact (create_terminates_safely (env0 msg0') [] table0 100 (AccountRef alice) storeCode 50 0 evm0
    (env0_ok msg0' eq_refl) eq_refl table0_built ltac:(done) evm0_ok eq_refl (is_addr0 _) (slice_lit storeCode eq_refl)).
Defined.
Lemma failed_frames_are_undone_witness :
  let run := Create2 (env0 msg0') (Run (env0 msg0') table0 100) (AccountRef alice) revertCode 50 0 (of_Z 0) evm0 in
  let e' := final evm0 run in
  run = Ret ([], CreateAddress2 (env0 msg0') alice (Bytes32 (of_Z 0)) (hash0 revertCode), 44, Some ErrExecutionReverted, e') /\
  undone alice (statedb evm0) (statedb e').
Proof.
  assert (E : let run := Create2 (env0 msg0') (Run (env0 msg0') table0 100) (AccountRef alice) revertCode 50 0 (of_Z 0) evm0 in
    run = Ret ([], CreateAddress2 (env0 msg0') alice (Bytes32 (of_Z 0)) (hash0 revertCode), 44,
    Some ErrExecutionReverted, final evm0 run)) by (intros run; apply final_eq; vm_compute; reflexivity).
  cbv zeta in *. split; [exact E|].
  pose proof (failed_frames_are_undone (env0 msg0') [] table0 100 (AccountRef alice) (contract ctx0) reverter revertCode 50 0
    (of_Z 0) evm0 (env0_ok msg0' eq_refl) eq_refl table0_built ltac:(clear; done) evm0_ok (is_addr0 _) (c_contract _ ctx0_ok)
    (is_addr0 _) (slice_lit revertCode eq_refl)) as Hall.
  exact (proj2 (wp_elim _ _ _ _ _ (proj2 (proj2 (proj2 Hall) eq_refl) (of_Z_ok 0)) E) _ eq_refl ltac:(intros [=])).
Defined.
Lemma static_call_is_pure_witness :
  let e' := final evm0 (StaticCall (env0 msg0') (Run (env0 msg0') table0 100) (AccountRef alice) storer [] 50 evm0) in
  same_world (statedb evm0) (statedb e').
Proof.
  intros e'.
  refine (static_call_is_pure (env0 msg0') [] table0 100 (AccountRef alice) storer [] 50 evm0
    (Fresh [], 0, Some ErrWriteProtection) e' (env0_ok msg0' eq_refl) eq_refl eq_refl table0_built ltac:(done) evm0_ok
    (is_addr0 _) (is_addr0 _) is_slice_nil _).
  apply final_eq. vm_compute. reflexivity.
Defined.
Lemma step_burns_gas_witness :
  wp (step (env0 msg0') table0 (evm_calls (env0 msg0') (Run (env0 msg0') table0 100))) (burns ctx0) ctx0.
Proof.
  exact (step_burns_gas (env0 msg0') [] table0 100 ctx0 (env0_ok msg0' eq_refl) eq_refl table0_built ctx0_ok ltac:(done)).
Defined.
(** EIP-1884 enabled on the Byzantium table dereferences a nil entry. *)
Example eip1884_before_constantinople :
  let byzantium := mkRules 1 true true true true true false false false false in
  forallb (known_eip byzantium) [1884] = false /\ NewEVMInterpreter (S := StorageDB Table) byzantium [1884] = Panic.
Proof. split; [reflexivity|]. apply NewEVMInterpreter_panics. reflexivity. Qed.
