(* ===== verification/ArithTheorems.v ===== *)
(** * Theorems about the arithmetic

    The 256-bit integer package against arithmetic on [Z] modulo 2^256, and
    the EVM's arithmetic instructions against their textbook meaning. *)

From S2P Require Import Prelude Words Uint256 Uint256Arith Uint256Div Uint256Bits Params Config Stack Memory.
From S2P Require Import Opcodes Analysis State Instructions.

(** ** The package *)
(** C10.  Addition, subtraction, negation, multiplication, squaring and
    exponentiation of well-formed 256-bit integers are exact modulo 2^256. *)
Theorem uint256_ring x y : int_ok x -> int_ok y ->
  Add x y = of_Z (val x + val y) /\ Sub x y = of_Z (val x - val y) /\ Neg x = of_Z (- val x) /\
  Mul x y = of_Z (val x * val y) /\ squared x = of_Z (val x * val x) /\ Exp x y = of_Z (val x ^ val y).
Proof. intros. split_and!; auto using Add_spec, Sub_spec, Neg_spec, Mul_spec, squared_spec, Exp_spec. Qed.
Lemma uint256_ring_witness : Add (of_Z (2 ^ 256 - 1)) (of_Z 5) = of_Z (val (of_Z (2 ^ 256 - 1)) + val (of_Z 5)).
Proof. exact (proj1 (uint256_ring (of_Z (2 ^ 256 - 1)) (of_Z 5) (of_Z_ok _) (of_Z_ok _))). Defined.

(**  The overflow flags are exact: [AddOverflow], [SubOverflow] and
    [MulOverflow] return the result modulo 2^256 and report exactly whether the
    true result is outside the 256-bit range. *)
Theorem uint256_overflow_flags x y : int_ok x -> int_ok y ->
  AddOverflow x y = (of_Z (val x + val y), 2 ^ 256 <=? val x + val y) /\
  SubOverflow x y = (of_Z (val x - val y), val x <? val y) /\
  MulOverflow x y = (of_Z (val x * val y), 2 ^ 256 <=? val x * val y).
Proof. intros. split_and!; auto using AddOverflow_spec, SubOverflow_spec, MulOverflow_spec. Qed.
Lemma uint256_overflow_flags_witness : (MulOverflow (of_Z (2 ^ 200)) (of_Z (2 ^ 60))).2 = true.
Proof.
  rewrite (proj2 (proj2 (uint256_overflow_flags (of_Z (2 ^ 200)) (of_Z (2 ^ 60)) (of_Z_ok _) (of_Z_ok _)))). reflexivity.
Defined.

(** C9.  Division is total and exact: unsigned [Div] and [Mod] (Knuth's
    algorithm D on 64-bit limbs with a reciprocal) and signed [SDiv] and [SMod]
    never panic and give the quotient and the remainder, zero for a zero
    divisor; the signed ones truncate toward zero. *)
Theorem uint256_division x y : int_ok x -> int_ok y ->
  Div x y = Ret (of_Z (evm_div (val x) (val y))) /\ Mod x y = Ret (of_Z (evm_mod (val x) (val y))) /\
  SDiv x y = Ret (of_Z (evm_sdiv (sval x) (sval y))) /\ SMod x y = Ret (of_Z (evm_smod (sval x) (sval y))).
Proof. intros. split_and!; auto using Div_ok, Mod_ok, SDiv_ok, SMod_ok. Qed.
Lemma uint256_division_witness : Div (of_Z (2 ^ 255 + 12345)) (of_Z (2 ^ 130 + 7)) = Ret (of_Z (2 ^ 125 - 1)).
Proof.
  rewrite (proj1 (uint256_division (of_Z (2 ^ 255 + 12345)) (of_Z (2 ^ 130 + 7)) (of_Z_ok _) (of_Z_ok _))). vm_compute. reflexivity.
Defined.

(** C36.  [AddMod] and [MulMod] are computed without losing the carry: the sum
    and the 512-bit product are reduced exactly, zero for a zero modulus. *)
Theorem uint256_modular x y m : int_ok x -> int_ok y -> int_ok m ->
  AddMod x y m = Ret (of_Z (evm_mod (val x + val y) (val m))) /\
  MulMod x y m = Ret (of_Z (evm_mod (val x * val y) (val m))).
Proof. intros. split; auto using AddMod_ok, MulMod_ok. Qed.
Lemma uint256_modular_witness : MulMod (of_Z (2 ^ 255)) (of_Z (2 ^ 255)) (of_Z 1000003) = Ret (of_Z (2 ^ 510 mod 1000003)).
Proof.
  rewrite (proj2 (uint256_modular (of_Z (2 ^ 255)) (of_Z (2 ^ 255)) (of_Z 1000003) (of_Z_ok _) (of_Z_ok _) (of_Z_ok _))).
  vm_compute. reflexivity.
Defined.

(**  Conversion to and from bytes round-trips: writing a 256-bit integer
    as 32 bytes and reading them back gives the integer, reading 32 bytes and
    writing them gives the bytes, and longer inputs count only their last 32
    bytes. *)
Theorem uint256_bytes_roundtrip :
  (forall z, int_ok z -> SetBytes (Bytes32 z) = Ret z) /\
  (forall b, bytes_ok b -> length b = 32%nat -> exists z, SetBytes b = Ret z /\ Bytes32 z = b) /\
  (forall p b, bytes_ok p -> bytes_ok b -> length b = 32%nat -> SetBytes (p ++ b) = SetBytes b).
Proof.
  split_and!.
  - intros z Hz. rewrite Bytes32_ok by done. rewrite SetBytes_ok by apply be_bytes_ok. rewrite length_be_bytes.
    rewrite Nat.sub_diag, drop_0, be_val_be_bytes. f_equal. change (256 ^ Z.of_nat 32) with W256.
    by rewrite of_Z_mod, of_Z_val.
  - intros b Hb Hl. exists (of_Z (be_val b)). split.
    + rewrite SetBytes_ok, Hl by done. cbn [Nat.sub]. by rewrite drop_0.
    + rewrite Bytes32_ok by apply of_Z_ok. rewrite val_of_Z, <- Hl. pose proof (be_val_bound b Hb) as Hr. rewrite Hl in Hr.
      change (256 ^ Z.of_nat 32) with W256 in Hr. rewrite Z.mod_small by done. by apply be_bytes_be_val.
  - intros p b Hp Hb Hl. rewrite !SetBytes_ok by (done || by apply Forall_app). rewrite length_app, Hl.
    replace (length p + 32 - 32)%nat with (length p) by lia. by rewrite drop_app_length, Nat.sub_diag, drop_0.
Qed.

(** Comparisons decide the order of the values, as unsigned or as two's
    complement numbers. *)
Theorem uint256_comparisons x y : int_ok x -> int_ok y ->
  Lt x y = (val x <? val y) /\ Gt x y = (val y <? val x) /\ Eq x y = (val x =? val y) /\
  Slt x y = (sval x <? sval y) /\ Sgt x y = (sval y <? sval x) /\ Sign x = Z.sgn (sval x) /\
  Cmp x y = match val x ?= val y with Datatypes.Lt => -1 | Datatypes.Eq => 0 | Datatypes.Gt => 1 end.
Proof. intros. split_and!; auto using Lt_spec, Gt_spec, Eq_spec, Slt_spec, Sgt_spec, Sign_spec, Cmp_spec. Qed.
Lemma uint256_comparisons_witness : Slt (of_Z (-1)) (of_Z 1) = true.
Proof.
  rewrite (proj1 (proj2 (proj2 (proj2 (uint256_comparisons (of_Z (-1)) (of_Z 1) (of_Z_ok _) (of_Z_ok _)))))). reflexivity.
Defined.

(** [SubUint64] is wrong when the receiver is not the operand: it keeps
    the receiver's own upper limbs, so the result depends on what the receiver
    held before.  The limbs of [10 - 3] stored into a variable that held 2^64
    show 2^64 + 7. *)
Theorem SubUint64_keeps_stale_limbs :
  exists z x : Int, exists y : Z, int_ok z /\ int_ok x /\ is_u64 y /\ val x - y = 7 /\
    val (SubUint64 z x y) = 2 ^ 64 + 7 /\ SubUint64 x x y = of_Z 7.
Proof.
  exists (of_Z (2 ^ 64)), (of_Z 10), 3. split_and!; try apply of_Z_ok; done.
Qed.

(** ** The instructions *)
Definition signed (v : Z) : Z := if v <? 2 ^ 255 then v else v - 2 ^ 256.
Definition flag (b : bool) : Z := if b then 1 else 0.

(** A two-operand instruction means [f] on the operands' values, the top of
    the stack first. *)
Definition means2 {S} (ex : executionFunc (S := S)) (f : Z -> Z -> Z) : Prop :=
  forall env calls c x y st, int_ok x -> int_ok y -> stack c = x :: y :: st ->
    ex env calls c = Ret (([], None), set_stack (of_Z (f (val x) (val y)) :: st) c).
Lemma binop_means {S} (g : Int -> Int -> outcome Int) f :
  (forall x y, int_ok x -> int_ok y -> g x y = Ret (of_Z (f (val x) (val y)))) -> means2 (S := S) (binop g) f.
Proof.
  intros Hg env calls [p st m r k e] x y st' Hx Hy E. cbn in E. subst st.
  unfold binop, popM, peekM, set_topM, lift, pop, peek, Back, set_top. cbv [mbind M_bind outcome_bind]. cbn [stack set_stack lookup list_lookup].
  by rewrite Hg.
Qed.
Lemma cond_of_Z (b : bool) : (if b then SetOne else Clear) = of_Z (flag b).
Proof. destruct b; [apply SetOne_of_Z|apply Clear_of_Z]. Qed.
Lemma of_Z_val_eq x v : int_ok x -> val x = v -> x = of_Z v.
Proof. intros Hx <-. by rewrite of_Z_val. Qed.


Lemma signextend_means b v : int_ok b -> int_ok v ->
  ExtendSign v b = of_Z (if 31 <? val b then val v else sext (8 * val b + 8) (val v)).
Proof. intros Hb Hv. rewrite ExtendSign_ok by done. destruct (31 <? val b); [by rewrite of_Z_val|done]. Qed.
Lemma shift_count s : int_ok s -> val s < 2 ^ 64 -> Uint64 s = val s.
Proof. intros Hs Hlt. rewrite Uint64_spec by done. apply Z.mod_small. pose proof (val_range s Hs). lia. Qed.
Lemma shl_means s v : int_ok s -> int_ok v ->
  (if LtUint64 s 256 then Lsh v (Uint64 s) else Clear) = of_Z (val v * 2 ^ val s).
Proof.
  intros Hs Hv. pose proof (val_range s Hs). rewrite LtUint64_spec by (done || lia). destruct (Z.ltb_spec (val s) 256).
  - rewrite shift_count by (done || lia). apply Lsh_ok; [done|lia].
  - by rewrite of_Z_shift_out.
Qed.
Lemma shr_means s v : int_ok s -> int_ok v ->
  (if LtUint64 s 256 then Rsh v (Uint64 s) else Clear) = of_Z (val v / 2 ^ val s).
Proof.
  intros Hs Hv. pose proof (val_range s Hs). rewrite LtUint64_spec by (done || lia). destruct (Z.ltb_spec (val s) 256).
  - rewrite shift_count by (done || lia). apply Rsh_ok; [done|lia].
  - rewrite div_shift_out; [apply Clear_of_Z|by apply val_range|lia].
Qed.
Lemma sar_means s v : int_ok s -> int_ok v ->
  (if GtUint64 s 256 then if 0 <=? Sign v then Clear else SetAllOne else SRsh v (Uint64 s)) = of_Z (sval v / 2 ^ val s).
Proof.
  intros Hs Hv. pose proof (val_range s Hs). pose proof (sval_range v Hv). rewrite GtUint64_spec by (done || lia).
  destruct (Z.ltb_spec 256 (val s)).
  - assert (Hp : 2 ^ 256 <= 2 ^ val s) by (apply Z.pow_le_mono_r; lia). rewrite Sign_spec by done.
    destruct (Z.leb_spec 0 (Z.sgn (sval v))).
    + rewrite Z.div_small by lia. apply Clear_of_Z.
    + replace (sval v / 2 ^ val s) with (-1); [done|]. apply Z.div_unique with (sval v + 2 ^ val s); lia.
  - rewrite shift_count by (done || lia). apply SRsh_ok; [done|lia].
Qed.

(** C11.  The EVM's two-operand instructions compute their textbook meaning:
    each pops two words and pushes the result of the mathematical operation
    modulo 2^256, changing nothing else of the machine. *)
Theorem arithmetic_instructions {S : Type} :
  Forall (fun p => means2 (S := S) p.1 p.2)
    [ (opAdd, Z.add); (opSub, Z.sub); (opMul, Z.mul); (opDiv, evm_div); (opMod, evm_mod); (opExp, Z.pow);
      (opSdiv, fun a b => evm_sdiv (signed a) (signed b)); (opSmod, fun a b => evm_smod (signed a) (signed b));
      (opSignExtend, fun b v => if 31 <? b then v else sext (8 * b + 8) v);
      (opLt, fun a b => flag (a <? b)); (opGt, fun a b => flag (b <? a)); (opEq, fun a b => flag (a =? b));
      (opSlt, fun a b => flag (signed a <? signed b)); (opSgt, fun a b => flag (signed b <? signed a));
      (opAnd, Z.land); (opOr, Z.lor); (opXor, Z.lxor);
      (opByte, fun i v => if i <? 32 then v / 2 ^ (8 * (31 - i)) mod 256 else 0);
      (opSHL, fun s v => v * 2 ^ s); (opSHR, fun s v => v / 2 ^ s); (opSAR, fun s v => signed v / 2 ^ s) ].
Proof.
  assert (Hs : forall x, signed (val x) = sval x) by done.
  repeat apply List.Forall_cons; [..|apply List.Forall_nil]; apply binop_means; intros x y Hx Hy; cbn [fst snd];
    unfold pure2, cond2; rewrite ?cond_of_Z, ?Hs.
  all: first
    [ apply Div_ok; done | apply Mod_ok; done | apply SDiv_ok; done | apply SMod_ok; done | f_equal ].
  all: first
    [ by rewrite Add_spec | by rewrite Sub_spec | by rewrite Mul_spec | by rewrite Exp_spec | by rewrite Lt_spec
    | by rewrite Gt_spec | by rewrite Eq_spec | by rewrite Slt_spec | by rewrite Sgt_spec | by apply Byte_ok
    | by apply of_Z_val_eq; apply And_spec | by apply of_Z_val_eq; apply Or_spec | by apply of_Z_val_eq; apply Xor_spec
    | by apply signextend_means | by apply shl_means | by apply shr_means | by apply sar_means ].
Qed.
