(* ===== verification/MachineTheorems.v ===== *)
(** * Theorems about the parts of the machine

    Jump destinations, memory, gas prices, opcodes, and the chain
    configuration that selects the rules. *)

From S2P Require Import Prelude Words Uint256 Uint256Arith Uint256Div Uint256Bits Params Config Stack Memory.
From S2P Require Import Opcodes Analysis State GasTable Instructions JumpTable Invariants GasSafety.
From S2P Require Import StepSafety TableSafety.

(** ** Jump destinations *)
(** A question to a contract about a 256-bit jump destination, or a 64-bit
    destination of a subroutine. *)
Inductive question := Jump (dest : Int) | JumpSub (dest : Z).
Definition question_ok (q : question) : Prop := match q with Jump d => int_ok d | JumpSub d => is_u64 d end.
Definition answer (q : question) (c : Contract) (j : jumpdest_map) : outcome (bool * Contract * jumpdest_map) :=
  match q with Jump d => validJumpdest d c j | JumpSub d => validJumpSubdest d c j end.
(** Questions to the contracts of a call tree, which share the bitmaps cached
    under the hashes of their codes. *)
Fixpoint ask (qs : list (nat * question)) (cs : list Contract) (j : jumpdest_map) : outcome (list bool) :=
  match qs with
  | [] => Ret []
  | (i, q) :: qs =>
      match cs !! i with
      | None => ask qs cs j
      | Some c => '(b, c', j') ← answer q c j; bs ← ask qs (<[i := c']> cs) j'; Ret (b :: bs)
      end
  end.
(** The answers: the destination holds the byte and starts an instruction. *)
Definition start_of (code : bytes) (op pos : Z) : Prop :=
  pos < len code /\ code !! Z.to_nat pos = Some op /\ instr_at code pos.
Definition allowed (q : question) (code : bytes) : Prop :=
  match q with Jump d => start_of code JUMPDEST (val d) | JumpSub d => start_of code BEGINSUB d end.
Definition code_at (cs : list Contract) (i : nat) : option bytes := Code <$> cs !! i.
Fixpoint right (cs : list Contract) (qs : list (nat * question)) (bs : list bool) : Prop :=
  match qs with
  | [] => bs = []
  | (i, q) :: qs =>
      match code_at cs i with
      | None => right cs qs bs
      | Some code => match bs with b :: bs => (b = true <-> allowed q code) /\ right cs qs bs | [] => False end
      end
  end.

(** The bitmaps the contract and the shared cache hold belong to its code. *)
Definition cached (c : Contract) (j : jumpdest_map) : Prop :=
  (forall a, analysis c = Some a -> codeBitmap (Code c) = Ret a) /\
  (forall a, CodeHash c <> zero_hash -> j !! CodeHash c = Some a -> codeBitmap (Code c) = Ret a).
(** What a question does: the contract may get its bitmap, and the cache may
    get it under the contract's hash. *)
Definition analysed (c c' : Contract) : Prop := exists a, c' = set_analysis a c.
Definition grown (c : Contract) (j j' : jumpdest_map) : Prop :=
  forall h a, j' !! h = Some a -> j !! h = Some a \/ h = CodeHash c /\ codeBitmap (Code c) = Ret a.
Definition answers (q : Prop) (c : Contract) (j : jumpdest_map) (m : outcome (bool * Contract * jumpdest_map)) : Prop :=
  exists b c' j', m = Ret (b, c', j') /\ (b = true <-> q) /\ cached c' j' /\ analysed c c' /\ grown c j j'.
Lemma analysed_refl c : analysed c c.
Proof. exists (analysis c). by destruct c. Qed.
Lemma grown_refl c j : grown c j j.
Proof. by left. Qed.

Lemma segment_ok c a pos : bytes_ok (Code c) -> codeBitmap (Code c) = Ret a -> 0 <= pos < len (Code c) ->
  exists b, segment a c pos = Ret b /\ (b = true <-> instr_at (Code c) pos).
Proof.
  intros Hb Ha Hp. destruct (codeBitmap_ok _ Hb) as (bits & E & _ & Hs). rewrite Ha in E. injection E as <-.
  destruct (Hs pos Hp) as (b & Eb & Hi). exists b. unfold segment. by rewrite Eb.
Qed.
Lemma isCode_ok c j pos : bytes_ok (Code c) -> cached c j -> 0 <= pos < len (Code c) ->
  answers (instr_at (Code c) pos) c j (isCode pos c j).
Proof.
  intros Hb [Hc Hj] Hp. destruct (codeBitmap_ok _ Hb) as (bits & E & _).
  destruct (segment_ok c bits pos Hb E Hp) as (b & Eb & Hi). pose proof (analysed_refl c). pose proof (grown_refl c j).
  unfold isCode. destruct (analysis c) as [a|] eqn:Ea.
  - specialize (Hc a eq_refl). rewrite E in Hc. injection Hc as <-. rewrite Eb. cbn. exists b, c, j.
    split_and!; [done|done| |done..]. split; [by rewrite Ea; intros a [= <-]|done].
  - destruct (bool_decide_reflect (CodeHash c = zero_hash)) as [Hz|Hz]; cbn [negb].
    + rewrite E. cbn. rewrite Eb. cbn. eexists b, _, j. split_and!; [done|done| |by eexists|done].
      split; cbn; [by intros a [= <-]|done].
    + destruct (j !! CodeHash c) as [a|] eqn:El.
      * pose proof (Hj a Hz eq_refl) as Ha. rewrite E in Ha. injection Ha as <-. cbn. rewrite Eb. cbn.
        eexists b, _, j. split_and!; [done|done| |by eexists|done]. split; cbn; [by intros a [= <-]|by rewrite El; intros a _ [= <-]].
      * rewrite E. cbn. rewrite Eb. cbn. eexists b, _, _. split_and!; [done|done| |by eexists|].
        -- split; cbn; [by intros a [= <-]|]. intros a _ Hl.
           pose proof (eq_trans (eq_sym (lookup_insert_eq (M := gmap (list Z)) j (CodeHash c) bits)) Hl) as [= <-]. exact E.
        -- intros h a Hl. apply (lookup_insert_Some (M := gmap (list Z))) in Hl as [[<- <-]|[_ Hl]]; [by right|by left].
Qed.
(** The checks before [isCode] *)
Lemma dest_ok c j op pos : bytes_ok (Code c) -> cached c j -> 0 <= pos ->
  answers (start_of (Code c) op pos) c j
    (if len (Code c) <=? pos then Ret (false, c, j)
     else if negb (Code c !!! Z.to_nat pos =? op) then Ret (false, c, j) else isCode pos c j).
Proof.
  intros Hb Hc Hp. unfold start_of. pose proof (analysed_refl c). pose proof (grown_refl c j).
  destruct (Z.leb_spec (len (Code c)) pos) as [Hle|Hin].
  { exists false, c, j. split_and!; try done. split; [done|lia]. }
  destruct (lookup_lt_is_Some_2 (Code c) (Z.to_nat pos)) as [op' Hop]; [unfold len in *; lia|].
  rewrite (list_lookup_total_correct _ _ _ Hop). destruct (Z.eqb_spec op' op) as [->|Hne]; cbn [negb].
  - destruct (isCode_ok c j pos Hb Hc ltac:(lia)) as (b & c' & j' & E & Hi & ?). exists b, c', j'. split; [done|]. split; [|done]. rewrite Hi. tauto.
  - exists false, c, j. split_and!; try done. split; [done|]. intros (_ & E & _). rewrite Hop in E. by injection E.
Qed.
Lemma answer_ok q c j : bytes_ok (Code c) -> len (Code c) <= max_slice -> question_ok q -> cached c j ->
  answers (allowed q (Code c)) c j (answer q c j).
Proof.
  intros Hb Hl Hq Hc. assert (Hfar : forall op pos, len (Code c) <= pos -> answers (start_of (Code c) op pos) c j (Ret (false, c, j))).
  { intros op pos Hge. exists false, c, j. split_and!; try done; [|apply analysed_refl|apply grown_refl]. split; [done|]. unfold start_of. lia. }
  destruct q as [d|d]; cbn [answer allowed question_ok] in *.
  - pose proof (val_range d Hq) as Hr. unfold validJumpdest. rewrite Uint64WithOverflow_spec by done.
    destruct (Z.ltb_spec (val d) W) as [Hlt|Hge]; cbn [negb orb]; [|apply Hfar; unfold max_slice in *; lia].
    rewrite Z.mod_small by lia. apply dest_ok; [done..|lia].
  - destruct Hq as [H0 HW]. unfold validJumpSubdest. destruct (Z.ltb_spec (to_int64 d) 0) as [Hneg|]; cbn [orb]; [|by apply dest_ok].
    apply Hfar. unfold to_int64 in Hneg. destruct (Z.ltb_spec d 9223372036854775808); unfold max_slice in *; lia.
Qed.

(** The contracts of a call tree: their codes are byte strings and those with
    the same hash are the same. *)
Record tree_ok (cs : list Contract) : Prop := {
  t_code : Forall (fun c => bytes_ok (Code c) /\ len (Code c) <= max_slice) cs;
  t_hash : forall c c', c ∈ cs -> c' ∈ cs -> CodeHash c = CodeHash c' -> CodeHash c <> zero_hash -> Code c = Code c';
}.
Definition tree_cached (cs : list Contract) (j : jumpdest_map) : Prop := Forall (fun c => cached c j) cs.
Lemma insert_analysed cs i c c' : cs !! i = Some c -> analysed c c' ->
  (forall k, code_at (<[i := c']> cs) k = code_at cs k) /\ (tree_ok cs -> tree_ok (<[i := c']> cs)).
Proof.
  intros Hi [a ->]. pose proof (lookup_lt_Some _ _ _ Hi) as Hlt. split.
  - intros k. unfold code_at. destruct (decide (i = k)) as [<-|]; [by rewrite list_lookup_insert_eq, Hi|by rewrite list_lookup_insert_ne].
  - intros [Hc Hh]. assert (Hold : forall c1, c1 ∈ <[i := set_analysis a c]> cs -> exists c0, c0 ∈ cs /\ Code c0 = Code c1 /\ CodeHash c0 = CodeHash c1).
    { intros c1 (k & Hk)%list_elem_of_lookup. destruct (decide (i = k)) as [<-|].
      - rewrite list_lookup_insert_eq in Hk by done. injection Hk as <-. exists c. by split; [eapply list_elem_of_lookup_2|].
      - rewrite list_lookup_insert_ne in Hk by done. exists c1. by split; [eapply list_elem_of_lookup_2|]. }
    split.
    + apply list.Forall_forall. intros c1 (c0 & H0 & <- & _)%Hold. by rewrite list.Forall_forall in Hc; apply Hc.
    + intros c1 c2 (d1 & H1 & <- & <-)%Hold (d2 & H2 & <- & <-)%Hold. by apply Hh.
Qed.
Lemma tree_cached_step cs j i c c' j' : tree_ok cs -> tree_cached cs j -> cs !! i = Some c ->
  cached c' j' -> analysed c c' -> grown c j j' -> tree_cached (<[i := c']> cs) j'.
Proof.
  intros [_ Hh] Hcs Hi Hc' [a ->] Hg. apply Forall_insert; [|done]. apply list.Forall_forall. intros c1 H1. unfold tree_cached in Hcs. rewrite list.Forall_forall in Hcs.
  destruct (Hcs c1 H1) as [Ha Hj]. split; [done|]. intros bits Hz Hl. destruct (Hg _ _ Hl) as [?|[Eh Eb]]; [by apply Hj|].
  rewrite (Hh c1 c); [done|done|by eapply list_elem_of_lookup_2|done..].
Qed.
Lemma right_code qs : forall cs cs' bs, (forall k, code_at cs' k = code_at cs k) -> right cs' qs bs -> right cs qs bs.
Proof.
  induction qs as [|[i q] qs IH]; intros cs cs' bs Hk; [done|]. cbn [right]. rewrite Hk. destruct (code_at cs i); [|by apply IH].
  destruct bs as [|b bs]; [done|]. intros [? ?]. split; [done|]. by eapply IH.
Qed.
Lemma ask_ok qs : forall cs j, Forall (fun q => question_ok q.2) qs -> tree_ok cs -> tree_cached cs j ->
  exists bs, ask qs cs j = Ret bs /\ right cs qs bs.
Proof.
  induction qs as [|[i q] qs IH]; intros cs j Hq Ht Hc; [by exists []|]. inversion Hq as [|? ? Hq1 Hq2]; subst. cbn [ask right].
  unfold code_at. destruct (cs !! i) as [c|] eqn:Ei; cbn [fmap option_fmap option_map]; [|by apply IH].
  pose proof (list_elem_of_lookup_2 _ _ _ Ei) as Hin. pose proof (t_code _ Ht) as Hcode. unfold tree_cached in Hc. rewrite list.Forall_forall in Hcode.
  destruct (answer_ok q c j) as (b & c' & j' & E & Hb & Hc' & Ha & Hg); [by apply Hcode..|done|by rewrite list.Forall_forall in Hc; apply Hc|].
  rewrite E. cbn [mbind outcome_bind]. destruct (insert_analysed cs i c c' Ei Ha) as [Hk Ht'].
  destruct (IH (<[i := c']> cs) j' Hq2 (Ht' Ht) (tree_cached_step cs j i c c' j' Ht Hc Ei Hc' Ha Hg)) as (bs & Eb & Hbs).
  rewrite Eb. exists (b :: bs). split; [done|]. split; [done|]. by eapply right_code.
Qed.

(** C20.  A jump is accepted exactly at a real JUMPDEST, and a jump to a
    subroutine exactly at a real BEGINSUB.  For any contracts that start
    without a bitmap and share an empty cache, where contracts with the same
    code hash have the same code, and any sequence of questions to them in any
    order, with the bitmaps cached along the way: none panics, and each answer
    is true precisely when the destination is inside the contract's code, holds
    the byte 0x5b (0x5c), and is the start of an instruction rather than push
    data. *)
Theorem validJumpdest_exact qs cs :
  tree_ok cs -> Forall (fun c => analysis c = None) cs -> Forall (fun q => question_ok q.2) qs ->
  exists bs, ask qs cs ∅ = Ret bs /\ right cs qs bs.
Proof.
  intros Ht Hn Hq. apply ask_ok; [done..|]. eapply Forall_impl; [|exact Hn]. intros c Ec. split; [by rewrite Ec|done].
Qed.
Definition jumpCode : bytes := [0x60; 0x5b; 0x5b; 0x5c].
Definition jumpContract (hash : Hash) : Contract := mkContract zero_address zero_address None jumpCode hash None [] 0 (Some 0).
Definition jumpTree : list Contract := [jumpContract zero_hash; jumpContract (replicate 32 1); jumpContract (replicate 32 1)].
Definition jumpQuestions : list (nat * question) :=
  [(0, Jump (of_Z 1)); (1, Jump (of_Z 2)); (2, JumpSub 3); (2, Jump (of_Z 1)); (0, Jump (of_Z 2))]%nat.
Lemma validJumpdest_exact_witness :
  (exists bs, ask jumpQuestions jumpTree ∅ = Ret bs /\ right jumpTree jumpQuestions bs) /\
  ask jumpQuestions jumpTree ∅ = Ret [false; true; true; false; true].
Proof.
  split; [|vm_compute; reflexivity]. apply (validJumpdest_exact jumpQuestions jumpTree).
  - split.
    + repeat constructor; done.
    + intros c c' Hc Hc'. repeat (apply elem_of_cons in Hc as [->|Hc]); try by apply not_elem_of_nil in Hc.
      all: repeat (apply elem_of_cons in Hc' as [->|Hc']); (done || by apply not_elem_of_nil in Hc').
  - repeat constructor.
  - repeat constructor; apply of_Z_ok || done.
Defined.

(** ** Memory and gas *)
(** C35.  Memory is charged exactly: for a well-formed memory and a requested
    size of whole words, [memoryGasCost] either fails because the size is above
    the limit 0x1FFFFFFFE0, or charges the difference between the quadratic
    fees of the new and the old size, caching the new fee, without any uint64
    overflow. *)
Theorem memory_gas_is_fee_difference m size gas err m' :
  mem_ok m -> is_u64 size -> size mod 32 = 0 -> memoryGasCost m size = (gas, err, m') ->
  store m' = store m /\
  match err with
  | None => gas = memory_fee (Z.max size (Len m) / 32) - memory_fee (Len m / 32) /\ charged size m'
  | Some e => e = ErrGasUintOverflow /\ 0x1FFFFFFFE0 < size /\ m' = m
  end.
Proof.
  intros Hm Hs Hz E. destruct (memoryGasCost_ok _ _ _ _ _ Hm Hs Hz E) as [Hst Hr]. split; [done|].
  destruct err; [done|]. by destruct Hr as (_ & ? & ?).
Qed.
Lemma memory_gas_is_fee_difference_witness :
  memoryGasCost NewMemory 1024 = (98, None, mkMemory [] 98) /\ 98 = memory_fee 32 - memory_fee 0.
Proof.
  split; [reflexivity|].
  exact (proj1 (proj2 (memory_gas_is_fee_difference NewMemory 1024 98 None (mkMemory [] 98) (ltac:(by split)) ltac:(done) eq_refl eq_refl))).
Defined.

(** The 63/64 rule: from EIP-150 on, with [base] already to be paid, a
    call gets the gas it asks for if that is at most all but one 64th of the
    available gas, and otherwise all but one 64th; the reserve never underflows
    and never fails. *)
Theorem callGas_63_64 available base requested :
  is_u64 available -> 0 <= base <= available -> int_ok requested ->
  let rest := available - base in
  callGas true available base requested = (Z.min (val requested) (rest - rest / 64), None).
Proof.
  intros Ha Hb Hr rest. pose proof (val_range requested Hr). unfold callGas. unfold is_u64 in Ha.
  rewrite (sub64_nowrap available) by (unfold is_u64; lia). fold rest. assert (0 <= rest / 64 <= rest) by dlia.
  rewrite sub64_nowrap by (unfold is_u64; lia). rewrite IsUint64_spec, Uint64_spec by done.
  destruct (Z.ltb_spec (val requested) W); cbn [negb orb].
  - rewrite Z.mod_small by lia. destruct (Z.ltb_spec (rest - rest / 64) (val requested)); f_equal; lia.
  - f_equal. lia.
Qed.
Lemma callGas_63_64_witness : callGas true 6500 100 (of_Z 10000) = (Z.min (val (of_Z 10000)) (6400 - 6400 / 64), None).
Proof. exact (callGas_63_64 6500 100 (of_Z 10000) ltac:(done) ltac:(lia) (of_Z_ok _)). Defined.

(** A word written to memory is read back: [Set32] at a covered offset
    followed by [GetPtr] of 32 bytes gives the big-endian bytes of the word, at
    no change of the memory's size. *)
Theorem memory_word_roundtrip offset v m :
  int_ok v -> 0 <= offset -> offset + 32 <= Len m -> Len m <= max_mem ->
  exists m', Set32 offset v m = Ret m' /\ GetPtr offset 32 m' = Ret (Bytes32 v) /\ Len m' = Len m.
Proof.
  intros Hv Ho Hl Hm. assert (exists m', Set32 offset v m = Ret m') as [m' E] by (rewrite Set32_spec by done; by eexists).
  exists m'. split; [done|]. rewrite Bytes32_ok by done. by eapply Set32_GetPtr.
Qed.
Lemma memory_word_roundtrip_witness :
  exists m', Set32 3 (of_Z 77) (mkMemory (replicate 64 9) 0) = Ret m' /\ GetPtr 3 32 m' = Ret (Bytes32 (of_Z 77)) /\
    Len m' = Len (mkMemory (replicate 64 9) 0).
Proof.
  apply (memory_word_roundtrip 3 (of_Z 77) (mkMemory (replicate 64 9) 0)); [apply of_Z_ok|done|done|done].
Defined.

(** [getData] is zero-padded slicing: for sizes a Go slice can have it
    returns exactly [size] bytes, the [i]th being the byte [start+i] of the
    data, or zero behind its end, also for a start near 2^64. *)
Theorem getData_padded data start size i :
  is_u64 start -> 0 <= size <= max_slice -> len data <= max_slice ->
  exists d, getData data start size = Ret d /\ len d = size /\
    (0 <= i < size -> d !! Z.to_nat i = Some (if start + i <? len data then data !!! Z.to_nat (start + i) else 0)).
Proof.
  intros Hs Hz Hl. eexists. split; [by apply getData_spec|]. pose proof (len_nonneg data) as Hn. unfold is_u64 in Hs.
  set (a := Z.min start (len data)). set (b := Z.min (a + size) (len data)).
  assert (Hsl : len (slice a b data) = b - a) by (apply length_slice; unfold a, b; lia). unfold len in *.
  split; [rewrite length_app, length_replicate; unfold a, b in *; lia|]. intros Hi.
  destruct (Z.ltb_spec (start + i) (Z.of_nat (length data))).
  - rewrite lookup_app_l by (unfold a, b in *; lia). unfold slice. rewrite lookup_take_lt by (unfold a, b in *; lia).
    rewrite lookup_drop. replace (Z.to_nat a + Z.to_nat i)%nat with (Z.to_nat (start + i)) by (unfold a; lia).
    apply list_lookup_lookup_total_lt. lia.
  - rewrite lookup_app_r by (unfold a, b in *; lia). apply lookup_replicate_2. unfold a, b in *; lia.
Qed.
Lemma getData_padded_witness : exists d, getData [1; 2; 3] 1 4 = Ret d /\ len d = 4 /\
  (0 <= 1 < 4 -> d !! Z.to_nat 1 = Some (if 1 + 1 <? len [1; 2; 3] then [1; 2; 3] !!! Z.to_nat (1 + 1) else 0)).
Proof. apply (getData_padded [1; 2; 3] 1 4 1); done. Defined.

(** ** Opcodes and configuration *)
(** Opcode names round-trip: every byte that has a name, other than the
    three placeholders PUSH, DUP and SWAP, is found again under that name. *)
Theorem opcode_names_roundtrip op s :
  0 <= op < 256 -> family op = false -> OpString op = Some s -> StringToOp s = op.
Proof. apply opcode_roundtrip. Qed.
Lemma opcode_names_roundtrip_witness : exists s, OpString DELEGATECALL = Some s /\ StringToOp s = DELEGATECALL.
Proof.
  eexists. split; [reflexivity|]. exact (opcode_names_roundtrip DELEGATECALL _ ltac:(done) eq_refl eq_refl).
Defined.

(** C37.  A configuration accepted by [CheckConfigForkOrder] has nested forks:
    at every block, an active fork implies every earlier one is active. *)
Theorem fork_order_check_is_sound c num : CheckConfigForkOrder c = None -> forks_nested c num.
Proof. apply fork_order_nested. Qed.
Lemma fork_order_check_is_sound_witness : forks_nested MainnetChainConfig (Some 5).
Proof. exact (fork_order_check_is_sound MainnetChainConfig (Some 5) eq_refl). Defined.

(** C38.  [CheckCompatible] terminates within [height + 2] rounds for every
    64-bit height, and reports an error exactly when the two configurations are
    incompatible at the height, with a rewind target below it. *)
Theorem CheckCompatible_terminates c n height : 0 <= height < W ->
  exists r, CheckCompatible (Z.to_nat height + 2) c n height = Ret r /\ compat_post c n height r.
Proof. apply CheckCompatible_ok. Qed.
Lemma CheckCompatible_terminates_witness :
  exists r, CheckCompatible (Z.to_nat 7 + 2) MainnetChainConfig TestChainConfig 7 = Ret r /\
    compat_post MainnetChainConfig TestChainConfig 7 r.
Proof. exact (CheckCompatible_terminates MainnetChainConfig TestChainConfig 7 ltac:(done)). Defined.
