(* ===== verification/StorageTheorems.v ===== *)
(** * Theorems about the state database and its encodings *)

From S2P Require Import Prelude Words Uint256 Uint256Arith Uint256Div Uint256Bits Params Config Stack Memory.
From S2P Require Import Opcodes Analysis State Codec Storage StorageFacts World.

(** ** Encodings *)
Lemma len_sinkBytes s : sink_ok s -> len (sinkBytes s) = blen s.
Proof. intros [Hr _]. by apply len_take. Qed.

(** Variable-length byte strings round-trip through the zero-copy codec:
    whatever was written before and whatever follows, reading back what
    [WriteVarBytes] appended yields the same bytes, no error, and leaves the
    source right behind them. *)
Theorem varbytes_roundtrip d s post :
  sink_ok s -> len d <= max_slice -> blen s + getVarUintSize (len d) + len d + len post <= max_sink ->
  exists n s', WriteVarBytes d s = Ret (n, s') /\
    ReadVarBytes (mkSource (sinkBytes s' ++ post) (len (sinkBytes s)))
    = Ret ((d, None), mkSource (sinkBytes s' ++ post) (len (sinkBytes s'))).
Proof.
  intros Hs Hd Hl. assert (Hz : 1 <= getVarUintSize (len d)) by (unfold getVarUintSize; zbool; lia). pose proof (len_nonneg post).
  assert (Hv : is_u64 (len d)) by (pose proof (len_nonneg d); unfold is_u64, max_slice in *; lia).
  destruct (WriteVarBytes_appends d ltac:(unfold max_slice, max_sink in *; lia) s Hs) as (s' & E & _ & Hb & Hbl).
  { rewrite len_app, len_var_uint. lia. }
  eexists _, s'. split; [exact E|]. rewrite Hb, <- app_assoc. rewrite (app_assoc (sinkBytes s) (_ ++ _)).
  rewrite <- (app_assoc (sinkBytes s) (_ ++ _)). apply ReadVarBytes_reads; [done|].
  rewrite !len_app, len_var_uint. rewrite len_sinkBytes by done. lia.
Qed.
Lemma varbytes_roundtrip_witness :
  exists n s', WriteVarBytes (replicate 300 7) NewZeroCopySink = Ret (n, s') /\
    ReadVarBytes (mkSource (sinkBytes s' ++ [1; 2]) (len (sinkBytes NewZeroCopySink)))
    = Ret ((replicate 300 7, None), mkSource (sinkBytes s' ++ [1; 2]) (len (sinkBytes s'))).
Proof. apply (varbytes_roundtrip (replicate 300 7) NewZeroCopySink [1; 2]); [apply NewZeroCopySink_ok|done|done]. Defined.

(** Accounts round-trip: an account with a balance and fields of their
    Go types is serialised without a panic, and deserialising the bytes gives
    the account back without an error. *)
Theorem account_roundtrip a b : account_ok a -> Balance a = Some b ->
  exists raw src, SerializeToBytes a = Ret raw /\ Deserialization (NewZeroCopySource raw) = Ret ((a, None), src).
Proof.
  intros Ha Eb. exists (account_bytes (Nonce a) b (acctCode a) (acctCodeHash a)). pose proof Ha as [? Hb ? ?].
  destruct (Deserialization_account (Nonce a) b (acctCode a) (acctCodeHash a)) as [src E]; [auto..|].
  exists src. split; [by apply SerializeToBytes_ok|]. rewrite E. destruct a; cbn in *. by subst.
Qed.
Lemma account_roundtrip_witness :
  exists raw src, SerializeToBytes (mkAccount 5 (Some (of_Z 77)) storeCode (hash0 storeCode)) = Ret raw /\
    Deserialization (NewZeroCopySource raw) = Ret ((mkAccount 5 (Some (of_Z 77)) storeCode (hash0 storeCode), None), src).
Proof.
  apply (account_roundtrip (mkAccount 5 (Some (of_Z 77)) storeCode (hash0 storeCode)) (of_Z 77)); [|reflexivity].
  split; cbn; [done|intros b [= <-]; apply of_Z_ok|by apply slice_lit|apply is_hash0].
Defined.

(** ** Snapshots *)
Section Snapshots.
Context {D : Type} `{MemDB D} `{!MemDBLaws D} (keccak : bytes -> Hash) (Hkeccak : forall b, is_hash (keccak b)).

(** The writes a transaction makes, in any order. *)
Inductive db_op :=
| OSetState (a : Address) (k v : Hash) | OAddBalance (a : Address) (v : Z) | OSubBalance (a : Address) (v : Z)
| OSetNonce (a : Address) (n : Z) | OSetCode (a : Address) (code : bytes) | OAddRefund (g : Z) | OSubRefund (g : Z)
| OSuicide (a : Address) | OAddLog (l : StorageLog) | OSnapshot.
Definition op_ok (o : db_op) : Prop :=
  match o with
  | OSetState _ _ v => is_hash v
  | OSetNonce _ n => is_u64 n
  | OSetCode _ code => is_slice code
  | OAddRefund g | OSubRefund g => is_u64 g
  | _ => True
  end.
Definition run_op (o : db_op) (s : StorageDB D) : option (StorageDB D) :=
  match o with
  | OSetState a k v => snd <$> sdbSetState a k v s
  | OAddBalance a v => snd <$> sdbAddBalance a v s
  | OSubBalance a v => snd <$> sdbSubBalance a v s
  | OSetNonce a n => snd <$> sdbSetNonce a n s
  | OSetCode a code => snd <$> sdbSetCode keccak a code s
  | OAddRefund g => snd <$> sdbAddRefund g s
  | OSubRefund g => snd <$> sdbSubRefund g s
  | OSuicide a => snd <$> sdbSuicide a s
  | OAddLog l => snd <$> sdbAddLog l s
  | OSnapshot => snd <$> sdbSnapshot s
  end.
Fixpoint run_ops (ops : list db_op) (s : StorageDB D) : option (StorageDB D) :=
  match ops with [] => Some s | o :: ops => s ← run_op o s; run_ops ops s end.

Lemma method_run {A} w (P : A -> Prop) m s s' : method storage_ok same_world_db saved_db w P m -> storage_ok s ->
  snd <$> m s = Some s' -> storage_ok s' /\ keeps_saved saved_db s s'.
Proof.
  intros Hm Hs E. destruct (m s) as [[a s1]|] eqn:E1; [|done]. injection E as <-.
  by destruct (Hm _ _ _ Hs E1) as (? & _ & ? & _).
Qed.
Lemma run_op_keeps o s s' : storage_ok s -> op_ok o -> run_op o s = Some s' ->
  storage_ok s' /\ keeps_saved saved_db s s'.
Proof.
  intros Hs Ho E. pose (spec := storage_spec (D := D) keccak Hkeccak).
  destruct o; cbn [op_ok run_op] in Ho, E.
  - eapply method_run; [by apply (@SetState_spec _ _ spec)|exact Hs|exact E].
  - eapply method_run; [by apply (@AddBalance_spec _ _ spec)|exact Hs|exact E].
  - eapply method_run; [by apply (@SubBalance_spec _ _ spec)|exact Hs|exact E].
  - eapply method_run; [by apply (@SetNonce_spec _ _ spec)|exact Hs|exact E].
  - eapply method_run; [by apply (@SetCode_spec _ _ spec)|exact Hs|exact E].
  - eapply method_run; [by apply (@AddRefund_spec _ _ spec)|exact Hs|exact E].
  - eapply method_run; [by apply (@SubRefund_spec _ _ spec)|exact Hs|exact E].
  - eapply method_run; [by apply (@Suicide_spec _ _ spec)|exact Hs|exact E].
  - eapply method_run; [by apply (@AddLog_spec _ _ spec)|exact Hs|exact E].
  - injection E as <-. destruct (Snapshot_db s _ _ Hs eq_refl) as (? & _ & _ & Hk). split; [done|].
    intros j s0 Hj. by apply Hk.
Qed.
Lemma run_ops_keeps ops : forall s s', storage_ok s -> Forall op_ok ops -> run_ops ops s = Some s' ->
  storage_ok s' /\ keeps_saved saved_db s s'.
Proof.
  induction ops as [|o ops IH]; intros s s' Hs Ho E; [injection E as <-; by split; [|intros j s0]|].
  apply list.Forall_cons in Ho as [Ho1 Ho]. cbn in E. destruct (run_op o s) as [s1|] eqn:E1; [|done].
  destruct (run_op_keeps o s s1 Hs Ho1 E1) as [Hs1 Hk1]. destruct (IH s1 s' Hs1 Ho E) as [? Hk2].
  split; [done|]. intros j s0 Hj. by apply Hk2, Hk1.
Qed.
Lemma revert_defined id s s0 : saved_db s id s0 -> exists s', sdbRevertToSnapshot id s = Some ((), s').
Proof.
  intros [Hid (sn & Hsn & _)]. pose proof (lookup_lt_Some _ _ _ Hsn). unfold sdbRevertToSnapshot.
  destruct (Z.ltb_spec (Z.of_nat (length (snapshots s))) (id + 1)); [lia|].
  destruct (Z.ltb_spec id 0); [lia|]. rewrite Hsn. by eexists.
Qed.
End Snapshots.

(** C25.  Reverting to a snapshot restores the world: after [Snapshot], any
    sequence of writes (storage, balances, nonces, code, refunds, suicides,
    logs, further snapshots) that the database accepts, [RevertToSnapshot]
    succeeds and the database shows exactly the accounts, storage, logs, refund
    counter and suicides of the moment of the snapshot. *)
Theorem snapshot_revert_restores {D} `{MemDBLaws D} keccak (s s1 s2 : StorageDB D) id ops :
  (forall b, is_hash (keccak b)) -> storage_ok s -> sdbSnapshot s = Some (id, s1) -> Forall op_ok ops ->
  run_ops keccak ops s1 = Some s2 ->
  exists s3, sdbRevertToSnapshot id s2 = Some ((), s3) /\ storage_ok s3 /\ same_world_db s s3.
Proof.
  intros Hk Hs Es Ho E. destruct (Snapshot_db s id s1 Hs Es) as (Hs1 & _ & Hsv & _).
  destruct (run_ops_keeps keccak Hk ops s1 s2 Hs1 Ho E) as [Hs2 Hkeep]. specialize (Hkeep _ _ Hsv).
  destruct (revert_defined id s2 s Hkeep) as [s3 E3]. exists s3. split; [done|].
  destruct (RevertToSnapshot_db id s2 () s3 Hs2 E3) as [Hs3 Hw]. split; [done|]. by apply Hw.
Qed.
Definition ops0 : list db_op :=
  [OSetState alice (hash0 []) (hash0 [1]); OSubBalance alice 5; OAddBalance bob 5; OSnapshot; OSuicide storer; OAddRefund 10].
Lemma snapshot_revert_restores_witness :
  let s1 := default state0 (snd <$> sdbSnapshot state0) in
  let s2 := default state0 (run_ops hash0 ops0 s1) in
  exists s3, sdbRevertToSnapshot 0 s2 = Some ((), s3) /\ storage_ok s3 /\ same_world_db state0 s3.
Proof.
  intros s1 s2. apply (snapshot_revert_restores hash0 state0 s1 s2 0 ops0); [apply is_hash0|apply state0_ok|reflexivity| |].
  - repeat constructor; try done; apply be_bytes_ok.
  - unfold s2. destruct (run_ops hash0 ops0 s1) eqn:E; [reflexivity|]. exfalso.
    assert (Hd : match run_ops hash0 ops0 s1 with Some _ => true | None => false end = true) by (vm_compute; reflexivity).
    rewrite E in Hd. discriminate Hd.
Defined.

(** Storage is a map: after [SetState] a slot reads back the 32-byte
    value written, and every other slot of every contract reads as before. *)
Theorem storage_set_get {D} `{MemDBLaws D} (s s1 : StorageDB D) a k v a' k' :
  is_address a -> is_address a' -> is_hash k -> is_hash k' -> is_hash v -> sdbSetState a k v s = Some ((), s1) ->
  (fst <$> sdbGetState a k s1 = Some v) /\
  ((a, k) <> (a', k') -> fst <$> sdbGetState a' k' s1 = fst <$> sdbGetState a' k' s).
Proof.
  intros [_ Ha] [_ Ha'] [_ Hk] [_ Hk'] [Hv Hl] [= <-]. unfold sdbGetState, cacheGet, genKey. cbn [cacheDB set_cache cachePut memdb backend].
  split.
  - rewrite memGet_put. cbn. f_equal. unfold BytesToHash. unfold len. rewrite Hl. change (32 <? Z.of_nat 32) with false. cbv iota. by rewrite Hl.
  - intros Hne. rewrite memGet_put_ne; [by repeat case_match; simplify_eq|].
    intros E. injection E as E. apply app_inj_1 in E as [-> ->]; [done|congruence].
Qed.
Lemma storage_set_get_witness :
  let s1 := default state0 (snd <$> sdbSetState alice (hash0 []) (hash0 [1]) state0) in
  (fst <$> sdbGetState alice (hash0 []) s1 = Some (hash0 [1])) /\
  ((alice, hash0 []) <> (bob, hash0 []) -> fst <$> sdbGetState bob (hash0 []) s1 = fst <$> sdbGetState bob (hash0 []) state0).
Proof.
  apply (storage_set_get state0 _ alice (hash0 []) (hash0 [1]) bob (hash0 []));
    [apply is_addr0|apply is_addr0|apply is_hash0|apply is_hash0|apply is_hash0|reflexivity].
Defined.

(** Committing the cache loses nothing: after [CacheDB.Commit] every key
    reads as before, now from the layer below, and the cache is empty. *)
Theorem commit_preserves_view {D} `{MemDBLaws D} (c : CacheDB D) key :
  view (cacheCommit c) key = view c key /\ memGet key (memdb (cacheCommit c)) = None.
Proof. apply cacheCommit_view. Qed.
Lemma commit_preserves_view_witness :
  let c := cachePut ST_STORAGE (genKey alice (hash0 [])) [7] (cacheDB state0) in
  let key := ST_STORAGE :: genKey alice (hash0 []) in
  view (cacheCommit c) key = view c key /\ memGet key (memdb (cacheCommit c)) = None.
Proof. exact (commit_preserves_view (cachePut ST_STORAGE (genKey alice (hash0 [])) [7] (cacheDB state0)) _). Defined.

(** C40.  A balance can vanish: for an account with nonce zero and no code
    hash, [AddBalance] stores the account as deleted, so the balance is gone and
    the next [GetBalance] dereferences a nil pointer. *)
Theorem balance_only_account_is_lost {D} `{MemDBLaws D} (s : StorageDB D) addr b code v c :
  GetEthAccount addr (cacheDB s) = Some (inl (mkAccount 0 (Some b) code zero_hash), c) ->
  exists s', sdbAddBalance addr v s = Some ((), s') /\ sdbGetBalance addr s' = None.
Proof.
  intros E. unfold sdbAddBalance, onBalance, bhAddBalance, modBalance. rewrite E. cbn.
  eexists. split; [reflexivity|]. unfold sdbGetBalance, bhGetBalance, GetEthAccount, cacheGet. cbn.
  by rewrite memGet_put.
Qed.
Definition poor_state : StorageDB Table :=
  NewStateDB (mkCache ∅ (mkOverlay (fun _ => Found (account_bytes 0 (of_Z 5) [] zero_hash)) ∅ None)) zero_hash zero_hash.
Lemma balance_only_account_is_lost_witness :
  exists s', sdbAddBalance bob 10 poor_state = Some ((), s') /\ sdbGetBalance bob s' = None.
Proof.
  refine (balance_only_account_is_lost poor_state bob (of_Z 5) [] 10 (cacheDB poor_state) _). vm_compute. reflexivity.
Defined.
