(* ===== verification/ExecutorTheorems.v ===== *)
(** * Theorems about transactions *)

From S2P Require Import Prelude Words Uint256 Uint256Arith Uint256Div Uint256Bits Params Config Stack Memory.
From S2P Require Import Opcodes Analysis State GasTable Instructions JumpTable Evm Interpreter Invariants.
From S2P Require Import InstrSafety GasSafety StepSafety TableSafety Safety Codec Storage StorageFacts.
From S2P Require Import Executor ExecutorFacts World EvmTheorems.

(** Intrinsic gas in closed form: for messages up to 2^57 bytes
    [IntrinsicGas] does not hit its overflow panics and is 21000, or 53000 for
    a creation from Homestead on, plus 68 (16 with EIP-2028) per non-zero and 4
    per zero byte. *)
Theorem intrinsic_gas_formula data creation homestead eip2028 : len data <= 2 ^ 57 ->
  IntrinsicGas data creation homestead eip2028 =
  Ret ((if creation && homestead then 53000 else 21000)
       + (if eip2028 then 16 else 68) * nonzero data + 4 * (len data - nonzero data)).
Proof. intros. by apply IntrinsicGas_ok. Qed.
Lemma intrinsic_gas_formula_witness : IntrinsicGas [1; 0; 7] true true true = Ret (53000 + 16 * nonzero [1; 0; 7] + 4 * (len [1; 0; 7] - nonzero [1; 0; 7])).
Proof. apply (intrinsic_gas_formula [1; 0; 7] true true true). done. Defined.

(** C2.  Gas accounting of a transaction: with a sound environment and table,
    and fuel above the gas limit, applying a message terminates without a
    panic of the modelled code.  Either the nonce check refuses it and the
    world is unchanged, or: the sender is charged for the gas bought, the
    message runs with it, the gas [used] is at most what was bought, at least
    half the intrinsic cost (refunds are capped at half), the unused gas is paid
    back to the sender and the used gas to the receiver at the same price, and
    bought gas never exceeds the message's limit. *)
Theorem transaction_gas_accounting {S : Type} `{StateDBSpec S} `{Mode} (env : Env S) config eips jt fuel msg receiver e :
  env_ok env -> forallb (known_eip (chainRules env)) eips = true ->
  NewEVMInterpreter (chainRules env) eips = Ret jt ->
  (forall a s b s', db_ok s -> GetBalance a s = Some (b, s') -> 0 <= b) -> msg_ok fuel msg ->
  evm_ok e -> static e = false ->
  wp (applyMsg env config (Run env jt fuel) msg receiver) (applied env config jt fuel msg receiver e) e.
Proof. intros Henv He Hjt Hb Hm Hev Hs. apply applyMsg_ok; try done. by eapply built_good. Qed.

Lemma balances_nonneg a (s : StorageDB Table) b s' : storage_ok s -> sdbGetBalance a s = Some (b, s') -> 0 <= b.
Proof.
  intros Hs. unfold sdbGetBalance, bhGetBalance. destruct (GetEthAccount a (cacheDB s)) as [[[ac|er] c]|] eqn:E; try done; cbn.
  - destruct (Balance ac) as [x|] eqn:Eb; [|done]. cbn. intros [= <- <-].
    destruct (GetEthAccount_ok _ _ _ _ (st_cache _ Hs) E) as [_ Ha]. apply val_range. by apply (Ha ac eq_refl).
  - by intros [= <- <-].
Qed.
Lemma msg0_ok dst fuel gas price v : is_address dst -> 0 <= gas < Z.min (Z.of_nat fuel) W -> 0 <= price ->
  msg_ok fuel (msg0 (Some dst) gas price v).
Proof. intros Hd Hg Hp. split; cbn; try done; [apply is_addr0|by intros a [= <-]]. Qed.
Lemma transaction_gas_accounting_witness :
  wp (applyMsg (env0 msg0') config0 (Run (env0 msg0') table0 (Z.to_nat 60001)) (msg0 (Some storer) 60000 1 0) bob)
     (applied (env0 msg0') config0 table0 (Z.to_nat 60001) (msg0 (Some storer) 60000 1 0) bob evm0) evm0.
Proof.
  refine (transaction_gas_accounting (env0 msg0') config0 [] table0 (Z.to_nat 60001) (msg0 (Some storer) 60000 1 0) bob evm0
    (env0_ok msg0' eq_refl) eq_refl table0_built balances_nonneg _ evm0_ok eq_refl).
  apply msg0_ok; [apply is_addr0|split; lia|done].
Defined.

(** ** Balances of a message that cannot pay its intrinsic gas *)
Section Unpaid.
Context {D : Type} `{MemDBLaws D} (keccak : bytes -> Hash).
#[local] Instance unpaid_db : StateDB (StorageDB D) := storage_StateDB keccak.
Implicit Types s : StorageDB D.

(** An account that is stored, with a balance, and read back without an error. *)
Definition lasting (a : EthAccount) : Prop := account_ok a /\ IsEmpty a = false /\ is_Some (Balance a).
Definition stands (addr : Address) (a : EthAccount) s : Prop :=
  lasting a /\ GetEthAccount addr (cacheDB s) = Some (inl a, cacheDB s).
Definition with_nonce (n : Z) (a : EthAccount) : EthAccount := mkAccount n (Balance a) (acctCode a) (acctCodeHash a).
Definition with_balance (v : Z) (a : EthAccount) : EthAccount :=
  mkAccount (Nonce a) (Some (of_Z v)) (acctCode a) (acctCodeHash a).
(** From [s] to [s']: the account of [addr] became [a], all others and the refund are kept. *)
Definition rewrites (addr : Address) (a : EthAccount) s s' : Prop :=
  stands addr a s' /\ refund s' = refund s /\ forall addr' a', addr' <> addr -> stands addr' a' s -> stands addr' a' s'.

Lemma set_cache_same s : set_cache (cacheDB s) s = s.
Proof. by destruct s. Qed.
Lemma GetEthAccount_put addr a b c : account_ok a -> Balance a = Some b ->
  let c' := cachePut ST_ETH_ACCOUNT addr (account_bytes (Nonce a) b (acctCode a) (acctCodeHash a)) c in
  GetEthAccount addr c' = Some (inl a, c').
Proof.
  intros Ha Eb c'. unfold GetEthAccount, cacheGet, c'. cbn [memdb cachePut]. rewrite memGet_put. destruct a as [n ob code h]. cbn in Eb. subst ob.
  destruct (Deserialization_account n b code h) as [z Ez]; try apply Ha; [done|]. cbn [Nonce acctCode acctCodeHash]. rewrite Ez.
  destruct (Z.eqb_spec (len (account_bytes n b code h)) 0) as [E0|]; [|done].
  rewrite len_account in E0 by apply Ha. pose proof (len_nonneg code). unfold getVarUintSize in E0. revert E0. zbool; lia.
Qed.
Lemma GetEthAccount_other addr addr' v c r : addr' <> addr -> GetEthAccount addr' c = Some (inl r, c) ->
  let c' := cachePut ST_ETH_ACCOUNT addr v c in GetEthAccount addr' c' = Some (inl r, c').
Proof.
  intros Hne E c'. unfold GetEthAccount, cacheGet, c' in *. cbn [memdb backend cachePut]. rewrite memGet_put_ne by congruence.
  destruct (memGet _ (memdb c)) as [w|].
  - destruct (len w =? 0); [by simplify_eq|]. by destruct (Deserialization _) as [[[x [er|]] q]|[]|]; simplify_eq.
  - destruct (overlayGet _ (backend c)) as [[w|er] o]; [|done]. destruct c as [m bk].
    destruct (len w =? 0); [by simplify_eq|]. by destruct (Deserialization _) as [[[x [er|]] q]|[]|]; simplify_eq.
Qed.
Lemma putEthAccount_rewrites addr a s : lasting a -> exists s', putEthAccount addr a s = Some ((), s') /\ rewrites addr a s s'.
Proof.
  intros (Ha & He & b & Eb). unfold putEthAccount, PutEthAccount. rewrite He, (SerializeToBytes_ok a b) by done. cbn.
  eexists. split; [done|]. split_and!; [split; [by split_and!|by apply GetEthAccount_put]|done|].
  intros addr' a' Hne [Hl E]. split; [done|]. by apply GetEthAccount_other.
Qed.

Lemma GetBalance_stands addr a b s : stands addr a s -> Balance a = Some b -> sdbGetBalance addr s = Some (val b, s).
Proof.
  intros [_ E] Eb. unfold sdbGetBalance, bhGetBalance. rewrite E. cbn. rewrite Eb. cbn. by rewrite set_cache_same.
Qed.
Lemma GetNonce_stands addr a s : stands addr a s -> sdbGetNonce addr s = Some (Nonce a, s).
Proof. intros [_ E]. unfold sdbGetNonce, getEthAccount. rewrite E. cbn. by rewrite set_cache_same. Qed.
Lemma SetNonce_stands addr a n s : stands addr a s -> lasting (with_nonce n a) ->
  exists s', sdbSetNonce addr n s = Some ((), s') /\ rewrites addr (with_nonce n a) s s'.
Proof.
  intros [_ E] Hl. unfold sdbSetNonce, getEthAccount. rewrite E. cbn. rewrite set_cache_same. by apply putEthAccount_rewrites.
Qed.
Lemma lasting_balance a v : lasting a -> lasting (with_balance v a).
Proof.
  intros (Ha & He & _). split_and!; [|done|by eexists]. destruct Ha. split; try done. intros b [= <-]. apply of_Z_ok.
Qed.
Lemma modBalance_stands addr a b f v s : stands addr a s -> Balance a = Some b -> f b = of_Z v ->
  exists s', onBalance (modBalance f addr) s = Some ((), s') /\ rewrites addr (with_balance v a) s s'.
Proof.
  intros [Hl E] Eb Ef. destruct (putEthAccount_rewrites addr (with_balance v a) s (lasting_balance a v Hl)) as (s' & Ep & Hr).
  exists s'. split; [|done]. unfold onBalance, modBalance. rewrite E. cbn. rewrite Eb. cbn. rewrite Ef. fold (with_balance v a).
  unfold putEthAccount in Ep. by destruct (PutEthAccount _ _ _); simplify_eq/=.
Qed.
Lemma FromBig_small v : 0 <= v < W256 -> (FromBig v).1 = of_Z v.
Proof. intros. unfold FromBig. by rewrite SetFromBig_ok. Qed.
Lemma AddBalance_stands addr a b v s : stands addr a s -> Balance a = Some b -> 0 <= v < W256 ->
  exists s', sdbAddBalance addr v s = Some ((), s') /\ rewrites addr (with_balance (val b + v) a) s s'.
Proof.
  intros Hs Eb Hv. apply (modBalance_stands addr a b); [done..|]. rewrite FromBig_small by done.
  pose proof (a_balance _ (proj1 (proj1 Hs)) _ Eb). rewrite Add_spec, val_of_Z, Z.mod_small by (done || apply of_Z_ok). done.
Qed.
Lemma SubBalance_stands addr a b v s : stands addr a s -> Balance a = Some b -> 0 <= v < W256 ->
  exists s', sdbSubBalance addr v s = Some ((), s') /\ rewrites addr (with_balance (val b - v) a) s s'.
Proof.
  intros Hs Eb Hv. apply (modBalance_stands addr a b); [done..|]. rewrite FromBig_small by done.
  pose proof (a_balance _ (proj1 (proj1 Hs)) _ Eb). rewrite Sub_spec, val_of_Z, Z.mod_small by (done || apply of_Z_ok). done.
Qed.

(** Database methods as steps of the EVM's state. *)
Lemma db_eq {A} (m : StorageDB D -> option (A * StorageDB D)) e a s : m (statedb e) = Some (a, s) -> db m e = Ret (a, set_statedb s e).
Proof. intros E. unfold db. by rewrite E. Qed.
Lemma db_reads {A} (m : StorageDB D -> option (A * StorageDB D)) e a : m (statedb e) = Some (a, statedb e) -> db m e = Ret (a, e).
Proof. intros E. rewrite (db_eq _ _ _ _ E). by destruct e. Qed.

Context (env : Env (StorageDB D)) (config : ChainConfig).
Context (Run : Contract -> bytes -> bool -> M (EVM (StorageDB D)) (bytes * option error * Contract)).
Context (msg : message) (receiver : Address).
Abbreviation cost := (intrinsic_cost (data msg) (bool_decide (to msg = None))
  (IsHomestead config (Some (BlockNumber env))) (IsIstanbul config (Some (BlockNumber env)))).

(** The accounts of the sender and of the fee receiver. *)
Definition parties (x y : EthAccount) s : Prop := stands (from msg) x s /\ stands receiver y s /\ receiver <> from msg.
Lemma parties_sender x y x' s s' : parties x y s -> rewrites (from msg) x' s s' -> parties x' y s' /\ refund s' = refund s.
Proof. intros (Hx & Hy & Hne) (Hx' & Hr & Ho). split; [|done]. split_and!; [done|by apply Ho|done]. Qed.
Lemma parties_receiver x y y' s s' : parties x y s -> rewrites receiver y' s s' -> parties x y' s' /\ refund s' = refund s.
Proof. intros (Hx & Hy & Hne) (Hy' & Hr & Ho). split; [|done]. split_and!; [by apply Ho|done|done]. Qed.

Lemma preCheck_parties x y b e : parties x y (statedb e) -> Balance x = Some b ->
  is_u64 (msgGas msg) -> 0 <= gasPrice msg -> (checkNonce msg = true -> msgNonce msg = Nonce x) ->
  exists s', preCheck msg (mkTransition 0 0) e =
    Ret (inl (mkTransition (purchase msg (val b)).2 (purchase msg (val b)).2), set_statedb s' e) /\
    parties (with_balance (val b - (purchase msg (val b)).1) x) y s' /\ refund s' = refund (statedb e) /\
    0 <= (purchase msg (val b)).1 <= val b /\ 0 <= (purchase msg (val b)).2 <= msgGas msg /\
    (purchase msg (val b)).2 * gasPrice msg <= val b.
Proof.
  intros Hp Eb Hg Hpr Hn. pose proof (a_balance _ (proj1 (proj1 (proj1 Hp))) _ Eb) as Hi. pose proof (val_range _ Hi) as Hv.
  assert (Hb : 0 <= (purchase msg (val b)).1 <= val b /\ 0 <= (purchase msg (val b)).2 <= msgGas msg /\
    (purchase msg (val b)).2 * gasPrice msg <= val b).
  { unfold purchase, is_u64 in *. destruct (Z.ltb_spec (val b) (msgGas msg * gasPrice msg)); cbn; [|nia].
    assert (0 < gasPrice msg) by nia. pose proof (Z.mul_div_le (val b) (gasPrice msg)).
    assert (0 <= val b / gasPrice msg) by (apply Z.div_pos; lia).
    assert (val b / gasPrice msg <= msgGas msg) by (apply Z.div_le_upper_bound; nia). nia. }
  destruct (SubBalance_stands (from msg) x b (purchase msg (val b)).1 (statedb e)) as (s' & Es & Hr); [apply Hp|done|lia|].
  destruct (parties_sender _ _ _ _ _ Hp Hr) as [Hp' Hf]. exists s'. split; [|done].
  unfold preCheck. assert (E0 : (if checkNonce msg then stNonce ← db (GetNonce (from msg));
       mret (if stNonce <? msgNonce msg then Some ErrNonceTooHigh else if msgNonce msg <? stNonce then Some ErrNonceTooLow else None)
     else mret None) e = Ret (None, e)).
  { destruct (checkNonce msg); [|done]. erewrite M_bind_eq by by apply db_reads, GetNonce_stands, Hp.
    rewrite Hn by done. by rewrite Z.ltb_irrefl. }
  rewrite (M_bind_eq _ _ _ _ _ E0). unfold buyGas.
  assert (E1 : db (GetBalance (from msg)) e = Ret (val b, e)) by (eapply db_reads, GetBalance_stands; [apply Hp|done]).
  destruct Hb as (Hb1 & Hb2 & _). erewrite M_bind_eq; [done|]. rewrite (M_bind_eq _ _ _ _ _ E1).
  erewrite (M_bind_eq _ _ _ (purchase msg (val b))).
  - cbv beta. destruct (purchase msg (val b)) as [paid gas]. cbn [fst snd] in *.
    erewrite M_bind_eq by (apply db_eq; exact Es). cbn [stGas]. rewrite add64_nowrap by (unfold is_u64 in *; lia). done.
  - unfold purchase in *. destruct (Z.ltb_spec (val b) (msgGas msg * gasPrice msg)); [|done].
    destruct (Z.eqb_spec (gasPrice msg) 0); [unfold is_u64 in *; nia|]. cbn in Hb2.
    unfold bigDiv, bigUint64. rewrite Z.sgn_pos, Z.abs_eq, Z.mul_1_l by lia. rewrite Z.abs_eq, Z.mod_small by (unfold is_u64 in *; lia). done.
Qed.

(** Too little gas for the intrinsic cost: nothing runs, all the gas is taken. *)
Lemma deliver_parties x y gas e : parties x y (statedb e) -> IsEmpty (with_nonce (add64 (Nonce x) 1) x) = false ->
  is_u64 gas -> gas < cost -> len (data msg) <= max_data ->
  exists s', deliver env config Run msg (mkTransition gas gas) e = Ret (([], 0, Some ErrIntrinsicGas), set_statedb s' e) /\
    parties (with_nonce (add64 (Nonce x) 1) x) y s' /\ refund s' = refund (statedb e).
Proof.
  intros Hp He Hg Hc Hd. assert (Hl : lasting (with_nonce (add64 (Nonce x) 1) x)).
  { destruct (proj1 (proj1 Hp)) as ([] & _ & Hb). split_and!; [|done|done]. split; try done. cbn. apply add64_range. }
  destruct (SetNonce_stands _ _ _ _ (proj1 Hp) Hl) as (s' & Es & Hr).
  destruct (parties_sender _ _ _ _ _ Hp Hr) as [Hp' Hf]. exists s'. split; [|done].
  unfold deliver. erewrite (M_bind_eq _ _ _ (gas, Some ErrIntrinsicGas)).
  - cbv beta iota. cbn [stGas]. erewrite M_bind_eq; [by rewrite sub64_nowrap, Z.sub_diag by (unfold is_u64 in *; lia)|].
    unfold bumpNonce. erewrite M_bind_eq by by apply db_reads, GetNonce_stands, Hp. by apply db_eq.
  - unfold intrinsic. rewrite IntrinsicGas_ok by done. cbn [stGas]. change (lift (Ret ?z) ≫= ?k) with (k z). cbv beta.
    by destruct (Z.ltb_spec gas cost); [|lia].
Qed.

Lemma refundGas_parties x y b gas e : parties x y (statedb e) -> Balance x = Some b -> is_u64 gas -> is_u64 (refund (statedb e)) ->
  0 <= gasPrice msg -> gas * gasPrice msg < W256 ->
  let back := Z.min (refund (statedb e)) (gas / 2) in
  exists s', refundGas msg (mkTransition 0 gas) e = Ret (mkTransition back gas, set_statedb s' e) /\
    parties (with_balance (val b + back * gasPrice msg) x) y s'.
Proof.
  intros Hp Eb Hg Hr Hpr Hlt back. unfold is_u64 in *. assert (Hbk : 0 <= back <= gas / 2 /\ gas / 2 <= gas) by (assert (0 <= gas / 2 <= gas) by dlia; unfold back; lia).
  destruct (AddBalance_stands (from msg) x b (back * gasPrice msg) (statedb e)) as (s' & Es & Hw); [apply Hp|done|nia|].
  exists s'. split; [|by eapply parties_sender]. unfold refundGas, gasUsed. cbn [stGas initialGas]. rewrite sub64_nowrap, Z.sub_0_r by (unfold is_u64; lia).
  assert (E0 : forall e, db GetRefund e = Ret (refund (statedb e), e)) by (intros []; done).
  rewrite (M_bind_eq _ _ _ _ _ (E0 e)). erewrite (M_bind_eq _ _ _ back e).
  - rewrite add64_nowrap, Z.add_0_l by (unfold is_u64; lia). by erewrite M_bind_eq by (apply db_eq; exact Es).
  - unfold back. destruct (Z.ltb_spec (refund (statedb e)) (gas / 2)); [rewrite E0, Z.min_l by lia|rewrite Z.min_r by lia]; done.
Qed.

Lemma applyMsg_parties x y b b' e : parties x y (statedb e) -> Balance x = Some b -> Balance y = Some b' ->
  IsEmpty (with_nonce (add64 (Nonce x) 1) x) = false -> (checkNonce msg = true -> msgNonce msg = Nonce x) ->
  is_u64 (msgGas msg) -> 0 <= gasPrice msg -> len (data msg) <= max_data -> is_u64 (refund (statedb e)) ->
  val b + val b' < 2 ^ 255 -> (purchase msg (val b)).2 < cost ->
  let '(paid, gas) := purchase msg (val b) in
  let used := gas - Z.min (refund (statedb e)) (gas / 2) in
  exists e', applyMsg env config Run msg receiver e = Ret (inl (used, Some ErrIntrinsicGas, []), e') /\
    fst <$> sdbGetBalance (from msg) (statedb e') = Some (val b - paid + (gas - used) * gasPrice msg) /\
    fst <$> sdbGetBalance receiver (statedb e') = Some (val b' + used * gasPrice msg).
Proof.
  intros Hp Eb Eb' He Hn Hg Hpr Hd Hr Hsum Hc.
  destruct (preCheck_parties x y b e Hp Eb Hg Hpr Hn) as (s1 & E1 & Hp1 & Hr1 & Hb1 & Hb2 & Hb3).
  pose proof (val_range _ (a_balance _ (proj1 (proj1 (proj1 (proj2 Hp)))) _ Eb')) as Hv'.
  destruct (purchase msg (val b)) as [paid gas]. cbn [fst snd] in *. unfold is_u64 in Hg.
  set (back := Z.min _ _). cbv zeta. replace (gas - (gas - back)) with back by lia. set (x1 := with_balance (val b - paid) x) in *.
  destruct (deliver_parties x1 y gas (set_statedb s1 e)) as (s2 & E2 & Hp2 & Hr2); try done; [unfold is_u64; lia|].
  assert (Hbk : 0 <= back /\ 2 * back <= gas) by (unfold back, is_u64 in *; dlia).
  assert (Hsmall : 2 * 2 ^ 255 = W256) by done.
  destruct (refundGas_parties (with_nonce (add64 (Nonce x1) 1) x1) y (of_Z (val b - paid)) gas (set_statedb s2 (set_statedb s1 e)))
    as (s3 & E3 & Hp3); try done; [unfold is_u64; lia|by cbn [statedb set_statedb] in *; rewrite Hr2, Hr1|lia|].
  cbn [statedb set_statedb] in Hr2, E3, Hp3. rewrite Hr2, Hr1 in E3, Hp3. fold back in E3, Hp3.
  destruct (AddBalance_stands receiver y b' ((gas - back) * gasPrice msg) s3) as (s4 & E4 & Hw); [apply Hp3|done|nia|].
  destruct (parties_receiver _ _ _ _ _ Hp3 Hw) as [Hp4 _].
  exists (set_statedb s4 (set_statedb s3 (set_statedb s2 (set_statedb s1 e)))). split_and!.
  - unfold applyMsg. rewrite (M_bind_eq _ _ _ _ _ E1). cbv iota. rewrite (M_bind_eq _ _ _ _ _ E2). cbv beta iota. cbn [initialGas].
    rewrite (M_bind_eq _ _ _ _ _ E3). cbv beta. unfold gasUsed. cbn [stGas initialGas]. rewrite sub64_nowrap by (unfold is_u64; lia).
    by erewrite M_bind_eq by (apply db_eq; exact E4).
  - erewrite GetBalance_stands by (apply Hp4 || done). cbn. rewrite !val_of_Z, (Z.mod_small (val b - paid)), Z.mod_small by nia. done.
  - erewrite GetBalance_stands by (apply Hp4 || done). cbn. rewrite val_of_Z, Z.mod_small by nia. done.
Qed.
(** C39.  Money out of nothing.  A message whose gas does not cover its
    intrinsic cost, on the storage database, between a sender and another
    fee receiver whose accounts are stored (with a nonce or a code hash, before
    and after the nonce is counted) and whose balances do not overflow: it ends
    with [ErrIntrinsicGas] and nothing runs; the gas used is what was bought less
    the refund counter, at most half.  A sender who can pay the limit loses
    exactly what the receiver gets.  One who cannot is charged only the quotient
    [balance / price], as the division in [buyGas] overwrites the integer
    [mgval] points to, while refund and fee pay out that quotient times the
    price: the two balances grow together by [quotient * (price - 1)]. *)
Theorem underfunded_sender_mints x y b b' e : parties x y (statedb e) -> Balance x = Some b -> Balance y = Some b' ->
  IsEmpty (with_nonce (add64 (Nonce x) 1) x) = false -> (checkNonce msg = true -> msgNonce msg = Nonce x) ->
  is_u64 (msgGas msg) -> 0 <= gasPrice msg -> len (data msg) <= max_data -> is_u64 (refund (statedb e)) ->
  val b + val b' < 2 ^ 255 -> (if val b <? msgGas msg * gasPrice msg then val b / gasPrice msg else msgGas msg) < cost ->
  let quotient := val b / gasPrice msg in
  let short := val b <? msgGas msg * gasPrice msg in
  let gas := if short then quotient else msgGas msg in
  let used := gas - Z.min (refund (statedb e)) (gas / 2) in
  exists e' sender fees, applyMsg env config Run msg receiver e = Ret (inl (used, Some ErrIntrinsicGas, []), e') /\
    fst <$> sdbGetBalance (from msg) (statedb e') = Some sender /\ fst <$> sdbGetBalance receiver (statedb e') = Some fees /\
    fees = val b' + used * gasPrice msg /\
    sender + fees = val b + val b' + (if short then quotient * (gasPrice msg - 1) else 0).
Proof.
  intros Hp Eb Eb' He Hn Hg Hpr Hd Hr Hsum Hc quotient short gas used.
  pose proof (applyMsg_parties x y b b' e Hp Eb Eb' He Hn Hg Hpr Hd Hr Hsum) as Hm.
  pose proof (val_range _ (a_balance _ (proj1 (proj1 (proj1 Hp))) _ Eb)) as Hv.
  unfold purchase, used, gas, short, quotient, is_u64 in *. destruct (Z.ltb_spec (val b) (msgGas msg * gasPrice msg)); cbn [snd] in Hm.
  - destruct Hm as (e' & E & Es & Er); [lia|]. exists e'. eexists _, _. split_and!; [done..|lia].
  - destruct Hm as (e' & E & Es & Er); [lia|]. exists e'. eexists _, _. split_and!; [done..|lia].
Qed.
End Unpaid.
Lemma stands0 a v : fst <$> GetEthAccount a (cacheDB state0) = Some (inl (mkAccount 0 (Some (of_Z v)) [] (hash0 []))) ->
  stands a (mkAccount 0 (Some (of_Z v)) [] (hash0 [])) state0.
Proof.
  intros E. split.
  - split_and!; [|done|by eexists]. split; cbn; [done|intros ? [= <-]; apply of_Z_ok|by apply slice_lit|apply is_hash0].
  - destruct (GetEthAccount a (cacheDB state0)) as [[r c]|] eqn:Eg; [|done]. injection E as ->.
    destruct (GetEthAccount_calm _ _ _ _ (st_cache _ state0_ok) ltac:(split; [done|]; intros [|p k] code; [done|]; cbn; by destruct (_ =? _)) Eg) as [-> _]. done.
Qed.
(** Alice has 10^18 wei and sends with a gas price of 10^17: she is charged 10
    wei and the receiver is paid 10^18, so the balances together all but double. *)
Lemma underfunded_sender_mints_witness :
  let m := msg0 (Some alice) 21000 (10 ^ 17) 0 in
  exists e' sender fees, applyMsg (env0 m) config0 (Run (env0 m) table0 100) m bob evm0 = Ret (inl (10, Some ErrIntrinsicGas, []), e') /\
    fst <$> sdbGetBalance alice (statedb e') = Some sender /\ fst <$> sdbGetBalance bob (statedb e') = Some fees /\
    fees = 10 ^ 18 /\ sender + fees = 10 ^ 18 + 10 * (10 ^ 17 - 1).
Proof.
  pose (m := msg0 (Some alice) 21000 (10 ^ 17) 0). pose (acc v := mkAccount 0 (Some (of_Z v)) [] (hash0 [])).
  assert (Ha : stands alice (acc (10 ^ 18)) state0) by (apply stands0; vm_compute; reflexivity).
  assert (Hb : stands bob (acc 0) state0) by (apply stands0; vm_compute; reflexivity).
  assert (Hne : bob <> alice) by (apply (bool_decide_unpack _); exact I).
  destruct (underfunded_sender_mints hash0 (env0 m) config0 (Run (env0 m) table0 100) m bob (acc (10 ^ 18)) (acc 0)
    (of_Z (10 ^ 18)) (of_Z 0) evm0 (conj Ha (conj Hb Hne)) eq_refl eq_refl eq_refl) as (e' & sender & fees & E & E1 & E2 & E3 & E4); [by vm_compute..|].
  exists e', sender, fees. split_and!; [|exact E1|exact E2|rewrite E3; by vm_compute|rewrite E4; by vm_compute].
  etransitivity; [exact E|]. by do 4 f_equal.
Defined.

(** ** Revert reasons *)
(** The ABI encoding of [Error(string)]: selector, offset, length, text. *)
Definition encodeRevert (text : bytes) : bytes :=
  revertSelector ++ be_bytes 32 32 ++ be_bytes 32 (len text) ++ text.
Lemma decode_shape text pad : slice 0 4 (encodeRevert text ++ pad) = revertSelector /\
  drop 36 (encodeRevert text ++ pad) = be_bytes 32 (len text) ++ text ++ pad.
Proof.
  unfold encodeRevert. rewrite <- !app_assoc. split; [done|]. rewrite (app_assoc revertSelector).
  rewrite (drop_app_length' (revertSelector ++ be_bytes 32 32)); [done|]. rewrite length_app, length_be_bytes. done.
Qed.
Lemma readLength_be n rest : 0 <= n < 2 ^ 63 -> readLength (be_bytes 32 n ++ rest) = Ret (if 32 + len rest <? n then None else Some n).
Proof.
  intros Hn. unfold readLength. assert (El : len (be_bytes 32 n ++ rest) = 32 + len rest) by (rewrite len_app; unfold len; by rewrite length_be_bytes).
  pose proof (len_nonneg rest). unfold slice_ok. rewrite El. destruct (Z.leb_spec 32 (32 + len rest)); [|lia]. cbn [andb negb Z.leb].
  assert (Es : slice 0 32 (be_bytes 32 n ++ rest) = be_bytes 32 n).
  { unfold slice. rewrite drop_0. replace (Z.to_nat (32 - 0)) with (length (be_bytes 32 n)) by by rewrite length_be_bytes.
    apply take_app_length. }
  rewrite Es, be_val_be_bytes, Z.mod_small by (split; [lia|]; eapply Z.lt_trans; [apply Hn|done]).
  destruct (Z.leb_spec (2 ^ 63) n); [lia|]. by destruct (_ <? n).
Qed.

(** Revert reasons are decoded: for the standard encoding of an error
    text of any length below 2^57, followed by any padding, [DecodeRevert]
    returns the text. *)
Theorem revert_reason_roundtrip text pad spare : len text < 2 ^ 57 ->
  DecodeRevert (encodeRevert text ++ pad) spare = Ret (Some text).
Proof.
  intros Hl. destruct (decode_shape text pad) as [E1 E2]. pose proof (len_nonneg text). pose proof (len_nonneg pad).
  assert (Elen : len (encodeRevert text ++ pad) = 68 + len text + len pad).
  { unfold encodeRevert. rewrite !len_app. unfold len at 2 3. rewrite !length_be_bytes. change (len revertSelector) with 4. lia. }
  unfold DecodeRevert. rewrite E1, E2, Elen. destruct (Z.leb_spec 68 (68 + len text + len pad)); [|lia].
  rewrite bool_decide_eq_true_2 by done. cbn [andb]. rewrite readLength_be by lia. rewrite len_app.
  destruct (Z.ltb_spec (32 + (len text + len pad)) (len text)); [lia|]. cbn [mbind outcome_bind].
  set (d := (be_bytes 32 (len text) ++ text ++ pad) ++ spare).
  assert (Hd : len d = 32 + len text + len pad + len spare).
  { unfold d. rewrite !len_app. unfold len at 1. rewrite length_be_bytes. lia. }
  pose proof (len_nonneg spare).
  assert (Hok : slice_ok 32 (32 + len text) d = true) by (unfold slice_ok; rewrite Hd; zbool; done || lia).
  rewrite Hok. do 2 f_equal. unfold slice, d. rewrite <- !app_assoc.
  change (Z.to_nat 32) with (length (be_bytes 32 (len text))) at 1 || idtac.
  rewrite (drop_app_length' (be_bytes 32 (len text))) by by rewrite length_be_bytes.
  replace (Z.to_nat (32 + len text - 32)) with (length text) by (unfold len; lia). apply take_app_length.
Qed.
Lemma revert_reason_roundtrip_witness : DecodeRevert (encodeRevert [104; 105] ++ replicate 30 0) [] = Ret (Some [104; 105]).
Proof. apply (revert_reason_roundtrip [104; 105] (replicate 30 0) []). done. Defined.

(**  Crafted revert data crashes the executor: whatever lies behind the
    slice, revert data with the [Error(string)] selector and a length that
    exceeds the data makes [DecodeRevert], and so [NewExecutionResult], panic. *)
Theorem crafted_revert_data_panics n rest spare err used :
  32 + len rest < n < 2 ^ 63 ->
  let ret := revertSelector ++ be_bytes 32 32 ++ be_bytes 32 n ++ rest in
  DecodeRevert ret spare = Panic /\ NewExecutionResult used (Some err) ret spare = Panic.
Proof.
  intros Hn ret. pose proof (len_nonneg rest).
  assert (E : DecodeRevert ret spare = Panic); [|split; [done|by unfold NewExecutionResult; rewrite E]].
  unfold DecodeRevert, ret. rewrite !len_app. unfold len at 2 3. rewrite !length_be_bytes. change (len revertSelector) with 4.
  destruct (Z.leb_spec 68 (4 + (Z.of_nat 32 + (Z.of_nat 32 + len rest)))); [|lia].
  rewrite bool_decide_eq_true_2 by done. cbn [andb].
  rewrite (app_assoc revertSelector), (drop_app_length' (revertSelector ++ be_bytes 32 32)) by (rewrite length_app, length_be_bytes; done).
  rewrite readLength_be by lia. by destruct (Z.ltb_spec (32 + len rest) n); [|lia].
Qed.
Lemma crafted_revert_data_panics_witness :
  DecodeRevert (revertSelector ++ be_bytes 32 32 ++ be_bytes 32 1000 ++ []) [] = Panic.
Proof. exact (proj1 (crafted_revert_data_panics 1000 [] [] (VMError ErrExecutionReverted) 0 ltac:(done))). Defined.
