(* ===== verification/SkipList.v ===== *)
(** * The in-memory table

    src/evm/storage/overlaydb/memdb.go: a skip list laid out in one integer
    array, over an append-only buffer of keys and values.  A node at offset [x]
    of [nodeData] holds the offset of its key in [kvData], the lengths of key
    and value, its height, and one forward pointer per level; offset 0 is the
    head and also the nil pointer.  Deleting stores an empty value.

    The random source [rnd] is shared between a table and its clones, so it is
    no field here: [Put] takes the numbers [rnd.Int()] draws during the call,
    the argument [draws], and all results hold whatever they are.  Loops carry
    fuel: [search_fuel] bounds the steps of a descent (SkipListFacts.v). *)

From S2P Require Import Prelude.

Definition tMaxHeight : nat := 12.
Definition nKV : nat := 0.
Definition nKey : nat := 1.
Definition nVal : nat := 2.
Definition nHeight : nat := 3.
Definition nNext : nat := 4.

(** [bytes.Compare], the order of [comparer.DefaultComparer]. *)
Fixpoint compare_bytes (a b : bytes) : comparison :=
  match a, b with
  | [], [] => Eq
  | [], _ :: _ => Lt
  | _ :: _, [] => Gt
  | x :: a, y :: b => match x ?= y with Eq => compare_bytes a b | c => c end
  end.

Record SkipDB := mkSkip {
  kvData : bytes;
  nodeData : list nat;
  prevNode : list nat;
  maxHeight : nat;
  entries_n : nat;
  kvSize : Z;
}.

(** ** Array accesses: out of range panics *)
Definition idx (l : list nat) (i : nat) : outcome nat := match l !! i with Some x => Ret x | None => Panic end.
Definition set_idx (l : list nat) (i x : nat) : outcome (list nat) :=
  if decide (i < length l)%nat then Ret (<[i := x]> l) else Panic.
Definition kv_slice (a b : nat) (l : bytes) : outcome bytes :=
  if decide (a <= b <= length l)%nat then Ret (take (b - a) (drop a l)) else Panic.

Definition NewMemDB : SkipDB :=
  mkSkip [] (<[nHeight := tMaxHeight]> (replicate (4 + tMaxHeight) 0%nat)) (replicate tMaxHeight 0%nat) 1 0 0.
Definition zero_loop (a b : nat) (l : list nat) : list nat := foldl (fun l n => <[n := 0%nat]> l) l (seq a (b - a)).
Definition Reset (p : SkipDB) : outcome SkipDB :=
  if decide (nNext + tMaxHeight <= length (nodeData p))%nat then
    let nodes := take (nNext + tMaxHeight) (nodeData p) in
    let nodes := <[nHeight := tMaxHeight]> (<[nVal := 0%nat]> (<[nKey := 0%nat]> (<[nKV := 0%nat]> nodes))) in
    Ret (mkSkip [] (zero_loop nNext (nNext + tMaxHeight) nodes) (zero_loop 0 tMaxHeight (prevNode p)) 1 0 0)
  else Panic.
Definition DeepClone (p : SkipDB) : SkipDB :=
  mkSkip ([] ++ kvData p) ([] ++ nodeData p) (prevNode p) (maxHeight p) (entries_n p) (kvSize p).

Definition node_key (p : SkipDB) (node : nat) : outcome bytes :=
  o ← idx (nodeData p) node;
  l ← idx (nodeData p) (node + nKey);
  kv_slice o (o + l) (kvData p).
(** [kvData[m : m+nodeData[node+nVal]]] behind the key. *)
Definition node_val (p : SkipDB) (node : nat) : outcome bytes :=
  o ← idx (nodeData p) node;
  l ← idx (nodeData p) (node + nKey);
  v ← idx (nodeData p) (node + nVal);
  kv_slice (o + l) (o + l + v) (kvData p).

(** ** Searching *)
Definition search_fuel (p : SkipDB) : nat := length (nodeData p) + maxHeight p + 1.

(** The loop of [findGE] at [node], level [h]; [prevs] is [prevNode].  The
    node found, whether its key is [key], and the predecessors. *)
Fixpoint findGE_loop (fuel : nat) (p : SkipDB) (key : bytes) (prev : bool) (node h : nat) (prevs : list nat)
  : outcome (nat * bool * list nat) :=
  match fuel with
  | O => NoFuel
  | S fuel =>
      next ← idx (nodeData p) (node + nNext + h);
      cmp ← (if decide (next = 0%nat) then Ret Gt else k ← node_key p next; Ret (compare_bytes k key));
      match cmp with
      | Lt => findGE_loop fuel p key prev next h prevs
      | _ =>
          let exact := bool_decide (cmp = Eq) in
          prevs ← (if prev then set_idx prevs h node else Ret prevs);
          if negb prev && exact then Ret (next, true, prevs)
          else
            match h with
            | O => Ret (next, exact, prevs)
            | S h => findGE_loop fuel p key prev node h prevs
            end
      end
  end.
Definition findGE (key : bytes) (prev : bool) (p : SkipDB) : outcome (nat * bool * list nat) :=
  findGE_loop (search_fuel p) p key prev 0 (maxHeight p - 1) (prevNode p).

Fixpoint findLT_loop (fuel : nat) (p : SkipDB) (key : bytes) (node h : nat) : outcome nat :=
  match fuel with
  | O => NoFuel
  | S fuel =>
      next ← idx (nodeData p) (node + nNext + h);
      _ ← idx (nodeData p) next;
      stop ← (if decide (next = 0%nat) then Ret true
              else k ← node_key p next; Ret (bool_decide (compare_bytes k key <> Lt)));
      if stop : bool then match h with O => Ret node | S h => findLT_loop fuel p key node h end
      else findLT_loop fuel p key next h
  end.
Definition findLT (key : bytes) (p : SkipDB) : outcome nat := findLT_loop (search_fuel p) p key 0 (maxHeight p - 1).

Fixpoint findLast_loop (fuel : nat) (p : SkipDB) (node h : nat) : outcome nat :=
  match fuel with
  | O => NoFuel
  | S fuel =>
      next ← idx (nodeData p) (node + nNext + h);
      if decide (next = 0%nat) then match h with O => Ret node | S h => findLast_loop fuel p node h end
      else findLast_loop fuel p next h
  end.
Definition findLast (p : SkipDB) : outcome nat := findLast_loop (search_fuel p) p 0 (maxHeight p - 1).

(** ** Operations *)
(** [for h < tMaxHeight && p.rnd.Int()%branching == 0 { h++ }] from height [h]
    with [n] levels to go, the next draw being number [i]. *)
Fixpoint randHeight_loop (draws : nat -> Z) (n h i : nat) : nat :=
  match n with
  | O => h
  | S n => if draws i mod 4 =? 0 then randHeight_loop draws n (h + 1) (i + 1) else h
  end.
Definition randHeight (draws : nat -> Z) : nat := randHeight_loop draws (tMaxHeight - 1) 1 0.

(** [for i, n := range prevNode[:h]]: splice the new node into level [i]. *)
Fixpoint link_loop (prevs : list nat) (i node : nat) (nodes : list nat) : outcome (list nat) :=
  match prevs with
  | [] => Ret nodes
  | n :: prevs =>
      let m := (n + nNext + i)%nat in
      x ← idx nodes m;
      nodes ← set_idx (nodes ++ [x]) m node;
      link_loop prevs (i + 1) node nodes
  end.

Definition Put (draws : nat -> Z) (key value : bytes) (p : SkipDB) : outcome SkipDB :=
  '(node, exact, prevs) ← findGE key true p;
  if exact : bool then
    nodes ← (if decide (value <> []) then set_idx (nodeData p) node (length (kvData p)) else Ret (nodeData p));
    let kv := if decide (value <> []) then kvData p ++ key ++ value else kvData p in
    m ← idx nodes (node + nVal);
    nodes ← set_idx nodes (node + nVal) (length value);
    Ret (mkSkip kv nodes prevs (maxHeight p) (entries_n p) (kvSize p + len value - Z.of_nat m))
  else
    let h := randHeight draws in
    let prevs := if decide (maxHeight p < h)%nat then zero_loop (maxHeight p) h prevs else prevs in
    let maxH := if decide (maxHeight p < h)%nat then h else maxHeight p in
    let kvOffset := length (kvData p) in
    let node := length (nodeData p) in
    nodes ← link_loop (take h prevs) 0 node (nodeData p ++ [kvOffset; length key; length value; h]);
    Ret (mkSkip (kvData p ++ key ++ value) nodes prevs maxH (entries_n p + 1) (kvSize p + len key + len value)).
Definition Delete (draws : nat -> Z) (key : bytes) (p : SkipDB) : outcome SkipDB := Put draws key [] p.

(** The value, [None] when unknown; a deleted key has the empty value. *)
Definition Get (key : bytes) (p : SkipDB) : outcome (option bytes) :=
  '(node, exact, _) ← findGE key false p;
  if exact : bool then
    valen ← idx (nodeData p) (node + nVal);
    if decide (valen <> 0%nat) then v ← node_val p node; Ret (Some v) else Ret (Some [])
  else Ret None.
(** The first entry at or behind [key]; [None] is ErrNotFound. *)
Definition Find (key : bytes) (p : SkipDB) : outcome (option (bytes * bytes)) :=
  '(node, _, _) ← findGE key false p;
  if decide (node <> 0%nat) then
    k ← node_key p node;
    valen ← idx (nodeData p) (node + nVal);
    v ← (if decide (valen <> 0%nat) then node_val p node else Ret []);
    Ret (Some (k, v))
  else Ret None.

(** The calls [ForEach] makes, in order. *)
Fixpoint ForEach_loop (fuel : nat) (p : SkipDB) (node : nat) : outcome (list (bytes * bytes)) :=
  if decide (node = 0%nat) then Ret []
  else
    match fuel with
    | O => NoFuel
    | S fuel =>
        k ← node_key p node;
        v ← node_val p node;
        next ← idx (nodeData p) (node + nNext);
        rest ← ForEach_loop fuel p next;
        Ret ((k, v) :: rest)
    end.
Definition ForEach (p : SkipDB) : outcome (list (bytes * bytes)) :=
  node ← idx (nodeData p) nNext; ForEach_loop (search_fuel p) p node.

Definition Size (p : SkipDB) : Z := kvSize p.
Definition Len_ (p : SkipDB) : nat := entries_n p.
