(* ===== verification/SkipListFacts.v ===== *)
(** * The skip list is a sorted map

    The invariant of the node array: the offsets of level 0 in order of their
    keys ([L]), every level the sublist of the nodes that reach it, nodes apart
    from each other.  Searching finds the place of a key within [search_fuel]
    steps; [Put] is insertion into the sorted list of entries; [Get], [Find] and
    [ForEach] read it. *)

From stdpp Require Import sorting.
From S2P Require Import Prelude SkipList.

(** ** Keys are totally ordered *)
Lemma compare_bytes_eq a : forall b, compare_bytes a b = Eq <-> a = b.
Proof.
  induction a as [|x a IH]; intros [|y b]; try done. cbn. destruct (Z.compare_spec x y) as [->|H|H].
  - rewrite IH. split; [by intros ->|by intros [= ->]].
  - split; [done|intros [= -> _]; lia].
  - split; [done|intros [= -> _]; lia].
Qed.
Lemma compare_bytes_opp a : forall b, compare_bytes b a = CompOpp (compare_bytes a b).
Proof.
  induction a as [|x a IH]; intros [|y b]; try done. cbn. rewrite (Z.compare_antisym x y).
  destruct (x ?= y); cbn; [apply IH|done|done].
Qed.
Definition lt_bytes (a b : bytes) : Prop := compare_bytes a b = Lt.
#[export] Instance lt_bytes_trans : Transitive lt_bytes.
Proof.
  unfold lt_bytes. intros a. induction a as [|x a IH]; intros [|y b] [|z c]; try done. cbn.
  destruct (Z.compare_spec x y), (Z.compare_spec y z), (Z.compare_spec x z); subst; try lia; try done. apply IH.
Qed.
Lemma lt_bytes_irrefl a : ~ lt_bytes a a.
Proof. unfold lt_bytes. rewrite (proj2 (compare_bytes_eq a a) eq_refl). done. Qed.
Lemma lt_bytes_not_ge a b : lt_bytes a b <-> ~ (a = b \/ lt_bytes b a).
Proof.
  unfold lt_bytes. rewrite (compare_bytes_opp a b). split.
  - intros H [->|H2]; [rewrite (proj2 (compare_bytes_eq b b) eq_refl) in H; done|by rewrite H in H2].
  - intros H. destruct (compare_bytes a b) eqn:E; [|done|].
    + apply compare_bytes_eq in E. tauto.
    + exfalso. apply H. by right.
Qed.

(** ** The invariant *)
Definition hgt (p : SkipDB) (x : nat) : nat := nodeData p !!! (x + nHeight)%nat.
Definition koff (p : SkipDB) (x : nat) : nat := nodeData p !!! x.
Definition klen (p : SkipDB) (x : nat) : nat := nodeData p !!! (x + nKey)%nat.
Definition vlen (p : SkipDB) (x : nat) : nat := nodeData p !!! (x + nVal)%nat.
Definition key (p : SkipDB) (x : nat) : bytes := take (klen p x) (drop (koff p x) (kvData p)).
Definition value (p : SkipDB) (x : nat) : bytes := take (vlen p x) (drop (koff p x + klen p x) (kvData p)).

Record node_ok (p : SkipDB) (x : nat) : Prop := {
  nd_head : (4 + tMaxHeight <= x)%nat;
  nd_hgt : (1 <= hgt p x <= maxHeight p)%nat;
  nd_end : (x + nNext + hgt p x <= length (nodeData p))%nat;
  nd_kv : (koff p x + klen p x + vlen p x <= length (kvData p))%nat;
}.
(** The nodes of level [i], and the pointers that link them from [x] on. *)
Definition lvl (p : SkipDB) (i : nat) (l : list nat) : list nat := filter (fun x => (i < hgt p x)%nat) l.
Fixpoint chain (nodes : list nat) (i x : nat) (l : list nat) : Prop :=
  match l with
  | [] => nodes !! (x + nNext + i)%nat = Some 0%nat
  | y :: l => nodes !! (x + nNext + i)%nat = Some y /\ chain nodes i y l
  end.
Record inv (p : SkipDB) (L : list nat) : Prop := {
  i_nodes : Forall (node_ok p) L;
  i_max : (1 <= maxHeight p <= tMaxHeight)%nat;
  i_prev : length (prevNode p) = tMaxHeight;
  i_len : (4 + tMaxHeight <= length (nodeData p))%nat;
  i_sorted : StronglySorted (fun x y => lt_bytes (key p x) (key p y)) L;
  i_disj : forall x y, x ∈ L -> y ∈ L -> x <> y -> (x + nNext + hgt p x <= y \/ y + nNext + hgt p y <= x)%nat;
  i_chain : forall i, (i < tMaxHeight)%nat -> chain (nodeData p) i 0 (lvl p i L);
}.

Lemma idx_total (l : list nat) i : (i < length l)%nat -> idx l i = Ret (l !!! i).
Proof. intros H. unfold idx. by rewrite (list_lookup_lookup_total_lt l i H). Qed.
Lemma node_key_ok p x : node_ok p x -> node_key p x = Ret (key p x).
Proof.
  intros [? ? He Hk]. unfold node_key, koff, klen, nNext, nKey in *. rewrite !idx_total by (unfold nKey; lia). cbn.
  unfold kv_slice. rewrite decide_True by (unfold nKey; lia). unfold key, koff, klen. do 2 f_equal. unfold nKey. lia.
Qed.
Lemma node_val_ok p x : node_ok p x -> node_val p x = Ret (value p x).
Proof.
  intros [? ? He Hk]. unfold node_val, koff, klen, vlen, nNext, nKey, nVal in *. rewrite !idx_total by (unfold nKey, nVal; lia). cbn.
  unfold kv_slice. rewrite decide_True by (unfold nKey, nVal; lia). unfold value, koff, klen, vlen. do 2 f_equal. unfold nKey, nVal. lia.
Qed.
Lemma node_valen p x : node_ok p x -> idx (nodeData p) (x + nVal) = Ret (vlen p x).
Proof. intros [? ? He _]. apply idx_total. unfold nNext, nVal in *. lia. Qed.

(** ** Levels *)
Lemma lvl_app p i a b : lvl p i (a ++ b) = lvl p i a ++ lvl p i b.
Proof. apply list.filter_app. Qed.
Lemma lvl_cons_in p i x l : (i < hgt p x)%nat -> lvl p i (x :: l) = x :: lvl p i l.
Proof. intros H. apply list.filter_cons_True, H. Qed.
Lemma lvl_cons_out p i x l : ~ (i < hgt p x)%nat -> lvl p i (x :: l) = lvl p i l.
Proof. intros H. apply list.filter_cons_False, H. Qed.
Lemma lvl_split p i l : forall y r, lvl p i l = y :: r ->
  exists a b, l = a ++ y :: b /\ lvl p i a = [] /\ (i < hgt p y)%nat /\ r = lvl p i b.
Proof.
  induction l as [|x l IH]; intros y r E; [done|]. destruct (decide (i < hgt p x)%nat) as [H|H].
  - rewrite lvl_cons_in in E by done. injection E as -> <-. by exists [], l.
  - rewrite lvl_cons_out in E by done. destruct (IH y r E) as (a & b & -> & Ha & Hy & ->).
    exists (x :: a), b. rewrite lvl_cons_out by done. done.
Qed.
(** The last element of a list behind [x]. *)
Fixpoint lst (x : nat) (l : list nat) : nat := match l with [] => x | y :: l => lst y l end.
Lemma lst_app l1 : forall x y l2, lst x (l1 ++ y :: l2) = lst y l2.
Proof. induction l1 as [|z l1 IH]; intros x y l2; [done|apply IH]. Qed.
Lemma lst_in l : forall x, lst x l = x \/ lst x l ∈ l.
Proof.
  induction l as [|y l IH]; intros x; [by left|]. right. cbn. destruct (IH y) as [->|H]; [by left|by right].
Qed.
Lemma chain_app nodes i l1 : forall x l2, chain nodes i x (l1 ++ l2) -> chain nodes i (lst x l1) l2.
Proof. induction l1 as [|y l1 IH]; intros x l2; [done|]. intros [_ H]. by apply IH. Qed.
Lemma chain_hd nodes i x l : chain nodes i x l -> nodes !! (x + nNext + i)%nat = Some (hd 0%nat l).
Proof. destruct l; [done|by intros [? _]]. Qed.
(** The predecessor at level [i] of what follows [l], the head if there is none. *)
Definition pred (p : SkipDB) (i : nat) (l : list nat) : nat := lst 0 (lvl p i l).

(** ** Searching *)
Lemma idx_lookup (l : list nat) i x : l !! i = Some x -> idx l i = Ret x.
Proof. unfold idx. by intros ->. Qed.
Lemma set_idx_ok (l : list nat) i x : (i < length l)%nat -> set_idx l i x = Ret (<[i := x]> l).
Proof. intros H. unfold set_idx. by rewrite decide_True. Qed.
Lemma i_node p L x : inv p L -> x ∈ L -> node_ok p x.
Proof. intros I Hx. exact (proj1 (list.Forall_forall _ _) (i_nodes _ _ I) x Hx). Qed.
Lemma sorted_nodup p L : StronglySorted (fun x y => lt_bytes (key p x) (key p y)) L -> NoDup L.
Proof.
  induction 1 as [|x l _ IH Hx]; [constructor|]. constructor; [|done].
  intros Hin. rewrite list.Forall_forall in Hx. exact (lt_bytes_irrefl _ (Hx x Hin)).
Qed.
Lemma i_nodup p L : inv p L -> NoDup L.
Proof. intros I. eapply sorted_nodup, i_sorted, I. Qed.
Lemma i_length p L : inv p L -> (length L <= length (nodeData p))%nat.
Proof.
  intros I. rewrite <- (length_seq (length (nodeData p)) 0). apply submseteq_length, NoDup_submseteq; [by eapply i_nodup|].
  intros x Hx. apply elem_of_seq. destruct (i_node _ _ _ I Hx) as [_ _ ? _]. unfold nNext in *. lia.
Qed.

(** The place of a key: the nodes before it and from it on. *)
Record place (p : SkipDB) (k : bytes) (L B A : list nat) : Prop := {
  pl_eq : L = B ++ A;
  pl_lt : forall x, x ∈ B -> lt_bytes (key p x) k;
  pl_ge : forall x, x ∈ A -> ~ lt_bytes (key p x) k;
}.
Definition exact_at (p : SkipDB) (k : bytes) (A : list nat) : bool :=
  match A with [] => false | x :: _ => bool_decide (key p x = k) end.
Lemma place_exists p k L : StronglySorted (fun x y => lt_bytes (key p x) (key p y)) L -> exists B A, place p k L B A.
Proof.
  induction 1 as [|x l _ (B & A & [-> Hlt Hge]) Hx].
  - exists [], []. split; [done|set_solver|set_solver].
  - destruct (compare_bytes (key p x) k) eqn:E.
    2: { exists (x :: B), A. split; [done| |done]. intros y Hy. apply elem_of_cons in Hy as [->|Hy]; [done|by apply Hlt]. }
    all: exists [], (x :: B ++ A); split; [done|set_solver|]; intros y Hy; apply elem_of_cons in Hy as [->|Hy];
      [unfold lt_bytes; by rewrite E|];
      rewrite list.Forall_forall in Hx; specialize (Hx y Hy); intros Hk; pose proof (lt_bytes_trans _ _ _ Hx Hk) as Hxk;
      unfold lt_bytes in Hxk; by rewrite E in Hxk.
Qed.
(** Where the search stands: behind [x], with [B2] still to pass. *)
Definition at_node (p : SkipDB) (B : list nat) (x h : nat) (B2 : list nat) : Prop :=
  (x = 0%nat /\ B2 = B) \/ (exists B1, B = B1 ++ x :: B2 /\ (h < hgt p x)%nat).
Lemma at_node_next p B x h B2 a y b :
  at_node p B x h B2 -> B2 = a ++ y :: b -> (h < hgt p y)%nat -> at_node p B y h b.
Proof.
  intros [[-> ->]|(B1 & -> & _)] -> Hy; right; [by exists a|]. exists (B1 ++ x :: a). split; [|done]. by rewrite <- app_assoc.
Qed.
Lemma at_node_pred p B x h B2 : at_node p B x h B2 -> lvl p h B2 = [] -> pred p h B = x.
Proof.
  unfold pred. intros [[-> ->]|(B1 & -> & Hh)] E; [by rewrite E|]. rewrite lvl_app, lvl_cons_in, E by done. apply lst_app.
Qed.
Lemma at_node_chain p k L B A x h B2 : inv p L -> place p k L B A -> (h < tMaxHeight)%nat -> at_node p B x h B2 ->
  chain (nodeData p) h x (lvl p h (B2 ++ A)).
Proof.
  intros I [-> _ _] Hh Hat. pose proof (i_chain _ _ I h Hh) as C. destruct Hat as [[-> ->]|(B1 & -> & Hx)]; [done|].
  rewrite <- app_assoc, lvl_app in C. cbn [app] in C. rewrite lvl_cons_in in C by done.
  change (x :: lvl p h (B2 ++ A)) with ([x] ++ lvl p h (B2 ++ A)) in C. rewrite app_assoc in C. apply chain_app in C.
  by rewrite lst_app in C.
Qed.
Lemma lvl_zero p L l : inv p L -> l ⊆ L -> lvl p 0 l = l.
Proof.
  intros I. induction l as [|x l IH]; intros Hl; [done|].
  destruct (i_node p L x I ltac:(set_solver)) as [_ ? _ _]. rewrite lvl_cons_in by lia. f_equal. apply IH. set_solver.
Qed.
Lemma lvl_in p i l x : x ∈ lvl p i l -> x ∈ l.
Proof. intros Hx. by apply list_elem_of_filter in Hx as [_ ?]. Qed.
(** The comparison the search makes at [next]. *)
Definition probe (p : SkipDB) (k : bytes) (next : nat) : outcome comparison :=
  if decide (next = 0%nat) then Ret Gt else x ← node_key p next; Ret (compare_bytes x k).
Lemma probe_node p k L x : inv p L -> x ∈ L -> probe p k x = Ret (compare_bytes (key p x) k).
Proof.
  intros I Hx. pose proof (i_node _ _ _ I Hx) as N. unfold probe.
  rewrite decide_False by (destruct N; lia). by rewrite node_key_ok.
Qed.
Lemma probe_stop p k L B A h : inv p L -> place p k L B A ->
  exists c, probe p k (hd 0%nat (lvl p h A)) = Ret c /\ c <> Lt /\
    (c = Eq -> exists x A', A = x :: A' /\ hd 0%nat (lvl p h A) = x /\ key p x = k) /\
    (h = 0%nat -> bool_decide (c = Eq) = exact_at p k A /\ lvl p h A = A).
Proof.
  intros I [-> _ Hge]. destruct (lvl p h A) as [|y r] eqn:E.
  - exists Gt. cbn. split_and!; [done..|]. intros ->. rewrite (lvl_zero p _ A I) in E by set_solver. by subst A.
  - assert (y ∈ A) as Hy by (apply (lvl_in p h); rewrite E; by left).
    exists (compare_bytes (key p y) k). cbn [hd]. split_and!.
    + eapply probe_node; [done|set_solver].
    + by apply Hge.
    + intros Ec%compare_bytes_eq. destruct A as [|x A']; [by apply not_elem_of_nil in Hy|]. exists x, A'. split; [done|].
      apply elem_of_cons in Hy as [->|Hy]; [done|]. exfalso. apply (Hge x); [by left|]. rewrite <- Ec.
      pose proof (i_sorted _ _ I) as S. apply StronglySorted_app_1_r in S.
      inversion S as [|? ? _ F]; subst. rewrite list.Forall_forall in F. by apply F.
    + intros ->. rewrite (lvl_zero p _ A I) in E by set_solver. subst A. split; [|done]. cbn. apply bool_decide_ext, compare_bytes_eq.
Qed.

Lemma findGE_loop_ok p k prev L B A : inv p L -> place p k L B A ->
  forall fuel x h B2 prevs, at_node p B x h B2 -> (h < tMaxHeight)%nat -> (length B2 + h < fuel)%nat ->
    length prevs = tMaxHeight ->
    exists prevs', findGE_loop fuel p k prev x h prevs = Ret (hd 0%nat A, exact_at p k A, prevs') /\
      length prevs' = tMaxHeight /\
      (prev = true -> forall i, prevs' !! i = if decide (i <= h)%nat then Some (pred p i B) else prevs !! i).
Proof.
  intros I P. induction fuel as [|fuel IH]; intros x h B2 prevs Hat Hh Hf Hp; [lia|]. cbn [findGE_loop].
  pose proof (at_node_chain _ _ _ _ _ _ _ _ I P Hh Hat) as C. rewrite lvl_app in C.
  change (if decide (?n = 0%nat) then Ret Gt else _) with (probe p k n).
  destruct (lvl p h B2) as [|y r] eqn:E; rewrite (idx_lookup _ _ _ (chain_hd _ _ _ _ C)); cbn [mbind outcome_bind hd app].
  - destruct (probe_stop p k L B A h I P) as (c & Ec & Hlt & Heq & H0).
    change (if decide (?n = 0%nat) then Ret Gt else _) with (probe p k n). rewrite Ec. cbn [mbind outcome_bind].
    pose proof (at_node_pred _ _ _ _ _ Hat E) as Ep.
    set (prevs1 := if prev then <[h := x]> prevs else prevs).
    assert ((if prev then set_idx prevs h x else Ret prevs) = Ret prevs1) as Es
      by (unfold prevs1; destruct prev; [apply set_idx_ok; lia|done]).
    assert (length prevs1 = tMaxHeight) as Hp1 by (unfold prevs1; destruct prev; [by rewrite length_insert|done]).
    assert (prev = true -> forall i, prevs1 !! i = if decide (i = h) then Some (pred p i B) else prevs !! i) as Hi.
    { unfold prevs1. intros -> i. destruct (decide (i = h)) as [->|Di]; [rewrite Ep; apply list_lookup_insert_eq; lia|].
      by apply list_lookup_insert_ne. }
    rewrite Es. replace (match c with Lt => _ | _ => _ end) with
      (if negb prev && bool_decide (c = Eq) then Ret (hd 0%nat (lvl p h A), true, prevs1)
       else match h with O => Ret (hd 0%nat (lvl p h A), bool_decide (c = Eq), prevs1)
            | S h => findGE_loop fuel p k prev x h prevs1 end) by (by destruct c).
    destruct (negb prev && bool_decide (c = Eq)) eqn:Ex.
    + apply andb_true_iff in Ex as [Ex1 Ex2%bool_decide_eq_true]. apply negb_true_iff in Ex1.
      destruct (Heq Ex2) as (z & A' & -> & -> & Ez). exists prevs1. cbn. rewrite bool_decide_true by done.
      split_and!; [done..|]. by rewrite Ex1.
    + destruct h as [|h].
      * destruct (H0 eq_refl) as [-> ->]. exists prevs1. split_and!; [done..|]. intros Ht i. rewrite (Hi Ht).
        repeat case_decide; try done; lia.
      * destruct (IH x h B2 prevs1) as (prevs' & -> & Hl & Hi'); [|lia|lia|done|].
        { destruct Hat as [?|(B1 & ? & ?)]; [by left|]. right. exists B1. split; [done|lia]. }
        exists prevs'. split_and!; [done..|]. intros Ht i. rewrite (Hi' Ht), (Hi Ht). repeat case_decide; try done; lia.
  - destruct (lvl_split _ _ _ _ _ E) as (a & b & -> & _ & Hy & ->).
    pose proof (at_node_next _ _ _ _ _ _ _ _ Hat eq_refl Hy) as Hat'.
    assert (y ∈ B) as HyB by (destruct Hat' as [[-> _]|(B1 & -> & _)]; [destruct Hat as [[_ <-]|(B1 & -> & _)]|]; set_solver).
    change (if decide (?n = 0%nat) then Ret Gt else _) with (probe p k n).
    rewrite (probe_node p k L y I) by (rewrite (pl_eq _ _ _ _ _ P); set_solver).
    rewrite (pl_lt _ _ _ _ _ P y HyB). cbn [mbind outcome_bind].
    apply (IH y h b prevs Hat' Hh); [|done]. rewrite length_app in Hf. cbn in Hf. lia.
Qed.
Lemma findGE_ok p k prev L B A : inv p L -> place p k L B A ->
  exists prevs', findGE k prev p = Ret (hd 0%nat A, exact_at p k A, prevs') /\ length prevs' = tMaxHeight /\
    (prev = true -> forall i, (i < maxHeight p)%nat -> prevs' !! i = Some (pred p i B)).
Proof.
  intros I P. pose proof (i_max _ _ I). pose proof (i_length _ _ I) as Hl. rewrite (pl_eq _ _ _ _ _ P), length_app in Hl.
  destruct (findGE_loop_ok p k prev L B A I P (search_fuel p) 0 (maxHeight p - 1) B (prevNode p)) as (prevs' & E & Hp & Hi).
  - by left.
  - lia.
  - unfold search_fuel. lia.
  - apply I.
  - exists prevs'. split_and!; [done..|]. intros Ht i Hlt. rewrite (Hi Ht), decide_True by lia. done.
Qed.

(** ** The abstract table: its entries in the order of the keys *)
Definition entries (p : SkipDB) (L : list nat) : list (bytes * bytes) := (fun x => (key p x, value p x)) <$> L.
Fixpoint assoc (k : bytes) (l : list (bytes * bytes)) : option bytes :=
  match l with [] => None | (k', v) :: l => if decide (k' = k) then Some v else assoc k l end.
Lemma assoc_place p k L B A : inv p L -> place p k L B A ->
  assoc k (entries p L) = if exact_at p k A then Some (value p (hd 0%nat A)) else None.
Proof.
  intros I [-> Hlt Hge]. pose proof (i_sorted _ _ I) as S. apply StronglySorted_app_1_r in S. clear I.
  unfold entries. induction B as [|x B IH]; cbn.
  - destruct A as [|x A]; cbn; [done|]. case_decide as D; [by rewrite bool_decide_true|].
    rewrite bool_decide_false by done. inversion S as [|? ? _ F]; subst. rewrite list.Forall_forall in F.
    assert (forall y, y ∈ A -> key p y <> k) as N.
    { intros y Hy <-. apply (Hge x); [by left|by apply F]. }
    clear -N. induction A as [|y A IH]; cbn; [done|]. rewrite decide_False by (apply N; by left). apply IH. set_solver.
  - rewrite decide_False; [apply IH; set_solver|]. intros <-. apply (lt_bytes_irrefl (key p x)), Hlt. by left.
Qed.
Lemma value_nil p x : vlen p x = 0%nat -> value p x = [].
Proof. unfold value. by intros ->. Qed.
Lemma exact_hd p k A : exact_at p k A = true -> hd 0%nat A ∈ A /\ key p (hd 0%nat A) = k.
Proof. destruct A as [|x A]; cbn; [done|]. rewrite bool_decide_eq_true. split; [by left|done]. Qed.
Lemma Get_ok p L k : inv p L -> Get k p = Ret (assoc k (entries p L)).
Proof.
  intros I. destruct (place_exists p k L (i_sorted _ _ I)) as (B & A & P).
  destruct (findGE_ok p k false L B A I P) as (prevs & E & _). unfold Get. rewrite E, (assoc_place _ _ _ _ _ I P).
  cbn [mbind outcome_bind]. destruct (exact_at p k A) eqn:Ex; [|done]. destruct (exact_hd _ _ _ Ex) as [Hin _].
  assert (node_ok p (hd 0%nat A)) as N by (apply (i_node p L); [done|]; rewrite (pl_eq _ _ _ _ _ P); set_solver).
  rewrite node_valen by done. cbn [mbind outcome_bind]. destruct (decide (vlen p (hd 0%nat A) = 0%nat)) as [D|D].
  - rewrite decide_False by tauto. by rewrite value_nil.
  - rewrite decide_True by tauto. by rewrite node_val_ok.
Qed.
(** The first entry from [k] on. *)
Fixpoint from_key (k : bytes) (l : list (bytes * bytes)) : list (bytes * bytes) :=
  match l with [] => [] | (k', v) :: r => match compare_bytes k' k with Lt => from_key k r | _ => l end end.
Lemma from_key_place p k L B A : place p k L B A -> from_key k (entries p L) = entries p A.
Proof.
  intros [-> Hlt Hge]. unfold entries. induction B as [|x B IH]; cbn.
  - destruct A as [|x A]; cbn; [done|]. specialize (Hge x ltac:(by left)). unfold lt_bytes in Hge. by destruct (compare_bytes _ _).
  - rewrite (Hlt x ltac:(by left)). apply IH. set_solver.
Qed.
Lemma Find_ok p L k : inv p L -> Find k p = Ret (head (from_key k (entries p L))).
Proof.
  intros I. destruct (place_exists p k L (i_sorted _ _ I)) as (B & A & P).
  destruct (findGE_ok p k false L B A I P) as (prevs & E & _). unfold Find. rewrite E, (from_key_place _ _ _ _ _ P).
  cbn [mbind outcome_bind]. destruct A as [|x A]; [done|]. cbn [hd].
  assert (node_ok p x) as N by (apply (i_node p L); [done|]; rewrite (pl_eq _ _ _ _ _ P); set_solver).
  rewrite decide_True by (destruct N; lia). rewrite node_key_ok, node_valen by done. cbn [mbind outcome_bind].
  destruct (decide (vlen p x = 0%nat)) as [D|D].
  - rewrite decide_False by tauto. cbn. by rewrite value_nil.
  - rewrite decide_True by tauto. by rewrite node_val_ok.
Qed.
Lemma ForEach_loop_ok p L : inv p L -> forall A, (exists B, L = B ++ A) -> forall fuel, (length A <= fuel)%nat ->
  ForEach_loop fuel p (hd 0%nat A) = Ret (entries p A).
Proof.
  intros I. induction A as [|x A IH]; intros (B & HL) fuel Hf; [by destruct fuel|]. destruct fuel; [cbn in Hf; lia|].
  assert (node_ok p x) as N by (apply (i_node p L); [done|]; rewrite HL; set_solver).
  cbn [ForEach_loop hd]. rewrite decide_False by (destruct N; lia). rewrite node_key_ok, node_val_ok by done.
  cbn [mbind outcome_bind]. pose proof (i_chain _ _ I 0%nat ltac:(unfold tMaxHeight; lia)) as C.
  rewrite (lvl_zero p L L) in C by done. rewrite HL in C. change (x :: A) with ([x] ++ A) in C.
  rewrite app_assoc in C. apply chain_app in C. rewrite lst_app in C. cbn [lst] in C. apply chain_hd in C.
  rewrite Nat.add_0_r in C. rewrite (idx_lookup _ _ _ C). cbn [mbind outcome_bind].
  rewrite IH; [done| |cbn in Hf; lia]. exists (B ++ [x]). by rewrite <- app_assoc.
Qed.
Lemma ForEach_ok p L : inv p L -> ForEach p = Ret (entries p L).
Proof.
  intros I. unfold ForEach. pose proof (i_chain _ _ I 0%nat ltac:(unfold tMaxHeight; lia)) as C.
  rewrite (lvl_zero p L L) in C by done. apply chain_hd in C. change (0 + nNext + 0)%nat with nNext in C.
  rewrite (idx_lookup _ _ _ C). cbn [mbind outcome_bind]. apply (ForEach_loop_ok p L I); [by exists []|].
  pose proof (i_length _ _ I). unfold search_fuel. lia.
Qed.

(** ** Linking a new node *)
(** [j] is the pointer slot at level [i + m] of the [m]-th predecessor. *)
Definition slot (prevs : list nat) (i j : nat) : Prop := exists m n, prevs !! m = Some n /\ j = (n + nNext + (i + m))%nat.
Lemma slot_cons n prevs i j : slot (n :: prevs) i j <-> j = (n + nNext + i)%nat \/ slot prevs (i + 1) j.
Proof.
  split.
  - intros ([|m] & n' & E & ->); [injection E as <-; left; lia|]. right. exists m, n'. split; [done|lia].
  - intros [->|(m & n' & E & ->)]; [exists 0%nat, n; split; [done|lia]|]. exists (S m), n'. split; [done|lia].
Qed.
Lemma link_loop_ok node prevs : forall i nodes,
  (forall j, slot prevs i j -> (j < node)%nat) -> length nodes = (node + nNext + i)%nat ->
  (forall a b x y, prevs !! a = Some x -> prevs !! b = Some y -> a <> b -> (x + nNext + (i + a) <> y + nNext + (i + b))%nat) ->
  exists nodes', link_loop prevs i node nodes = Ret nodes' /\ length nodes' = (length nodes + length prevs)%nat /\
    (forall m n, prevs !! m = Some n -> nodes' !! (n + nNext + (i + m))%nat = Some node /\
      nodes' !! (node + nNext + (i + m))%nat = nodes !! (n + nNext + (i + m))%nat) /\
    (forall j, (j < length nodes)%nat -> ~ slot prevs i j -> nodes' !! j = nodes !! j).
Proof.
  induction prevs as [|n prevs IH]; intros i nodes Hs Hl Hd.
  - exists nodes. cbn. split_and!; [done|lia|done|done].
  - cbn [link_loop]. assert (n + nNext + i < node)%nat as Hn by (apply Hs, slot_cons; by left).
    destruct (lookup_lt_is_Some_2 nodes (n + nNext + i)) as [x Ex]; [lia|].
    rewrite (idx_lookup _ _ _ Ex). cbn [mbind outcome_bind].
    rewrite set_idx_ok by (rewrite length_app; lia). cbn [mbind outcome_bind].
    set (nodes1 := <[(n + nNext + i)%nat := node]> (nodes ++ [x])).
    assert (length nodes1 = (node + nNext + (i + 1))%nat) as Hl1 by (unfold nodes1; rewrite length_insert, length_app; cbn; lia).
    assert (~ slot prevs (i + 1) (n + nNext + i)) as Hns.
    { intros (m & n' & E & Ej). apply (Hd 0%nat (S m) n n' eq_refl E); [lia|]. lia. }
    destruct (IH (i + 1)%nat nodes1) as (nodes' & E & Hlen & Hm & Hf); [|done| |].
    + intros j Hj. apply Hs, slot_cons. by right.
    + intros a b y z Ha Hb Hab. specialize (Hd (S a) (S b) y z Ha Hb ltac:(lia)). lia.
    + assert (forall j, (j < length nodes)%nat -> j <> (n + nNext + i)%nat -> nodes1 !! j = nodes !! j) as Hf1.
      { intros j Hj Hne. unfold nodes1. rewrite list_lookup_insert_ne by done. by apply lookup_app_l. }
      exists nodes'. rewrite E. split_and!; [done|rewrite Hlen; unfold nodes1; rewrite length_insert, length_app; cbn; lia| |].
      * intros [|m] n' Em.
        -- injection Em as <-. rewrite Nat.add_0_r, Ex. split.
           ++ rewrite Hf; [unfold nodes1; apply list_lookup_insert_eq; rewrite length_app; lia|lia|done].
           ++ rewrite Hf; [|lia|intros Hsl; specialize (Hs _ (proj2 (slot_cons _ _ _ _) (or_intror Hsl))); unfold nNext in *; lia].
              unfold nodes1. rewrite list_lookup_insert_ne by lia. rewrite lookup_app_r by lia.
              by replace (node + nNext + i - length nodes)%nat with 0%nat by lia.
        -- cbn in Em. destruct (Hm m n' Em) as [H1 H2]. replace (i + 1 + m)%nat with (i + S m)%nat in * by lia.
           split; [done|]. rewrite H2. apply Hf1.
           ++ assert (n' + nNext + (i + S m) < node)%nat; [|lia]. apply Hs. by exists (S m), n'.
           ++ specialize (Hd (S m) 0%nat n' n Em eq_refl ltac:(lia)). lia.
      * intros j Hj Hns'. rewrite slot_cons in Hns'. rewrite Hf; [apply Hf1; [done|tauto]|lia|tauto].
Qed.
Lemma chain_frame nodes nodes' i l : forall x, chain nodes i x l ->
  (forall y, y ∈ x :: l -> nodes' !! (y + nNext + i)%nat = nodes !! (y + nNext + i)%nat) -> chain nodes' i x l.
Proof.
  induction l as [|y l IH]; intros x C H; cbn [chain] in *; [rewrite H by (by left); done|].
  destruct C as [C1 C2]. rewrite H by (by left). split; [done|]. apply IH; [done|]. set_solver.
Qed.
Lemma chain_insert nodes nodes' i node l2 : forall l1 x, chain nodes i x (l1 ++ l2) -> NoDup (x :: l1 ++ l2) ->
  nodes' !! (lst x l1 + nNext + i)%nat = Some node ->
  nodes' !! (node + nNext + i)%nat = nodes !! (lst x l1 + nNext + i)%nat ->
  (forall y, y ∈ x :: l1 ++ l2 -> y <> lst x l1 -> nodes' !! (y + nNext + i)%nat = nodes !! (y + nNext + i)%nat) ->
  chain nodes' i x (l1 ++ node :: l2).
Proof.
  induction l1 as [|y l1 IH]; intros x C N H1 H2 Hf; cbn [app lst chain] in *.
  - apply list.NoDup_cons in N as [N N2]. split; [done|]. destruct l2 as [|z l2]; cbn [chain] in *; [by rewrite H2|].
    destruct C as [C1 C2]. rewrite H2. split; [done|]. eapply chain_frame; [done|]. intros y Hy. apply Hf; set_solver.
  - destruct C as [C1 C2]. apply list.NoDup_cons in N as [N N2]. split.
    + rewrite Hf; [done|by left|]. destruct (lst_in l1 y) as [->|?]; set_solver.
    + apply IH; try done. intros z Hz. apply Hf. by right.
Qed.

(** ** Pointers and headers do not overlap *)
Definition ptr (p : SkipDB) (L : list nat) (x i : nat) : Prop :=
  (x = 0%nat /\ (i < tMaxHeight)%nat) \/ (x ∈ L /\ (i < hgt p x)%nat).
Lemma ptr_inj p L x i y j : inv p L -> ptr p L x i -> ptr p L y j -> (x + nNext + i = y + nNext + j)%nat -> x = y /\ i = j.
Proof.
  intros I Hx Hy E. assert (x = y); [|lia]. destruct Hx as [[-> Hi]|[Hx Hi]], Hy as [[-> Hj]|[Hy Hj]]; [done| | |].
  - destruct (i_node _ _ _ I Hy). unfold nNext in *. lia.
  - destruct (i_node _ _ _ I Hx). unfold nNext in *. lia.
  - destruct (decide (x = y)) as [|Hne]; [done|]. destruct (i_disj _ _ I x y Hx Hy Hne); lia.
Qed.
Lemma ptr_header p L x i y c : inv p L -> ptr p L x i -> y ∈ L -> (c < 4)%nat -> (x + nNext + i <> y + c)%nat.
Proof.
  intros I Hx Hy Hc E. destruct (i_node _ _ _ I Hy) as [Hy0 _ _ _]. unfold nNext in *. destruct Hx as [[-> Hi]|[Hx Hi]]; [lia|].
  destruct (decide (x = y)) as [->|Hne]; [lia|]. destruct (i_disj _ _ I x y Hx Hy Hne); unfold nNext in *; lia.
Qed.
Lemma ptr_bound p L x i : inv p L -> ptr p L x i -> (x + nNext + i < length (nodeData p))%nat.
Proof.
  intros I [[-> Hi]|[Hx Hi]]; [pose proof (i_len _ _ I); unfold nNext; lia|].
  destruct (i_node _ _ _ I Hx). lia.
Qed.
Lemma pred_ptr p k L B A i : inv p L -> place p k L B A -> (i < tMaxHeight)%nat -> ptr p L (pred p i B) i.
Proof.
  intros I P Hi. unfold pred. destruct (lst_in (lvl p i B) 0) as [->|Hin]; [by left|]. right.
  apply list_elem_of_filter in Hin as [? ?]. split; [|done]. rewrite (pl_eq _ _ _ _ _ P). set_solver.
Qed.
Lemma lvl_none p i l : (forall x, x ∈ l -> (hgt p x <= i)%nat) -> lvl p i l = [].
Proof. induction l as [|x l IH]; intros H; [done|]. rewrite lvl_cons_out; [apply IH; set_solver|]. specialize (H x ltac:(by left)). lia. Qed.
Lemma lvl_ext p p' i l : (forall x, x ∈ l -> hgt p' x = hgt p x) -> lvl p' i l = lvl p i l.
Proof.
  induction l as [|x l IH]; intros H; [done|]. specialize (IH ltac:(set_solver)). specialize (H x ltac:(by left)).
  destruct (decide (i < hgt p x)%nat); [rewrite !lvl_cons_in by lia|rewrite !lvl_cons_out by lia]; by rewrite IH.
Qed.
Lemma lvl_ptr p L l x i : (i < tMaxHeight)%nat -> l ⊆ L -> x ∈ 0%nat :: lvl p i l -> ptr p L x i.
Proof.
  intros Hi Hl Hx. apply elem_of_cons in Hx as [->|Hx]; [by left|]. right.
  apply list_elem_of_filter in Hx as [? ?]. split; [by apply Hl|done].
Qed.

(** ** Nodes that keep their header keep their entry *)
Lemma total_eq (l l' : list nat) j : l' !! j = l !! j -> l' !!! j = l !!! j.
Proof. intros H. by rewrite !list_lookup_total_alt, H. Qed.
Record kept (p p' : SkipDB) (x : nat) : Prop := {
  kp_ok : node_ok p' x;
  kp_hgt : hgt p' x = hgt p x;
  kp_key : key p' x = key p x;
  kp_value : value p' x = value p x;
}.
Lemma take_drop_app {A} (l r : list A) a n : (a + n <= length l)%nat -> take n (drop a (l ++ r)) = take n (drop a l).
Proof. intros H. rewrite drop_app_le by lia. apply take_app_le. rewrite length_drop. lia. Qed.
Lemma keep_node p p' x ext : node_ok p x ->
  (forall c, (c < 4)%nat -> nodeData p' !! (x + c)%nat = nodeData p !! (x + c)%nat) ->
  kvData p' = kvData p ++ ext -> (maxHeight p <= maxHeight p')%nat -> (length (nodeData p) <= length (nodeData p'))%nat ->
  kept p p' x.
Proof.
  intros [H0 Hh He Hk] Hc Hkv Hm Hl.
  assert (hgt p' x = hgt p x) as E1 by (apply total_eq, Hc; unfold nHeight; lia).
  assert (klen p' x = klen p x) as E2 by (apply total_eq, Hc; unfold nKey; lia).
  assert (vlen p' x = vlen p x) as E3 by (apply total_eq, Hc; unfold nVal; lia).
  assert (koff p' x = koff p x) as E4 by (unfold koff; rewrite <- (Nat.add_0_r x); apply total_eq, Hc; lia).
  split; [split|..]; rewrite ?E1, ?E2, ?E3, ?E4; unfold key, value; rewrite ?E2, ?E3, ?E4, ?Hkv.
  - done.
  - lia.
  - lia.
  - rewrite length_app. lia.
  - done.
  - apply take_drop_app. lia.
  - apply take_drop_app. lia.
Qed.
Lemma key_length p x : node_ok p x -> length (key p x) = klen p x.
Proof. intros [_ _ _ Hk]. unfold key. rewrite length_take, length_drop. lia. Qed.
Lemma sorted_ext (f g : nat -> bytes) l : (forall x, x ∈ l -> f x = g x) ->
  StronglySorted (fun x y => lt_bytes (f x) (f y)) l -> StronglySorted (fun x y => lt_bytes (g x) (g y)) l.
Proof.
  intros H S. induction S as [|x l S IH F]; constructor; [apply IH; set_solver|].
  rewrite list.Forall_forall in *. intros y Hy. rewrite <- !H by set_solver. by apply F.
Qed.
Lemma entries_ext p p' l : (forall x, x ∈ l -> kept p p' x) -> entries p' l = entries p l.
Proof.
  intros H. unfold entries. apply list_fmap_ext. intros i x Hx%list_elem_of_lookup_2. destruct (H x Hx) as [_ _ -> ->]. done.
Qed.

(** ** Put of a new key *)
Lemma zero_loop_lookup n : forall a l i, foldl (fun l n => <[n := 0%nat]> l) l (seq a n) !! i =
  if decide (a <= i < a + n /\ i < length l)%nat then Some 0%nat else l !! i.
Proof.
  induction n as [|n IH]; intros a l i; cbn; [by rewrite decide_False by lia|]. rewrite IH, length_insert.
  destruct (decide (i = a)) as [->|Hne].
  - destruct (decide (a < length l)%nat).
    + rewrite decide_False by lia. rewrite decide_True by lia. by apply list_lookup_insert_eq.
    + rewrite !decide_False by lia. rewrite list_insert_ge by lia. done.
  - rewrite list_lookup_insert_ne by done. repeat case_decide; (done || lia).
Qed.
Lemma zero_loop_length n : forall a l, length (foldl (fun l n => <[n := 0%nat]> l) l (seq a n)) = length l.
Proof. induction n as [|n IH]; intros a l; cbn; [done|]. by rewrite IH, length_insert. Qed.
Lemma randHeight_loop_bound draws n : forall h i, (h <= randHeight_loop draws n h i <= h + n)%nat.
Proof. induction n as [|n IH]; intros h i; cbn; [lia|]. destruct (_ =? _); [specialize (IH (h + 1)%nat (i + 1)%nat); lia|lia]. Qed.
Lemma randHeight_bound draws : (1 <= randHeight draws <= tMaxHeight)%nat.
Proof. pose proof (randHeight_loop_bound draws (tMaxHeight - 1) 1 0). unfold randHeight, tMaxHeight in *. lia. Qed.

Section Insert.
Context (p p' : SkipDB) (L B A : list nat) (k v : bytes) (h : nat) (nodes' : list nat).
Context (I : inv p L) (P : place p k L B A) (Hex : exact_at p k A = false).
Let node := length (nodeData p).
Let fresh := nodeData p ++ [length (kvData p); length k; length v; h].
Context (Hh : (1 <= h <= tMaxHeight)%nat) (Hlen : length nodes' = (node + nNext + h)%nat).
Context (Hlink : forall i, (i < h)%nat -> nodes' !! (pred p i B + nNext + i)%nat = Some node /\
           nodes' !! (node + nNext + i)%nat = fresh !! (pred p i B + nNext + i)%nat).
Context (Hframe : forall j, (j < node + 4)%nat -> (forall i, (i < h)%nat -> j <> (pred p i B + nNext + i)%nat) ->
           nodes' !! j = fresh !! j).
Context (Hp' : nodeData p' = nodes' /\ kvData p' = kvData p ++ k ++ v /\
           maxHeight p' = (maxHeight p `max` h)%nat /\ length (prevNode p') = tMaxHeight).

Lemma ins_old j : (j < node)%nat -> fresh !! j = nodeData p !! j.
Proof. intros. by apply lookup_app_l. Qed.
Lemma ins_pred i : (i < h)%nat -> ptr p L (pred p i B) i.
Proof. intros. eapply pred_ptr; [done..|lia]. Qed.
Lemma ins_kept x : x ∈ L -> kept p p' x.
Proof.
  intros Hx. pose proof Hp' as (En & Ekv & Em & _). pose proof (i_node _ _ _ I Hx) as N.
  apply (keep_node p p' x (k ++ v)); [done| |done|lia|rewrite En, Hlen; fold node; lia].
  intros c Hc. rewrite En. assert (x + c < node)%nat by (destruct N; unfold node, nNext in *; lia).
  rewrite Hframe; [by apply ins_old|lia|]. intros i Hi E. eapply ptr_header; [exact I|by apply ins_pred|exact Hx|exact Hc|done].
Qed.
Lemma ins_head c : (c < 4)%nat -> nodes' !! (node + c)%nat = [length (kvData p); length k; length v; h] !! c.
Proof.
  intros Hc. rewrite Hframe.
  - unfold fresh, node. rewrite lookup_app_r by lia. f_equal. lia.
  - lia.
  - intros i Hi E. pose proof (ptr_bound _ _ _ _ I (ins_pred i Hi)). unfold node in E. lia.
Qed.
Lemma ins_node : node_ok p' node /\ hgt p' node = h /\ key p' node = k /\ value p' node = v.
Proof.
  pose proof Hp' as (En & Ekv & Em & _).
  assert (forall c y, (c < 4)%nat -> [length (kvData p); length k; length v; h] !! c = Some y ->
    nodeData p' !!! (node + c)%nat = y) as Hc.
  { intros c y Hc Ey. rewrite list_lookup_total_alt, En, ins_head, Ey by done. done. }
  assert (hgt p' node = h) as E1 by (by apply Hc; [unfold nHeight; lia|]).
  assert (klen p' node = length k) as E2 by (by apply Hc; [unfold nKey; lia|]).
  assert (vlen p' node = length v) as E3 by (by apply Hc; [unfold nVal; lia|]).
  assert (koff p' node = length (kvData p)) as E4 by (unfold koff; rewrite <- (Nat.add_0_r node); by apply Hc; [lia|]).
  split; [split|split; [done|]]; unfold key, value; rewrite ?E1, ?E2, ?E3, ?E4, ?Ekv, ?En.
  - pose proof (i_len _ _ I). unfold node. lia.
  - lia.
  - lia.
  - rewrite !length_app. lia.
  - split; [by rewrite drop_app_length, take_app_length|].
    rewrite app_assoc, drop_app_length' by (rewrite length_app; lia). apply take_ge. lia.
Qed.
Lemma ins_notin x : x ∈ L -> (x + nNext + hgt p x <= node)%nat.
Proof. intros Hx. destruct (i_node _ _ _ I Hx). unfold node. lia. Qed.
Lemma ins_sorted : StronglySorted (fun x y => lt_bytes (key p' x) (key p' y)) (B ++ node :: A).
Proof.
  pose proof (i_sorted _ _ I) as S. pose proof P as [HL Hlt Hge]. rewrite HL in S. destruct ins_node as (_ & _ & Ek & _).
  assert (forall x, x ∈ B ++ A -> key p x = key p' x) as Ex by (intros x Hx; symmetry; apply ins_kept; by rewrite HL).
  apply (sorted_ext _ _ _ Ex) in S. apply StronglySorted_app in S as (S0 & S1 & S2).
  assert (forall y, y ∈ A -> lt_bytes k (key p' y)) as HA.
  { intros y Hy. destruct A as [|a A0]; [by apply not_elem_of_nil in Hy|]. cbn in Hex. apply bool_decide_eq_false in Hex.
    assert (lt_bytes k (key p' a)) as Ha.
    { rewrite <- Ex by set_solver. apply lt_bytes_not_ge. intros [->|H]; [done|]. by apply (Hge a); [left|]. }
    apply elem_of_cons in Hy as [->|Hy]; [done|]. etrans; [exact Ha|]. inversion S2 as [|? ? _ F]; subst.
    rewrite list.Forall_forall in F. by apply F. }
  apply StronglySorted_app. split_and!; [|done|].
  - intros x y Hx Hy. apply elem_of_cons in Hy as [->|Hy]; [rewrite Ek, <- Ex by set_solver; by apply Hlt|by apply S0].
  - constructor; [done|]. apply list.Forall_forall. intros y Hy. rewrite Ek. by apply HA.
Qed.
Lemma ins_chain i : (i < tMaxHeight)%nat -> chain (nodeData p') i 0 (lvl p' i (B ++ node :: A)).
Proof.
  intros Hi. destruct ins_node as (_ & Eh & _). pose proof (i_chain _ _ I i Hi) as C. pose proof (pl_eq _ _ _ _ _ P) as HL.
  rewrite HL, lvl_app in C. pose proof Hp' as (En & _). rewrite En.
  assert (forall l, l ⊆ L -> lvl p' i l = lvl p i l) as El by (intros l Hl; apply lvl_ext; intros x Hx; apply ins_kept, Hl, Hx).
  assert (forall x, x ∈ 0%nat :: lvl p i B ++ lvl p i A -> ptr p L x i) as Hptr.
  { intros x. rewrite <- lvl_app. apply lvl_ptr; [done|by rewrite HL]. }
  rewrite lvl_app, (El B) by (rewrite HL; set_solver).
  destruct (decide (i < h)%nat) as [Hlt|Hge].
  - rewrite lvl_cons_in, (El A) by (try (rewrite HL; set_solver); lia). destruct (Hlink i Hlt) as [H1 H2].
    assert (forall x, ptr p L x i -> fresh !! (x + nNext + i)%nat = nodeData p !! (x + nNext + i)%nat) as Hold
      by (intros x Hx; apply ins_old, (ptr_bound _ _ _ _ I Hx)).
    apply (chain_insert (nodeData p)); [done| |done| |].
    + rewrite <- lvl_app, <- HL. constructor.
      * intros Hin%lvl_in. destruct (i_node _ _ _ I Hin). lia.
      * apply list.NoDup_filter. by eapply i_nodup.
    + rewrite H2. apply Hold, ins_pred, Hlt.
    + intros y Hy Hne. rewrite Hframe; [apply Hold, Hptr, Hy| |].
      * pose proof (ptr_bound _ _ _ _ I (Hptr y Hy)). unfold node. lia.
      * intros j Hj E. destruct (ptr_inj _ _ _ _ _ _ I (Hptr y Hy) (ins_pred j Hj) E) as [-> ->]. done.
  - rewrite lvl_cons_out, (El A) by (try (rewrite HL; set_solver); lia). eapply chain_frame; [exact C|].
    intros y Hy. pose proof (ptr_bound _ _ _ _ I (Hptr y Hy)). rewrite Hframe; [by apply ins_old|unfold node; lia|].
    intros j Hj E. destruct (ptr_inj _ _ _ _ _ _ I (Hptr y Hy) (ins_pred j Hj) E) as [_ ->]. lia.
Qed.
Lemma ins_inv : inv p' (B ++ node :: A) /\ entries p' (B ++ node :: A) = entries p B ++ (k, v) :: entries p A.
Proof.
  pose proof (pl_eq _ _ _ _ _ P) as HL. destruct ins_node as (N & Eh & Ek & Ev).
  assert (forall x, x ∈ B ++ node :: A -> x = node \/ x ∈ L) as Hin by (rewrite HL; set_solver).
  split; [split|].
  - apply list.Forall_forall. intros x [->|Hx]%Hin; [done|by apply ins_kept].
  - pose proof Hp' as (_ & _ & -> & _). pose proof (i_max _ _ I). lia.
  - apply Hp'.
  - pose proof Hp' as (-> & _). rewrite Hlen. pose proof (i_len _ _ I). unfold node. lia.
  - apply ins_sorted.
  - intros x y [->|Hx]%Hin [->|Hy]%Hin Hne; [done| | |].
    + right. rewrite (kp_hgt _ _ _ (ins_kept y Hy)). by apply ins_notin.
    + left. rewrite (kp_hgt _ _ _ (ins_kept x Hx)). by apply ins_notin.
    + rewrite (kp_hgt _ _ _ (ins_kept x Hx)), (kp_hgt _ _ _ (ins_kept y Hy)). by apply (i_disj _ _ I).
  - apply ins_chain.
  - unfold entries. rewrite fmap_app, fmap_cons, Ek, Ev. fold (entries p' B) (entries p' A).
    rewrite !(entries_ext p p'); [done|..]; intros x Hx; apply ins_kept; rewrite HL; set_solver.
Qed.
End Insert.

(** ** Put over an existing key *)
Section Overwrite.
Context (p p' : SkipDB) (L B A : list nat) (x : nat) (k v : bytes).
Context (I : inv p L) (HL : L = B ++ x :: A) (Hk : key p x = k).
Context (Hnodes : nodeData p' = <[(x + nVal)%nat := length v]>
           (if decide (v <> []) then <[x := length (kvData p)]> (nodeData p) else nodeData p)).
Context (Hkv : kvData p' = if decide (v <> []) then kvData p ++ k ++ v else kvData p).
Context (Hmax : maxHeight p' = maxHeight p) (Hprev : length (prevNode p') = tMaxHeight).

Lemma ovw_node : node_ok p x.
Proof. apply (i_node _ _ _ I). rewrite HL. set_solver. Qed.
Lemma ovw_length : length (nodeData p') = length (nodeData p).
Proof. rewrite Hnodes, length_insert. by case_decide; rewrite ?length_insert. Qed.
Lemma ovw_frame j : j <> x -> j <> (x + nVal)%nat -> nodeData p' !! j = nodeData p !! j.
Proof. intros H1 H2. rewrite Hnodes, list_lookup_insert_ne by done. case_decide; [by apply list_lookup_insert_ne|done]. Qed.
Lemma ovw_kept y : y ∈ L -> y <> x -> kept p p' y.
Proof.
  intros Hy Hne. assert (x ∈ L) as Hx by (rewrite HL; set_solver).
  apply (keep_node p p' y (if decide (v <> []) then k ++ v else [])); [by eapply i_node| | |lia|by rewrite ovw_length].
  - intros c Hc. pose proof (i_disj _ _ I x y Hx Hy). unfold nNext, nVal in *.
    apply ovw_frame; unfold nVal; destruct (i_disj _ _ I x y Hx Hy); unfold nNext, nVal in *; (done || lia).
  - rewrite Hkv. case_decide; [done|by rewrite app_nil_r].
Qed.
Lemma ovw_self : node_ok p' x /\ hgt p' x = hgt p x /\ key p' x = k /\ value p' x = v.
Proof.
  pose proof ovw_node as N. pose proof (key_length _ _ N) as Lk. rewrite Hk in Lk. destruct N as [N0 Nh Ne Nk].
  assert (x + 4 <= length (nodeData p))%nat as Hb by (unfold nNext in *; lia).
  assert (hgt p' x = hgt p x) as E1 by (apply total_eq, ovw_frame; unfold nHeight, nVal; lia).
  assert (klen p' x = klen p x) as E2 by (apply total_eq, ovw_frame; unfold nKey, nVal; lia).
  assert (vlen p' x = length v) as E3.
  { unfold vlen. rewrite list_lookup_total_alt, Hnodes, list_lookup_insert_eq; [done|]. unfold nVal.
    case_decide; rewrite ?length_insert; lia. }
  assert (koff p' x = if decide (v <> []) then length (kvData p) else koff p x) as E4.
  { unfold koff. rewrite !list_lookup_total_alt, Hnodes, list_lookup_insert_ne by (unfold nVal; lia).
    case_decide; [|done]. rewrite list_lookup_insert_eq by lia. done. }
  split; [split|split; [done|]]; unfold key, value; rewrite ?E1, ?E2, ?E3, ?E4, ?Hkv, ?ovw_length, <- ?Lk; try lia.
  - case_decide as D; [rewrite !length_app; lia|]. rewrite D. cbn. lia.
  - case_decide as D.
    + split; [by rewrite drop_app_length, take_app_length|].
      rewrite app_assoc, drop_app_length' by (rewrite length_app; lia). apply take_ge. lia.
    + rewrite D. split; [|done]. rewrite Lk. exact Hk.
Qed.
Lemma ovw_hgt y : y ∈ L -> hgt p' y = hgt p y.
Proof. intros Hy. destruct (decide (y = x)) as [->|Hne]; [apply ovw_self|by apply ovw_kept]. Qed.
Lemma ovw_key y : y ∈ L -> key p y = key p' y.
Proof. intros Hy. destruct (decide (y = x)) as [->|Hne]; [rewrite Hk; symmetry; apply ovw_self|symmetry; by apply ovw_kept]. Qed.
Lemma ovw_inv : inv p' L /\ entries p' L = entries p B ++ (k, v) :: entries p A.
Proof.
  assert (x ∈ L) as Hx by (rewrite HL; set_solver). split; [split|].
  - apply list.Forall_forall. intros y Hy. destruct (decide (y = x)) as [->|Hne]; [apply ovw_self|by apply ovw_kept].
  - rewrite Hmax. apply (i_max _ _ I).
  - done.
  - rewrite ovw_length. apply (i_len _ _ I).
  - eapply sorted_ext; [exact ovw_key|apply (i_sorted _ _ I)].
  - intros y z Hy Hz. rewrite !ovw_hgt by done. by apply (i_disj _ _ I).
  - intros i Hi. rewrite (lvl_ext p p') by exact ovw_hgt. eapply chain_frame; [by apply (i_chain _ _ I)|].
    intros y Hy. pose proof (lvl_ptr p L L y i Hi ltac:(done) Hy) as Hp.
    apply ovw_frame; [rewrite <- (Nat.add_0_r x)|]; eapply (ptr_header p L); try done; unfold nVal; lia.
  - rewrite HL. unfold entries. rewrite fmap_app, fmap_cons. pose proof ovw_self as (_ & _ & -> & ->).
    fold (entries p' B) (entries p' A). pose proof (i_nodup _ _ I) as N. rewrite HL in N.
    apply list.NoDup_app in N as (_ & NB & N). apply list.NoDup_cons in N as [NA _].
    rewrite !(entries_ext p p'); [done|..]; intros y Hy; apply ovw_kept; set_solver.
Qed.
End Overwrite.

(** ** Put is insertion into the sorted entries *)
Fixpoint upsert (k v : bytes) (l : list (bytes * bytes)) : list (bytes * bytes) :=
  match l with
  | [] => [(k, v)]
  | (k', v') :: r => match compare_bytes k' k with Lt => (k', v') :: upsert k v r | Eq => (k, v) :: r | Gt => (k, v) :: l end
  end.
Lemma upsert_place p k v L B A : place p k L B A ->
  upsert k v (entries p L) = entries p B ++ (k, v) :: entries p (if exact_at p k A then tail A else A).
Proof.
  intros [-> Hlt Hge]. unfold entries. induction B as [|x B IH]; cbn.
  - destruct A as [|x A]; cbn; [done|]. specialize (Hge x ltac:(by left)). unfold lt_bytes in Hge.
    pose proof (compare_bytes_eq (key p x) k) as E. case_bool_decide as D.
    + by rewrite (proj2 E D).
    + destruct (compare_bytes (key p x) k); [tauto|done|done].
  - rewrite (Hlt x ltac:(by left)). f_equal. apply IH. set_solver.
Qed.
(** A node from the key on keeps its place, and what follows it its entries. *)
Definition stable (p p' : SkipDB) (k : bytes) (L L' : list nat) : Prop :=
  forall B x A, L = B ++ x :: A -> ~ lt_bytes (key p x) k ->
    (exists B', L' = B' ++ x :: A) /\ key p' x = key p x /\ entries p' A = entries p A.
Lemma app_split (B0 A0 B : list nat) x A : B0 ++ A0 = B ++ x :: A -> x ∉ B0 -> exists A1, A0 = A1 ++ x :: A.
Proof.
  revert B0. induction B as [|b B IH]; intros [|b0 B0] E Hn; cbn in E.
  - by exists [].
  - injection E as -> _. set_solver.
  - by exists (b :: B).
  - injection E as -> E. apply (IH B0 E). set_solver.
Qed.
(** The table after [Put]: the entries, their number and their size. *)
Record put_done (k v : bytes) (p : SkipDB) (L : list nat) (p' : SkipDB) : Prop := {
  pd_entries : exists L', inv p' L' /\ entries p' L' = upsert k v (entries p L) /\ stable p p' k L L';
  pd_n : entries_n p' = (entries_n p + match assoc k (entries p L) with Some _ => 0 | None => 1 end)%nat;
  pd_size : kvSize p' = kvSize p + match assoc k (entries p L) with Some w => len v - len w | None => len k + len v end;
}.
Lemma Put_old draws p L B A x k v prevs : inv p L -> place p k L B (x :: A) -> key p x = k ->
  findGE k true p = Ret (x, true, prevs) -> length prevs = tMaxHeight ->
  exists p', Put draws k v p = Ret p' /\ put_done k v p L p'.
Proof.
  intros I P Hk E Hp. assert (exact_at p k (x :: A) = true) as Ex by (by apply bool_decide_eq_true).
  pose proof (upsert_place _ _ v _ _ _ P) as Eu. pose proof (assoc_place _ _ _ _ _ I P) as Ea. rewrite Ex in Eu, Ea.
  pose proof (pl_eq _ _ _ _ _ P) as HL.
  assert (node_ok p x) as N by (apply (i_node p L); [done|]; rewrite HL; set_solver).
  assert (x + nNext <= length (nodeData p))%nat as Hb by (destruct N; lia).
  unfold Put. rewrite E. cbn [mbind outcome_bind].
  set (nodes1 := if decide (v <> []) then <[x := length (kvData p)]> (nodeData p) else nodeData p).
  assert (length nodes1 = length (nodeData p)) as Hl1 by (unfold nodes1; case_decide; by rewrite ?length_insert).
  replace (if decide (v <> []) then set_idx _ _ _ else _) with (Ret nodes1)
    by (unfold nodes1; case_decide; [by rewrite set_idx_ok by (unfold nNext in *; lia)|done]). cbn [mbind outcome_bind].
  assert (nodes1 !! (x + nVal)%nat = Some (vlen p x)) as Ev.
  { unfold nodes1. assert (nodeData p !! (x + nVal)%nat = Some (vlen p x)).
    { apply list_lookup_lookup_total_lt. unfold nVal, nNext in *. lia. }
    case_decide; [rewrite list_lookup_insert_ne by (unfold nVal; lia)|]; done. }
  rewrite (idx_lookup _ _ _ Ev). cbn [mbind outcome_bind].
  rewrite set_idx_ok by (unfold nVal, nNext in *; lia). cbn [mbind outcome_bind]. eexists. split; [done|].
  split; cbn [entries_n kvSize]; rewrite ?Ea, ?Eu.
  - exists L. split_and!; [by apply (ovw_inv p _ L B A x k v)..|]. intros B' y A' HL' Hy. split; [by exists B'|]. split.
    + symmetry. apply (ovw_key p _ L B A x k v); try done. rewrite HL'. set_solver.
    + apply entries_ext. intros z Hz. apply (ovw_kept p _ L B A x k v); try done; [rewrite HL'; set_solver|]. intros ->.
      apply Hy. rewrite <- Hk. pose proof (i_sorted _ _ I) as S. rewrite HL' in S. apply StronglySorted_app_1_r in S.
      inversion S as [|? ? _ F]; subst. rewrite list.Forall_forall in F. by apply F.
  - lia.
  - cbn [hd]. enough (len (value p x) = Z.of_nat (vlen p x)) by lia.
    unfold value, len. rewrite length_take, length_drop. destruct N as [_ _ _ Nk]. lia.
Qed.
Lemma zeroed_prevs p k L B A h prevs : inv p L -> place p k L B A -> (h <= tMaxHeight)%nat ->
  length prevs = tMaxHeight -> (forall i, (i < maxHeight p)%nat -> prevs !! i = Some (pred p i B)) ->
  forall i, (i < h)%nat ->
    (if decide (maxHeight p < h)%nat then zero_loop (maxHeight p) h prevs else prevs) !! i = Some (pred p i B).
Proof.
  intros I P Hh Hpl Hp i Hi. destruct (decide (i < maxHeight p)%nat) as [Hlt|Hge].
  - case_decide; [unfold zero_loop; rewrite zero_loop_lookup, decide_False by lia|]; by apply Hp.
  - rewrite decide_True by lia. unfold zero_loop. rewrite zero_loop_lookup, decide_True by lia. unfold pred.
    rewrite lvl_none; [done|]. intros x Hx.
    assert (node_ok p x) as [_ ? _ _] by (apply (i_node p L); [done|]; rewrite (pl_eq _ _ _ _ _ P); set_solver). lia.
Qed.
Lemma Put_new draws p L B A k v prevs : inv p L -> place p k L B A -> exact_at p k A = false ->
  findGE k true p = Ret (hd 0%nat A, false, prevs) -> length prevs = tMaxHeight ->
  (forall i, (i < maxHeight p)%nat -> prevs !! i = Some (pred p i B)) ->
  exists p', Put draws k v p = Ret p' /\ put_done k v p L p'.
Proof.
  intros I P Ex E Hpl Hp.
  pose proof (upsert_place _ _ v _ _ _ P) as Eu. pose proof (assoc_place _ _ _ _ _ I P) as Ea. rewrite Ex in Eu, Ea.
  unfold Put. rewrite E. cbn [mbind outcome_bind]. cbv zeta.
  pose proof (randHeight_bound draws) as Hh. set (h := randHeight draws) in *.
  pose proof (zeroed_prevs _ _ _ _ _ h prevs I P ltac:(lia) Hpl Hp) as Hp1.
  set (prevs1 := if decide (maxHeight p < h)%nat then zero_loop (maxHeight p) h prevs else prevs) in *.
  assert (length prevs1 = tMaxHeight) as Hpl1 by (unfold prevs1; case_decide; [unfold zero_loop; by rewrite zero_loop_length|done]).
  assert (forall i, (i < h)%nat -> ptr p L (pred p i B) i) as Hptr by (intros; eapply pred_ptr; [done..|lia]).
  assert (forall m n, take h prevs1 !! m = Some n -> (m < h)%nat /\ n = pred p m B) as Ht.
  { intros m n Em. apply lookup_take_Some in Em as [Em Hm]. rewrite Hp1 in Em by done. by injection Em as <-. }
  assert (forall i, (i < h)%nat -> take h prevs1 !! i = Some (pred p i B)) as Ht'.
  { intros i Hi. rewrite lookup_take_lt by done. by apply Hp1. }
  destruct (link_loop_ok (length (nodeData p)) (take h prevs1) 0 (nodeData p ++ [length (kvData p); length k; length v; h]))
    as (nodes' & El & Hlen & Hm & Hf).
  - intros j (m & n & Em & ->). destruct (Ht m n Em) as [Hlt ->]. by apply (ptr_bound p L _ _ I), Hptr.
  - rewrite length_app. cbn. unfold nNext. lia.
  - intros a b x y Ha Hb Hab Exy. destruct (Ht a x Ha) as [Hla ->], (Ht b y Hb) as [Hlb ->].
    destruct (ptr_inj _ _ _ _ _ _ I (Hptr a Hla) (Hptr b Hlb) Exy). done.
  - rewrite El. cbn [mbind outcome_bind]. eexists. split; [done|]. rewrite length_app, length_take, Hpl1 in Hlen. cbn [length] in Hlen.
    split; cbn [entries_n kvSize]; rewrite ?Ea, ?Eu; [|lia..].
    match goal with |- exists L', inv ?q L' /\ _ => set (p' := q) end.
    assert (length nodes' = (length (nodeData p) + nNext + h)%nat) as C1 by (unfold nNext; lia).
    assert (forall i, (i < h)%nat -> nodes' !! (pred p i B + nNext + i)%nat = Some (length (nodeData p)) /\
      nodes' !! (length (nodeData p) + nNext + i)%nat =
      (nodeData p ++ [length (kvData p); length k; length v; h]) !! (pred p i B + nNext + i)%nat) as C2
      by (intros i Hi; apply (Hm i _ (Ht' i Hi))).
    assert (forall j, (j < length (nodeData p) + 4)%nat -> (forall i, (i < h)%nat -> j <> (pred p i B + nNext + i)%nat) ->
      nodes' !! j = (nodeData p ++ [length (kvData p); length k; length v; h]) !! j) as C3.
    { intros j Hj Hns. apply Hf; [rewrite length_app; cbn; lia|]. intros (m & n & Em & ->). destruct (Ht m n Em) as [Hlt ->].
      by apply (Hns m). }
    assert (nodeData p' = nodes' /\ kvData p' = kvData p ++ k ++ v /\ maxHeight p' = (maxHeight p `max` h)%nat /\
      length (prevNode p') = tMaxHeight) as C4 by (cbn; split_and!; [done|done| |done]; case_decide; lia).
    exists (B ++ length (nodeData p) :: A). split_and!; [by apply (ins_inv p p' L B A k v h nodes' I P Ex Hh)..|].
    pose proof (ins_kept p p' L B A k v h nodes' I P Hh C1 C3 C4) as Kp.
    intros B' y A' HL' Hy. pose proof (pl_eq _ _ _ _ _ P) as HL. rewrite HL in HL'. split.
    + destruct (app_split _ _ _ _ _ HL') as [A1 ->]; [intros Hin; by apply Hy, (pl_lt _ _ _ _ _ P)|].
      exists (B ++ length (nodeData p) :: A1). by rewrite <- app_assoc.
    + split; [|apply entries_ext; intros z Hz]; apply Kp; rewrite HL, HL'; set_solver.
Qed.
Lemma Put_ok draws p L k v : inv p L -> exists p', Put draws k v p = Ret p' /\ put_done k v p L p'.
Proof.
  intros I. destruct (place_exists p k L (i_sorted _ _ I)) as (B & A & P).
  destruct (findGE_ok p k true L B A I P) as (prevs & E & Hpl & Hpi). specialize (Hpi eq_refl).
  destruct (exact_at p k A) eqn:Ex; [|by eapply Put_new]. destruct A as [|x A]; [done|].
  apply bool_decide_eq_true in Ex. by eapply Put_old.
Qed.
Lemma new_inv : inv NewMemDB [].
Proof.
  split.
  - constructor.
  - cbn. unfold tMaxHeight. lia.
  - done.
  - vm_compute. lia.
  - constructor.
  - intros x y Hx. by apply not_elem_of_nil in Hx.
  - intros i Hi. unfold tMaxHeight in Hi. do 12 (destruct i as [|i]; [done|]). lia.
Qed.

(** ** Reset and the searches from behind *)
Lemma Reset_ok p L : inv p L -> Reset p = Ret NewMemDB.
Proof.
  intros I. pose proof (i_len _ _ I) as Hl. pose proof (i_prev _ _ I) as Hp. unfold Reset. rewrite decide_True by (unfold nNext; lia).
  unfold NewMemDB. do 2 f_equal.
  - apply list_eq. intros i. unfold zero_loop. rewrite zero_loop_lookup, !length_insert, length_take.
    destruct (decide (i < nNext + tMaxHeight)%nat) as [Hi|Hi].
    + do 4 (destruct i as [|i]; [rewrite decide_False by (unfold nNext; lia); unfold nNext, nKV, nKey, nVal, nHeight, tMaxHeight in *;
        destruct (nodeData p) as [|? [|? [|? [|? ?]]]]; cbn in Hl; try lia; done|]).
      rewrite decide_True by (unfold nNext in *; lia). symmetry. unfold nNext, tMaxHeight in *.
      rewrite list_lookup_insert_ne by (unfold nHeight; lia). apply lookup_replicate_2. lia.
    + rewrite decide_False by lia. rewrite !list_lookup_insert_ne by (unfold nHeight, nVal, nKey, nKV, nNext in *; lia).
      rewrite lookup_take_ge by lia. symmetry. apply lookup_replicate_None. unfold nNext in *. lia.
  - unfold zero_loop. apply list_eq. intros i. rewrite zero_loop_lookup.
    destruct (decide (i < tMaxHeight)%nat) as [Hi|Hi].
    + rewrite decide_True by lia. symmetry. by apply lookup_replicate_2.
    + rewrite decide_False by lia. rewrite lookup_ge_None_2 by lia. symmetry. apply lookup_replicate_None. lia.
Qed.
Lemma DeepClone_id p : DeepClone p = p.
Proof. by destruct p. Qed.
Lemma findLT_loop_ok p k L B A : inv p L -> place p k L B A ->
  forall fuel x h B2, at_node p B x h B2 -> (h < tMaxHeight)%nat -> (length B2 + h < fuel)%nat ->
    findLT_loop fuel p k x h = Ret (pred p 0 B).
Proof.
  intros I P. induction fuel as [|fuel IH]; intros x h B2 Hat Hh Hf; [lia|]. cbn [findLT_loop].
  pose proof (at_node_chain _ _ _ _ _ _ _ _ I P Hh Hat) as C. rewrite lvl_app in C.
  assert (forall y, y = 0%nat \/ y ∈ L -> (y < length (nodeData p))%nat) as Hb.
  { intros y [->|Hy]; [pose proof (i_len _ _ I); lia|]. destruct (i_node _ _ _ I Hy). lia. }
  destruct (lvl p h B2) as [|y r] eqn:E; rewrite (idx_lookup _ _ _ (chain_hd _ _ _ _ C)); cbn [mbind outcome_bind hd app].
  - destruct (probe_stop p k L B A h I P) as (c & Ec & Hlt & _ & _). unfold probe in Ec.
    rewrite idx_total by (apply Hb; destruct (lvl p h A) as [|z r] eqn:Ez; [by left|]; right; rewrite (pl_eq _ _ _ _ _ P);
      apply elem_of_app; right; apply (lvl_in p h); rewrite Ez; by left). cbn [mbind outcome_bind].
    set (n := hd 0%nat (lvl p h A)) in *.
    assert ((if decide (n = 0%nat) then Ret true else x0 ← node_key p n; Ret (bool_decide (compare_bytes x0 k <> Lt))) = Ret true) as ->.
    { case_decide; [done|]. destruct (node_key p n) as [x0| |]; [|done|done]. cbn in Ec |- *. injection Ec as ->.
      by rewrite bool_decide_true. }
    destruct h as [|h]; [by rewrite (at_node_pred _ _ _ _ _ Hat E)|]. apply (IH x h B2); [|lia|lia].
    destruct Hat as [?|(B1 & ? & ?)]; [by left|]. right. exists B1. split; [done|lia].
  - destruct (lvl_split _ _ _ _ _ E) as (a & b & -> & _ & Hy & ->).
    pose proof (at_node_next _ _ _ _ _ _ _ _ Hat eq_refl Hy) as Hat'.
    assert (y ∈ B) as HyB by (destruct Hat' as [[-> _]|(B1 & -> & _)]; [destruct Hat as [[_ <-]|(B1 & -> & _)]|]; set_solver).
    assert (y ∈ L) as HyL by (rewrite (pl_eq _ _ _ _ _ P); set_solver). pose proof (i_node _ _ _ I HyL) as N.
    rewrite idx_total by auto. cbn [mbind outcome_bind]. rewrite decide_False by (destruct N; lia).
    rewrite node_key_ok by done. cbn [mbind outcome_bind]. rewrite (pl_lt _ _ _ _ _ P y HyB), bool_decide_false by tauto.
    apply (IH y h b Hat' Hh). rewrite length_app in Hf. cbn in Hf. lia.
Qed.
(** The last node below the key, 0 if there is none. *)
Lemma findLT_ok p k L B A : inv p L -> place p k L B A -> findLT k p = Ret (lst 0 B).
Proof.
  intros I P. pose proof (i_max _ _ I). pose proof (i_length _ _ I) as Hl. rewrite (pl_eq _ _ _ _ _ P), length_app in Hl.
  unfold findLT. rewrite (findLT_loop_ok p k L B A I P _ 0 _ B); [|by left|lia|unfold search_fuel; lia].
  unfold pred. rewrite (lvl_zero p L B I); [done|]. rewrite (pl_eq _ _ _ _ _ P). set_solver.
Qed.
Lemma findLast_loop_ok p L : inv p L ->
  forall fuel x h L2, at_node p L x h L2 -> (h < tMaxHeight)%nat -> (length L2 + h < fuel)%nat ->
    findLast_loop fuel p x h = Ret (pred p 0 L).
Proof.
  intros I. induction fuel as [|fuel IH]; intros x h L2 Hat Hh Hf; [lia|]. cbn [findLast_loop].
  assert (chain (nodeData p) h x (lvl p h L2)) as C.
  { pose proof (i_chain _ _ I h Hh) as C. destruct Hat as [[-> ->]|(L1 & -> & Hx)]; [done|].
    rewrite lvl_app, lvl_cons_in in C by done. change (x :: lvl p h L2) with ([x] ++ lvl p h L2) in C.
    rewrite app_assoc in C. apply chain_app in C. by rewrite lst_app in C. }
  rewrite (idx_lookup _ _ _ (chain_hd _ _ _ _ C)). cbn [mbind outcome_bind].
  destruct (lvl p h L2) as [|y r] eqn:E; cbn [hd].
  - rewrite decide_True by done. destruct h as [|h]; [by rewrite (at_node_pred _ _ _ _ _ Hat E)|]. apply (IH x h L2); [|lia|lia].
    destruct Hat as [?|(B1 & ? & ?)]; [by left|]. right. exists B1. split; [done|lia].
  - destruct (lvl_split _ _ _ _ _ E) as (a & b & -> & _ & Hy & ->).
    pose proof (at_node_next _ _ _ _ _ _ _ _ Hat eq_refl Hy) as Hat'.
    assert (y ∈ L) as HyL by (destruct Hat' as [[-> _]|(B1 & -> & _)]; [destruct Hat as [[_ <-]|(B1 & -> & _)]|]; set_solver).
    rewrite decide_False by (destruct (i_node _ _ _ I HyL); lia).
    apply (IH y h b Hat' Hh). rewrite length_app in Hf. cbn in Hf. lia.
Qed.
Lemma findLast_ok p L : inv p L -> findLast p = Ret (lst 0 L).
Proof.
  intros I. pose proof (i_max _ _ I). pose proof (i_length _ _ I) as Hl.
  unfold findLast. rewrite (findLast_loop_ok p L I _ 0 _ L); [|by left|lia|unfold search_fuel; lia].
  unfold pred. by rewrite (lvl_zero p L L I).
Qed.
