(* ===== verification/Iterators.v ===== *)
(** * Iterators

    src/evm/storage: the iterator of the in-memory table ([dbIter] of
    overlaydb/memdb.go) and the iterator that joins a table with the layer below
    it ([JoinIter] of overlaydb/iterator.go).

    An iterator points into a table that may change between two calls, so every
    call takes the current table: [StoreIterator St I] has iterators of type [I]
    over a shared store of type [St].  The loops that skip deleted entries carry
    fuel. *)

From S2P Require Import Prelude SkipList.

(** [schema.StoreIterator] *)
Class StoreIterator (St I : Type) := {
  itFirst : St -> I -> outcome (bool * I);
  itNext : St -> I -> outcome (bool * I);
  itKey : I -> bytes;
  itValue : I -> bytes;
  itError : I -> option Z;
}.

(** ** dbIter *)
(** [util.Range]; [None] is a nil bound. *)
Record Range := mkRange { Start : option bytes; Limit : option bytes }.
(** [itReleased] is the flag of the embedded releaser. *)
Record dbIter := mkDbIter {
  slice_ : option Range;
  node_ : nat;
  forward : bool;
  key_ : bytes;
  value_ : bytes;
  err_ : option Z;
  itReleased : bool;
}.
Definition ErrIterReleased : Z := 1.
Definition NewIterator (slice : option Range) : dbIter := mkDbIter slice 0 false [] [] None false.
Definition set_pos (node : nat) (fwd : bool) (i : dbIter) : dbIter :=
  mkDbIter (slice_ i) node fwd (key_ i) (value_ i) (err_ i) (itReleased i).
Definition set_kv (k v : bytes) (i : dbIter) : dbIter :=
  mkDbIter (slice_ i) (node_ i) (forward i) k v (err_ i) (itReleased i).
Definition set_err (e : option Z) (i : dbIter) : dbIter :=
  mkDbIter (slice_ i) (node_ i) (forward i) (key_ i) (value_ i) e (itReleased i).

(** [slice != nil && check && bound != nil && Compare(key, bound) ...] *)
Definition over_limit (i : dbIter) (k : bytes) : bool :=
  match slice_ i ≫= Limit with Some l => bool_decide (compare_bytes k l <> Lt) | None => false end.
Definition under_start (i : dbIter) (k : bytes) : bool :=
  match slice_ i ≫= Start with Some s => bool_decide (compare_bytes k s = Lt) | None => false end.
(** The iterator keeps [key] and [value] as slices of [kvData], which is
    append-only: their bytes do not change while it holds them. *)
Definition fill (p : SkipDB) (checkStart checkLimit : bool) (i : dbIter) : outcome (bool * dbIter) :=
  if decide (node_ i <> 0%nat) then
    k ← node_key p (node_ i);
    if (checkLimit && over_limit i k) || (checkStart && under_start i k) then
      Ret (false, set_kv [] [] (set_pos 0 (forward i) i))
    else
      v ← node_val p (node_ i);
      Ret (true, set_kv k v i)
  else Ret (false, set_kv [] [] i).

Definition Valid (i : dbIter) : bool := bool_decide (node_ i <> 0%nat).
Definition First (p : SkipDB) (i : dbIter) : outcome (bool * dbIter) :=
  if itReleased i then Ret (false, set_err (Some ErrIterReleased) i)
  else
    node ← match slice_ i ≫= Start with
           | Some s => '(node, _, _) ← findGE s false p; Ret node
           | None => idx (nodeData p) nNext
           end;
    fill p false true (set_pos node true i).
Definition Last (p : SkipDB) (i : dbIter) : outcome (bool * dbIter) :=
  if itReleased i then Ret (false, set_err (Some ErrIterReleased) i)
  else
    node ← match slice_ i ≫= Limit with Some l => findLT l p | None => findLast p end;
    fill p true false (set_pos node false i).
Definition Seek (p : SkipDB) (key : bytes) (i : dbIter) : outcome (bool * dbIter) :=
  if itReleased i then Ret (false, set_err (Some ErrIterReleased) i)
  else
    let key := match slice_ i ≫= Start with
               | Some s => if decide (compare_bytes key s = Lt) then s else key
               | None => key
               end in
    '(node, _, _) ← findGE key false p;
    fill p false true (set_pos node true i).
Definition Next (p : SkipDB) (i : dbIter) : outcome (bool * dbIter) :=
  if itReleased i then Ret (false, set_err (Some ErrIterReleased) i)
  else if decide (node_ i = 0%nat) then
    if negb (forward i) then First p i else Ret (false, i)
  else
    node ← idx (nodeData p) (node_ i + nNext);
    fill p false true (set_pos node true i).
Definition Prev (p : SkipDB) (i : dbIter) : outcome (bool * dbIter) :=
  if itReleased i then Ret (false, set_err (Some ErrIterReleased) i)
  else if decide (node_ i = 0%nat) then
    if forward i then Last p i else Ret (false, i)
  else
    node ← findLT (key_ i) p;
    fill p true false (set_pos node false i).
Definition Release (i : dbIter) : dbIter :=
  if itReleased i then i else mkDbIter (slice_ i) 0 (forward i) [] [] (err_ i) true.

#[export] Instance dbIter_iterator : StoreIterator SkipDB dbIter := {|
  itFirst := First; itNext := Next; itKey := key_; itValue := value_; itError := err_;
|}.

(** ** JoinIter *)
Inductive KeyOrigin := FromMem | FromBack | FromBoth.
#[export] Instance KeyOrigin_eq : EqDecision KeyOrigin.
Proof. solve_decision. Defined.
Record JoinIter (IM IB : Type) := mkJoin {
  jbackend : IB;
  jmemdb : IM;
  jkey : bytes;
  jvalue : bytes;
  keyOrigin : KeyOrigin;
  nextMemEnd : bool;
  nextBackEnd : bool;
}.
Arguments mkJoin {IM IB}. Arguments jbackend {IM IB}. Arguments jmemdb {IM IB}. Arguments jkey {IM IB}.
Arguments jvalue {IM IB}. Arguments keyOrigin {IM IB}. Arguments nextMemEnd {IM IB}. Arguments nextBackEnd {IM IB}.

Section Join.
Context {SM SB IM IB : Type} `{StoreIterator SM IM} `{StoreIterator SB IB}.
Abbreviation JI := (JoinIter IM IB).

Definition NewJoinIter (memIter : IM) (backendIter : IB) : JI := mkJoin backendIter memIter [] [] FromMem false false.
Definition set_cur (k v : bytes) (o : KeyOrigin) (it : JI) : JI :=
  mkJoin (jbackend it) (jmemdb it) k v o (nextMemEnd it) (nextBackEnd it).
Definition set_iters (b : IB) (m : IM) (it : JI) : JI :=
  mkJoin b m (jkey it) (jvalue it) (keyOrigin it) (nextMemEnd it) (nextBackEnd it).
Definition jError (it : JI) : option Z :=
  match itError (jbackend it) with Some e => Some e | None => itError (jmemdb it) end.

Definition first (st : SM * SB) (it : JI) : outcome (bool * JI) :=
  '(back, b) ← itFirst st.2 (jbackend it);
  '(mem, m) ← itFirst st.1 (jmemdb it);
  let it := set_iters b m it in
  match jError it with
  | Some _ => Ret (false, it)
  | None =>
      if back : bool then
        let bkey := itKey b in
        let bval := itValue b in
        if negb mem then Ret (true, set_cur bkey bval FromBack it)
        else
          let mkey := itKey m in
          let mval := itValue m in
          match compare_bytes mkey bkey with
          | Eq => Ret (true, set_cur mkey mval FromBoth it)
          | Lt => Ret (true, set_cur mkey mval FromMem it)
          | Gt => Ret (true, set_cur bkey bval FromBack it)
          end
      else if mem : bool then Ret (true, set_cur (itKey m) (itValue m) FromMem it)
      else Ret (false, it)
  end.

Definition advance_mem (st : SM * SB) (it : JI) : outcome JI :=
  if (bool_decide (keyOrigin it = FromMem) || bool_decide (keyOrigin it = FromBoth)) && negb (nextMemEnd it) then
    '(ok, m) ← itNext st.1 (jmemdb it);
    Ret (mkJoin (jbackend it) m (jkey it) (jvalue it) (keyOrigin it) (negb ok) (nextBackEnd it))
  else Ret it.
Definition advance_back (st : SM * SB) (it : JI) : outcome JI :=
  if (bool_decide (keyOrigin it = FromBack) || bool_decide (keyOrigin it = FromBoth)) && negb (nextBackEnd it) then
    '(ok, b) ← itNext st.2 (jbackend it);
    Ret (mkJoin b (jmemdb it) (jkey it) (jvalue it) (keyOrigin it) (nextMemEnd it) (negb ok))
  else Ret it.
Definition next (st : SM * SB) (it : JI) : outcome (bool * JI) :=
  it ← advance_mem st it;
  it ← advance_back st it;
  match jError it with
  | Some _ => Ret (false, it)
  | None =>
      if nextBackEnd it then
        if nextMemEnd it then Ret (false, set_cur [] [] (keyOrigin it) it)
        else Ret (true, set_cur (itKey (jmemdb it)) (itValue (jmemdb it)) FromMem it)
      else if nextMemEnd it then Ret (true, set_cur (itKey (jbackend it)) (itValue (jbackend it)) FromBack it)
      else
        let bkey := itKey (jbackend it) in
        let mkey := itKey (jmemdb it) in
        match compare_bytes mkey bkey with
        | Lt => Ret (true, set_cur mkey (itValue (jmemdb it)) FromMem it)
        | Eq => Ret (true, set_cur mkey (itValue (jmemdb it)) FromBoth it)
        | Gt => Ret (true, set_cur bkey (itValue (jbackend it)) FromBack it)
        end
  end.
(** [for len(iter.value) == 0 { if !iter.next() { return false } }; return true] *)
Fixpoint skip_deleted (fuel : nat) (st : SM * SB) (it : JI) : outcome (bool * JI) :=
  match fuel with
  | O => NoFuel
  | S fuel =>
      if len (jvalue it) =? 0 then
        '(ok, it) ← next st it;
        if ok : bool then skip_deleted fuel st it else Ret (false, it)
      else Ret (true, it)
  end.
Definition jFirst (fuel : nat) (st : SM * SB) (it : JI) : outcome (bool * JI) :=
  '(f, it) ← first st it;
  if negb f then Ret (false, it) else skip_deleted fuel st it.
Definition jNext (fuel : nat) (st : SM * SB) (it : JI) : outcome (bool * JI) :=
  '(f, it) ← next st it;
  if negb f then Ret (false, it) else skip_deleted fuel st it.

Definition JoinIter_iterator (fuel : nat) : StoreIterator (SM * SB) JI := {|
  itFirst := jFirst fuel; itNext := jNext fuel; itKey := jkey; itValue := jvalue; itError := jError;
|}.
End Join.
