(* ===== verification/IteratorFacts.v ===== *)
(** * Iterators enumerate sorted lists

    [IteratorLaws] is what one iterator promises to its user: after [First] it
    stands at the head of a list of entries and every [Next] drops one.  The
    iterator of a table promises the entries of its range, and a [JoinIter] of
    two such iterators promises the merge of their lists without the deleted
    entries ([join_first], [join_next]). *)

From stdpp Require Import sorting.
From S2P Require Import Prelude SkipList SkipListFacts Iterators.

Abbreviation elist := (list (bytes * bytes)).
Definition more (l : elist) : bool := match l with [] => false | _ => true end.
(** The entry shown at [l]: nil key and value at the end. *)
Definition cur (l : elist) : bytes * bytes := hd ([], []) l.
Definition by_key (a b : bytes * bytes) : Prop := lt_bytes a.1 b.1.

Class IteratorLaws (St I : Type) `{StoreIterator St I} := {
  ready : St -> I -> elist -> Prop;
  at_ : St -> I -> elist -> Prop;
  first_ok st it l : ready st it l -> exists it', itFirst st it = Ret (more l, it') /\ at_ st it' l;
  next_ok st it l : at_ st it l -> exists it', itNext st it = Ret (more (tail l), it') /\ at_ st it' (tail l);
  at_cur st it l : at_ st it l -> (itKey it, itValue it) = cur l;
  at_error st it l : at_ st it l -> itError it = None;
}.

(** ** Merging *)
Fixpoint merge (lm : elist) : elist -> elist :=
  fix merge_lm (lb : elist) : elist :=
    match lm, lb with
    | [], _ => lb
    | _, [] => lm
    | (k, v) :: lm', (k', v') :: lb' =>
        match compare_bytes k k' with
        | Lt => (k, v) :: merge lm' lb
        | Eq => (k, v) :: merge lm' lb'
        | Gt => (k', v') :: merge_lm lb'
        end
    end.
(** Entries with a value; an empty value is a deletion. *)
Definition visible (l : elist) : elist := filter (fun e => e.2 <> []) l.
Lemma merge_nil_l lb : merge [] lb = lb.
Proof. by destruct lb. Qed.
Lemma merge_nil_r lm : merge lm [] = lm.
Proof. by destruct lm as [|[k v] lm]. Qed.
Lemma merge_cons k v lm k' v' lb : merge ((k, v) :: lm) ((k', v') :: lb) =
  match compare_bytes k k' with
  | Lt => (k, v) :: merge lm ((k', v') :: lb)
  | Eq => (k, v) :: merge lm lb
  | Gt => (k', v') :: merge ((k, v) :: lm) lb
  end.
Proof. done. Qed.
Lemma visible_cons e l : visible (e :: l) = (if decide (e.2 = []) then [] else [e]) ++ visible l.
Proof.
  unfold visible. destruct (decide (e.2 = [])); [rewrite list.filter_cons_False by tauto|rewrite list.filter_cons_True by tauto]; done.
Qed.
Lemma sorted_tail l : StronglySorted by_key l -> StronglySorted by_key (tail l).
Proof. destruct 1; [constructor|done]. Qed.
Lemma sorted_cur l y : StronglySorted by_key l -> y ∈ tail l -> by_key (cur l) y.
Proof. destruct 1 as [|x l _ F]; cbn; [by intros ?%not_elem_of_nil|]. rewrite list.Forall_forall in F. apply F. Qed.
Lemma lt_bytes_nonempty a b : lt_bytes a b -> b <> [].
Proof. by destruct a, b. Qed.
Lemma compare_nil_r b : b <> [] -> compare_bytes b [] = Gt.
Proof. by destruct b. Qed.
Lemma compare_nil_l b : b <> [] -> compare_bytes [] b = Lt.
Proof. by destruct b. Qed.

Section Join.
Context {SM SB IM IB : Type} `{IteratorLaws SM IM} `{IteratorLaws SB IB}.
Abbreviation JI := (JoinIter IM IB).

(** What is left behind the current entry. *)
Definition mem_rest (o : KeyOrigin) (lm : elist) : elist := match o with FromBack => lm | _ => tail lm end.
Definition back_rest (o : KeyOrigin) (lb : elist) : elist := match o with FromMem => lb | _ => tail lb end.
(** The iterator shows the entry chosen from [lm] and [lb].  [first] leaves the
    end flags unset, so an iterator that was empty from the start is met again:
    the "entry" is then nil, and skipped as a deleted one. *)
Definition chosen (o : KeyOrigin) (e : bytes * bytes) (lm lb : elist) (me be : bool) : Prop :=
  match o with
  | FromMem => e = cur lm /\ me = false /\ (lm <> [] -> forall y, y ∈ lb -> by_key (cur lm) y)
  | FromBack => e = cur lb /\ be = false /\ (lb <> [] -> forall y, y ∈ lm -> by_key (cur lb) y)
  | FromBoth => e = cur lm /\ me = false /\ be = false /\ lm <> [] /\ lb <> [] /\ (cur lm).1 = (cur lb).1
  end.
Record joined (st : SM * SB) (it : JI) (lm lb : elist) : Prop := {
  j_mem : at_ st.1 (jmemdb it) lm;
  j_back : at_ st.2 (jbackend it) lb;
  j_sm : StronglySorted by_key lm;
  j_sb : StronglySorted by_key lb;
  j_me : nextMemEnd it = true -> lm = [];
  j_be : nextBackEnd it = true -> lb = [];
  j_cur : chosen (keyOrigin it) (jkey it, jvalue it) lm lb (nextMemEnd it) (nextBackEnd it);
}.
Definition pending (end_ : bool) : nat := if end_ then 0 else 1.
Definition measure (it : JI) (lm lb : elist) : nat :=
  length lm + length lb + pending (nextMemEnd it) + pending (nextBackEnd it).
Record ended (st : SM * SB) (it : JI) : Prop := {
  e_mem : at_ st.1 (jmemdb it) [];
  e_back : at_ st.2 (jbackend it) [];
  e_me : nextMemEnd it = true;
  e_be : nextBackEnd it = true;
  e_key : jkey it = [];
  e_value : jvalue it = [];
}.

Lemma chosen_visible o e lm lb me be : StronglySorted by_key lm -> StronglySorted by_key lb -> chosen o e lm lb me be ->
  visible (merge lm lb) = (if decide (e.2 = []) then [] else [e]) ++ visible (merge (mem_rest o lm) (back_rest o lb)).
Proof.
  intros Sm Sb. destruct o; cbn [chosen mem_rest back_rest].
  - intros (-> & _ & Hlt). destruct lm as [|[k v] lm]; [by rewrite decide_True|]. rewrite <- visible_cons. f_equal. cbn [cur hd tail].
    destruct lb as [|[k' v'] lb]; [by rewrite !merge_nil_r|]. rewrite merge_cons.
    specialize (Hlt ltac:(done) (k', v') ltac:(by left)). unfold by_key, lt_bytes in Hlt. cbn in Hlt. by rewrite Hlt.
  - intros (-> & _ & Hlt). destruct lb as [|[k' v'] lb]; [by rewrite decide_True|]. rewrite <- visible_cons. f_equal.
    cbn [cur hd tail]. destruct lm as [|[k v] lm]; [by rewrite !merge_nil_l|]. rewrite merge_cons.
    specialize (Hlt ltac:(done) (k, v) ltac:(by left)). unfold by_key, lt_bytes in Hlt. cbn in Hlt.
    by rewrite compare_bytes_opp, Hlt.
  - intros (-> & _ & _ & Hm & Hb & E). destruct lm as [|[k v] lm], lb as [|[k' v'] lb]; try done. rewrite <- visible_cons.
    f_equal. cbn [cur hd tail fst] in *. subst k'. rewrite merge_cons. by rewrite (proj2 (compare_bytes_eq k k) eq_refl).
Qed.

Lemma advance_mem_ok (st : SM * SB) (it : JI) lm : at_ st.1 (jmemdb it) lm -> (nextMemEnd it = true -> lm = []) ->
  (keyOrigin it <> FromBack -> nextMemEnd it = false) ->
  exists m e, advance_mem st it = Ret (mkJoin (jbackend it) m (jkey it) (jvalue it) (keyOrigin it) e (nextBackEnd it)) /\
    at_ st.1 m (mem_rest (keyOrigin it) lm) /\ (e = true -> mem_rest (keyOrigin it) lm = []) /\
    (e = false -> mem_rest (keyOrigin it) lm = [] -> keyOrigin it = FromBack) /\
    (length (mem_rest (keyOrigin it) lm) + pending e + (if decide (keyOrigin it = FromBack) then 0 else 1) <=
     length lm + pending (nextMemEnd it))%nat.
Proof.
  intros Ha Hme Ho. unfold advance_mem. destruct it as [b m k v o me be]; cbn in *.
  destruct (decide (o = FromBack)) as [->|Hne].
  - cbn. exists m, me. split_and!; try done. lia.
  - rewrite (Ho Hne). replace (bool_decide (o = FromMem) || bool_decide (o = FromBoth)) with true by (by destruct o).
    cbn [negb andb]. destruct (next_ok st.1 m lm Ha) as (m' & E & Ha'). rewrite E. cbn [mbind outcome_bind].
    assert (mem_rest o lm = tail lm) as -> by (by destruct o). exists m', (negb (more (tail lm))).
    split_and!; [done|done|by destruct (tail lm)|by destruct (tail lm)|].
    destruct lm as [|x [|y lm]]; cbn; lia.
Qed.
Lemma advance_back_ok (st : SM * SB) (it : JI) lb : at_ st.2 (jbackend it) lb -> (nextBackEnd it = true -> lb = []) ->
  (keyOrigin it <> FromMem -> nextBackEnd it = false) ->
  exists b e, advance_back st it = Ret (mkJoin b (jmemdb it) (jkey it) (jvalue it) (keyOrigin it) (nextMemEnd it) e) /\
    at_ st.2 b (back_rest (keyOrigin it) lb) /\ (e = true -> back_rest (keyOrigin it) lb = []) /\
    (e = false -> back_rest (keyOrigin it) lb = [] -> keyOrigin it = FromMem) /\
    (length (back_rest (keyOrigin it) lb) + pending e + (if decide (keyOrigin it = FromMem) then 0 else 1) <=
     length lb + pending (nextBackEnd it))%nat.
Proof.
  intros Ha Hme Ho. unfold advance_back. destruct it as [b m k v o me be]; cbn in *.
  destruct (decide (o = FromMem)) as [->|Hne].
  - cbn. exists b, be. split_and!; try done. lia.
  - rewrite (Ho Hne). replace (bool_decide (o = FromBack) || bool_decide (o = FromBoth)) with true by (by destruct o).
    cbn [negb andb]. destruct (next_ok st.2 b lb Ha) as (b' & E & Ha'). rewrite E. cbn [mbind outcome_bind].
    assert (back_rest o lb = tail lb) as -> by (by destruct o). exists b', (negb (more (tail lb))).
    split_and!; [done|done|by destruct (tail lb)|by destruct (tail lb)|].
    destruct lb as [|x [|y lb]]; cbn; lia.
Qed.

(** Choosing the smaller head. *)
Lemma choose_ok st (it : JI) lm lb o0 : at_ st.1 (jmemdb it) lm -> at_ st.2 (jbackend it) lb ->
  StronglySorted by_key lm -> StronglySorted by_key lb ->
  (nextMemEnd it = true -> lm = []) -> (nextBackEnd it = true -> lb = []) ->
  (nextMemEnd it = false -> lm = [] -> o0 = FromBack) -> (nextBackEnd it = false -> lb = [] -> o0 = FromMem) ->
  (o0 = FromBack -> forall y, y ∈ lb -> y.1 <> []) -> (o0 = FromMem -> forall y, y ∈ lm -> y.1 <> []) ->
  exists ok it', (if nextBackEnd it then
        if nextMemEnd it then Ret (false, set_cur [] [] (keyOrigin it) it)
        else Ret (true, set_cur (itKey (jmemdb it)) (itValue (jmemdb it)) FromMem it)
      else if nextMemEnd it then Ret (true, set_cur (itKey (jbackend it)) (itValue (jbackend it)) FromBack it)
      else
        let bkey := itKey (jbackend it) in
        let mkey := itKey (jmemdb it) in
        match compare_bytes mkey bkey with
        | Lt => Ret (true, set_cur mkey (itValue (jmemdb it)) FromMem it)
        | Eq => Ret (true, set_cur mkey (itValue (jmemdb it)) FromBoth it)
        | Gt => Ret (true, set_cur bkey (itValue (jbackend it)) FromBack it)
        end) = Ret (ok, it') /\
    (if ok : bool then joined st it' lm lb /\ nextMemEnd it' = nextMemEnd it /\ nextBackEnd it' = nextBackEnd it
     else lm = [] /\ lb = [] /\ ended st it').
Proof.
  intros Am Ab Sm Sb Hme Hbe Hm0 Hb0 Hnb Hnm. destruct it as [b m k v o me be]; cbn in *.
  pose proof (at_cur _ _ _ Am) as Cm. pose proof (at_cur _ _ _ Ab) as Cb.
  destruct be.
  - rewrite (Hbe eq_refl) in *. destruct me.
    + rewrite (Hme eq_refl) in *. eexists _, _. split; [done|]. split_and!; [done..|]. by split.
    + eexists _, _. split; [done|]. cbn. split; [|done]. split; cbn; try done. split_and!; [done..|].
      intros _ y Hy. by apply not_elem_of_nil in Hy.
  - destruct me.
    + rewrite (Hme eq_refl) in *. eexists _, _. split; [done|]. cbn. split; [|done]. split; cbn; try done. split_and!; [done..|].
      intros _ y Hy. by apply not_elem_of_nil in Hy.
    + destruct (compare_bytes (itKey m) (itKey b)) eqn:C; (eexists _, _; split; [done|]; cbn; split; [|done]; split; cbn; try done).
      all: replace (itKey m) with (cur lm).1 in C by (by rewrite <- Cm); replace (itKey b) with (cur lb).1 in C by (by rewrite <- Cb).
      * apply compare_bytes_eq in C. split_and!; [done..| | |done].
        -- intros ->. specialize (Hm0 eq_refl eq_refl). destruct lb as [|e lb]; [by rewrite Hm0 in Hb0; specialize (Hb0 eq_refl eq_refl)|].
           apply (Hnb Hm0 e); [by left|done].
        -- intros ->. specialize (Hb0 eq_refl eq_refl). destruct lm as [|e lm]; [by rewrite Hb0 in Hm0; specialize (Hm0 eq_refl eq_refl)|].
           apply (Hnm Hb0 e); [by left|done].
      * split_and!; [done..|]. intros _ y Hy. destruct lb as [|e lb]; [by apply not_elem_of_nil in Hy|].
        apply elem_of_cons in Hy as [->|Hy]; [done|]. unfold by_key. etrans; [exact C|]. by apply (sorted_cur (e :: lb)).
      * rewrite compare_bytes_opp in C. split_and!; [done..|]. intros _ y Hy. destruct lm as [|e lm]; [by apply not_elem_of_nil in Hy|].
        assert (lt_bytes (cur lb).1 (cur (e :: lm)).1) as C' by (unfold lt_bytes; by destruct (compare_bytes (cur lb).1 _)).
        apply elem_of_cons in Hy as [->|Hy]; [done|]. unfold by_key. etrans; [exact C'|]. by apply (sorted_cur (e :: lm)).
Qed.
Lemma next_step st it lm lb : joined st it lm lb ->
  let lm' := mem_rest (keyOrigin it) lm in
  let lb' := back_rest (keyOrigin it) lb in
  exists ok it', next st it = Ret (ok, it') /\
    (if ok : bool then joined st it' lm' lb' /\ (measure it' lm' lb' < measure it lm lb)%nat
     else lm' = [] /\ lb' = [] /\ ended st it').
Proof.
  intros [Am Ab Sm Sb Hme Hbe Hc] lm' lb'. unfold next.
  destruct (advance_mem_ok st it lm Am Hme) as (m & e & -> & Am' & He1 & He2 & Hlm); [by destruct (keyOrigin it); cbn in Hc; intuition|].
  cbn [mbind outcome_bind]. set (it1 := mkJoin _ m _ _ _ e _).
  destruct (advance_back_ok st it1 lb Ab Hbe) as (b & f & -> & Ab' & Hf1 & Hf2 & Hlb); [by destruct (keyOrigin it); cbn in Hc |- *; intuition|].
  cbn [mbind outcome_bind]. set (it2 := mkJoin b _ _ _ _ _ f). cbn [keyOrigin it1] in *. fold lm' in Am', He1, He2, Hlm. fold lb' in Ab', Hf1, Hf2, Hlb.
  replace (jError it2) with (@None Z) by (unfold jError; cbn; by rewrite (at_error _ _ _ Ab'), (at_error _ _ _ Am')).
  destruct (choose_ok st it2 lm' lb' (keyOrigin it)) as (ok & it' & E & Hok); try done.
  - unfold lm'. destruct (keyOrigin it); cbn; (done || by apply sorted_tail).
  - unfold lb'. destruct (keyOrigin it); cbn; (done || by apply sorted_tail).
  - intros Eo y Hy. unfold lb' in Hy. rewrite Eo in Hy. exact (lt_bytes_nonempty _ _ (sorted_cur lb y Sb Hy)).
  - intros Eo y Hy. unfold lm' in Hy. rewrite Eo in Hy. exact (lt_bytes_nonempty _ _ (sorted_cur lm y Sm Hy)).
  - exists ok, it'. split; [exact E|]. destruct ok; [|done]. destruct Hok as (J & E1 & E2). split; [done|].
    unfold measure. rewrite E1, E2. change (nextMemEnd it2) with e. change (nextBackEnd it2) with f.
    change (nextBackEnd it1) with (nextBackEnd it) in Hlb.
    destruct (decide (keyOrigin it = FromBack)), (decide (keyOrigin it = FromMem)); try congruence; lia.
Qed.

Lemma joined_visible st it lm lb : joined st it lm lb ->
  visible (merge lm lb) = (if decide (jvalue it = []) then [] else [(jkey it, jvalue it)]) ++
    visible (merge (mem_rest (keyOrigin it) lm) (back_rest (keyOrigin it) lb)).
Proof. intros [_ _ Sm Sb _ _ Hc]. exact (chosen_visible _ _ _ _ _ _ Sm Sb Hc). Qed.
(** The iterator stands at [l]: at a live entry, or at the end. *)
Definition join_at (fuel : nat) (st : SM * SB) (it : JI) (l : elist) : Prop :=
  (exists lm lb, joined st it lm lb /\ (measure it lm lb <= fuel)%nat /\ l = visible (merge lm lb) /\
     (jvalue it = [] -> l = [] /\ jkey it = [])) \/
  (l = [] /\ ended st it).
Lemma skip_deleted_ok fuel0 st fuel : forall it lm lb, joined st it lm lb ->
  (measure it lm lb < fuel)%nat -> (measure it lm lb <= fuel0)%nat ->
  exists it', skip_deleted fuel st it = Ret (more (visible (merge lm lb)), it') /\
    join_at fuel0 st it' (visible (merge lm lb)).
Proof.
  induction fuel as [|fuel IH]; intros it lm lb J Hf Hf0; [lia|]. cbn [skip_deleted]. pose proof (joined_visible _ _ _ _ J) as Ev.
  destruct (decide (jvalue it = [])) as [Hv|Hv].
  - rewrite Hv. cbn [len length Z.of_nat]. change (0 =? 0) with true. cbv iota.
    destruct (next_step st it lm lb J) as (ok & it' & E & Hok). rewrite E. cbn [mbind outcome_bind]. cbn [app] in Ev. rewrite Ev.
    destruct ok.
    + destruct Hok as [J' Hm]. apply IH; [done|lia|lia].
    + destruct Hok as (-> & -> & Hend). exists it'. split; [done|]. by right.
  - assert ((len (jvalue it) =? 0) = false) as -> by (unfold len; destruct (jvalue it); [done|]; apply Z.eqb_neq; cbn [length]; lia).
    exists it. rewrite Ev. cbn [app more]. split; [done|]. left. exists lm, lb. split_and!; [done|done|by rewrite Ev|done].
Qed.
Lemma join_next fuel st it l : join_at fuel st it l ->
  exists it', jNext fuel st it = Ret (more (tail l), it') /\ join_at fuel st it' (tail l).
Proof.
  intros [(lm & lb & J & Hf & -> & Hv)|[-> Hend]]; unfold jNext.
  - destruct (next_step st it lm lb J) as (ok & it' & E & Hok). rewrite E. cbn [mbind outcome_bind].
    assert (tail (visible (merge lm lb)) = visible (merge (mem_rest (keyOrigin it) lm) (back_rest (keyOrigin it) lb))) as ->.
    { rewrite (joined_visible _ _ _ _ J). destruct (decide (jvalue it = [])) as [D|D]; [|done]. cbn [app].
      destruct (Hv D) as [E0 _]. rewrite (joined_visible _ _ _ _ J), decide_True in E0 by done. cbn [app] in E0. by rewrite E0. }
    destruct ok; cbn [negb].
    + destruct Hok as [J' Hm]. apply skip_deleted_ok; [done|lia|lia].
    + destruct Hok as (-> & -> & Hend). exists it'. split; [done|]. by right.
  - exists (set_cur [] [] (keyOrigin it) it). destruct Hend as [Am Ab Em Eb Ek Ev]. unfold next, advance_mem, advance_back.
    rewrite Em, Eb, !andb_false_r. cbn [mbind outcome_bind]. rewrite Eb, andb_false_r. cbn [mbind outcome_bind].
    unfold jError. rewrite (at_error _ _ _ Ab), (at_error _ _ _ Am), Em, Eb. cbn [mbind outcome_bind negb].
    split; [done|]. right. split; [done|]. by split.
Qed.
Lemma join_first fuel st m b lm lb : ready st.1 m lm -> ready st.2 b lb ->
  StronglySorted by_key lm -> StronglySorted by_key lb -> (length lm + length lb + 2 < fuel)%nat ->
  exists it', jFirst fuel st (NewJoinIter m b) = Ret (more (visible (merge lm lb)), it') /\
    join_at fuel st it' (visible (merge lm lb)).
Proof.
  intros Rm Rb Sm Sb Hf. unfold jFirst, first. cbn [NewJoinIter jbackend jmemdb].
  destruct (first_ok _ _ _ Rb) as (b' & -> & Ab), (first_ok _ _ _ Rm) as (m' & -> & Am). cbn [mbind outcome_bind].
  pose proof (at_cur _ _ _ Am) as Cm. pose proof (at_cur _ _ _ Ab) as Cb.
  unfold jError. cbn [set_iters jbackend jmemdb]. rewrite (at_error _ _ _ Ab), (at_error _ _ _ Am).
  assert (forall k v o, chosen o (k, v) lm lb false false ->
    exists it', skip_deleted fuel st (set_cur k v o (set_iters b' m' (NewJoinIter m b))) = Ret (more (visible (merge lm lb)), it') /\
      join_at fuel st it' (visible (merge lm lb))) as Hgo.
  { intros k v o Hc. apply skip_deleted_ok; [by split|unfold measure; cbn [nextMemEnd nextBackEnd set_cur set_iters NewJoinIter pending]; lia..]. }
  destruct lb as [|eb lb]; cbn [more negb].
  - destruct lm as [|em lm]; cbn [mbind outcome_bind negb].
    + eexists. split; [done|]. left. exists [], []. split_and!; [|unfold measure; cbn in *; lia|done|done].
      by split.
    + apply Hgo. cbn. split_and!; [done|done|]. intros _ y Hy. by apply not_elem_of_nil in Hy.
  - destruct lm as [|em lm]; cbn [more negb mbind outcome_bind].
    + apply Hgo. cbn. split_and!; [done|done|]. intros _ y Hy. by apply not_elem_of_nil in Hy.
    + destruct (choose_ok st (mkJoin b' m' [] [] FromMem false false) (em :: lm) (eb :: lb) FromBoth) as (ok & it' & E & Hok); try done.
      cbn in E. destruct (compare_bytes (itKey m') (itKey b')) eqn:C; injection E as <- <-; destruct Hok as [[_ _ _ _ _ _ Hc] _];
        cbn [mbind outcome_bind negb]; apply Hgo, Hc.
Qed.

Lemma join_cur fuel st it l : join_at fuel st it l -> (jkey it, jvalue it) = cur l.
Proof.
  intros [(lm & lb & J & _ & -> & Hv)|[-> [_ _ _ _ -> ->]]]; [|done]. rewrite (joined_visible _ _ _ _ J).
  destruct (decide (jvalue it = [])) as [D|D]; [|done]. destruct (Hv D) as [E0 Ek]. rewrite Ek, D.
  rewrite (joined_visible _ _ _ _ J), decide_True in E0 by done. cbn [app] in *. by rewrite E0.
Qed.
Lemma join_error fuel st it l : join_at fuel st it l -> jError it = None.
Proof.
  unfold jError. intros [(lm & lb & [Am Ab _ _ _ _ _] & _)|[_ [Am Ab _ _ _ _]]];
    by rewrite (at_error _ _ _ Ab), (at_error _ _ _ Am).
Qed.
Record join_ready (fuel : nat) (st : SM * SB) (it : JI) (l : elist) : Prop := {
  jr_new : exists m b lm lb, it = NewJoinIter m b /\ ready st.1 m lm /\ ready st.2 b lb /\
    StronglySorted by_key lm /\ StronglySorted by_key lb /\ (length lm + length lb + 2 < fuel)%nat /\ l = visible (merge lm lb);
}.
Definition join_laws (fuel : nat) : @IteratorLaws (SM * SB) JI (JoinIter_iterator fuel).
Proof.
  refine {| ready := join_ready fuel; at_ := join_at fuel |}.
  - intros st it l [(m & b & lm & lb & -> & Rm & Rb & Sm & Sb & Hf & ->)]. by apply join_first.
  - intros st it l. apply join_next.
  - intros st it l. apply join_cur.
  - intros st it l. apply join_error.
Defined.
End Join.

(** Merging keeps the order. *)
Lemma merge_elem lm : forall lb e, e ∈ merge lm lb -> e ∈ lm \/ e ∈ lb.
Proof.
  induction lm as [|[k v] lm IH]; intros lb e; [rewrite merge_nil_l; by right|].
  induction lb as [|[k' v'] lb IHb]; [rewrite merge_nil_r; by left|]. rewrite merge_cons.
  destruct (compare_bytes k k'); rewrite elem_of_cons; intros [->|He]; try set_solver.
  all: try (apply IH in He; set_solver).
Qed.
Lemma merge_sorted lm : forall lb, StronglySorted by_key lm -> StronglySorted by_key lb -> StronglySorted by_key (merge lm lb).
Proof.
  induction lm as [|[k v] lm IH]; intros lb Sm Sb; [by rewrite merge_nil_l|].
  induction lb as [|[k' v'] lb IHb]; [by rewrite merge_nil_r|]. rewrite merge_cons.
  inversion Sm as [|? ? Sm' Fm]; subst. inversion Sb as [|? ? Sb' Fb]; subst. rewrite list.Forall_forall in Fm, Fb.
  destruct (compare_bytes k k') eqn:C; constructor; auto; apply list.Forall_forall; intros e He; unfold by_key; cbn.
  - apply compare_bytes_eq in C. subst k'. apply merge_elem in He as [He|He]; [by apply Fm|by apply Fb].
  - apply merge_elem in He as [He|[->|He]%elem_of_cons]; [by apply Fm|done|]. etrans; [exact C|]. by apply Fb.
  - assert (lt_bytes k' k) as C' by (unfold lt_bytes; rewrite compare_bytes_opp in C; by destruct (compare_bytes k' k)).
    apply merge_elem in He as [[->|He]%elem_of_cons|He]; [done| |by apply Fb]. etrans; [exact C'|]. by apply Fm.
Qed.
Lemma filter_sorted (P : bytes * bytes -> Prop) `{forall e, Decision (P e)} l :
  StronglySorted by_key l -> StronglySorted by_key (filter P l).
Proof.
  induction 1 as [|x l S IH F]; [constructor|]. destruct (decide (P x)).
  - rewrite list.filter_cons_True by done. constructor; [done|]. rewrite list.Forall_forall in *. intros e He.
    apply F. by apply list_elem_of_filter in He as [_ ?].
  - by rewrite list.filter_cons_False.
Qed.

Lemma visible_merge_length lm : forall lb, (length (visible (merge lm lb)) <= length lm + length lb)%nat.
Proof.
  intros lb. unfold visible. etrans; [apply length_filter|]. revert lb. induction lm as [|[k v] lm IH]; intros lb; [by rewrite merge_nil_l|].
  induction lb as [|[k' v'] lb IHb]; [rewrite merge_nil_r; lia|]. rewrite merge_cons.
  destruct (compare_bytes k k'); cbn [length]; [specialize (IH lb)|specialize (IH ((k', v') :: lb))|]; cbn [length] in *; lia.
Qed.

(** ** The iterator of a table *)
Fixpoint upto (lim : option bytes) (l : elist) : elist :=
  match lim, l with
  | Some b, (k, v) :: r => match compare_bytes k b with Lt => (k, v) :: upto lim r | _ => [] end
  | _, _ => l
  end.
Lemma upto_none l : upto None l = l.
Proof. by destruct l. Qed.
Definition from (start : option bytes) (l : elist) : elist := match start with Some s => from_key s l | None => l end.
Definition clip (r : option Range) (l : elist) : elist := upto (r ≫= Limit) (from (r ≫= Start) l).
(** The iterator shows [l] over the table [p]: its key and value were read when
    it moved there, what follows is read from the table when it moves on. *)
Record db_at (p : SkipDB) (it : dbIter) (l : elist) : Prop := {
  da_live : itReleased it = false /\ err_ it = None;
  da_pos : exists L, inv p L /\
    ((l = [] /\ node_ it = 0%nat /\ forward it = true /\ key_ it = [] /\ value_ it = []) \/
     (exists B A, L = B ++ node_ it :: A /\ key_ it = key p (node_ it) /\
        l = (key_ it, value_ it) :: upto (slice_ it ≫= Limit) (entries p A)));
}.
Record db_ready (p : SkipDB) (it : dbIter) (l : elist) : Prop := {
  dr_live : itReleased it = false /\ err_ it = None;
  dr_list : exists L, inv p L /\ l = clip (slice_ it) (entries p L);
}.
Lemma fill_ok p L B A it : inv p L -> L = B ++ A -> itReleased it = false -> err_ it = None -> forward it = true ->
  node_ it = hd 0%nat A ->
  exists it', fill p false true it = Ret (more (upto (slice_ it ≫= Limit) (entries p A)), it') /\
    db_at p it' (upto (slice_ it ≫= Limit) (entries p A)).
Proof.
  intros I HL Hr He Hfw Hn. unfold fill. rewrite Hn. destruct A as [|x A]; cbn [hd].
  - rewrite decide_False by tauto. eexists. split; [by destruct (slice_ it ≫= Limit)|]. split; [done|]. exists L. split; [done|]. left.
    split_and!; try done. by destruct (slice_ it ≫= Limit).
  - assert (node_ok p x) as N by (apply (i_node p L); [done|]; rewrite HL; set_solver).
    rewrite decide_True by (destruct N; lia). rewrite node_key_ok by done. cbn [mbind outcome_bind andb].
    unfold over_limit. rewrite orb_false_r.
    assert (forall l, (key p x, value p x) :: upto (slice_ it ≫= Limit) (entries p A) = l ->
      exists it', (v ← node_val p x; Ret (true, set_kv (key p x) v it)) = Ret (more l, it') /\ db_at p it' l) as Hgo.
    { intros l <-. rewrite node_val_ok by done. cbn [mbind outcome_bind]. eexists. split; [done|]. split; [done|]. exists L.
      split; [done|]. right. exists B, A. cbn. rewrite Hn. done. }
    destruct (slice_ it ≫= Limit) as [lim|] eqn:El.
    + cbn [upto entries fmap list_fmap]. fold (entries p A). destruct (compare_bytes (key p x) lim) eqn:C.
      2: { rewrite bool_decide_false by tauto. by apply Hgo. }
      all: rewrite bool_decide_true by done; eexists; split; [done|]; split; [done|]; exists L; split; [done|]; by left.
    + apply Hgo. by rewrite !upto_none.
Qed.
Lemma db_first p it l : db_ready p it l -> exists it', First p it = Ret (more l, it') /\ db_at p it' l.
Proof.
  intros [[Hr He] (L & I & ->)]. unfold First, clip, from. rewrite Hr. destruct (slice_ it ≫= Start) as [s|] eqn:Es.
  - destruct (place_exists p s L (i_sorted _ _ I)) as (B & A & P). destruct (findGE_ok p s false L B A I P) as (pv & -> & _).
    cbn [mbind outcome_bind]. rewrite (from_key_place _ _ _ _ _ P).
    apply (fill_ok p L B A (set_pos (hd 0%nat A) true it) I (pl_eq _ _ _ _ _ P)); done.
  - pose proof (i_chain _ _ I 0%nat ltac:(unfold tMaxHeight; lia)) as C. rewrite (lvl_zero p L L) in C by done.
    apply chain_hd in C. change (0 + nNext + 0)%nat with nNext in C. rewrite (idx_lookup _ _ _ C). cbn [mbind outcome_bind].
    by apply (fill_ok p L [] L (set_pos (hd 0%nat L) true it) I).
Qed.
Lemma db_next p it l : db_at p it l -> exists it', Next p it = Ret (more (tail l), it') /\ db_at p it' (tail l).
Proof.
  intros [[Hr He] (L & I & Hpos)]. unfold Next. rewrite Hr. destruct Hpos as [(-> & Hn & Hf & Hk & Hv)|(B & A & HL & Hk & ->)].
  - rewrite decide_True, Hf by done. exists it. split; [done|]. split; [done|]. exists L. split; [done|]. by left.
  - assert (node_ok p (node_ it)) as N by (apply (i_node p L); [done|]; rewrite HL; set_solver).
    rewrite decide_False by (destruct N; lia). pose proof (i_chain _ _ I 0%nat ltac:(unfold tMaxHeight; lia)) as C.
    rewrite (lvl_zero p L L) in C by done. rewrite HL in C. change (node_ it :: A) with ([node_ it] ++ A) in C.
    rewrite app_assoc in C. apply chain_app in C. rewrite lst_app in C. cbn [lst] in C. apply chain_hd in C.
    rewrite Nat.add_0_r in C. rewrite (idx_lookup _ _ _ C). cbn [mbind outcome_bind tail].
    apply (fill_ok p L (B ++ [node_ it]) A (set_pos (hd 0%nat A) true it) I); [by rewrite <- app_assoc|done..].
Qed.
Lemma db_cur p it l : db_at p it l -> (key_ it, value_ it) = cur l.
Proof. intros [_ (L & _ & [(-> & _ & _ & Hk & Hv)|(B & A & _ & _ & ->)])]; cbn; by rewrite ?Hk, ?Hv. Qed.
Lemma db_error p it l : db_at p it l -> err_ it = None.
Proof. intros [[_ He] _]. exact He. Qed.
#[export] Instance db_laws : IteratorLaws SkipDB dbIter :=
  {| ready := db_ready; at_ := db_at; first_ok := db_first; next_ok := db_next; at_cur := db_cur; at_error := db_error |}.
(** Putting a key at or before the current one does not disturb the iterator. *)
Lemma db_at_put draws p p' it l k v : db_at p it l -> (l <> [] -> ~ lt_bytes (cur l).1 k) ->
  Put draws k v p = Ret p' -> db_at p' it l.
Proof.
  intros [Hl (L & I & Hpos)] Hk E. destruct (Put_ok draws p L k v I) as (p1 & E1 & [(L' & I' & _ & Hs) _ _]).
  rewrite E in E1. injection E1 as <-. split; [done|]. exists L'. split; [done|].
  destruct Hpos as [?|(B & A & HL & Hkey & ->)]; [by left|]. right. specialize (Hk ltac:(done)). cbn in Hk. rewrite Hkey in Hk.
  destruct (Hs B _ A HL Hk) as ((B' & HL') & Ek & Ee). exists B', A. by rewrite Ek, Ee.
Qed.

(** ** Association lists and maps *)
Lemma assoc_upsert k v k' l : assoc k' (upsert k v l) = if decide (k = k') then Some v else assoc k' l.
Proof.
  induction l as [|[a w] l IH]; cbn; [by case_decide|]. pose proof (compare_bytes_eq a k) as E.
  destruct (compare_bytes a k) eqn:C; cbn; rewrite ?IH.
  - rewrite (proj1 E eq_refl). by case_decide.
  - destruct (decide (k = k')) as [<-|]; [|done]. rewrite decide_False; [done|]. intros ->.
    rewrite (proj2 (compare_bytes_eq k k) eq_refl) in C. done.
  - done.
Qed.
Lemma entries_sorted p L : inv p L -> StronglySorted by_key (entries p L).
Proof.
  intros I. pose proof (i_sorted _ _ I) as S. clear I. unfold entries. induction S as [|x l S IH F]; cbn; constructor; [done|].
  rewrite list.Forall_forall in F. apply list.Forall_forall. intros [a w] (y & [= -> ->] & Hy)%list_elem_of_fmap. by apply F.
Qed.
Lemma sorted_keys_nodup l : StronglySorted by_key l -> NoDup l.*1.
Proof.
  induction 1 as [|x l S IH F]; cbn; constructor; [|done]. rewrite list.Forall_forall in F.
  intros (y & E & Hy)%list_elem_of_fmap. specialize (F y Hy). unfold by_key in F. rewrite E in F. by apply lt_bytes_irrefl in F.
Qed.
Lemma assoc_elem l k v : NoDup l.*1 -> (k, v) ∈ l <-> assoc k l = Some v.
Proof.
  induction l as [|[a w] l IH]; cbn; [by split; [intros ?%not_elem_of_nil|]|]. intros [Ha Hl]%list.NoDup_cons.
  rewrite elem_of_cons, (IH Hl). case_decide as D.
  - subst a. split; [|intros [= ->]; by left]. intros [[= ->]|E]; [done|]. apply IH in E; [|done]. exfalso. apply Ha.
    apply list_elem_of_fmap. by exists (k, v).
  - split; [intros [[= -> ->]|?]; done|by right].
Qed.

(** ** Looking up in sorted lists *)
Lemma assoc_not_elem k l : k ∉ l.*1 -> assoc k l = None.
Proof.
  induction l as [|[a w] l IH]; cbn; [done|]. intros Hn. rewrite decide_False by (intros ->; set_solver). apply IH. set_solver.
Qed.
Lemma assoc_below k e l : StronglySorted by_key (e :: l) -> ~ lt_bytes e.1 k -> assoc k l = None.
Proof.
  intros S Hlt. apply assoc_not_elem. intros (y & -> & Hy)%list_elem_of_fmap. apply Hlt. by apply (sorted_cur (e :: l)).
Qed.
Lemma assoc_merge k lm : forall lb, StronglySorted by_key lm -> StronglySorted by_key lb ->
  assoc k (merge lm lb) = match assoc k lm with Some v => Some v | None => assoc k lb end.
Proof.
  induction lm as [|[a v] lm IH]; intros lb Sm Sb; [by rewrite merge_nil_l|].
  induction lb as [|[b w] lb IHb]; [rewrite merge_nil_r; by destruct (assoc k ((a, v) :: lm))|]. rewrite merge_cons.
  pose proof (sorted_tail _ Sm) as Sm'. pose proof (sorted_tail _ Sb) as Sb'. cbn [tail] in Sm', Sb'.
  destruct (compare_bytes a b) eqn:C; cbn [assoc].
  - apply compare_bytes_eq in C. subst b. destruct (decide (a = k)); [done|]. by rewrite IH.
  - destruct (decide (a = k)); [done|]. by rewrite IH.
  - rewrite IHb by done. cbn [assoc]. destruct (decide (b = k)) as [->|]; [|done].
    rewrite compare_bytes_opp in C. assert (lt_bytes k a) as Hka by (unfold lt_bytes; by destruct (compare_bytes k a)).
    rewrite decide_False by (intros ->; by apply lt_bytes_irrefl in Hka). rewrite (assoc_below k (a, v) lm Sm); [done|]. cbn.
    intros Hak. apply (lt_bytes_irrefl k). by etrans.
Qed.
Lemma assoc_visible k l : NoDup l.*1 ->
  assoc k (visible l) = match assoc k l with Some (b :: v) => Some (b :: v) | _ => None end.
Proof.
  induction l as [|[a w] l IH]; [done|]. cbn [fmap list_fmap fst]. intros [Ha Hl]%list.NoDup_cons. rewrite visible_cons. cbn [snd assoc].
  destruct (decide (a = k)) as [->|Hne].
  - destruct w as [|b w]; [|rewrite decide_False by done; cbn; by rewrite decide_True].
    rewrite decide_True by done. cbn. rewrite IH by done. by rewrite (assoc_not_elem k l).
  - destruct (decide (w = [])); cbn; [by rewrite IH|]. by rewrite decide_False, IH.
Qed.
Definition in_range (r : Range) (k : bytes) : Prop :=
  match Start r with Some s => ~ lt_bytes k s | None => True end /\ match Limit r with Some b => lt_bytes k b | None => True end.
#[export] Instance lt_bytes_dec a b : Decision (lt_bytes a b).
Proof. unfold lt_bytes. apply _. Defined.
#[export] Instance in_range_dec r k : Decision (in_range r k).
Proof. unfold in_range. destruct (Start r), (Limit r); apply _. Defined.
Lemma assoc_upto k lim l : StronglySorted by_key l ->
  assoc k (upto lim l) = match lim with Some b => if decide (lt_bytes k b) then assoc k l else None | None => assoc k l end.
Proof.
  destruct lim as [b|]; [|by rewrite upto_none]. induction 1 as [|[a w] l S IH F]; cbn [upto assoc]; [by case_decide|].
  rewrite list.Forall_forall in F. destruct (compare_bytes a b) eqn:C; cbn [assoc].
  2: { destruct (decide (a = k)) as [->|]; [by rewrite decide_True|exact IH]. }
  all: (case_decide as D; [|done]); symmetry; rewrite decide_False by (intros ->; unfold lt_bytes in D; by rewrite C in D).
  all: apply (assoc_below k (a, w)); [constructor; [done|by apply list.Forall_forall]|]; cbn; intros Hak;
    pose proof (lt_bytes_trans _ _ _ Hak D) as Hab; unfold lt_bytes in Hab; by rewrite C in Hab.
Qed.
Lemma assoc_from_key k s l : StronglySorted by_key l ->
  assoc k (from_key s l) = if decide (lt_bytes k s) then None else assoc k l.
Proof.
  induction 1 as [|[a w] l S IH F]; [by destruct (decide _)|]. cbn [from_key].
  assert (StronglySorted by_key ((a, w) :: l)) as S' by (by constructor).
  assert (compare_bytes a s <> Lt -> lt_bytes k s -> assoc k ((a, w) :: l) = None) as Hn.
  { intros C D. cbn [assoc]. rewrite decide_False by (by intros ->). apply (assoc_below k (a, w) l S'). cbn. intros Hak.
    apply C. by apply (lt_bytes_trans _ _ _ Hak). }
  destruct (compare_bytes a s) eqn:C.
  2: { rewrite IH. destruct (decide (lt_bytes k s)) as [D|D]; [done|]. cbn [assoc]. rewrite decide_False; [done|]. by intros ->. }
  all: destruct (decide (lt_bytes k s)) as [D|D]; [by apply Hn|done].
Qed.
Lemma from_key_sorted s l : StronglySorted by_key l -> StronglySorted by_key (from_key s l).
Proof. induction 1 as [|[a w] l S IH F]; cbn; [constructor|]. destruct (compare_bytes a s); [by constructor|done|by constructor]. Qed.
Lemma upto_elem lim l e : e ∈ upto lim l -> e ∈ l.
Proof.
  destruct lim as [b|]; [|by rewrite upto_none]. induction l as [|[a w] l IH]; cbn [upto]; [done|].
  destruct (compare_bytes a b); try (by intros ?%not_elem_of_nil). rewrite !elem_of_cons. intros [->|?]; [by left|right; auto].
Qed.
Lemma upto_sorted lim l : StronglySorted by_key l -> StronglySorted by_key (upto lim l).
Proof.
  destruct lim as [b|]; [|by rewrite upto_none]. induction 1 as [|[a w] l S IH F]; cbn [upto]; [constructor|].
  destruct (compare_bytes a b); try constructor; [done|]. rewrite list.Forall_forall in *. intros e He. apply F. by eapply upto_elem.
Qed.
Lemma clip_sorted r l : StronglySorted by_key l -> StronglySorted by_key (clip r l).
Proof. intros S. apply upto_sorted. unfold from. destruct (r ≫= Start); [by apply from_key_sorted|done]. Qed.
Lemma assoc_clip k r l : StronglySorted by_key l -> assoc k (clip (Some r) l) = if decide (in_range r k) then assoc k l else None.
Proof.
  intros S. unfold clip, from. cbn [mbind option_bind]. rewrite assoc_upto.
  2: { destruct (Start r); [by apply from_key_sorted|done]. }
  destruct (decide (in_range r k)) as [[Hs Hb]|Hn]; unfold in_range in *;
    (destruct (Start r) as [s|]; [rewrite assoc_from_key by done|]); destruct (Limit r) as [b|]; repeat case_decide; tauto.
Qed.
Lemma upto_length lim l : (length (upto lim l) <= length l)%nat.
Proof.
  destruct lim as [b|]; [|by rewrite upto_none]. induction l as [|[a w] l IH]; cbn; [lia|]. destruct (compare_bytes a b); cbn; lia.
Qed.
Lemma clip_length r l : (length (clip r l) <= length l)%nat.
Proof.
  unfold clip. etrans; [apply upto_length|]. unfold from. destruct (r ≫= Start) as [s|]; [|lia].
  induction l as [|[a w] l IH]; cbn; [lia|]. destruct (compare_bytes a s); cbn; lia.
Qed.
