(* ===== verification/SkipListTheorems.v ===== *)
(** * The skip list refines a finite map

    Whatever the random heights, a table built by [Put] and [Delete] behaves as a
    finite map with its entries in key order ([memdb_refines_map]), so it can be
    the [MemDB] of the state database ([skip_MemDBLaws]). *)

From stdpp Require Import sorting.
From S2P Require Import Prelude Words Uint256 Codec Storage SkipList SkipListFacts Iterators.
From S2P Require Import IteratorFacts.

(** ** Tables as maps *)
Definition total_size (m : gmap (list Z) (list Z)) : Z := map_fold (fun k v s => len k + len v + s) 0 m.
Lemma total_size_insert (k v : list Z) (m : gmap (list Z) (list Z)) : m !! k = None ->
  total_size (<[k := v]> m) = len k + len v + total_size m.
Proof. intros H. unfold total_size. rewrite map_fold_insert_L; [done|intros; lia|done]. Qed.
Lemma total_size_update (k v w : list Z) (m : gmap (list Z) (list Z)) : m !! k = Some w ->
  total_size (<[k := v]> m) = total_size m + (len v - len w).
Proof.
  intros H. rewrite <- (insert_delete_id m k w H) at 2. rewrite <- insert_delete_eq.
  rewrite !total_size_insert by apply lookup_delete_eq. lia.
Qed.
(** The table [p] holds the map [m]. *)
Record holds (p : SkipDB) (m : gmap (list Z) (list Z)) : Prop := {
  h_inv : exists L, inv p L /\ forall k, assoc k (entries p L) = m !! k;
  h_len : entries_n p = size m;
  h_size : kvSize p = total_size m;
}.
Lemma holds_new : holds NewMemDB ∅.
Proof. split; [exists []; split; [apply new_inv|done]|done|done]. Qed.
Lemma holds_put draws p m (k v : list Z) : holds p m -> exists p', Put draws k v p = Ret p' /\ holds p' (<[k := v]> m).
Proof.
  intros [(L & I & Hl) Hn Hs]. destruct (Put_ok draws p L k v I) as (p' & E & [(L' & I' & Ee & _) En Es]). exists p'.
  split; [done|]. rewrite Hl in En, Es. split.
  - exists L'. split; [done|]. intros k'. rewrite Ee, assoc_upsert, Hl. case_decide as D.
    + subst k'. symmetry. apply (lookup_insert_eq (M := gmap (list Z))).
    + symmetry. by apply (lookup_insert_ne (M := gmap (list Z))).
  - rewrite En, Hn. destruct (m !! k) eqn:Em; [rewrite map_size_insert_Some by done; lia|rewrite map_size_insert_None by done; lia].
  - rewrite Es, Hs. destruct (m !! k) eqn:Em; [by rewrite (total_size_update k v _ m Em)|rewrite total_size_insert by done; lia].
Qed.
Lemma holds_get p m (k : list Z) : holds p m -> Get k p = Ret (m !! k).
Proof. intros [(L & I & Hl) _ _]. by rewrite (Get_ok p L), Hl. Qed.
Lemma holds_entries p m : holds p m ->
  exists l, ForEach p = Ret l /\ StronglySorted by_key l /\ (forall k v, (k, v) ∈ l <-> m !! k = Some v).
Proof.
  intros [(L & I & Hl) _ _]. exists (entries p L). split; [by apply ForEach_ok|]. pose proof (entries_sorted _ _ I) as S.
  split; [done|]. intros k v. rewrite <- Hl. apply assoc_elem, sorted_keys_nodup, S.
Qed.

(** A run of updates, the draws of the heights being arbitrary at each one. *)
Inductive update := UPut (k v : bytes) | UDelete (k : bytes).
Definition apply_update (draws : nat -> Z) (u : update) (p : SkipDB) : outcome SkipDB :=
  match u with UPut k v => Put draws k v p | UDelete k => Delete draws k p end.
Definition run (us : list ((nat -> Z) * update)) (p : SkipDB) : outcome SkipDB :=
  foldl (fun r '(d, u) => p ← r; apply_update d u p) (Ret p) us.
(** The specification: a deleted key stays, with the empty value. *)
Definition spec_update (m : gmap (list Z) (list Z)) (u : update) : gmap (list Z) (list Z) :=
  match u with UPut k v => <[k := v]> m | UDelete k => <[k := []]> m end.
Lemma run_holds us : forall p m, holds p m ->
  exists p', run us p = Ret p' /\ holds p' (foldl spec_update m us.*2).
Proof.
  induction us as [|[d u] us IH]; intros p m H; [by exists p|]. unfold run in *. cbn [foldl fmap list_fmap].
  assert (exists p1, apply_update d u p = Ret p1 /\ holds p1 (spec_update m u)) as (p1 & E & H1)
    by (destruct u; apply holds_put, H).
  cbn [mbind outcome_bind]. rewrite E. by apply IH.
Qed.
(** C30. The skip list of the write caches refines a finite map.  Any sequence of
    [Put] and [Delete] on a new table, whatever heights the random source draws,
    returns: no index is out of range and every search ends within its fuel.
    The table then reads as the map the same updates build, where deleting a key
    is [Put(key, nil)]: the key stays known, with the empty value, and keeps its
    node.  [ForEach] visits exactly the entries, deleted keys included, in
    strictly increasing key order; [Find] answers the first entry from the key
    on; [Len] is the number of entries and [Size] the bytes of keys and values,
    both counting the deleted keys (the comments on [Size] and [NewMemDB] say
    otherwise). *)
Theorem memdb_refines_map us :
  let m := foldl spec_update ∅ us.*2 in
  exists p l, run us NewMemDB = Ret p /\ ForEach p = Ret l /\
    (forall k, Get k p = Ret (m !! k)) /\
    StronglySorted by_key l /\ (forall k v, (k, v) ∈ l <-> m !! k = Some v) /\
    (forall k, Find k p = Ret (head (from_key k l))) /\
    Len_ p = size m /\ Size p = total_size m.
Proof.
  intros m. destruct (run_holds us NewMemDB ∅ holds_new) as (p & E & H). fold m in H. exists p.
  destruct (h_inv _ _ H) as (L & I & _). destruct (holds_entries p m H) as (l & El & Sl & Hl). exists l.
  rewrite (ForEach_ok p L I) in El. injection El as <-.
  split_and!; [done|by apply ForEach_ok|intros k; by apply holds_get|done|done| |apply H|apply H].
  intros k. by apply Find_ok.
Qed.

(** ** The instance for the state database *)
Section Instance_.
Context (draws : bytes -> bytes -> nat -> Z).
Definition SkipTable : Type := { p : SkipDB | exists m, holds p m }.
Definition put_of (k v : bytes) (p : SkipDB) : SkipDB := match Put (draws k v) k v p with Ret p' => p' | _ => p end.
Lemma put_of_holds (k v : list Z) p m : holds p m -> holds (put_of k v p) (<[k := v]> m).
Proof. intros H. unfold put_of. by destruct (holds_put (draws k v) p m k v H) as (p' & -> & H'). Qed.
Lemma put_of_ok k v p : (exists m, holds p m) -> exists m, holds (put_of k v p) m.
Proof. intros [m H]. eexists. by apply put_of_holds. Qed.
Definition skip_MemDB : MemDB SkipTable := {|
  memNew := exist _ NewMemDB (ex_intro _ ∅ holds_new);
  memGet k d := match Get k (`d) with Ret r => r | _ => None end;
  memPut k v d := exist _ (put_of k v (`d)) (put_of_ok k v (`d) (proj2_sig d));
  memEntries d := match ForEach (`d) with Ret l => l | _ => [] end;
|}.
Lemma skip_MemDBLaws : @MemDBLaws SkipTable skip_MemDB.
Proof.
  split; cbn [memGet memNew memPut memEntries skip_MemDB proj1_sig].
  - intros k. by rewrite (holds_get _ _ k holds_new).
  - intros k v [p [m H]]. cbn [proj1_sig]. rewrite (holds_get _ _ k (put_of_holds k v p m H)).
    apply (lookup_insert_eq (M := gmap (list Z))).
  - intros k k' v [p [m H]] Hne. cbn [proj1_sig]. rewrite (holds_get _ _ k' (put_of_holds k v p m H)), (holds_get _ _ k' H).
    by apply (lookup_insert_ne (M := gmap (list Z))).
  - intros [p [m H]]. cbn [proj1_sig]. destruct (holds_entries p m H) as (l & -> & S & _). by apply sorted_keys_nodup.
  - intros [p [m H]] k v. cbn [proj1_sig]. rewrite (holds_get _ _ k H). by destruct (holds_entries p m H) as (l & -> & _ & Hl).
Qed.
End Instance_.
