(* ===== verification/Cleaning.v ===== *)
(** * Iterating the layers, and destroying contracts

    src/evm/storage: [OverlayDB.NewIterator] and [CommitTo] (overlaydb.go),
    [CacheDB.NewIterator], [Iter] and [CleanContractStorageData] (cachedb.go),
    [StateDB.CommitToCacheDB] and [Commit] (statedb.go), over the skip list
    tables of SkipList.v.

    Parameters: the iterator of the persistent store ([storeIter]), the range
    [util.BytesPrefix] computes for a prefix, and the random draws of the
    tables. *)

From stdpp Require Import sorting.
From S2P Require Import Prelude Words Uint256 Params Config Stack Memory Opcodes Analysis State Codec.
From S2P Require Import Storage SkipList SkipListFacts Iterators IteratorFacts SkipListTheorems StorageFacts.

(** Iterators over a table of the state database. *)
#[export] Instance table_iterator : StoreIterator SkipTable dbIter := {|
  itFirst d := First (`d); itNext d := Next (`d); itKey := key_; itValue := value_; itError := err_;
|}.

Section Layers.
Context (draws : bytes -> bytes -> nat -> Z).
#[local] Existing Instance skip_MemDB.
Context {SI : Type} `{StoreIterator () SI} (storeIter : bytes -> outcome SI) (BytesPrefix : bytes -> Range).
Context (fuel : nat).
Abbreviation Cache := (CacheDB SkipTable).

(** ** OverlayDB *)
Abbreviation OverlayIter := (JoinIter dbIter SI).
#[local] Instance overlay_iterator : StoreIterator (SkipTable * ()) OverlayIter := JoinIter_iterator fuel.
Definition overlayNewIterator (key : bytes) : outcome OverlayIter :=
  let prefixRange := BytesPrefix key in
  backIter ← storeIter key;
  let memIter := NewIterator (Some prefixRange) in
  Ret (NewJoinIter memIter backIter).

(** ** CacheDB *)
Abbreviation CacheIter := (JoinIter dbIter OverlayIter).
Definition layers (c : Cache) : SkipTable * (SkipTable * ()) := (memdb c, (omemdb (backend c), ())).
Definition cacheNewIterator (key : bytes) : outcome CacheIter :=
  let pkey := ST_STORAGE :: key in
  let prefixRange := BytesPrefix pkey in
  backIter ← overlayNewIterator pkey;
  let memIter := NewIterator (Some prefixRange) in
  Ret (NewJoinIter memIter backIter).
(** [Iter.Key] drops the prefix byte. *)
Definition iterKey (it : CacheIter) : bytes := match jkey it with [] => [] | _ :: k => k end.
#[local] Instance cache_iterator : StoreIterator (SkipTable * (SkipTable * ())) CacheIter := JoinIter_iterator fuel.
(** [for has := iter.First(); has; has = iter.Next() { self.Delete(iter.Key()) }]
    from the point where [has] is known. *)
Fixpoint clean_loop (n : nat) (has : bool) (it : CacheIter) (c : Cache) : outcome (CacheIter * Cache) :=
  if has then
    match n with
    | O => NoFuel
    | S n =>
        let c := @cacheDelete SkipTable (skip_MemDB draws) ST_STORAGE (iterKey it) c in
        '(has, it) ← itNext (layers c) it;
        clean_loop n has it c
    end
  else Ret (it, c).
Definition CleanContractStorageData (addr : Address) (c : Cache) : outcome (option Z * Cache) :=
  iter ← cacheNewIterator addr;
  '(has, iter) ← itFirst (layers c) iter;
  '(iter, c) ← clean_loop fuel has iter c;
  Ret (jError iter, c).

(** ** StateDB.  Go visits the map in any order: [order] is the one taken. *)
Fixpoint clean_all (order : list Address) (c : Cache) : outcome (option Z * Cache) :=
  match order with
  | [] => Ret (None, c)
  | addr :: order =>
      let c := @DelEthAccount SkipTable (skip_MemDB draws) addr c in
      '(err, c) ← CleanContractStorageData addr c;
      match err with Some e => Ret (Some e, c) | None => clean_all order c end
  end.
Definition CommitToCacheDB (order : list Address) (s : StorageDB SkipTable) : outcome (option Z * StorageDB SkipTable) :=
  '(err, c) ← clean_all order (cacheDB s);
  match err with
  | Some e => Ret (Some e, set_cache c s)
  | None => Ret (None, set_snapshots [] (set_suicided ∅ (set_cache c s)))
  end.
Definition sdbCommit (order : list Address) (s : StorageDB SkipTable) : outcome (option Z * StorageDB SkipTable) :=
  '(err, s) ← CommitToCacheDB order s;
  match err with
  | Some e => Ret (Some e, s)
  | None => Ret (None, set_cache (@cacheCommit SkipTable (skip_MemDB draws) (cacheDB s)) s)
  end.
End Layers.

(** ** What the iterators enumerate *)
#[export] Instance table_laws : IteratorLaws SkipTable dbIter.
Proof.
  refine {| ready := fun d => db_ready (`d); at_ := fun d => db_at (`d) |}.
  - intros d. apply db_first.
  - intros d. apply db_next.
  - intros d. apply db_cur.
  - intros d. apply db_error.
Defined.
Lemma table_sorted draws (d : SkipTable) : StronglySorted by_key (@memEntries _ (skip_MemDB draws) d).
Proof. destruct d as [p [m Hh]]. cbn. destruct (holds_entries p m Hh) as (l & -> & S & _). exact S. Qed.
Lemma table_assoc draws (d : SkipTable) k : assoc k (@memEntries _ (skip_MemDB draws) d) = @memGet _ (skip_MemDB draws) k d.
Proof.
  destruct d as [p [m Hh]]. cbn. destruct (h_inv _ _ Hh) as (L & I & _). by rewrite (ForEach_ok p L I), (Get_ok p L).
Qed.
Lemma table_ready draws (d : SkipTable) r :
  ready d (NewIterator (Some r)) (clip (Some r) (@memEntries _ (skip_MemDB draws) d)).
Proof.
  destruct d as [p [m Hh]]. cbn. split; [done|]. destruct (h_inv _ _ Hh) as (L & I & _). exists L. by rewrite (ForEach_ok p L I).
Qed.
(** Stability of a join under a write at or before its current key. *)
Lemma join_at_write {SM SB IM IB} `{IteratorLaws SM IM} `{IteratorLaws SB IB} fuel (st : SM * SB) (sm : SM)
    (it : JoinIter IM IB) l : join_at fuel st it l -> l <> [] ->
  (forall lm, at_ st.1 (jmemdb it) lm -> (lm <> [] -> ~ lt_bytes (cur lm).1 (jkey it)) -> at_ sm (jmemdb it) lm) ->
  join_at fuel (sm, st.2) it l.
Proof.
  intros [(lm & lb & [Am Ab Sm Sb Hme Hbe Hc] & Hf & -> & Hv)|[-> _]] Hl Hstep; [|done].
  left. exists lm, lb. split_and!; try done. split; cbn; try done. apply Hstep; [done|]. intros Hlm.
  assert (jvalue it <> []) as Hne by (intros E; by destruct (Hv E)).
  destruct (keyOrigin it); cbn in Hc.
  - destruct Hc as (E & _). rewrite <- E. apply lt_bytes_irrefl.
  - destruct Hc as (E & _ & Hlt). destruct lb as [|e lb]; [injection E as _ Ev; by rewrite Ev in Hne|].
    destruct lm as [|f lm]; [done|]. specialize (Hlt ltac:(done) f ltac:(by left)). rewrite <- E in Hlt. unfold by_key in Hlt.
    cbn in Hlt |- *. intros Hc. apply (lt_bytes_irrefl (jkey it)). by etrans.
  - destruct Hc as (E & _). rewrite <- E. apply lt_bytes_irrefl.
Qed.

Section Clean.
Context (draws : bytes -> bytes -> nat -> Z) {SI : Type} `{IteratorLaws () SI}.
Context (storeIter : bytes -> outcome SI) (BytesPrefix : bytes -> Range) (fuel : nat).
#[local] Existing Instance skip_MemDB.
#[local] Instance skip_laws : @MemDBLaws SkipTable (skip_MemDB draws) := skip_MemDBLaws draws.
Abbreviation tGet := (@memGet SkipTable (skip_MemDB draws)).
Abbreviation tEntries := (@memEntries SkipTable (skip_MemDB draws)).
#[local] Instance overlay_iterator' : StoreIterator (SkipTable * ()) (JoinIter dbIter SI) := JoinIter_iterator fuel.
#[local] Instance overlay_laws : IteratorLaws (SkipTable * ()) (JoinIter dbIter SI) := join_laws fuel.
#[local] Instance cache_iterator' : StoreIterator (SkipTable * (SkipTable * ())) (JoinIter dbIter (JoinIter dbIter SI)) :=
  JoinIter_iterator fuel.
Abbreviation cView := (@view SkipTable (skip_MemDB draws)).

Lemma put_at (d : SkipTable) it l k v : at_ d it l -> (l <> [] -> ~ lt_bytes (cur l).1 k) ->
  at_ (@memPut _ (skip_MemDB draws) k v d) it l.
Proof.
  destruct d as [p [m Hh]]. cbn. intros Ha Hk. unfold put_of. destruct (holds_put (draws k v) p m k v Hh) as (p' & E & _).
  rewrite E. by eapply db_at_put.
Qed.
Lemma clean_loop_ok n : forall it l (c : CacheDB SkipTable), join_at fuel (layers c) it l -> (length l <= n)%nat ->
  (forall e, e ∈ l -> exists k, e.1 = ST_STORAGE :: k) -> NoDup l.*1 ->
  exists it' c', clean_loop draws fuel n (more l) it c = Ret (it', c') /\ jError it' = None /\ backend c' = backend c /\
    forall k, tGet k (memdb c') = if decide (k ∈ l.*1) then Some [] else tGet k (memdb c).
Proof.
  induction n as [|n IH]; intros it l c Hat Hn Hp Hnd; (destruct l as [|e l]; [|try (cbn in Hn; lia)]).
  1, 2: exists it, c; split_and!; [done|by eapply join_error|done|intros k; by rewrite decide_False by set_solver].
  cbn [clean_loop more]. pose proof (join_cur _ _ _ _ Hat) as Ec. cbn in Ec.
  destruct (Hp e ltac:(by left)) as [k0 Ek]. assert (jkey it = ST_STORAGE :: k0) as Ej by (rewrite <- Ek, <- Ec; done).
  unfold iterKey. rewrite Ej. set (c1 := cacheDelete ST_STORAGE k0 c).
  assert (join_at fuel (layers c1) it (e :: l)) as Hat1.
  { apply (join_at_write fuel (layers c) (memdb c1) it (e :: l) Hat); [done|]. intros lm Am Hlm. apply put_at; [done|].
    by rewrite <- Ej. }
  destruct (join_next _ _ _ _ Hat1) as (it1 & E & Hat2). cbn [tail] in E, Hat2.
  change (itNext (layers c1) it) with (jNext fuel (layers c1) it). rewrite E. cbn [mbind outcome_bind].
  cbn [fmap list_fmap] in Hnd. apply list.NoDup_cons in Hnd as [Hne Hnd].
  destruct (IH it1 l c1 Hat2) as (it' & c' & E' & He & Hb & Hg); [cbn in Hn; lia|set_solver|done|].
  exists it', c'. split_and!; [done|done|done|]. intros k. rewrite Hg. cbn [fmap list_fmap].
  destruct (decide (k = e.1)) as [->|Hk].
  - rewrite decide_False by done. rewrite decide_True by set_solver. unfold c1, cacheDelete, cachePut. cbn [memdb].
    rewrite Ek. apply memGet_put.
  - destruct (decide (k ∈ l.*1)); [by rewrite decide_True by set_solver|]. rewrite decide_False by set_solver.
    unfold c1, cacheDelete, cachePut. cbn [memdb]. apply memGet_put_ne. by rewrite <- Ek.
Qed.

(** What the store documents: [NewIterator(prefix)] enumerates in key order the
    pairs of the store whose key has the prefix. *)
Record store_lists (store : bytes -> store_result) (pre : bytes) (it : SI) (l : elist) : Prop := {
  sl_iter : storeIter pre = Ret it;
  sl_ready : ready () it l;
  sl_sorted : StronglySorted by_key l;
  sl_elem : forall k v, (k, v) ∈ l <-> pre `prefix_of` k /\ store k = Found v;
  sl_bytes : forall k v, (k, v) ∈ l -> bytes_ok k;
}.
(** What [util.BytesPrefix] documents: the range of the keys with the prefix. *)
Definition prefix_range : Prop :=
  forall pre k, bytes_ok pre -> bytes_ok k -> in_range (BytesPrefix pre) k <-> pre `prefix_of` k.
Definition keys_ok (d : SkipTable) : Prop := forall k, tGet k d <> None -> bytes_ok k.

Lemma clip_assoc d pre k : prefix_range -> keys_ok d -> bytes_ok pre ->
  assoc k (clip (Some (BytesPrefix pre)) (tEntries d)) = if decide (pre `prefix_of` k) then tGet k d else None.
Proof.
  intros Hr Hk Hp. rewrite assoc_clip by apply table_sorted. rewrite table_assoc.
  destruct (tGet k d) eqn:E; [|by repeat case_decide]. specialize (Hr pre k Hp (Hk k ltac:(by rewrite E))). repeat case_decide; tauto.
Qed.
Lemma store_assoc store pre it l k : store_lists store pre it l ->
  assoc k l = if decide (pre `prefix_of` k) then match store k with Found v => Some v | _ => None end else None.
Proof.
  intros [_ _ S Hl _]. pose proof (sorted_keys_nodup _ S) as N. destruct (assoc k l) as [v|] eqn:E.
  - apply (assoc_elem _ _ _ N) in E. apply Hl in E as [Hp Ev]. by rewrite decide_True, Ev.
  - case_decide as D; [|done]. destruct (store k) as [v| |] eqn:Es; [|done..].
    rewrite (proj1 (assoc_elem _ _ _ N) (proj2 (Hl k v) (conj D Es))) in E. done.
Qed.
(** The entries a cache iterator shows. *)
Definition overlay_list (c : CacheDB SkipTable) (pre : bytes) (l : elist) : elist :=
  visible (merge (clip (Some (BytesPrefix pre)) (tEntries (omemdb (backend c)))) l).
Definition cache_list (c : CacheDB SkipTable) (pre : bytes) (l : elist) : elist :=
  visible (merge (clip (Some (BytesPrefix pre)) (tEntries (memdb c))) (overlay_list c pre l)).
Lemma overlay_list_sorted c pre l : StronglySorted by_key l -> StronglySorted by_key (overlay_list c pre l).
Proof. intros S. apply filter_sorted, merge_sorted; [apply clip_sorted, table_sorted|done]. Qed.
Lemma cache_list_sorted c pre l : StronglySorted by_key l -> StronglySorted by_key (cache_list c pre l).
Proof. intros S. apply filter_sorted, merge_sorted; [apply clip_sorted, table_sorted|by apply overlay_list_sorted]. Qed.
Lemma assoc_visible_merge k lm lb : StronglySorted by_key lm -> StronglySorted by_key lb ->
  assoc k (visible (merge lm lb)) =
  match (match assoc k lm with Some v => Some v | None => assoc k lb end) with Some (b :: v) => Some (b :: v) | _ => None end.
Proof.
  intros Sm Sb. rewrite assoc_visible by (by apply sorted_keys_nodup, merge_sorted). by rewrite assoc_merge.
Qed.
Lemma cache_list_view c pre it l k : prefix_range -> keys_ok (memdb c) -> keys_ok (omemdb (backend c)) -> bytes_ok pre ->
  store_lists (store_ (backend c)) pre it l ->
  assoc k (cache_list c pre l) =
    if decide (pre `prefix_of` k) then match cView c k with Some (b :: v) => Some (b :: v) | _ => None end else None.
Proof.
  intros Hr Hk Ho Hp Hs. pose proof (sl_sorted _ _ _ _ Hs) as S. unfold cache_list.
  rewrite assoc_visible_merge by (apply clip_sorted, table_sorted || by apply overlay_list_sorted).
  rewrite clip_assoc by done. unfold overlay_list.
  rewrite assoc_visible_merge by (apply clip_sorted, table_sorted || done).
  rewrite clip_assoc by done. rewrite (store_assoc _ _ _ _ _ Hs). case_decide; [|done].
  unfold view, overlayGet. destruct (tGet k (memdb c)) as [v|]; [done|].
  destruct (tGet k (omemdb (backend c))) as [[|b v]|]; [done|done|]. by destruct (store_ (backend c) k) as [[|b v]| |].
Qed.
Lemma layered_first c pre it l : store_lists (store_ (backend c)) pre it l ->
  (length (tEntries (memdb c)) + length (tEntries (omemdb (backend c))) + length l + 4 < fuel)%nat ->
  exists it', jFirst fuel (layers c) (NewJoinIter (NewIterator (Some (BytesPrefix pre)))
                (NewJoinIter (NewIterator (Some (BytesPrefix pre))) it)) = Ret (more (cache_list c pre l), it') /\
    join_at fuel (layers c) it' (cache_list c pre l) /\ (length (cache_list c pre l) <= fuel)%nat.
Proof.
  intros Hs Hf. pose proof (sl_sorted _ _ _ _ Hs) as S.
  pose proof (clip_length (Some (BytesPrefix pre)) (tEntries (memdb c))) as L1.
  pose proof (clip_length (Some (BytesPrefix pre)) (tEntries (omemdb (backend c)))) as L2.
  pose proof (visible_merge_length (clip (Some (BytesPrefix pre)) (tEntries (omemdb (backend c)))) l) as L3.
  pose proof (visible_merge_length (clip (Some (BytesPrefix pre)) (tEntries (memdb c))) (overlay_list c pre l)) as L4.
  fold (overlay_list c pre l) in L3. fold (cache_list c pre l) in L4.
  destruct (join_first fuel (layers c) (NewIterator (Some (BytesPrefix pre))) (NewJoinIter (NewIterator (Some (BytesPrefix pre))) it)
    (clip (Some (BytesPrefix pre)) (tEntries (memdb c))) (overlay_list c pre l)) as (it' & E & Hat).
  - apply table_ready.
  - cbn. split. exists (NewIterator (Some (BytesPrefix pre))), it, (clip (Some (BytesPrefix pre)) (tEntries (omemdb (backend c)))), l.
    split_and!; [done|apply table_ready|apply Hs|apply clip_sorted, table_sorted|done| |done]. lia.
  - apply clip_sorted, table_sorted.
  - by apply overlay_list_sorted.
  - lia.
  - exists it'. split_and!; [exact E|exact Hat|lia].
Qed.
Lemma table_key (d : SkipTable) k : k ∈ (tEntries d).*1 <-> tGet k d <> None.
Proof.
  split.
  - intros ([k' v] & -> & Hin)%list_elem_of_fmap. apply memEntries_get in Hin. cbn [fst]. by rewrite Hin.
  - intros Hk. destruct (tGet k d) as [v|] eqn:E; [|done]. apply memEntries_get in E. apply list_elem_of_fmap. by exists (k, v).
Qed.
Lemma clip_keys r l k : k ∈ (clip r l).*1 -> k ∈ l.*1.
Proof.
  intros (e & -> & He)%list_elem_of_fmap. apply upto_elem in He. apply list_elem_of_fmap. exists e. split; [done|].
  unfold from in He. destruct (r ≫= Start) as [b|]; [|done]. clear -He. induction l as [|[a w] l IH]; cbn in *; [done|].
  destruct (compare_bytes a b); [done|right; auto|done].
Qed.
Lemma visible_merge_keys lm lb k : k ∈ (visible (merge lm lb)).*1 -> k ∈ lm.*1 \/ k ∈ lb.*1.
Proof.
  intros (e & -> & He)%list_elem_of_fmap. apply list_elem_of_filter in He as [_ He]. apply merge_elem in He as [He|He];
    [left|right]; apply list_elem_of_fmap; by exists e.
Qed.
Lemma cache_list_keys c pre l k : k ∈ (cache_list c pre l).*1 ->
  tGet k (memdb c) <> None \/ tGet k (omemdb (backend c)) <> None \/ k ∈ l.*1.
Proof.
  intros [Hk|[Hk|Hk]%visible_merge_keys]%visible_merge_keys; [left|right; left|by right; right]; by apply table_key, (clip_keys _ _ _ Hk).
Qed.
Lemma table_size (c c' : CacheDB SkipTable) (l : elist) :
  (forall k, tGet k (memdb c') <> None -> tGet k (memdb c) <> None \/ tGet k (omemdb (backend c)) <> None \/ k ∈ l.*1) ->
  (length (tEntries (memdb c')) <= length (tEntries (memdb c)) + length (tEntries (omemdb (backend c))) + length l)%nat.
Proof.
  intros Hn. rewrite <- !(length_fmap fst), <- !length_app. apply submseteq_length, NoDup_submseteq; [apply memEntries_nodup|].
  intros k Hk. apply table_key in Hk. rewrite !elem_of_app, !table_key. apply Hn in Hk. tauto.
Qed.
Lemma clean_ok addr c it l : prefix_range -> keys_ok (memdb c) -> keys_ok (omemdb (backend c)) -> bytes_ok addr ->
  store_lists (store_ (backend c)) (ST_STORAGE :: addr) it l ->
  (length (tEntries (memdb c)) + length (tEntries (omemdb (backend c))) + length l + 4 < fuel)%nat ->
  exists c', CleanContractStorageData draws storeIter BytesPrefix fuel addr c = Ret (None, c') /\ backend c' = backend c /\
    (forall k, cView c' k = if decide ((ST_STORAGE :: addr) `prefix_of` k) then (fun _ => []) <$> cView c k else cView c k) /\
    keys_ok (memdb c') /\
    (length (tEntries (memdb c')) <= length (tEntries (memdb c)) + length (tEntries (omemdb (backend c))) + length l)%nat.
Proof.
  intros Hr Hk Ho Hb Hs Hf. set (pre := ST_STORAGE :: addr) in *.
  assert (bytes_ok pre) as Hp by (constructor; [unfold is_byte, ST_STORAGE; lia|done]).
  destruct (layered_first c pre it l Hs Hf) as (it1 & E1 & Hat & Hlen).
  pose proof (fun k => cache_list_view c pre it l k Hr Hk Ho Hp Hs) as Hv.
  pose proof (sorted_keys_nodup _ (cache_list_sorted c pre l (sl_sorted _ _ _ _ Hs))) as N.
  unfold CleanContractStorageData, cacheNewIterator, overlayNewIterator. fold pre. rewrite (sl_iter _ _ _ _ Hs).
  cbn [mbind outcome_bind]. change (itFirst (layers c)) with (jFirst (IM := dbIter) (IB := JoinIter dbIter SI) fuel (layers c)).
  rewrite E1. cbn [mbind outcome_bind].
  destruct (clean_loop_ok fuel it1 (cache_list c pre l) c Hat Hlen) as (it2 & c' & E2 & He & Hbk & Hg); [|done|].
  { intros [k v] Hin. apply (assoc_elem _ _ _ N) in Hin. rewrite Hv in Hin. case_decide as D; [|done].
    destruct D as [r ->]. by exists (addr ++ r). }
  rewrite E2. cbn [mbind outcome_bind]. exists c'. split_and!; [exact (f_equal (fun e => Ret (e, c')) He)|done| | |].
  2, 3: assert (forall k, tGet k (memdb c') <> None -> tGet k (memdb c) <> None \/ tGet k (omemdb (backend c)) <> None \/ k ∈ l.*1) as Hn
    by (intros k Hk'; rewrite Hg in Hk'; case_decide as Dk; [by apply cache_list_keys in Dk|by left]).
  2: { intros k [?|[?|(e & -> & He')%list_elem_of_fmap]]%Hn; [by apply Hk|by apply Ho|]. destruct e. by eapply (sl_bytes _ _ _ _ Hs). }
  2: { by apply table_size. }
  intros k. unfold view at 1. rewrite Hg, Hbk. specialize (Hv k).
  destruct (decide (k ∈ (cache_list c pre l).*1)) as [Dk|Dk].
  - apply list_elem_of_fmap in Dk as ([k' v] & -> & Hin). cbn [fst] in *. apply (assoc_elem _ _ _ N) in Hin. rewrite Hv in Hin.
    case_decide; [|done]. destruct (cView c k') as [w|]; [done|done].
  - apply assoc_not_elem in Dk. rewrite Dk in Hv. fold (cView c k).
    case_decide; [|done]. by destruct (cView c k) as [[|b w]|].
Qed.

(** ** Committing the destroyed contracts *)
(** The view after the accounts of [order] are destroyed. *)
Definition destroyed (order : list Address) (v : bytes -> option bytes) (k : bytes) : option bytes :=
  if decide (Exists (fun a => k = ST_ETH_ACCOUNT :: a) order) then Some []
  else if decide (Exists (fun a => (ST_STORAGE :: a) `prefix_of` k) order) then (fun _ => []) <$> v k
  else v k.
(** The store lists at most [m] pairs for every account destroyed. *)
Definition listable (store : bytes -> store_result) (m : nat) (order : list Address) : Prop :=
  Forall (fun a => bytes_ok a /\ exists it l, store_lists store (ST_STORAGE :: a) it l /\ (length l <= m)%nat) order.
Lemma keys_ok_put d k v : keys_ok d -> bytes_ok k -> keys_ok (@memPut _ (skip_MemDB draws) k v d).
Proof.
  intros Hd Hk k' H'. destruct (decide (k = k')) as [<-|Hne]; [done|]. apply Hd. rewrite memGet_put_ne in H' by done. done.
Qed.
Lemma table_put_size (d : SkipTable) k v : (length (tEntries (@memPut _ (skip_MemDB draws) k v d)) <= S (length (tEntries d)))%nat.
Proof.
  rewrite <- !(length_fmap fst). change (S (length (tEntries d).*1)) with (length (k :: (tEntries d).*1)).
  apply submseteq_length, NoDup_submseteq; [apply memEntries_nodup|]. intros k' Hk'. apply table_key in Hk'.
  destruct (decide (k = k')) as [<-|Hne]; [by left|]. right. apply table_key. rewrite memGet_put_ne in Hk' by done. done.
Qed.
Lemma destroyed_step order a v k : destroyed order (destroyed [a] v) k = destroyed (a :: order) v k.
Proof.
  unfold destroyed. pose proof (Exists_cons (fun a => k = ST_ETH_ACCOUNT :: a) a order) as E1.
  pose proof (Exists_cons (fun a => (ST_STORAGE :: a) `prefix_of` k) a order) as E2.
  pose proof (Exists_cons (fun a => k = ST_ETH_ACCOUNT :: a) a []) as E3.
  pose proof (Exists_cons (fun a => (ST_STORAGE :: a) `prefix_of` k) a []) as E4. rewrite Exists_nil in E3, E4.
  repeat match goal with |- context [decide ?P] => destruct (decide P) end; try tauto; try done; by destruct (v k).
Qed.
Lemma destroy_one addr c it l : prefix_range -> keys_ok (memdb c) -> keys_ok (omemdb (backend c)) -> bytes_ok addr ->
  store_lists (store_ (backend c)) (ST_STORAGE :: addr) it l ->
  (length (tEntries (memdb c)) + length (tEntries (omemdb (backend c))) + length l + 5 < fuel)%nat ->
  exists c', CleanContractStorageData draws storeIter BytesPrefix fuel addr (@DelEthAccount _ (skip_MemDB draws) addr c) = Ret (None, c') /\
    backend c' = backend c /\ (forall k, cView c' k = destroyed [addr] (cView c) k) /\ keys_ok (memdb c') /\
    (length (tEntries (memdb c')) <= length (tEntries (memdb c)) + length (tEntries (omemdb (backend c))) + length l + 1)%nat.
Proof.
  intros Hr Hk Ho Hb Hs Hf. set (c1 := DelEthAccount addr c).
  pose proof (table_put_size (memdb c) (ST_ETH_ACCOUNT :: addr) []) as Hsz.
  change (@memPut _ (skip_MemDB draws) (ST_ETH_ACCOUNT :: addr) [] (memdb c)) with (memdb c1) in Hsz.
  destruct (clean_ok addr c1 it l Hr) as (c' & E & Hbk & Hv & Hk' & Hsz').
  - apply keys_ok_put; [done|]. constructor; [unfold is_byte, ST_ETH_ACCOUNT; lia|done].
  - done.
  - done.
  - done.
  - change (backend c1) with (backend c). lia.
  - exists c'. change (backend c1) with (backend c) in *. split_and!; [done|done| |done|lia].
    intros k. rewrite Hv. unfold destroyed.
    assert (cView c1 k = if decide (k = ST_ETH_ACCOUNT :: addr) then Some [] else cView c k) as ->.
    { unfold view, c1, DelEthAccount, cachePut. cbn [memdb backend]. case_decide as D.
      - subst k. by rewrite memGet_put.
      - rewrite memGet_put_ne by done. done. }
    pose proof (Exists_cons (fun a => k = ST_ETH_ACCOUNT :: a) addr []) as E3.
    pose proof (Exists_cons (fun a => (ST_STORAGE :: a) `prefix_of` k) addr []) as E4. rewrite Exists_nil in E3, E4.
    repeat match goal with |- context [decide ?P] => destruct (decide P) end; try tauto; done.
Qed.
Lemma clean_all_ok m : prefix_range -> forall order c, keys_ok (memdb c) -> keys_ok (omemdb (backend c)) ->
  listable (store_ (backend c)) m order ->
  (length (tEntries (memdb c)) + S (length order) * (length (tEntries (omemdb (backend c))) + m + 1) + 5 < fuel)%nat ->
  exists c', clean_all draws storeIter BytesPrefix fuel order c = Ret (None, c') /\ backend c' = backend c /\
    forall k, cView c' k = destroyed order (cView c) k.
Proof.
  intros Hr. induction order as [|a order IH]; intros c Hk Ho Hl Hf.
  - exists c. split_and!; [done|done|]. intros k. unfold destroyed.
    rewrite !decide_False; [done|by intros ?%Exists_nil..].
  - apply list.Forall_cons in Hl as [(Hb & it & l & Hs & Hm) Hl]. cbn [length] in Hf. cbn [clean_all].
    destruct (destroy_one a c it l Hr Hk Ho Hb Hs) as (c1 & E & Hbk & Hv & Hk1 & Hsz); [nia|].
    rewrite E. cbn [mbind outcome_bind].
    destruct (IH c1) as (c' & E' & Hbk' & Hv'); [done|by rewrite Hbk|by rewrite Hbk|rewrite Hbk; nia|].
    exists c'. split_and!; [done|by rewrite Hbk'|]. intros k. rewrite Hv', <- destroyed_step. unfold destroyed.
    by rewrite Hv.
Qed.
End Clean.
