(* ===== verification/LayerTheorems.v ===== *)
(** * Theorems on the layers of the state database

    A joined iterator enumerates the two layers as one sorted map
    ([join_iterates_layers]); committing a transaction destroys the contracts it
    suicided and nothing else ([commit_destroys_suicided]); a joined iterator
    cannot be started twice ([join_restart_stops_early]). *)

From stdpp Require Import sorting.
From S2P Require Import Prelude Words Uint256 Params Config Stack Memory Opcodes Analysis State Codec.
From S2P Require Import Storage SkipList SkipListFacts Iterators IteratorFacts SkipListTheorems StorageFacts.
From S2P Require Import Cleaning World.

(** [for has := iter.First(); has; has = iter.Next()], collecting the pairs. *)
Fixpoint collect {St I} `{StoreIterator St I} (n : nat) (st : St) (has : bool) (it : I) : outcome (elist * I) :=
  if has then
    match n with
    | O => NoFuel
    | S n =>
        let e := (itKey it, itValue it) in
        '(has, it) ← itNext st it;
        '(l, it) ← collect n st has it;
        Ret (e :: l, it)
    end
  else Ret ([], it).
Definition listing {St I} `{StoreIterator St I} (n : nat) (st : St) (it : I) : outcome (elist * I) :=
  '(has, it) ← itFirst st it; collect n st has it.
Lemma collect_ok {St I} `{IteratorLaws St I} (st : St) n : forall it l, at_ st it l -> (length l <= n)%nat ->
  exists it', collect n st (more l) it = Ret (l, it') /\ at_ st it' [].
Proof.
  induction n as [|n IH]; intros it l Ha Hn; destruct l as [|e l]; try (cbn in Hn; lia); cbn [collect more]; [by exists it..|].
  destruct (next_ok st it _ Ha) as (it1 & E & Ha1). cbn [tail] in E, Ha1. rewrite E. cbn [mbind outcome_bind].
  destruct (IH it1 l Ha1) as (it' & E' & Ha'); [cbn in Hn; lia|]. rewrite E'. cbn [mbind outcome_bind].
  exists it'. rewrite (at_cur _ _ _ Ha). done.
Qed.
Lemma visible_merge_elem lm lb k v : StronglySorted by_key lm -> StronglySorted by_key lb ->
  (k, v) ∈ visible (merge lm lb) <-> v <> [] /\ ((k, v) ∈ lm \/ ((k, v) ∈ lb /\ k ∉ lm.*1)).
Proof.
  intros Sm Sb. pose proof (sorted_keys_nodup _ Sm) as Nm. pose proof (sorted_keys_nodup _ Sb) as Nb.
  rewrite assoc_elem by (by apply sorted_keys_nodup, filter_sorted, merge_sorted). rewrite assoc_visible_merge by done.
  rewrite !(assoc_elem _ k v) by done. destruct (assoc k lm) as [w|] eqn:E.
  - assert (k ∈ lm.*1) as Hin by (apply list_elem_of_fmap; exists (k, w); split; [done|by apply assoc_elem]).
    destruct w as [|b w]; split.
    + done.
    + intros [Hv [[= <-]|[_ ?]]]; done.
    + intros [= <-]. split; [done|by left].
    + intros [Hv [[= <-]|[_ ?]]]; done.
  - assert (k ∉ lm.*1) as Hin.
    { intros ([k' w] & -> & Hw)%list_elem_of_fmap. apply assoc_elem in Hw; [|done]. cbn in E. by rewrite E in Hw. }
    destruct (assoc k lb) as [[|b w]|]; split; try done.
    + intros [Hv [?|[[= <-] _]]]; done.
    + intros [= <-]. split; [done|by right].
    + intros [Hv [?|[[= <-] _]]]; done.
    + intros [Hv [?|[? _]]]; done.
Qed.

(** An iterator over a list, to instantiate the ones of the store. *)
Record ListIter := mkListIter { li_all : elist; li_rest : elist }.
#[export] Instance list_iterator : StoreIterator () ListIter := {|
  itFirst _ it := Ret (more (li_all it), mkListIter (li_all it) (li_all it));
  itNext _ it := Ret (more (tail (li_rest it)), mkListIter (li_all it) (tail (li_rest it)));
  itKey it := (cur (li_rest it)).1;
  itValue it := (cur (li_rest it)).2;
  itError _ := None;
|}.
#[export] Instance list_laws : IteratorLaws () ListIter.
Proof.
  refine {| ready := fun _ it l => li_all it = l; at_ := fun _ it l => li_rest it = l |}.
  - intros [] it l <-. by eexists.
  - intros [] it l <-. by eexists.
  - intros [] it l <-. cbn. by destruct (cur (li_rest it)).
  - done.
Defined.
Definition new_list (l : elist) : ListIter := mkListIter l [].

(** C32. A joined iterator shows two sorted layers as one.  Whatever the two
    iterators are, as long as each enumerates a sorted list, looping over
    [First] and [Next] of their [JoinIter] ends, without running out of fuel, with
    a strictly sorted list holding exactly the pairs of the upper layer and those
    of the lower layer whose key the upper layer does not know, the deleted ones
    (empty value) left out. *)
Theorem join_iterates_layers {SM SB IM IB} `{IteratorLaws SM IM} `{IteratorLaws SB IB}
    (fuel : nat) (st : SM * SB) (m : IM) (b : IB) lm lb :
  ready st.1 m lm -> ready st.2 b lb -> StronglySorted by_key lm -> StronglySorted by_key lb ->
  (length lm + length lb + 2 < fuel)%nat ->
  exists l it', @listing _ _ (JoinIter_iterator fuel) fuel st (NewJoinIter m b) = Ret (l, it') /\
    StronglySorted by_key l /\
    forall k v, (k, v) ∈ l <-> v <> [] /\ ((k, v) ∈ lm \/ ((k, v) ∈ lb /\ k ∉ lm.*1)).
Proof.
  intros Rm Rb Sm Sb Hf. destruct (join_first fuel st m b lm lb Rm Rb Sm Sb Hf) as (it1 & E & Hat).
  exists (visible (merge lm lb)). unfold listing. cbn [itFirst JoinIter_iterator]. rewrite E. cbn [mbind outcome_bind].
  destruct (@collect_ok _ _ (JoinIter_iterator fuel) (join_laws fuel) st fuel it1 _ Hat) as (it' & E' & _).
  { pose proof (visible_merge_length lm lb). lia. }
  exists it'. rewrite E'. split_and!; [done|by apply filter_sorted, merge_sorted|]. intros k v. by apply visible_merge_elem.
Qed.
Lemma join_iterates_layers_witness :
  exists l it', @listing _ _ (JoinIter_iterator 10) 10 ((), ())
      (NewJoinIter (new_list [([1], [10]); ([2], []); ([5], [50])]) (new_list [([2], [20]); ([3], [30])])) = Ret (l, it') /\
    StronglySorted by_key l /\
    forall k v, (k, v) ∈ l <-> v <> [] /\ ((k, v) ∈ [([1], [10]); ([2], []); ([5], [50])] \/
      ((k, v) ∈ [([2], [20]); ([3], [30])] /\ k ∉ [([1], [10]); ([2], []); ([5], [50])].*1)).
Proof.
  apply (join_iterates_layers 10 ((), ())); [reflexivity|reflexivity| | |vm_compute; lia];
    repeat (constructor; try reflexivity).
Defined.

(** Starting a joined iterator again does not restart it: the end flags of
    the first pass survive [First], so a second loop over the two entries of the
    lower layer sees only the first of them. *)
Theorem join_restart_stops_early :
  exists it, @listing _ _ (JoinIter_iterator 10) 10 ((), ()) (NewJoinIter (new_list []) (new_list [([1], [10]); ([2], [20])]))
      = Ret ([([1], [10]); ([2], [20])], it) /\
    exists it', @listing _ _ (JoinIter_iterator 10) 10 ((), ()) it = Ret ([([1], [10])], it').
Proof. eexists. split; [vm_compute; reflexivity|]. eexists. vm_compute. reflexivity. Qed.

(** ** Destroyed contracts *)
(** C31. Committing a transaction destroys the contracts it suicided, and only
    them.  With a store that lists its pairs by prefix, [StateDB.Commit] returns
    without error, whatever the order in which Go visits the suicided accounts
    and although it deletes from the table it is iterating: every suicided
    account then reads as absent and each of its storage slots as deleted, every
    other key reads as before, the cache is flushed and the snapshots are
    dropped. *)
Theorem commit_destroys_suicided draws {SI} `{IteratorLaws () SI} (storeIter : bytes -> outcome SI)
    (BytesPrefix : bytes -> Range) (fuel m : nat) (order : list Address) (s : StorageDB SkipTable) :
  let tdb := skip_MemDB draws in
  let c := cacheDB s in
  prefix_range BytesPrefix -> keys_ok draws (memdb c) -> keys_ok draws (omemdb (backend c)) ->
  (forall a, a ∈ order <-> a ∈ Suicided s) -> listable storeIter (store_ (backend c)) m order ->
  (length (memEntries (memdb c)) + S (length order) * (length (memEntries (omemdb (backend c))) + m + 1) + 5 < fuel)%nat ->
  exists s', sdbCommit draws storeIter BytesPrefix fuel order s = Ret (None, s') /\
    (forall a, a ∈ Suicided s ->
       view (cacheDB s') (ST_ETH_ACCOUNT :: a) = Some [] /\
       forall k, view (cacheDB s') (ST_STORAGE :: a ++ k) = (fun _ => []) <$> view c (ST_STORAGE :: a ++ k)) /\
    (forall k, (forall a, a ∈ Suicided s -> k <> ST_ETH_ACCOUNT :: a /\ ~ (ST_STORAGE :: a) `prefix_of` k) ->
       view (cacheDB s') k = view c k) /\
    (forall k, memGet k (memdb (cacheDB s')) = None) /\ Suicided s' = ∅ /\ snapshots s' = [].
Proof.
  intros tdb c Hr Hk Ho Hord Hl Hf. pose proof (skip_MemDBLaws draws) as Laws.
  destruct (clean_all_ok draws storeIter BytesPrefix fuel m Hr order c Hk Ho Hl Hf) as (c' & E & Hb & Hv).
  unfold sdbCommit, CommitToCacheDB. fold c. rewrite E. cbn [mbind outcome_bind]. eexists. split; [reflexivity|].
  cbn [cacheDB set_cache set_snapshots set_suicided Suicided snapshots]. fold tdb.
  assert (forall k, view (cacheCommit c') k = destroyed order (view c) k /\ memGet k (memdb (cacheCommit c')) = None) as Hc.
  { intros k. destruct (cacheCommit_view c' k) as [-> ->]. split; [apply Hv|done]. }
  split_and!; [|..|done|done].
  - intros a Ha. apply Hord in Ha. split; [|intros k]; rewrite (proj1 (Hc _)); unfold destroyed.
    + rewrite decide_True; [done|]. apply list.Exists_exists. exists a. by split.
    + rewrite decide_False by (intros (a' & _ & E')%list.Exists_exists; done).
      rewrite decide_True; [done|]. apply list.Exists_exists. exists a. split; [done|]. by exists k.
  - intros k Hn. rewrite (proj1 (Hc _)). unfold destroyed.
    rewrite !decide_False; [done|..]; intros (a & Ha & E')%list.Exists_exists; apply Hord, Hn in Ha; tauto.
  - intros k. apply Hc.
Qed.

(** An instance: [util.BytesPrefix] of goleveldb, which increments the last byte
    below 255; and a store that holds one slot. *)
Fixpoint prefix_limit (pre : bytes) : option bytes :=
  match pre with
  | [] => None
  | b :: r => match prefix_limit r with Some l => Some (b :: l) | None => if b <? 255 then Some [b + 1] else None end
  end.
Definition bytes_prefix (pre : bytes) : Range := mkRange (Some pre) (prefix_limit pre).
Lemma bytes_prefix_range : prefix_range bytes_prefix.
Proof.
  intros pre k Hp. revert k. induction Hp as [|b r Hb Hr IH]; intros k Hk.
  - unfold in_range. cbn. split; [|split; [|done]]; [intros _; apply prefix_nil|by destruct k].
  - destruct Hk as [|c k Hc Hk]; [split; [intros [Hs _]; by destruct Hs|by intros ?%prefix_nil_not]|].
    specialize (IH k Hk). unfold in_range, lt_bytes in *. cbn in *. unfold is_byte in *.
    assert (b :: r `prefix_of` c :: k <-> c = b /\ r `prefix_of` k) as ->.
    { split; [intros P; split; [symmetry; by apply prefix_cons_inv_1 in P|by apply prefix_cons_inv_2 in P]|intros [-> P]; by apply prefix_cons]. }
    destruct (prefix_limit r) as [l|]; [|destruct (Z.ltb_spec b 255)]; cbn;
      destruct (Z.compare_spec c b); try destruct (Z.compare_spec c (b + 1)); subst; try lia; cbn; try tauto.
    all: split; [intros [? ?]|intros [? ?]]; try done; try lia; try (destruct k; done); tauto.
Qed.
Definition slot0 : bytes := ST_STORAGE :: alice ++ hash0 [].
Definition store1 (k : bytes) : store_result := if decide (k = slot0) then Found [7] else StoreNotFound.
Definition storeIter1 (pre : bytes) : outcome ListIter :=
  Ret (new_list (if decide (pre `prefix_of` slot0) then [(slot0, [7])] else [])).
Definition draws0 (k v : bytes) (i : nat) : Z := 1.
Definition doomed : StorageDB SkipTable :=
  let t := @memNew _ (skip_MemDB draws0) in
  mkStorage (mkCache t (mkOverlay store1 t None)) {[alice]} [] zero_hash zero_hash 0 [].
Lemma doomed_keys : keys_ok draws0 (memdb (cacheDB doomed)).
Proof.
  intros k Hk. exfalso. apply Hk. pose proof (skip_MemDBLaws draws0) as Laws. exact (memGet_new k).
Qed.
Lemma doomed_listable : listable storeIter1 (store_ (backend (cacheDB doomed))) 1 [alice].
Proof.
  constructor; [|constructor]. split; [by vm_compute; repeat constructor|].
  exists (new_list [(slot0, [7])]), [(slot0, [7])]. split; [|done]. split.
  - unfold storeIter1. rewrite decide_True; [done|]. by exists (hash0 []).
  - reflexivity.
  - repeat constructor.
  - intros k v. rewrite list_elem_of_singleton. unfold doomed, store1. cbn [cacheDB backend store_]. split.
    + intros [= -> ->]. split; [by exists (hash0 [])|by rewrite decide_True].
    + intros [_ Hk]. case_decide; [|done]. by injection Hk as <-; subst.
  - intros k v. rewrite list_elem_of_singleton. intros [= -> _]. vm_compute. repeat constructor; done.
Qed.
Lemma commit_destroys_suicided_witness :
  exists s', sdbCommit draws0 storeIter1 bytes_prefix 100 [alice] doomed = Ret (None, s') /\
    Suicided s' = ∅ /\ snapshots s' = [] /\
    @view _ (skip_MemDB draws0) (cacheDB s') slot0 = Some [] /\
    @view _ (skip_MemDB draws0) (cacheDB doomed) slot0 = Some [7].
Proof.
  destruct (commit_destroys_suicided draws0 storeIter1 bytes_prefix 100 1 [alice] doomed) as (s' & E & Hd & _ & _ & Hs & Hn).
  - exact bytes_prefix_range.
  - exact doomed_keys.
  - exact doomed_keys.
  - intros a. unfold doomed. cbn [Suicided]. set_solver.
  - exact doomed_listable.
  - vm_compute. lia.
  - exists s'. split; [exact E|]. split; [exact Hs|]. split; [exact Hn|]. split; [|vm_compute; reflexivity].
    destruct (Hd alice) as [_ Hk]; [unfold doomed; cbn [Suicided]; set_solver|]. unfold slot0. rewrite (Hk (hash0 [])). vm_compute. reflexivity.
Defined.
