(* ===== verification/Blake2b.v ===== *)
(** * BLAKE2b

    src/crypto/blake2b: the compression function of blake2b_generic.go, the
    one-shot and incremental hashes of blake2b.go, and the extendable output of
    blake2x.go.  The assembly versions of [f] are not modelled; the portable one
    is.  A fixed array is a list; a digest is a record. *)

From S2P Require Import Prelude Words.

Definition BlockSize : Z := 128.
Definition Size : Z := 64.
Definition Size384 : Z := 48.
Definition Size256 : Z := 32.
Definition iv : list Z :=
  [0x6a09e667f3bcc908; 0xbb67ae8584caa73b; 0x3c6ef372fe94f82b; 0xa54ff53a5f1d36f1;
   0x510e527fade682d1; 0x9b05688c2b3e6c1f; 0x1f83d9abfb41bd6b; 0x5be0cd19137e2179].
Definition precomputed : list (list nat) :=
  [[0; 2; 4; 6; 1; 3; 5; 7; 8; 10; 12; 14; 9; 11; 13; 15];
   [14; 4; 9; 13; 10; 8; 15; 6; 1; 0; 11; 5; 12; 2; 7; 3];
   [11; 12; 5; 15; 8; 0; 2; 13; 10; 3; 7; 9; 14; 6; 1; 4];
   [7; 3; 13; 11; 9; 1; 12; 14; 2; 5; 4; 15; 6; 10; 0; 8];
   [9; 5; 2; 10; 0; 7; 4; 15; 14; 11; 6; 3; 1; 12; 8; 13];
   [2; 6; 0; 8; 12; 10; 11; 3; 4; 7; 15; 1; 13; 5; 14; 9];
   [12; 1; 14; 4; 5; 15; 13; 10; 0; 6; 9; 8; 7; 3; 2; 11];
   [13; 7; 12; 3; 11; 14; 1; 9; 5; 15; 8; 2; 0; 4; 6; 10];
   [6; 14; 11; 0; 15; 9; 3; 8; 12; 13; 1; 10; 2; 7; 4; 5];
   [10; 8; 7; 1; 2; 4; 6; 5; 15; 9; 3; 13; 11; 14; 12; 0]]%nat.

(** [bits.RotateLeft64] *)
Definition RotateLeft64 (x k : Z) : Z :=
  let s := Z.land (u64 k) 63 in Z.lor (shl64 x s) (shr64 x (64 - s)).

(** ** The compression function *)
(** Seven statements of the round: [va += m[..]; va += vb; vd ^= va;
    vd = RotateLeft64(vd, -r1); vc += vd; vb ^= vc; vb = RotateLeft64(vb, -r2)]. *)
Definition mix (va vb vc vd x r1 r2 : Z) : Z * Z * Z * Z :=
  let va := add64 va x in
  let va := add64 va vb in
  let vd := Z.lxor vd va in
  let vd := RotateLeft64 vd (- r1) in
  let vc := add64 vc vd in
  let vb := Z.lxor vb vc in
  let vb := RotateLeft64 vb (- r2) in
  (va, vb, vc, vd).
Record vec := mkVec { v0_ : Z; v1_ : Z; v2_ : Z; v3_ : Z; v4_ : Z; v5_ : Z; v6_ : Z; v7_ : Z; v8_ : Z; v9_ : Z; v10_ : Z; v11_ : Z; v12_ : Z; v13_ : Z; v14_ : Z; v15_ : Z }.
Definition round (m : list Z) (s : list nat) (v : vec) : vec :=
  let 'mkVec v0 v1 v2 v3 v4 v5 v6 v7 v8 v9 v10 v11 v12 v13 v14 v15 := v in
  let '(v0, v4, v8, v12) := mix v0 v4 v8 v12 (m !!! (s !!! 0%nat)) 32 24 in
  let '(v1, v5, v9, v13) := mix v1 v5 v9 v13 (m !!! (s !!! 1%nat)) 32 24 in
  let '(v2, v6, v10, v14) := mix v2 v6 v10 v14 (m !!! (s !!! 2%nat)) 32 24 in
  let '(v3, v7, v11, v15) := mix v3 v7 v11 v15 (m !!! (s !!! 3%nat)) 32 24 in
  let '(v0, v4, v8, v12) := mix v0 v4 v8 v12 (m !!! (s !!! 4%nat)) 16 63 in
  let '(v1, v5, v9, v13) := mix v1 v5 v9 v13 (m !!! (s !!! 5%nat)) 16 63 in
  let '(v2, v6, v10, v14) := mix v2 v6 v10 v14 (m !!! (s !!! 6%nat)) 16 63 in
  let '(v3, v7, v11, v15) := mix v3 v7 v11 v15 (m !!! (s !!! 7%nat)) 16 63 in
  let '(v0, v5, v10, v15) := mix v0 v5 v10 v15 (m !!! (s !!! 8%nat)) 32 24 in
  let '(v1, v6, v11, v12) := mix v1 v6 v11 v12 (m !!! (s !!! 9%nat)) 32 24 in
  let '(v2, v7, v8, v13) := mix v2 v7 v8 v13 (m !!! (s !!! 10%nat)) 32 24 in
  let '(v3, v4, v9, v14) := mix v3 v4 v9 v14 (m !!! (s !!! 11%nat)) 32 24 in
  let '(v0, v5, v10, v15) := mix v0 v5 v10 v15 (m !!! (s !!! 12%nat)) 16 63 in
  let '(v1, v6, v11, v12) := mix v1 v6 v11 v12 (m !!! (s !!! 13%nat)) 16 63 in
  let '(v2, v7, v8, v13) := mix v2 v7 v8 v13 (m !!! (s !!! 14%nat)) 16 63 in
  let '(v3, v4, v9, v14) := mix v3 v4 v9 v14 (m !!! (s !!! 15%nat)) 16 63 in
  mkVec v0 v1 v2 v3 v4 v5 v6 v7 v8 v9 v10 v11 v12 v13 v14 v15.
(** [for i := 0; i < int(rounds); i++], [n] rounds from number [i] on. *)
Fixpoint rounds_loop (n : nat) (i : nat) (m : list Z) (v : vec) : vec :=
  match n with
  | O => v
  | S n => rounds_loop n (i + 1) m (round m (precomputed !!! (i mod 10)%nat) v)
  end.
Definition fGeneric (h m : list Z) (c0 c1 flag rounds : Z) : list Z :=
  let v := mkVec (h !!! 0%nat) (h !!! 1%nat) (h !!! 2%nat) (h !!! 3%nat) (h !!! 4%nat) (h !!! 5%nat) (h !!! 6%nat) (h !!! 7%nat)
             (iv !!! 0%nat) (iv !!! 1%nat) (iv !!! 2%nat) (iv !!! 3%nat) (Z.lxor (iv !!! 4%nat) c0) (Z.lxor (iv !!! 5%nat) c1)
             (Z.lxor (iv !!! 6%nat) flag) (iv !!! 7%nat) in
  let 'mkVec v0 v1 v2 v3 v4 v5 v6 v7 v8 v9 v10 v11 v12 v13 v14 v15 := rounds_loop (Z.to_nat rounds) 0 m v in
  [Z.lxor (h !!! 0%nat) (Z.lxor v0 v8);
   Z.lxor (h !!! 1%nat) (Z.lxor v1 v9);
   Z.lxor (h !!! 2%nat) (Z.lxor v2 v10);
   Z.lxor (h !!! 3%nat) (Z.lxor v3 v11);
   Z.lxor (h !!! 4%nat) (Z.lxor v4 v12);
   Z.lxor (h !!! 5%nat) (Z.lxor v5 v13);
   Z.lxor (h !!! 6%nat) (Z.lxor v6 v14);
   Z.lxor (h !!! 7%nat) (Z.lxor v7 v15)].
Definition f := fGeneric.
Definition F (h m c : list Z) (final : bool) (rounds : Z) : list Z :=
  let flag := if final then 0xFFFFFFFFFFFFFFFF else 0 in
  f h m (c !!! 0%nat) (c !!! 1%nat) flag rounds.

(** ** Hashing blocks *)
(** [m[j] = LittleEndian.Uint64(blocks[i:]); i += 8] for the 16 words. *)
Fixpoint words (n : nat) (blocks : bytes) : list Z :=
  match n with O => [] | S n => le_val (take 8 blocks) :: words n (drop 8 blocks) end.
(** One turn of the loop per block; [blocks] is a whole number of them. *)
Fixpoint hashBlocks_loop (n : nat) (h : list Z) (c0 c1 flag : Z) (blocks : bytes) : list Z * Z * Z :=
  match n with
  | O => (h, c0, c1)
  | S n =>
      let c0 := add64 c0 BlockSize in
      let c1 := if c0 <? BlockSize then add64 c1 1 else c1 in
      let m := words 16 blocks in
      hashBlocks_loop n (f h m c0 c1 flag 12) c0 c1 flag (drop 128 blocks)
  end.
Definition hashBlocks (h : list Z) (c : Z * Z) (flag : Z) (blocks : bytes) : list Z * (Z * Z) :=
  let '(h, c0, c1) := hashBlocks_loop (length blocks / 128) h c.1 c.2 flag blocks in (h, (c0, c1)).
(** [copy(dst[at:], src)] into an array *)
Definition copy_at (dst : bytes) (at_ : nat) (src : bytes) : bytes :=
  take at_ dst ++ take (length dst - at_) src ++ drop (at_ + length src) dst.
Definition zeros (n : nat) : bytes := replicate n 0.
Definition put_words (h : list Z) : bytes := mjoin (le_bytes 8 <$> h).
(** [length &^ (BlockSize - 1)], less one block if that is everything. *)
Definition full_blocks (length : Z) : Z :=
  let n := Z.ldiff length (BlockSize - 1) in if length =? n then n - BlockSize else n.
(** [if length > BlockSize { hashBlocks(h, c, 0, data[:n]); data = data[n:] }] *)
Definition hash_full (h : list Z) (c : Z * Z) (data : bytes) : list Z * (Z * Z) * bytes :=
  if BlockSize <? len data then
    let n := Z.to_nat (full_blocks (len data)) in
    let '(h, c) := hashBlocks h c 0 (take n data) in (h, c, drop n data)
  else (h, c, data).
(** The last block: [c -= remaining], then one more block with the flag set. *)
Definition finalBlock (h : list Z) (c : Z * Z) (data : bytes) : list Z :=
  let block := copy_at (zeros 128) 0 data in
  let remaining := BlockSize - len data in
  let c1 := if c.1 <? remaining then sub64 c.2 1 else c.2 in
  let c0 := sub64 c.1 remaining in
  (hashBlocks h (c0, c1) 0xFFFFFFFFFFFFFFFF block).1.

Definition checkSum (hashSize : Z) (data : bytes) : bytes :=
  let h := <[0%nat := Z.lxor (iv !!! 0%nat) (Z.lor (Z.lor hashSize (Z.shiftl 1 16)) (Z.shiftl 1 24))]> iv in
  let c := (0, 0) in
  let '(h, c, data) := hash_full h c data in
  let h := finalBlock h c data in
  copy_at (zeros 64) 0 (put_words (take (Z.to_nat ((hashSize + 7) / 8)) h)).
Definition Sum512 (data : bytes) : bytes := checkSum Size data.
Definition Sum384 (data : bytes) : bytes := take 48 (checkSum Size384 data).
Definition Sum256 (data : bytes) : bytes := take 32 (checkSum Size256 data).

(** ** digest *)
Record digest := mkDigest {
  dh : list Z;
  dc : Z * Z;
  dsize : Z;
  dblock : bytes;
  doffset : Z;
  dkey : bytes;
  keyLen : Z;
}.
Inductive blake_error := errKeySize | errHashSize | errMarshalMAC | errIdentifier | errStateSize | errXofLength.

Definition DReset (d : digest) : digest :=
  let h := <[0%nat := Z.lxor (iv !!! 0%nat)
               (Z.lor (Z.lor (Z.lor (dsize d) (Z.shiftl (keyLen d) 8)) (Z.shiftl 1 16)) (Z.shiftl 1 24))]> iv in
  if 0 <? keyLen d then mkDigest h (0, 0) (dsize d) (dkey d) BlockSize (dkey d) (keyLen d)
  else mkDigest h (0, 0) (dsize d) (dblock d) 0 (dkey d) (keyLen d).
Definition newDigest (hashSize : Z) (key : bytes) : digest + blake_error :=
  if (hashSize <? 1) || (Size <? hashSize) then inr errHashSize
  else if Size <? len key then inr errKeySize
  else inl (DReset (mkDigest (replicate 8 0) (0, 0) hashSize (zeros 128) 0 (copy_at (zeros 128) 0 key) (len key))).
Definition New512 (key : bytes) := newDigest Size key.
Definition New384 (key : bytes) := newDigest Size384 key.
Definition New256 (key : bytes) := newDigest Size256 key.
Definition New (size : Z) (key : bytes) := newDigest size key.

Definition set_state (h : list Z) (c : Z * Z) (block : bytes) (offset : Z) (d : digest) : digest :=
  mkDigest h c (dsize d) block offset (dkey d) (keyLen d).
(** The part of [Write] behind the first [if]: whole blocks, then the rest. *)
Definition write_rest (p : bytes) (d : digest) : digest :=
  let '(h, c, p) := hash_full (dh d) (dc d) p in
  if 0 <? len p then set_state h c (copy_at (dblock d) 0 p) (doffset d + Z.min 128 (len p)) d
  else set_state h c (dblock d) (doffset d) d.
Definition DWrite (p : bytes) (d : digest) : digest :=
  if 0 <? doffset d then
    let remaining := BlockSize - doffset d in
    if len p <=? remaining then
      set_state (dh d) (dc d) (copy_at (dblock d) (Z.to_nat (doffset d)) p)
        (doffset d + Z.min (128 - doffset d) (len p)) d
    else
      let block := copy_at (dblock d) (Z.to_nat (doffset d)) (take (Z.to_nat remaining) p) in
      let '(h, c) := hashBlocks (dh d) (dc d) 0 block in
      write_rest (drop (Z.to_nat remaining) p) (set_state h c block 0 d)
  else write_rest p d.
Definition finalize (d : digest) : bytes :=
  put_words (finalBlock (dh d) (dc d) (take (Z.to_nat (doffset d)) (dblock d))).
Definition DSum (sum : bytes) (d : digest) : bytes := sum ++ take (Z.to_nat (dsize d)) (finalize d).

(** ** Saving and restoring a digest *)
Definition magic : bytes := [98; 50; 98].
Definition marshaledSize : Z := 3 + 8 * 8 + 2 * 8 + 1 + BlockSize + 1.
Definition appendUint64 (b : bytes) (x : Z) : bytes := b ++ be_bytes 8 x.
Definition consumeUint64 (b : bytes) : bytes * Z := (drop 8 b, be_val (take 8 b)).
Definition MarshalBinary (d : digest) : bytes + blake_error :=
  if negb (keyLen d =? 0) then inr errMarshalMAC
  else
    let b := foldl appendUint64 magic (dh d) in
    let b := appendUint64 b (dc d).1 in
    let b := appendUint64 b (dc d).2 in
    let b := b ++ [dsize d mod 256] in
    let b := b ++ dblock d in
    inl (b ++ [doffset d mod 256]).
Fixpoint consume_words (n : nat) (b : bytes) : bytes * list Z :=
  match n with
  | O => (b, [])
  | S n => let '(b, x) := consumeUint64 b in let '(b, l) := consume_words n b in (b, x :: l)
  end.
Definition UnmarshalBinary (b : bytes) (d : digest) : option blake_error * digest :=
  if (len b <? 3) || negb (bool_decide (take 3 b = magic)) then (Some errIdentifier, d)
  else if negb (len b =? marshaledSize) then (Some errStateSize, d)
  else
    let b := drop 3 b in
    let '(b, h) := consume_words 8 b in
    let '(b, c0) := consumeUint64 b in
    let '(b, c1) := consumeUint64 b in
    let size := b !!! 0%nat in
    let b := drop 1 b in
    let block := copy_at (dblock d) 0 (take 128 b) in
    let b := drop 128 b in
    (None, mkDigest h (c0, c1) size block (b !!! 0%nat) (dkey d) (keyLen d)).
