(* ===== verification/Blake2bFacts.v ===== *)
(** * BLAKE2b against its specification

    The functions of RFC 7693, written on lists and on unbounded integers, and
    that the unrolled Go code computes them: the compression function
    ([fGeneric_rfc]), the one-shot hash ([checkSum_spec]) and the incremental one,
    however the data is split ([digest_spec]). *)

From S2P Require Import Prelude Words Blake2b.

(** ** RFC 7693 *)
Definition rotr (x n : Z) : Z := Z.lor (Z.shiftr x n) (Z.shiftl x (64 - n) mod W).
(** [v[i] := g(v)] *)
Definition upd (i : nat) (g : list Z -> Z) (v : list Z) : list Z := <[i := g v]> v.
Definition G (a b c d : nat) (x y : Z) (v : list Z) : list Z :=
  let v := upd a (fun v => (v !!! a + v !!! b + x) mod W) v in
  let v := upd d (fun v => rotr (Z.lxor (v !!! d) (v !!! a)) 32) v in
  let v := upd c (fun v => (v !!! c + v !!! d) mod W) v in
  let v := upd b (fun v => rotr (Z.lxor (v !!! b) (v !!! c)) 24) v in
  let v := upd a (fun v => (v !!! a + v !!! b + y) mod W) v in
  let v := upd d (fun v => rotr (Z.lxor (v !!! d) (v !!! a)) 16) v in
  let v := upd c (fun v => (v !!! c + v !!! d) mod W) v in
  upd b (fun v => rotr (Z.lxor (v !!! b) (v !!! c)) 63) v.
Lemma length_upd i g v : length (upd i g v) = length v.
Proof. apply length_insert. Qed.
Definition SIGMA : list (list nat) :=
  [[0; 1; 2; 3; 4; 5; 6; 7; 8; 9; 10; 11; 12; 13; 14; 15];
   [14; 10; 4; 8; 9; 15; 13; 6; 1; 12; 0; 2; 11; 7; 5; 3];
   [11; 8; 12; 0; 5; 2; 15; 13; 10; 14; 3; 6; 7; 1; 9; 4];
   [7; 9; 3; 1; 13; 12; 11; 14; 2; 6; 5; 10; 4; 0; 15; 8];
   [9; 0; 5; 7; 2; 4; 10; 15; 14; 1; 11; 12; 6; 8; 3; 13];
   [2; 12; 6; 10; 0; 11; 8; 3; 4; 13; 7; 5; 15; 14; 1; 9];
   [12; 5; 1; 15; 14; 13; 4; 10; 0; 7; 6; 3; 9; 2; 8; 11];
   [13; 11; 7; 14; 12; 1; 3; 9; 5; 0; 15; 4; 8; 6; 2; 10];
   [6; 15; 14; 9; 11; 3; 0; 8; 12; 2; 13; 7; 1; 4; 10; 5];
   [10; 2; 8; 4; 7; 6; 1; 5; 15; 11; 9; 14; 3; 12; 13; 0]]%nat.
Definition rfc_round (m : list Z) (s : list nat) (v : list Z) : list Z :=
  let w i := m !!! (s !!! i) in
  let v := G 0 4 8 12 (w 0%nat) (w 1%nat) v in
  let v := G 1 5 9 13 (w 2%nat) (w 3%nat) v in
  let v := G 2 6 10 14 (w 4%nat) (w 5%nat) v in
  let v := G 3 7 11 15 (w 6%nat) (w 7%nat) v in
  let v := G 0 5 10 15 (w 8%nat) (w 9%nat) v in
  let v := G 1 6 11 12 (w 10%nat) (w 11%nat) v in
  let v := G 2 7 8 13 (w 12%nat) (w 13%nat) v in
  G 3 4 9 14 (w 14%nat) (w 15%nat) v.
(** The initial vector: the first 64 bits of the fractional parts of the square
    roots of the first eight primes. *)
Definition rfc_iv : list Z := (fun p => Z.sqrt (p * 2 ^ 128) mod W) <$> [2; 3; 5; 7; 11; 13; 17; 19].
Lemma rfc_iv_ok : rfc_iv = iv.
Proof. vm_compute. reflexivity. Qed.
(** [t] is the byte counter, [last] the final block flag. *)
Definition rfc_F (h m : list Z) (t : Z) (last : bool) (rounds : nat) : list Z :=
  let v := h ++ rfc_iv in
  let v := <[12%nat := Z.lxor (v !!! 12%nat) (t mod W)]> v in
  let v := <[13%nat := Z.lxor (v !!! 13%nat) (t / W mod W)]> v in
  let v := if last then <[14%nat := Z.lxor (v !!! 14%nat) (W - 1)]> v else v in
  let v := foldl (fun v i => rfc_round m (SIGMA !!! (i mod 10)%nat) v) v (seq 0 rounds) in
  zip_with Z.lxor h (zip_with Z.lxor (take 8 v) (drop 8 v)).

(** ** The compression function *)
Definition elems (v : vec) : list Z :=
  [v0_ v; v1_ v; v2_ v; v3_ v; v4_ v; v5_ v; v6_ v; v7_ v; v8_ v; v9_ v; v10_ v; v11_ v; v12_ v; v13_ v; v14_ v; v15_ v].
Lemma rotate_rotr x r : 0 < r < 64 -> RotateLeft64 x (- r) = rotr x r.
Proof.
  intros Hr. unfold RotateLeft64, rotr, shl64, shr64, u64. change 63 with (Z.ones 6). rewrite Z.land_ones by lia. change (2 ^ 6) with 64.
  assert ((- r) mod W mod 64 = 64 - r) as ->.
  { rewrite Z.mod_mod_divide by (exists (W / 64); reflexivity).
    symmetry. apply (Z.mod_unique _ _ (-1)); lia. }
  replace (64 - (64 - r)) with r by lia. apply Z.lor_comm.
Qed.
Lemma mix_rfc a b c d x r1 r2 : 0 < r1 < 64 -> 0 < r2 < 64 -> mix a b c d x r1 r2 =
  (let a := (a + b + x) mod W in
   let d := rotr (Z.lxor d a) r1 in
   let c := (c + d) mod W in
   (a, rotr (Z.lxor b c) r2, c, d)).
Proof.
  intros H1 H2. unfold mix. cbv zeta. rewrite !rotate_rotr by done. unfold add64, u64.
  rewrite Zplus_mod_idemp_l. by replace (a + x + b) with (a + b + x) by lia.
Qed.
(** [G] is two of the groups [mix] of statements. *)
Lemma G_mix a b c d x y v : NoDup [a; b; c; d] -> Forall (fun i => i < length v)%nat [a; b; c; d] ->
  G a b c d x y v =
  (let '(a1, b1, c1, d1) := mix (v !!! a) (v !!! b) (v !!! c) (v !!! d) x 32 24 in
   let '(a2, b2, c2, d2) := mix a1 b1 c1 d1 y 16 63 in
   <[b := b2]> (<[c := c2]> (<[d := d2]> (<[a := a2]> v)))).
Proof.
  intros N F. rewrite mix_rfc by lia. cbv beta iota zeta. rewrite mix_rfc by lia. unfold G, upd. cbv beta iota zeta.
  repeat match goal with H : NoDup (_ :: _) |- _ => apply list.NoDup_cons in H as [? ?] end.
  repeat match goal with H : Forall _ (_ :: _) |- _ => apply list.Forall_cons in H as [? ?] end.
  assert (a <> b /\ a <> c /\ a <> d /\ b <> c /\ b <> d /\ c <> d) as (?&?&?&?&?&?) by set_solver.
  repeat first [rewrite list_lookup_total_insert_eq by (rewrite ?length_insert; done)|rewrite list_lookup_total_insert_ne by congruence].
  apply list_eq. intros i.
  destruct (decide (i = b)) as [->|]; [rewrite !list_lookup_insert_eq by (rewrite ?length_insert; done); done|].
  rewrite !(list_lookup_insert_ne _ b i) by congruence.
  destruct (decide (i = c)) as [->|]; [rewrite !list_lookup_insert_eq by (rewrite ?length_insert; done); done|].
  rewrite !(list_lookup_insert_ne _ c i) by congruence.
  destruct (decide (i = d)) as [->|]; [rewrite !list_lookup_insert_eq by (rewrite ?length_insert; done); done|].
  rewrite !(list_lookup_insert_ne _ d i) by congruence.
  destruct (decide (i = a)) as [->|]; [rewrite !list_lookup_insert_eq by (rewrite ?length_insert; done); done|].
  by rewrite !list_lookup_insert_ne by congruence.
Qed.
(** The table of the code is SIGMA in the order of its statements. *)
Definition code_order (s : list nat) : list nat :=
  (fun i => s !!! i) <$> [0; 2; 4; 6; 1; 3; 5; 7; 8; 10; 12; 14; 9; 11; 13; 15]%nat.
Lemma precomputed_sigma : precomputed = code_order <$> SIGMA.
Proof. reflexivity. Qed.
(** One [G] on explicit elements. *)
Ltac G_step a b c d :=
  rewrite (G_mix a b c d) by (apply (bool_decide_unpack _); reflexivity);
  cbn [lookup_total list_lookup_total];
  do 2 match goal with |- context [mix ?a ?b ?c ?d ?x ?r1 ?r2] =>
    match goal with |- _ = ?rhs => match rhs with context [mix a b c d x r1 r2] =>
      let a' := fresh "a" in let b' := fresh "b" in let c' := fresh "c" in let d' := fresh "d" in
      destruct (mix a b c d x r1 r2) as [[[a' b'] c'] d'] end end end;
  cbn [insert list_insert].
Lemma round_rfc m s v : elems (round m (code_order s) v) = rfc_round m s (elems v).
Proof.
  destruct v as [x0 x1 x2 x3 x4 x5 x6 x7 x8 x9 x10 x11 x12 x13 x14 x15].
  change (elems (mkVec x0 x1 x2 x3 x4 x5 x6 x7 x8 x9 x10 x11 x12 x13 x14 x15))
    with [x0; x1; x2; x3; x4; x5; x6; x7; x8; x9; x10; x11; x12; x13; x14; x15].
  unfold round, rfc_round. cbv beta iota zeta. unfold code_order. cbn [fmap list_fmap lookup_total list_lookup_total].
  G_step 0%nat 4%nat 8%nat 12%nat.
  G_step 1%nat 5%nat 9%nat 13%nat.
  G_step 2%nat 6%nat 10%nat 14%nat.
  G_step 3%nat 7%nat 11%nat 15%nat.
  G_step 0%nat 5%nat 10%nat 15%nat.
  G_step 1%nat 6%nat 11%nat 12%nat.
  G_step 2%nat 7%nat 8%nat 13%nat.
  G_step 3%nat 4%nat 9%nat 14%nat.
  reflexivity.
Qed.
Lemma sigma_row i : precomputed !!! (i mod 10)%nat = code_order (SIGMA !!! (i mod 10)%nat).
Proof.
  rewrite precomputed_sigma. apply list_lookup_total_fmap. change (length SIGMA) with 10%nat. apply Nat.mod_upper_bound. lia.
Qed.
Lemma rounds_rfc n : forall i m v,
  elems (rounds_loop n i m v) = foldl (fun v i => rfc_round m (SIGMA !!! (i mod 10)%nat) v) (elems v) (seq i n).
Proof.
  induction n as [|n IH]; intros i m v; [done|]. cbn [rounds_loop seq foldl]. rewrite IH, sigma_row, round_rfc.
  by rewrite Nat.add_1_r.
Qed.
(** The two counter words. *)
Definition ctr (t : Z) : Z * Z := (t mod W, t / W mod W).
Definition flag_of (last : bool) : Z := if last then W - 1 else 0.
Lemma fGeneric_rfc h m t last rounds : length h = 8%nat ->
  fGeneric h m (ctr t).1 (ctr t).2 (flag_of last) rounds = rfc_F h m t last (Z.to_nat rounds).
Proof.
  intros Hh. do 8 (destruct h as [|? h]; [done|]). destruct h; [|done]. unfold fGeneric, rfc_F. rewrite rfc_iv_ok. cbn [ctr fst snd].
  set (n := Z.to_nat rounds). match goal with |- context [rounds_loop n 0 m ?v] => set (v0 := v) end.
  match goal with |- context [foldl _ ?l (seq 0 n)] => replace l with (elems v0) end.
  2: { unfold v0, flag_of. destruct last; [reflexivity|]. rewrite Z.lxor_0_r. reflexivity. }
  rewrite <- rounds_rfc. by destruct (rounds_loop n 0 m v0).
Qed.
Lemma F_rfc h m t last rounds : length h = 8%nat ->
  F h m [(ctr t).1; (ctr t).2] last rounds = rfc_F h m t last (Z.to_nat rounds).
Proof. intros Hh. rewrite <- fGeneric_rfc by done. unfold F, f, flag_of. by destruct last. Qed.
Lemma G_length a b c d x y v : length (G a b c d x y v) = length v.
Proof. unfold G. cbv zeta. by rewrite !length_upd. Qed.
Lemma rounds_length m s v : length (foldl (fun v i => rfc_round m (SIGMA !!! (i mod 10)%nat) v) v s) = length v.
Proof.
  revert v. induction s as [|i s IH]; intros v; [done|]. cbn. rewrite IH. unfold rfc_round. cbv zeta. by rewrite !G_length.
Qed.
Lemma rfc_F_length h m t last rounds : length h = 8%nat -> length (rfc_F h m t last rounds) = 8%nat.
Proof.
  intros Hh. unfold rfc_F. rewrite rfc_iv_ok, !length_zip_with, length_take, length_drop, rounds_length.
  destruct last; rewrite ?length_insert, length_app, Hh; reflexivity.
Qed.

(** ** Blocks *)
Definition block_words (b : bytes) : list Z := (fun i => le_val (take 8 (drop (8 * i) b))) <$> seq 0 16.
Fixpoint absorb (n : nat) (t : Z) (h : list Z) (data : bytes) : list Z :=
  match n with O => h | S n => absorb n (t + 128) (rfc_F h (block_words data) (t + 128) false 12) (drop 128 data) end.
Definition pad (n : nat) (b : bytes) : bytes := b ++ zeros (n - length b).
(** The whole of [data], the key block included, from the initial vector. *)
Definition rfc_digest (h : list Z) (data : bytes) : list Z :=
  let dd := Nat.max 1 ((length data + 127) / 128) in
  let padded := pad (128 * dd) data in
  rfc_F (absorb (dd - 1) 0 h padded) (block_words (drop (128 * (dd - 1)) padded)) (len data) true 12.
Definition rfc_init (nn kk : Z) : list Z :=
  <[0%nat := Z.lxor (Z.lxor (Z.lxor (rfc_iv !!! 0%nat) 0x01010000) (Z.shiftl kk 8)) nn]> rfc_iv.
Definition key_block (key : bytes) : bytes := if decide (key = []) then [] else pad 128 key.
Definition rfc_blake2b (nn : Z) (key msg : bytes) : bytes :=
  take (Z.to_nat nn) (put_words (rfc_digest (rfc_init nn (len key)) (key_block key ++ msg))).

Lemma words_spec n : forall b, words n b = (fun i => le_val (take 8 (drop (8 * i) b))) <$> seq 0 n.
Proof.
  induction n as [|n IH]; intros b; [done|]. cbn [words seq fmap list_fmap]. f_equal.
  rewrite IH, <- fmap_S_seq, <- list_fmap_compose. apply list_fmap_ext. intros i x _. cbn [compose]. rewrite drop_drop.
  do 3 f_equal. lia.
Qed.
Lemma ctr_next t : (add64 (ctr t).1 BlockSize,
  if add64 (ctr t).1 BlockSize <? BlockSize then add64 (ctr t).2 1 else (ctr t).2) = ctr (t + 128).
Proof.
  unfold ctr, add64, u64, BlockSize. cbn [fst snd]. pose proof (Z.div_mod t W ltac:(lia)) as Ht.
  pose proof (Z.mod_pos_bound t W ltac:(lia)) as Hb. set (q := t / W) in *. set (r := t mod W) in *.
  destruct (Z.le_gt_cases W (r + 128)) as [Hc|Hc].
  - assert ((r + 128) mod W = r + 128 - W) as E by (symmetry; apply (Z.mod_unique _ _ 1); lia). rewrite E.
    destruct (Z.ltb_spec (r + 128 - W) 128); [|lia]. f_equal.
    + apply (Z.mod_unique _ _ (q + 1)); lia.
    + rewrite Zplus_mod_idemp_l. f_equal. apply (Z.div_unique _ _ _ (r + 128 - W)); lia.
  - assert ((r + 128) mod W = r + 128) as E by (apply Z.mod_small; lia). rewrite E.
    destruct (Z.ltb_spec (r + 128) 128); [lia|]. f_equal.
    + apply (Z.mod_unique _ _ q); lia.
    + f_equal. apply (Z.div_unique _ _ _ (r + 128)); lia.
Qed.
Lemma hashBlocks_step n h t last b : length h = 8%nat ->
  hashBlocks_loop (S n) h (ctr t).1 (ctr t).2 (flag_of last) b =
  hashBlocks_loop n (rfc_F h (block_words b) (t + 128) last 12) (ctr (t + 128)).1 (ctr (t + 128)).2 (flag_of last) (drop 128 b).
Proof.
  intros Hh. cbn [hashBlocks_loop]. pose proof (ctr_next t) as E. pose proof (f_equal fst E) as E1. pose proof (f_equal snd E) as E2.
  cbn [fst snd] in E1, E2. rewrite E2, E1. unfold f. rewrite fGeneric_rfc by done. rewrite words_spec. done.
Qed.
Lemma hashBlocks_absorb n : forall h t b, length h = 8%nat ->
  hashBlocks_loop n h (ctr t).1 (ctr t).2 0 b =
  (absorb n t h b, (ctr (t + 128 * Z.of_nat n)).1, (ctr (t + 128 * Z.of_nat n)).2).
Proof.
  induction n as [|n IH]; intros h t b Hh; [cbn [hashBlocks_loop absorb]; by rewrite Z.mul_0_r, Z.add_0_r|].
  change 0 with (flag_of false). rewrite (hashBlocks_step n h t false b Hh). change (flag_of false) with 0. rewrite IH by (by apply rfc_F_length). cbn [absorb].
  by replace (t + 128 * Z.of_nat (S n)) with (t + 128 + 128 * Z.of_nat n) by lia.
Qed.
Lemma hashBlocks_ok h t b n : length h = 8%nat -> length b = (128 * n)%nat ->
  hashBlocks h (ctr t) 0 b = (absorb n t h b, ctr (t + 128 * Z.of_nat n)).
Proof.
  intros Hh Hb. unfold hashBlocks. rewrite Hb, Nat.mul_comm, Nat.div_mul by lia.
  rewrite hashBlocks_absorb by done. done.
Qed.
Lemma absorb_length n : forall t h b, length h = 8%nat -> length (absorb n t h b) = 8%nat.
Proof. induction n as [|n IH]; intros t h b Hh; [done|]. apply IH. by apply rfc_F_length. Qed.
Lemma absorb_app n1 n2 : forall t h b, absorb (n1 + n2) t h b = absorb n2 (t + 128 * Z.of_nat n1) (absorb n1 t h b) (drop (128 * n1) b).
Proof.
  induction n1 as [|n1 IH]; intros t h b; [rewrite Nat.mul_0_r, Z.mul_0_r, Z.add_0_r; done|].
  cbn [Nat.add absorb]. rewrite IH, drop_drop. f_equal; [lia|]. f_equal. lia.
Qed.
Lemma block_words_ext a b : take 128 a = take 128 b -> block_words a = block_words b.
Proof.
  intros E. unfold block_words. apply list_fmap_ext. intros i x Hx. apply lookup_seq in Hx as [-> Hi]. f_equal.
  assert (forall l : bytes, take 8 (drop (8 * i) l) = take 8 (drop (8 * i) (take 128 l))) as Ht.
  { intros l. rewrite skipn_firstn_comm, take_take. f_equal. lia. }
  by rewrite Ht, E, <- Ht.
Qed.
Lemma absorb_ext n : forall t h a b, take (128 * n) a = take (128 * n) b -> absorb n t h a = absorb n t h b.
Proof.
  induction n as [|n IH]; intros t h a b E; [done|]. cbn [absorb].
  rewrite (block_words_ext a b).
  - apply IH. apply (f_equal (drop 128)) in E. rewrite !skipn_firstn_comm in E.
    by replace (128 * S n - 128)%nat with (128 * n)%nat in E by lia.
  - apply (f_equal (take 128)) in E. rewrite !take_take in E. by replace (128 `min` (128 * S n))%nat with 128%nat in E by lia.
Qed.

(** ** The last block *)
Lemma copy_at_take dst i src : (i + length src <= length dst)%nat ->
  take (i + length src) (copy_at dst i src) = take i dst ++ src /\ length (copy_at dst i src) = length dst.
Proof.
  intros H. unfold copy_at. rewrite (take_ge src) by lia. split.
  - rewrite app_assoc. apply take_app_length'. rewrite length_app, length_take. lia.
  - rewrite !length_app, length_take, length_drop. lia.
Qed.
Lemma copy_at_zeros data n : (length data <= n)%nat -> copy_at (zeros n) 0 data = pad n data.
Proof.
  intros H. unfold copy_at, pad, zeros. rewrite take_0, length_replicate, take_ge by lia. cbn. f_equal.
  rewrite drop_replicate. f_equal.
Qed.
Lemma length_pad n b : (length b <= n)%nat -> length (pad n b) = n.
Proof. intros H. unfold pad, zeros. rewrite length_app, length_replicate. lia. Qed.
Lemma ctr_back t r : 0 <= t -> 0 <= r <= 128 -> (sub64 (ctr t).1 (BlockSize - r),
  if (ctr t).1 <? BlockSize - r then sub64 (ctr t).2 1 else (ctr t).2) = ctr (t - (128 - r)).
Proof.
  intros Ht0 Hr. unfold ctr, sub64, u64, BlockSize. cbn [fst snd]. pose proof (Z.div_mod t W ltac:(lia)) as Ht.
  pose proof (Z.mod_pos_bound t W ltac:(lia)) as Hb. set (q := t / W) in *. set (x := t mod W) in *. set (s := 128 - r) in *.
  destruct (Z.ltb_spec x s).
  - f_equal.
    + transitivity (x - s + W); [symmetry; apply (Z.mod_unique _ _ (-1)); lia|apply (Z.mod_unique _ _ (q - 1)); lia].
    + rewrite Zminus_mod_idemp_l. f_equal. apply (Z.div_unique _ _ _ (x - s + W)); lia.
  - f_equal.
    + transitivity (x - s); [apply Z.mod_small; lia|apply (Z.mod_unique _ _ q); lia].
    + f_equal. apply (Z.div_unique _ _ _ (x - s)); lia.
Qed.
Lemma finalBlock_ok h t data : length h = 8%nat -> 0 <= t -> (length data <= 128)%nat ->
  finalBlock h (ctr t) data = rfc_F h (block_words (pad 128 data)) (t + len data) true 12.
Proof.
  intros Hh Ht Hd. unfold finalBlock, hashBlocks. rewrite (copy_at_zeros data 128) by done. rewrite length_pad by done.
  change (128 / 128)%nat with 1%nat. assert (0 <= len data <= 128) as Hl by (unfold len; lia).
  pose proof (ctr_back t (len data) Ht Hl) as E. pose proof (f_equal fst E) as E1. pose proof (f_equal snd E) as E2.
  cbn [fst snd] in *. rewrite E1, E2. change 0xFFFFFFFFFFFFFFFF with (flag_of true).
  rewrite hashBlocks_step by done. cbn [hashBlocks_loop fst]. by replace (t - (128 - len data) + 128) with (t + len data) by lia.
Qed.
(** Hashing the blocks before the last, then the last. *)
Lemma rfc_digest_split h data q : (128 * q <= length data <= 128 * S q)%nat -> (q = 0%nat \/ 128 * q < length data)%nat ->
  rfc_digest h data = rfc_F (absorb q 0 h data) (block_words (pad 128 (drop (128 * q) data))) (len data) true 12.
Proof.
  intros Hq Hne. unfold rfc_digest. assert (Nat.max 1 ((length data + 127) / 128) = S q) as ->.
  { destruct (decide (length data = 0%nat)) as [E|E]; [rewrite E; destruct Hne; cbn; lia|].
    assert ((length data + 127) / 128 = S q)%nat as ->; [|lia]. symmetry.
    apply (Nat.div_unique _ _ _ (length data + 127 - 128 * S q)); lia. }
  replace (S q - 1)%nat with q by lia.
  rewrite (absorb_ext q 0 h (pad (128 * S q) data) data) by (unfold pad; by rewrite take_app_le by lia).
  assert (drop (128 * q) (pad (128 * S q) data) = pad 128 (drop (128 * q) data)) as ->; [|done].
  unfold pad. rewrite (drop_app_le data), length_drop by lia. by replace (128 * S q - length data)%nat with (128 - (length data - 128 * q))%nat by lia.
Qed.

(** ** The incremental hash *)
(** [d] has absorbed [data]: whole blocks are hashed, the rest, never empty once
    there is data, waits in the block. *)
Record absorbed (h0 : list Z) (d : digest) (data : bytes) : Prop := {
  ab_block : length (dblock d) = 128%nat;
  ab_split : exists q, (128 * q <= length data <= 128 * S q)%nat /\ (q = 0%nat \/ 128 * q < length data)%nat /\
    dh d = absorb q 0 h0 data /\ dc d = ctr (128 * Z.of_nat q) /\
    doffset d = len data - 128 * Z.of_nat q /\ take (Z.to_nat (doffset d)) (dblock d) = drop (128 * q) data;
}.
(** All of [data] is hashed and the block is free. *)
Record flushed (h0 : list Z) (d : digest) (data : bytes) : Prop := {
  fl_block : length (dblock d) = 128%nat;
  fl_offset : doffset d = 0;
  fl_split : exists q, length data = (128 * q)%nat /\ dh d = absorb q 0 h0 data /\ dc d = ctr (128 * Z.of_nat q);
}.
Lemma full_blocks_spec L : 128 < L -> full_blocks L = 128 * ((L - 1) / 128).
Proof.
  intros H. unfold full_blocks, BlockSize. change (128 - 1) with (Z.ones 7). rewrite Z.ldiff_ones_r by lia.
  rewrite Z.shiftl_mul_pow2, Z.shiftr_div_pow2 by lia. change (2 ^ 7) with 128.
  pose proof (Z.div_mod L 128 ltac:(lia)). pose proof (Z.mod_pos_bound L 128 ltac:(lia)).
  destruct (Z.eqb_spec L (L / 128 * 128)).
  - replace ((L - 1) / 128) with (L / 128 - 1) by (apply (Z.div_unique _ _ _ 127); lia). lia.
  - replace ((L - 1) / 128) with (L / 128) by (apply (Z.div_unique _ _ _ (L mod 128 - 1)); lia). lia.
Qed.
(** The whole blocks of [p] that are followed by more data. *)
Definition before_last (p : bytes) : nat := ((length p - 1) / 128)%nat.
Lemma before_last_spec p : p <> [] -> (128 * before_last p < length p <= 128 * S (before_last p))%nat.
Proof.
  intros Hp. unfold before_last. assert (0 < length p)%nat by (destruct p; [done|cbn; lia]).
  pose proof (Nat.div_mod_eq (length p - 1) 128). pose proof (Nat.mod_upper_bound (length p - 1) 128 ltac:(lia)). lia.
Qed.
Lemma hash_full_ok h t p : length h = 8%nat ->
  hash_full h (ctr t) p = (absorb (before_last p) t h p, ctr (t + 128 * Z.of_nat (before_last p)), drop (128 * before_last p) p).
Proof.
  intros Hh. unfold hash_full, before_last, BlockSize. destruct (Z.ltb_spec 128 (len p)) as [Hgt|Hle].
  - rewrite full_blocks_spec by done. unfold len in *.
    assert (Z.to_nat (128 * ((Z.of_nat (length p) - 1) / 128)) = 128 * ((length p - 1) / 128))%nat as ->.
    { replace (Z.of_nat (length p) - 1) with (Z.of_nat (length p - 1)) by lia. change 128 with (Z.of_nat 128) at 2.
      rewrite <- Nat2Z.inj_div. lia. }
    set (n := ((length p - 1) / 128)%nat). cbv zeta.
    rewrite (hashBlocks_ok h t _ n) by (try done; rewrite length_take; unfold n; pose proof (Nat.Div0.mul_div_le (length p - 1) 128); lia).
    rewrite (absorb_ext n t h _ p); [done|]. by rewrite take_take, Nat.min_id.
  - assert ((length p - 1) / 128 = 0)%nat as -> by (apply Nat.div_small; unfold len in Hle; lia).
    cbn [absorb]. by rewrite Nat.mul_0_r, drop_0, Z.mul_0_r, Z.add_0_r.
Qed.
Lemma absorb_behind q n h0 data p : length data = (128 * q)%nat ->
  absorb (q + n) 0 h0 (data ++ p) = absorb n (128 * Z.of_nat q) (absorb q 0 h0 data) p.
Proof.
  intros Hq. rewrite absorb_app, Z.add_0_l, drop_app_length' by done.
  rewrite (absorb_ext q 0 h0 (data ++ p) data); [done|]. rewrite take_app_length', take_ge by lia. done.
Qed.
Lemma write_rest_ok h0 d data p : length h0 = 8%nat -> flushed h0 d data -> p <> [] -> absorbed h0 (write_rest p d) (data ++ p).
Proof.
  intros Hh [Hb Ho (q & Hq & Edh & Edc)] Hp. pose proof (before_last_spec p Hp) as Hn. set (n := before_last p) in *.
  unfold write_rest. rewrite Edh, Edc, hash_full_ok by (by apply absorb_length). fold n. rewrite <- absorb_behind by done.
  assert (len (drop (128 * n) p) = len p - 128 * Z.of_nat n) as Hd by (unfold len; rewrite length_drop; lia).
  assert (len p = Z.of_nat (length p)) as Hl by done.
  destruct (Z.ltb_spec 0 (len (drop (128 * n) p))) as [_|]; [|lia].
  destruct (copy_at_take (dblock d) 0 (drop (128 * n) p)) as [Ht Hlen]; [rewrite length_drop; lia|].
  split; cbn [dblock dh dc doffset set_state]; [by rewrite Hlen|]. exists (q + n)%nat. rewrite length_app. split_and!; [lia|lia|lia|done|f_equal; lia| |].
  - rewrite Ho, Hd. unfold len. rewrite length_app. lia.
  - rewrite Ho, Hd. replace (Z.to_nat (0 + Z.min 128 (len p - 128 * Z.of_nat n))) with (0 + length (drop (128 * n) p))%nat
      by (rewrite length_drop; lia).
    rewrite Ht, take_0. cbn [app]. rewrite drop_app_ge by lia. f_equal. lia.
Qed.
Lemma DWrite_ok h0 d data p : length h0 = 8%nat -> absorbed h0 d data -> absorbed h0 (DWrite p d) (data ++ p).
Proof.
  intros Hh [Hb (q & Hq & Hne & Edh & Edc & Eo & Et)]. unfold DWrite. assert (len data = Z.of_nat (length data)) as Hl by done.
  assert (length (drop (128 * q) data) = Z.to_nat (doffset d)) as Hlo by (rewrite length_drop; lia).
  destruct (Z.ltb_spec 0 (doffset d)) as [Hpos|Hz].
  - unfold BlockSize. destruct (Z.leb_spec (len p) (128 - doffset d)) as [Hfit|Hbig].
    + assert (Z.min (128 - doffset d) (len p) = len p) as -> by lia.
      destruct (copy_at_take (dblock d) (Z.to_nat (doffset d)) p) as [Ht Hlen]; [unfold len in *; lia|].
      split; cbn [dblock dh dc doffset set_state]; [by rewrite Hlen|]. exists q. rewrite length_app. unfold len in *.
      split_and!; [lia|lia|lia| |done|rewrite length_app; lia|].
      * rewrite Edh. apply absorb_ext. by rewrite take_app_le by lia.
      * replace (Z.to_nat (doffset d + Z.of_nat (length p))) with (Z.to_nat (doffset d) + length p)%nat by lia.
        by rewrite Ht, Et, drop_app_le by lia.
    + set (r := Z.to_nat (128 - doffset d)). assert (length (take r p) = r) as Hr by (rewrite length_take; unfold len in *; lia).
      destruct (copy_at_take (dblock d) (Z.to_nat (doffset d)) (take r p)) as [Ht Hlen]; [lia|].
      rewrite Hr in Ht. replace (Z.to_nat (doffset d) + r)%nat with 128%nat in Ht by lia. rewrite take_ge in Ht by lia.
      rewrite Ht, Et. rewrite Edh, Edc, (hashBlocks_ok _ _ _ 1) by (try (by apply absorb_length); rewrite length_app; lia).
      set (d1 := set_state _ _ _ 0 d). assert (data ++ p = (data ++ take r p) ++ drop r p) as -> by (by rewrite <- app_assoc, take_drop).
      apply write_rest_ok; [done| |intros E; apply (f_equal length) in E; rewrite length_drop in E; cbn in E; unfold len in *; lia].
      split; [unfold d1; cbn [dblock set_state]; rewrite length_app; lia|done|]. exists (q + 1)%nat.
      rewrite length_app. split_and!; [lia| |cbn; f_equal; lia]. cbn [dh d1 set_state].
      rewrite absorb_app, Z.add_0_l, drop_app_le by lia.
      rewrite (absorb_ext q 0 h0 (data ++ take r p) data) by (by rewrite take_app_le by lia). done.
  - destruct p as [|x p].
    + rewrite app_nil_r. unfold write_rest. cbn [len length]. unfold hash_full, BlockSize. change (len []) with 0. cbn.
      split; [done|]. exists q. split_and!; done || lia.
    + apply write_rest_ok; [done| |done]. split; [done|lia|]. exists q. split_and!; [lia|done|done].
Qed.
Lemma finalize_ok h0 d data : length h0 = 8%nat -> absorbed h0 d data -> finalize d = put_words (rfc_digest h0 data).
Proof.
  intros Hh [Hb (q & Hq & Hne & Edh & Edc & Eo & Et)]. unfold finalize. rewrite Et, Edh, Edc.
  rewrite finalBlock_ok; [|by apply absorb_length|lia|rewrite length_drop; lia].
  rewrite (rfc_digest_split h0 data q Hq Hne).
  by replace (128 * Z.of_nat q + len (drop (128 * q) data)) with (len data) by (unfold len; rewrite length_drop; lia).
Qed.

(** ** The initial vector *)
Lemma init_xor nn kk : 0 <= nn <= 64 -> 0 <= kk <= 64 ->
  Z.lxor (iv !!! 0%nat) (Z.lor (Z.lor (Z.lor nn (Z.shiftl kk 8)) (Z.shiftl 1 16)) (Z.shiftl 1 24)) =
  Z.lxor (Z.lxor (Z.lxor (iv !!! 0%nat) 0x01010000) (Z.shiftl kk 8)) nn.
Proof.
  intros Hn Hk.
  assert (Forall (fun a => Forall (fun b =>
    Z.lxor (iv !!! 0%nat) (Z.lor (Z.lor (Z.lor (Z.of_nat a) (Z.shiftl (Z.of_nat b) 8)) (Z.shiftl 1 16)) (Z.shiftl 1 24)) =
    Z.lxor (Z.lxor (Z.lxor (iv !!! 0%nat) 0x01010000) (Z.shiftl (Z.of_nat b) 8)) (Z.of_nat a)) (seq 0 65)) (seq 0 65)) as H
    by (apply (bool_decide_unpack _); vm_compute; reflexivity).
  rewrite list.Forall_forall in H. specialize (H (Z.to_nat nn) ltac:(apply elem_of_seq; lia)). cbv beta in H.
  rewrite list.Forall_forall in H. specialize (H (Z.to_nat kk) ltac:(apply elem_of_seq; lia)). cbv beta in H.
  by rewrite !Z2Nat.id in H by lia.
Qed.
Lemma rfc_init_length nn kk : length (rfc_init nn kk) = 8%nat.
Proof. unfold rfc_init. rewrite rfc_iv_ok. by rewrite length_insert. Qed.
Lemma newDigest_ok size key : 1 <= size <= 64 -> len key <= 64 ->
  exists d, newDigest size key = inl d /\ dsize d = size /\ absorbed (rfc_init size (len key)) d (key_block key).
Proof.
  intros Hs Hk. unfold newDigest, Size. destruct (Z.ltb_spec size 1), (Z.ltb_spec 64 size); try lia. cbn [orb].
  destruct (Z.ltb_spec 64 (len key)); [lia|]. eexists. split; [done|]. unfold DReset. cbn [dsize keyLen dkey dblock].
  assert (0 <= len key) as Hk0 by (unfold len; lia). rewrite (copy_at_zeros key 128) by (unfold len in *; lia).
  rewrite init_xor, <- rfc_iv_ok by lia. fold (rfc_init size (len key)). unfold key_block. destruct key as [|b key].
  - rewrite decide_True by done. cbn. split; [done|]. split; [done|]. exists 0%nat. split_and!; try done; try (cbn; lia).
  - rewrite decide_False by done. destruct (Z.ltb_spec 0 (len (b :: key))) as [_|Hc]; [|unfold len in Hc; cbn in Hc; lia].
    split; [done|]. assert (length (pad 128 (b :: key)) = 128%nat) as Hp by (apply length_pad; unfold len in *; lia).
    split; cbn [dblock]; [done|]. exists 0%nat. rewrite Hp. split_and!; [lia|lia|by left|done|done| |].
    + cbn [doffset]. unfold BlockSize, len. rewrite Hp. lia.
    + cbn [doffset]. unfold BlockSize. rewrite drop_0. apply take_ge. rewrite Hp. lia.
Qed.
Lemma DWrite_size p d : dsize (DWrite p d) = dsize d.
Proof.
  assert (forall p d, dsize (write_rest p d) = dsize d) as Hw.
  { intros p' d'. unfold write_rest. destruct (hash_full _ _ _) as [[h c] q]. by destruct (0 <? len q). }
  unfold DWrite. destruct (0 <? doffset d); [|apply Hw]. destruct (len p <=? BlockSize - doffset d); [done|].
  destruct (hashBlocks _ _ _ _). rewrite Hw. done.
Qed.
Lemma writes_ok h0 chunks : length h0 = 8%nat -> forall d data, absorbed h0 d data ->
  absorbed h0 (foldl (fun d p => DWrite p d) d chunks) (data ++ mjoin chunks) /\
  dsize (foldl (fun d p => DWrite p d) d chunks) = dsize d.
Proof.
  intros Hh. induction chunks as [|p chunks IH]; intros d data Ha; cbn [foldl]; [by rewrite app_nil_r|].
  destruct (IH (DWrite p d) (data ++ p)) as [Ha' Hs]; [by apply DWrite_ok|]. rewrite <- app_assoc in Ha'.
  split; [done|]. by rewrite Hs, DWrite_size.
Qed.
Lemma put_words_cons x h : put_words (x :: h) = le_bytes 8 x ++ put_words h.
Proof. reflexivity. Qed.
Lemma put_words_length h : length (put_words h) = (8 * length h)%nat.
Proof. induction h as [|x h IH]; [done|]. rewrite put_words_cons, length_app, IH, length_le_bytes. cbn [length]. lia. Qed.
Lemma checkSum_digest size data : 1 <= size <= 64 ->
  let h := rfc_digest (rfc_init size 0) data in
  checkSum size data = copy_at (zeros 64) 0 (put_words (take (Z.to_nat ((size + 7) / 8)) h)).
Proof.
  intros Hs h. unfold checkSum.
  assert (<[0%nat := Z.lxor (iv !!! 0%nat) (Z.lor (Z.lor size (Z.shiftl 1 16)) (Z.shiftl 1 24))]> iv = rfc_init size 0) as ->.
  { unfold rfc_init. rewrite rfc_iv_ok, <- init_xor by lia. change (Z.shiftl 0 8) with 0. by rewrite Z.lor_0_r. }
  change (0, 0) with (ctr 0). rewrite hash_full_ok by apply rfc_init_length. unfold h. do 4 f_equal.
  set (q := before_last data).
  assert (128 * q <= length data <= 128 * S q /\ (q = 0 \/ 128 * q < length data))%nat as [Hq Hne].
  { destruct data as [|x data]; [unfold q; cbn; lia|]. pose proof (before_last_spec (x :: data) ltac:(done)). fold q in H. lia. }
  rewrite finalBlock_ok; [|apply absorb_length, rfc_init_length|lia|rewrite length_drop; lia].
  rewrite (rfc_digest_split _ data q Hq Hne), Z.add_0_l.
  by replace (128 * Z.of_nat q + len (drop (128 * q) data)) with (len data) by (unfold len; rewrite length_drop; lia).
Qed.
Lemma rfc_digest_length h data : length h = 8%nat -> length (rfc_digest h data) = 8%nat.
Proof. intros Hh. unfold rfc_digest. cbv zeta. apply rfc_F_length. by apply absorb_length. Qed.
Lemma take_put_words n h : take (8 * n) (put_words h) = put_words (take n h).
Proof.
  revert h. induction n as [|n IH]; intros h; [done|]. destruct h as [|x h]; [by rewrite !take_nil|].
  cbn [take]. rewrite !put_words_cons.
  replace (8 * S n)%nat with (length (le_bytes 8 x) + 8 * n)%nat by (rewrite length_le_bytes; lia).
  by rewrite firstn_app_2, IH.
Qed.
Lemma checkSum_spec n data : (n <= 8)%nat -> (1 <= n)%nat ->
  take (8 * n) (checkSum (8 * Z.of_nat n) data) = rfc_blake2b (8 * Z.of_nat n) [] data.
Proof.
  intros Hn H1. rewrite checkSum_digest by lia. cbv zeta. unfold rfc_blake2b, key_block. rewrite decide_True by done.
  change (len []) with 0. cbn [app]. replace (Z.to_nat (8 * Z.of_nat n)) with (8 * n)%nat by lia.
  assert ((8 * Z.of_nat n + 7) / 8 = Z.of_nat n) as -> by (symmetry; apply (Z.div_unique _ _ _ 7); lia).
  rewrite Nat2Z.id. set (h := rfc_digest _ data). assert (length (take n h) = n) as Hl
    by (rewrite length_take; unfold h; rewrite rfc_digest_length by apply rfc_init_length; lia).
  rewrite take_put_words. rewrite copy_at_zeros by (rewrite put_words_length; lia). unfold pad.
  apply take_app_length'. rewrite put_words_length. lia.
Qed.
Lemma checkSum_length data : (length (checkSum 64 data) <= 64)%nat.
Proof.
  rewrite checkSum_digest by lia. cbv zeta. change ((64 + 7) / 8) with 8.
  assert (forall h, (length h <= 8)%nat -> (length (copy_at (zeros 64) 0 (put_words h)) <= 64)%nat) as H.
  { intros h Hh. rewrite copy_at_zeros by (rewrite put_words_length; lia). rewrite length_pad; [lia|]. rewrite put_words_length. lia. }
  apply H. rewrite length_take. lia.
Qed.
