(* ===== verification/Precompiles.v ===== *)
(** * Precompiled contracts

    src/evm/contracts.go and contracts_console.go, [EVM.precompile] of evm.go and
    [ValidateSignatureValues] of src/crypto/crypto.go.  The hash functions, key
    recovery and the arithmetic of the elliptic curves are the fields of
    [Crypto]; BLAKE2b is the one of Blake2b.v.  [None] is a panic. *)

From Stdlib Require Import Zpow_facts.
From S2P Require Import Prelude Words Uint256 Params Config Stack Memory Opcodes Analysis State Blake2b BigInt.

(** ** What the contracts call *)
(** A group of curve points; [inr] is the error of a malformed point. *)
Record Curve := mkCurve {
  point : Type;
  Unmarshal : bytes -> point + Z;
  PAdd : point -> point -> point;
  ScalarMult : point -> Z -> point;
  MultiExp : list point -> list Z -> point;
  InCorrectSubgroup : point -> bool;
  MapToCurve : bytes -> point + Z;
  Marshal : point -> bytes;
}.
Record Crypto := mkCrypto {
  Keccak256 : bytes -> bytes;
  sha256Sum : bytes -> bytes;
  ripemd160Sum : bytes -> bytes;
  Ecrecover : bytes -> bytes -> option bytes;
  bnG1 : Curve;
  bnG2 : Curve;
  bnPairingCheck : list (point bnG1) -> list (point bnG2) -> bool;
  blsG1 : Curve;
  blsG2 : Curve;
  blsPairingCheck : list (point blsG1 * point blsG2) -> bool;
}.

(** ** Helpers *)
Abbreviation run_result := (option (ret_slice * option error)).
Definition ok (b : bytes) : run_result := Some (Fresh b, None).
Definition fail (e : Z) : run_result := Some (Fresh [], Some (ErrPrecompile e)).
Definition errBadPairingInput : Z := 1.
Definition errBlake2FInvalidInputLength : Z := 2.
Definition errBlake2FInvalidFinalFlag : Z := 3.
Definition errBLS12381InvalidInputLength : Z := 4.
Definition errBLS12381InvalidFieldElementTopBytes : Z := 5.
Definition errBLS12381G1PointSubgroup : Z := 6.
Definition errBLS12381G2PointSubgroup : Z := 7.
Definition errFieldElementLength : Z := 8.
Definition sub_slice (a b : Z) (l : bytes) : option bytes := if slice_ok a b l then Some (slice a b l) else None.
(** [make([]byte, n)] panics above 2^48 bytes, the runtime's [maxAlloc]. *)
Definition maxAlloc : Z := 0x1000000000000.
(** [getData]; a length above [maxAlloc] is more than any slice has, so the
    data is padded with [make]. *)
Definition data_at (l : bytes) (start size : Z) : option bytes :=
  if maxAlloc <? to_int64 size then None else match getData l start size with Ret d => Some d | _ => None end.
Definition LeftPadBytes (sl : bytes) (l : Z) : option bytes :=
  if l <=? len sl then Some sl
  else if maxAlloc <? l then None
  else Some (replicate (Z.to_nat (l - len sl)) 0 ++ sl).
(** [(len(input)+31)/32*perWord + base] in uint64 *)
Definition priceWords (perWord base : Z) (input : bytes) : option Z :=
  Some (add64 (mul64 (u64 (len input + 31) / 32) perWord) base).

(** ** Signatures *)
Definition secp256k1N : Z := 0xfffffffffffffffffffffffffffffffebaaedce6af48a03bbfd25e8cd0364141.
Definition secp256k1halfN : Z := secp256k1N / 2.
Definition ValidateSignatureValues (v r s : Z) (homestead : bool) : bool :=
  if (r <? 1) || (s <? 1) then false
  else if homestead && (secp256k1halfN <? s) then false
  else (r <? secp256k1N) && (s <? secp256k1N) && ((v =? 0) || (v =? 1)).

Section Contracts.
Context (C : Crypto).

Definition ecrecover_Run (input : bytes) : run_result :=
  let input := RightPadBytes input 128 in
  rb ← sub_slice 64 96 input;
  sb ← sub_slice 96 128 input;
  v ← input !! 63%nat;
  let r := be_val rb in
  let s := be_val sb in
  let v := (v - 27) mod 256 in
  hi ← sub_slice 32 63 input;
  if negb (allZero hi) || negb (ValidateSignatureValues v r s false) then ok []
  else
    rs ← sub_slice 64 128 input;
    h ← sub_slice 0 32 input;
    match Ecrecover C h (rs ++ [v]) with
    | None => ok []
    | Some pubKey =>
        k ← sub_slice 1 (len pubKey) pubKey;
        d ← sub_slice 12 (len (Keccak256 C k)) (Keccak256 C k);
        out ← LeftPadBytes d 32;
        ok out
    end.
Definition ecrecover : PrecompiledContract := mkPrecompiled (fun _ => Some EcrecoverGas) ecrecover_Run.
Definition sha256hash : PrecompiledContract :=
  mkPrecompiled (priceWords Sha256PerWordGas Sha256BaseGas) (fun input => ok (sha256Sum C input)).
Definition ripemd160hash : PrecompiledContract :=
  mkPrecompiled (priceWords Ripemd160PerWordGas Ripemd160BaseGas)
    (fun input => out ← LeftPadBytes (ripemd160Sum C input) 32; ok out).
(** Returns its input, not a copy. *)
Definition dataCopy : PrecompiledContract :=
  mkPrecompiled (priceWords IdentityPerWordGas IdentityBaseGas) (fun _ => Some (InputSlice, None)).

(** ** Modular exponentiation *)
Definition modexpMultComplexity (x : Z) : Z :=
  if x <=? 64 then x * x
  else if x <=? 1024 then x * x / 4 + (96 * x - 3072)
  else x * x / 16 + (480 * x - 199680).
(** [input[96:]], or nothing *)
Definition tail96 (input : bytes) : bytes := if 96 <? len input then drop 96 input else [].
(** The gas once the three lengths are read; [u64] is [big.Int.Uint64]. *)
Definition modexpGas (eip2565 : bool) (input : bytes) (baseLen expLen modLen : Z) : option Z :=
  let input := tail96 input in
  expHead ← (if len input <=? baseLen then Some 0
             else if 32 <? expLen then d ← data_at input (u64 baseLen) 32; Some (be_val d)
             else d ← data_at input (u64 baseLen) (u64 expLen); Some (be_val d));
  let bitlen := BitLen expHead in
  let msb := if 0 <? bitlen then bitlen - 1 else 0 in
  let adjExpLen := if 32 <? expLen then 8 * (expLen - 32) else 0 in
  let adjExpLen := adjExpLen + msb in
  let gas := BigMax modLen baseLen in
  if eip2565 then
    let gas := (gas + 7) / 8 in
    let gas := gas * gas in
    let gas := gas * BigMax adjExpLen 1 in
    let gas := gas / 3 in
    if 64 <? BitLen gas then Some MaxUint64
    else if u64 gas <? 200 then Some 200 else Some (u64 gas)
  else
    let gas := modexpMultComplexity gas in
    let gas := gas * BigMax adjExpLen 1 in
    let gas := gas / 20 in
    if 64 <? BitLen gas then Some MaxUint64 else Some (u64 gas).
Definition bigModExp_RequiredGas (eip2565 : bool) (input : bytes) : option Z :=
  bl ← data_at input 0 32;
  el ← data_at input 32 32;
  ml ← data_at input 64 32;
  modexpGas eip2565 input (be_val bl) (be_val el) (be_val ml).
(** The result once the three lengths are read. *)
Definition modexpRun (input : bytes) (baseLen expLen modLen : Z) : run_result :=
  let input := tail96 input in
  if (baseLen =? 0) && (modLen =? 0) then ok []
  else
    b ← data_at input 0 baseLen;
    e ← data_at input baseLen expLen;
    m ← data_at input (add64 baseLen expLen) modLen;
    let base := be_val b in
    let exp := be_val e in
    let mod_ := be_val m in
    if BitLen mod_ =? 0 then out ← LeftPadBytes [] (to_int64 modLen); ok out
    else out ← LeftPadBytes (bigBytes (Zpow_mod base exp mod_)) (to_int64 modLen); ok out.
Definition bigModExp_Run (input : bytes) : run_result :=
  bl ← data_at input 0 32;
  el ← data_at input 32 32;
  ml ← data_at input 64 32;
  modexpRun input (u64 (be_val bl)) (u64 (be_val el)) (u64 (be_val ml)).
Definition bigModExp (eip2565 : bool) : PrecompiledContract :=
  mkPrecompiled (bigModExp_RequiredGas eip2565) bigModExp_Run.

(** ** bn256 *)
Definition runBn256Add (input : bytes) : run_result :=
  xb ← data_at input 0 64;
  match Unmarshal (bnG1 C) xb with
  | inr e => fail e
  | inl x =>
      yb ← data_at input 64 64;
      match Unmarshal (bnG1 C) yb with
      | inr e => fail e
      | inl y => ok (Marshal (bnG1 C) (PAdd (bnG1 C) x y))
      end
  end.
Definition runBn256ScalarMul (input : bytes) : run_result :=
  pb ← data_at input 0 64;
  match Unmarshal (bnG1 C) pb with
  | inr e => fail e
  | inl p => k ← data_at input 64 32; ok (Marshal (bnG1 C) (ScalarMult (bnG1 C) p (be_val k)))
  end.
Definition true32Byte : bytes := replicate 31 0 ++ [1].
Definition false32Byte : bytes := replicate 32 0.
(** [for i := 0; i < len(input); i += 192], [n] pairs from offset [i]. *)
Fixpoint pairing_points (n : nat) (i : Z) (input : bytes)
  : option ((list (point (bnG1 C)) * list (point (bnG2 C))) + Z) :=
  match n with
  | O => Some (inl ([], []))
  | S n =>
      cb ← sub_slice i (i + 64) input;
      match Unmarshal (bnG1 C) cb with
      | inr e => Some (inr e)
      | inl c =>
          tb ← sub_slice (i + 64) (i + 192) input;
          match Unmarshal (bnG2 C) tb with
          | inr e => Some (inr e)
          | inl t =>
              r ← pairing_points n (i + 192) input;
              Some (match r with inl (cs, ts) => inl (c :: cs, t :: ts) | inr e => inr e end)
          end
      end
  end.
Definition runBn256Pairing (input : bytes) : run_result :=
  if 0 <? len input mod 192 then fail errBadPairingInput
  else
    r ← pairing_points (Z.to_nat (len input / 192)) 0 input;
    match r with
    | inr e => fail e
    | inl (cs, ts) => ok (if bnPairingCheck C cs ts then true32Byte else false32Byte)
    end.
Definition bn256AddIstanbul : PrecompiledContract := mkPrecompiled (fun _ => Some Bn256AddGasIstanbul) runBn256Add.
Definition bn256AddByzantium : PrecompiledContract := mkPrecompiled (fun _ => Some Bn256AddGasByzantium) runBn256Add.
Definition bn256ScalarMulIstanbul : PrecompiledContract :=
  mkPrecompiled (fun _ => Some Bn256ScalarMulGasIstanbul) runBn256ScalarMul.
Definition bn256ScalarMulByzantium : PrecompiledContract :=
  mkPrecompiled (fun _ => Some Bn256ScalarMulGasByzantium) runBn256ScalarMul.
Definition bn256PairingIstanbul : PrecompiledContract :=
  mkPrecompiled (fun input => Some (add64 Bn256PairingBaseGasIstanbul (mul64 (len input / 192) Bn256PairingPerPointGasIstanbul)))
    runBn256Pairing.
Definition bn256PairingByzantium : PrecompiledContract :=
  mkPrecompiled (fun input => Some (add64 Bn256PairingBaseGasByzantium (mul64 (len input / 192) Bn256PairingPerPointGasByzantium)))
    runBn256Pairing.

(** ** blake2F *)
Definition blake2FInputLength : Z := 213.
Definition blake2FFinalBlockBytes : Z := 1.
Definition blake2FNonFinalBlockBytes : Z := 0.
Definition blake2F_RequiredGas (input : bytes) : option Z :=
  if negb (len input =? blake2FInputLength) then Some 0
  else d ← sub_slice 0 4 input; Some (be_val d).
(** [n] words of 8 bytes from [offset] on *)
Fixpoint le_words (n : nat) (offset : Z) (input : bytes) : option (list Z) :=
  match n with
  | O => Some []
  | S n => d ← sub_slice offset (offset + 8) input; l ← le_words n (offset + 8) input; Some (le_val d :: l)
  end.
Definition blake2F_Run (input : bytes) : run_result :=
  if negb (len input =? blake2FInputLength) then fail errBlake2FInvalidInputLength
  else
    flag ← input !! 212%nat;
    if negb (flag =? blake2FNonFinalBlockBytes) && negb (flag =? blake2FFinalBlockBytes) then fail errBlake2FInvalidFinalFlag
    else
      rb ← sub_slice 0 4 input;
      let rounds := be_val rb in
      let final := flag =? blake2FFinalBlockBytes in
      h ← le_words 8 4 input;
      m ← le_words 16 68 input;
      t ← le_words 2 196 input;
      ok (put_words (F h m t final rounds)).
Definition blake2F : PrecompiledContract := mkPrecompiled blake2F_RequiredGas blake2F_Run.

(** ** bls12381 *)
(** A generic point addition: two encodings of [n] bytes. *)
Definition blsAdd (g : Curve) (n : Z) (input : bytes) : run_result :=
  if negb (len input =? 2 * n) then fail errBLS12381InvalidInputLength
  else
    b0 ← sub_slice 0 n input;
    match Unmarshal g b0 with
    | inr e => fail e
    | inl p0 =>
        b1 ← sub_slice n (len input) input;
        match Unmarshal g b1 with
        | inr e => fail e
        | inl p1 => ok (Marshal g (PAdd g p0 p1))
        end
    end.
Definition blsMul (g : Curve) (n : Z) (input : bytes) : run_result :=
  if negb (len input =? n + 32) then fail errBLS12381InvalidInputLength
  else
    b0 ← sub_slice 0 n input;
    match Unmarshal g b0 with
    | inr e => fail e
    | inl p0 => e ← sub_slice n (len input) input; ok (Marshal g (ScalarMult g p0 (be_val e)))
    end.
(** [for i := 0; i < k; i++] over the pairs of a point and a scalar. *)
Fixpoint blsPairs (g : Curve) (n : Z) (k : nat) (off : Z) (input : bytes) : option ((list (point g) * list Z) + Z) :=
  match k with
  | O => Some (inl ([], []))
  | S k =>
      let '(t0, t1, t2) := (off, off + n, off + n + 32) in
      pb ← sub_slice t0 t1 input;
      match Unmarshal g pb with
      | inr e => Some (inr e)
      | inl p =>
          sb ← sub_slice t1 t2 input;
          r ← blsPairs g n k (off + n + 32) input;
          Some (match r with inl (ps, ss) => inl (p :: ps, be_val sb :: ss) | inr e => inr e end)
      end
  end.
Definition blsMultiExp (g : Curve) (n : Z) (input : bytes) : run_result :=
  let k := len input / (n + 32) in
  if (len input =? 0) || negb (len input mod (n + 32) =? 0) then fail errBLS12381InvalidInputLength
  else
    r ← blsPairs g n (Z.to_nat k) 0 input;
    match r with inr e => fail e | inl (ps, ss) => ok (Marshal g (MultiExp g ps ss)) end.
Definition multiExpGas (n mulGas : Z) (input : bytes) : option Z :=
  let k := len input / (n + 32) in
  if k =? 0 then Some 0
  else
    let dLen := Z.of_nat (length Bls12381MultiExpDiscountTable) in
    discount ← (if k <? dLen then Bls12381MultiExpDiscountTable !! Z.to_nat (k - 1)
                else Bls12381MultiExpDiscountTable !! Z.to_nat (dLen - 1));
    Some (mul64 (mul64 k mulGas) discount / 1000).
Definition bls12381G1Add : PrecompiledContract := mkPrecompiled (fun _ => Some Bls12381G1AddGas) (blsAdd (blsG1 C) 128).
Definition bls12381G1Mul : PrecompiledContract := mkPrecompiled (fun _ => Some Bls12381G1MulGas) (blsMul (blsG1 C) 128).
Definition bls12381G1MultiExp : PrecompiledContract :=
  mkPrecompiled (multiExpGas 128 Bls12381G1MulGas) (blsMultiExp (blsG1 C) 128).
Definition bls12381G2Add : PrecompiledContract := mkPrecompiled (fun _ => Some Bls12381G2AddGas) (blsAdd (blsG2 C) 256).
Definition bls12381G2Mul : PrecompiledContract := mkPrecompiled (fun _ => Some Bls12381G2MulGas) (blsMul (blsG2 C) 256).
Definition bls12381G2MultiExp : PrecompiledContract :=
  mkPrecompiled (multiExpGas 256 Bls12381G2MulGas) (blsMultiExp (blsG2 C) 256).

Fixpoint pairing_pairs (k : nat) (off : Z) (input : bytes)
  : option (list (point (blsG1 C) * point (blsG2 C)) + Z) :=
  match k with
  | O => Some (inl [])
  | S k =>
      let '(t0, t1, t2) := (off, off + 128, off + 384) in
      b1 ← sub_slice t0 t1 input;
      match Unmarshal (blsG1 C) b1 with
      | inr e => Some (inr e)
      | inl p1 =>
          b2 ← sub_slice t1 t2 input;
          match Unmarshal (blsG2 C) b2 with
          | inr e => Some (inr e)
          | inl p2 =>
              if negb (InCorrectSubgroup (blsG1 C) p1) then Some (inr errBLS12381G1PointSubgroup)
              else if negb (InCorrectSubgroup (blsG2 C) p2) then Some (inr errBLS12381G2PointSubgroup)
              else
                r ← pairing_pairs k (off + 384) input;
                Some (match r with inl l => inl ((p1, p2) :: l) | inr e => inr e end)
          end
      end
  end.
Definition bls12381Pairing_Run (input : bytes) : run_result :=
  let k := len input / 384 in
  if (len input =? 0) || negb (len input mod 384 =? 0) then fail errBLS12381InvalidInputLength
  else
    r ← pairing_pairs (Z.to_nat k) 0 input;
    match r with inr e => fail e | inl l => ok (replicate 31 0 ++ [if blsPairingCheck C l then 1 else 0]) end.
Definition bls12381Pairing : PrecompiledContract :=
  mkPrecompiled (fun input => Some (add64 Bls12381PairingBaseGas (mul64 (len input / 384) Bls12381PairingPerPairGas)))
    bls12381Pairing_Run.

Definition decodeBLS12381FieldElement (input : bytes) : option (bytes + Z) :=
  if negb (len input =? 64) then Some (inr errFieldElementLength)
  else
    top ← sub_slice 0 16 input;
    if negb (allZero top) then Some (inr errBLS12381InvalidFieldElementTopBytes)
    else out ← sub_slice 16 64 input; Some (inl out).
Definition bls12381MapG1_Run (input : bytes) : run_result :=
  if negb (len input =? 64) then fail errBLS12381InvalidInputLength
  else
    fe ← decodeBLS12381FieldElement input;
    match fe with
    | inr e => fail e
    | inl fe => match MapToCurve (blsG1 C) fe with inr e => fail e | inl r => ok (Marshal (blsG1 C) r) end
    end.
Definition bls12381MapG1 : PrecompiledContract := mkPrecompiled (fun _ => Some Bls12381MapG1Gas) bls12381MapG1_Run.
Definition bls12381MapG2_Run (input : bytes) : run_result :=
  if negb (len input =? 128) then fail errBLS12381InvalidInputLength
  else
    b0 ← sub_slice 0 64 input;
    c0 ← decodeBLS12381FieldElement b0;
    match c0 with
    | inr e => fail e
    | inl c0 =>
        b1 ← sub_slice 64 (len input) input;
        c1 ← decodeBLS12381FieldElement b1;
        match c1 with
        | inr e => fail e
        | inl c1 =>
            let fe := c1 ++ c0 in
            match MapToCurve (blsG2 C) fe with inr e => fail e | inl r => ok (Marshal (blsG2 C) r) end
        end
    end.
Definition bls12381MapG2 : PrecompiledContract := mkPrecompiled (fun _ => Some Bls12381MapG2Gas) bls12381MapG2_Run.

(** ** The console: prints what it can decode.  [decodes] says whether the
    arguments behind a known selector decode; if not, [Ensure] panics. *)
Context (known : bytes -> bool) (decodes : bytes -> bytes -> bool).
Definition Console_Run (input : bytes) : run_result :=
  id ← sub_slice 0 4 input;
  if known id then
    args ← sub_slice 4 (len input) input;
    if decodes id args then ok [] else None
  else ok [].
Definition Console : PrecompiledContract := mkPrecompiled (fun _ => Some 0) Console_Run.

(** ** The tables *)
Definition BytesToAddress (b : bytes) : Address :=
  let b := if 20 <? len b then drop (length b - 20) b else b in replicate (20 - length b) 0 ++ b.
Definition ConsoleAddress : Address := BytesToAddress [0; 0; 0; 0x63; 0x6f; 0x6e; 0x73; 0x6f; 0x6c; 0x65; 0x2e; 0x6c; 0x6f; 0x67].
Definition PrecompiledContractsHomestead : list (Address * PrecompiledContract) :=
  [(BytesToAddress [1], ecrecover); (BytesToAddress [2], sha256hash); (BytesToAddress [3], ripemd160hash);
   (BytesToAddress [4], dataCopy)].
Definition PrecompiledContractsByzantium : list (Address * PrecompiledContract) :=
  [(BytesToAddress [1], ecrecover); (BytesToAddress [2], sha256hash); (BytesToAddress [3], ripemd160hash);
   (BytesToAddress [4], dataCopy); (BytesToAddress [5], bigModExp false); (BytesToAddress [6], bn256AddByzantium);
   (BytesToAddress [7], bn256ScalarMulByzantium); (BytesToAddress [8], bn256PairingByzantium)].
Definition PrecompiledContractsIstanbul : list (Address * PrecompiledContract) :=
  [(BytesToAddress [1], ecrecover); (BytesToAddress [2], sha256hash); (BytesToAddress [3], ripemd160hash);
   (BytesToAddress [4], dataCopy); (BytesToAddress [5], bigModExp false); (BytesToAddress [6], bn256AddIstanbul);
   (BytesToAddress [7], bn256ScalarMulIstanbul); (BytesToAddress [8], bn256PairingIstanbul); (BytesToAddress [9], blake2F)].
Definition PrecompiledContractsYoloV2 : list (Address * PrecompiledContract) :=
  [(BytesToAddress [1], ecrecover); (BytesToAddress [2], sha256hash); (BytesToAddress [3], ripemd160hash);
   (BytesToAddress [4], dataCopy); (BytesToAddress [5], bigModExp false); (BytesToAddress [6], bn256AddIstanbul);
   (BytesToAddress [7], bn256ScalarMulIstanbul); (BytesToAddress [8], bn256PairingIstanbul); (BytesToAddress [9], blake2F);
   (BytesToAddress [10], bls12381G1Add); (BytesToAddress [11], bls12381G1Mul); (BytesToAddress [12], bls12381G1MultiExp);
   (BytesToAddress [13], bls12381G2Add); (BytesToAddress [14], bls12381G2Mul); (BytesToAddress [15], bls12381G2MultiExp);
   (BytesToAddress [16], bls12381Pairing); (BytesToAddress [17], bls12381MapG1); (BytesToAddress [18], bls12381MapG2)].
Definition find_contract (addr : Address) (l : list (Address * PrecompiledContract)) : option PrecompiledContract :=
  '(_, e) ← list_find (fun e => e.1 = addr) l; Some e.2.
(** [EVM.precompile]: the table of the fork, with the console added to it. *)
Definition evm_precompile (r : Rules) (addr : Address) : option PrecompiledContract :=
  let precompiles :=
    if rIsYoloV2 r then PrecompiledContractsYoloV2
    else if rIsIstanbul r then PrecompiledContractsIstanbul
    else if rIsByzantium r then PrecompiledContractsByzantium
    else PrecompiledContractsHomestead in
  find_contract addr (precompiles ++ [(ConsoleAddress, Console)]).
End Contracts.
