(* ===== verification/PrecompileFacts.v ===== *)
(** * Facts on the precompiled contracts

    Reading zero-extended windows of the input; modular exponentiation against
    EIP-198; and that no contract of the tables panics on an input whose gas can
    be paid ([precompile_ok]). *)

From Stdlib Require Import Zpow_facts.
From S2P Require Import Prelude Words Uint256 Uint256Arith Uint256Div Uint256Bits Params Config Stack Memory.
From S2P Require Import Opcodes Analysis State Blake2b Blake2bFacts BigInt Precompiles.

#[local] Strategy opaque [be_val].
(** ** Windows of the input *)
(** The [size] bytes from [start] on, zeros behind the end. *)
Definition window (l : bytes) (start size : Z) : bytes :=
  (fun j => default 0 (l !! (Z.to_nat start + j)%nat)) <$> seq 0 (Z.to_nat size).
Lemma window_length l start size : 0 <= size -> len (window l start size) = size.
Proof. intros H. unfold window, len. rewrite length_fmap, length_seq. lia. Qed.
Lemma window_ok l start size : bytes_ok l -> bytes_ok (window l start size).
Proof.
  intros Hl. unfold window. apply Forall_fmap, list.Forall_forall. intros j _. cbn. destruct (l !! _) as [b|] eqn:E; cbn.
  - rewrite list.Forall_lookup in Hl. by eapply Hl.
  - unfold is_byte. lia.
Qed.
Lemma window_bound l start size : bytes_ok l -> 0 <= size -> 0 <= be_val (window l start size) < 256 ^ size.
Proof.
  intros Hl Hs. pose proof (be_val_bound _ (window_ok l start size Hl)) as B. pose proof (window_length l start size Hs) as E.
  unfold len in E. by rewrite E in B.
Qed.
Lemma slice_lookup a b (l : bytes) i : 0 <= a <= b -> b <= len l ->
  slice a b l !! i = if decide (Z.of_nat i < b - a) then l !! (Z.to_nat a + i)%nat else None.
Proof.
  intros H Hb. unfold slice, len in *. case_decide.
  - by rewrite lookup_take_lt, lookup_drop by lia.
  - by rewrite lookup_take_ge by lia.
Qed.
Lemma data_at_window l start size : is_u64 start -> 0 <= size <= maxAlloc -> len l <= max_slice ->
  data_at l start size = Some (window l start size).
Proof.
  intros Hs Hz Hl. unfold data_at. assert (to_int64 size = size) as -> by (unfold to_int64, maxAlloc in *; destruct (Z.ltb_spec size 9223372036854775808); lia).
  destruct (Z.ltb_spec maxAlloc size); [lia|]. rewrite getData_spec by (unfold maxAlloc, max_slice in *; done || lia). f_equal. set (a := Z.min start (len l)). set (b := Z.min (a + size) (len l)).
  unfold is_u64 in Hs. assert (0 <= len l) as Hn by (unfold len; lia). assert (0 <= a <= b /\ b <= len l) as [Hab Hbl] by lia.
  pose proof (length_slice a b l ltac:(lia) ltac:(lia) Hbl) as Hsl.
  apply list_eq. intros i. unfold window. rewrite list_lookup_fmap.
  destruct (decide (Z.of_nat i < size)) as [Hi|Hi].
  - rewrite lookup_seq_lt by lia. cbn [fmap option_fmap option_map]. rewrite Nat.add_0_l.
    destruct (decide (Z.of_nat i < b - a)).
    + rewrite lookup_app_l by (unfold len in *; lia). rewrite slice_lookup, decide_True by done.
      replace (Z.to_nat a) with (Z.to_nat start) by lia.
      destruct (l !! (Z.to_nat start + i)%nat) eqn:E; [done|]. apply lookup_ge_None in E. unfold len in *. lia.
    + rewrite lookup_app_r by (unfold len in *; lia). rewrite lookup_replicate_2 by (unfold len in *; lia).
      rewrite (lookup_ge_None_2 l) by (unfold len in *; lia). done.
  - rewrite (lookup_ge_None_2 (seq _ _)) by (rewrite length_seq; lia). apply lookup_ge_None_2. rewrite length_app, length_replicate. unfold len in *. lia.
Qed.
Lemma tail96_window l start size : 0 <= start -> window (tail96 l) start size = window l (96 + start) size.
Proof.
  intros Hs. unfold window, tail96. apply list_fmap_ext. intros i j _. destruct (Z.ltb_spec 96 (len l)).
  - rewrite lookup_drop. f_equal. f_equal. lia.
  - rewrite lookup_nil, (lookup_ge_None_2 l) by (unfold len in *; lia). done.
Qed.
Lemma tail96_len l : len (tail96 l) = Z.max 0 (len l - 96).
Proof. unfold tail96. destruct (Z.ltb_spec 96 (len l)); [unfold len in *; rewrite length_drop; lia|]. unfold len in *. cbn. lia. Qed.
Lemma window_behind l start size : len l <= start -> be_val (window l start size) = 0.
Proof.
  intros H. assert (window l start size = replicate (Z.to_nat size) 0) as ->.
  { unfold window. apply list_eq. intros i. rewrite list_lookup_fmap. destruct (decide (i < Z.to_nat size)%nat).
    - rewrite lookup_seq_lt, lookup_replicate_2 by lia. cbn. rewrite (lookup_ge_None_2 l) by (unfold len in *; lia). done.
    - rewrite (lookup_ge_None_2 (seq _ _)) by (rewrite length_seq; lia). symmetry. apply lookup_ge_None_2. rewrite length_replicate. lia. }
  rewrite <- (app_nil_r (replicate _ _)). apply be_val_replicate0.
Qed.
Lemma sub_slice_window l a b : 0 <= a <= b -> b <= len l -> sub_slice a b l = Some (window l a (b - a)).
Proof.
  intros H Hb. unfold sub_slice. rewrite (proj2 (slice_ok_true a b l)) by lia. f_equal. apply list_eq. intros i.
  rewrite slice_lookup by done. unfold window. rewrite list_lookup_fmap. case_decide.
  - rewrite lookup_seq_lt by lia. cbn. destruct (l !! (Z.to_nat a + i)%nat) eqn:E; [done|]. apply lookup_ge_None in E. unfold len in *. lia.
  - rewrite (lookup_ge_None_2 (seq _ _)) by (rewrite length_seq; lia). done.
Qed.

(** ** Numbers as bytes *)
Lemma LeftPad_be x n : 0 <= n <= maxAlloc -> 0 <= x < 256 ^ n -> LeftPadBytes (bigBytes x) n = Some (be_bytes (Z.to_nat n) x).
Proof.
  intros Hn Hx. destruct (bigBytes_ok x ltac:(lia)) as (Hb & Hv). pose proof (bigBytes_len x n ltac:(lia) Hx) as Hl.
  assert (forall l, bytes_ok l -> len l = n -> be_val l = x -> l = be_bytes (Z.to_nat n) x) as Huniq.
  { intros l Hbl Hlen <-. rewrite <- Hlen. unfold len. rewrite Nat2Z.id. by rewrite be_bytes_be_val. }
  unfold LeftPadBytes. destruct (Z.leb_spec n (len (bigBytes x))).
  - f_equal. apply Huniq; [done|lia|done].
  - destruct (Z.ltb_spec maxAlloc n); [lia|]. f_equal. apply Huniq.
    + apply Forall_app; split; [apply bytes_ok_replicate|done].
    + unfold len in *. rewrite length_app, length_replicate. lia.
    + by rewrite be_val_replicate0.
Qed.

(** ** EIP-198 *)
Definition mult_complexity (x : Z) : Z :=
  if x <=? 64 then x ^ 2 else if x <=? 1024 then x ^ 2 / 4 + 96 * x - 3072 else x ^ 2 / 16 + 480 * x - 199680.
(** The length of the exponent in bits, counting bytes behind the first 32 in
    full; [B] and [E] are the lengths of base and exponent. *)
Definition adjusted_exponent_length (input : bytes) (B E : Z) : Z :=
  let head := be_val (window input (96 + B) (Z.min E 32)) in
  let bits := if head =? 0 then 0 else Z.log2 head in
  if E <=? 32 then bits else 8 * (E - 32) + bits.
Definition gas_198 (input : bytes) (B E M : Z) : Z :=
  mult_complexity (Z.max M B) * Z.max (adjusted_exponent_length input B E) 1 / 20.
Definition result_198 (input : bytes) (B E M : Z) : bytes :=
  let b := be_val (window input 96 B) in
  let e := be_val (window input (96 + B) E) in
  let m := be_val (window input (96 + B + E) M) in
  be_bytes (Z.to_nat M) (if m =? 0 then 0 else b ^ e mod m).
Definition length_at (input : bytes) (i : Z) : Z := be_val (window input i 32).
Definition eip198_gas (input : bytes) : Z := gas_198 input (length_at input 0) (length_at input 32) (length_at input 64).
Definition eip198_result (input : bytes) : bytes :=
  result_198 input (length_at input 0) (length_at input 32) (length_at input 64).

Lemma mult_complexity_eq x : modexpMultComplexity x = mult_complexity x.
Proof. unfold modexpMultComplexity, mult_complexity. rewrite Z.pow_2_r. destruct (x <=? 64); [done|]. destruct (x <=? 1024); lia. Qed.
Lemma mult_complexity_lower x : 0 <= x -> x <= mult_complexity x /\ x ^ 2 <= 16 * mult_complexity x + 16.
Proof.
  intros Hx. unfold mult_complexity. rewrite Z.pow_2_r. destruct (Z.leb_spec x 64); [nia|]. destruct (Z.leb_spec x 1024).
  - pose proof (Z.div_mod (x * x) 4 ltac:(lia)). pose proof (Z.mod_pos_bound (x * x) 4 ltac:(lia)). nia.
  - pose proof (Z.div_mod (x * x) 16 ltac:(lia)). pose proof (Z.mod_pos_bound (x * x) 16 ltac:(lia)). nia.
Qed.
Lemma exp_head input B E : 0 <= B -> 0 <= E -> len input <= max_slice ->
  (if len (tail96 input) <=? B then Some 0
   else if 32 <? E then d ← data_at (tail96 input) (u64 B) 32; Some (be_val d)
   else d ← data_at (tail96 input) (u64 B) (u64 E); Some (be_val d))
  = Some (be_val (window input (96 + B) (Z.min E 32))).
Proof.
  intros HB HE Hl. pose proof (tail96_len input) as Ht. destruct (Z.leb_spec (len (tail96 input)) B) as [Hle|Hgt].
  - rewrite window_behind; [done|lia].
  - assert (u64 B = B) as -> by (apply Z.mod_small; unfold max_slice in *; lia).
    assert (is_u64 B) as Hu by (unfold is_u64, max_slice in *; lia). destruct (Z.ltb_spec 32 E).
    + rewrite data_at_window by (try done; unfold maxAlloc, max_slice in *; lia). cbn [mbind option_bind].
      rewrite tail96_window by lia. by rewrite Z.min_r by lia.
    + assert (u64 E = E) as -> by (apply Z.mod_small; lia).
      rewrite data_at_window by (try done; unfold maxAlloc, max_slice in *; lia). cbn [mbind option_bind].
      rewrite tail96_window by lia. by rewrite Z.min_l by lia.
Qed.
Lemma adjusted_spec input B E head : 0 <= head -> head = be_val (window input (96 + B) (Z.min E 32)) ->
  (if 32 <? E then 8 * (E - 32) else 0) + (if 0 <? BitLen head then BitLen head - 1 else 0) = adjusted_exponent_length input B E.
Proof.
  intros Hh Eh. unfold adjusted_exponent_length. rewrite <- Eh. cbv zeta.
  assert ((if 0 <? BitLen head then BitLen head - 1 else 0) = if head =? 0 then 0 else Z.log2 head) as ->.
  { unfold BitLen. rewrite (Z.abs_eq head) by done. destruct (Z.eqb_spec head 0); [done|]. pose proof (Z.log2_nonneg head). destruct (Z.ltb_spec 0 (Z.log2 head + 1)); lia. }
  destruct (Z.ltb_spec 32 E), (Z.leb_spec E 32); lia.
Qed.
Lemma gas_nonneg input B E M : 0 <= B -> 0 <= M -> 0 <= gas_198 input B E M.
Proof.
  intros HB HM. unfold gas_198. apply Z.div_pos; [|lia].
  destruct (mult_complexity_lower (Z.max M B)) as [H _]; [lia|]. nia.
Qed.
Lemma modexpGas_ok input B E M : bytes_ok input -> len input <= max_slice -> 0 <= B -> 0 <= E -> 0 <= M ->
  modexpGas false input B E M = Some (Z.min MaxUint64 (gas_198 input B E M)).
Proof.
  intros Hb Hl HB HE HM. unfold modexpGas. cbv zeta. rewrite exp_head by done. cbn [mbind option_bind].
  pose proof (proj1 (be_val_bound _ (window_ok input (96 + B) (Z.min E 32) Hb))) as Hh.
  rewrite (adjusted_spec input B E _ Hh eq_refl). rewrite !BigMax_max, mult_complexity_eq.
  pose proof (gas_nonneg input B E M HB HM) as H0. unfold gas_198 in *.
  generalize dependent (mult_complexity (Z.max M B) * Z.max (adjusted_exponent_length input B E) 1 / 20).
  intros g H0. rewrite BitLen_gt by lia. change (2 ^ 64) with W. unfold MaxUint64.
  destruct (Z.leb_spec W g); [f_equal; lia|]. unfold u64. rewrite Z.mod_small by lia. f_equal. lia.
Qed.
(** What can be paid for is small. *)
Lemma affordable input B E M : 0 <= B -> 0 <= E -> 0 <= M -> gas_198 input B E M < 2 ^ 46 ->
  B < 2 ^ 32 /\ M < 2 ^ 32 /\ (B = 0 /\ M = 0 \/ E < 2 ^ 48).
Proof.
  intros HB HE HM Hg. unfold gas_198 in Hg. set (X := Z.max M B) in *. set (A := adjusted_exponent_length input B E) in *.
  destruct (mult_complexity_lower X) as [H1 H2]; [lia|].
  assert (mult_complexity X * Z.max A 1 < 20 * 2 ^ 46) as Hlt.
  { pose proof (Z.div_mod (mult_complexity X * Z.max A 1) 20 ltac:(lia)).
    pose proof (Z.mod_pos_bound (mult_complexity X * Z.max A 1) 20 ltac:(lia)). lia. }
  assert (mult_complexity X < 20 * 2 ^ 46) as Hm by nia.
  assert (X < 2 ^ 32) as HX. { apply Z.nle_gt. intros Hc. assert (2 ^ 64 <= X ^ 2) by (rewrite Z.pow_2_r; nia). lia. }
  split; [lia|]. split; [lia|]. destruct (Z.eq_dec X 0) as [E0|E0]; [left; lia|]. right.
  assert (A < 20 * 2 ^ 46) as HA by nia. unfold A, adjusted_exponent_length in HA. cbv zeta in HA.
  destruct (Z.leb_spec E 32); [lia|].
  match type of HA with context [if ?c then 0 else Z.log2 ?h] => pose proof (Z.log2_nonneg h); destruct c end; lia.
Qed.
(** [Run] allocates its operands, and returns when each can be allocated. *)
Definition allocatable (B E M : Z) : bool := (B =? 0) && (M =? 0) || (Z.max B (Z.max E M) <=? maxAlloc).
Lemma data_at_huge l start size : maxAlloc < size < 2 ^ 63 -> data_at l start size = None.
Proof.
  intros Hs. unfold data_at. assert (to_int64 size = size) as -> by (unfold to_int64; destruct (Z.ltb_spec size 9223372036854775808); lia).
  by destruct (Z.ltb_spec maxAlloc size); [|lia].
Qed.
Lemma modexpRun_small input B E M : bytes_ok input -> len input <= max_slice -> 0 <= B <= maxAlloc -> 0 <= E <= maxAlloc -> 0 <= M <= maxAlloc ->
  modexpRun input B E M = Some (Fresh (result_198 input B E M), None).
Proof.
  intros Hb Hl HB HE HM. unfold modexpRun, result_198. cbv zeta. unfold maxAlloc in HB, HE, HM.
  destruct ((B =? 0) && (M =? 0)) eqn:Ez.
  { apply andb_true_iff in Ez as [_ EM%Z.eqb_eq]. by rewrite EM. }
  assert (len (tail96 input) <= max_slice) as Hl' by (rewrite tail96_len; unfold max_slice in *; lia).
  rewrite add64_nowrap by (unfold is_u64; lia).
  rewrite !data_at_window by (try done; unfold is_u64, maxAlloc, max_slice in *; lia).
  cbn [mbind option_bind]. rewrite !tail96_window by lia. rewrite Z.add_0_r, Z.add_assoc.
  pose proof (window_bound input 96 B Hb ltac:(lia)) as Hb1. pose proof (window_bound input (96 + B) E Hb ltac:(lia)) as Hb2.
  pose proof (window_bound input (96 + B + E) M Hb ltac:(lia)) as Hb3.
  generalize dependent (be_val (window input 96 B)). generalize dependent (be_val (window input (96 + B) E)).
  generalize dependent (be_val (window input (96 + B + E) M)). intros m Hm e He b Hbb.
  assert (to_int64 M = M) as -> by (unfold to_int64; destruct (Z.ltb_spec M 9223372036854775808); lia).
  assert (forall x, 0 <= x < 256 ^ M -> LeftPadBytes (bigBytes x) M = Some (be_bytes (Z.to_nat M) x)) as Hpad
    by (intros x Hx; apply LeftPad_be; [unfold maxAlloc; lia|done]).
  assert ((BitLen m =? 0) = (m =? 0)) as -> by
    (unfold BitLen; destruct (Z.eqb_spec m 0); [done|]; pose proof (Z.log2_nonneg (Z.abs m)); apply Z.eqb_neq; lia).
  destruct (Z.eqb_spec m 0) as [m0|m0].
  - change (LeftPadBytes [] M) with (LeftPadBytes (bigBytes 0) M). rewrite Hpad by (split; [lia|apply Z.pow_pos_nonneg; lia]). done.
  - rewrite Zpow_mod_correct by lia. pose proof (Z.mod_pos_bound (b ^ e) m ltac:(lia)). rewrite Hpad by lia. done.
Qed.
Lemma modexpRun_exact input B E M : bytes_ok input -> len input <= max_slice -> 0 <= B < 2 ^ 63 -> 0 <= E < 2 ^ 63 -> 0 <= M < 2 ^ 63 ->
  modexpRun input B E M = if allocatable B E M then Some (Fresh (result_198 input B E M), None) else None.
Proof.
  intros Hb Hl HB HE HM. unfold allocatable. destruct ((B =? 0) && (M =? 0)) eqn:Ez; cbn [orb].
  { unfold modexpRun, result_198. rewrite Ez. apply andb_true_iff in Ez as [_ EM%Z.eqb_eq]. by rewrite EM. }
  assert (len (tail96 input) <= max_slice) as Hl' by (rewrite tail96_len; unfold max_slice in *; lia).
  destruct (Z.leb_spec (Z.max B (Z.max E M)) maxAlloc) as [|Hbig]; [by apply modexpRun_small; [..|lia|lia|lia]|].
  unfold modexpRun. rewrite Ez. cbv zeta.
  destruct (Z.ltb_spec maxAlloc B); [by rewrite (data_at_huge _ 0 B) by lia|]. rewrite (data_at_window _ 0 B) by (try done; unfold is_u64; lia). cbn [mbind option_bind].
  destruct (Z.ltb_spec maxAlloc E); [by rewrite (data_at_huge _ B E) by lia|]. rewrite (data_at_window _ B E) by (try done; unfold is_u64, maxAlloc in *; lia). cbn [mbind option_bind].
  by rewrite data_at_huge by lia.
Qed.
Lemma modexpRun_ok input B E M : bytes_ok input -> len input <= max_slice -> 0 <= B -> 0 <= E -> 0 <= M ->
  gas_198 input B E M < 2 ^ 46 -> modexpRun input (u64 B) (u64 E) (u64 M) = Some (Fresh (result_198 input B E M), None).
Proof.
  intros Hb Hl HB0 HE0 HM0 Hg. destruct (affordable input B E M HB0 HE0 HM0 Hg) as (HB & HM & HE).
  assert (u64 B = B) as -> by (apply Z.mod_small; lia). assert (u64 M = M) as -> by (apply Z.mod_small; lia).
  destruct HE as [[-> ->]|HE]; [done|]. assert (u64 E = E) as -> by (apply Z.mod_small; lia).
  apply modexpRun_small; try done; unfold maxAlloc; lia.
Qed.
Lemma length_at_nonneg input i : bytes_ok input -> 0 <= length_at input i.
Proof. intros Hb. unfold length_at. apply be_val_bound, window_ok, Hb. Qed.
Lemma data_length input i : len input <= max_slice -> is_u64 i -> data_at input i 32 = Some (window input i 32).
Proof. intros Hl Hi. apply data_at_window; [exact Hi|unfold maxAlloc; lia|exact Hl]. Qed.
Lemma bigModExp_lengths input bl el ml : data_at input 0 32 = Some bl -> data_at input 32 32 = Some el -> data_at input 64 32 = Some ml ->
  forall B E M, be_val bl = B -> be_val el = E -> be_val ml = M ->
  bigModExp_RequiredGas false input = modexpGas false input B E M /\ bigModExp_Run input = modexpRun input (u64 B) (u64 E) (u64 M).
Proof. intros Hb He Hm B E M <- <- <-. unfold bigModExp_RequiredGas, bigModExp_Run. rewrite Hb, He, Hm. split; reflexivity. Qed.
Lemma bigModExp_ok input : bytes_ok input -> len input <= max_slice ->
  bigModExp_RequiredGas false input = Some (Z.min MaxUint64 (eip198_gas input)) /\
  (eip198_gas input < 2 ^ 46 -> bigModExp_Run input = Some (Fresh (eip198_result input), None)) /\
  (length_at input 0 < 2 ^ 63 -> length_at input 32 < 2 ^ 63 -> length_at input 64 < 2 ^ 63 ->
    bigModExp_Run input = if allocatable (length_at input 0) (length_at input 32) (length_at input 64)
                          then Some (Fresh (eip198_result input), None) else None).
Proof.
  intros Hb Hl. pose proof (length_at_nonneg input 0 Hb) as HB. pose proof (length_at_nonneg input 32 Hb) as HE. pose proof (length_at_nonneg input 64 Hb) as HM.
  destruct (bigModExp_lengths input _ _ _ (data_length input 0 Hl ltac:(unfold is_u64; lia)) (data_length input 32 Hl ltac:(unfold is_u64; lia)) (data_length input 64 Hl ltac:(unfold is_u64; lia))
              _ _ _ eq_refl eq_refl eq_refl) as [-> ->].
  split; [exact (modexpGas_ok input _ _ _ Hb Hl HB HE HM)|]. split; [exact (modexpRun_ok input _ _ _ Hb Hl HB HE HM)|].
  intros HB' HE' HM'. fold (length_at input 0) (length_at input 32) (length_at input 64).
  unfold u64. rewrite (Z.mod_small (length_at input 0)), (Z.mod_small (length_at input 32)), (Z.mod_small (length_at input 64)) by lia.
  by apply modexpRun_exact.
Qed.

(** ** No contract panics on what it was paid for *)
(** What the curves and hashes promise: lengths of their results. *)
Record curve_ok (g : Curve) (n : Z) : Prop := {
  marshal_ok p : bytes_ok (Marshal g p) /\ len (Marshal g p) = n;
}.
Record crypto_ok (C : Crypto) : Prop := {
  keccak_ok b : bytes_ok (Keccak256 C b) /\ len (Keccak256 C b) = 32;
  sha256_ok b : bytes_ok (sha256Sum C b) /\ len (sha256Sum C b) = 32;
  ripemd_ok b : bytes_ok (ripemd160Sum C b) /\ len (ripemd160Sum C b) = 20;
  ecrecover_ok h s k : Ecrecover C h s = Some k -> len k = 65;
  bn1_ok : curve_ok (bnG1 C) 64;
  bls1_ok : curve_ok (blsG1 C) 128;
  bls2_ok : curve_ok (blsG2 C) 256;
}.
Definition output_ok (r : ret_slice) : Prop := match r with Fresh b => is_slice b | InputSlice => True end.
Definition returns (r : run_result) : Prop := exists out err, r = Some (out, err) /\ output_ok out.
Definition safe_on (p : PrecompiledContract) (input : bytes) : Prop :=
  (exists g, RequiredGas p input = Some g /\ is_u64 g /\ (g < 2 ^ 46 -> returns (RunP p input))) /\
  (forall out err, RunP p input = Some (out, err) -> output_ok out).
Definition precompile_ok (p : PrecompiledContract) : Prop := forall input, is_slice input -> safe_on p input.
Lemma returns_safe p input g : RequiredGas p input = Some g -> is_u64 g -> returns (RunP p input) -> safe_on p input.
Proof.
  intros Hg Hu Hr. split; [by exists g|]. intros out err E. destruct Hr as (o & e & E' & Ho). rewrite E' in E. by simplify_eq.
Qed.

Lemma returns_ok b : bytes_ok b -> len b <= max_slice -> returns (ok b).
Proof. intros Hb Hl. by exists (Fresh b), None. Qed.
Lemma returns_fail e : returns (fail e).
Proof. exists (Fresh []), (Some (ErrPrecompile e)). split; [done|]. split; [constructor|done]. Qed.
Lemma returns_bytes b n : bytes_ok b /\ len b = n -> n <= max_slice -> returns (ok b).
Proof. intros [Hb <-] Hn. by apply returns_ok. Qed.
Lemma sub_slice_some a b l : 0 <= a <= b -> b <= len l -> exists r, sub_slice a b l = Some r /\ len r = b - a /\ (bytes_ok l -> bytes_ok r).
Proof.
  intros H Hb. exists (window l a (b - a)). split_and!; [by apply sub_slice_window|apply window_length; lia|apply window_ok].
Qed.
Lemma data_at_some l start size : is_slice l -> is_u64 start -> 0 <= size <= 2 ^ 32 -> exists d, data_at l start size = Some d.
Proof. intros [_ Hl] Hs Hz. eexists. apply data_at_window; [done|unfold maxAlloc; lia|done]. Qed.
Ltac cut_slice := match goal with |- context [sub_slice ?a ?b ?l] =>
  let r := fresh "r" in let E := fresh "E" in
  destruct (sub_slice_some a b l) as (r & E & ? & ?); [lia|lia|rewrite E; clear E; cbn [mbind option_bind]] end.
Ltac cut_data := match goal with |- context [data_at ?l ?s ?n] =>
  let d := fresh "d" in let E := fresh "E" in
  destruct (data_at_some l s n) as (d & E); [assumption|unfold is_u64; lia|lia|rewrite E; clear E; cbn [mbind option_bind]] end.
Create HintDb precompiles.
#[local] Hint Resolve returns_fail returns_ok : precompiles.
Lemma free_contract gas run : is_u64 gas -> (forall input, is_slice input -> returns (run input)) ->
  precompile_ok (mkPrecompiled (fun _ => Some gas) run).
Proof. intros Hg Hr input Hi. by eapply returns_safe; [..|apply Hr]. Qed.
Lemma priced_contract gas run : (forall input, exists g, gas input = Some g /\ is_u64 g) -> (forall input, is_slice input -> returns (run input)) ->
  precompile_ok (mkPrecompiled gas run).
Proof. intros Hg Hr input Hi. destruct (Hg input) as (g & ? & ?). by eapply returns_safe; [..|apply Hr]. Qed.
Lemma priceWords_ok perWord base input : exists g, priceWords perWord base input = Some g /\ is_u64 g.
Proof. eexists. split; [done|]. apply add64_range. Qed.
Lemma LeftPad_some b n : bytes_ok b -> len b <= n -> 0 <= n <= maxAlloc -> exists r, LeftPadBytes b n = Some r /\ bytes_ok r /\ len r = n.
Proof.
  intros Hb Hl Hn. unfold LeftPadBytes. destruct (Z.leb_spec n (len b)); [exists b; split_and!; (done || lia)|].
  destruct (Z.ltb_spec maxAlloc n); [lia|]. eexists. split; [done|]. split; [apply Forall_app; split; [apply bytes_ok_replicate|done]|].
  unfold len in *. rewrite length_app, length_replicate. lia.
Qed.
Ltac slice_size := unfold maxAlloc, max_slice; lia.

Section Safety.
Context (C : Crypto) (HC : crypto_ok C).

Lemma ecrecover_safe : precompile_ok (ecrecover C).
Proof.
  apply free_contract; [done|]. intros input [Hb Hl]. unfold ecrecover_Run. cbv zeta. set (i := RightPadBytes input 128).
  assert (bytes_ok i /\ 128 <= len i) as [Hbi Hli].
  { unfold i, RightPadBytes. destruct (Z.leb_spec 128 (len input)); [done|]. split; [apply Forall_app; split; [done|apply bytes_ok_replicate]|].
    unfold len in *. rewrite length_app, length_replicate. lia. }
  clearbody i. do 5 cut_slice. destruct (i !! 63%nat) as [v|] eqn:Ev; [|apply lookup_ge_None in Ev; unfold len in Hli; lia].
  cbn [mbind option_bind]. match goal with |- context [if ?c then _ else _] => destruct c end; [apply returns_ok; [constructor|done]|].
  destruct (Ecrecover C _ _) as [k|] eqn:Ek; [|apply returns_ok; [constructor|done]].
  pose proof (ecrecover_ok C HC _ _ _ Ek) as Hk. cut_slice.
  match goal with |- context [Keccak256 C ?x] => destruct (keccak_ok C HC x) as [Hkb Hkl]; revert Hkb Hkl; generalize (Keccak256 C x); intros kk Hkb Hkl end.
  cut_slice. match goal with |- context [LeftPadBytes ?x 32] => destruct (LeftPad_some x 32) as (o & -> & Ho & Hol); [tauto|lia|slice_size|] end. cbn [mbind option_bind].
  apply returns_ok; [done|slice_size].
Qed.
Lemma sha256hash_safe : precompile_ok (sha256hash C).
Proof.
  apply priced_contract; [apply priceWords_ok|]. intros input _. eapply returns_bytes; [apply HC|slice_size].
Qed.
Lemma ripemd160hash_safe : precompile_ok (ripemd160hash C).
Proof.
  apply priced_contract; [apply priceWords_ok|]. intros input _. destruct (ripemd_ok C HC input) as [Hb Hl].
  destruct (LeftPad_some (ripemd160Sum C input) 32) as (o & -> & Ho & Hol); [done|lia|slice_size|]. apply returns_ok; [done|slice_size].
Qed.
Lemma dataCopy_safe : precompile_ok dataCopy.
Proof. apply priced_contract; [apply priceWords_ok|]. intros input _. by exists InputSlice, None. Qed.
Lemma data_at_len l start size d : is_slice l -> data_at l start size = Some d -> bytes_ok d /\ len d <= max_slice.
Proof.
  intros [Hb Hl]. unfold data_at. destruct (Z.ltb_spec maxAlloc (to_int64 size)) as [|Hs]; [done|]. unfold maxAlloc in Hs. unfold max_slice in *. unfold getData. cbv zeta.
  match goal with |- context [slice_ok ?a ?b ?x] => destruct (slice_ok a b x) eqn:Es; [|done] end. intros [= <-].
  apply slice_ok_true in Es. match goal with |- context [slice ?a ?b l] => pose proof (length_slice a b l ltac:(lia) ltac:(lia) ltac:(lia)) as Hsl;
    pose proof (bytes_ok_slice a b l Hb) as Hsb; revert Hsl Hsb; generalize (slice a b l); intros x Hsl Hsb end.
  unfold RightPadBytes. destruct (Z.leb_spec (to_int64 size) (len x)); [split; [done|lia]|].
  split; [apply Forall_app; split; [done|apply bytes_ok_replicate]|]. unfold len in *. rewrite length_app, length_replicate. lia.
Qed.
Lemma LeftPad_len b n r : bytes_ok b -> len b <= max_slice -> LeftPadBytes b n = Some r -> is_slice r.
Proof.
  intros Hb Hl. unfold LeftPadBytes. destruct (Z.leb_spec n (len b)); [by intros [= <-]|]. destruct (Z.ltb_spec maxAlloc n) as [|Hn]; [done|]. unfold maxAlloc in Hn. unfold is_slice, max_slice in *.
  intros [= <-]. split; [apply Forall_app; split; [apply bytes_ok_replicate|done]|]. unfold len in *. rewrite length_app, length_replicate. lia.
Qed.
Lemma modexpRun_output input B E M out err : is_slice input -> modexpRun input B E M = Some (out, err) -> output_ok out.
Proof.
  intros [Hb Hl]. assert (is_slice (tail96 input)) as Ht.
  { split; [|rewrite tail96_len; unfold max_slice in *; lia]. unfold tail96. destruct (_ <? _); [by apply Forall_drop|constructor]. }
  unfold modexpRun. destruct (_ && _); [intros [= <- <-]; split; [constructor|done]|].
  destruct (data_at _ 0 B) as [b|]; [|done]. destruct (data_at _ B E) as [e|] eqn:Ee; [|done]. destruct (data_at _ _ M) as [m|] eqn:Em; [|done].
  cbn [mbind option_bind]. cbv zeta. destruct (data_at_len _ _ _ _ Ht Em) as [Hmb Hml]. pose proof (be_val_bound m Hmb) as Bm.
  destruct (Z.eqb_spec (BitLen (be_val m)) 0) as [E0|E0].
  - destruct (LeftPadBytes [] _) as [r|] eqn:Er; [|done]. intros [= <- <-]. by eapply LeftPad_len; [..|exact Er]; [constructor|].
  - destruct (LeftPadBytes _ _) as [r|] eqn:Er; [|done]. intros [= <- <-]. assert (0 < be_val m) as Hpos.
    { unfold BitLen in E0. destruct (Z.eqb_spec (be_val m) 0); [done|]. lia. }
    pose proof (be_val_bound e (proj1 (data_at_len _ _ _ _ Ht Ee))) as Be.
    rewrite Zpow_mod_correct in Er by lia. pose proof (Z.mod_pos_bound (be_val b ^ be_val e) (be_val m) Hpos) as Hx.
    eapply LeftPad_len; [..|exact Er]; [apply bigBytes_ok; lia|]. etrans; [|exact Hml]. apply bigBytes_len; [unfold len; lia|]. unfold len. lia.
Qed.
Lemma bigModExp_safe : precompile_ok (bigModExp false).
Proof.
  intros input [Hb Hl]. destruct (bigModExp_ok input Hb Hl) as (Hg & Hr & _). pose proof (length_at_nonneg input 0 Hb) as HB.
  pose proof (length_at_nonneg input 32 Hb) as HE. pose proof (length_at_nonneg input 64 Hb) as HM. split.
  - assert (0 <= eip198_gas input) as H0 by (apply gas_nonneg; assumption).
    exists (Z.min MaxUint64 (eip198_gas input)). split; [exact Hg|]. split; [unfold is_u64, MaxUint64; lia|].
    intros Hlt. assert (eip198_gas input < 2 ^ 46) as Hc by (unfold MaxUint64 in Hlt; lia).
    destruct (affordable input _ _ _ HB HE HM Hc) as (_ & HM' & _). exists (Fresh (eip198_result input)), None.
    split; [exact (Hr Hc)|]. split; [apply be_bytes_ok|]. unfold eip198_result, result_198, len. cbv zeta.
    rewrite length_be_bytes, Z2Nat.id by exact HM. unfold max_slice. lia.
  - intros out err. destruct (bigModExp_lengths input _ _ _ (data_length input 0 Hl ltac:(unfold is_u64; lia)) (data_length input 32 Hl ltac:(unfold is_u64; lia))
      (data_length input 64 Hl ltac:(unfold is_u64; lia)) _ _ _ eq_refl eq_refl eq_refl) as [_ E].
    change (RunP (bigModExp false) input) with (bigModExp_Run input). rewrite E. by apply modexpRun_output.
Qed.

(** A curve's result is a point's encoding. *)
Lemma returns_point g n p : curve_ok g n -> 0 <= n <= 256 -> returns (ok (Marshal g p)).
Proof. intros [Hm] Hn. eapply returns_bytes; [apply Hm|slice_size]. Qed.
Ltac point := match goal with
  | |- context [Unmarshal ?g ?b] => destruct (Unmarshal g b); [|apply returns_fail]
  | |- context [MapToCurve ?g ?b] => destruct (MapToCurve g b); [|apply returns_fail]
  end.
Ltac checked_length := match goal with |- context [negb ?c] => destruct c eqn:Hc; [apply Z.eqb_eq in Hc|apply returns_fail] end; cbn [negb].
Lemma runBn256Add_safe input : is_slice input -> returns (runBn256Add C input).
Proof. intros Hi. unfold runBn256Add. do 2 cut_data. do 2 point. by eapply returns_point; [apply HC|]. Qed.
Lemma runBn256ScalarMul_safe input : is_slice input -> returns (runBn256ScalarMul C input).
Proof. intros Hi. unfold runBn256ScalarMul. do 2 cut_data. point. by eapply returns_point; [apply HC|]. Qed.
Lemma pairing_points_some n : forall i input, 0 <= i -> i + 192 * Z.of_nat n <= len input -> is_Some (pairing_points C n i input).
Proof.
  induction n as [|n IH]; intros i input Hi Hl; [done|]. cbn [pairing_points]. do 2 cut_slice. destruct (Unmarshal (bnG1 C) _); [|done].
  destruct (Unmarshal (bnG2 C) _); [|done]. destruct (IH (i + 192) input) as [r' ->]; [lia|lia|]. done.
Qed.
Lemma runBn256Pairing_safe input : is_slice input -> returns (runBn256Pairing C input).
Proof.
  intros [Hb Hl]. unfold runBn256Pairing. destruct (0 <? _); [apply returns_fail|].
  destruct (pairing_points_some (Z.to_nat (len input / 192)) 0 input) as [[[cs ts]|e] ->]; cbn [mbind option_bind].
  - lia.
  - rewrite Z2Nat.id by (apply Z.div_pos; unfold len; lia). pose proof (Z.mul_div_le (len input) 192 ltac:(lia)). lia.
  - destruct (bnPairingCheck C cs ts); (apply returns_ok; [by repeat constructor|done]).
  - apply returns_fail.
Qed.
Lemma blsAdd_safe g n input : curve_ok g n -> 0 < n <= 256 -> is_slice input -> returns (blsAdd g n input).
Proof. intros Hg Hn Hi. unfold blsAdd. checked_length. do 2 cut_slice. do 2 point. eapply returns_point; [done|lia]. Qed.
Lemma blsMul_safe g n input : curve_ok g n -> 0 < n <= 256 -> is_slice input -> returns (blsMul g n input).
Proof. intros Hg Hn Hi. unfold blsMul. checked_length. do 2 cut_slice. point. eapply returns_point; [done|lia]. Qed.
Lemma blsPairs_some g n k : 0 < n -> forall off input, 0 <= off -> off + (n + 32) * Z.of_nat k <= len input -> is_Some (blsPairs g n k off input).
Proof.
  intros Hn. induction k as [|k IH]; intros off input Ho Hl; [done|]. cbn [blsPairs]. do 2 cut_slice. destruct (Unmarshal g _); [|done].
  destruct (IH (off + n + 32) input) as [r' ->]; [lia|lia|]. done.
Qed.
Lemma blsMultiExp_safe g n input : curve_ok g n -> 0 < n <= 256 -> is_slice input -> returns (blsMultiExp g n input).
Proof.
  intros Hg Hn Hi. unfold blsMultiExp. cbv zeta. destruct (_ || _); [apply returns_fail|].
  destruct (blsPairs_some g n (Z.to_nat (len input / (n + 32))) ltac:(lia) 0 input) as [[[ps ss]|e] ->]; cbn [mbind option_bind].
  - lia.
  - rewrite Z2Nat.id by (apply Z.div_pos; unfold len; lia). pose proof (Z.mul_div_le (len input) (n + 32) ltac:(lia)). lia.
  - eapply returns_point; [done|lia].
  - apply returns_fail.
Qed.
Lemma pairing_pairs_some k : forall off input, 0 <= off -> off + 384 * Z.of_nat k <= len input -> is_Some (pairing_pairs C k off input).
Proof.
  induction k as [|k IH]; intros off input Ho Hl; [done|]. cbn [pairing_pairs]. do 2 cut_slice. destruct (Unmarshal (blsG1 C) _); [|done].
  destruct (Unmarshal (blsG2 C) _); [|done]. destruct (negb _); [done|]. destruct (negb _); [done|].
  destruct (IH (off + 384) input) as [r' ->]; [lia|lia|]. done.
Qed.
Lemma bls12381Pairing_safe input : is_slice input -> returns (bls12381Pairing_Run C input).
Proof.
  intros Hi. unfold bls12381Pairing_Run. cbv zeta. destruct (_ || _); [apply returns_fail|].
  destruct (pairing_pairs_some (Z.to_nat (len input / 384)) 0 input) as [[l|e] ->]; cbn [mbind option_bind].
  - lia.
  - rewrite Z2Nat.id by (apply Z.div_pos; unfold len; lia). pose proof (Z.mul_div_le (len input) 384 ltac:(lia)). lia.
  - destruct (blsPairingCheck C l); (apply returns_ok; [by repeat constructor|done]).
  - apply returns_fail.
Qed.
Lemma fieldElement_some input : is_Some (decodeBLS12381FieldElement input).
Proof.
  unfold decodeBLS12381FieldElement. destruct (Z.eqb_spec (len input) 64); cbn [negb]; [|done]. do 2 cut_slice. by destruct (negb _).
Qed.
Lemma bls12381MapG1_safe input : returns (bls12381MapG1_Run C input).
Proof.
  unfold bls12381MapG1_Run. checked_length. destruct (fieldElement_some input) as [[f|e] ->]; cbn [mbind option_bind]; [|apply returns_fail].
  point. by eapply returns_point; [apply HC|].
Qed.
Lemma bls12381MapG2_safe input : returns (bls12381MapG2_Run C input).
Proof.
  unfold bls12381MapG2_Run. checked_length. do 2 cut_slice. destruct (fieldElement_some r0) as [[f|e] ->]; cbn [mbind option_bind]; [|apply returns_fail].
  destruct (fieldElement_some r) as [[f'|e] ->]; cbn [mbind option_bind]; [|apply returns_fail]. point. by eapply returns_point; [apply HC|].
Qed.

(** The compression function of RFC 7693 on the words of the input. *)
Definition words_at (n : nat) (off : Z) (input : bytes) : list Z :=
  (fun j => le_val (window input (off + 8 * Z.of_nat j) 8)) <$> seq 0 n.
Lemma le_words_at n : forall off input, 0 <= off -> off + 8 * Z.of_nat n <= len input -> le_words n off input = Some (words_at n off input).
Proof.
  induction n as [|n IH]; intros off input Ho Hl; [done|]. cbn [le_words]. rewrite sub_slice_window by lia. cbn [mbind option_bind].
  rewrite IH by lia. cbn [mbind option_bind]. f_equal. unfold words_at. cbn [seq]. rewrite fmap_cons, <- fmap_S_seq, <- list_fmap_compose.
  f_equal; [do 2 f_equal; lia|]. apply list_fmap_ext. intros i j _. cbn. do 2 f_equal. lia.
Qed.
Lemma le_val_app a b : le_val (a ++ b) = le_val a + 256 ^ Z.of_nat (length a) * le_val b.
Proof.
  induction a as [|x a IH]; cbn [app le_val length]; [lia|]. rewrite IH, Nat2Z.inj_succ, Z.pow_succ_r by lia. lia.
Qed.
Lemma window_app l a m n : 0 <= a -> 0 <= m -> 0 <= n -> window l a (m + n) = window l a m ++ window l (a + m) n.
Proof.
  intros Ha Hm Hn. unfold window. rewrite Z2Nat.inj_add by lia. rewrite seq_app, fmap_app. f_equal.
  rewrite Nat.add_0_l, <- (Nat.add_0_r (Z.to_nat m)), <- fmap_add_seq, <- list_fmap_compose. apply list_fmap_ext. intros i j _. cbn. do 2 f_equal. lia.
Qed.
Definition blake2F_spec (input : bytes) : bytes :=
  put_words (rfc_F (words_at 8 4 input) (words_at 16 68 input) (le_val (window input 196 16))
               (bool_decide (input !! 212%nat = Some 1)) (Z.to_nat (be_val (window input 0 4)))).
Lemma counter_words input : bytes_ok input -> words_at 2 196 input = [(ctr (le_val (window input 196 16))).1; (ctr (le_val (window input 196 16))).2].
Proof.
  intros Hb. assert (forall x, 0 <= le_val (window input x 8) < W) as HB.
  { intros x. pose proof (le_val_bound _ (window_ok input x 8 Hb)) as B. pose proof (window_length input x 8 ltac:(lia)) as L. unfold len in L.
    rewrite L in B. change (256 ^ 8) with W in B. exact B. }
  change 16 with (8 + 8). rewrite window_app, le_val_app by lia. pose proof (window_length input 196 8 ltac:(lia)) as L. unfold len in L. rewrite L.
  change (256 ^ 8) with W. pose proof (HB 196) as B0. pose proof (HB (196 + 8)) as B1. unfold words_at. cbn [seq fmap list_fmap].
  change (196 + 8 * Z.of_nat 0) with 196. change (196 + 8 * Z.of_nat 1) with (196 + 8). revert B0 B1.
  generalize (le_val (window input 196 8)), (le_val (window input (196 + 8) 8)). intros x y Hx Hy. unfold ctr. cbn [fst snd].
  rewrite (Z.mul_comm W y), Z.mod_add, Z.div_add, (Z.div_small x), (Z.mod_small x), Z.add_0_l, (Z.mod_small y) by lia. done.
Qed.
Lemma blake2F_ok input : bytes_ok input -> blake2F_RequiredGas input = Some (if len input =? 213 then be_val (window input 0 4) else 0) /\
  blake2F_Run input = if negb (len input =? 213) then fail errBlake2FInvalidInputLength
                      else if decide (input !! 212%nat = Some 0 \/ input !! 212%nat = Some 1) then ok (blake2F_spec input)
                      else fail errBlake2FInvalidFinalFlag.
Proof.
  intros Hb. unfold blake2F_RequiredGas, blake2F_Run, blake2FInputLength. destruct (Z.eqb_spec (len input) 213) as [Hl|Hl]; cbn [negb]; [|done].
  rewrite !sub_slice_window, !le_words_at by lia. destruct (input !! 212%nat) as [v|] eqn:Ev; [|apply lookup_ge_None in Ev; unfold len in Hl; lia].
  cbn [mbind option_bind]. split; [done|]. unfold blake2FNonFinalBlockBytes, blake2FFinalBlockBytes, blake2F_spec. rewrite Ev.
  destruct (Z.eqb_spec v 0) as [->|H0]; [|destruct (Z.eqb_spec v 1) as [->|H1]]; cbn [negb andb].
  - rewrite decide_True by auto. rewrite bool_decide_false by done. rewrite counter_words, F_rfc by done. done.
  - rewrite decide_True by auto. rewrite bool_decide_true by done. rewrite counter_words, F_rfc by done. done.
  - rewrite decide_False by (intros [[=]|[=]]; lia). done.
Qed.
Lemma put_words_ok h : bytes_ok (put_words h).
Proof. unfold put_words. induction h as [|x h IH]; [constructor|]. apply Forall_app; split; [apply le_bytes_ok|exact IH]. Qed.
Lemma blake2F_safe : precompile_ok blake2F.
Proof.
  intros input [Hb Hl]. destruct (blake2F_ok input Hb) as [Hg Hr]. eapply returns_safe; [exact Hg|..].
  - pose proof (window_bound input 0 4 Hb ltac:(lia)) as B. unfold is_u64. destruct (_ =? 213); lia.
  - change (RunP blake2F input) with (blake2F_Run input). rewrite Hr. destruct (negb _); [apply returns_fail|]. destruct (decide _); [|apply returns_fail].
    apply returns_ok; [apply put_words_ok|]. unfold len, blake2F_spec.
    rewrite put_words_length, rfc_F_length by reflexivity. slice_size.
Qed.
Lemma multiExpGas_ok n mulGas input : 0 < n -> exists g, multiExpGas n mulGas input = Some g /\ is_u64 g.
Proof.
  intros Hn. unfold multiExpGas. cbv zeta. set (k := len input / (n + 32)). assert (0 <= k) as Hk by (apply Z.div_pos; unfold len; lia).
  destruct (Z.eqb_spec k 0); [by exists 0|]. set (t := Bls12381MultiExpDiscountTable).
  assert (length t = 128%nat) as Hlen by reflexivity. clearbody t. rewrite Hlen. cbv zeta.
  assert (exists d, (if k <? Z.of_nat 128 then t !! Z.to_nat (k - 1) else t !! Z.to_nat (Z.of_nat 128 - 1)) = Some d) as [d ->].
  { destruct (Z.ltb_spec k (Z.of_nat 128)); apply lookup_lt_is_Some; rewrite Hlen; lia. }
  cbn [mbind option_bind]. eexists. split; [done|]. destruct (mul64_range (mul64 k mulGas) d) as [H1 H2].
  pose proof (Z.div_le_upper_bound (mul64 (mul64 k mulGas) d) 1000 (mul64 (mul64 k mulGas) d) ltac:(lia) ltac:(lia)).
  pose proof (Z.div_pos (mul64 (mul64 k mulGas) d) 1000). unfold is_u64. lia.
Qed.
#[local] Hint Resolve ecrecover_safe sha256hash_safe ripemd160hash_safe dataCopy_safe bigModExp_safe blake2F_safe : precompiles.
#[local] Hint Resolve runBn256Add_safe runBn256ScalarMul_safe runBn256Pairing_safe bls12381Pairing_safe bls12381MapG1_safe bls12381MapG2_safe : precompiles.
Lemma bls_safe run g n : curve_ok g n -> 0 < n <= 256 -> run ∈ [blsAdd g n; blsMul g n; blsMultiExp g n] ->
  forall input, is_slice input -> returns (run input).
Proof.
  intros Hg Hn Hr input Hi. repeat (apply elem_of_cons in Hr as [->|Hr]); [by apply blsAdd_safe|by apply blsMul_safe|by apply blsMultiExp_safe|].
  by apply not_elem_of_nil in Hr.
Qed.
Ltac bls_contract := solve [apply (bls_safe _ _ _ (bls1_ok C HC)); [done|set_solver] | apply (bls_safe _ _ _ (bls2_ok C HC)); [done|set_solver]].
Ltac contract := first
  [ solve [auto with precompiles]
  | apply free_contract; [done|solve [auto with precompiles | bls_contract]]
  | apply priced_contract; [intros; apply multiExpGas_ok; done|bls_contract]
  | apply priced_contract; [intros; eexists; split; [done|apply add64_range]|solve [auto with precompiles]] ].
Definition safe_table (l : list (Address * PrecompiledContract)) : Prop := Forall (fun e => precompile_ok e.2) l.
Lemma homestead_safe : safe_table (PrecompiledContractsHomestead C).
Proof. repeat (constructor; [cbn [snd]; contract|]). constructor. Qed.
Lemma byzantium_safe : safe_table (PrecompiledContractsByzantium C).
Proof. repeat (constructor; [cbn [snd]; contract|]). constructor. Qed.
Lemma istanbul_safe : safe_table (PrecompiledContractsIstanbul C).
Proof. repeat (constructor; [cbn [snd]; contract|]). constructor. Qed.
Lemma yolov2_safe : safe_table (PrecompiledContractsYoloV2 C).
Proof. repeat (constructor; [cbn [snd]; contract|]). constructor. Qed.
Lemma find_contract_in addr l p : find_contract addr l = Some p -> (addr, p) ∈ l.
Proof.
  unfold find_contract. destruct (list_find _ l) as [[i [a q]]|] eqn:E; [|done]. apply list_find_Some in E as (Hi & Ha & _).
  cbn in *. subst a. intros [= <-]. by eapply list_elem_of_lookup_2.
Qed.
Lemma evm_precompile_safe known decodes r addr p : evm_precompile C known decodes r addr = Some p -> addr <> ConsoleAddress -> precompile_ok p.
Proof.
  unfold evm_precompile. intros Hin%find_contract_in Ha. apply elem_of_app in Hin as [Hin|[= -> _]%list_elem_of_singleton]; [|done].
  assert (forall l, safe_table l -> (addr, p) ∈ l -> precompile_ok p) as Hs.
  { intros l Hs Hl. unfold safe_table in Hs. rewrite list.Forall_forall in Hs. exact (Hs _ Hl). }
  revert Hin. destruct (rIsYoloV2 r); [apply Hs, yolov2_safe|]. destruct (rIsIstanbul r); [apply Hs, istanbul_safe|].
  destruct (rIsByzantium r); [apply Hs, byzantium_safe|apply Hs, homestead_safe].
Qed.
End Safety.

(** ** The console *)
Lemma console_only C known decodes r p : evm_precompile C known decodes r ConsoleAddress = Some p -> p = Console known decodes.
Proof.
  unfold evm_precompile. destruct (rIsYoloV2 r); [|destruct (rIsIstanbul r); [|destruct (rIsByzantium r)]]; cbn; by intros [= <-].
Qed.
Lemma Console_output known decodes input d err : RunP (Console known decodes) input = Some (Fresh d, err) -> d = [].
Proof.
  cbn [RunP Console]. unfold Console_Run. destruct (sub_slice 0 4 input) as [id|]; [|done]. cbn [mbind option_bind].
  destruct (known id); [|by intros [= <- _]]. destruct (sub_slice _ _ _) as [args|]; [|done]. cbn [mbind option_bind].
  destruct (decodes id args); [by intros [= <- _]|done].
Qed.
