(* ===== verification/CryptoTheorems.v ===== *)
(** * Theorems on BLAKE2b and the precompiled contracts

    BLAKE2b against RFC 7693, modular exponentiation against EIP-198, the
    compression precompile, and that the tables of precompiled contracts meet
    what the EVM asks of them. *)

From S2P Require Import Prelude Words Uint256 Params Config Stack Memory Opcodes Analysis State Evm.
From S2P Require Import Blake2b Blake2bFacts Precompiles PrecompileFacts Invariants Executor ExecutorFacts World.

(** The digest of "abc" (RFC 7693, appendix A). *)
Example blake2b_abc : take 8 (Sum512 [97; 98; 99]) = [0xba; 0x80; 0xa5; 0x3f; 0x98; 0x1c; 0x4d; 0x0d].
Proof. vm_compute. reflexivity. Qed.

(** C18.  BLAKE2b implements RFC 7693: for every digest size of 1 to 64 bytes and
    every key of at most 64 bytes, feeding a message to a fresh digest in any
    chunks, whatever their sizes, and asking for the sum appends the RFC's keyed
    hash of the whole message; the one-shot functions return the unkeyed hash. *)
Theorem blake2b_implements_rfc7693 size key chunks prefix data :
  1 <= size <= 64 -> len key <= 64 ->
  (exists d, newDigest size key = inl d /\
     DSum prefix (foldl (fun d p => DWrite p d) d chunks) = prefix ++ rfc_blake2b size key (mjoin chunks)) /\
  Sum512 data = rfc_blake2b 64 [] data /\ Sum384 data = rfc_blake2b 48 [] data /\ Sum256 data = rfc_blake2b 32 [] data.
Proof.
  intros Hs Hk. split.
  - destruct (newDigest_ok size key Hs Hk) as (d & Hd & Hsz & Ha). exists d. split; [done|].
    destruct (writes_ok _ chunks (rfc_init_length size (len key)) d _ Ha) as [Ha' Hs'].
    unfold DSum. rewrite Hs', Hsz. by rewrite (finalize_ok _ _ _ (rfc_init_length _ _) Ha').
  - split_and!; [|apply (checkSum_spec 6); lia|apply (checkSum_spec 4); lia].
    pose proof (checkSum_spec 8 data ltac:(lia) ltac:(lia)) as E. rewrite take_ge in E by apply checkSum_length. exact E.
Qed.
Lemma blake2b_implements_rfc7693_witness : exists d, newDigest 20 [1; 2; 3] = inl d /\
  DSum [9] (foldl (fun d p => DWrite p d) d [[1]; []; [2; 3]]) = [9] ++ rfc_blake2b 20 [1; 2; 3] [1; 2; 3].
Proof. apply (blake2b_implements_rfc7693 20 [1; 2; 3] [[1]; []; [2; 3]] [9] []); [lia|done]. Defined.

(** C17.  The modular exponentiation contract (address 5) follows EIP-198 on every
    input: its price is the EIP's formula, cut off at the largest uint64, and
    when that is less than 2^46 it returns [B ^ E mod M] in exactly as many bytes
    as the modulus has, zero for a zero modulus, reading operands behind the end
    of the input as zeros, with no panic.  Whatever the price, for operands of
    less than 2^63 bytes it returns that result when base and modulus are empty
    or each operand has at most the 2^48 bytes Go can allocate, and panics
    otherwise. *)
Theorem modexp_matches_eip198 input : is_slice input ->
  RequiredGas (bigModExp false) input = Some (Z.min MaxUint64 (eip198_gas input)) /\
  (eip198_gas input < 2 ^ 46 -> RunP (bigModExp false) input = Some (Fresh (eip198_result input), None)) /\
  (length_at input 0 < 2 ^ 63 -> length_at input 32 < 2 ^ 63 -> length_at input 64 < 2 ^ 63 ->
    RunP (bigModExp false) input = if allocatable (length_at input 0) (length_at input 32) (length_at input 64)
                                   then Some (Fresh (eip198_result input), None) else None).
Proof. intros [Hb Hl]. exact (bigModExp_ok input Hb Hl). Qed.
(** [3 ^ 5 mod 7], the operands one byte each *)
Definition modexp_input : bytes := be_bytes 32 1 ++ be_bytes 32 1 ++ be_bytes 32 1 ++ [3; 5; 7].
Lemma modexp_matches_eip198_witness :
  RequiredGas (bigModExp false) modexp_input = Some (Z.min MaxUint64 (eip198_gas modexp_input)) /\
  RunP (bigModExp false) modexp_input = Some (Fresh (eip198_result modexp_input), None) /\ eip198_result modexp_input = [5].
Proof.
  assert (is_slice modexp_input) as Hi by (apply slice_lit; vm_compute; reflexivity).
  split; [apply (modexp_matches_eip198 modexp_input Hi)|]. split; [|vm_compute; reflexivity].
  apply (proj1 (proj2 (modexp_matches_eip198 modexp_input Hi))). vm_compute. reflexivity.
Defined.

(** C19.  The BLAKE2 compression contract (address 9, EIP-152): the price is the
    number of rounds; a wrong length or final flag is the contract's error; every
    other input yields the compression function of RFC 7693 of the state, message
    and counter it encodes, for any number of rounds. *)
Theorem blake2F_is_rfc7693_F input : bytes_ok input ->
  RequiredGas blake2F input = Some (if len input =? 213 then be_val (window input 0 4) else 0) /\
  RunP blake2F input = (if negb (len input =? 213) then fail errBlake2FInvalidInputLength
                        else if decide (input !! 212%nat = Some 0 \/ input !! 212%nat = Some 1) then ok (blake2F_spec input)
                        else fail errBlake2FInvalidFinalFlag).
Proof. exact (blake2F_ok input). Qed.
Lemma blake2F_is_rfc7693_F_witness : RunP blake2F (replicate 212 0 ++ [1]) = ok (blake2F_spec (replicate 212 0 ++ [1])).
Proof.
  rewrite (proj2 (blake2F_is_rfc7693_F (replicate 212 0 ++ [1]) (proj1 (slice_lit (replicate 212 0 ++ [1]) eq_refl)))). reflexivity.
Defined.

(** ** The tables *)
(** The contracts that call src/crypto/bls12381, which is not modelled. *)
Definition bls_addresses : list Address := (fun n => BytesToAddress [n]) <$> seqZ 10 9.
Section Tables.
Context (C : Crypto) (known : bytes -> bool) (decodes : bytes -> bytes -> bool).

(** C16.  No precompiled contract of any fork panics on an input, except for
    the console and the nine BLS12-381 contracts of the test network: called
    with less than 2^46 gas (with which no operand longer than the 2^48 bytes
    Go can allocate is paid for), it returns, with at most the gas it was given
    and an output that is a byte slice, provided the hash functions, the
    signature recovery and the bn256 curve return encodings of their documented
    lengths. *)
Theorem precompiles_never_panic r addr p input gas :
  crypto_ok C -> evm_precompile C known decodes r addr = Some p -> addr <> ConsoleAddress -> addr ∉ bls_addresses ->
  is_slice input -> 0 <= gas < 2 ^ 46 ->
  exists out left err, RunPrecompiledContract p input gas = Ret (out, left, err) /\ 0 <= left <= gas /\ output_ok out.
Proof.
  intros HC Hp Ha _ Hi Hg. destruct (evm_precompile_safe C HC known decodes r addr p Hp Ha input Hi) as [(g & Eg & [Hu1 Hu2] & Hr) _].
  unfold RunPrecompiledContract. rewrite Eg. destruct (Z.ltb_spec gas g).
  - exists (Fresh []), 0, (Some ErrOutOfGas). split_and!; [done|lia|lia|]. split; [constructor|done].
  - destruct Hr as (out & err & -> & Ho); [lia|]. exists out, (gas - g), err. rewrite sub64_nowrap by (unfold is_u64; lia). split_and!; [done|lia|lia|done].
Qed.

(** What the EVM asks of its precompiled contracts holds of the real tables. *)
Lemma tables_outside_ok create abort : crypto_ok C -> (forall a n, is_address (create a n)) ->
  outside_ok (mkOutside (evm_precompile C known decodes) (Keccak256 C) create abort).
Proof.
  intros HC Hc. split; cbn; [intros b; destruct (keccak_ok C HC b) as [Hb Hl]; split; [done|unfold len in Hl; lia]|done|..].
  - intros r a p b g Hp Hi Eg. destruct (decide (a = ConsoleAddress)) as [->|Ha].
    + apply console_only in Hp as ->. by injection Eg as <-.
    + destruct (evm_precompile_safe C HC known decodes r a p Hp Ha b Hi) as [(g' & Eg' & Hu & _) _]. by simplify_eq.
  - intros r a p b d err Hp Hi Er. destruct (decide (a = ConsoleAddress)) as [->|Ha].
    + apply console_only in Hp as ->. by apply Console_output in Er as ->.
    + by apply (proj2 (evm_precompile_safe C HC known decodes r a p Hp Ha b Hi) _ _ Er).
Qed.

(** Calling the console with fewer than four bytes panics, at any gas: any
    contract can stop the executor. *)
Lemma console_short_input_panics r input gas p : evm_precompile C known decodes r ConsoleAddress = Some p -> len input < 4 -> 0 <= gas ->
  RunPrecompiledContract p input gas = PanicAt PPrecompile.
Proof.
  intros Hp%console_only Hl Hg. subst p. unfold RunPrecompiledContract. cbn [RequiredGas Console RunP].
  destruct (Z.ltb_spec gas 0); [lia|]. unfold Console_Run, sub_slice.
  destruct (slice_ok 0 4 input) eqn:E; [apply slice_ok_true in E; lia|]. done.
Qed.
End Tables.

(** Stand-ins for hashes and curves with results of the right lengths. *)
Definition curve0 (n : nat) : Curve :=
  mkCurve unit (fun _ => inl ()) (fun _ _ => ()) (fun _ _ => ()) (fun _ _ => ()) (fun _ => true) (fun _ => inl ()) (fun _ => zeros n).
Definition crypto0 : Crypto :=
  mkCrypto hash0 hash0 (fun b => be_bytes 20 (be_val b)) (fun h s => Some (zeros 65)) (curve0 64) (curve0 128) (fun _ _ => true)
    (curve0 128) (curve0 256) (fun _ => true).
Lemma curve0_ok n : curve_ok (curve0 n) (Z.of_nat n).
Proof. split. intros p. cbn. split; [apply bytes_ok_replicate|]. unfold len, zeros. by rewrite length_replicate. Qed.
Lemma crypto0_ok : crypto_ok crypto0.
Proof.
  split; cbn -[curve0 hash0 be_bytes]; try apply curve0_ok; intros.
  1,2: destruct (is_hash0 b) as [Hb Hl]; split; [done|unfold len; lia].
  - split; [apply be_bytes_ok|]. unfold len. by rewrite length_be_bytes.
  - by simplify_eq.
Qed.
Lemma precompiles_never_panic_witness : exists p, evm_precompile crypto0 (fun _ => false) (fun _ _ => true) (RulesAt config0 (Some 100)) (BytesToAddress [1]) = Some p /\
  exists out left err, RunPrecompiledContract p (replicate 5 7) 5000 = Ret (out, left, err) /\ 0 <= left <= 5000 /\ output_ok out.
Proof.
  exists (ecrecover crypto0). split; [reflexivity|].
  refine (precompiles_never_panic crypto0 (fun _ => false) (fun _ _ => true) (RulesAt config0 (Some 100)) (BytesToAddress [1]) (ecrecover crypto0) (replicate 5 7) 5000
    crypto0_ok _ _ _ _ _); [reflexivity|discriminate|by apply (bool_decide_unpack _)|by apply slice_lit|lia].
Defined.
