(* ===== verification/AbiType.v ===== *)
(** * ABI types

    src/abi/type.go: the types of the contract ABI, the lexer and the parser of
    their textual form, and [parseType], which writes the textual form of an
    argument of a JSON interface description.

    A [*Type] is a value of [Ty], one constructor per [Kind] with the fields that
    kind uses.  The fields [raw] and [t], which the code computes when it builds
    a type, are the functions [raw] and [goType]. *)

From stdpp Require Import strings.
From S2P Require Import Prelude Words Text.

Definition isAlpha (ch : Z) : bool := (97 <=? ch) && (ch <=? 122) || (65 <=? ch) && (ch <=? 90).
Definition isLetter (ch : Z) : bool := isAlpha ch || (ch =? 95).

(** ** Go types ([reflect.Type]) *)
Inductive GoType :=
| GBool | GUint (w : Z) | GInt (w : Z) | GBig | GString | GSlice (e : GoType) | GArray (n : Z) (e : GoType)
| GMap | GIface | GNil.
#[export] Instance GoType_eq : EqDecision GoType.
Proof. solve_decision. Defined.
(** The size of a value in bytes. *)
Fixpoint gosize (g : GoType) : Z :=
  match g with
  | GBool => 1
  | GUint w | GInt w => w / 8
  | GBig | GMap => 8
  | GString | GIface => 16
  | GSlice _ => 24
  | GArray n e => n * gosize e
  | GNil => 0
  end.
(** [reflect.ArrayOf] panics when the array would exceed the address space. *)
Definition ArrayOf_ok (n : Z) (e : GoType) : bool := (gosize e <=? 0) || (n <=? MaxUint64 / gosize e).

(** ** Types *)
Record TupleElem (T : Type) := mkElem { Name : bytes; Elem : T; Indexed : bool }.
Arguments mkElem {T}. Arguments Name {T}. Arguments Elem {T}. Arguments Indexed {T}.
Inductive Ty :=
| KindBool
| KindUInt (size : Z)
| KindInt (size : Z)
| KindString
| KindArray (size : Z) (elem : Ty)
| KindSlice (elem : Ty)
| KindAddress
| KindBytes
| KindFixedBytes (size : Z)
| KindFixedPoint
| KindTuple (tupleName : bytes) (tuple : list (TupleElem Ty))
| KindFunction.

Definition uintT (size : Z) : GoType :=
  if size =? 8 then GUint 8 else if size =? 16 then GUint 16 else if size =? 32 then GUint 32 else if size =? 64 then GUint 64 else GBig.
Definition intT (size : Z) : GoType :=
  if size =? 8 then GInt 8 else if size =? 16 then GInt 16 else if size =? 32 then GInt 32 else if size =? 64 then GInt 64 else GBig.
Fixpoint goType (t : Ty) : GoType :=
  match t with
  | KindBool => GBool
  | KindUInt n => uintT n
  | KindInt n => intT n
  | KindString => GString
  | KindArray n e => GArray n (goType e)
  | KindSlice e => GSlice (goType e)
  | KindAddress => GArray 20 (GUint 8)
  | KindBytes => GSlice (GUint 8)
  | KindFixedBytes n => GArray n (GUint 8)
  | KindFixedPoint => GNil
  | KindTuple _ _ => GMap
  | KindFunction => GArray 24 (GUint 8)
  end.
(** The canonical form, which signatures are built from. *)
Fixpoint raw (t : Ty) : bytes :=
  match t with
  | KindBool => str "bool"
  | KindUInt n => str "uint" ++ dec n
  | KindInt n => str "int" ++ dec n
  | KindString => str "string"
  | KindArray n e => raw e ++ str "[" ++ dec n ++ str "]"
  | KindSlice e => raw e ++ str "[]"
  | KindAddress => str "address"
  | KindBytes => str "bytes"
  | KindFixedBytes n => str "bytes" ++ dec n
  | KindFixedPoint => []
  | KindTuple _ l => str "(" ++ join (str ",") ((fun i => raw (Elem i)) <$> l) ++ str ")"
  | KindFunction => str "function"
  end.

Definition isVariableInput (t : Ty) : bool := match t with KindSlice _ | KindBytes | KindString => true | _ => false end.
Fixpoint isDynamicType (t : Ty) : bool :=
  match t with
  | KindTuple _ l => existsb (fun elem => isDynamicType (Elem elem)) l
  | KindString | KindBytes | KindSlice _ => true
  | KindArray _ e => isDynamicType e
  | _ => false
  end.
(** [int] arithmetic wraps. *)
Definition int64 (z : Z) : Z := (z + 2 ^ 63) mod 2 ^ 64 - 2 ^ 63.
Fixpoint getTypeSize (t : Ty) : Z :=
  match t with
  | KindArray n e =>
      if isDynamicType e then 32
      else match e with KindArray _ _ | KindTuple _ _ => int64 (n * getTypeSize e) | _ => int64 (n * 32) end
  | KindTuple _ l =>
      if isDynamicType t then 32
      else foldl (fun total elem => int64 (total + getTypeSize (Elem elem))) 0 l
  | _ => 32
  end.

(** ** The lexer *)
Inductive tokenType :=
| eofToken | strToken | numberToken | tupleToken | lparenToken | rparenToken | lbracketToken | rbracketToken
| commaToken | indexedToken | invalidToken.
#[export] Instance tokenType_eq : EqDecision tokenType.
Proof. solve_decision. Defined.
Record token := mkToken { typ : tokenType; literal : bytes }.
Record lexer := mkLexer { input : bytes; current : token; peek : token; position : nat; readPosition : nat; ch : Z }.

Definition readChar (l : lexer) : lexer :=
  mkLexer (input l) (current l) (peek l) (readPosition l) (S (readPosition l)) (default 0 (input l !! readPosition l)).
Definition newLexer (s : bytes) : lexer :=
  readChar (mkLexer s (mkToken eofToken []) (mkToken eofToken []) 0 0 0).
(** [for p(l.ch) { l.readChar() }], with fuel for the rest of the input. *)
Fixpoint readWhile (fuel : nat) (p : Z -> bool) (l : lexer) : lexer :=
  match fuel with
  | O => l
  | S fuel => if p (ch l) then readWhile fuel p (readChar l) else l
  end.
Definition read (p : Z -> bool) (l : lexer) : lexer := readWhile (S (length (input l))) p l.
Definition isSpace (ch : Z) : bool := (ch =? 32) || (ch =? 9) || (ch =? 10) || (ch =? 13).
(** The input between two positions *)
Definition consumed (l l' : lexer) : bytes := take (position l' - position l) (drop (position l) (input l)).
Definition nextTokenImpl (l : lexer) : token * lexer :=
  let l := read isSpace l in
  if ch l =? 44 then (mkToken commaToken [], readChar l)
  else if ch l =? 40 then (mkToken lparenToken [], readChar l)
  else if ch l =? 41 then (mkToken rparenToken [], readChar l)
  else if ch l =? 91 then (mkToken lbracketToken [], readChar l)
  else if ch l =? 93 then (mkToken rbracketToken [], readChar l)
  else if ch l =? 0 then (mkToken eofToken [], readChar l)
  else if isLetter (ch l) then
    let l' := read (fun c => isLetter c || isDigit c) l in
    let lit := consumed l l' in
    (mkToken (if bool_decide (lit = str "tuple") then tupleToken
              else if bool_decide (lit = str "indexed") then indexedToken else strToken) lit, l')
  else if isDigit (ch l) then
    let l' := read isDigit l in (mkToken numberToken (consumed l l'), l')
  else (mkToken invalidToken [], readChar l).
Definition nextToken : M lexer token := fun l =>
  let '(tok, l') := nextTokenImpl l in
  Ret (peek l, mkLexer (input l') (peek l) tok (position l') (readPosition l') (ch l')).

(** ** The parser *)
Inductive type_error :=
| expectedToken (t : tokenType) | notExpectedToken (t : tokenType) | failedElem (e : type_error)
| badArraySize | badFormat | badBytes | needBytes | unexpectedBytes | unknownType.

(** Letters, then digits, and nothing else *)
Definition typeRegexp (s : bytes) : option (bytes * bytes) :=
  let '(a, r) := span isAlpha s in
  let '(d, r) := span isDigit r in
  if bool_decide (a = []) || negb (bool_decide (r = [])) then None else Some (a, d).
Definition decodeSimpleType (s : bytes) : outcome (Ty + type_error) :=
  match typeRegexp s with
  | None => Ret (inr badFormat)
  | Some (t, bytesStr) =>
      let ok := negb (bool_decide (bytesStr = [])) in
      match (if ok then Atoi bytesStr else Some 0) with
      | None => Ret (inr badBytes)
      | Some bytes =>
          let isInt := bool_decide (t = str "int") || bool_decide (t = str "uint") in
          if isInt && negb ok then Ret (inr needBytes)
          else if negb isInt && negb (bool_decide (t = str "bytes")) && ok then Ret (inr unexpectedBytes)
          else if bool_decide (t = str "uint") then
            if bytes mod 8 =? 0 then Ret (inl (KindUInt bytes)) else Panic
          else if bool_decide (t = str "int") then
            if bytes mod 8 =? 0 then Ret (inl (KindInt bytes)) else Panic
          else if bool_decide (t = str "byte") then Ret (inl (KindFixedBytes 1))
          else if bool_decide (t = str "bytes") then
            Ret (inl (if bytes =? 0 then KindBytes else KindFixedBytes bytes))
          else if bool_decide (t = str "string") then Ret (inl KindString)
          else if bool_decide (t = str "bool") then Ret (inl KindBool)
          else if bool_decide (t = str "address") then Ret (inl KindAddress)
          else if bool_decide (t = str "function") then Ret (inl KindFunction)
          else Ret (inr unknownType)
      end
  end.

Abbreviation P A := (M lexer (A + type_error)).
Definition perr {A} (e : type_error) : P A := mret (inr e).
(** Go on with the value, or return the error. *)
Definition pbind {A B} (f : A -> P B) (m : P A) : P B :=
  r ← m; match r with inl a => f a | inr e => mret (inr e) end.
Definition expect (t : tokenType) : P () :=
  tok ← nextToken; if bool_decide (typ tok = t) then mret (inl ()) else perr (expectedToken t).
Definition peekIs (t : tokenType) : M lexer bool := gets (fun l => bool_decide (typ (peek l) = t)).

(** [[n]] and [[]] behind a type *)
Fixpoint readSuffix (fuel : nat) (ty : Ty) : P Ty :=
  match fuel with
  | O => fun _ => NoFuel
  | S fuel =>
      more ← peekIs lbracketToken;
      if negb (more : bool) then mret (inl ty)
      else
        _ ← nextToken;
        n ← nextToken;
        match typ n with
        | rbracketToken => readSuffix fuel (KindSlice ty)
        | numberToken =>
            match ParseUint32 (literal n) with
            | None => perr badArraySize
            | Some size =>
                if negb (ArrayOf_ok size (goType ty)) then panic
                else
                  r ← nextToken;
                  if negb (bool_decide (typ r = rbracketToken)) then perr (expectedToken rbracketToken)
                  else readSuffix fuel (KindArray size ty)
            end
        | t => perr (notExpectedToken t)
        end
  end.
(** The optional name of a tuple, with an optional array suffix, ignored. *)
Definition readTupleName : P bytes :=
  named ← peekIs strToken;
  if negb (named : bool) then mret (inl [])
  else
    name ← nextToken;
    bracket ← peekIs lbracketToken;
    if negb (bracket : bool) then mret (inl (literal name))
    else
      _ ← nextToken;
      n ← nextToken;
      match typ n with
      | numberToken =>
          r ← nextToken;
          if negb (bool_decide (typ r = rbracketToken)) then perr (expectedToken rbracketToken)
          else mret (inl (literal name))
      | _ => mret (inl (literal name))
      end.
(** The name of a tuple's element and whether it is indexed *)
Definition readElemName : M lexer (bytes * bool) :=
  t ← gets (fun l => typ (peek l));
  match t with
  | strToken => name ← nextToken; mret (literal name, false)
  | indexedToken =>
      _ ← nextToken;
      named ← peekIs strToken;
      if (named : bool) then name ← nextToken; mret (literal name, true) else mret ([], true)
  | _ => mret ([], false)
  end.

Fixpoint readType (fuel : nat) : P Ty :=
  match fuel with
  | O => fun _ => NoFuel
  | S fuel =>
      tok ← nextToken;
      match typ tok with
      | tupleToken =>
          pbind (fun internalName =>
            pbind (fun _ =>
              pbind (fun elems => readSuffix fuel (KindTuple internalName elems)) (readElems fuel []))
              (expect lparenToken)) readTupleName
      | strToken =>
          r ← lift (decodeSimpleType (literal tok));
          match r with inl ty => readSuffix fuel ty | inr e => perr e end
      | _ => perr (expectedToken strToken)
      end
  end
with readElems (fuel : nat) (elems : list (TupleElem Ty)) : P (list (TupleElem Ty)) :=
  match fuel with
  | O => fun _ => NoFuel
  | S fuel =>
      r ← readType fuel;
      match r with
      | inr e =>
          cur ← gets (fun l => typ (current l));
          if bool_decide (cur = rparenToken) && bool_decide (elems = []) then mret (inl []) else perr (failedElem e)
      | inl elem =>
          nm ← readElemName;
          let elems := elems ++ [mkElem nm.1 elem nm.2] in
          next ← nextToken;
          match typ next with
          | commaToken => readElems fuel elems
          | rparenToken => mret (inl elems)
          | t => perr (notExpectedToken t)
          end
      end
  end.
(** Every recursive call consumes a token: see [NewType_returns]. *)
Definition parse_fuel (s : bytes) : nat := (4 * length s + 8)%nat.
Definition NewType (s : bytes) : outcome (Ty + type_error) :=
  '(r, _) ← (_ ← nextToken; readType (parse_fuel s)) (newLexer s); Ret r.

(** ** Arguments of JSON interface descriptions *)
Inductive ArgumentStr := mkArg {
  aName : bytes;
  aType : bytes;
  aInternalType : bytes;
  aIndexed : bool;
  aComponents : list ArgumentStr;
}.
Definition toUpper (c : Z) : Z := if (97 <=? c) && (c <=? 122) then c - 32 else c.
Definition toLower (c : Z) : Z := if (65 <=? c) && (c <=? 90) then c + 32 else c.
(** [strings.Title] on ASCII: letters behind a separator become upper case. *)
Fixpoint title_from (sep : bool) (s : bytes) : bytes :=
  match s with
  | [] => []
  | c :: s => (if sep then toUpper c else c) :: title_from (negb (isLetter c || isDigit c || (127 <? c))) s
  end.
Definition Title (s : bytes) : bytes := title_from true s.
(** The part behind the last dot *)
Fixpoint last_part (s acc : bytes) : bytes :=
  match s with [] => acc | c :: s => if c =? 46 then last_part s [] else last_part s (acc ++ [c]) end.
Definition internalTypeToArg (internalType : bytes) : bytes :=
  let internalName := Title (last_part internalType []) in
  str " " ++ (span (fun c => negb (c =? 91)) internalName).1.
Fixpoint strip_prefix (p s : bytes) : option bytes :=
  match p, s with
  | [], _ => Some s
  | a :: p, b :: s => if a =? b then strip_prefix p s else None
  | _, [] => None
  end.
Fixpoint parseType (arg : ArgumentStr) : bytes :=
  match strip_prefix (str "tuple") (aType arg) with
  | None => aType arg
  | Some suffix =>
      match aComponents arg with
      | [] => str "tuple()"
      | comps =>
          let strs := (fun i => parseType i ++ (if aIndexed i then str " indexed " else str " ") ++ aName i) <$> comps in
          str "tuple" ++ internalTypeToArg (aInternalType arg) ++ str "(" ++ join (str ",") strs ++ str ")" ++ suffix
      end
  end.
Definition NewTypeFromArgument (arg : ArgumentStr) : outcome (Ty + type_error) := NewType (parseType arg).

(** Malformed element lists can pass for an empty tuple. *)
Example unclosed_bracket_is_empty_tuple : NewType (str "tuple(uint8[)") = Ret (inl (KindTuple [] [])).
Proof. vm_compute. reflexivity. Qed.
Example nested_tuple_type : NewType (str "tuple(address a, tuple Foo(uint8 x, bytes)[2][] indexed b)") =
  Ret (inl (KindTuple [] [mkElem (str "a") KindAddress false;
    mkElem (str "b") (KindSlice (KindArray 2 (KindTuple (str "Foo") [mkElem (str "x") (KindUInt 8) false; mkElem [] KindBytes false]))) true])).
Proof. vm_compute. reflexivity. Qed.
