(* ===== verification/AbiCodec.v ===== *)
(** * ABI encoding and decoding

    src/abi/encode.go, decode.go, topics.go and the methods, events and
    signatures of abi.go.  Go values are inspected by reflection: [Value] is what
    a [reflect.Value] can be, as far as the code tells them apart.  Keccak-256 is
    a parameter. *)

From stdpp Require Import strings.
From S2P Require Import Prelude Words BigInt Text AbiType.

(** ** Results: a value or an error, or a panic *)
Inductive abi_error :=
| encodeErr | expectedArray | expectedSlice | arrayLen | tupleLen | missingKey (key : bytes) | noEncoding
| emptyInput | incorrectLength | noDecoding | addrLen | functionTail | repeatedValues | sizeNegative | sizeTooBig
| badBoolean | offsetTooLarge | offsetInsufficient | lengthTooLarge | lengthInsufficient
| topicNotTuple | badTopics | notABoolean | noTopic | noMatch | badSignature (e : type_error) | missingTopics.
Definition result (A : Type) : Type := outcome (A + abi_error).
#[export] Instance result_ret : MRet result := fun A a => Ret (inl a).
#[export] Instance result_bind : MBind result := fun A B f m =>
  match m with Ret (inl a) => f a | Ret (inr e) => Ret (inr e) | PanicAt p => PanicAt p | NoFuel => NoFuel end.
Definition err {A} (e : abi_error) : result A := Ret (inr e).
Definition crash {A} : result A := Panic.

(** ** Go values *)
Record StructField (V : Type) := mkField { fName : bytes; fExported : bool; fTag : bytes; fValue : V }.
Arguments mkField {V}. Arguments fName {V}. Arguments fExported {V}. Arguments fTag {V}. Arguments fValue {V}.
Inductive Value :=
| VInvalid                                    (* the zero [reflect.Value] *)
| VBool (b : bool)
| VUint (w : Z) (z : Z)
| VInt (w : Z) (z : Z)
| VBig (z : Z)                                (* [*big.Int] *)
| VNilBig
| VString (s : bytes)
| VSlice (e : GoType) (l : list Value)
| VArray (e : GoType) (l : list Value)
| VMap (m : list (bytes * Value))             (* [map[string]interface{}] *)
| VStruct (fs : list (StructField Value))
| VPtr (v : Value)                            (* any other pointer *)
| VIface (v : Value)                          (* an element or field of type [interface{}] *)
| VOther.
Definition VBytes (b : bytes) : Value := VSlice (GUint 8) (VUint 8 <$> b).
Definition VByteArray (b : bytes) : Value := VArray (GUint 8) (VUint 8 <$> b).

(** [reflect.Value.Elem] of an interface or a pointer *)
Definition iface_elem (v : Value) : Value := match v with VIface v => v | v => v end.
Definition ptr_elem (v : Value) : Value :=
  match v with VPtr v => v | VBig _ => VStruct [] | VNilBig => VInvalid | v => v end.
(** [reflect.Value.Bytes] panics on anything but a slice of bytes. *)
Definition uint8s (l : list Value) : bytes := (fun v => match v with VUint _ z => z | _ => 0 end) <$> l.
Definition Bytes (v : Value) : result bytes :=
  match v with VSlice e l => if bool_decide (e = GUint 8) then mret (uint8s l) else crash | _ => crash end.
(** [reflect.Copy] panics when the element types differ. *)
Definition convertArrayToBytes (v : Value) : result Value :=
  match v with VArray e l => if bool_decide (e = GUint 8) then mret (VSlice (GUint 8) l) else crash | v => mret v end.

(** ** Encoding *)
Definition padBytes (b : bytes) (size : Z) (left : bool) : bytes :=
  let l := len b in
  if l =? size then b
  else if size <? l then drop (Z.to_nat (l - size)) b
  else if left then replicate (Z.to_nat (size - l)) 0 ++ b else b ++ replicate (Z.to_nat (size - l)) 0.
Definition leftPad (b : bytes) (size : Z) : bytes := padBytes b size true.
Definition rightPad (b : bytes) (size : Z) : bytes := padBytes b size false.
Definition tt256m1 : Z := 2 ^ 256 - 1.
Definition toU256 (n : Z) : bytes :=
  let b := if (n <? 0) || (256 <? BitLen n) then Z.land n tt256m1 else n in
  leftPad (bigBytes b) 32.
Definition encodeNum (v : Value) : result bytes :=
  match v with
  | VUint _ z | VInt _ z | VBig z => mret (toU256 z)
  | VNilBig => crash
  | _ => err encodeErr
  end.
Definition packNum (offset : Z) : bytes := toU256 offset.
Definition packBytesSlice (buf : bytes) (l : Z) : result bytes :=
  mret (toU256 l ++ rightPad buf ((l + 31) / 32 * 32)).
Definition encodeFixedBytes (v : Value) : result bytes := v ← convertArrayToBytes v; b ← Bytes v; mret (rightPad b 32).
Definition encodeAddress (v : Value) : result bytes := v ← convertArrayToBytes v; b ← Bytes v; mret (leftPad b 32).
Definition encodeBytes (v : Value) : result bytes := v ← convertArrayToBytes v; b ← Bytes v; packBytesSlice b (len b).
Definition encodeString (v : Value) : result bytes :=
  match v with VString s => packBytesSlice s (len s) | _ => err encodeErr end.
Definition encodeBool (v : Value) : result bytes :=
  match v with VBool b => mret (leftPad (bigBytes (if b then 1 else 0)) 32) | _ => err encodeErr end.

(** Names and keys *)
Definition ToName (name : bytes) (index : Z) : bytes :=
  if bool_decide (name = []) then str "arg" ++ dec index else trim 95 name.
Definition NameToLowerKey (name : bytes) (index : Z) : bytes :=
  if bool_decide (name = []) then dec index else toLower <$> name.
Definition NameToKey (name : bytes) (index : Z) : bytes := if bool_decide (name = []) then dec index else name.

(** A value stored as an [interface{}] *)
Definition as_iface (v : Value) : Value := VIface (iface_elem v).
(** [MapIndex]: an interface, or the zero value *)
Definition map_index (key : bytes) (m : list (bytes * Value)) : Value :=
  match list_find (fun e => e.1 = key) m with Some (_, e) => as_iface e.2 | None => VInvalid end.
Fixpoint mapFromStruct (i : Z) (fs : list (StructField Value)) (res : list (bytes * Value)) : list (bytes * Value) :=
  match fs with
  | [] => res
  | f :: fs =>
      let tagValue := fTag f in
      if negb (fExported f) || bool_decide (tagValue = str "-") then mapFromStruct (i + 1) fs res
      else
        let key := NameToLowerKey (fName f) i in
        let key := if bool_decide (tagValue = []) then key else NameToLowerKey tagValue i in
        mapFromStruct (i + 1) fs (if existsb (fun e => bool_decide (e.1 = key)) res then res else res ++ [(key, as_iface (fValue f))])
  end.

(** The loops of the encoder *)
Section EncodeLoops.
Context (enc : Ty -> Value -> result bytes).
(** [for i := 0; i < v.Len(); i++] over elements of type [e] *)
Fixpoint encode_elems (e : Ty) (isDynamic : bool) (l : list Value) (offset : Z) (ret tail : bytes) : result bytes :=
  match l with
  | [] => mret (ret ++ tail)
  | v :: l =>
      val ← enc e v;
      if negb isDynamic then encode_elems e isDynamic l offset (ret ++ val) tail
      else encode_elems e isDynamic l (offset + len val) (ret ++ packNum offset) (tail ++ val)
  end.
(** [for i, elem := range t.tuple]; [get] fetches the value of element [i]. *)
Context (get : Z -> TupleElem Ty -> Value).
Fixpoint encode_fields (i : Z) (tuple : list (TupleElem Ty)) (offset : Z) (ret tail : bytes) : result bytes :=
  match tuple with
  | [] => mret (ret ++ tail)
  | elem :: tuple =>
      match get i elem with
      | VInvalid => err (missingKey (NameToLowerKey (Name elem) i))
      | aux =>
          val ← enc (Elem elem) aux;
          if isDynamicType (Elem elem) then
            encode_fields (i + 1) tuple (offset + len val) (ret ++ packNum offset) (tail ++ val)
          else encode_fields (i + 1) tuple offset (ret ++ val) tail
      end
  end.
End EncodeLoops.

(** What [encodeTuple] reads the elements from *)
Inductive tuple_source := FromList (l : list Value) | FromMap (m : list (bytes * Value)).
Definition tupleSource (v : Value) : result tuple_source :=
  match ptr_elem v with
  | VSlice _ l | VArray _ l => mret (FromList l)
  | VMap m => mret (FromMap m)
  | VStruct fs => mret (FromMap (mapFromStruct 0 fs []))
  | _ => err encodeErr
  end.
Definition source_len (s : tuple_source) : nat := match s with FromList l => length l | FromMap m => length m end.
Definition source_get (s : tuple_source) (i : Z) (elem : TupleElem Ty) : Value :=
  match s with
  | FromList l => default VInvalid (l !! Z.to_nat i)
  | FromMap m => map_index (NameToLowerKey (Name elem) i) m
  end.
(** The kind, size and element checks of [encodeSliceAndArray] *)
Definition seqElems (t : Ty) (v : Value) : result (list Value) :=
  match t, v with
  | KindArray n _, VArray _ l => if n =? Z.of_nat (length l) then mret l else err arrayLen
  | KindArray _ _, VSlice _ _ => err expectedSlice
  | KindSlice _, VSlice _ l => mret l
  | KindSlice _, VArray _ _ => err expectedArray
  | _, _ => err encodeErr
  end.

Fixpoint encode (t : Ty) (v : Value) : result bytes :=
  let v := iface_elem v in
  match t with
  | KindSlice e =>
      l ← seqElems t v;
      encode_elems encode e (isDynamicType e) l (if isDynamicType e then getTypeSize e * Z.of_nat (length l) else 0)
        (packNum (Z.of_nat (length l))) []
  | KindArray _ e =>
      l ← seqElems t v;
      encode_elems encode e (isDynamicType e) l (if isDynamicType e then getTypeSize e * Z.of_nat (length l) else 0) [] []
  | KindTuple _ tuple =>
      src ← tupleSource v;
      if Nat.ltb (source_len src) (length tuple) then err tupleLen
      else
        let offset := foldl (fun offset elem => int64 (offset + getTypeSize (Elem elem))) 0 tuple in
        encode_fields encode (source_get src) 0 tuple offset [] []
  | KindString => encodeString v
  | KindBool => encodeBool v
  | KindAddress => encodeAddress v
  | KindInt _ | KindUInt _ => encodeNum v
  | KindBytes => encodeBytes v
  | KindFixedBytes _ | KindFunction => encodeFixedBytes v
  | KindFixedPoint => err noEncoding
  end.
Definition Encode (v : Value) (t : Ty) : result bytes := encode t v.

(** ** Decoding *)
(** [b] mod [2^w] as a signed integer *)
Definition signed (w b : Z) : Z := if b mod 2 ^ w <? 2 ^ (w - 1) then b mod 2 ^ w else b mod 2 ^ w - 2 ^ w.
Definition readInteger (t : Ty) (b : bytes) : Value :=
  let low n := be_val (drop (length b - n) b) in
  match goType t with
  | GUint w => VUint w (low (Z.to_nat (w / 8)))
  | GInt w => VInt w (signed w (low (Z.to_nat (w / 8))))
  | _ =>
      let ret := be_val b in
      match t with
      | KindUInt _ => VBig ret
      | _ => if 2 ^ 255 - 1 <? ret then VBig (- (2 ^ 256 - 1 + - ret + 1)) else VBig ret
      end
  end.
Definition readAddr (b : bytes) : result Value :=
  if negb (len b =? 32) then err addrLen else mret (VByteArray (take 20 (drop 12 b))).
Definition decodeBool (data : bytes) : result Value :=
  match data !! 31%nat with
  | None => crash
  | Some b => if b =? 0 then mret (VBool false) else if b =? 1 then mret (VBool true) else err badBoolean
  end.
Definition allZeros (b : bytes) : bool := forallb (fun i => i =? 0) b.
Definition readFunctionType (word : bytes) : result Value :=
  if negb (allZeros (slice 24 32 word)) then err functionTail else mret (VByteArray (slice 0 24 word)).

(** [spare]: the bytes between the length and the capacity of the input's array,
    which slicing can reach; every slice the decoder takes ends where the input
    ends. *)
Section Decode.
Context (spare : bytes).
Definition reslice (a b : Z) (data : bytes) : result bytes :=
  if slice_ok a b (data ++ spare) then mret (slice a b (data ++ spare)) else crash.
Definition readOffset (data : bytes) (l : Z) : result Z :=
  w ← reslice 0 32 data;
  let offsetBig := be_val w in
  if 63 <? BitLen offsetBig then err offsetTooLarge
  else if l <? offsetBig then err offsetInsufficient
  else mret offsetBig.
Definition readLength (data : bytes) : result Z :=
  w ← reslice 0 32 data;
  let lengthBig := be_val w in
  if 63 <? BitLen lengthBig then err lengthTooLarge
  else if len data <? lengthBig then err lengthInsufficient
  else mret lengthBig.
(** [word[0:t.size]] of the word at the head of the input, copied to an array of
    that size *)
Definition readFixedBytes (size : Z) (input : bytes) : result Value :=
  b ← reslice 0 size input; mret (VByteArray b).

Section DecodeLoops.
Context (dec : Ty -> bytes -> result (Value * bytes)).
Fixpoint decode_fields (orig data : bytes) (indx : Z) (tuple : list (TupleElem Ty)) (res : list (bytes * Value))
  : result (Value * bytes) :=
  match tuple with
  | [] => mret (VMap res, data)
  | arg :: tuple =>
      entry ← (if isDynamicType (Elem arg) then offset ← readOffset data (len orig); mret (drop (Z.to_nat offset) orig)
               else mret data);
      '(val, tail) ← dec (Elem arg) entry;
      data ← (if negb (isDynamicType (Elem arg)) then mret tail
              else if len data <? 32 then crash else mret (drop 32 data));
      let key := NameToKey (Name arg) indx in
      if existsb (fun e => bool_decide (e.1 = key)) res then err repeatedValues
      else decode_fields orig data (indx + 1) tuple (res ++ [(key, val)])
  end.
Fixpoint decode_elems (e : Ty) (orig data : bytes) (size : nat) (res : list Value) : result (list Value * bytes) :=
  match size with
  | O => mret (res, data)
  | S size =>
      let isDynamic := isDynamicType e in
      entry ← (if isDynamic then offset ← readOffset data (len orig); mret (drop (Z.to_nat offset) orig) else mret data);
      '(val, tail) ← dec e entry;
      data ← (if negb isDynamic then mret tail
              else if len data <? 32 then crash else mret (drop 32 data));
      decode_elems e orig data size (res ++ [val])
  end.
End DecodeLoops.
Definition check_size (size : Z) (data : bytes) : result () :=
  if size <? 0 then err sizeNegative else if len data <? 32 * size then err sizeTooBig else mret ().

Fixpoint decode (t : Ty) (input : bytes) : result (Value * bytes) :=
  if len input <? 32 then err incorrectLength
  else
    length ← (if isVariableInput t then readLength input else mret 0);
    let data := take 32 input in
    let rest := drop 32 input in
    match t with
    | KindTuple _ tuple => decode_fields decode input input 0 tuple []
    | KindSlice e =>
        _ ← check_size length rest;
        '(l, data) ← decode_elems decode e rest rest (Z.to_nat length) [];
        mret (VSlice (goType e) l, data)
    | KindArray size e =>
        _ ← check_size size input;
        '(l, data) ← decode_elems decode e input input (Z.to_nat size) [];
        mret (VArray (goType e) l, data)
    | KindBool => v ← decodeBool data; mret (v, rest)
    | KindInt _ | KindUInt _ => mret (readInteger t data, rest)
    | KindString => b ← reslice 32 (32 + length) input; mret (VString b, rest)
    | KindBytes => b ← reslice 32 (32 + length) input; mret (VBytes b, rest)
    | KindAddress => v ← readAddr data; mret (v, rest)
    | KindFixedBytes size => v ← readFixedBytes size input; mret (v, rest)
    | KindFunction => v ← readFunctionType data; mret (v, rest)
    | KindFixedPoint => err noDecoding
    end.
Definition Decode (t : Ty) (input : bytes) : result Value :=
  if len input =? 0 then err emptyInput else '(val, _) ← decode t input; mret val.
End Decode.
