(* ===== verification/AbiContract.v ===== *)
(** * Methods, events, logs

    src/abi/abi.go and topics.go.  Keccak-256 is the parameter [keccak]; a JSON
    description is the list of its fields. *)

From stdpp Require Import strings.
From S2P Require Import Prelude Words BigInt Text AbiType AbiCodec.

(** ** Topics *)
Definition topicTrue : Hash := replicate 31 0 ++ [1].
Definition topicFalse : Hash := replicate 32 0.
Definition ParseTopic (t : Ty) (topic : Hash) : result Value :=
  match t with
  | KindBool =>
      if bool_decide (topic = topicTrue) then mret (VBool true)
      else if bool_decide (topic = topicFalse) then mret (VBool false)
      else err notABoolean
  | KindInt _ | KindUInt _ => mret (readInteger t topic)
  | KindAddress => readAddr topic
  | _ => err noTopic
  end.
Fixpoint parse_topics (args : list (TupleElem Ty)) (topics : list Hash) : result (list Value) :=
  match args, topics with
  | arg :: args, topic :: topics =>
      elem ← ParseTopic (Elem arg) topic; elems ← parse_topics args topics; mret (elem :: elems)
  | _, _ => mret []
  end.
Definition ParseTopics (args : Ty) (topics : list Hash) : result (list Value) :=
  match args with
  | KindTuple _ tuple => if negb (Nat.eqb (length tuple) (length topics)) then err badTopics else parse_topics tuple topics
  | _ => err topicNotTuple
  end.
(** [copy(res[:], b)] *)
Definition toHash (b : bytes) : Hash := take 32 b ++ replicate (32 - length b) 0.
Definition encodeTopicAddress (v : Value) : result Hash := b ← encodeAddress v; mret (toHash b).
Definition encodeTopicNum (v : Value) : result Hash := b ← encodeNum v; mret (toHash b).
Definition encodeTopicBool (v : Value) : result Hash :=
  match v with VBool b => mret (if b then topicTrue else topicFalse) | _ => err encodeErr end.
Definition EncodeTopic (t : Ty) (v : Value) : result Hash :=
  match t with
  | KindBool => encodeTopicBool v
  | KindUInt _ | KindInt _ => encodeTopicNum v
  | KindAddress => encodeTopicAddress v
  | _ => err noTopic
  end.

(** ** Logs *)
Record Log := mkLog { Topics : list Hash; Data : bytes }.
Definition map_set (k : bytes) (v : Value) (m : list (bytes * Value)) : list (bytes * Value) :=
  filter (fun e => e.1 <> k) m ++ [(k, v)].
(** The loop that puts the values in the order of the arguments *)
Fixpoint merge_args (i nonIndexNum : Z) (args : list (TupleElem Ty)) (indexedObjs : list Value)
  (nonIndexedObjs res : list (bytes * Value)) : result (list (bytes * Value)) :=
  match args with
  | [] => mret res
  | arg :: args =>
      if Indexed arg then
        match indexedObjs with
        | [] => crash
        | o :: objs => merge_args (i + 1) nonIndexNum args objs nonIndexedObjs (map_set (ToName (Name arg) i) o res)
        end
      else
        merge_args (i + 1) (nonIndexNum + 1) args indexedObjs nonIndexedObjs
          (map_set (ToName (Name arg) i) (iface_elem (map_index (NameToKey (Name arg) nonIndexNum) nonIndexedObjs)) res)
  end.
Definition TupleElems (t : Ty) : list (TupleElem Ty) := match t with KindTuple _ l => l | _ => [] end.
Definition ParseLog (spare : bytes) (args : Ty) (log : Log) : result (list (bytes * Value)) :=
  let indexed := filter (fun a => Indexed a = true) (TupleElems args) in
  let nonIndexed := filter (fun a => Indexed a = false) (TupleElems args) in
  match Topics log with
  | [] => crash
  | _ :: topics =>
      indexedObjs ← ParseTopics (KindTuple [] indexed) topics;
      nonIndexedObjs ← (if bool_decide (nonIndexed = []) then mret [] else
                          raw ← Decode spare (KindTuple [] nonIndexed) (Data log);
                          match raw with VMap m => mret m | _ => err noDecoding end);
      merge_args 0 0 (TupleElems args) indexedObjs nonIndexedObjs []
  end.

(** ** Signatures *)
Definition buildSignature (name : bytes) (typ : Ty) : bytes :=
  name ++ str "(" ++ join (str ",") ((fun i => raw (Elem i)) <$> TupleElems typ) ++ str ")".
Definition buildHumanSignature (name : bytes) (typ : Ty) : bytes :=
  name ++ str "(" ++ join (str ", ") ((fun i => raw (Elem i) ++ str " " ++ Name i) <$> TupleElems typ) ++ str ")".
Record Method := mkMethod { mName : bytes; mConst : bool; Inputs : Ty; Outputs : Ty }.
Record Event := mkEvent { eName : bytes; Anonymous : bool; eInputs : Ty }.
Definition Sig (m : Method) : bytes := buildSignature (mName m) (Inputs m).
Definition DetailedSig (m : Method) : bytes := buildHumanSignature (mName m) (Inputs m).
Definition eSig (e : Event) : bytes := buildSignature (eName e) (eInputs e).

(** [strings.TrimPrefix], [strings.TrimSpace] *)
Definition TrimPrefix (s p : bytes) : bytes := default s (strip_prefix p s).
Definition space (c : Z) : bool := (9 <=? c) && (c <=? 13) || (c =? 32).
Definition TrimSpace (s : bytes) : bytes := rev (span space (rev (span space s).2)).2.
(** The longest text before an occurrence of [pat] for which [k] accepts what
    follows: a greedy [.*] and a literal. *)
Fixpoint greedy {A} (pat : bytes) (k : bytes -> bytes -> option A) (pre s : bytes) : option A :=
  match (match s with [] => None | c :: s => greedy pat k (pre ++ [c]) s end) with
  | Some r => Some r
  | None => match strip_prefix pat s with Some r => k pre r | None => None end
  end.
(** [funcRegexp] on one line: name, arguments, anything, [ returns ], results *)
Definition match_func (s : bytes) : option (bytes * bytes * bytes) :=
  greedy (str "(") (fun g1 r => greedy (str ")") (fun g2 r => greedy (str " returns (") (fun _ r =>
    greedy (str ")") (fun g4 _ => Some (g1, g2, g4)) [] r) [] r) [] r) [] s.
Fixpoint lines (s line : bytes) : list bytes :=
  match s with [] => [line] | c :: s => if c =? 10 then line :: lines s [] else lines s (line ++ [c]) end.
Fixpoint first_match (l : list bytes) : option (bytes * bytes * bytes) :=
  match l with [] => None | s :: l => match match_func s with Some r => Some r | None => first_match l end end.
Definition newTuple (args : bytes) : result Ty :=
  r ← NewType (str "tuple" ++ args);
  match r with inl t => Ret (inl t) | inr e => Ret (inr (badSignature e)) end.
Definition parseMethodSignature (name : bytes) : result (bytes * Ty * Ty) :=
  match first_match (lines (TrimPrefix name (str "function ")) []) with
  | None => err noMatch
  | Some (g1, g2, g4) =>
      input ← newTuple (str "(" ++ TrimSpace g2 ++ str ")");
      output ← newTuple (str "(" ++ TrimSpace g4 ++ str ")");
      mret (TrimSpace g1, input, output)
  end.
Definition NewMethod (sig : bytes) : result Method :=
  '(name, inputs, outputs) ← parseMethodSignature sig; mret (mkMethod name false inputs outputs).
Definition HasSuffix (s p : bytes) : bool := bool_decide (drop (length s - length p) s = p).
Definition parseEventSignature (name : bytes) : result (bytes * Ty) :=
  let name := TrimPrefix name (str "event ") in
  if negb (HasSuffix name (str ")")) then err noMatch
  else
    let '(funcName, signature) := span (fun c => negb (c =? 40)) name in
    if bool_decide (signature = []) then err noMatch
    else typ ← newTuple signature; mret (funcName, typ).
Definition NewEvent (sig : bytes) : result Event :=
  '(name, typ) ← parseEventSignature sig; mret (mkEvent name false typ).

(** ** Interface descriptions *)
Record ABI := mkABI {
  Constructor : option Method;
  Methods : gmap (list Z) Method;
  MethodsBySig : gmap (list Z) Method;
  Events : gmap (list Z) Event;
}.
Definition emptyABI : ABI := mkABI None ∅ ∅ ∅.
Definition addEvent (e : Event) (a : ABI) : ABI :=
  mkABI (Constructor a) (Methods a) (MethodsBySig a) (<[eName e := e]> (Events a)).
Definition addMethod (m : Method) (a : ABI) : ABI :=
  mkABI (Constructor a) (<[mName m := m]> (Methods a)) (<[Sig m := m]> (MethodsBySig a)) (Events a).
Fixpoint NewABIFromList (l : list bytes) (res : ABI) : result ABI :=
  match l with
  | [] => mret res
  | c :: l =>
      match strip_prefix (str "function ") c, strip_prefix (str "event ") c with
      | Some _, _ => m ← NewMethod c; NewABIFromList l (addMethod m res)
      | None, Some _ => e ← NewEvent c; NewABIFromList l (addEvent e res)
      | None, None => err noMatch
      end
  end.
(** [argument.UnmarshalJSON]: a type that does not parse is a panic. *)
Definition argument (arg : ArgumentStr) : outcome (TupleElem Ty) :=
  r ← NewTypeFromArgument arg;
  match r with
  | inr _ => Panic
  | inl (KindTuple _ l) =>
      let name := if bool_decide (aInternalType arg = []) then [] else Title (last_part (aInternalType arg) []) in
      Ret (mkElem (aName arg) (KindTuple name l) (aIndexed arg))
  | inl t => Ret (mkElem (aName arg) t (aIndexed arg))
  end.
Fixpoint arguments (l : list ArgumentStr) : outcome (list (TupleElem Ty)) :=
  match l with [] => Ret [] | a :: l => x ← argument a; xs ← arguments l; Ret (x :: xs) end.
Record field := mkJField {
  jType : bytes;
  jName : bytes;
  jConstant : bool;
  jAnonymous : bool;
  jStateMutability : bytes;
  jInputs : list ArgumentStr;
  jOutputs : list ArgumentStr;
}.
Inductive json_error := multipleConstructors | unknownField.
Definition addField (f : field) (a : ABI) : outcome (ABI + json_error) :=
  inputs ← arguments (jInputs f);
  outputs ← arguments (jOutputs f);
  if bool_decide (jType f = str "constructor") then
    match Constructor a with
    | Some _ => Ret (inr multipleConstructors)
    | None => Ret (inl (mkABI (Some (mkMethod [] false (KindTuple [] inputs) (KindTuple [] []))) (Methods a) (MethodsBySig a) (Events a)))
    end
  else if bool_decide (jType f = str "function") || bool_decide (jType f = []) then
    let c := jConstant f || bool_decide (jStateMutability f = str "view") || bool_decide (jStateMutability f = str "pure") in
    Ret (inl (addMethod (mkMethod (jName f) c (KindTuple [] inputs) (KindTuple [] outputs)) a))
  else if bool_decide (jType f = str "event") then
    Ret (inl (addEvent (mkEvent (jName f) (jAnonymous f) (KindTuple [] inputs)) a))
  else if bool_decide (jType f = str "fallback") || bool_decide (jType f = str "receive") then Ret (inl a)
  else Ret (inr unknownField).
Fixpoint unmarshalFields (l : list field) (a : ABI) : outcome (ABI + json_error) :=
  match l with
  | [] => Ret (inl a)
  | f :: l => r ← addField f a; match r with inl a => unmarshalFields l a | inr e => Ret (inr e) end
  end.

(** ** Calls and logs of a contract *)
Section Contract.
Context (keccak : bytes -> Hash).
Definition ID (m : Method) : bytes := take 4 (keccak (Sig m)).
Definition eID (e : Event) : Hash := keccak (eSig e).
Definition EncodeIDAndInput (m : Method) (args : list Value) : result bytes :=
  data ← Encode (VSlice GIface (as_iface <$> args)) (Inputs m); mret (ID m ++ data).
(** The methods in the order the map is walked, which Go leaves open. *)
Fixpoint decode_tx (spare : bytes) (methods : list Method) (input : bytes) : result (Value * bytes) :=
  match methods with
  | [] => err noMatch
  | m :: methods =>
      id ← reslice spare 0 4 input;
      if bool_decide (ID m = id) then
        _ ← (if len input <? 4 then crash else mret ());
        value ← Decode spare (Inputs m) (drop 4 input); mret (value, DetailedSig m)
      else decode_tx spare methods input
  end.
Definition Match (e : Event) (log : Log) : bool :=
  match Topics log with [] => false | t :: _ => bool_decide (t = eID e) end.
Definition eParseLog (spare : bytes) (e : Event) (log : Log) : result (list (bytes * Value)) :=
  if negb (Match e log) then err noMatch else ParseLog spare (eInputs e) log.
End Contract.

Example transfer_method : NewMethod (str "function transfer(address to, uint256 value) public returns (bool)") =
  Ret (inl (mkMethod (str "transfer") false
    (KindTuple [] [mkElem (str "to") KindAddress false; mkElem (str "value") (KindUInt 256) false])
    (KindTuple [] [mkElem [] KindBool false]))).
Proof. vm_compute. reflexivity. Qed.
(** A tuple among the parameters ends up in the method's name. *)
Example tuple_parameter_is_misread : NewMethod (str "function f(tuple(uint256 a) b) returns (bool)") =
  Ret (inl (mkMethod (str "f(tuple") false (KindTuple [] [mkElem (str "a") (KindUInt 256) false]) (KindTuple [] [mkElem [] KindBool false]))).
Proof. vm_compute. reflexivity. Qed.
(** A struct declared outside a contract ("struct Foo") is a panic. *)
Example file_level_struct_panics :
  argument (mkArg (str "x") (str "tuple") (str "struct Foo") false [mkArg (str "a") (str "uint256") (str "uint256") false []]) = Panic.
Proof. vm_compute. reflexivity. Qed.
