(* ===== verification/AbiFacts.v ===== *)
(** * The ABI codec against its specification

    [spec_enc] is the encoding of the contract ABI specification, on abstract
    values ([aval]): the head of a sequence holds the static parts and the
    offsets of the dynamic ones, the tail the dynamic parts.  [encode] computes
    it from every Go representation of a value, [decode] inverts it. *)

From S2P Require Import Prelude Words BigInt Text AbiType AbiCodec.

Lemma Ty_nested_ind (Q : Ty -> Prop) :
  Q KindBool -> (forall n, Q (KindUInt n)) -> (forall n, Q (KindInt n)) -> Q KindString ->
  (forall n e, Q e -> Q (KindArray n e)) -> (forall e, Q e -> Q (KindSlice e)) -> Q KindAddress -> Q KindBytes ->
  (forall n, Q (KindFixedBytes n)) -> Q KindFixedPoint ->
  (forall nm l, Forall (fun e => Q (Elem e)) l -> Q (KindTuple nm l)) -> Q KindFunction -> forall t, Q t.
Proof.
  intros Hbool Hu Hi Hstr Ha Hs Haddr Hby Hf Hfp Ht Hfn. fix IH 1.
  intros [|n|n| |n e|e| | |n| |nm l|]; [exact Hbool|apply Hu|apply Hi|exact Hstr|apply Ha, IH|apply Hs, IH|exact Haddr|exact Hby|apply Hf|exact Hfp| |exact Hfn].
  apply Ht. induction l; constructor; [apply IH|assumption].
Qed.

(** ** The specification *)
Inductive aval := ABool (b : bool) | ANum (z : Z) | ABytes (b : bytes) | ASeq (l : list aval).

(** An encoded part of a sequence: whether it is dynamic, and its bytes. *)
Abbreviation item := (bool * list Z)%type.
Definition head_len (i : item) : Z := if i.1 then 32 else len i.2.
Fixpoint heads_len (l : list item) : Z := match l with [] => 0 | i :: l => head_len i + heads_len l end.
Fixpoint heads (off : Z) (l : list item) : bytes :=
  match l with
  | [] => []
  | (true, b) :: l => be_bytes 32 off ++ heads (off + len b) l
  | (false, b) :: l => b ++ heads off l
  end.
Definition tails (l : list item) : bytes := mjoin ((fun i : item => if i.1 then i.2 else []) <$> l).
Definition head_tail (l : list item) : bytes := heads (heads_len l) l ++ tails l.

Section Items.
Context {A : Type} (f : Ty -> aval -> A).
Fixpoint zip_fields (es : list (TupleElem Ty)) (l : list aval) : list A :=
  match es, l with e :: es, x :: l => f (Elem e) x :: zip_fields es l | _, _ => [] end.
End Items.
Definition padded (b : bytes) : bytes := b ++ replicate (Z.to_nat ((len b + 31) / 32 * 32 - len b)) 0.
Fixpoint spec_enc (t : Ty) (x : aval) : bytes :=
  match t, x with
  | KindBool, ABool b => be_bytes 32 (if b then 1 else 0)
  | KindUInt _, ANum z | KindInt _, ANum z => be_bytes 32 z
  | KindAddress, ABytes b => replicate 12 0 ++ b
  | KindFixedBytes _, ABytes b | KindFunction, ABytes b => b ++ replicate (32 - length b) 0
  | KindBytes, ABytes b | KindString, ABytes b => be_bytes 32 (len b) ++ padded b
  | KindArray _ e, ASeq l => head_tail ((fun x => (isDynamicType e, spec_enc e x)) <$> l)
  | KindSlice e, ASeq l => be_bytes 32 (Z.of_nat (length l)) ++ head_tail ((fun x => (isDynamicType e, spec_enc e x)) <$> l)
  | KindTuple _ es, ASeq l => head_tail (zip_fields (fun t x => (isDynamicType t, spec_enc t x)) es l)
  | _, _ => []
  end.

(** Values of a type *)
Fixpoint keys_from (i : Z) (es : list (TupleElem Ty)) : list bytes :=
  match es with [] => [] | e :: es => NameToKey (Name e) i :: keys_from (i + 1) es end.
Definition keys (es : list (TupleElem Ty)) : list bytes := keys_from 0 es.
Section Fields.
Context (P : Ty -> aval -> Prop).
Fixpoint all_fields (es : list (TupleElem Ty)) (l : list aval) : Prop :=
  match es, l with
  | [], [] => True
  | e :: es, x :: l => P (Elem e) x /\ all_fields es l
  | _, _ => False
  end.
End Fields.
Fixpoint typed (t : Ty) (x : aval) : Prop :=
  match t, x with
  | KindBool, ABool _ => True
  | KindUInt n, ANum z => 8 <= n <= 256 /\ 0 <= z < 2 ^ n
  | KindInt n, ANum z => 8 <= n <= 256 /\ - 2 ^ (n - 1) <= z < 2 ^ (n - 1)
  | KindString, ABytes b | KindBytes, ABytes b => bytes_ok b
  | KindAddress, ABytes b => bytes_ok b /\ length b = 20%nat
  | KindFixedBytes n, ABytes b => bytes_ok b /\ 1 <= n <= 32 /\ len b = n
  | KindFunction, ABytes b => bytes_ok b /\ length b = 24%nat
  | KindArray n e, ASeq l => 0 < n /\ Z.of_nat (length l) = n /\ Forall (typed e) l
  | KindSlice e, ASeq l => Forall (typed e) l
  | KindTuple _ es, ASeq l => es <> [] /\ NoDup (keys es) /\ all_fields typed es l
  | _, _ => False
  end.

(** The Go value the decoder returns *)
Definition goNum (g : GoType) (z : Z) : Value := match g with GUint w => VUint w z | GInt w => VInt w z | _ => VBig z end.
Fixpoint goval (t : Ty) (x : aval) : Value :=
  match t, x with
  | KindBool, ABool b => VBool b
  | KindUInt _, ANum z | KindInt _, ANum z => goNum (goType t) z
  | KindString, ABytes b => VString b
  | KindBytes, ABytes b => VBytes b
  | KindAddress, ABytes b | KindFixedBytes _, ABytes b | KindFunction, ABytes b => VByteArray b
  | KindArray _ e, ASeq l => VArray (goType e) (goval e <$> l)
  | KindSlice e, ASeq l => VSlice (goType e) (goval e <$> l)
  | KindTuple _ es, ASeq l => VMap (zip (keys es) (zip_fields goval es l))
  | _, _ => VInvalid
  end.
(** The Go values a program may pass for an abstract value *)
Section Repr.
Context (P : Ty -> Value -> aval -> Prop).
Fixpoint repr_fields (get : Z -> TupleElem Ty -> Value) (i : Z) (es : list (TupleElem Ty)) (l : list aval) : Prop :=
  match es, l with
  | [], [] => True
  | e :: es, x :: l => get i e <> VInvalid /\ P (Elem e) (get i e) x /\ repr_fields get (i + 1) es l
  | _, _ => False
  end.
End Repr.
Fixpoint repr (t : Ty) (v : Value) (x : aval) : Prop :=
  let v := iface_elem v in
  match t, x with
  | KindBool, ABool b => v = VBool b
  | KindUInt _, ANum z | KindInt _, ANum z => v = VBig z \/ exists w, v = VUint w z \/ v = VInt w z
  | KindString, ABytes b => v = VString b
  | KindBytes, ABytes b | KindAddress, ABytes b | KindFixedBytes _, ABytes b | KindFunction, ABytes b =>
      v = VBytes b \/ v = VByteArray b
  | KindArray _ e, ASeq l => exists g vs, v = VArray g vs /\ Forall2 (repr e) vs l
  | KindSlice e, ASeq l => exists g vs, v = VSlice g vs /\ Forall2 (repr e) vs l
  | KindTuple _ es, ASeq l =>
      exists src, tupleSource v = Ret (inl src) /\ (length es <= source_len src)%nat /\ repr_fields repr (source_get src) 0 es l
  | _, _ => False
  end.

(** ** Words *)
Lemma be_bytes_unique n l x : bytes_ok l -> length l = n -> be_val l = x -> l = be_bytes n x.
Proof. intros Hb <- <-. by rewrite be_bytes_be_val. Qed.
Lemma leftPad_be x n : 0 <= n -> 0 <= x < 256 ^ n -> leftPad (bigBytes x) n = be_bytes (Z.to_nat n) x.
Proof.
  intros Hn Hx. destruct (bigBytes_ok x ltac:(lia)) as [Hb Hv]. pose proof (bigBytes_len x n Hn Hx) as Hl.
  unfold leftPad, padBytes. destruct (Z.eqb_spec (len (bigBytes x)) n) as [E|E].
  - apply be_bytes_unique; [done|unfold len in E; lia|done].
  - destruct (Z.ltb_spec n (len (bigBytes x))); [lia|]. apply be_bytes_unique.
    + apply Forall_app; split; [apply Forall_replicate; unfold is_byte; lia|done].
    + unfold len in *. rewrite length_app, length_replicate. lia.
    + rewrite be_val_app, Hv. assert (forall k, be_val (replicate k 0) = 0) as Hz.
      { induction k as [|k IH]; [done|]. cbn [replicate]. by rewrite be_val_cons, IH. }
      rewrite Hz. lia.
Qed.
Lemma toU256_be z : toU256 z = be_bytes 32 z.
Proof.
  assert (forall y, 0 <= y < 2 ^ 256 -> leftPad (bigBytes y) 32 = be_bytes 32 y) as Hp.
  { intros y Hy. apply (leftPad_be y 32); [lia|]. exact Hy. }
  assert (forall y, Z.land y tt256m1 = y mod 2 ^ 256) as Hm by (intros y; change tt256m1 with (Z.ones 256); apply Z.land_ones; lia).
  unfold toU256. destruct ((z <? 0) || (256 <? BitLen z)) eqn:E.
  - rewrite Hm, Hp by (apply Z.mod_pos_bound; lia). apply (be_bytes_mod 32).
  - apply orb_false_iff in E as [E1%Z.ltb_ge E2]. rewrite BitLen_gt in E2 by lia. apply Z.leb_gt in E2. apply Hp. lia.
Qed.
Lemma rightPad_zeros b n : len b <= n -> rightPad b n = b ++ replicate (Z.to_nat (n - len b)) 0.
Proof.
  intros H. unfold rightPad, padBytes. destruct (Z.eqb_spec (len b) n) as [E|E].
  - replace (n - len b) with 0 by lia. by rewrite app_nil_r.
  - destruct (Z.ltb_spec n (len b)); [lia|done].
Qed.
Lemma rightPad_padded b : rightPad b ((len b + 31) / 32 * 32) = padded b.
Proof.
  apply rightPad_zeros. pose proof (Z.div_mod (len b + 31) 32 ltac:(lia)). pose proof (Z.mod_pos_bound (len b + 31) 32 ltac:(lia)). lia.
Qed.
Lemma leftPad_zeros b n : len b <= n -> leftPad b n = replicate (Z.to_nat (n - len b)) 0 ++ b.
Proof.
  intros H. unfold leftPad, padBytes. destruct (Z.eqb_spec (len b) n) as [E|E].
  - by replace (n - len b) with 0 by lia.
  - destruct (Z.ltb_spec n (len b)); [lia|done].
Qed.
Lemma uint8s_bytes b : uint8s (VUint 8 <$> b) = b.
Proof. unfold uint8s. rewrite <- list_fmap_compose. by apply list_fmap_id. Qed.

(** ** Lengths *)
Lemma len_word z : len (be_bytes 32 z) = 32.
Proof. unfold len. by rewrite length_be_bytes. Qed.
Lemma len_zeros n (z : Z) : len (replicate n z) = Z.of_nat n.
Proof. unfold len. by rewrite length_replicate. Qed.
Lemma padded_len b : len (padded b) = (len b + 31) / 32 * 32.
Proof.
  unfold padded. rewrite len_app, len_zeros. pose proof (len_nonneg b). pose proof (Z.div_mod (len b + 31) 32 ltac:(lia)).
  pose proof (Z.mod_pos_bound (len b + 31) 32 ltac:(lia)). lia.
Qed.
Lemma heads_length off l : len (heads off l) = heads_len l.
Proof.
  revert off. induction l as [|[[] b] l IH]; intros off; cbn [heads heads_len head_len fst snd]; [done|..]; rewrite len_app, IH.
  - by rewrite len_word.
  - done.
Qed.
Lemma heads_len_nonneg l : 0 <= heads_len l.
Proof. induction l as [|[[] b] l IH]; cbn [heads_len head_len fst snd]; [lia|lia|]. pose proof (len_nonneg b). lia. Qed.
Lemma head_tail_len l : len (head_tail l) = heads_len l + len (tails l).
Proof. unfold head_tail. by rewrite len_app, heads_length. Qed.
Lemma tails_cons i l : tails (i :: l) = (if i.1 then i.2 else []) ++ tails l.
Proof. done. Qed.
Lemma tails_static l : Forall (fun i : item => i.1 = false) l -> tails l = [].
Proof. induction 1 as [|[[] b] l Hi _ IH]; [done|done|]. exact IH. Qed.
Lemma heads_static off l : Forall (fun i : item => i.1 = false) l -> heads off l = mjoin (snd <$> l) /\ heads_len l = len (mjoin (snd <$> l)).
Proof.
  induction 1 as [|[[] b] l Hi _ [IH1 IH2]]; [done|done|]. cbn [heads heads_len head_len fst snd fmap list_fmap mjoin list_join].
  rewrite IH1, IH2, len_app. done.
Qed.
Lemma getTypeSize_dyn t : isDynamicType t = true -> getTypeSize t = 32.
Proof. destruct t; cbn [getTypeSize isDynamicType]; try done; intros ->; done. Qed.
(** The code's sizes agree with the encodings, up to overflow. *)
Definition cong (a b : Z) : Prop := a mod 2 ^ 64 = b mod 2 ^ 64.
Lemma int64_cong a : cong (int64 a) a.
Proof. unfold cong, int64. rewrite Zminus_mod_idemp_l. f_equal. lia. Qed.
Lemma int64_eq a b : cong a b -> int64 a = int64 b.
Proof. unfold cong, int64. intros H. rewrite <- (Zplus_mod_idemp_l a), <- (Zplus_mod_idemp_l b). by rewrite H. Qed.
Lemma int64_small a : 0 <= a < 2 ^ 63 -> int64 a = a.
Proof. intros H. unfold int64. rewrite Z.mod_small by lia. lia. Qed.
Lemma cong_add a b c d : cong a b -> cong c d -> cong (a + c) (b + d).
Proof. unfold cong. intros H1 H2. rewrite Z.add_mod, H1, H2, <- Z.add_mod by lia. done. Qed.
Lemma cong_mul a b c : cong a b -> cong (c * a) (c * b).
Proof. unfold cong. intros H. rewrite Z.mul_mod, H, <- Z.mul_mod by lia. done. Qed.
#[global] Instance cong_equiv : Equivalence cong.
Proof. split; unfold cong; [done|by intros x y|intros x y z; congruence]. Qed.
(** [getTypeSize] of an element is the length of its head. *)
Definition sized (t : Ty) (x : aval) : Prop := cong (getTypeSize t) (head_len (isDynamicType t, spec_enc t x)).
Lemma fields_sized es l acc : all_fields sized es l ->
  cong (foldl (fun total elem => int64 (total + getTypeSize (Elem elem))) acc es)
       (acc + heads_len (zip_fields (fun t x => (isDynamicType t, spec_enc t x)) es l)).
Proof.
  revert l acc. induction es as [|e es IH]; intros [|x l] acc H; cbn in H; try done; [cbn; by rewrite Z.add_0_r|]. destruct H as [Hx Hl].
  cbn [foldl zip_fields heads_len]. etrans; [by apply IH|]. rewrite Z.add_assoc. apply cong_add; [|done].
  etrans; [apply int64_cong|]. by apply cong_add.
Qed.
Lemma int64_idem a : int64 (int64 a) = int64 a.
Proof. apply int64_eq, int64_cong. Qed.
Lemma sum_is_int (es : list (TupleElem Ty)) : es <> [] ->
  let s := foldl (fun total elem => int64 (total + getTypeSize (Elem elem))) 0 es in int64 s = s.
Proof. intros H s. unfold s. destruct es as [|e es _] using rev_ind; [done|]. rewrite foldl_app. apply int64_idem. Qed.
Lemma elems_sized e l : isDynamicType e = false -> Forall (sized e) l ->
  cong (Z.of_nat (length l) * getTypeSize e) (heads_len ((fun x => (isDynamicType e, spec_enc e x)) <$> l)).
Proof.
  intros Hd. induction 1 as [|x l Hx _ IH]; [done|]. cbn [fmap list_fmap heads_len length].
  replace (Z.of_nat (S (length l)) * getTypeSize e) with (getTypeSize e + Z.of_nat (length l) * getTypeSize e) by lia. by apply cong_add.
Qed.
Lemma all_fields_impl P Q es l : (forall e x, e ∈ es -> P (Elem e) x -> Q (Elem e) x) -> all_fields P es l -> all_fields Q es l.
Proof.
  revert l. induction es as [|e es IH]; intros [|x l] H; cbn; try done. intros [Hx Hl]. split; [apply H; [left|done]|].
  apply IH; [|done]. intros e' x' He'. apply H. by right.
Qed.
Lemma static_fields es l : existsb (fun e => isDynamicType (Elem e)) es = false ->
  Forall (fun i : item => i.1 = false) (zip_fields (fun t x => (isDynamicType t, spec_enc t x)) es l).
Proof.
  revert l. induction es as [|e es IH]; intros [|x l]; cbn; try constructor. all: apply orb_false_iff in H as [H1 H2]; auto.
Qed.
Lemma static_elems e (l : list aval) : isDynamicType e = false ->
  Forall (fun i : item => i.1 = false) ((fun x => (isDynamicType e, spec_enc e x)) <$> l).
Proof. intros H. apply Forall_fmap, list.Forall_forall. by intros x _. Qed.
Lemma getTypeSize_array n e : isDynamicType e = false -> getTypeSize (KindArray n e) = int64 (n * getTypeSize e).
Proof. intros H. cbn [getTypeSize]. rewrite H. by destruct e. Qed.
Lemma typed_sized t : forall x, typed t x -> sized t x.
Proof.
  unfold sized. induction t as [|n|n| |n t IHt|t IHt| | |n| |nm es IHes|] using Ty_nested_ind; intros [] Hx; cbn [typed] in Hx; try done.
  all: try (unfold head_len; cbn [fst snd isDynamicType spec_enc getTypeSize]; rewrite ?len_app, ?len_word, ?len_zeros; unfold len in *; f_equal; lia).
  - destruct Hx as (Hn & Hl & Hx). destruct (isDynamicType (KindArray n t)) eqn:Hd; [by rewrite getTypeSize_dyn|].
    cbn [isDynamicType] in Hd. rewrite getTypeSize_array by done. unfold head_len. cbn [fst snd spec_enc].
    rewrite head_tail_len, tails_static, Z.add_0_r by by apply static_elems. etrans; [apply int64_cong|]. rewrite <- Hl.
    apply elems_sized; [done|]. eapply Forall_impl; [exact IHt|exact Hx].
  - destruct Hx as (Hn & Hk & Hx). destruct (isDynamicType (KindTuple nm es)) eqn:Hd; [by rewrite getTypeSize_dyn|].
    cbn [getTypeSize]. rewrite Hd. cbn [isDynamicType] in Hd. unfold head_len. cbn [fst snd spec_enc].
    rewrite head_tail_len, tails_static, Z.add_0_r by by apply static_fields. apply (fields_sized es l 0).
    eapply all_fields_impl; [|exact Hx]. intros e x He. rewrite list.Forall_forall in IHes. by apply IHes.
Qed.

(** ** Encoding *)
Definition encodes (t : Ty) (v : Value) (x : aval) : Prop := encode t v = Ret (inl (spec_enc t x)).
Lemma encode_elems_ok e (l : list aval) : forall vs off ret tail, Forall2 (encodes e) vs l ->
  encode_elems encode e (isDynamicType e) vs off ret tail =
  let its := (fun x => (isDynamicType e, spec_enc e x)) <$> l in Ret (inl (ret ++ heads off its ++ tail ++ tails its)).
Proof.
  induction l as [|x l IH]; intros vs off ret tail H; inversion H as [|v ? vs' ? Hv Hvs]; subst; cbn [encode_elems].
  - cbn. by rewrite app_nil_r.
  - rewrite Hv. cbn [mbind result_bind]. destruct (isDynamicType e) eqn:Hd; cbn [negb].
    + rewrite IH by done. cbn [fmap list_fmap]. cbv zeta. cbn [heads]. unfold packNum. rewrite toU256_be. unfold tails at 2.
      cbn [fmap list_fmap mjoin list_join fst snd]. by rewrite <- !app_assoc.
    + rewrite IH by done. cbn [fmap list_fmap]. cbv zeta. cbn [heads]. unfold tails at 2. cbn [fmap list_fmap mjoin list_join fst snd].
      by rewrite <- !app_assoc.
Qed.
Section FieldsOk.
Context (get : Z -> TupleElem Ty -> Value).
Fixpoint encode_each (i : Z) (es : list (TupleElem Ty)) (l : list aval) : Prop :=
  match es, l with
  | [], [] => True
  | e :: es, x :: l => get i e <> VInvalid /\ encodes (Elem e) (get i e) x /\ encode_each (i + 1) es l
  | _, _ => False
  end.
Lemma encode_fields_ok es : forall l i off ret tail, encode_each i es l ->
  encode_fields encode get i es off ret tail =
  let its := zip_fields (fun t x => (isDynamicType t, spec_enc t x)) es l in Ret (inl (ret ++ heads off its ++ tail ++ tails its)).
Proof.
  induction es as [|e es IH]; intros [|x l] i off ret tail H; cbn in H; try done; cbn [encode_fields zip_fields].
  - cbn. by rewrite app_nil_r.
  - destruct H as (Hg & He & Hl). unfold encodes in He. cbv zeta.
    transitivity (val ← encode (Elem e) (get i e);
      if isDynamicType (Elem e) then encode_fields encode get (i + 1) es (off + len val) (ret ++ packNum off) (tail ++ val)
      else encode_fields encode get (i + 1) es off (ret ++ val) tail); [by destruct (get i e)|].
    rewrite He. cbn [mbind result_bind]. unfold tails at 1. cbn [fmap list_fmap mjoin list_join fst snd]. fold (tails (zip_fields (fun t x => (isDynamicType t, spec_enc t x)) es l)).
    destruct (isDynamicType (Elem e)) eqn:Hd; cbn [heads]; rewrite (IH l) by done; cbv zeta.
    + unfold packNum. rewrite toU256_be. by rewrite <- !app_assoc.
    + by rewrite <- !app_assoc.
Qed.
End FieldsOk.
Lemma bytes_of_repr v b : v = VBytes b \/ v = VByteArray b -> (v' ← convertArrayToBytes v; Bytes v') = Ret (inl b).
Proof.
  intros [-> | ->]; unfold VBytes, VByteArray, convertArrayToBytes; rewrite ?bool_decide_true by done; cbn [mbind result_bind mret result_ret];
    unfold Bytes; rewrite bool_decide_true by done; by rewrite uint8s_bytes.
Qed.
Lemma len_pos_le (a b : bytes) : len a <= len (a ++ b).
Proof. rewrite len_app. pose proof (len_nonneg b). lia. Qed.

Lemma word_size t x : typed t x -> 32 <= len (spec_enc t x).
Proof.
  revert x. induction t as [|n|n| |n t IHt|t IHt| | |n| |nm es IHes|] using Ty_nested_ind; intros [bb|z|b|l] Hx; cbn [typed] in Hx; try done; cbn [spec_enc].
  all: rewrite ?len_app, ?len_word, ?len_zeros; try (unfold len in *; lia).
  - destruct Hx as (Hn & Hl & Hx). rewrite head_tail_len. pose proof (len_nonneg (tails ((fun x => (isDynamicType t, spec_enc t x)) <$> l))).
    destruct Hx as [|x l Hx _]; [cbn in Hl; lia|]. rewrite fmap_cons in *. cbn [heads_len].
    pose proof (heads_len_nonneg ((fun x => (isDynamicType t, spec_enc t x)) <$> l)). specialize (IHt x Hx). unfold head_len. cbn [fst snd].
    destruct (isDynamicType t); lia.
  - destruct Hx as (Hn & Hk & Hx). rewrite head_tail_len. match goal with |- _ <= _ + len ?h => pose proof (len_nonneg h) end.
    destruct es as [|e es]; [done|]. destruct l as [|x l]; [done|]. destruct Hx as [Hx _]. inversion IHes as [|? ? IHe _]; subst.
    specialize (IHe x Hx). cbn [zip_fields heads_len] in *. match goal with |- _ <= _ + heads_len ?h + _ => pose proof (heads_len_nonneg h) end.
    unfold head_len. cbn [fst snd]. destruct (isDynamicType (Elem e)); lia.
Qed.
Lemma item_le_head_tail (its : list item) i : i ∈ its -> len i.2 <= len (head_tail its).
Proof.
  rewrite head_tail_len. induction its as [|j its IH]; intros Hi; [by apply not_elem_of_nil in Hi|].
  rewrite tails_cons, len_app. cbn [heads_len].
  pose proof (heads_len_nonneg its). pose proof (len_nonneg (tails its)). unfold head_len. pose proof (len_nonneg j.2).
  apply elem_of_cons in Hi as [->|Hi]; [destruct j as [[] b]; cbn [fst snd] in *; change (len []) with 0; lia|].
  specialize (IH Hi). destruct j as [[] b]; cbn [fst snd] in *; change (len []) with 0; lia.
Qed.
Lemma zip_fields_encodes get es l : forall i,
  (forall e x, e ∈ es -> typed (Elem e) x -> len (spec_enc (Elem e) x) < 2 ^ 63 -> forall v, repr (Elem e) v x -> encodes (Elem e) v x) ->
  all_fields typed es l -> (forall j, j ∈ zip_fields (fun t x => (isDynamicType t, spec_enc t x)) es l -> len j.2 < 2 ^ 63) ->
  repr_fields repr get i es l -> encode_each get i es l.
Proof.
  revert l. induction es as [|e es IH]; intros [|x l] i He Ht Hl Hr; cbn in *; try done. destruct Ht as [Ht Hts], Hr as (Hg & Hr & Hrs).
  split_and!; [done| |].
  - apply He; try done; [left|]. apply (Hl (isDynamicType (Elem e), spec_enc (Elem e) x)). left.
  - apply IH; try done; [|by intros j Hj; apply Hl; right]. intros e' x' He'. apply He. by right.
Qed.
Lemma heads_len_dyn (l : list aval) (f : aval -> bytes) : heads_len ((fun x => (true, f x)) <$> l) = 32 * Z.of_nat (length l).
Proof. induction l as [|x l IH]; [done|]. rewrite fmap_cons. cbn [heads_len head_len fst length]. rewrite IH. lia. Qed.
Lemma encode_seq e l vs ret : Forall2 (encodes e) vs l ->
  encode_elems encode e (isDynamicType e) vs (if isDynamicType e then getTypeSize e * Z.of_nat (length vs) else 0) ret [] =
  Ret (inl (ret ++ head_tail ((fun x => (isDynamicType e, spec_enc e x)) <$> l))).
Proof.
  intros H. rewrite (encode_elems_ok e l) by done. cbv zeta. do 3 f_equal. unfold head_tail. cbn [app]. f_equal.
  destruct (isDynamicType e) eqn:Hd.
  - rewrite getTypeSize_dyn, heads_len_dyn, (list.Forall2_length _ _ _ H) by done. done.
  - rewrite <- Hd. pose proof (static_elems e l Hd) as Hs. by rewrite !(proj1 (heads_static _ _ Hs)).
Qed.
Lemma elems_encode e l vs : (forall x v, typed e x -> len (spec_enc e x) < 2 ^ 63 -> repr e v x -> encodes e v x) ->
  Forall (typed e) l -> len (head_tail ((fun x => (isDynamicType e, spec_enc e x)) <$> l)) < 2 ^ 63 -> Forall2 (repr e) vs l ->
  Forall2 (encodes e) vs l.
Proof.
  intros IH Ht Hlen Hr. apply list.Forall2_same_length_lookup_2; [by eapply list.Forall2_length|]. intros i v x Hv Hx.
  rewrite list.Forall_lookup in Ht. apply IH; [by eapply Ht| |by eapply (Forall2_lookup_lr _ _ _ _ _ _ Hr)].
  eapply Z.le_lt_trans; [|exact Hlen]. apply (item_le_head_tail _ (isDynamicType e, spec_enc e x)).
  apply list_elem_of_fmap. exists x. split; [done|]. by eapply list_elem_of_lookup_2.
Qed.
Lemma bytes_encode v b (k : bytes -> result bytes) : v = VBytes b \/ v = VByteArray b -> (v' ← convertArrayToBytes v; b' ← Bytes v'; k b') = k b.
Proof.
  intros H. pose proof (bytes_of_repr v b H) as E. destruct (convertArrayToBytes v) as [[v'|e]| |]; try done. cbn [mbind result_bind] in *.
  by rewrite E.
Qed.
Theorem encode_ok t : forall x v, typed t x -> len (spec_enc t x) < 2 ^ 63 -> repr t v x -> encodes t v x.
Proof.
  unfold encodes. induction t as [|n|n| |n t IHt|t IHt| | |n| |nm es IHes|] using Ty_nested_ind; intros [b|z|b|l] v Hx Hlen Hr;
    cbn [typed repr] in Hx, Hr; try done; cbn [encode]; revert Hr; generalize (iface_elem v); clear v; intros v Hr.
  - subst v. cbn [encodeBool]. destruct b; by vm_compute.
  - assert (encodeNum v = mret (toU256 z)) as -> by (destruct Hr as [->|(w & [-> | ->])]; done). by rewrite toU256_be.
  - assert (encodeNum v = mret (toU256 z)) as -> by (destruct Hr as [->|(w & [-> | ->])]; done). by rewrite toU256_be.
  - subst v. cbn [encodeString]. unfold packBytesSlice. by rewrite toU256_be, rightPad_padded.
  - destruct Hx as (Hn & Hl & Hx), Hr as (g & vs & -> & Hr). cbn [seqElems]. rewrite (list.Forall2_length _ _ _ Hr), Hl, Z.eqb_refl.
    cbn [mbind result_bind mret result_ret]. rewrite <- Hl, <- (list.Forall2_length _ _ _ Hr). rewrite (encode_seq t l); [done|].
    by apply elems_encode.
  - destruct Hr as (g & vs & -> & Hr). cbn [seqElems mbind result_bind mret result_ret]. cbn [spec_enc] in Hlen.
    rewrite (encode_seq t l).
    + unfold packNum. by rewrite toU256_be, (list.Forall2_length _ _ _ Hr).
    + apply elems_encode; try done. rewrite len_app, len_word in Hlen. lia.
  - unfold encodeAddress. rewrite (bytes_encode v b) by done. rewrite leftPad_zeros by (unfold len; lia). unfold len. destruct Hx as [_ ->]. done.
  - unfold encodeBytes. rewrite (bytes_encode v b) by done. unfold packBytesSlice. by rewrite toU256_be, rightPad_padded.
  - unfold encodeFixedBytes. rewrite (bytes_encode v b) by done. rewrite rightPad_zeros by lia. cbn [spec_enc].
    by replace (Z.to_nat (32 - len b)) with (32 - length b)%nat by (unfold len; lia).
  - destruct Hx as (Hn & Hk & Hx), Hr as (src & -> & Hlt & Hr). cbn [mbind result_bind].
    destruct (Nat.ltb_spec (source_len src) (length es)); [lia|]. cbn [spec_enc] in *.
    assert (encode_each (source_get src) 0 es l) as He.
    { eapply zip_fields_encodes; try done.
      - intros e x He Ht Hle v' Hv'. rewrite list.Forall_forall in IHes. by apply IHes.
      - intros j Hj. eapply Z.le_lt_trans; [|exact Hlen]. by apply item_le_head_tail. }
    rewrite (encode_fields_ok _ es l) by done. cbv zeta. cbn [app]. unfold head_tail. do 4 f_equal.
    assert (all_fields sized es l) as Hsz by (eapply all_fields_impl; [|exact Hx]; intros; by apply typed_sized).
    pose proof (fields_sized es l 0 Hsz) as Hc. rewrite Z.add_0_l in Hc.
    rewrite head_tail_len in Hlen. match type of Hlen with heads_len ?h + len ?t < _ => pose proof (heads_len_nonneg h); pose proof (len_nonneg t) end.
    assert (foldl (fun total elem => int64 (total + getTypeSize (Elem elem))) 0 es = int64 (foldl (fun total elem => int64 (total + getTypeSize (Elem elem))) 0 es)) as ->
      by (symmetry; by apply sum_is_int).
    rewrite (int64_eq _ _ Hc). apply int64_small. lia.
  - unfold encodeFixedBytes. rewrite (bytes_encode v b) by done. rewrite rightPad_zeros by (unfold len; lia). cbn [spec_enc].
    by replace (Z.to_nat (32 - len b)) with (32 - length b)%nat by (unfold len; lia).
Qed.
