(* ===== verification/AbiDecodeFacts.v ===== *)
(** * Decoding inverts encoding

    [decode] reads back the specified encoding of every typed value, whatever
    follows it in the input. *)

From S2P Require Import Prelude Words BigInt Text AbiType AbiCodec AbiFacts.

Section Decode.
Context (spare : bytes).
Abbreviation dec := (decode spare).

(** ** Slices and words *)
Lemma reslice_prefix a rest n : len a = n -> reslice spare 0 n (a ++ rest) = Ret (inl a).
Proof.
  intros <-. unfold reslice, slice_ok. rewrite <- app_assoc. pose proof (len_nonneg a). pose proof (len_pos_le a (rest ++ spare)).
  rewrite !(proj2 (Z.leb_le _ _)) by lia. cbn [andb]. unfold slice. rewrite drop_0, Z.sub_0_r. unfold len. rewrite Nat2Z.id. by rewrite take_app_length.
Qed.
Lemma reslice_body w b rest : len w = 32 -> reslice spare 32 (32 + len b) (w ++ b ++ rest) = Ret (inl b).
Proof.
  intros Hw. unfold reslice, slice_ok. pose proof (len_nonneg b). assert (32 + len b <= len ((w ++ b ++ rest) ++ spare)) as Hl.
  { rewrite !len_app. pose proof (len_nonneg rest). pose proof (len_nonneg spare). lia. }
  rewrite !(proj2 (Z.leb_le _ _)) by lia. cbn [andb]. unfold slice. rewrite <- !app_assoc, drop_app_length' by (unfold len in Hw; lia).
  replace (Z.to_nat (32 + len b - 32)) with (length b) by (unfold len; lia). by rewrite take_app_length.
Qed.
Lemma word_val z : be_val (be_bytes 32 z) = z mod 2 ^ 256.
Proof. rewrite be_val_be_bytes. by change (256 ^ Z.of_nat 32) with (2 ^ 256). Qed.
Lemma small_word z : 0 <= z < 2 ^ 63 -> be_val (be_bytes 32 z) = z /\ (63 <? BitLen z) = false.
Proof. intros H. rewrite word_val, Z.mod_small, BitLen_gt by lia. split; [done|]. apply Z.leb_gt. lia. Qed.
Lemma readOffset_ok off X l : 0 <= off < 2 ^ 63 -> off <= l -> readOffset spare (be_bytes 32 off ++ X) l = Ret (inl off).
Proof.
  intros H Hl. unfold readOffset. rewrite reslice_prefix by apply len_word. cbn [mbind result_bind]. cbv zeta.
  destruct (small_word off H) as [-> ->]. destruct (Z.ltb_spec l off); [lia|done].
Qed.
Lemma readLength_ok n X : 0 <= n < 2 ^ 63 -> n <= 32 + len X -> readLength spare (be_bytes 32 n ++ X) = Ret (inl n).
Proof.
  intros H Hl. unfold readLength. rewrite reslice_prefix by apply len_word. cbn [mbind result_bind]. cbv zeta.
  destruct (small_word n H) as [-> ->]. rewrite len_app, len_word. destruct (Z.ltb_spec (32 + len X) n); [lia|done].
Qed.
Lemma word_long z X : (len (be_bytes 32 z ++ X) <? 32) = false.
Proof. rewrite len_app, len_word. pose proof (len_nonneg X). apply Z.ltb_ge. lia. Qed.
Lemma take_le_bytes n m z : (n <= m)%nat -> take n (le_bytes m z) = le_bytes n z.
Proof. revert m z. induction n as [|n IH]; intros [|m] z H; try lia; cbn; [done|done|]. f_equal. apply IH. lia. Qed.
Lemma low_bytes n z : (n <= 32)%nat -> drop (32 - n) (be_bytes 32 z) = be_bytes n z.
Proof.
  intros H. unfold be_bytes. rewrite skipn_rev, length_le_bytes. replace (32 - (32 - n))%nat with n by lia. by rewrite take_le_bytes.
Qed.
Lemma low_val w z : 0 < w <= 256 -> w mod 8 = 0 ->
  be_val (drop (length (be_bytes 32 z) - Z.to_nat (w / 8)) (be_bytes 32 z)) = z mod 2 ^ w.
Proof.
  intros Hw Hm. rewrite length_be_bytes. pose proof (Z.div_mod w 8 ltac:(lia)). rewrite low_bytes by lia. rewrite be_val_be_bytes, Z2Nat.id by lia.
  f_equal. change 256 with (2 ^ 8). rewrite <- Z.pow_mul_r by lia. f_equal. lia.
Qed.
Lemma signed_back w z : 0 < w -> - 2 ^ (w - 1) <= z < 2 ^ (w - 1) -> signed w (z mod 2 ^ w) = z.
Proof.
  intros Hw Hz. unfold signed. assert (2 ^ w = 2 * 2 ^ (w - 1)) as E by (rewrite <- Z.pow_succ_r by lia; f_equal; lia).
  rewrite Z.mod_mod by lia. destruct (Z.lt_ge_cases z 0) as [Hn|Hn].
  - replace (z mod 2 ^ w) with (z + 2 ^ w) by (symmetry; apply (mod_unique_range _ (-1)); lia).
    destruct (Z.ltb_spec (z + 2 ^ w) (2 ^ (w - 1))); lia.
  - rewrite Z.mod_small by lia. destruct (Z.ltb_spec z (2 ^ (w - 1))); lia.
Qed.
Lemma readInteger_uint n z : 8 <= n <= 256 -> 0 <= z < 2 ^ n -> readInteger (KindUInt n) (be_bytes 32 z) = goval (KindUInt n) (ANum z).
Proof.
  intros Hn Hz. unfold readInteger. cbn [goval goType]. cbv zeta. unfold uintT.
  repeat match goal with |- context [?n =? ?w] => is_var n; destruct (Z.eqb_spec n w) as [->|] end; cbn [goNum].
  1-4: rewrite low_val by (try lia; done); by rewrite Z.mod_small by lia.
  rewrite word_val, Z.mod_small; [done|]. split; [lia|]. eapply Z.lt_le_trans; [apply Hz|]. apply Z.pow_le_mono_r; lia.
Qed.
Lemma readInteger_int n z : 8 <= n <= 256 -> - 2 ^ (n - 1) <= z < 2 ^ (n - 1) ->
  readInteger (KindInt n) (be_bytes 32 z) = goval (KindInt n) (ANum z).
Proof.
  intros Hn Hz. unfold readInteger. cbn [goval goType]. cbv zeta. unfold intT.
  repeat match goal with |- context [?n =? ?w] => is_var n; destruct (Z.eqb_spec n w) as [->|] end; cbn [goNum].
  1-4: rewrite low_val by (try lia; done); by rewrite signed_back by lia.
  assert (2 ^ (n - 1) <= 2 ^ 255) by (apply Z.pow_le_mono_r; lia). rewrite word_val.
  destruct (Z.lt_ge_cases z 0).
  - replace (z mod 2 ^ 256) with (z + 2 ^ 256) by (symmetry; apply (mod_unique_range _ (-1)); lia).
    destruct (Z.ltb_spec (2 ^ 255 - 1) (z + 2 ^ 256)); [f_equal; lia|lia].
  - rewrite Z.mod_small by lia. destruct (Z.ltb_spec (2 ^ 255 - 1) z); [lia|done].
Qed.

(** ** Loops *)
Definition decodes (t : Ty) (x : aval) : Prop :=
  forall rest, exists tl, dec t (spec_enc t x ++ rest) = Ret (inl (goval t x, tl)) /\ (isDynamicType t = false -> tl = rest).
Lemma drop_app_add (a b c : bytes) n : drop n c = a ++ b -> drop (n + length a) c = b.
Proof. intros E. rewrite <- drop_drop, E. by rewrite drop_app_length. Qed.
(** The part an offset points to *)
Lemma entry_at (orig b r : bytes) off : 0 <= off -> drop (Z.to_nat off) orig = b ++ r -> off + len b <= len orig -> 
  drop (Z.to_nat (off + len b)) orig = r.
Proof.
  intros Ho E Hl. replace (Z.to_nat (off + len b)) with (Z.to_nat off + length b)%nat by (unfold len; lia). by apply (drop_app_add b r).
Qed.
(** One item_step of either loop: fetch, decode, advance. *)
Definition item_step (e : Ty) (orig data : bytes) : result (Value * bytes) :=
  entry ← (if isDynamicType e then offset ← readOffset spare data (len orig); mret (drop (Z.to_nat offset) orig) else mret data);
  '(val, tail) ← dec e entry;
  data ← (if negb (isDynamicType e) then mret tail else if len data <? 32 then crash else mret (drop 32 data));
  mret (val, data).
Definition placed (off : Z) (its : list item) (orig rest : bytes) : Prop :=
  0 <= off /\ off + len (tails its) < 2 ^ 63 /\ off + len (tails its) <= len orig /\ drop (Z.to_nat off) orig = tails its ++ rest.
Definition next_off (off : Z) (i : item) : Z := if i.1 then off + len i.2 else off.
Lemma heads_cons off i its : heads off (i :: its) = (if i.1 then be_bytes 32 off else i.2) ++ heads (next_off off i) its.
Proof. by destruct i as [[] b]. Qed.
Lemma item_step_ok e x off its orig rest X : decodes e x -> placed off ((isDynamicType e, spec_enc e x) :: its) orig rest ->
  let i := (isDynamicType e, spec_enc e x) in
  item_step e orig (heads off (i :: its) ++ X) = Ret (inl (goval e x, heads (next_off off i) its ++ X)) /\ placed (next_off off i) its orig rest.
Proof.
  intros Hd (H0 & H1 & H2 & H3). rewrite tails_cons in *. cbn [fst snd] in *. cbv zeta. rewrite heads_cons. unfold item_step, placed, next_off. cbn [fst snd].
  rewrite len_app in H1, H2. pose proof (len_nonneg (spec_enc e x)). pose proof (len_nonneg (tails its)).
  destruct (isDynamicType e) eqn:Hdy; cbn [negb]; (split; [|]).
  - rewrite <- app_assoc, readOffset_ok by lia. cbn [mbind result_bind mret result_ret]. rewrite H3, <- app_assoc.
    destruct (Hd (tails its ++ rest)) as (tl & -> & _). cbn [mbind result_bind]. rewrite <- ?app_assoc, word_long.
    cbn [mbind result_bind mret result_ret]. by rewrite drop_app_length' by (by rewrite length_be_bytes).
  - split_and!; [lia|lia|lia|]. apply (entry_at orig (spec_enc e x)); [lia|by rewrite app_assoc|lia].
  - rewrite <- app_assoc. cbn [mbind result_bind mret result_ret]. destruct (Hd (heads off its ++ X)) as (tl & -> & Htl).
    cbn [mbind result_bind mret result_ret]. by rewrite Htl by done.
  - change (len []) with 0 in *. split_and!; [lia|lia|lia|exact H3].
Qed.
(** Each loop is a sequence of steps. *)
Lemma decode_elems_step e orig data n res :
  decode_elems spare dec e orig data (S n) res = '(val, data) ← item_step e orig data; decode_elems spare dec e orig data n (res ++ [val]).
Proof.
  cbn [decode_elems]. unfold item_step. destruct (isDynamicType e); cbn [negb mbind result_bind mret result_ret].
  - destruct (readOffset spare data (len orig)) as [[o|er]| |]; try done. cbn [mbind result_bind mret result_ret].
    destruct (dec e _) as [[[v tl]|er]| |]; try done. cbn [mbind result_bind]. by destruct (len data <? 32).
  - by destruct (dec e data) as [[[v tl]|er]| |].
Qed.
Lemma decode_fields_step orig data i e es res :
  decode_fields spare dec orig data i (e :: es) res = '(val, data) ← item_step (Elem e) orig data;
    if existsb (fun f => bool_decide (f.1 = NameToKey (Name e) i)) res then err repeatedValues
    else decode_fields spare dec orig data (i + 1) es (res ++ [(NameToKey (Name e) i, val)]).
Proof.
  cbn [decode_fields]. unfold item_step. destruct (isDynamicType (Elem e)); cbn [negb mbind result_bind mret result_ret].
  - destruct (readOffset spare data (len orig)) as [[o|er]| |]; try done. cbn [mbind result_bind mret result_ret].
    destruct (dec (Elem e) _) as [[[v tl]|er]| |]; try done. cbn [mbind result_bind]. by destruct (len data <? 32).
  - by destruct (dec (Elem e) data) as [[[v tl]|er]| |].
Qed.
Lemma decode_elems_ok e orig rest X l : Forall (decodes e) l -> forall off res,
  let its := (fun x => (isDynamicType e, spec_enc e x)) <$> l in placed off its orig rest ->
  decode_elems spare dec e orig (heads off its ++ X) (length l) res = Ret (inl (res ++ (goval e <$> l), X)).
Proof.
  induction 1 as [|x l Hx _ IH]; intros off res its Hp; unfold its in *; [cbn; by rewrite app_nil_r|].
  rewrite fmap_cons in *. cbn [length]. rewrite decode_elems_step. destruct (item_step_ok e x off _ orig rest X Hx Hp) as [-> Hp'].
  cbn [mbind result_bind]. rewrite (IH _ _ Hp'). by rewrite <- app_assoc.
Qed.
Lemma fresh_key (k : bytes) (res : list (bytes * Value)) : k ∉ res.*1 -> existsb (fun f => bool_decide (f.1 = k)) res = false.
Proof.
  intros H. apply not_true_iff_false. intros (f & Hf & E%bool_decide_eq_true)%existsb_exists. apply H. rewrite <- E.
  apply list_elem_of_fmap. exists f. split; [done|]. by apply list_elem_of_In.
Qed.
Lemma decode_fields_ok orig rest X es : forall l i off res, all_fields decodes es l ->
  let its := zip_fields (fun t x => (isDynamicType t, spec_enc t x)) es l in placed off its orig rest ->
  NoDup (res.*1 ++ keys_from i es) ->
  decode_fields spare dec orig (heads off its ++ X) i es res = Ret (inl (VMap (res ++ zip (keys_from i es) (zip_fields goval es l)), X)).
Proof.
  induction es as [|e es IH]; intros [|x l] i off res Ht its Hp Hk; unfold its in *; cbn in Ht; try done; [cbn; by rewrite app_nil_r|].
  destruct Ht as [Ht Hts]. cbn [zip_fields keys_from zip zip_with] in *. rewrite decode_fields_step.
  destruct (item_step_ok (Elem e) x off _ orig rest X Ht Hp) as [-> Hp']. cbn [mbind result_bind].
  rewrite fresh_key.
  - rewrite (IH l) by (try done; by rewrite fmap_app, <- app_assoc). by rewrite <- app_assoc.
  - intros Hin. apply list.NoDup_app in Hk as (_ & Hk & _). apply (Hk _ Hin). left.
Qed.
Lemma placed_start its rest : len (head_tail its) < 2 ^ 63 -> placed (heads_len its) its (head_tail its ++ rest) rest.
Proof.
  intros H. pose proof (heads_len_nonneg its). pose proof (len_nonneg rest). rewrite head_tail_len in H. split_and!; [done|done|rewrite len_app, head_tail_len; lia|].
  unfold head_tail. rewrite <- app_assoc. apply drop_app_length'. pose proof (heads_length (heads_len its) its) as E. unfold len in E. lia.
Qed.
Lemma elems_len e l : Forall (typed e) l -> 32 * Z.of_nat (length l) <= heads_len ((fun x => (isDynamicType e, spec_enc e x)) <$> l).
Proof.
  induction 1 as [|x l Hx _ IH]; [done|]. rewrite fmap_cons. cbn [heads_len length]. pose proof (word_size e x Hx). unfold head_len at 1. cbn [fst snd].
  destruct (isDynamicType e); lia.
Qed.
Lemma check_size_ok n data : 0 <= n -> 32 * n <= len data -> check_size n data = Ret (inl ()).
Proof. intros H0 H. unfold check_size. destruct (Z.ltb_spec n 0); [lia|]. destruct (Z.ltb_spec (len data) (32 * n)); [lia|done]. Qed.
Lemma decodes_typed e l : (forall x, typed e x -> len (spec_enc e x) < 2 ^ 63 -> decodes e x) -> Forall (typed e) l ->
  len (head_tail ((fun x => (isDynamicType e, spec_enc e x)) <$> l)) < 2 ^ 63 -> Forall (decodes e) l.
Proof.
  intros IH Ht Hl. rewrite list.Forall_forall in *. intros x Hx. apply IH; [by apply Ht|]. eapply Z.le_lt_trans; [|exact Hl].
  apply (item_le_head_tail _ (isDynamicType e, spec_enc e x)). apply list_elem_of_fmap. by exists x.
Qed.
Lemma fields_decode es l : Forall (fun e => forall x, typed (Elem e) x -> len (spec_enc (Elem e) x) < 2 ^ 63 -> decodes (Elem e) x) es ->
  all_fields typed es l -> (forall i, i ∈ zip_fields (fun t x => (isDynamicType t, spec_enc t x)) es l -> len i.2 < 2 ^ 63) -> all_fields decodes es l.
Proof.
  revert l. induction es as [|e es IH]; intros [|x l] He Ht Hl; cbn in *; try done. inversion He; subst. destruct Ht as [Ht Hts]. split.
  - apply H1; [done|]. apply (Hl (isDynamicType (Elem e), spec_enc (Elem e) x)). left.
  - apply IH; try done. intros i Hi. apply Hl. by right.
Qed.
Lemma long_enough X rest : 32 <= len X -> (len (X ++ rest) <? 32) = false.
Proof. intros H. rewrite len_app. pose proof (len_nonneg rest). apply Z.ltb_ge. lia. Qed.
Lemma take_word w rest : len w = 32 -> take 32 (w ++ rest) = w.
Proof. intros H. apply take_app_length'. unfold len in H. lia. Qed.
Lemma drop_word w rest : len w = 32 -> drop 32 (w ++ rest) = rest.
Proof. intros H. apply drop_app_length'. unfold len in H. lia. Qed.
Lemma decode_text b rest : bytes_ok b -> len (be_bytes 32 (len b) ++ padded b) < 2 ^ 63 ->
  let input := (be_bytes 32 (len b) ++ padded b) ++ rest in
  readLength spare input = Ret (inl (len b)) /\ reslice spare 32 (32 + len b) input = Ret (inl b).
Proof.
  intros Hb Hlen input. unfold input. rewrite <- app_assoc. rewrite len_app, len_word in Hlen.
  pose proof (padded_len b) as Hp. pose proof (len_nonneg b). assert (len b <= len (padded b)) as Hle.
  { unfold padded. rewrite len_app. match goal with |- _ <= _ + len ?r => pose proof (len_nonneg r) end. lia. }
  split; [apply readLength_ok; [lia|]; rewrite len_app; pose proof (len_nonneg rest); lia|].
  unfold padded. rewrite <- app_assoc. by apply reslice_body, len_word.
Qed.
Lemma decode_seq e l rest : (forall x, typed e x -> len (spec_enc e x) < 2 ^ 63 -> decodes e x) -> Forall (typed e) l ->
  let its := (fun x => (isDynamicType e, spec_enc e x)) <$> l in len (head_tail its) < 2 ^ 63 ->
  check_size (Z.of_nat (length l)) (head_tail its ++ rest) = Ret (inl ()) /\
  decode_elems spare dec e (head_tail its ++ rest) (head_tail its ++ rest) (length l) [] = Ret (inl (goval e <$> l, tails its ++ rest)).
Proof.
  intros IH Ht its Hlen. split.
  - apply check_size_ok; [lia|]. rewrite len_app, head_tail_len. pose proof (elems_len e l Ht). pose proof (len_nonneg (tails its)). pose proof (len_nonneg rest).
    unfold its in *. lia.
  - assert (head_tail its ++ rest = heads (heads_len its) its ++ (tails its ++ rest)) as E by (unfold head_tail; by rewrite <- app_assoc).
    rewrite E at 2. apply (decode_elems_ok e _ rest _ l); [by apply decodes_typed|]. by apply placed_start.
Qed.
Theorem decode_ok t : forall x, typed t x -> len (spec_enc t x) < 2 ^ 63 -> decodes t x.
Proof.
  unfold decodes. induction t as [|n|n| |n t IHt|t IHt| | |n| |nm es IHes|] using Ty_nested_ind; intros [b|z|b|l] Hx Hlen rest;
    pose proof (word_size _ _ Hx) as Hw; cbn [typed] in Hx; try done; cbn [decode]; rewrite long_enough by done; cbn [isVariableInput mbind result_bind mret result_ret].
  - cbn [spec_enc goval]. rewrite take_word, drop_word by apply len_word. exists rest. split; [|done]. destruct b; by vm_compute.
  - cbn [spec_enc]. rewrite take_word, drop_word by apply len_word. exists rest. split; [|done]. by rewrite readInteger_uint by tauto.
  - cbn [spec_enc]. rewrite take_word, drop_word by apply len_word. exists rest. split; [|done]. by rewrite readInteger_int by tauto.
  - destruct (decode_text b rest Hx Hlen) as [E1 E2]. cbn [spec_enc] in *. rewrite E1. cbn [mbind result_bind]. rewrite E2. cbn [mbind result_bind]. by eexists.
  - destruct Hx as (Hn & <- & Hx). destruct (decode_seq t l rest IHt Hx Hlen) as [E1 E2]. cbn [spec_enc]. rewrite E1. cbn [mbind result_bind].
    rewrite Nat2Z.id, E2. cbn [mbind result_bind]. eexists. split; [done|]. cbn [isDynamicType]. intros Hd. rewrite tails_static; [done|by apply static_elems].
  - cbn [spec_enc] in *. rewrite <- app_assoc. rewrite len_app, len_word in Hlen.
    pose proof (elems_len t l Hx) as Hel. pose proof (head_tail_len ((fun x => (isDynamicType t, spec_enc t x)) <$> l)) as Hht.
    pose proof (len_nonneg (tails ((fun x => (isDynamicType t, spec_enc t x)) <$> l))).
    rewrite readLength_ok; [|lia|rewrite len_app; pose proof (len_nonneg rest); lia]. cbn [mbind result_bind]. rewrite drop_word by apply len_word.
    destruct (decode_seq t l rest IHt Hx) as [E1 E2]; [lia|]. rewrite E1. cbn [mbind result_bind]. rewrite Nat2Z.id, E2. cbn [mbind result_bind]. by eexists.
  - cbn [spec_enc goval]. destruct Hx as [Hb Hl]. rewrite take_word, drop_word by (unfold len; rewrite length_app, length_replicate; lia).
    unfold readAddr, len. rewrite length_app, length_replicate, Hl. cbn [Nat.add Z.eqb negb]. rewrite drop_app_length' by done.
    rewrite take_ge by lia. by exists rest.
  - destruct (decode_text b rest Hx Hlen) as [E1 E2]. cbn [spec_enc] in *. rewrite E1. cbn [mbind result_bind]. rewrite E2. cbn [mbind result_bind]. by eexists.
  - cbn [spec_enc goval]. destruct Hx as (Hb & Hn & Hl). rewrite drop_word by (unfold len in *; rewrite length_app, length_replicate; lia).
    unfold readFixedBytes. rewrite <- app_assoc, reslice_prefix by done. by exists rest.
  - destruct Hx as (Hne & Hk & Hx). cbn [spec_enc] in *. set (its := zip_fields _ es l) in *.
    assert (all_fields decodes es l) as Hd.
    { apply fields_decode; [exact IHes|done|]. intros i Hi. eapply Z.le_lt_trans; [|exact Hlen]. by apply item_le_head_tail. }
    assert (head_tail its ++ rest = heads (heads_len its) its ++ (tails its ++ rest)) as E by (unfold head_tail; by rewrite <- app_assoc).
    exists (tails its ++ rest). split; [rewrite E at 2; rewrite (decode_fields_ok _ rest _ es l) by (try done; by apply placed_start); done|].
    cbn [isDynamicType]. intros Hs. rewrite tails_static; [done|by apply static_fields].
  - cbn [spec_enc goval]. destruct Hx as [Hb Hl]. rewrite take_word, drop_word by (unfold len; rewrite length_app, length_replicate; lia).
    unfold readFunctionType, slice. change (Z.to_nat (32 - 24)) with 8%nat. change (Z.to_nat 24) with 24%nat. change (Z.to_nat (24 - 0)) with 24%nat.
    rewrite drop_app_length' by done. rewrite Hl. rewrite drop_0, take_app_length' by done. by exists rest.
Qed.
End Decode.
