(* ===== verification/AbiParseFacts.v ===== *)
(** * The type parser

    The lexer as a function on the remaining text ([next_tok]); the parser
    returns on every input; and it reads back the textual form of every type. *)

From stdpp Require Import strings.
From S2P Require Import Prelude Words BigInt Text AbiType AbiCodec AbiFacts.

(** ** The lexer *)
Definition isIdent (c : Z) : bool := isLetter c || isDigit c.
Definition keyword (lit : bytes) : tokenType :=
  if bool_decide (lit = str "tuple") then tupleToken else if bool_decide (lit = str "indexed") then indexedToken else strToken.
(** The next token of a text and the text behind it *)
Definition next_tok (s : bytes) : token * bytes :=
  match (span isSpace s).2 with
  | [] => (mkToken eofToken [], [])
  | c :: s' =>
      if c =? 44 then (mkToken commaToken [], s')
      else if c =? 40 then (mkToken lparenToken [], s')
      else if c =? 41 then (mkToken rparenToken [], s')
      else if c =? 91 then (mkToken lbracketToken [], s')
      else if c =? 93 then (mkToken rbracketToken [], s')
      else if c =? 0 then (mkToken eofToken [], s')
      else if isLetter c then let '(lit, r) := span isIdent (c :: s') in (mkToken (keyword lit) lit, r)
      else if isDigit c then let '(lit, r) := span isDigit (c :: s') in (mkToken numberToken lit, r)
      else (mkToken invalidToken [], s')
  end.
Definition lex_ok (l : lexer) : Prop := readPosition l = S (position l) /\ ch l = default 0 (input l !! position l).
Definition rest (l : lexer) : bytes := drop (position l) (input l).
Lemma newLexer_ok s : lex_ok (newLexer s) /\ rest (newLexer s) = s.
Proof. split; [done|]. unfold rest. cbn. done. Qed.
Lemma rest_ch l : lex_ok l -> ch l = default 0 (head (rest l)).
Proof. intros [_ ->]. unfold rest. rewrite head_lookup, lookup_drop. by rewrite Nat.add_0_r. Qed.
(** The fields the lexer's loops leave alone *)
Definition same_tokens (l l' : lexer) : Prop := input l' = input l /\ current l' = current l /\ peek l' = peek l.
Lemma same_tokens_trans l1 l2 l3 : same_tokens l1 l2 -> same_tokens l2 l3 -> same_tokens l1 l3.
Proof. intros (? & ? & ?) (? & ? & ?). unfold same_tokens. by split; [congruence|split; congruence]. Qed.
Lemma readChar_ok l : lex_ok l -> lex_ok (readChar l) /\ rest (readChar l) = drop 1 (rest l) /\ same_tokens l (readChar l).
Proof.
  intros [H1 H2]. unfold rest, readChar, same_tokens. cbn. rewrite H1. split_and!; try done. rewrite drop_drop. f_equal. lia.
Qed.
Lemma readWhile_ok p fuel : p 0 = false -> forall l, lex_ok l -> (length (rest l) < fuel)%nat ->
  let l' := readWhile fuel p l in
  lex_ok l' /\ rest l' = (span p (rest l)).2 /\ same_tokens l l' /\ position l' = (position l + length (span p (rest l)).1)%nat.
Proof.
  intros Hp. induction fuel as [|fuel IH]; intros l Hl Hf; [lia|]. cbn [readWhile]. pose proof (rest_ch l Hl) as Hc.
  destruct (rest l) as [|c s] eqn:Er.
  - cbn in Hc. rewrite Hc, Hp. cbn. split_and!; try done; lia.
  - cbn in Hc. rewrite Hc. cbn [span]. destruct (p c).
    + destruct (readChar_ok l Hl) as (Hl' & Hr & Ht). assert (rest (readChar l) = s) as Hs by (rewrite Hr, Er; done).
      destruct (IH (readChar l)) as (H1 & H2 & H3 & H4); [done|rewrite Hs; cbn in Hf; lia|].
      rewrite Hs in *. destruct (span p s) as [a r]. cbn [fst snd length] in *. split; [done|]. split; [done|]. split.
      * by eapply same_tokens_trans.
      * rewrite H4. destruct Hl as [Hrp _]. unfold readChar. cbn [position]. lia.
    + cbn. split_and!; try done; lia.
Qed.
Lemma rest_short l : (length (rest l) < S (length (input l)))%nat.
Proof. unfold rest. rewrite length_drop. lia. Qed.
Lemma span_app p s : (span p s).1 ++ (span p s).2 = s.
Proof. induction s as [|c s IH]; [done|]. cbn. destruct (p c); [|done]. destruct (span p s). cbn in *. by rewrite IH. Qed.
Lemma read_ok p l : p 0 = false -> lex_ok l ->
  lex_ok (read p l) /\ rest (read p l) = (span p (rest l)).2 /\ same_tokens l (read p l) /\ consumed l (read p l) = (span p (rest l)).1.
Proof.
  intros Hp Hl. destruct (readWhile_ok p (S (length (input l))) Hp l Hl (rest_short l)) as (H1 & H2 & H3 & H4).
  split_and!; try done. unfold consumed, read. rewrite H4. fold (rest l).
  replace (position l + length (span p (rest l)).1 - position l)%nat with (length (span p (rest l)).1) by lia.
  rewrite <- (span_app p (rest l)) at 2. apply take_app_length.
Qed.
Lemma nextTokenImpl_ok l : lex_ok l ->
  let '(tok, l') := nextTokenImpl l in lex_ok l' /\ same_tokens l l' /\ (tok, rest l') = next_tok (rest l).
Proof.
  intros Hl. unfold nextTokenImpl. destruct (read_ok isSpace l eq_refl Hl) as (H1 & H2 & H3 & _). cbv zeta.
  revert H1 H2 H3. generalize (read isSpace l). intros l1 H1 H2 H3. unfold next_tok. rewrite <- H2. pose proof (rest_ch l1 H1) as Hc.
  destruct (readChar_ok l1 H1) as (R1 & R2 & R3). pose proof (same_tokens_trans _ _ _ H3 R3) as R4.
  destruct (rest l1) as [|c s] eqn:Er; cbn in Hc; rewrite Hc.
  - cbn [Z.eqb]. rewrite R2. done.
  - assert (rest (readChar l1) = s) as R5 by by rewrite R2. clear R2. rewrite <- !Hc.
    destruct (ch l1 =? 44); [by rewrite R5|]. destruct (ch l1 =? 40); [by rewrite R5|]. destruct (ch l1 =? 41); [by rewrite R5|].
    destruct (ch l1 =? 91); [by rewrite R5|]. destruct (ch l1 =? 93); [by rewrite R5|]. destruct (ch l1 =? 0); [by rewrite R5|].
    destruct (isLetter (ch l1)); [|destruct (isDigit (ch l1)); [|by rewrite R5]].
    + destruct (read_ok isIdent l1 eq_refl H1) as (Q1 & Q2 & Q3 & Q4). rewrite Er in Q2, Q4. cbv zeta. rewrite Hc. 
      change (read (fun c0 => isLetter c0 || isDigit c0) l1) with (read isIdent l1). rewrite Q4. destruct (span isIdent (c :: s)) as [lit r]. cbn [fst snd] in *.
      split; [done|]. split; [by eapply same_tokens_trans|]. by rewrite Q2.
    + destruct (read_ok isDigit l1 eq_refl H1) as (Q1 & Q2 & Q3 & Q4). rewrite Er in Q2, Q4. cbv zeta. rewrite Hc, Q4. destruct (span isDigit (c :: s)) as [lit r]. cbn [fst snd] in *.
      split; [done|]. split; [by eapply same_tokens_trans|]. by rewrite Q2.
Qed.

(** [l] stands before the text [s], its next token already read. *)
Definition ready (l : lexer) (s : bytes) : Prop := lex_ok l /\ (peek l, rest l) = next_tok s.
Lemma nextToken_ready l s : ready l s ->
  exists l', nextToken l = Ret ((next_tok s).1, l') /\ ready l' (next_tok s).2 /\ current l' = (next_tok s).1.
Proof.
  intros [Hl E]. unfold nextToken. pose proof (nextTokenImpl_ok l Hl) as H. destruct (nextTokenImpl l) as [tok l'].
  destruct H as (H1 & (H2 & H3 & H4) & H5). rewrite <- E. cbn [fst snd]. eexists. split; [done|]. split; [|done]. split; [exact H1|]. exact H5.
Qed.
Lemma nextToken_ok l : lex_ok l -> exists l', nextToken l = Ret (peek l, l') /\ lex_ok l' /\ current l' = peek l /\ (peek l', rest l') = next_tok (rest l).
Proof.
  intros Hl. unfold nextToken. pose proof (nextTokenImpl_ok l Hl) as H. destruct (nextTokenImpl l) as [tok l']. destruct H as (H1 & _ & H5).
  eexists. split; [done|]. split; [exact H1|]. split; [done|]. exact H5.
Qed.
Lemma peek_ready l s : ready l s -> peek l = (next_tok s).1.
Proof. intros [_ E]. by rewrite <- E. Qed.

(** ** The parser returns *)
(** What is left to read: the token read ahead and the text *)
Definition left (l : lexer) : nat := ((if bool_decide (typ (peek l) = eofToken) then 0 else 1) + length (rest l))%nat.
Lemma span_length p s : (length (span p s).1 + length (span p s).2 = length s)%nat.
Proof. rewrite <- (span_app p s) at 3. by rewrite length_app. Qed.
Lemma span_cons p c s : p c = true -> span p (c :: s) = (c :: (span p s).1, (span p s).2).
Proof. intros H. cbn. rewrite H. by destruct (span p s). Qed.
Lemma next_tok_left s : let '(tok, r) := next_tok s in
  (length r <= length s /\ (typ tok <> eofToken -> length r < length s))%nat.
Proof.
  unfold next_tok. pose proof (span_length isSpace s) as H0. destruct (span isSpace s) as [ws s1]. cbn [fst snd] in *.
  destruct s1 as [|c s1]; [cbn in *; split; [lia|done]|]. cbn [length] in H0.
  repeat match goal with |- context [if c =? ?k then _ else _] => destruct (c =? k); [split; [|intros _]; lia|] end.
  destruct (isLetter c) eqn:E1; [|destruct (isDigit c) eqn:E2; [|split; [|intros _]; lia]].
  - pose proof (span_length isIdent s1). rewrite span_cons by (unfold isIdent; by rewrite E1). cbn [fst snd length] in *. split; [|intros _]; lia.
  - pose proof (span_length isDigit s1). rewrite span_cons by done. cbn [fst snd length] in *. split; [|intros _]; lia.
Qed.
Definition runs {A} (m : M lexer A) (Q : A -> lexer -> Prop) (l : lexer) : Prop :=
  match m l with Ret (a, l') => Q a l' | PanicAt _ => True | NoFuel => False end.
Lemma runs_bind {A B} (m : M lexer A) (f : A -> M lexer B) Q l : runs m (fun a l' => runs (f a) Q l') l -> runs (m ≫= f) Q l.
Proof. unfold runs, mbind, M_bind, outcome_bind. destruct (m l) as [[a l']| |]; done. Qed.
Lemma runs_mono {A} (m : M lexer A) (P Q : A -> lexer -> Prop) l : (forall a l', P a l' -> Q a l') -> runs m P l -> runs m Q l.
Proof. unfold runs. intros H. destruct (m l) as [[a l']| |]; auto. Qed.
(** [l'] comes after [l]. *)
Definition after (l l' : lexer) : Prop := lex_ok l' /\ (left l' <= left l)%nat.
Lemma runs_next l (Q : token -> lexer -> Prop) : lex_ok l ->
  (forall l', after l l' -> (typ (peek l) <> eofToken -> (left l' < left l)%nat) -> Q (peek l) l') -> runs nextToken Q l.
Proof.
  intros Hl HQ. destruct (nextToken_ok l Hl) as (l' & E & Hl' & _ & Et). unfold runs. rewrite E. pose proof (next_tok_left (rest l)) as H. rewrite <- Et in H.
  destruct H as [Ha Hb]. assert (left l' <= length (rest l))%nat as Hle.
  { unfold left. case_bool_decide as E1; [lia|]. specialize (Hb E1). lia. }
  assert (length (rest l) <= left l)%nat by (unfold left; lia). apply HQ; [split; [done|lia]|].
  intros Hn. unfold left at 2. rewrite bool_decide_false by done. lia.
Qed.
Definition fits {A} (l : lexer) : A -> lexer -> Prop := fun _ l' => after l l'.
Lemma after_trans l1 l2 l3 : after l1 l2 -> after l2 l3 -> after l1 l3.
Proof. intros [? ?] [? ?]. split; [done|lia]. Qed.
Lemma after_refl l : lex_ok l -> after l l.
Proof. by split. Qed.

Lemma runs_ret {A} (a : A) (Q : A -> lexer -> Prop) l : Q a l -> runs (mret a) Q l.
Proof. done. Qed.
Lemma runs_gets {A} (f : lexer -> A) (Q : A -> lexer -> Prop) l : Q (f l) l -> runs (gets f) Q l.
Proof. done. Qed.
Lemma runs_pbind {A B} (m : P A) (f : A -> P B) (Q : B + type_error -> lexer -> Prop) l :
  runs m (fun r l' => match r with inl a => runs (f a) Q l' | inr e => Q (inr e) l' end) l -> runs (pbind f m) Q l.
Proof. intros H. apply runs_bind. eapply runs_mono; [|exact H]. intros [a|e] l'; done. Qed.
Ltac lexok := first [assumption | match goal with H : after _ ?l |- lex_ok ?l => exact (proj1 H) | H : fits _ _ ?l |- lex_ok ?l => exact (proj1 H) end].
Ltac later := unfold fits in *; repeat match goal with H : after _ _ |- _ => destruct H end; unfold after in *; first [split; [assumption|lia] | lia].
(** Read a token in a goal, keeping track of what is left. *)
Ltac eat := match goal with
  | |- runs (mbind _ _) _ _ => apply runs_bind; eat
  | |- runs nextToken _ ?l => apply runs_next; [lexok|]; let l' := fresh "l" in let Ha := fresh "Ha" in let Hlt := fresh "Hlt" in intros l' Ha Hlt
  | |- runs (gets _) _ _ => apply runs_gets
  | |- runs (peekIs _) _ _ => apply runs_gets
  | |- runs (mret _) _ _ => apply runs_ret
  | |- runs (perr _) _ _ => apply runs_ret
  end; cbv beta.
Lemma readSuffix_runs fuel : forall ty l, lex_ok l -> (left l < fuel)%nat -> runs (readSuffix fuel ty) (fits l) l.
Proof.
  induction fuel as [|fuel IH]; intros ty l Hl Hf; [lia|]. cbn [readSuffix]. eat. case_bool_decide as Hp; cbn [negb]; [|eat; by apply after_refl].
  eat. assert (left l0 < left l)%nat as Hlt' by (apply Hlt; by rewrite Hp). eat. destruct (typ (peek l0)); try (eat; later).
  - destruct (ParseUint32 _) as [n|]; [|eat; later]. destruct (negb _); [done|]. eat. case_bool_decide; cbn [negb]; [|eat; later].
    eapply runs_mono; [|apply IH; [lexok|later]]. intros; later.
  - eapply runs_mono; [|apply IH; [lexok|later]]. intros; later.
Qed.
Lemma readTupleName_runs l : lex_ok l -> runs readTupleName (fits l) l.
Proof.
  intros Hl. unfold readTupleName. eat. case_bool_decide; cbn [negb]; [|eat; by apply after_refl]. eat. eat. case_bool_decide; cbn [negb]; [|eat; later].
  eat. eat. destruct (typ (peek l1)); try (eat; later). eat. case_bool_decide; cbn [negb]; eat; later.
Qed.
Lemma readElemName_runs l : lex_ok l -> runs readElemName (fits l) l.
Proof.
  intros Hl. unfold readElemName. eat. destruct (typ (peek l)); try (eat; by apply after_refl). all: eat; [..]; try (eat; later).
  eat. case_bool_decide; [eat|]; eat; later.
Qed.
Lemma simple_no_fuel s : decodeSimpleType s <> NoFuel.
Proof.
  unfold decodeSimpleType. destruct (typeRegexp s) as [[t b]|]; [|done]. cbv zeta. destruct (if negb _ then _ else _); [|done].
  repeat match goal with |- context [if ?c then _ else _] => destruct c; try done end.
Qed.
Lemma parser_runs fuel :
  (forall l, lex_ok l -> (2 * left l < fuel)%nat -> runs (readType fuel) (fits l) l) /\
  (forall es l, lex_ok l -> (2 * left l + 1 < fuel)%nat -> runs (readElems fuel es) (fits l) l).
Proof.
  induction fuel as [|fuel [IHt IHe]]; [split; intros; lia|]. split.
  - intros l Hl Hf. cbn [readType]. eat. destruct (typ (peek l)) eqn:Et; try (eat; later).
    + apply runs_bind. unfold lift, runs. destruct (decodeSimpleType _) as [[ty|e]| |] eqn:Ed; cbn.
      * specialize (Hlt ltac:(done)). eapply runs_mono; [|apply readSuffix_runs; [lexok|later]]. intros; later.
      * later.
      * done.
      * by eapply simple_no_fuel.
    + specialize (Hlt ltac:(done)). apply runs_pbind. eapply runs_mono; [|apply readTupleName_runs; lexok]. intros [nm|e] l2 H2; [|later].
      apply runs_pbind. unfold expect. eat. case_bool_decide; eat; [|later]. apply runs_pbind.
      eapply runs_mono; [|apply IHe; [lexok|later]]. intros [es|e] l3 H3; [|later].
      eapply runs_mono; [|apply readSuffix_runs; [lexok|later]]. intros; later.
  - intros es l Hl Hf. cbn [readElems]. apply runs_bind. eapply runs_mono; [|apply IHt; [done|lia]]. intros [ty|e] l1 H1.
    + apply runs_bind. eapply runs_mono; [|apply readElemName_runs; lexok]. intros nm l2 H2. cbv zeta. eat.
      destruct (typ (peek l2)); try (eat; later). specialize (Hlt ltac:(done)). eapply runs_mono; [|apply IHe; [lexok|later]]. intros; later.
    + eat. destruct (_ && _); eat; later.
Qed.
(** The fuel of [NewType] is enough for every text. *)
Lemma NewType_returns s : NewType s <> NoFuel.
Proof.
  unfold NewType. destruct (newLexer_ok s) as [Hl Hr].
  assert (runs (_ ← nextToken; readType (parse_fuel s)) (fun _ _ => True) (newLexer s)) as H.
  { eat. eapply runs_mono; [|apply (proj1 (parser_runs _)); [lexok|]]; [done|]. destruct Ha as [_ Ha]. unfold parse_fuel.
    assert (left (newLexer s) <= S (length s))%nat by (unfold left; rewrite Hr; case_bool_decide; lia). lia. }
  unfold runs in H. destruct ((_ ← nextToken; readType (parse_fuel s)) (newLexer s)) as [[r l]| |]; done.
Qed.

(** ** Numbers and identifiers *)
(** [p] holds of [a] and fails behind it. *)
Definition stops (p : Z -> bool) (s : bytes) : Prop := match s with [] => True | c :: _ => p c = false end.
Lemma span_exact p a s : Forall (fun c => p c = true) a -> stops p s -> span p (a ++ s) = (a, s).
Proof.
  intros Ha Hs. induction Ha as [|c a Hc _ IH]; cbn [app]; [|rewrite span_cons, IH by done; done].
  destruct s as [|c s]; [done|]. cbn in *. by rewrite Hs.
Qed.
Definition ident (s : bytes) : Prop :=
  match s with [] => False | c :: _ => isLetter c = true end /\ Forall (fun c => isIdent c = true) s.
Lemma letter_codes c : isLetter c = true -> 65 <= c <= 122 /\ c <> 91 /\ c <> 93.
Proof. unfold isLetter, isAlpha. intros H. apply orb_true_iff in H as [H|H]; [apply orb_true_iff in H as [H|H]; apply andb_true_iff in H as [?%Z.leb_le ?%Z.leb_le]|apply Z.eqb_eq in H]; lia. Qed.
Lemma digit_codes c : isDigit c = true -> 48 <= c <= 57.
Proof. unfold isDigit. intros H. apply andb_true_iff in H as [?%Z.leb_le ?%Z.leb_le]. lia. Qed.
Lemma not_space c : 33 <= c -> isSpace c = false.
Proof. intros H. unfold isSpace. rewrite !(proj2 (Z.eqb_neq _ _)) by lia. done. Qed.
Lemma next_tok_ident w s : ident w -> stops isIdent s -> next_tok (w ++ s) = (mkToken (keyword w) w, s).
Proof.
  intros [Hc Hw] Hs. destruct w as [|c w]; [done|]. destruct (letter_codes c Hc) as (H1 & H2 & H3). unfold next_tok.
  assert ((span isSpace ((c :: w) ++ s)).2 = c :: w ++ s) as -> by (cbn; by rewrite not_space by lia). cbn [app].
  rewrite !(proj2 (Z.eqb_neq c _)) by lia. rewrite Hc. change (c :: w ++ s) with ((c :: w) ++ s). by rewrite span_exact.
Qed.
Lemma next_tok_number n s : 0 <= n -> stops isDigit s -> next_tok (dec n ++ s) = (mkToken numberToken (dec n), s).
Proof.
  intros Hn Hs. destruct (dec_ok n Hn) as (_ & Hne & Hd). destruct (dec n) as [|c w]; [done|]. pose proof (digit_codes c ltac:(by inversion Hd)) as Hc. unfold next_tok.
  assert ((span isSpace ((c :: w) ++ s)).2 = c :: w ++ s) as -> by (cbn; by rewrite not_space by lia). cbn [app].
  rewrite !(proj2 (Z.eqb_neq c _)) by lia. assert (isLetter c = false) as ->.
  { apply not_true_iff_false. intros H%letter_codes. lia. }
  assert (isDigit c = true) as -> by (by inversion Hd). change (c :: w ++ s) with ((c :: w) ++ s). by rewrite span_exact.
Qed.
Lemma next_tok_space s : next_tok (32 :: s) = next_tok s.
Proof. unfold next_tok. rewrite span_cons by done. done. Qed.

(** ** Reading back the textual form *)
Fixpoint show (t : Ty) : bytes :=
  match t with
  | KindArray n e => show e ++ str "[" ++ dec n ++ str "]"
  | KindSlice e => show e ++ str "[]"
  | KindTuple nm es =>
      str "tuple " ++ nm ++ str "(" ++
      join (str ",") ((fun e => show (Elem e) ++ (if Indexed e then str " indexed " else str " ") ++ Name e) <$> es) ++ str ")"
  | t => raw t
  end.
Definition name_ok (s : bytes) : Prop := s = [] \/ ident s /\ keyword s = strToken.
Fixpoint parsable (t : Ty) : Prop :=
  match t with
  | KindUInt n | KindInt n => 0 <= n < 2 ^ 63 /\ n mod 8 = 0
  | KindFixedBytes n => 1 <= n < 2 ^ 63
  | KindArray n e => 0 <= n < 2 ^ 32 /\ ArrayOf_ok n (goType e) = true /\ parsable e
  | KindSlice e => parsable e
  | KindTuple nm es => name_ok nm /\ Forall (fun e => name_ok (Name e)) es /\ fold_right (fun e P => parsable (Elem e) /\ P) True es
  | KindFixedPoint => False
  | _ => True
  end.
(** ** What the parser returns and when it panics
    It returns only types of this form.  It panics only on an integer type
    whose width is not a multiple of eight, or on an array too large for the
    address space; either stands in the text. *)
Definition part (lit s : bytes) : Prop := exists a b, s = a ++ lit ++ b.
Definition odd_width (s : bytes) : Prop :=
  exists d n, (s = str "int" ++ d \/ s = str "uint" ++ d) /\ Atoi d = Some n /\ n mod 8 <> 0.
Definition huge_array (s : bytes) : Prop := exists n ty, ParseUint32 s = Some n /\ ArrayOf_ok n (goType ty) = false.
Definition bad_text (s : bytes) : Prop := exists lit, part lit s /\ (odd_width lit \/ huge_array lit).

Lemma undec_nonneg s : Forall (fun c => isDigit c = true) s -> 0 <= undec s.
Proof.
  intros Hs. unfold undec. assert (forall a, 0 <= a -> 0 <= foldl (fun a c => 10 * a + (c - 48)) a s) as H; [|apply H; lia].
  induction Hs as [|c s Hc _ IH]; intros a Ha; [done|]. apply digit_codes in Hc. cbn. apply IH. lia.
Qed.
Lemma span_all p s : Forall (fun c => p c = true) (span p s).1.
Proof. induction s as [|c s IH]; [constructor|]. cbn. destruct (p c) eqn:E; [|constructor]. destruct (span p s). by constructor. Qed.
Lemma simple_result s : match decodeSimpleType s with Ret (inl t) => parsable t | PanicAt _ => odd_width s | _ => True end.
Proof.
  unfold decodeSimpleType, typeRegexp. pose proof (span_app isAlpha s) as H1. destruct (span isAlpha s) as [t r]. cbn [fst snd] in H1.
  pose proof (span_app isDigit r) as H2. pose proof (span_all isDigit r) as H3. destruct (span isDigit r) as [d r']. cbn [fst snd] in H2, H3.
  case_bool_decide as Ht; [done|]. case_bool_decide as Hr; [|done]. cbn [orb negb]. subst r'. rewrite app_nil_r in H2. subst r s. cbv zeta.
  set (num := if negb (bool_decide (d = [])) then Atoi d else Some 0).
  assert (Hn : forall n, num = Some n -> 0 <= n < 2 ^ 63 /\ (n mod 8 <> 0 -> Atoi d = Some n)).
  { unfold num. intros n. case_bool_decide; cbn [negb]; [intros [= <-]; done|]. intros E. split; [|done]. unfold Atoi in E.
    pose proof (undec_nonneg d H3). destruct (Z.ltb_spec (undec d) (2 ^ 63)); [|done]. injection E as <-. lia. }
  destruct num as [n|]; [|done]. specialize (Hn n eq_refl) as [Hn1 Hn2].
  destruct (_ && _); [done|]. destruct (_ && _ && _); [done|].
  case_bool_decide as Eu; [|case_bool_decide as Ei].
  - destruct (Z.eqb_spec (n mod 8) 0); [done|]. subst t. exists d, n. auto.
  - destruct (Z.eqb_spec (n mod 8) 0); [done|]. subst t. exists d, n. auto.
  - destruct (bool_decide _); [cbn; lia|]. destruct (bool_decide _); [destruct (Z.eqb_spec n 0); cbn; lia|].
    repeat (destruct (bool_decide _); [done|]). done.
Qed.

(** The lexer reads [s]: what is left ends it, the next token stands in it. *)
Record good_tok (s : bytes) (tok : token) : Prop := {
  tk_part : part (literal tok) s;
  tk_name : typ tok = strToken -> name_ok (literal tok);
  tk_number : typ tok = numberToken -> Forall (fun c => isDigit c = true) (literal tok);
}.
Definition reading (s : bytes) (l : lexer) : Prop := lex_ok l /\ (exists a, s = a ++ rest l) /\ good_tok s (peek l).
Lemma next_tok_good s a r : s = a ++ r -> (exists a', s = a' ++ (next_tok r).2) /\ good_tok s (next_tok r).1.
Proof.
  intros ->. assert (Hnil : forall t, t <> strToken -> good_tok (a ++ r) (mkToken t [])) by (intros; split; [by exists a, r|done|constructor]).
  unfold next_tok. pose proof (span_app isSpace r) as H0.
  destruct (span isSpace r) as [ws r1]. cbn [fst snd] in *. subst r. destruct r1 as [|c r1]; [split; [by exists (a ++ ws); rewrite <- app_assoc|by apply Hnil]|].
  assert (Hone : exists a', a ++ ws ++ c :: r1 = a' ++ r1) by (exists (a ++ ws ++ [c]); by rewrite <- !app_assoc).
  repeat match goal with |- context [if c =? ?k then _ else _] => destruct (c =? k); [split; [done|by apply Hnil]|] end.
  assert (Hspan : forall p, (exists a', a ++ ws ++ c :: r1 = a' ++ (span p (c :: r1)).2) /\ part (span p (c :: r1)).1 (a ++ ws ++ c :: r1)).
  { intros p. pose proof (span_app p (c :: r1)) as E. split; [exists (a ++ ws ++ (span p (c :: r1)).1)|exists (a ++ ws), (span p (c :: r1)).2];
      by rewrite <- E at 1; rewrite <- ?app_assoc. }
  destruct (isLetter c) eqn:El; [|destruct (isDigit c) eqn:Ed; [|split; [done|by apply Hnil]]].
  - specialize (Hspan isIdent). pose proof (span_all isIdent (c :: r1)) as Ha. assert (Hh : (span isIdent (c :: r1)).1 = c :: (span isIdent r1).1).
    { by rewrite span_cons by (unfold isIdent; by rewrite El). }
    destruct (span isIdent (c :: r1)) as [lit r2]. cbn [fst snd] in *. destruct Hspan as [Hs Hp]. split; [done|]. split; cbn [typ literal]; [done| |].
    + intros Hk. right. split; [|done]. split; [by rewrite Hh|done].
    + unfold keyword. by repeat case_bool_decide.
  - specialize (Hspan isDigit). pose proof (span_all isDigit (c :: r1)) as Ha. destruct (span isDigit (c :: r1)) as [lit r2]. by destruct Hspan.
Qed.

(** The parser goes on reading [s], its result meets [Q], and a panic is
    blamed on the text. *)
Definition blames (s : bytes) {A} (Q : A -> Prop) (m : M lexer A) : Prop :=
  forall l, reading s l -> match m l with Ret (a, l') => Q a /\ reading s l' | PanicAt _ => bad_text s | NoFuel => True end.
Definition on_inl {A} (Q : A -> Prop) (r : A + type_error) : Prop := match r with inl a => Q a | inr _ => True end.
Section Blames.
Context (s : bytes).
Lemma blames_bind {A B} (Q : A -> Prop) (R : B -> Prop) (m : M lexer A) f : blames s Q m -> (forall a, Q a -> blames s R (f a)) -> blames s R (m ≫= f).
Proof.
  intros Hm Hf l Hl. specialize (Hm l Hl). unfold mbind, M_bind, outcome_bind. destruct (m l) as [[a l']| |]; [|done..].
  destruct Hm. by apply Hf.
Qed.
Lemma blames_ret {A} (Q : A -> Prop) a : Q a -> blames s Q (mret a).
Proof. by intros HQ l Hl. Qed.
Lemma blames_gets {A B} (f : lexer -> A) (R : B -> Prop) g : (forall a, blames s R (g a)) -> blames s R (gets f ≫= g).
Proof. intros Hg l Hl. by apply (Hg (f l)). Qed.
(** The next token is the one read ahead. *)
Lemma next_reading l : reading s l -> exists l', nextToken l = Ret (peek l, l') /\ reading s l'.
Proof.
  intros (Hl & [a Ha] & Hp). destruct (nextToken_ok l Hl) as (l' & E & Hl' & _ & Et). exists l'. split; [done|].
  destruct (next_tok_good s a (rest l) Ha) as [Hr Ht]. by rewrite <- Et in Hr, Ht.
Qed.
Lemma blames_next {B} (R : B -> Prop) (f : token -> M lexer B) : (forall tok, good_tok s tok -> blames s R (f tok)) -> blames s R (nextToken ≫= f).
Proof.
  intros Hf l Hl. destruct (next_reading l Hl) as (l' & E & Hl'). unfold mbind, M_bind, outcome_bind. rewrite E. apply Hf; [apply Hl|done].
Qed.
(** A name that is there when the next token is one. *)
Lemma blames_named {B} (R : B -> Prop) (yes : token -> M lexer B) (no : M lexer B) :
  (forall tok, name_ok (literal tok) -> blames s R (yes tok)) -> blames s R no ->
  blames s R (named ← peekIs strToken; if (named : bool) then name ← nextToken; yes name else no).
Proof.
  intros Hy Hn l Hl. cbv [peekIs gets mbind M_bind outcome_bind]. case_bool_decide as Et; [|by apply Hn].
  destruct (next_reading l Hl) as (l' & E & Hl'). rewrite E. apply Hy; [|done]. apply Hl. done.
Qed.
Lemma blames_pbind {A B} (Q : A -> Prop) (R : B -> Prop) (m : P A) (f : A -> P B) :
  blames s (on_inl Q) m -> (forall a, Q a -> blames s (on_inl R) (f a)) -> blames s (on_inl R) (pbind f m).
Proof. intros Hm Hf. eapply blames_bind; [exact Hm|]. intros [a|e] Ha; [by apply Hf|by apply blames_ret]. Qed.
End Blames.
Lemma readSuffix_blames s fuel : forall ty, parsable ty -> blames s (on_inl parsable) (readSuffix fuel ty).
Proof.
  induction fuel as [|fuel IH]; intros ty Hty; [by intros l Hl|]. cbn [readSuffix]. unfold peekIs, perr. apply blames_gets.
  intros more. destruct (negb more); [by apply blames_ret|]. apply blames_next. intros _ _. apply blames_next. intros n Hn.
  destruct (typ n) eqn:Et; try (by apply blames_ret).
  - destruct (ParseUint32 (literal n)) as [size|] eqn:Ep; [|by apply blames_ret].
    assert (Hsize : 0 <= size < 2 ^ 32).
    { unfold ParseUint32 in Ep. pose proof (undec_nonneg _ (tk_number _ _ Hn Et)). destruct (Z.ltb_spec (undec (literal n)) (2 ^ 32)); [|done].
      injection Ep as <-. lia. }
    destruct (ArrayOf_ok size (goType ty)) eqn:Ea; cbn [negb].
    + apply blames_next. intros r _. destruct (negb _); [by apply blames_ret|by apply IH].
    + intros l _. exists (literal n). split; [apply Hn|]. right. by exists size, ty.
  - by apply IH.
Qed.
Lemma readTupleName_blames s : blames s (on_inl name_ok) readTupleName.
Proof.
  assert (Hm : blames s (on_inl name_ok) (named ← peekIs strToken; if (named : bool) then
      name ← nextToken; bracket ← peekIs lbracketToken;
      if negb (bracket : bool) then mret (inl (literal name))
      else _ ← nextToken; n ← nextToken;
        match typ n with
        | numberToken => r ← nextToken; if negb (bool_decide (typ r = rbracketToken)) then perr (expectedToken rbracketToken) else mret (inl (literal name))
        | _ => mret (inl (literal name))
        end
    else mret (inl []))).
  { apply blames_named; [|apply blames_ret; by left]. intros name Hname. apply blames_gets. intros br. destruct (negb br); [by apply blames_ret|].
    apply blames_next. intros _ _. apply blames_next. intros n _. destruct (typ n); try (by apply blames_ret).
    apply blames_next. intros r _. destruct (negb _); by apply blames_ret. }
  intros l Hl. specialize (Hm l Hl). unfold readTupleName. cbv [peekIs gets mbind M_bind outcome_bind] in *. by destruct (bool_decide (typ (peek l) = strToken)).
Qed.
Definition elem_name_ok (r : bytes * bool) : Prop := name_ok r.1.
Lemma readElemName_blames s : blames s elem_name_ok readElemName.
Proof.
  assert (Hnil : forall ix, elem_name_ok ([], ix)) by by left.
  intros l Hl. cbv [readElemName gets mbind M_bind outcome_bind]. destruct (typ (peek l)) eqn:Et; try done.
  - destruct (next_reading s l Hl) as (l' & E & Hl'). unfold mbind, M_bind, outcome_bind. rewrite E. cbn. split; [|done]. by apply Hl.
  - revert l Hl Et. assert (Hb : blames s elem_name_ok (_ ← nextToken; named ← peekIs strToken;
      if (named : bool) then name ← nextToken; mret (literal name, true) else mret ([], true))); [|by intros l Hl _; apply (Hb l Hl)].
    apply blames_next. intros _ _. apply blames_named; [|by apply blames_ret]. intros tok Ht. by apply blames_ret.
Qed.
Lemma expect_blames s t : blames s (on_inl (fun _ => True)) (expect t).
Proof. unfold expect, perr. apply blames_next. intros tok _. case_bool_decide; by apply blames_ret. Qed.
Definition elems_ok (es : list (TupleElem Ty)) : Prop :=
  Forall (fun e => name_ok (Name e)) es /\ fold_right (fun e P => parsable (Elem e) /\ P) True es.
Lemma elems_snoc es e : elems_ok es -> name_ok (Name e) -> parsable (Elem e) -> elems_ok (es ++ [e]).
Proof.
  intros [Hn Hp] ? ?. split; [by apply Forall_app_2; [|constructor]|]. clear Hn. induction es as [|e' es IH]; [done|].
  destruct Hp as [He Hp]. split; [done|by apply IH].
Qed.
Lemma parser_blames s fuel : blames s (on_inl parsable) (readType fuel) /\ forall es, elems_ok es -> blames s (on_inl elems_ok) (readElems fuel es).
Proof.
  induction fuel as [|fuel [IHt IHe]]; [split; [|intros es]; by intros l Hl|]. split.
  - cbn [readType]. unfold perr. apply blames_next. intros tok Ht. destruct (typ tok); try (by apply blames_ret).
    + apply (blames_bind s (on_inl parsable)); [|intros [ty|e] Hty; [by apply readSuffix_blames|by apply blames_ret]]. intros l Hl. unfold lift.
      pose proof (simple_result (literal tok)) as Hr. destruct (decodeSimpleType (literal tok)) as [[ty|e]|loc|]; cbn; [done..| |done].
      exists (literal tok). split; [apply Ht|by left].
    + eapply blames_pbind; [apply readTupleName_blames|]. intros nm Hnm. eapply blames_pbind; [apply expect_blames|]. intros _ _.
      eapply blames_pbind; [apply IHe; split; [constructor|done]|]. intros es [Hn Hp]. by apply readSuffix_blames.
  - intros es Hes. cbn [readElems]. unfold perr. eapply blames_bind; [exact IHt|]. intros [ty|e] Hty.
    + eapply blames_bind; [apply readElemName_blames|]. intros nm Hnm. cbv zeta. apply blames_next. intros next _.
      pose proof (elems_snoc es (mkElem nm.1 ty nm.2) Hes Hnm Hty). destruct (typ next); try (by apply blames_ret). by apply IHe.
    + apply blames_gets. intros cur. destruct (_ && _); apply blames_ret; [split; [constructor|done]|done].
Qed.
Lemma NewType_result s : match NewType s with Ret (inl t) => parsable t | PanicAt _ => bad_text s | _ => True end.
Proof.
  unfold NewType. destruct (newLexer_ok s) as [Hl Hr].
  assert (Hb : blames s (on_inl parsable) (_ ← nextToken; readType (parse_fuel s))) by (apply blames_next; intros; apply parser_blames).
  assert (Hs : reading s (newLexer s)).
  { split_and!; [done|exists []; by rewrite Hr|]. split; [by exists [], s|done|constructor]. }
  specialize (Hb _ Hs). cbv [mbind outcome_bind] in *. destruct (M_bind _ _) as [[[t|e] l]|loc'|]; [apply Hb|done..].
Qed.

(** Recursive calls the parser needs *)
Fixpoint need (t : Ty) : nat :=
  match t with
  | KindArray _ e | KindSlice e => S (need e)
  | KindTuple _ es => (3 + fold_right (fun e n => 2 + need (Elem e) + n) 0 es)%nat
  | _ => 1%nat
  end.
Fixpoint depth (t : Ty) : nat := match t with KindArray _ e | KindSlice e => S (depth e) | _ => 1%nat end.
Lemma depth_need t : (depth t <= need t)%nat.
Proof. induction t; cbn; lia. Qed.

Lemma typeRegexp_num a n : a <> [] -> Forall (fun c => isAlpha c = true) a -> 0 <= n -> typeRegexp (a ++ dec n) = Some (a, dec n).
Proof.
  intros Ha Hal Hn. destruct (dec_ok n Hn) as (_ & Hne & Hd). unfold typeRegexp. rewrite span_exact; [|done|].
  - rewrite <- (app_nil_r (dec n)), span_exact by done. rewrite app_nil_r. rewrite bool_decide_false by done. by rewrite bool_decide_true.
  - destruct (dec n) as [|c d]; [done|]. pose proof (digit_codes c ltac:(by inversion Hd)). cbn. unfold isAlpha.
    rewrite (proj2 (Z.leb_gt 97 c)), (proj2 (Z.leb_gt 65 c)) by lia. done.
Qed.
Definition base (t : Ty) : Prop := match t with KindArray _ _ | KindSlice _ | KindTuple _ _ => False | _ => True end.
Lemma Atoi_dec n : 0 <= n < 2 ^ 63 -> (if negb (bool_decide (dec n = [])) then Atoi (dec n) else Some 0) = Some n.
Proof.
  intros Hn. destruct (dec_ok n ltac:(lia)) as (Hv & Hne & _). rewrite bool_decide_false by done. cbn [negb]. unfold Atoi. rewrite Hv.
  destruct (Z.ltb_spec n (2 ^ 63)); [done|lia].
Qed.
Lemma simple_reads t : base t -> parsable t -> decodeSimpleType (show t) = Ret (inl t).
Proof.
  assert (forall n, 0 <= n -> bool_decide (dec n = []) = false) as Hd by (intros n Hn; apply bool_decide_false; by apply dec_ok).
  destruct t as [|n|n| | | | | |n| | |]; try done; intros _ Hp; cbn [parsable show raw] in *;
    try match goal with |- decodeSimpleType (str _) = _ => vm_compute; reflexivity end.
  - destruct Hp as [Hn Hm]. unfold decodeSimpleType. rewrite typeRegexp_num by first [done|lia|repeat constructor]. rewrite Hd by lia. cbn [negb].
    pose proof (Atoi_dec n Hn) as E. rewrite Hd in E by lia. cbn [negb] in E. rewrite E. rewrite Hm. by vm_compute.
  - destruct Hp as [Hn Hm]. unfold decodeSimpleType. rewrite typeRegexp_num by first [done|lia|repeat constructor]. rewrite Hd by lia. cbn [negb].
    pose proof (Atoi_dec n Hn) as E. rewrite Hd in E by lia. cbn [negb] in E. rewrite E. rewrite Hm. by vm_compute.
  - unfold decodeSimpleType. rewrite typeRegexp_num by first [done|lia|repeat constructor]. rewrite Hd by lia. cbn [negb].
    pose proof (Atoi_dec n ltac:(lia)) as E. rewrite Hd in E by lia. cbn [negb] in E. rewrite E. replace (n =? 0) with false by (symmetry; apply Z.eqb_neq; lia). by vm_compute.
Qed.
Lemma numbered a n : 0 <= n -> ident a -> ident (a ++ dec n) /\ keyword (a ++ dec n) = strToken.
Proof.
  intros Hn [Hc Ha]. destruct (dec_ok n Hn) as (_ & Hne & Hd). split.
  - destruct a as [|c a]; [done|]. split; [exact Hc|]. apply Forall_app; split; [done|].
    eapply Forall_impl; [|exact Hd]. intros x Hx. cbn in Hx. unfold isIdent. by rewrite Hx, orb_true_r.
  - assert (forall w, forallb (fun c => negb (isDigit c)) w = true -> a ++ dec n <> w) as Hw.
    { intros w Hf <-. rewrite forallb_app in Hf. apply andb_true_iff in Hf as [_ Hf]. destruct (dec n) as [|c d]; [done|]. cbn in Hf.
      inversion Hd as [|? ? Hc' _]; subst. by rewrite Hc' in Hf. }
    unfold keyword. rewrite !bool_decide_false by (by apply Hw). done.
Qed.
Lemma base_ident t : base t -> parsable t -> ident (show t) /\ keyword (show t) = strToken.
Proof.
  destruct t as [|n|n| | | | | |n| | |]; try done; intros _ Hp; cbn [parsable show raw] in *;
    try match goal with |- ident (str _) /\ _ => split; [split; [done|repeat constructor]|vm_compute; reflexivity] end.
  all: apply numbered; [lia|]; split; [done|repeat constructor].
Qed.
Lemma eat_tok l s tok s' : ready l s -> next_tok s = (tok, s') -> exists l', nextToken l = Ret (tok, l') /\ ready l' s' /\ current l' = tok.
Proof. intros Hr E. pose proof (nextToken_ready l s Hr) as H. by rewrite E in H. Qed.
Lemma peek_tok l s tok s' : ready l s -> next_tok s = (tok, s') -> peek l = tok.
Proof. intros Hr E. rewrite (peek_ready l s Hr), E. done. Qed.
Ltac unbind := cbv [mbind M_bind outcome_bind peekIs gets mret M_ret].
Lemma suffix_done f ty l s tok s' : ready l s -> next_tok s = (tok, s') -> typ tok <> lbracketToken -> readSuffix (S f) ty l = Ret (inl ty, l).
Proof. intros Hr E Ht. cbn [readSuffix]. unbind. rewrite (peek_tok l s _ _ Hr E). rewrite bool_decide_false by done. done. Qed.
Lemma suffix_slice f ty l s : ready l (str "[]" ++ s) -> exists l', readSuffix (S f) ty l = readSuffix f (KindSlice ty) l' /\ ready l' s.
Proof.
  intros Hr. cbn [readSuffix]. unbind. rewrite (peek_tok l _ (mkToken lbracketToken []) _ Hr eq_refl). cbn [typ]. rewrite bool_decide_true by done. cbn [negb].
  destruct (eat_tok l _ _ _ Hr eq_refl) as (l1 & -> & H1 & _). destruct (eat_tok l1 _ _ _ H1 eq_refl) as (l2 & -> & H2 & _). by exists l2.
Qed.
Lemma suffix_array f n ty l s : 0 <= n < 2 ^ 32 -> ArrayOf_ok n (goType ty) = true -> ready l (str "[" ++ dec n ++ str "]" ++ s) ->
  exists l', readSuffix (S f) ty l = readSuffix f (KindArray n ty) l' /\ ready l' s.
Proof.
  intros Hn Ha Hr. cbn [readSuffix]. unbind. assert (next_tok (str "[" ++ dec n ++ str "]" ++ s) = (mkToken lbracketToken [], dec n ++ str "]" ++ s)) as E1 by reflexivity.
  rewrite (peek_tok l _ _ _ Hr E1). cbn [typ]. rewrite bool_decide_true by done. cbn [negb].
  destruct (eat_tok l _ _ _ Hr E1) as (l1 & -> & H1 & _).
  destruct (eat_tok l1 _ _ _ H1 (next_tok_number n (str "]" ++ s) ltac:(lia) eq_refl)) as (l2 & -> & H2 & _). cbn [typ literal].
  unfold ParseUint32. destruct (dec_ok n ltac:(lia)) as [-> _]. destruct (Z.ltb_spec n (2 ^ 32)); [|lia]. rewrite Ha. cbn [negb].
  destruct (eat_tok l2 _ (mkToken rbracketToken []) s H2 eq_refl) as (l3 & -> & H3 & _). cbn [typ]. rewrite bool_decide_true by done. cbn [negb]. by exists l3.
Qed.
(** Names *)
Definition delimited (s : bytes) : Prop := exists s', s = 44 :: s' \/ s = 41 :: s' \/ s = 40 :: s'.
Lemma delimited_stops s : delimited s -> stops isIdent s.
Proof. intros (s' & [-> | [-> | ->]]); done. Qed.
Lemma delimited_tok s : delimited s -> exists tok s', next_tok s = (tok, s') /\ typ tok <> strToken /\ typ tok <> indexedToken /\ typ tok <> lbracketToken.
Proof. intros (s' & [-> | [-> | ->]]); (eexists _, s'; split; [reflexivity|done]). Qed.
Lemma tupleName_ok l nm s : name_ok nm -> delimited s -> ready l (str " " ++ nm ++ s) -> exists l', readTupleName l = Ret (inl nm, l') /\ ready l' s.
Proof.
  intros Hn Hd Hr. assert (ready l (nm ++ s)) as Hr' by exact (conj (proj1 Hr) (eq_trans (proj2 Hr) (next_tok_space _))). clear Hr.
  unfold readTupleName. unbind. destruct (delimited_tok s Hd) as (tok & s' & E & Ht & _ & Hb). destruct Hn as [->|[Hi Hk]].
  - rewrite (peek_tok l _ _ _ Hr' E), bool_decide_false by done. by exists l.
  - pose proof (next_tok_ident nm s Hi (delimited_stops s Hd)) as En. rewrite Hk in En.
    rewrite (peek_tok l _ _ _ Hr' En), bool_decide_true by done. cbn [negb]. destruct (eat_tok l _ _ _ Hr' En) as (l1 & -> & H1 & _).
    rewrite (peek_tok l1 _ _ _ H1 E), bool_decide_false by done. by exists l1.
Qed.
Definition elem_suffix (ix : bool) (nm : bytes) : bytes := (if ix then str " indexed " else str " ") ++ nm.
Lemma elemName_ok l ix nm s : name_ok nm -> delimited s -> ready l (elem_suffix ix nm ++ s) -> exists l', readElemName l = Ret ((nm, ix), l') /\ ready l' s.
Proof.
  intros Hn Hd Hr. unfold readElemName. unbind. destruct (delimited_tok s Hd) as (tok & s' & E & Ht & Hi & Hb).
  assert (forall l, ready l (nm ++ s) -> (exists l', nm <> [] /\ typ (peek l) = strToken /\ nextToken l = Ret (mkToken strToken nm, l') /\ ready l' s) \/
    nm = [] /\ typ (peek l) = typ tok /\ ready l s) as Hname.
  { intros l0 Hr0. destruct Hn as [->|[Hid Hk]]; [right; split; [done|]; by rewrite (peek_tok l0 _ _ _ Hr0 E)|]. left.
    pose proof (next_tok_ident nm s Hid (delimited_stops s Hd)) as En. rewrite Hk in En. destruct (eat_tok l0 _ _ _ Hr0 En) as (l1 & E1 & H1 & _).
    exists l1. rewrite (peek_tok l0 _ _ _ Hr0 En). split_and!; try done. intros ->. by destruct Hid. }
  unfold elem_suffix in Hr. destruct ix.
  - assert (next_tok ((str " indexed " ++ nm) ++ s) = (mkToken indexedToken (str "indexed"), str " " ++ nm ++ s)) as E1.
    { rewrite <- app_assoc. change (str " indexed " ++ nm ++ s) with (32 :: str "indexed" ++ str " " ++ nm ++ s). rewrite next_tok_space.
      apply (next_tok_ident (str "indexed")); [split; [done|repeat constructor]|done]. }
    rewrite (peek_tok l _ _ _ Hr E1). cbn [typ]. destruct (eat_tok l _ _ _ Hr E1) as (l1 & -> & H1 & _).
    assert (ready l1 (nm ++ s)) as H1' by exact (conj (proj1 H1) (eq_trans (proj2 H1) (next_tok_space _))).
    destruct (Hname l1 H1') as [(l2 & _ & -> & El & H2)|(-> & -> & H2)].
    + rewrite bool_decide_true by done. rewrite El. by exists l2.
    + rewrite bool_decide_false by done. by exists l1.
  - assert (ready l (nm ++ s)) as H1' by (rewrite <- app_assoc in Hr; exact (conj (proj1 Hr) (eq_trans (proj2 Hr) (next_tok_space _)))).
    destruct (Hname l H1') as [(l2 & _ & -> & El & H2)|(-> & -> & H2)]; [rewrite El; by exists l2|]. destruct (typ tok); try done; by exists l.
Qed.

Definition reads (t : Ty) : Prop := forall l s fuel, ready l (show t ++ s) -> stops isIdent s -> (need t <= fuel)%nat ->
  exists l', readType fuel l = readSuffix (fuel - depth t) t l' /\ ready l' s.
Definition elem_text (e : TupleElem Ty) : bytes := show (Elem e) ++ elem_suffix (Indexed e) (Name e).
Definition need_elems (es : list (TupleElem Ty)) : nat := fold_right (fun e n => 2 + need (Elem e) + n)%nat 0%nat es.
Lemma elem_suffix_stops ix nm s : stops isIdent (elem_suffix ix nm ++ s).
Proof. by destruct ix. Qed.
Lemma elem_suffix_tok ix nm s : name_ok nm -> delimited s -> exists tok s', next_tok (elem_suffix ix nm ++ s) = (tok, s') /\ typ tok <> lbracketToken.
Proof.
  intros Hn Hd. unfold elem_suffix. destruct ix; rewrite <- app_assoc.
  - eexists _, _. split; [|]. { change (str " indexed " ++ nm ++ s) with (32 :: str "indexed" ++ str " " ++ nm ++ s). rewrite next_tok_space.
      apply (next_tok_ident (str "indexed")); [split; [done|repeat constructor]|done]. } done.
  - destruct (delimited_tok s Hd) as (tok & s' & E & _ & _ & Hb). destruct Hn as [->|[Hid Hk]].
    + exists tok, s'. split; [|done]. rewrite <- E. apply next_tok_space.
    + exists (mkToken (keyword nm) nm), s. split; [|cbn; by rewrite Hk]. rewrite <- (next_tok_ident nm s Hid) by (by apply delimited_stops). apply next_tok_space.
Qed.
(** One element, up to the delimiter behind it *)
Lemma read_elem e l s fuel : reads (Elem e) -> name_ok (Name e) -> delimited s -> ready l (elem_text e ++ s) -> (need (Elem e) + 1 <= fuel)%nat ->
  exists l', (r ← readType fuel; match r with inr er => mret (inr er) | inl ty => nm ← readElemName; mret (inl (mkElem nm.1 ty nm.2)) end) l = Ret (inl e, l') /\ ready l' s.
Proof.
  intros He Hn Hd Hr Hf. unfold elem_text in Hr. rewrite <- app_assoc in Hr. destruct (He l _ fuel Hr (elem_suffix_stops _ _ _) ltac:(lia)) as (l1 & E1 & H1).
  pose proof (depth_need (Elem e)). destruct (elem_suffix_tok (Indexed e) (Name e) s Hn Hd) as (tok & s' & Et & Hb).
  unbind. rewrite E1. replace (fuel - depth (Elem e))%nat with (S (fuel - depth (Elem e) - 1)) by lia. rewrite (suffix_done _ _ _ _ _ _ H1 Et Hb).
  destruct (elemName_ok l1 _ _ s Hn Hd H1) as (l2 & -> & H2). exists l2. split; [|done]. by destruct e.
Qed.
Lemma read_elems_ok es : Forall (fun e => reads (Elem e) /\ name_ok (Name e)) es -> es <> [] -> forall acc l s fuel,
  ready l (join (str ",") (elem_text <$> es) ++ str ")" ++ s) -> (need_elems es + 1 <= fuel)%nat ->
  exists l', readElems fuel acc l = Ret (inl (acc ++ es), l') /\ ready l' s.
Proof.
  induction 1 as [|e es [He Hn] Hes IH]; [done|]. intros _ acc l s fuel Hr Hf. cbn [need_elems fold_right] in Hf. fold (need_elems es) in Hf.
  destruct fuel as [|fuel]; [lia|]. cbn [readElems]. set (tl := mjoin ((fun s => str "," ++ s) <$> (elem_text <$> es)) ++ str ")" ++ s).
  assert (join (str ",") (elem_text <$> e :: es) ++ str ")" ++ s = elem_text e ++ tl) as Ej by (unfold join, tl; rewrite fmap_cons; by rewrite <- app_assoc).
  rewrite Ej in Hr. assert (delimited tl) as Hd.
  { unfold tl. destruct es as [|e' es']; [by exists s; right; left|]. rewrite !fmap_cons. eexists. left. cbn. reflexivity. }
  destruct (read_elem e l tl fuel He Hn Hd Hr ltac:(lia)) as (l1 & E1 & H1). revert E1. unbind.
  destruct (readType fuel l) as [[[ty|er] l0]| |]; try done. destruct (readElemName l0) as [[nm l2]| |]; try done. intros [= <- ->].
  unfold tl in H1. destruct es as [|e' es'].
  - destruct (eat_tok l1 _ (mkToken rparenToken []) s H1 eq_refl) as (l3 & -> & H3 & _). by exists l3.
  - assert (next_tok (mjoin ((fun s => str "," ++ s) <$> (elem_text <$> e' :: es')) ++ str ")" ++ s) =
      (mkToken commaToken [], join (str ",") (elem_text <$> e' :: es') ++ str ")" ++ s)) as Ec by reflexivity.
    destruct (eat_tok l1 _ _ _ H1 Ec) as (l3 & -> & H3 & _). cbn [typ].
    destruct (IH ltac:(done) (acc ++ [mkElem nm.1 ty nm.2]) l3 s fuel H3 ltac:(lia)) as (l4 & -> & H4). exists l4. split; [|done]. by rewrite <- app_assoc.
Qed.
Lemma read_empty l s fuel : ready l (str ")" ++ s) -> (2 <= fuel)%nat -> exists l', readElems fuel [] l = Ret (inl [], l') /\ ready l' s.
Proof.
  intros Hr Hf. destruct fuel as [|[|fuel]]; [lia|lia|]. cbn [readElems readType]. unbind.
  destruct (eat_tok l _ (mkToken rparenToken []) s Hr eq_refl) as (l1 & -> & H1 & Ec). cbn [typ]. unfold perr. unbind. rewrite Ec. cbn [typ].
  rewrite !bool_decide_true by done. by exists l1.
Qed.
Lemma parsable_elems es : fold_right (fun e P => parsable (Elem e) /\ P) True es -> Forall (fun e => parsable (Elem e)) es.
Proof. induction es as [|e es IH]; [constructor|]. intros [H1 H2]. constructor; auto. Qed.
Lemma reads_base t : base t -> parsable t -> reads t.
Proof.
  intros Hb Hp l s fuel Hr Hs Hf. assert (depth t = 1%nat) as Hd by (by destruct t). rewrite Hd. assert (need t = 1%nat) as Hn by (by destruct t). rewrite Hn in Hf.
  destruct (base_ident t Hb Hp) as [Hid Hk]. pose proof (next_tok_ident _ s Hid Hs) as En. rewrite Hk in En. destruct fuel as [|fuel]; [lia|].
  cbn [readType]. unbind. destruct (eat_tok l _ _ _ Hr En) as (l1 & -> & H1 & _). cbn [typ literal]. unfold lift. rewrite (simple_reads t) by done.
  cbn [mbind outcome_bind]. exists l1. split; [|done]. by replace (S fuel - 1)%nat with fuel by lia.
Qed.
Lemma reads_tuple nm es : name_ok nm -> Forall (fun e => reads (Elem e) /\ name_ok (Name e)) es -> reads (KindTuple nm es).
Proof.
  intros Hn Hes l s fuel Hr Hs Hf. cbn [need depth] in *. fold (need_elems es) in Hf. destruct fuel as [|fuel]; [lia|]. replace (S fuel - 1)%nat with fuel by lia.
  cbn [show] in Hr. set (body := join (str ",") _) in Hr. assert (body = join (str ",") (elem_text <$> es)) as Eb by reflexivity.
  assert (next_tok ((str "tuple " ++ nm ++ str "(" ++ body ++ str ")") ++ s) = (mkToken tupleToken (str "tuple"), str " " ++ nm ++ str "(" ++ body ++ str ")" ++ s)) as E1.
  { rewrite <- !app_assoc. apply (next_tok_ident (str "tuple") (str " " ++ nm ++ str "(" ++ body ++ str ")" ++ s)); [split; [done|repeat constructor]|done]. }
  cbn [readType]. unfold pbind, expect. unbind. destruct (eat_tok l _ _ _ Hr E1) as (l1 & -> & H1 & _). cbn [typ].
  destruct (tupleName_ok l1 nm (str "(" ++ body ++ str ")" ++ s) Hn ltac:(by eexists; right; right) H1) as (l2 & -> & H2).
  destruct (eat_tok l2 _ (mkToken lparenToken []) _ H2 eq_refl) as (l3 & -> & H3 & _). cbn [typ]. rewrite bool_decide_true by done. rewrite Eb in H3.
  assert (exists l', readElems fuel [] l3 = Ret (inl es, l') /\ ready l' s) as (l4 & -> & H4); [|by exists l4].
  destruct es as [|e es]; [by apply read_empty; [|lia]|]. by apply (read_elems_ok (e :: es) Hes ltac:(done) [] l3 s fuel H3 ltac:(lia)).
Qed.
Theorem reads_ok t : parsable t -> reads t.
Proof.
  induction t as [|n|n| |n t IHt|t IHt| | |n| |nm es IHes|] using Ty_nested_ind; intros Hp l s fuel Hr Hs Hf.
  5: { destruct Hp as (Hn & Ha & Hp). cbn [show] in Hr. rewrite <- !app_assoc in Hr. cbn [need depth] in *. pose proof (depth_need t).
    destruct (IHt Hp l _ fuel Hr eq_refl ltac:(lia)) as (l1 & -> & H1). replace (fuel - depth t)%nat with (S (fuel - S (depth t))) by lia.
    by apply (suffix_array _ n t l1 s). }
  5: { cbn [show] in Hr. rewrite <- !app_assoc in Hr. cbn [need depth] in *. pose proof (depth_need t).
    destruct (IHt Hp l _ fuel Hr eq_refl ltac:(lia)) as (l1 & -> & H1). replace (fuel - depth t)%nat with (S (fuel - S (depth t))) by lia.
    by apply (suffix_slice _ t l1 s). }
  9: { destruct Hp as (Hn & Hns & Hps). eapply reads_tuple; try done. apply parsable_elems in Hps. rewrite !list.Forall_forall in *.
    intros e He. split; [by apply IHes; [|apply Hps]|by apply Hns]. }
  all: try done.
  all: eapply reads_base; done.
Qed.
Lemma join_length es : (fold_right (fun e n => length (show (Elem e)) + 1 + n) 0 es <= length (join (str ",") (elem_text <$> es)))%nat.
Proof.
  assert (forall e, length (show (Elem e)) + 1 <= length (elem_text e))%nat as He.
  { intros e. unfold elem_text, elem_suffix. rewrite !length_app. destruct (Indexed e); cbn; lia. }
  destruct es as [|e es]; [done|]. rewrite fmap_cons. cbn [join fold_right]. rewrite length_app. specialize (He e) as He0.
  enough (fold_right (fun e n => length (show (Elem e)) + 1 + n) 0 es <= length (mjoin ((fun s => str "," ++ s) <$> (elem_text <$> es))))%nat by lia.
  clear He0 e. induction es as [|e es IH]; [done|]. rewrite !fmap_cons. cbn [fold_right].
  match goal with |- context [mjoin (?x :: ?l)] => change (mjoin (x :: l)) with (x ++ mjoin l) end. rewrite !length_app. specialize (He e). change (length (str ",")) with 1%nat. lia.
Qed.
Lemma need_show t : parsable t -> (need t <= 2 * length (show t))%nat.
Proof.
  assert (forall t, base t -> parsable t -> need t <= 2 * length (show t))%nat as Hbase.
  { intros t0 Hb Hp. destruct (base_ident t0 Hb Hp) as [[Hc _] _]. assert (need t0 = 1%nat) as -> by (by destruct t0).
    destruct (show t0); [done|cbn; lia]. }
  induction t as [|n|n| |n t IHt|t IHt| | |n| |nm es IHes|] using Ty_nested_ind; intros Hp; try (by apply Hbase).
  - destruct Hp as (_ & _ & Hp). cbn [need show]. rewrite !length_app. specialize (IHt Hp). cbn [str length]. change (length (str "[")) with 1%nat. lia.
  - cbn [need show]. rewrite !length_app. specialize (IHt Hp). change (length (str "[]")) with 2%nat. lia.
  - destruct Hp as (_ & _ & Hps%parsable_elems). cbn [need show]. rewrite !length_app. change (length (str "tuple ")) with 6%nat. change (length (str "(")) with 1%nat.
    pose proof (join_length es) as Hj. change ((fun e => show (Elem e) ++ (if Indexed e then str " indexed " else str " ") ++ Name e) <$> es) with (elem_text <$> es).
    assert (fold_right (fun e n => 2 + need (Elem e) + n) 0 es <= 2 * fold_right (fun e n => length (show (Elem e)) + 1 + n) 0 es)%nat.
    { clear Hj. induction Hps as [|e es He _ IH]; [done|]. inversion IHes as [|? ? H1 H2]; subst. specialize (IH H2). specialize (H1 He). cbn [fold_right]. lia. }
    lia.
Qed.
Theorem NewType_show t : parsable t -> NewType (show t) = Ret (inl t).
Proof.
  intros Hp. unfold NewType. destruct (newLexer_ok (show t)) as [Hl Hr]. unbind. destruct (nextToken_ok _ Hl) as (l1 & -> & H1 & _ & E1). rewrite Hr in E1.
  pose proof (need_show t Hp) as Hn. pose proof (depth_need t). destruct (reads_ok t Hp l1 [] (parse_fuel (show t))) as (l2 & -> & H2).
  - rewrite app_nil_r. by split.
  - done.
  - unfold parse_fuel. lia.
  - replace (parse_fuel (show t) - depth t)%nat with (S (parse_fuel (show t) - depth t - 1)) by (unfold parse_fuel; lia).
    by rewrite (suffix_done _ _ _ _ (mkToken eofToken []) [] H2 eq_refl).
Qed.

(** ** The JSON form of a type *)
Fixpoint json_type (t : Ty) : bytes :=
  match t with
  | KindTuple _ _ => str "tuple"
  | KindArray n e => json_type e ++ str "[" ++ dec n ++ str "]"
  | KindSlice e => json_type e ++ str "[]"
  | t => raw t
  end.
Fixpoint json_internal (t : Ty) : bytes := match t with KindTuple nm _ => nm | KindArray _ e | KindSlice e => json_internal e | _ => [] end.
Fixpoint json_comps (t : Ty) : list ArgumentStr :=
  match t with
  | KindTuple _ es => (fun e => mkArg (Name e) (json_type (Elem e)) (json_internal (Elem e)) (Indexed e) (json_comps (Elem e))) <$> es
  | KindArray _ e | KindSlice e => json_comps e
  | _ => []
  end.
Definition json_arg (nm : bytes) (ix : bool) (t : Ty) : ArgumentStr := mkArg nm (json_type t) (json_internal t) ix (json_comps t).
(** A struct's name starts with a capital; a tuple has elements. *)
Definition capital (nm : bytes) : Prop := match nm with [] => True | c :: _ => toUpper c = c end.
Fixpoint json_ok (t : Ty) : Prop :=
  match t with
  | KindTuple nm es => capital nm /\ es <> [] /\ fold_right (fun e P => json_ok (Elem e) /\ P) True es
  | KindArray _ e | KindSlice e => json_ok e
  | _ => True
  end.
Lemma last_part_ident s acc : Forall (fun c => isIdent c = true) s -> last_part s acc = acc ++ s.
Proof.
  intros H. revert acc. induction H as [|c s Hc _ IH]; intros acc; cbn; [by rewrite app_nil_r|].
  assert ((c =? 46) = false) as ->. { apply Z.eqb_neq. intros ->. done. } by rewrite IH, <- app_assoc.
Qed.
Lemma title_ident s : Forall (fun c => isIdent c = true) s -> title_from false s = s.
Proof.
  induction 1 as [|c s Hc _ IH]; [done|]. cbn. unfold isIdent in Hc. rewrite Hc. cbn [orb negb]. by rewrite IH.
Qed.
Lemma internal_name nm : name_ok nm -> capital nm -> internalTypeToArg nm = str " " ++ nm.
Proof.
  intros [->|[[Hc Hi] _]] Hcap; [done|]. unfold internalTypeToArg. rewrite last_part_ident by done. cbn [app]. unfold Title.
  destruct nm as [|c s]; [done|]. cbn [title_from]. cbn in Hcap. rewrite Hcap. inversion Hi as [|? ? Hc' Hs]; subst.
  unfold isIdent in Hc'. rewrite Hc'. cbn [orb negb]. rewrite title_ident by done. rewrite <- (app_nil_r (c :: s)). rewrite span_exact; [by rewrite app_nil_r| |done].
  eapply Forall_impl; [|exact Hi]. intros x Hx. cbn. apply negb_true_iff, Z.eqb_neq. intros ->. done.
Qed.
Fixpoint is_tuple (t : Ty) : bool := match t with KindTuple _ _ => true | KindArray _ e | KindSlice e => is_tuple e | _ => false end.
Fixpoint array_suffix (t : Ty) : bytes :=
  match t with KindArray n e => array_suffix e ++ str "[" ++ dec n ++ str "]" | KindSlice e => array_suffix e ++ str "[]" | _ => [] end.
Fixpoint core (t : Ty) : Ty := match t with KindArray _ e | KindSlice e => core e | t => t end.
Lemma show_core t : show t = show (core t) ++ array_suffix t.
Proof. induction t; cbn [show core array_suffix]; rewrite ?app_nil_r; try done; by rewrite IHt, <- ?app_assoc. Qed.
Lemma json_core t : json_type t = json_type (core t) ++ array_suffix t /\ json_internal t = json_internal (core t) /\ json_comps t = json_comps (core t).
Proof. induction t; cbn [json_type json_internal json_comps core array_suffix]; rewrite ?app_nil_r; try done; destruct IHt as (-> & -> & ->); by rewrite <- ?app_assoc. Qed.
Lemma core_base t : base (core t) \/ exists nm es, core t = KindTuple nm es.
Proof. induction t; cbn [core]; eauto; by left. Qed.
Lemma strip_prefix_app p s : strip_prefix p (p ++ s) = Some s.
Proof. induction p as [|a p IH]; [done|]. cbn. by rewrite Z.eqb_refl. Qed.
Lemma base_not_tuple t s : base t -> parsable t -> strip_prefix (str "tuple") (raw t ++ s) = None.
Proof.
  destruct t as [|n|n| | | | | |n| | |]; try done; intros _ Hp; cbn [raw]; rewrite <- ?app_assoc; reflexivity.
Qed.
Lemma show_base t : base t -> show t = raw t /\ json_type t = raw t.
Proof. by destruct t. Qed.
Lemma parsable_core t : parsable t -> parsable (core t).
Proof. induction t; cbn [core]; try done. intros (_ & _ & H). auto. Qed.
Lemma json_ok_core t : json_ok t -> json_ok (core t).
Proof. induction t; cbn [core]; done. Qed.
Definition json_reads (t : Ty) : Prop := forall nm ix, parseType (json_arg nm ix t) = show t.
Lemma parseType_eq nm ty internal ix comps :
  parseType (mkArg nm ty internal ix comps) =
  match strip_prefix (str "tuple") ty with
  | None => ty
  | Some suffix => match comps with [] => str "tuple()" | _ =>
      str "tuple" ++ internalTypeToArg internal ++ str "(" ++
      join (str ",") ((fun i => parseType i ++ (if aIndexed i then str " indexed " else str " ") ++ aName i) <$> comps) ++ str ")" ++ suffix end
  end.
Proof. by destruct comps. Qed.
Lemma json_tuple nm es t : core t = KindTuple nm es -> name_ok nm -> capital nm -> es <> [] -> Forall (fun e => json_reads (Elem e)) es -> json_reads t.
Proof.
  intros Hc Hn Hcap Hne Hes an ix. unfold json_arg. destruct (json_core t) as (-> & -> & ->). rewrite Hc. cbn [json_type json_internal json_comps].
  assert (forall es, Forall (fun e => json_reads (Elem e)) es ->
    (fun i => parseType i ++ (if aIndexed i then str " indexed " else str " ") ++ aName i) <$>
      ((fun e => mkArg (Name e) (json_type (Elem e)) (json_internal (Elem e)) (Indexed e) (json_comps (Elem e))) <$> es) =
    (fun e => show (Elem e) ++ (if Indexed e then str " indexed " else str " ") ++ Name e) <$> es) as Hmap.
  { clear. induction 1 as [|e es He _ IH]; [done|]. rewrite !fmap_cons, IH. f_equal. cbn [aIndexed aName]. f_equal. exact (He (Name e) (Indexed e)). }
  rewrite parseType_eq, strip_prefix_app, show_core, Hc, Hmap, internal_name by done. cbn [show]. destruct es as [|e es]; [done|]. by rewrite <- !app_assoc.
Qed.
Lemma json_base t : base (core t) -> parsable t -> json_reads t.
Proof.
  intros Hb Hp an ix. unfold json_arg. rewrite parseType_eq, (proj1 (json_core t)), show_core. destruct (show_base _ Hb) as [-> ->].
  rewrite base_not_tuple; [done|done|by apply parsable_core].
Qed.
Theorem json_arg_show t : forall t', core t' = core t -> parsable t' -> json_ok t' -> json_reads t'.
Proof.
  induction t as [|n|n| |n t IHt|t IHt| | |n| |nm es IHes|] using Ty_nested_ind; intros t' Hc Hp Hj; cbn [core] in Hc; try (apply json_base; [by rewrite Hc|done]); auto.
  apply parsable_core in Hp as Hp'. apply json_ok_core in Hj as Hj'. rewrite Hc in Hp', Hj'. destruct Hp' as (Hn & _ & Hps%parsable_elems), Hj' as (Hcap & Hne & Hjs).
  apply (json_tuple nm es); try done. assert (Forall (fun e => json_ok (Elem e)) es) as Hjf.
  { clear -Hjs. induction es as [|e es IH]; [constructor|]. destruct Hjs. constructor; auto. }
  rewrite list.Forall_forall in *. intros e He. apply (IHes e He (Elem e) eq_refl); auto.
Qed.
(** Checking a literal name *)
Definition name_okb (s : bytes) : bool :=
  match s with [] => true | c :: _ => isLetter c && forallb isIdent s && bool_decide (keyword s = strToken) end.
Lemma name_lit s : name_okb s = true -> name_ok s.
Proof.
  intros H. destruct s as [|c s]; [by left|]. right. cbn [name_okb] in H. apply andb_true_iff in H as [[H1 H2]%andb_true_iff H3%bool_decide_eq_true].
  split; [split; [done|]|done]. rewrite list.Forall_forall. rewrite forallb_forall in H2. intros x Hx. by apply H2, list_elem_of_In.
Qed.
