(* ===== verification/AbiContractFacts.v ===== *)
(** * Topics, logs and call data

    A topic, the log of an event and the input of a call are decoded to the
    values they were made from. *)

From stdpp Require Import strings.
From S2P Require Import Prelude Words BigInt Text AbiType AbiCodec AbiContract AbiFacts AbiDecodeFacts.

(** ** Topics *)
Definition topic_type (t : Ty) : bool := match t with KindBool | KindUInt _ | KindInt _ | KindAddress => true | _ => false end.
Lemma topic_static t : topic_type t = true -> isDynamicType t = false.
Proof. by destruct t. Qed.
Lemma topic_len t x : topic_type t = true -> typed t x -> length (spec_enc t x) = 32%nat.
Proof.
  destruct t, x; try done; cbn [spec_enc typed]; rewrite ?length_be_bytes; try done. intros _ [_ H]. rewrite length_app, length_replicate. lia.
Qed.
Lemma toHash_word b : length b = 32%nat -> toHash b = b.
Proof. intros H. unfold toHash. rewrite H, take_ge by lia. by rewrite app_nil_r. Qed.
Lemma EncodeTopic_ok t x v : topic_type t = true -> typed t x -> repr t v x -> iface_elem v = v -> EncodeTopic t v = Ret (inl (spec_enc t x)).
Proof.
  intros Ht Hx Hr Hv. pose proof (topic_len t x Ht Hx) as Hl. assert (len (spec_enc t x) < 2 ^ 63) as Hlen by (unfold len; lia).
  pose proof (encode_ok t x v Hx Hlen Hr) as He. unfold encodes in He. destruct t, x; try done; cbn [encode EncodeTopic] in *; rewrite Hv in He.
  - destruct v; try done. cbn [encodeTopicBool encodeBool] in *. destruct b, b0; vm_compute in He; try discriminate He; vm_compute; done.
  - unfold encodeTopicNum. rewrite He. cbn [mbind result_bind]. by rewrite toHash_word.
  - unfold encodeTopicNum. rewrite He. cbn [mbind result_bind]. by rewrite toHash_word.
  - unfold encodeTopicAddress. rewrite He. cbn [mbind result_bind]. by rewrite toHash_word.
Qed.
Lemma ParseTopic_ok t x : topic_type t = true -> typed t x -> ParseTopic t (spec_enc t x) = Ret (inl (goval t x)).
Proof.
  destruct t as [|n|n| | | | | | | | |], x as [b|z|b|l]; try done; cbn [typed]; intros _ Hx.
  - destruct b; vm_compute; done.
  - cbn [ParseTopic spec_enc]. by rewrite readInteger_uint by tauto.
  - cbn [ParseTopic spec_enc]. by rewrite readInteger_int by tauto.
  - destruct Hx as [Hb Hl]. cbn [ParseTopic spec_enc goval]. unfold readAddr, len. rewrite length_app, length_replicate, Hl. cbn [Nat.add Z.eqb negb].
    rewrite drop_app_length' by done. by rewrite take_ge by lia.
Qed.

(** ** Logs *)
Section Fields.
Context {A : Type} (f : Ty -> aval -> A) (ix : bool).
(** The indexed, or the other, arguments *)
Fixpoint select (es : list (TupleElem Ty)) (l : list aval) : list A :=
  match es, l with
  | e :: es, x :: l => if Bool.eqb (Indexed e) ix then f (Elem e) x :: select es l else select es l
  | _, _ => []
  end.
End Fields.
Fixpoint names_from (i : Z) (es : list (TupleElem Ty)) : list bytes :=
  match es with [] => [] | e :: es => ToName (Name e) i :: names_from (i + 1) es end.
Definition indexed (es : list (TupleElem Ty)) := filter (fun a => Indexed a = true) es.
Definition plain (es : list (TupleElem Ty)) := filter (fun a => Indexed a = false) es.
(** The log a contract emits for an event with arguments [l]: the event's ID
    unless it is anonymous, the indexed arguments, the others as data *)
Definition event_log (anonymous : bool) (id : Hash) (es : list (TupleElem Ty)) (l : list aval) : Log :=
  mkLog ((if anonymous then [] else [id]) ++ select spec_enc true es l) (spec_enc (KindTuple [] (plain es)) (ASeq (select (fun _ x => x) false es l))).

Lemma select_fields (es : list (TupleElem Ty)) l P : all_fields P es l -> all_fields P (plain es) (select (fun _ x => x) false es l).
Proof.
  revert l. induction es as [|e es IH]; intros [|x l]; cbn [all_fields]; try done. intros [Hx Hl]. unfold plain in *. rewrite filter_cons. cbn [select].
  destruct (Indexed e) eqn:E; cbn [Bool.eqb]; [rewrite decide_False by done; by apply IH|rewrite decide_True by done]. split; [done|by apply IH].
Qed.
Lemma select_goval (es : list (TupleElem Ty)) l : zip_fields goval (plain es) (select (fun _ x => x) false es l) = select goval false es l.
Proof.
  revert l. induction es as [|e es IH]; intros [|x l]; try done; [by destruct (plain (e :: es))|]. unfold plain in *. rewrite filter_cons. cbn [select].
  destruct (Indexed e) eqn:E; cbn [Bool.eqb]; [rewrite decide_False by done; by apply IH|rewrite decide_True by done]. cbn [zip_fields]. by rewrite IH.
Qed.
Lemma parse_topics_ok es l : Forall (fun e => Indexed e = true -> topic_type (Elem e) = true) es -> all_fields typed es l ->
  length (indexed es) = length (select spec_enc true es l) /\ parse_topics (indexed es) (select spec_enc true es l) = Ret (inl (select goval true es l)).
Proof.
  revert l. induction es as [|e es IH]; intros [|x l] Ht; cbn [all_fields]; try done. intros [Hx Hl]. inversion Ht; subst. unfold indexed in *. rewrite filter_cons. cbn [select].
  destruct (Indexed e) eqn:E; cbn [Bool.eqb]; [rewrite decide_True by done|rewrite decide_False by done; by apply IH].
  destruct (IH l ltac:(done) Hl) as [E1 E2]. cbn [length parse_topics]. rewrite E1. split; [done|]. rewrite ParseTopic_ok by auto. cbn [mbind result_bind]. by rewrite E2.
Qed.
Lemma map_set_fresh k v m : k ∉ m.*1 -> map_set k v m = m ++ [(k, v)].
Proof.
  intros H. unfold map_set. f_equal. induction m as [|e m IH]; [done|]. rewrite fmap_cons in H. apply not_elem_of_cons in H as [H1 H2].
  rewrite filter_cons, decide_True by congruence. by rewrite IH.
Qed.
(** The values of the map at its keys, in order *)
Fixpoint keyed (n : Z) (es : list (TupleElem Ty)) (vs : list Value) (m : list (bytes * Value)) : Prop :=
  match es, vs with
  | [], [] => True
  | e :: es, v :: vs => iface_elem (map_index (NameToKey (Name e) n) m) = v /\ keyed (n + 1) es vs m
  | _, _ => False
  end.
Lemma merge_args_ok es : forall l i n m res, all_fields typed es l -> keyed n (plain es) (select goval false es l) m ->
  NoDup (res.*1 ++ names_from i es) ->
  merge_args i n es (select goval true es l) m res = Ret (inl (res ++ zip (names_from i es) (zip_fields goval es l))).
Proof.
  induction es as [|e es IH]; intros [|x l] i n m res Ht Hk Hn; cbn in Ht; try done; [cbn; by rewrite app_nil_r|]. destruct Ht as [Hx Hl].
  cbn [names_from] in Hn. assert (ToName (Name e) i ∉ res.*1) as Hf.
  { apply list.NoDup_app in Hn as (_ & Hn & _). intros Hin. apply (Hn _ Hin). left. }
  cbn [merge_args names_from zip_fields zip zip_with]. unfold plain in Hk. rewrite filter_cons in Hk. cbn [select] in *.
  destruct (Indexed e) eqn:E; cbn [Bool.eqb] in *.
  - rewrite decide_False in Hk by done. rewrite map_set_fresh, (IH l) by (try done; by rewrite fmap_app, <- app_assoc). by rewrite <- app_assoc.
  - rewrite decide_True in Hk by done. cbn [keyed] in Hk. destruct Hk as [-> Hk].
    rewrite map_set_fresh, (IH l) by (try done; by rewrite fmap_app, <- app_assoc). by rewrite <- app_assoc.
Qed.
Lemma goval_not_iface t x : iface_elem (goval t x) = goval t x.
Proof. destruct t, x; try done; cbn [goval]; destruct (goType _); done. Qed.
Lemma map_index_app k v m m' : k ∉ m.*1 -> map_index k (m ++ (k, v) :: m') = as_iface v.
Proof.
  intros H. unfold map_index. rewrite list_find_app_r.
  - cbn. rewrite decide_True by done. done.
  - apply list_find_None, list.Forall_forall. intros e He Hk. apply H. rewrite <- Hk. apply list_elem_of_fmap. eauto.
Qed.
Lemma keyed_ok es : forall l i m, all_fields typed es l -> NoDup (m.*1 ++ keys_from i es) ->
  keyed i es (zip_fields goval es l) (m ++ zip (keys_from i es) (zip_fields goval es l)).
Proof.
  induction es as [|e es IH]; intros [|x l] i m Ht Hn; cbn in Ht; try done. destruct Ht as [Hx Hl]. cbn [keys_from zip_fields zip zip_with keyed] in *. split.
  - rewrite map_index_app; [unfold as_iface; cbn [iface_elem]; apply goval_not_iface|].
    apply list.NoDup_app in Hn as (_ & Hn & _). intros Hin. apply (Hn _ Hin). left.
  - rewrite cons_middle, app_assoc. apply IH; [done|]. by rewrite fmap_app, <- app_assoc.
Qed.
Theorem ParseLog_ok spare id nm es l :
  all_fields typed es l -> Forall (fun e => Indexed e = true -> topic_type (Elem e) = true) es ->
  NoDup (keys (plain es)) -> NoDup (names_from 0 es) -> len (Data (event_log false id es l)) < 2 ^ 63 ->
  ParseLog spare (KindTuple nm es) (event_log false id es l) = Ret (inl (zip (names_from 0 es) (zip_fields goval es l))).
Proof.
  intros Ht Hix Hk Hn Hlen. unfold ParseLog. cbn [TupleElems event_log Topics Data app]. fold (indexed es) (plain es).
  destruct (parse_topics_ok es l Hix Ht) as [El Ep]. unfold ParseTopics. rewrite El, Nat.eqb_refl. cbn [negb]. rewrite Ep. cbn [mbind result_bind].
  pose proof (select_fields es l typed Ht) as Hp.
  assert (exists m, (if bool_decide (plain es = []) then mret [] else
      raw ← Decode spare (KindTuple [] (plain es)) (spec_enc (KindTuple [] (plain es)) (ASeq (select (fun _ x => x) false es l)));
      match raw with VMap m => mret m | _ => err noDecoding end) = Ret (inl m) /\ keyed 0 (plain es) (select goval false es l) m) as (m & -> & Hm).
  { case_bool_decide as He.
    - exists []. split; [done|]. rewrite <- select_goval. rewrite He in *. by destruct (select (fun _ x => x) false es l).
    - set (x := ASeq _). assert (typed (KindTuple [] (plain es)) x) as Hx by done. pose proof (word_size _ _ Hx).
      unfold Decode. destruct (Z.eqb_spec (len (spec_enc (KindTuple [] (plain es)) x)) 0); [lia|].
      destruct (decode_ok spare _ x Hx Hlen []) as (tl & E & _). rewrite app_nil_r in E. rewrite E. cbn [mbind result_bind mret result_ret goval x]. unfold x.
      cbn [goval]. eexists. split; [done|]. rewrite <- select_goval. apply (keyed_ok (plain es) _ 0 []); done. }
  cbn [mbind result_bind]. by rewrite (merge_args_ok es l 0 0 m []).
Qed.

(** An indexed argument of another type is never parsed. *)
Lemma parse_topics_refuses args : forall topics r, Exists (fun e => topic_type (Elem e) = false) args -> length args = length topics ->
  parse_topics args topics <> Ret (inl r).
Proof.
  induction args as [|a args IH]; intros topics r Hx Hl; [by inversion Hx|]. destruct topics as [|t topics]; [done|]. cbn [parse_topics].
  inversion Hx as [? ? Ha|? ? Hx']; subst.
  - destruct (Elem a); done.
  - destruct (ParseTopic (Elem a) t) as [[v|e]| |]; cbn [mbind result_bind]; try done.
    specialize (IH topics). destruct (parse_topics args topics) as [[vs|e]| |]; try done. by destruct (IH vs Hx' ltac:(by injection Hl)).
Qed.
Lemma ParseLog_refuses spare nm es log r : Exists (fun e => Indexed e = true /\ topic_type (Elem e) = false) es ->
  ParseLog spare (KindTuple nm es) log <> Ret (inl r).
Proof.
  intros Hx. unfold ParseLog. cbn [TupleElems]. destruct (Topics log) as [|t topics]; [done|]. unfold ParseTopics.
  assert (Hi : Exists (fun e => topic_type (Elem e) = false) (filter (fun a => Indexed a = true) es)).
  { apply list.Exists_exists in Hx as (e & He & Hix & Ht). apply list.Exists_exists. exists e. split; [|done]. by apply list_elem_of_filter. }
  destruct (Nat.eqb_spec (length (filter (fun a => Indexed a = true) es)) (length topics)) as [El|]; cbn [negb]; [|done].
  pose proof (fun vs => parse_topics_refuses _ topics vs Hi El) as Hp. destruct (parse_topics _ topics) as [[vs|e]| |]; try done. by destruct (Hp vs).
Qed.

(** ** Call data *)
(** The method of the selector is found, whatever the order. *)
Lemma decode_tx_selects keccak spare (m : Method) data methods :
  (4 <= length (keccak (Sig m)))%nat -> m ∈ methods -> (forall m', m' ∈ methods -> ID keccak m' = ID keccak m -> m' = m) ->
  decode_tx keccak spare methods (ID keccak m ++ data) = (value ← Decode spare (Inputs m) data; mret (value, DetailedSig m)).
Proof.
  intros Hk Hin Hid. assert (len (ID keccak m) = 4) as Hl by (unfold len, ID; rewrite length_take; lia).
  induction methods as [|m' methods IH]; [by apply not_elem_of_nil in Hin|]. cbn [decode_tx]. rewrite reslice_prefix by done. cbn [mbind result_bind].
  case_bool_decide as Em.
  - assert (m' = m) as -> by (apply Hid; [left|done]). rewrite len_app, Hl. destruct (Z.ltb_spec (4 + len data) 4); [unfold len in *; lia|].
    cbn [mbind result_bind mret result_ret]. by rewrite drop_app_length' by (unfold len in Hl; lia).
  - apply elem_of_cons in Hin as [->|Hin]; [done|]. apply IH; [done|]. intros m2 H2. apply Hid. by right.
Qed.
Lemma decode_typed spare t x : typed t x -> len (spec_enc t x) < 2 ^ 63 -> Decode spare t (spec_enc t x) = Ret (inl (goval t x)).
Proof.
  intros Hx Hlen. pose proof (word_size t x Hx). unfold Decode. destruct (Z.eqb_spec (len (spec_enc t x)) 0); [lia|].
  destruct (decode_ok spare t x Hx Hlen []) as (tl & E & _). rewrite app_nil_r in E. by rewrite E.
Qed.
