(* ===== verification/AbiTheorems.v ===== *)
(** * Theorems on the contract ABI *)

From stdpp Require Import strings.
From S2P Require Import Prelude Words BigInt Text AbiType AbiCodec AbiContract AbiFacts AbiDecodeFacts.
From S2P Require Import AbiParseFacts AbiContractFacts.

(** C12.  The ABI codec: every Go representation of a well-typed value (numbers of
    any integer kind, byte slices or byte arrays, tuples as lists, maps or
    structs, values behind interfaces) is encoded to exactly the bytes the ABI
    specification prescribes, and decoding these bytes, whatever lies behind them
    in memory, returns the value in its canonical Go form. *)
Theorem abi_roundtrip spare t v x : typed t x -> repr t v x -> len (spec_enc t x) < 2 ^ 63 ->
  Encode v t = Ret (inl (spec_enc t x)) /\ Decode spare t (spec_enc t x) = Ret (inl (goval t x)).
Proof.
  intros Hx Hr Hlen. split; [by apply encode_ok|by apply decode_typed].
Qed.
(** [tuple(uint8 a, string b, int256[] c)] with a list of Go values *)
Definition ty0 : Ty :=
  KindTuple [] [mkElem (str "a") (KindUInt 8) false; mkElem (str "b") KindString false; mkElem (str "c") (KindSlice (KindInt 256)) false].
Definition val0 : aval := ASeq [ANum 7; ABytes (str "hi"); ASeq [ANum (-1); ANum 5]].
Definition go0 : Value := VSlice GIface [VIface (VInt 64 7); VIface (VString (str "hi")); VIface (VSlice GBig [VBig (-1); VBig 5])].
Lemma val0_typed : typed ty0 val0.
Proof.
  cbn. split; [done|]. split; [|split_and!; try lia; repeat constructor; unfold is_byte; lia].
  apply (bool_decide_unpack _). vm_compute. done.
Qed.
Lemma go0_repr : repr ty0 go0 val0.
Proof.
  cbn. eexists. split; [done|]. split; [done|]. split_and!; try done; [right; exists 64; by right|]. eexists _, _. split; [done|].
  repeat constructor.
Qed.
Lemma abi_roundtrip_witness : Encode go0 ty0 = Ret (inl (spec_enc ty0 val0)) /\ Decode [] ty0 (spec_enc ty0 val0) =
  Ret (inl (VMap [(str "a", VUint 8 7); (str "b", VString (str "hi")); (str "c", VSlice GBig [VBig (-1); VBig 5])])).
Proof. apply (abi_roundtrip [] ty0 go0 val0 val0_typed go0_repr). vm_compute. reflexivity. Defined.


(** C14.  Event logs.  The log a contract emits for an event that is not
    anonymous, with typed arguments of which the indexed ones are booleans,
    integers or addresses (topics for the indexed ones, the ABI tuple of the
    others as data), is parsed to the map from the arguments' names to their
    values, when the names are distinct.  The log of an anonymous event, which
    carries no ID, is refused unless its first argument looks like the ID; and
    no log of an event with an indexed argument of another type is parsed. *)
Theorem event_log_roundtrip keccak spare nm anon es l : let e := mkEvent nm anon (KindTuple [] es) in
  let log := event_log anon (eID keccak e) es l in
  (anon = false -> all_fields typed es l -> Forall (fun e => Indexed e = true -> topic_type (Elem e) = true) es ->
    NoDup (keys (plain es)) -> NoDup (names_from 0 es) -> len (Data log) < 2 ^ 63 ->
    eParseLog keccak spare e log = Ret (inl (zip (names_from 0 es) (zip_fields goval es l)))) /\
  (anon = true -> head (Topics log) <> Some (eID keccak e) -> eParseLog keccak spare e log = Ret (inr noMatch)) /\
  (Exists (fun e => Indexed e = true /\ topic_type (Elem e) = false) es ->
    forall log' m, eParseLog keccak spare e log' <> Ret (inl m)).
Proof.
  intros e log. unfold eParseLog, Match. split_and!.
  - intros -> Ht Hix Hk Hn Hlen. cbn [Topics event_log log app]. rewrite bool_decide_true by done. cbn [negb]. by apply ParseLog_ok.
  - intros -> Hh. destruct (Topics log) as [|t topics]; [done|]. rewrite bool_decide_false; [done|]. intros ->. by apply Hh.
  - intros Hx log' m. destruct (negb _); [done|]. by apply ParseLog_refuses.
Qed.
Definition transfer_args : list (TupleElem Ty) :=
  [mkElem (str "from") KindAddress true; mkElem (str "to") KindAddress true; mkElem (str "value") (KindUInt 256) false].
Definition alice : Address := replicate 20 1.
Definition bob : Address := replicate 20 2.
Lemma event_log_roundtrip_witness : let e := mkEvent (str "Transfer") false (KindTuple [] transfer_args) in
  eParseLog (fun _ => replicate 32 9) [] e (event_log false (replicate 32 9) transfer_args [ABytes alice; ABytes bob; ANum 1000]) =
  Ret (inl [(str "from", VByteArray alice); (str "to", VByteArray bob); (str "value", VBig 1000)]).
Proof.
  apply (proj1 (event_log_roundtrip (fun _ => replicate 32 9) [] (str "Transfer") false transfer_args [ABytes alice; ABytes bob; ANum 1000]) eq_refl).
  - cbn. split_and!; try done; try lia; repeat constructor; unfold is_byte; lia.
  - repeat constructor.
  - apply (bool_decide_unpack _). vm_compute. done.
  - apply (bool_decide_unpack _). vm_compute. done.
  - vm_compute. reflexivity.
Defined.

(** C15.  Call data.  When no other method of the contract has the selector of
    [m], the input built for [m] is handled the same in whatever order the
    methods are tried: with parameters, it is decoded to the signature of [m]
    and the values it was called with; without parameters, the input is the
    bare selector and decoding it is an error. *)
Theorem calldata_roundtrip keccak spare (m : Method) methods :
  (4 <= length (keccak (Sig m)))%nat -> m ∈ methods -> (forall m', m' ∈ methods -> ID keccak m' = ID keccak m -> m' = m) ->
  (forall args x, typed (Inputs m) x -> repr (Inputs m) (VSlice GIface (as_iface <$> args)) x -> len (spec_enc (Inputs m) x) < 2 ^ 63 ->
    exists b, EncodeIDAndInput keccak m args = Ret (inl b) /\ decode_tx keccak spare methods b = Ret (inl (goval (Inputs m) x, DetailedSig m))) /\
  (forall nm, Inputs m = KindTuple nm [] ->
    exists b, EncodeIDAndInput keccak m [] = Ret (inl b) /\ decode_tx keccak spare methods b = Ret (inr emptyInput)).
Proof.
  intros Hk Hin Hid. split.
  - intros args x Hx Hr Hlen. exists (ID keccak m ++ spec_enc (Inputs m) x). rewrite decode_tx_selects, decode_typed by done. split; [|done].
    unfold EncodeIDAndInput, Encode. pose proof (encode_ok _ _ _ Hx Hlen Hr) as E. unfold encodes in E. by rewrite E.
  - intros nm Em. exists (ID keccak m ++ []). rewrite decode_tx_selects by done. unfold EncodeIDAndInput. rewrite Em. by cbn.
Qed.
Definition method0 : Method := mkMethod (str "f") false ty0 (KindTuple [] []).
Definition method1 : Method := mkMethod (str "g") false (KindTuple [] []) (KindTuple [] []).
Definition keccak0 (s : bytes) : Hash := take 32 (s ++ replicate 32 0).
Lemma calldata_roundtrip_witness :
  (exists b, EncodeIDAndInput keccak0 method0 [VInt 64 7; VString (str "hi"); VSlice GBig [VBig (-1); VBig 5]] = Ret (inl b) /\
    decode_tx keccak0 [] [method1; method0] b = Ret (inl (goval ty0 val0, str "f(uint8 a, string b, int256[] c)"))) /\
  (exists b, EncodeIDAndInput keccak0 method1 [] = Ret (inl b) /\ decode_tx keccak0 [] [method0; method1] b = Ret (inr emptyInput)).
Proof.
  split.
  - apply (calldata_roundtrip keccak0 [] method0 [method1; method0]).
    + vm_compute. lia.
    + right. left.
    + intros m' Hm. apply elem_of_cons in Hm as [->|Hm%list_elem_of_singleton]; [by vm_compute|done].
    + exact val0_typed.
    + exact go0_repr.
    + vm_compute. reflexivity.
  - eapply (calldata_roundtrip keccak0 [] method1 [method0; method1]); [vm_compute; lia|right; left| |reflexivity].
    intros m' Hm. apply elem_of_cons in Hm as [->|Hm%list_elem_of_singleton]; [by vm_compute|done].
Defined.

(** ** Where the code fails *)
(** Malformed input can crash the decoder: a length that reaches behind the
    input, or a second offset that is missing. *)
Example decode_length_panics : Decode [] KindBytes (be_bytes 32 20) = Panic.
Proof. vm_compute. reflexivity. Qed.
Example decode_offset_panics :
  Decode [] (KindTuple [] [mkElem [] KindBytes false; mkElem [] KindBytes false]) (be_bytes 32 0) = Panic.
Proof. vm_compute. reflexivity. Qed.
(** A type name the parser should refuse. *)
Example uint7_panics : NewType (str "uint7") = Panic.
Proof. vm_compute. reflexivity. Qed.
(** A decoded tuple with a capital letter in a name cannot be encoded again. *)
Definition ty2 : Ty := KindTuple [] [mkElem (str "tokenId") (KindUInt 256) false].
Example capital_names_do_not_encode :
  Decode [] ty2 (be_bytes 32 5) = Ret (inl (VMap [(str "tokenId", VBig 5)])) /\
  Encode (VMap [(str "tokenId", VBig 5)]) ty2 = Ret (inr (missingKey (str "tokenid"))).
Proof. vm_compute. done. Qed.
