(* ===== verification/Structs.v ===== *)
(** * Blocks, transactions, receipts, logs and their JSON and RLP forms

    src/structs.go, structs_marshal.go, structs_unmarshal.go and
    structs_marshal_rlp.go.

    The JSON library (fastjson) is the parameter [FastJson]: a printer and a
    parser of JSON values, with the laws the code relies on.  A JSON object is the
    list of its fields.  The RLP library (fastrlp) and Keccak are parameters as
    well, and so are the JSON form of a parsed event ([eventJson], which Go gets by
    reflection) and the registered parser of logs ([parseLog]).

    A decoder gets the value the receiver holds, because a field that does not
    decode may keep it.  When a decoder fails it leaves its receiver half filled;
    no caller reads it, and the model returns the error alone. *)

From stdpp Require Import strings.
From S2P Require Import Prelude Words Text AbiType AbiCodec.

(** ** JSON *)
Inductive json :=
| JNull | JBool (b : bool) | JNumber (raw : bytes) | JString (s : bytes)
| JArray (l : list json) | JObject (l : list (bytes * json)).
Class FastJson := { printJSON : json -> bytes; parseJSON : bytes -> option json }.

(** Values whose strings need no escapes and whose numbers are natural *)
Fixpoint plain_json (v : json) : Prop :=
  match v with
  | JNull | JBool _ => True
  | JNumber raw => exists z, 0 <= z /\ raw = dec z
  | JString s => plain s
  | JArray l => foldr (fun v P => plain_json v /\ P) True l
  | JObject l => foldr (fun kv P => (plain kv.1 /\ plain_json kv.2) /\ P) True l
  end.
Class FastJsonLaws `{FastJson} : Prop := {
  parse_print v : plain_json v -> parseJSON (printJSON v) = Some v;
  print_text v : plain_json v -> printJSON v <> [] /\ bytes_ok (printJSON v);
  print_string s : plain s -> printJSON (JString s) = quote :: s ++ [quote];
  print_null : printJSON JNull = str "null";
  print_bool b : printJSON (JBool b) = if b then str "true" else str "false";
}.

(** [Value.Get], [GetStringBytes], [GetArray] *)
Fixpoint assoc (key : bytes) (l : list (bytes * json)) : option json :=
  match l with
  | [] => None
  | (k, v) :: l => if bool_decide (k = key) then Some v else assoc key l
  end.
Definition getField (key : bytes) (v : json) : option json := match v with JObject l => assoc key l | _ => None end.
Definition StringBytes (v : json) : option bytes := match v with JString s => Some s | _ => None end.
Definition GetStringBytes (key : bytes) (v : json) : bytes := default [] (getField key v ≫= StringBytes).
Definition GetArray (key : bytes) (v : json) : list json :=
  match getField key v with Some (JArray l) => l | _ => [] end.

(** ** The structures *)
Record ParsedEvent := mkEvent { evContract : bytes; evSig : bytes; evValues : list (bytes * Value) }.
Record Log := mkLog {
  lRemoved : bool; lLogIndex : Z; lTransactionIndex : Z; lTransactionHash : Hash; lBlockHash : Hash;
  lBlockNumber : Z; lAddress : Address; lTopics : list Hash; lData : bytes; lEvent : option ParsedEvent;
}.
Record Transaction := mkTransaction {
  tHash : Hash;                 (* the cached hash, zero while it is not known *)
  tFrom : Address; tTo : option Address; tInput : bytes; tGasPrice : Z; tGas : Z; tValue : option Z;
  tNonce : Z; tV : bytes; tR : bytes; tS : bytes; tBlockHash : Hash; tBlockNumber : Z; tTxnIndex : Z;
}.
Record Block := mkBlock {
  bNumber : Z; bHash : Hash; bParentHash : Hash; bSha3Uncles : Hash; bTransactionsRoot : Hash;
  bStateRoot : Hash; bReceiptsRoot : Hash; bMiner : Address; bDifficulty : option Z; bExtraData : bytes;
  bGasLimit : Z; bGasUsed : Z; bTimestamp : Z; bTransactions : list Transaction;
  bTransactionsHashes : list Hash; bUncles : list Hash;
}.
Record Receipt := mkReceipt {
  rStatus : Z; rTransactionHash : Hash; rTransactionIndex : Z; rContractAddress : Address; rBlockHash : Hash;
  rFrom : Address; rBlockNumber : Z; rGasUsed : Z; rCumulativeGasUsed : Z; rLogsBloom : bytes; rLogs : list Log;
}.
Record CallMsg := mkCallMsg {
  cFrom : Address; cTo : option Address; cData : bytes; cGasPrice : Z; cValue : option Z;
}.
Definition ToCallMsg (t : Transaction) : CallMsg := mkCallMsg (tFrom t) (tTo t) (tInput t) (tGasPrice t) (tValue t).
Definition zeroLog : Log := mkLog false 0 0 zero_hash zero_hash 0 zero_address [] [] None.
Definition zeroTransaction : Transaction :=
  mkTransaction zero_hash zero_address None [] 0 0 None 0 [] [] [] zero_hash 0 0.
Definition zeroBlock : Block :=
  mkBlock 0 zero_hash zero_hash zero_hash zero_hash zero_hash zero_hash zero_address None [] 0 0 0 [] [] [].
Definition zeroReceipt : Receipt := mkReceipt 0 zero_hash 0 zero_address zero_hash zero_address 0 0 0 [] [].
Definition set_event (e : option ParsedEvent) (l : Log) : Log :=
  mkLog (lRemoved l) (lLogIndex l) (lTransactionIndex l) (lTransactionHash l) (lBlockHash l) (lBlockNumber l)
    (lAddress l) (lTopics l) (lData l) e.
Definition set_hash (h : Hash) (t : Transaction) : Transaction :=
  mkTransaction h (tFrom t) (tTo t) (tInput t) (tGasPrice t) (tGas t) (tValue t) (tNonce t) (tV t) (tR t) (tS t)
    (tBlockHash t) (tBlockNumber t) (tTxnIndex t).
Definition set_rlogs (ls : list Log) (r : Receipt) : Receipt :=
  mkReceipt (rStatus r) (rTransactionHash r) (rTransactionIndex r) (rContractAddress r) (rBlockHash r) (rFrom r)
    (rBlockNumber r) (rGasUsed r) (rCumulativeGasUsed r) (rLogsBloom r) ls.

(** Block numbers: negative ones are names. *)
Definition Latest : Z := -1.
Definition Earliest : Z := -2.
Definition Pending : Z := -3.
Definition BlockNumberString (b : Z) : outcome bytes :=
  if b =? Latest then Ret (str "latest")
  else if b =? Earliest then Ret (str "earliest")
  else if b =? Pending then Ret (str "pending")
  else if b <? 0 then Panic
  else Ret (x0 ++ hexNum b).
Definition EncodeBlock (block : list Z) : Z := match block with [b] => b | _ => Latest end.
(** A nil element of [Topics] is [None]. *)
Record LogFilter := mkLogFilter {
  fBlockHash : option Hash; fFrom : option Z; fTo : option Z; fAddress : list Address;
  fTopics : list (option (list Hash));
}.
(** [BlockNumber(num)] converts a [uint64] to an [int]. *)
Definition SetFromUint64 (num : Z) (f : LogFilter) : LogFilter :=
  mkLogFilter (fBlockHash f) (Some (to_int64 num)) (fTo f) (fAddress f) (fTopics f).
Definition SetToUint64 (num : Z) (f : LogFilter) : LogFilter :=
  mkLogFilter (fBlockHash f) (fFrom f) (Some (to_int64 num)) (fAddress f) (fTopics f).
Definition SetTo (b : Z) (f : LogFilter) : LogFilter :=
  mkLogFilter (fBlockHash f) (fFrom f) (Some b) (fAddress f) (fTopics f).

(** Text of addresses and hashes *)
Definition AddressUnmarshalText (b : bytes) : Address + text_error := unmarshalTextByte b 20.
Definition HashUnmarshalText (b : bytes) : Hash + text_error := unmarshalTextByte b 32.
(** [utils.Ensure] panics on an error. *)
Definition HexToAddress (s : bytes) : outcome Address := match AddressUnmarshalText s with inl a => Ret a | inr _ => Panic end.
Definition HexToHash (s : bytes) : outcome Hash := match HashUnmarshalText s with inl h => Ret h | inr _ => Panic end.
Definition AddressString (a : Address) : bytes := toText a.
Definition HashString (h : Hash) : bytes := toText h.
Definition Hex2Bytes (s : bytes) : bytes := (DecodeString s).1.
Definition IsZero (a : Address) : bool := bool_decide (a = zero_address).
Definition HashIsEmpty (h : Hash) : bool := bool_decide (h = zero_hash).

(** ** RLP and the hash of a transaction *)
Inductive rlp := RUint (z : Z) | RBytes (b : bytes) | RNull | RBigInt (z : option Z) | RArray (l : list rlp).
Definition MarshalRLPWith (t : Transaction) : rlp :=
  RArray [RUint (tNonce t); RUint (tGasPrice t); RUint (tGas t);
          match tTo t with Some a => RBytes a | None => RNull end;
          RBigInt (tValue t); RBytes (tInput t); RBytes (tV t); RBytes (tR t); RBytes (tS t)].
Section Hash.
Context (keccak : bytes -> Hash) (MarshalTo : rlp -> bytes).
Definition MarshalRLP (t : Transaction) : bytes := MarshalTo (MarshalRLPWith t).
(** The hash and the transaction with the hash cached *)
Definition TransactionHash (t : Transaction) : Hash * Transaction :=
  let t := if HashIsEmpty (tHash t) then set_hash (keccak (MarshalRLP t)) t else t in (tHash t, t).
End Hash.

(** ** Receipts *)
Definition ReceiptStatusSuccessful : Z := 1.
Definition IsReverted (r : Receipt) : bool := negb (rStatus r =? ReceiptStatusSuccessful).
Record ThinLog := mkThinLog { thAddress : Address; thTopics : list Hash; thData : bytes; thEvent : option ParsedEvent }.
Record ThinReceipt := mkThinReceipt {
  trStatus : Z; trTransactionHash : Hash; trContractAddress : Address; trFrom : Address; trGasUsed : Z; trLogs : list ThinLog;
}.
Definition thin_log (l : Log) : ThinLog :=
  mkThinLog (lAddress l) (match lEvent l with Some _ => [] | None => lTopics l end) (match lEvent l with Some _ => [] | None => lData l end) (lEvent l).
Definition Thin (r : Receipt) : ThinReceipt :=
  mkThinReceipt (rStatus r) (rTransactionHash r) (rContractAddress r) (rFrom r) (rGasUsed r) (thin_log <$> rLogs r).

Section Logs.
Context (parseLog : Log -> option ParsedEvent).
Definition ParseEvent (l : Log) : Log := match parseLog l with Some e => set_event (Some e) l | None => l end.
(** The logs of an execution: address, topics and data *)
Fixpoint storage_logs (r : Receipt) (ind : Z) (logs : list (Address * list Hash * bytes)) : list Log :=
  match logs with
  | [] => []
  | (address, topics, data) :: logs =>
      ParseEvent (mkLog false (u64 ind) (rTransactionIndex r) (rTransactionHash r) (rBlockHash r) (rBlockNumber r)
                    address topics data None)
      :: storage_logs r (ind + 1) logs
  end.
Definition AddStorageLogs (logs : list (Address * list Hash * bytes)) (r : Receipt) : Receipt :=
  set_rlogs (rLogs r ++ storage_logs r 0 logs) r.
End Logs.

(** ** Writing JSON *)
Definition jnum (z : Z) : json := JString (x0 ++ hexNum z).
Definition jbytes (b : bytes) : json := JString (toText b).
Definition jbytes_list (l : list bytes) : json := JArray (jbytes <$> l).
(** [%x] of a [*big.Int] *)
Definition jbig (z : option Z) : json := JString (x0 ++ match z with Some z => hexNum z | None => str "<nil>" end).
Definition field (name : String.string) (v : json) : list (bytes * json) := [(str name, v)].
Arguments field name%_string v.
Definition field_if (c : bool) (name : String.string) (v : json) : list (bytes * json) := if c then field name v else [].
Arguments field_if c name%_string v.
Definition field_opt {A} (o : option A) (name : String.string) (f : A -> json) : list (bytes * json) :=
  match o with Some a => field name (f a) | None => [] end.
Arguments field_opt {A} o name%_string f.

Section Marshal.
Context `{FastJson} (eventJson : ParsedEvent -> option json) (keccak : bytes -> Hash) (MarshalTo : rlp -> bytes).
Definition log_json (l : Log) : json :=
  JObject (field "removed" (JBool (lRemoved l))
    ++ field "logIndex" (jnum (lLogIndex l))
    ++ field "transactionIndex" (jnum (lTransactionIndex l))
    ++ field "transactionHash" (jbytes (lTransactionHash l))
    ++ field "blockHash" (jbytes (lBlockHash l))
    ++ field "blockNumber" (jnum (lBlockNumber l))
    ++ field "address" (jbytes (lAddress l))
    ++ field_opt (lEvent l ≫= eventJson) "event" id
    ++ field "data" (jbytes (lData l))
    ++ field "topics" (jbytes_list (lTopics l))).
Definition LogMarshalJSON (l : Log) : bytes := printJSON (log_json l).
Definition block_json (t : Block) : json :=
  JObject (field "number" (jnum (bNumber t))
    ++ field "hash" (jbytes (bHash t))
    ++ field "parentHash" (jbytes (bParentHash t))
    ++ field "sha3Uncles" (jbytes (bSha3Uncles t))
    ++ field "transactionsRoot" (jbytes (bTransactionsRoot t))
    ++ field "stateRoot" (jbytes (bStateRoot t))
    ++ field "receiptsRoot" (jbytes (bReceiptsRoot t))
    ++ field "miner" (jbytes (bMiner t))
    ++ field "gasLimit" (jnum (bGasLimit t))
    ++ field "gasUsed" (jnum (bGasUsed t))
    ++ field "timestamp" (jnum (bTimestamp t))
    ++ field "difficulty" (jbig (bDifficulty t))
    ++ field "extraData" (jbytes (bExtraData t))
    ++ field_if (negb (bool_decide (bUncles t = []))) "uncles" (jbytes_list (bUncles t))).
Definition BlockMarshalJSON (t : Block) : bytes := printJSON (block_json t).
Definition transaction_json (h : Hash) (t : Transaction) : json :=
  JObject (field "hash" (jbytes h)
    ++ field "from" (jbytes (tFrom t))
    ++ field_if (negb (bool_decide (tInput t = []))) "input" (jbytes (tInput t))
    ++ field_opt (tValue t) "value" jnum
    ++ field "gasPrice" (jnum (tGasPrice t))
    ++ field "gas" (jnum (tGas t))
    ++ field_if (negb (tNonce t =? 0)) "nonce" (jnum (tNonce t))
    ++ field "to" (match tTo t with Some a => jbytes a | None => JNull end)
    ++ field "v" (jbytes (tV t)) ++ field "r" (jbytes (tR t)) ++ field "s" (jbytes (tS t))
    ++ field "blockHash" (jbytes (tBlockHash t))
    ++ field "blockNumber" (jnum (tBlockNumber t))
    ++ field "transactionIndex" (jnum (tTxnIndex t))).
(** Marshalling computes the hash, which the transaction keeps. *)
Definition TransactionMarshalJSON (t : Transaction) : bytes * Transaction :=
  let '(h, t) := TransactionHash keccak MarshalTo t in (printJSON (transaction_json h t), t).
Definition callmsg_json (c : CallMsg) : json :=
  JObject (field "from" (jbytes (cFrom c))
    ++ field_opt (cTo c) "to" jbytes
    ++ field_if (negb (bool_decide (cData c = []))) "data" (jbytes (cData c))
    ++ field_if (negb (cGasPrice c =? 0)) "gasPrice" (jnum (cGasPrice c))
    ++ field_opt (cValue c) "value" jnum).
Definition CallMsgMarshalJSON (c : CallMsg) : bytes := printJSON (callmsg_json c).
(** The array for more than one address is built and dropped. *)
Definition filter_json (l : LogFilter) : outcome json :=
  let address := match fAddress l with [a] => field "address" (jbytes a) | _ => [] end in
  let topics := field "topics" (JArray ((fun t => match t with None => JNull | Some hs => jbytes_list hs end) <$> fTopics l)) in
  let hash := field_opt (fBlockHash l) "blockhash" jbytes in
  let bound name b :=
    match b with None => Ret [] | Some b => s ← BlockNumberString b; Ret (field name (JString s)) end in
  from ← bound "fromBlock"%string (fFrom l);
  to ← bound "toBlock"%string (fTo l);
  Ret (JObject (address ++ topics ++ hash ++ from ++ to)).
Definition LogFilterMarshalJSON (l : LogFilter) : outcome bytes := v ← filter_json l; Ret (printJSON v).
End Marshal.

(** ** Reading JSON *)
Inductive json_error :=
| badJSON | notFound (key : bytes) | noHexPrefix | badBigInt | badHexString | invalidLength | badUint | badBool | badText (e : text_error)
| notAString.
Definition jresult (A : Type) : Type := outcome (A + json_error).
#[export] Instance jresult_ret : MRet jresult := fun A a => Ret (inl a).
#[export] Instance jresult_bind : MBind jresult := fun A B f m =>
  match m with Ret (inl a) => f a | Ret (inr e) => Ret (inr e) | PanicAt p => PanicAt p | NoFuel => NoFuel end.
Definition jerr {A} (e : json_error) : jresult A := Ret (inr e).
(** [if err != nil { panic(err) }] *)
Definition ensure {A} (m : jresult A) : jresult A := match m with Ret (inr _) => Panic | m => m end.

Section Unmarshal.
Context `{FastJson} (parseLog : Log -> option ParsedEvent).
Definition fieldNotFull (v : json) (key : bytes) : bool :=
  match getField key v with None => false | Some vv => negb (bool_decide (printJSON vv = str "null")) end.
(** The text of a field after its [0x] *)
Definition hexField (v : json) (key : bytes) : jresult bytes :=
  match getField key v with
  | None => jerr (notFound key)
  | Some vv => match strip_prefix x0 (trim quote (printJSON vv)) with None => jerr noHexPrefix | Some s => mret s end
  end.
Definition decodeBigInt (v : json) (key : bytes) : jresult Z :=
  s ← hexField v key; match SetString s with Some z => mret z | None => jerr badBigInt end.
Definition decodeBytes (v : json) (key : bytes) (bits : option Z) : jresult bytes :=
  s ← hexField v key;
  let s := if negb (len s mod 2 =? 0) then 48 :: s else s in
  let '(buf, ok) := DecodeString s in
  if negb ok then jerr badHexString
  else match bits with
       | Some n => if negb (n =? len buf) then jerr invalidLength else mret buf
       | None => mret buf
       end.
Definition decodeUint (v : json) (key : bytes) : jresult Z :=
  s ← hexField v key; match ParseUint s with Some z => mret z | None => jerr badUint end.
Definition isNull (v : json) (key : bytes) : bool := match getField key v with Some JNull => true | _ => false end.
Definition decodeUintOrNull (v : json) (key : bytes) : jresult Z := if isNull v key then mret 0 else decodeUint v key.
(** The error of [UnmarshalText] is dropped, and the old value stays. *)
Definition decodeText (size : Z) (old : bytes) (v : json) (key : bytes) : jresult bytes :=
  match GetStringBytes key v with
  | [] => jerr (notFound key)
  | b => mret (match unmarshalTextByte b size with inl x => x | inr _ => old end)
  end.
Definition decodeHash (old : Hash) (v : json) (key : bytes) : jresult Hash := decodeText 32 old v key.
Definition decodeAddr (old : Address) (v : json) (key : bytes) : jresult Address := decodeText 20 old v key.
Definition decodeHashOrNull (old : Hash) (v : json) (key : bytes) : jresult Hash :=
  if isNull v key then mret zero_hash else decodeHash old v key.
Definition decodeBool (v : json) (key : bytes) : jresult bool :=
  match getField key v with
  | None => jerr (notFound key)
  | Some vv =>
      if bool_decide (printJSON vv = str "false") then mret false
      else if bool_decide (printJSON vv = str "true") then mret true else jerr badBool
  end.
(** [h.UnmarshalText(elem.GetStringBytes())] of each element *)
Fixpoint read_hashes (l : list json) : jresult (list Hash) :=
  match l with
  | [] => mret []
  | e :: l =>
      match HashUnmarshalText (default [] (StringBytes e)) with
      | inr x => jerr (badText x)
      | inl h => hs ← read_hashes l; mret (h :: hs)
      end
  end.
Definition transaction_unmarshalJSON (t : Transaction) (v : json) : jresult Transaction :=
  hash ← decodeHash (tHash t) v (str "hash");
  from ← decodeAddr (tFrom t) v (str "from");
  gasPrice ← decodeUint v (str "gasPrice");
  gas ← decodeUint v (str "gas");
  input ← decodeBytes v (str "input") None;
  value ← decodeBigInt v (str "value");
  nonce ← decodeUint v (str "nonce");
  match getField (str "to") v with
  | None => jerr (notFound (str "to"))
  | Some vto =>
      to ← (if negb (bool_decide (printJSON vto = str "null")) then
              a ← decodeAddr zero_address v (str "to"); mret (Some a)
            else mret (tTo t) : jresult (option Address));
      V ← ensure (decodeBytes v (str "v") None);
      R ← ensure (decodeBytes v (str "r") None);
      S ← ensure (decodeBytes v (str "s") None);
      blockHash ← decodeHashOrNull (tBlockHash t) v (str "blockHash");
      blockNumber ← decodeUintOrNull v (str "blockNumber");
      txnIndex ← decodeUintOrNull v (str "transactionIndex");
      mret (mkTransaction hash from to input gasPrice gas (Some value) nonce V R S blockHash blockNumber txnIndex)
  end.
Definition TransactionUnmarshalJSON (t : Transaction) (buf : bytes) : jresult Transaction :=
  match parseJSON buf with None => jerr badJSON | Some v => transaction_unmarshalJSON t v end.
Fixpoint read_transactions (l : list json) : jresult (list Transaction) :=
  match l with
  | [] => mret []
  | e :: l =>
      t ← ensure (transaction_unmarshalJSON zeroTransaction e);
      ts ← read_transactions l; mret (t :: ts)
  end.
(** Hashes, or whole transactions, as the first element says *)
Definition block_transactions (v : json) : jresult (list Hash * list Transaction) :=
  match GetArray (str "transactions") v with
  | [] => mret ([], [])
  | (JString _ :: _) as elems => hs ← read_hashes elems; mret (hs, [])
  | elems => ts ← read_transactions elems; mret ([], ts)
  end.
Definition block_unmarshalJSON (b : Block) (v : json) : jresult Block :=
  hash ← decodeHash (bHash b) v (str "hash");
  parentHash ← decodeHash (bParentHash b) v (str "parentHash");
  sha3Uncles ← decodeHash (bSha3Uncles b) v (str "sha3Uncles");
  transactionsRoot ← decodeHash (bTransactionsRoot b) v (str "transactionsRoot");
  stateRoot ← decodeHash (bStateRoot b) v (str "stateRoot");
  receiptsRoot ← decodeHash (bReceiptsRoot b) v (str "receiptsRoot");
  miner ← decodeAddr (bMiner b) v (str "miner");
  number ← decodeUint v (str "number");
  gasLimit ← decodeUint v (str "gasLimit");
  gasUsed ← decodeUint v (str "gasUsed");
  timestamp ← decodeUint v (str "timestamp");
  difficulty ← decodeBigInt v (str "difficulty");
  extraData ← decodeBytes v (str "extraData") None;
  txs ← block_transactions v;
  uncles ← read_hashes (GetArray (str "uncles") v);
  mret (mkBlock number hash parentHash sha3Uncles transactionsRoot stateRoot receiptsRoot miner (Some difficulty)
          extraData gasLimit gasUsed timestamp txs.2 txs.1 uncles).
Definition BlockUnmarshalJSON (b : Block) (buf : bytes) : jresult Block :=
  match parseJSON buf with None => jerr badJSON | Some v => block_unmarshalJSON b v end.
Fixpoint read_topics (l : list json) : jresult (list Hash) :=
  match l with
  | [] => mret []
  | e :: l =>
      match StringBytes e with
      | None => jerr notAString
      | Some s =>
          match HashUnmarshalText s with
          | inr x => jerr (badText x)
          | inl h => hs ← read_topics l; mret (h :: hs)
          end
      end
  end.
Definition log_unmarshalJSON (r : Log) (v : json) : jresult Log :=
  removed ← decodeBool v (str "removed");
  logIndex ← decodeUint v (str "logIndex");
  blockNumber ← decodeUint v (str "blockNumber");
  transactionIndex ← decodeUint v (str "transactionIndex");
  transactionHash ← decodeHash (lTransactionHash r) v (str "transactionHash");
  blockHash ← decodeHash (lBlockHash r) v (str "blockHash");
  address ← decodeAddr (lAddress r) v (str "address");
  data ← decodeBytes v (str "data") None;
  topics ← read_topics (GetArray (str "topics") v);
  mret (ParseEvent parseLog (mkLog removed logIndex transactionIndex transactionHash blockHash blockNumber address topics data (lEvent r))).
(** A text that is no JSON is no error. *)
Definition LogUnmarshalJSON (r : Log) (buf : bytes) : jresult Log :=
  match parseJSON buf with None => mret r | Some v => log_unmarshalJSON r v end.
Fixpoint read_logs (l : list json) : jresult (list Log) :=
  match l with
  | [] => mret []
  | e :: l => x ← log_unmarshalJSON zeroLog e; xs ← read_logs l; mret (x :: xs)
  end.
Definition receipt_unmarshalJSON (r : Receipt) (v : json) : jresult Receipt :=
  from ← decodeAddr (rFrom r) v (str "from");
  contractAddress ← (if fieldNotFull v (str "contractAddress") then decodeAddr (rContractAddress r) v (str "contractAddress")
                     else mret (rContractAddress r) : jresult Address);
  transactionHash ← decodeHash (rTransactionHash r) v (str "transactionHash");
  blockHash ← decodeHash (rBlockHash r) v (str "blockHash");
  transactionIndex ← decodeUint v (str "transactionIndex");
  blockNumber ← decodeUint v (str "blockNumber");
  gasUsed ← decodeUint v (str "gasUsed");
  status ← decodeUint v (str "status");
  cumulativeGasUsed ← decodeUint v (str "cumulativeGasUsed");
  logsBloom ← decodeBytes v (str "logsBloom") (Some 256);
  logs ← read_logs (GetArray (str "logs") v);
  mret (mkReceipt status transactionHash transactionIndex contractAddress blockHash from blockNumber gasUsed
          cumulativeGasUsed logsBloom logs).
Definition ReceiptUnmarshalJSON (r : Receipt) (buf : bytes) : jresult Receipt :=
  match parseJSON buf with None => mret r | Some v => receipt_unmarshalJSON r v end.
End Unmarshal.
