(* ===== verification/StructsFacts.v ===== *)
(** * Round trips of blocks, logs and transactions

    What the decoders of Structs.v read from the text the encoders write, and the
    reference implementation of the JSON library that shows its laws can hold. *)

From stdpp Require Import strings.
From S2P Require Import Prelude Words Text AbiType AbiCodec Structs.

#[export] Instance plain_char_dec c : Decision (plain_char c).
Proof. unfold plain_char. apply _. Defined.
Ltac plain_key := apply (bool_decide_unpack _); vm_compute; exact I.

(** ** Well-formed structures *)
Record block_ok (b : Block) : Prop := {
  bo_number : is_u64 (bNumber b); bo_hash : is_hash (bHash b); bo_parent : is_hash (bParentHash b);
  bo_sha3 : is_hash (bSha3Uncles b); bo_txroot : is_hash (bTransactionsRoot b); bo_state : is_hash (bStateRoot b);
  bo_receipts : is_hash (bReceiptsRoot b); bo_miner : is_address (bMiner b); bo_difficulty : bDifficulty b <> None;
  bo_extra : bytes_ok (bExtraData b); bo_limit : is_u64 (bGasLimit b); bo_used : is_u64 (bGasUsed b);
  bo_time : is_u64 (bTimestamp b); bo_uncles : Forall is_hash (bUncles b);
}.
Record log_ok (l : Log) : Prop := {
  lo_index : is_u64 (lLogIndex l); lo_txindex : is_u64 (lTransactionIndex l); lo_txhash : is_hash (lTransactionHash l);
  lo_blockhash : is_hash (lBlockHash l); lo_number : is_u64 (lBlockNumber l); lo_address : is_address (lAddress l);
  lo_topics : Forall is_hash (lTopics l); lo_data : bytes_ok (lData l);
}.
Record transaction_ok (t : Transaction) : Prop := {
  to_hash : is_hash (tHash t); to_from : is_address (tFrom t); to_to : forall a, tTo t = Some a -> is_address a;
  to_input : bytes_ok (tInput t); to_price : is_u64 (tGasPrice t); to_gas : is_u64 (tGas t); to_nonce : is_u64 (tNonce t);
  to_v : bytes_ok (tV t); to_r : bytes_ok (tR t); to_s : bytes_ok (tS t); to_blockhash : is_hash (tBlockHash t);
  to_number : is_u64 (tBlockNumber t); to_index : is_u64 (tTxnIndex t);
}.

(** ** Fields *)
Section Fields.
Context `{FastJsonLaws}.
Lemma hexField_plain v key s : getField key v = Some (JString (x0 ++ s)) -> plain (x0 ++ s) -> hexField v key = mret s.
Proof.
  intros Hg Hp. unfold hexField. rewrite Hg, print_string, trim_quoted by done. by destruct s.
Qed.
Lemma decodeUint_num v key z : getField key v = Some (jnum z) -> is_u64 z -> decodeUint v key = mret z.
Proof.
  intros Hg Hz. unfold decodeUint. rewrite (hexField_plain v key (hexNum z) Hg (plain_hexNum z)).
  cbn [mbind jresult_bind mret jresult_ret]. by rewrite ParseUint_hexNum.
Qed.
Lemma decodeBigInt_num v key z : getField key v = Some (jnum z) -> decodeBigInt v key = mret z.
Proof.
  intros Hg. unfold decodeBigInt. rewrite (hexField_plain v key (hexNum z) Hg (plain_hexNum z)).
  cbn [mbind jresult_bind mret jresult_ret]. by rewrite SetString_hexNum.
Qed.
Lemma decodeBytes_bytes v key b : getField key v = Some (jbytes b) -> bytes_ok b -> decodeBytes v key None = mret b.
Proof.
  intros Hg Hb. unfold decodeBytes. rewrite (hexField_plain v key (EncodeToString b) Hg (plain_toText b Hb)).
  cbn [mbind jresult_bind mret jresult_ret].
  assert (len (EncodeToString b) mod 2 = 0) as ->.
  { clear. induction b as [|x b IH]; [done|]. change (EncodeToString (x :: b)) with ([hexDigit (x / 16); hexDigit (x mod 16)] ++ EncodeToString b).
    rewrite len_app. change (len [hexDigit (x / 16); hexDigit (x mod 16)]) with (1 * 2). by rewrite Z.add_comm, Z.mod_add. }
  cbn [negb Z.eqb]. by rewrite DecodeString_EncodeToString.
Qed.
Lemma decodeText_bytes v key old b size : getField key v = Some (jbytes b) -> bytes_ok b -> len b = size -> decodeText size old v key = mret b.
Proof.
  intros Hg Hb <-. unfold decodeText. assert (GetStringBytes key v = toText b) as -> by (unfold GetStringBytes; by rewrite Hg).
  pose proof (unmarshal_toText b Hb) as E. destruct (toText b) eqn:Ht; [done|]. by rewrite E.
Qed.
Lemma decodeHash_hash v key old h : getField key v = Some (jbytes h) -> is_hash h -> decodeHash old v key = mret h.
Proof. intros Hg [Hb Hl]. apply decodeText_bytes; [done|done|]. unfold len. by rewrite Hl. Qed.
Lemma decodeAddr_addr v key old a : getField key v = Some (jbytes a) -> is_address a -> decodeAddr old v key = mret a.
Proof. intros Hg [Hb Hl]. apply decodeText_bytes; [done|done|]. unfold len. by rewrite Hl. Qed.
Lemma HashUnmarshalText_toText h : is_hash h -> HashUnmarshalText (toText h) = inl h.
Proof. intros [Hb Hl]. unfold HashUnmarshalText. replace 32 with (len h) by (unfold len; by rewrite Hl). by apply unmarshal_toText. Qed.
Lemma read_hashes_list l : Forall is_hash l -> read_hashes (jbytes <$> l) = mret l.
Proof.
  induction 1 as [|h l Hh Hl IH]; [done|].
  change (read_hashes (jbytes <$> h :: l)) with (match HashUnmarshalText (toText h) with inr x => jerr (badText x) | inl h => hs ← read_hashes (jbytes <$> l); mret (h :: hs) end).
  rewrite HashUnmarshalText_toText, IH by done. done.
Qed.
Lemma read_topics_list l : Forall is_hash l -> read_topics (jbytes <$> l) = mret l.
Proof.
  induction 1 as [|h l Hh Hl IH]; [done|].
  change (read_topics (jbytes <$> h :: l)) with (match HashUnmarshalText (toText h) with inr x => jerr (badText x) | inl h => hs ← read_topics (jbytes <$> l); mret (h :: hs) end).
  rewrite HashUnmarshalText_toText, IH by done. done.
Qed.
Lemma decodeBool_bool v key b : getField key v = Some (JBool b) -> decodeBool v key = mret b.
Proof. intros Hg. unfold decodeBool. rewrite Hg, print_bool. by destruct b. Qed.
End Fields.

(** One field after the other *)
Ltac next := cbn [mbind jresult_bind mret jresult_ret].
Ltac read_field :=
  match goal with
  | |- mbind _ (decodeHash ?o ?v ?k) = _ => erewrite (decodeHash_hash v k o) by (reflexivity || eauto); next
  | |- mbind _ (decodeAddr ?o ?v ?k) = _ => erewrite (decodeAddr_addr v k o) by (reflexivity || eauto); next
  | |- mbind _ (decodeUint ?v ?k) = _ => erewrite (decodeUint_num v k) by (reflexivity || eauto); next
  | |- mbind _ (decodeBigInt ?v ?k) = _ => erewrite (decodeBigInt_num v k) by (reflexivity || eauto); next
  | |- mbind _ (decodeBytes ?v ?k None) = _ => erewrite (decodeBytes_bytes v k) by (reflexivity || eauto); next
  | |- mbind _ (decodeBool ?v ?k) = _ => erewrite (decodeBool_bool v k) by (reflexivity || eauto); next
  end.
#[export] Hint Resolve bo_number bo_hash bo_parent bo_sha3 bo_txroot bo_state bo_receipts bo_miner bo_extra bo_limit bo_used bo_time bo_uncles
  lo_index lo_txindex lo_txhash lo_blockhash lo_number lo_address lo_topics lo_data to_hash to_from to_input to_price to_gas to_nonce
  to_v to_r to_s to_blockhash to_number to_index : core.

Section RoundTrips.
Context `{FastJsonLaws} (parseLog : Log -> option ParsedEvent) (eventJson : ParsedEvent -> option json).

(** The fields a block's JSON carries: no transactions *)
Definition header_of (b : Block) : Block :=
  mkBlock (bNumber b) (bHash b) (bParentHash b) (bSha3Uncles b) (bTransactionsRoot b) (bStateRoot b) (bReceiptsRoot b) (bMiner b)
    (bDifficulty b) (bExtraData b) (bGasLimit b) (bGasUsed b) (bTimestamp b) [] [] (bUncles b).
Lemma block_fields b b0 : block_ok b -> block_unmarshalJSON b0 (block_json b) = mret (header_of b).
Proof.
  intros Hok. unfold block_unmarshalJSON.
  destruct (bDifficulty b) as [d|] eqn:Hd; [|by destruct (bo_difficulty b Hok)].
  do 11 read_field. rewrite (decodeBigInt_num _ _ d) by (unfold block_json; rewrite Hd; reflexivity). next. read_field.
  assert (block_transactions (block_json b) = mret ([], [])) as ->.
  { unfold block_transactions, GetArray. unfold block_json, field_if. by destruct (negb _). }
  next. assert (GetArray (str "uncles") (block_json b) = jbytes <$> bUncles b) as ->.
  { unfold block_json, field_if. case_bool_decide as Hu; [by rewrite Hu|done]. }
  rewrite read_hashes_list by eauto. next. unfold header_of. by rewrite Hd.
Qed.
Lemma log_fields l l0 : log_ok l -> lEvent l0 = None ->
  log_unmarshalJSON parseLog l0 (log_json eventJson l) = mret (ParseEvent parseLog (set_event None l)).
Proof.
  intros Hok Hz. unfold log_unmarshalJSON. do 7 read_field.
  rewrite (decodeBytes_bytes _ _ (lData l)) by (eauto || (unfold log_json, field_opt; by destruct (_ ≫= _))). next.
  assert (GetArray (str "topics") (log_json eventJson l) = jbytes <$> lTopics l) as -> by (unfold log_json, field_opt; by destruct (_ ≫= _)).
  rewrite read_topics_list by eauto. next. by rewrite Hz.
Qed.
(** A transaction whose optional fields are all written *)
Lemma transaction_fields t t0 : transaction_ok t -> tInput t <> [] -> tNonce t <> 0 -> tValue t <> None -> tTo t0 = None ->
  transaction_unmarshalJSON t0 (transaction_json (tHash t) t) = mret t.
Proof.
  intros Hok Hi Hn Hv Hz.
  assert (exists val, tValue t = Some val) as [val Ev] by (destruct (tValue t); eauto; done).
  assert (transaction_json (tHash t) t = JObject (field "hash" (jbytes (tHash t)) ++ field "from" (jbytes (tFrom t))
    ++ field "input" (jbytes (tInput t)) ++ field "value" (jnum val) ++ field "gasPrice" (jnum (tGasPrice t)) ++ field "gas" (jnum (tGas t))
    ++ field "nonce" (jnum (tNonce t)) ++ field "to" (match tTo t with Some a => jbytes a | None => JNull end)
    ++ field "v" (jbytes (tV t)) ++ field "r" (jbytes (tR t)) ++ field "s" (jbytes (tS t)) ++ field "blockHash" (jbytes (tBlockHash t))
    ++ field "blockNumber" (jnum (tBlockNumber t)) ++ field "transactionIndex" (jnum (tTxnIndex t)))) as ->.
  { unfold transaction_json, field_if, field_opt. rewrite Ev, bool_decide_false by done. by destruct (Z.eqb_spec (tNonce t) 0). }
  set (v := JObject _). unfold transaction_unmarshalJSON. do 7 read_field.
  assert (getField (str "to") v = Some (match tTo t with Some a => jbytes a | None => JNull end)) as Et by reflexivity. rewrite Et.
  assert ((if negb (bool_decide (printJSON (match tTo t with Some a => jbytes a | None => JNull end) = str "null"))
           then a ← decodeAddr zero_address v (str "to"); mret (Some a) else mret (tTo t0) : jresult (option Address)) = mret (tTo t)) as ->.
  { destruct (tTo t) as [a|] eqn:Ea.
    - rewrite bool_decide_false by (unfold jbytes; rewrite print_string by (by apply plain_toText, (to_to t Hok)); done). cbn [negb].
      rewrite (decodeAddr_addr v (str "to") _ a Et (to_to t Hok a Ea)). done.
    - rewrite print_null, bool_decide_true by done. cbn [negb]. by rewrite Hz. }
  next. do 3 (erewrite (decodeBytes_bytes v) by (reflexivity || eauto)). cbn [ensure mbind jresult_bind mret jresult_ret].
  unfold decodeHashOrNull, decodeUintOrNull. change (isNull v (str "blockHash")) with false.
  change (isNull v (str "blockNumber")) with false. change (isNull v (str "transactionIndex")) with false. cbv iota.
  do 3 read_field. rewrite <- Ev. by destruct t.
Qed.
(** The first field that [MarshalJSON] leaves out and [UnmarshalJSON] asks for *)
Definition first_missing (t : Transaction) : option bytes :=
  if bool_decide (tInput t = []) then Some (str "input")
  else if bool_decide (tValue t = None) then Some (str "value")
  else if tNonce t =? 0 then Some (str "nonce") else None.
Lemma transaction_result t t0 : transaction_ok t -> tTo t0 = None ->
  transaction_unmarshalJSON t0 (transaction_json (tHash t) t) = match first_missing t with Some key => jerr (notFound key) | None => mret t end.
Proof.
  intros Hok Hz. unfold first_missing. case_bool_decide as Hi.
  { unfold transaction_json, field_if, field_opt. rewrite Hi, bool_decide_true by done. unfold transaction_unmarshalJSON.
    destruct (tValue t), (tNonce t =? 0); set (v := JObject _); do 4 read_field; done. }
  case_bool_decide as Hv.
  { unfold transaction_json, field_if, field_opt. rewrite Hv, bool_decide_false by done. unfold transaction_unmarshalJSON.
    destruct (tNonce t =? 0); set (v := JObject _); do 5 read_field; done. }
  destruct (Z.eqb_spec (tNonce t) 0) as [Hn|Hn]; [|by apply transaction_fields].
  assert (exists val, tValue t = Some val) as [val Ev] by (destruct (tValue t); eauto; done).
  unfold transaction_json, field_if, field_opt. rewrite Ev, Hn, bool_decide_false by done. set (v := JObject _). unfold transaction_unmarshalJSON.
  do 6 read_field. done.
Qed.

(** ** The JSON written needs no escapes *)
Lemma plain_list l : Forall bytes_ok l -> plain_json (jbytes_list l).
Proof. induction 1; cbn; [done|]. split; [by apply plain_toText|done]. Qed.
Lemma plain_hash h : is_hash h -> plain (toText h).
Proof. intros [? _]. by apply plain_toText. Qed.
Lemma plain_addr a : is_address a -> plain (toText a).
Proof. intros [? _]. by apply plain_toText. Qed.
Lemma hashes_bytes l : Forall is_hash l -> Forall bytes_ok l.
Proof. apply Forall_impl. by intros ? []. Qed.
Lemma plain_fields_app l k : plain_json (JObject l) -> plain_json (JObject k) -> plain_json (JObject (l ++ k)).
Proof. cbn. induction l as [|x l IH]; cbn; [done|]. intros [Hx Hl] Hk. split; [done|by apply IH]. Qed.
Lemma plain_field name v : plain (str name) -> plain_json v -> plain_json (JObject (field name v)).
Proof. intros. cbn. done. Qed.
End RoundTrips.
Ltac plain_fields :=
  repeat (apply plain_fields_app; [apply plain_field; [plain_key|]|]); try (apply plain_field; [plain_key|]);
  cbn [plain_json jnum jbytes]; eauto using plain_hexNum, plain_hash, plain_addr, plain_toText, plain_list, hashes_bytes.
Section Plain.
Context `{FastJsonLaws} (eventJson : ParsedEvent -> option json).
Lemma plain_block b : block_ok b -> plain_json (block_json b).
Proof.
  intros Hok. unfold block_json. plain_fields.
  - destruct (bDifficulty b) eqn:E; [|by destruct (bo_difficulty b Hok)]. cbn. apply plain_hexNum.
  - unfold field_if. destruct (negb _); [|done]. plain_fields.
Qed.
Lemma plain_log l : log_ok l -> (forall j, lEvent l ≫= eventJson = Some j -> plain_json j) -> plain_json (log_json eventJson l).
Proof.
  intros Hok Hev. unfold log_json. do 7 (apply plain_fields_app; [apply plain_field; [plain_key|cbn [plain_json jnum jbytes]; eauto using plain_hexNum, plain_hash, plain_addr]|]).
  apply plain_fields_app; [|plain_fields]. unfold field_opt. destruct (lEvent l ≫= eventJson) as [j|]; [|done]. apply plain_field; [plain_key|by apply Hev].
Qed.
Lemma plain_transaction h t : transaction_ok t -> is_hash h -> plain_json (transaction_json h t).
Proof.
  intros Hok Hh. unfold transaction_json.
  do 2 (apply plain_fields_app; [plain_fields|]).
  apply plain_fields_app; [unfold field_if; destruct (negb _); [plain_fields|done]|].
  apply plain_fields_app; [unfold field_opt; destruct (tValue t); [plain_fields|done]|].
  do 2 (apply plain_fields_app; [plain_fields|]).
  apply plain_fields_app; [unfold field_if; destruct (negb _); [plain_fields|done]|].
  apply plain_fields_app; [|plain_fields]. apply plain_field; [plain_key|].
  destruct (tTo t) as [a|] eqn:E; [|done]. apply plain_addr. by apply (to_to t Hok).
Qed.
End Plain.

(** ** A JSON printer and parser

    A small implementation of the JSON library that Structs.v takes as a parameter.
    It shows that the laws of [FastJsonLaws] can hold, and the theorems about JSON
    are instantiated with it. *)
Lemma json_rect' (P : json -> Prop) :
  P JNull -> (forall b, P (JBool b)) -> (forall r, P (JNumber r)) -> (forall s, P (JString s)) ->
  (forall l, Forall P l -> P (JArray l)) -> (forall l, Forall (fun kv => P kv.2) l -> P (JObject l)) -> forall v, P v.
Proof.
  intros Hn Hb Hr Hs Ha Ho. fix IH 1. intros [|b|r|s|l|l]; [exact Hn|apply Hb|apply Hr|apply Hs| |].
  - apply Ha. induction l; constructor; [apply IH|assumption].
  - apply Ho. induction l as [|[k v] l IHl]; constructor; [apply IH|assumption].
Qed.

(** ** The printer *)
Fixpoint print_value (v : json) : bytes :=
  match v with
  | JNull => str "null"
  | JBool b => if b then str "true" else str "false"
  | JNumber raw => raw
  | JString s => quote :: s ++ [quote]
  | JArray l => 91 :: join [44] (print_value <$> l) ++ [93]
  | JObject l => 123 :: join [44] ((fun kv => (quote :: kv.1 ++ [quote]) ++ 58 :: print_value kv.2) <$> l) ++ [125]
  end.

(** ** The parser *)
Definition parse_string (s : bytes) : option (bytes * bytes) :=
  match s with
  | c :: s => if c =? quote then let '(t, r) := span (fun c => negb (c =? quote)) s in Some (t, drop 1 r) else None
  | [] => None
  end.
(** Items up to a closing bracket *)
Fixpoint parse_items {A} (p : bytes -> option (A * bytes)) (close : Z) (fuel : nat) (s : bytes) : option (list A * bytes) :=
  match fuel, s with
  | S fuel, c :: s' =>
      if c =? close then Some ([], s')
      else '(x, r) ← p (if c =? 44 then s' else s); '(xs, r) ← parse_items p close fuel r; Some (x :: xs, r)
  | _, _ => None
  end.
Definition parse_field (p : bytes -> option (json * bytes)) (s : bytes) : option ((bytes * json) * bytes) :=
  '(k, r) ← parse_string s; '(v, r) ← p (drop 1 r); Some ((k, v), r).
Fixpoint parse_value (fuel : nat) (s : bytes) : option (json * bytes) :=
  match fuel, s with
  | S fuel, c :: s' =>
      if c =? quote then '(t, r) ← parse_string s; Some (JString t, r)
      else if c =? 91 then '(l, r) ← parse_items (parse_value fuel) 93 (length s) s'; Some (JArray l, r)
      else if c =? 123 then '(l, r) ← parse_items (parse_field (parse_value fuel)) 125 (length s) s'; Some (JObject l, r)
      else if isDigit c then let '(d, r) := span isDigit s in Some (JNumber d, r)
      else match strip_prefix (str "null") s, strip_prefix (str "true") s, strip_prefix (str "false") s with
           | Some r, _, _ => Some (JNull, r)
           | _, Some r, _ => Some (JBool true, r)
           | _, _, Some r => Some (JBool false, r)
           | _, _, _ => None
           end
  | _, _ => None
  end.
#[export] Instance reference_json : FastJson := {|
  printJSON := print_value;
  parseJSON s := match parse_value (length s) s with Some (v, []) => Some v | _ => None end;
|}.

(** ** The laws *)
(** What follows a value: no digit *)
Definition stops (r : bytes) : Prop := match r with [] => True | c :: _ => isDigit c = false end.
Lemma span_stop p a r : Forall (fun c => p c = true) a -> match r with [] => True | c :: _ => p c = false end -> span p (a ++ r) = (a, r).
Proof.
  intros Ha Hr. induction Ha as [|c a Hc Ha IH]; cbn.
  - destruct r as [|c r]; [done|]. cbn. by rewrite Hr.
  - by rewrite Hc, IH.
Qed.
Lemma parse_string_ok s r : plain s -> parse_string ((quote :: s ++ [quote]) ++ r) = Some (s, r).
Proof.
  intros Hs. unfold parse_string. cbn [app]. rewrite Z.eqb_refl, <- app_assoc. rewrite span_stop; [done| |done].
  eapply Forall_impl; [|exact Hs]. intros c Hc. unfold plain_char in Hc. apply negb_true_iff, Z.eqb_neq. unfold quote. lia.
Qed.
(** A printed value starts with no comma and no closing bracket. *)
Definition starts (s : bytes) : Prop := exists c s', s = c :: s' /\ c <> 44 /\ c <> 93 /\ c <> 125.
Lemma print_starts v : plain_json v -> starts (print_value v).
Proof.
  destruct v as [|[]|raw|s|l|l]; cbn [print_value plain_json]; intros H.
  1-3: eexists _, _; split; [vm_compute; reflexivity|lia].
  2-4: eexists _, _; split; [reflexivity|unfold quote; lia].
  destruct H as (z & Hz & ->). destruct (dec_ok z Hz) as (_ & Hne & Hd). destruct (dec z) as [|c s]; [done|].
  exists c, s. split; [done|]. inversion Hd as [|? ? Hc]. unfold isDigit in Hc. zbool; cbn in *; try done; lia.
Qed.
(** The separators of [join] in front of the items *)
Fixpoint commas (l : list bytes) : bytes := match l with [] => [] | s :: l => 44 :: s ++ commas l end.
Lemma join_commas s l : join [44] (s :: l) = s ++ commas l.
Proof. unfold join. f_equal. induction l as [|x l IH]; [done|]. cbn in *. by rewrite <- IH. Qed.
Lemma items_tail {A} (p : bytes -> option (A * bytes)) (pr : A -> bytes) close l rest fuel :
  isDigit close = false -> close <> 44 ->
  Forall (fun x => forall r, stops r -> p (pr x ++ r) = Some (x, r)) l -> (length l < fuel)%nat ->
  parse_items p close fuel (commas (pr <$> l) ++ close :: rest) = Some (l, rest).
Proof.
  intros Hd Hc Hl. revert fuel. induction Hl as [|x l Hx Hl IH]; intros fuel Hf; destruct fuel as [|fuel]; cbn [length] in Hf; try lia.
  - cbn. by rewrite Z.eqb_refl.
  - rewrite fmap_cons. cbn [commas app parse_items]. destruct (Z.eqb_spec 44 close); [done|]. rewrite Z.eqb_refl, <- app_assoc, Hx.
    + cbn [mbind option_bind]. rewrite IH by lia. done.
    + by destruct l.
Qed.
Lemma items_ok {A} (p : bytes -> option (A * bytes)) (pr : A -> bytes) close l rest fuel :
  isDigit close = false -> close <> 44 ->
  Forall (fun x => (exists c s, pr x = c :: s /\ c <> 44 /\ c <> close) /\ forall r, stops r -> p (pr x ++ r) = Some (x, r)) l -> (length l < fuel)%nat ->
  parse_items p close fuel (join [44] (pr <$> l) ++ close :: rest) = Some (l, rest).
Proof.
  intros Hd Hc Hl Hf. destruct fuel as [|fuel]; [lia|]. destruct l as [|x l]; [cbn; by rewrite Z.eqb_refl|]. cbn [length] in Hf.
  inversion Hl as [|? ? [(c & s & Ec & H44 & Hcl) Hx] Hl']; subst.
  assert (Forall (fun x => forall r, stops r -> p (pr x ++ r) = Some (x, r)) l) as Hl2 by (eapply Forall_impl; [|exact Hl']; by intros ? [_ ?]).
  pose proof (items_tail p pr close l rest fuel Hd Hc Hl2 ltac:(lia)) as Ht.
  rewrite fmap_cons, join_commas, <- app_assoc.
  assert (stops (commas (pr <$> l) ++ close :: rest)) as Hs by by destruct l.
  specialize (Hx _ Hs). rewrite Ec in *. cbn [app parse_items] in *. destruct (Z.eqb_spec c close); [done|]. destruct (Z.eqb_spec c 44); [done|].
  rewrite Hx. cbn [mbind option_bind]. rewrite Ht. done.
Qed.
Lemma length_join (l : list bytes) x : x ∈ l -> (length x <= length (join [44%Z] l))%nat.
Proof.
  destruct l as [|y l]; [by intros ?%elem_of_nil|]. rewrite join_commas, length_app. intros [-> |Hx]%elem_of_cons; [lia|].
  induction l as [|z l IH]; [by apply elem_of_nil in Hx|]. cbn [commas length]. rewrite length_app.
  apply elem_of_cons in Hx as [-> |Hx]; [lia|]. specialize (IH Hx). lia.
Qed.
Lemma length_items {A} (pr : A -> bytes) l : Forall (fun x => starts (pr x)) l -> (length l <= length (join [44%Z] (pr <$> l)))%nat.
Proof.
  assert (forall l, (length l <= length (commas (pr <$> l)))%nat) as Hm.
  { clear. induction l as [|x l IH]; [done|]. rewrite fmap_cons. cbn [commas length]. rewrite length_app. lia. }
  intros H. destruct H as [|x l (c & s & E & _) Hl]; [done|]. rewrite fmap_cons, join_commas, length_app, E. cbn [length]. specialize (Hm l). lia.
Qed.
Lemma plain_json_array l : plain_json (JArray l) -> Forall plain_json l.
Proof. cbn. induction l; cbn; intros; constructor; tauto. Qed.
Lemma plain_json_object l : plain_json (JObject l) -> Forall (fun kv => plain kv.1 /\ plain_json kv.2) l.
Proof. cbn. induction l; cbn; intros; constructor; tauto. Qed.
Lemma parse_print_value v : plain_json v -> forall fuel r, (length (print_value v) <= fuel)%nat -> stops r ->
  parse_value fuel (print_value v ++ r) = Some (v, r).
Proof.
  induction v as [|b|raw|s|l IH|l IH] using json_rect'; intros Hp fuel r Hf Hr.
  - destruct fuel; [cbn in Hf; lia|]. done.
  - destruct fuel; [destruct b; cbn in Hf; lia|]. by destruct b.
  - destruct Hp as (z & Hz & ->). destruct (dec_ok z Hz) as (_ & Hne & Hd). cbn [print_value] in *.
    destruct (dec z) as [|c s] eqn:E; [done|]. destruct fuel; [cbn in Hf; lia|]. cbn [app parse_value].
    inversion Hd as [|? ? Hc]; subst. pose proof Hc as Hc'. unfold isDigit in Hc'. unfold quote.
    rewrite Hc. destruct (Z.eqb_spec c 34); [subst; done|]. destruct (Z.eqb_spec c 91); [subst; done|]. destruct (Z.eqb_spec c 123); [subst; done|].
    change (c :: s ++ r) with ((c :: s) ++ r). rewrite span_stop; [done|done|]. by destruct r.
  - destruct fuel; [cbn in Hf; lia|]. cbn [print_value]. cbn [app parse_value]. rewrite Z.eqb_refl.
    change (quote :: (s ++ [quote]) ++ r) with ((quote :: s ++ [quote]) ++ r). rewrite parse_string_ok by done. done.
  - apply plain_json_array in Hp. destruct fuel; [cbn in Hf; lia|]. cbn [print_value] in *. cbn [app parse_value]. cbn [length] in Hf.
    cbn [Z.eqb Pos.eqb quote]. rewrite length_app in Hf. cbn [length] in Hf. rewrite <- app_assoc. cbn [app].
    assert (Forall (fun x => starts (print_value x)) l) as Hst by (eapply Forall_impl; [|exact Hp]; apply print_starts).
    rewrite items_ok; [done|done|done| |].
    + apply list.Forall_forall. intros x Hx. rewrite list.Forall_forall in Hp, IH, Hst. split.
      * destruct (Hst x Hx) as (c & s & E & ? & ? & ?). eauto.
      * intros r' Hr'. apply IH; auto. pose proof (length_join (print_value <$> l) (print_value x) ltac:(by apply list_elem_of_fmap_2)). lia.
    + pose proof (length_items print_value l Hst). cbn [length]. rewrite length_app. lia.
  - apply plain_json_object in Hp. destruct fuel; [cbn in Hf; lia|]. cbn [print_value] in *.
    set (pr := fun kv : bytes * json => (quote :: kv.1 ++ [quote]) ++ 58 :: print_value kv.2) in *.
    cbn [app parse_value]. cbn [length] in Hf.
    cbn [Z.eqb Pos.eqb quote]. rewrite length_app in Hf. cbn [length] in Hf. rewrite <- app_assoc. cbn [app].
    rewrite items_ok; [done|done|done| |].
    + apply list.Forall_forall. intros [k x] Hx. rewrite list.Forall_forall in Hp, IH. destruct (Hp _ Hx) as [Hk Hv]. split.
      * eexists _, _. split; [reflexivity|unfold quote; lia].
      * intros r' Hr'. pose proof (length_join (pr <$> l) (pr (k, x)) ltac:(by apply list_elem_of_fmap_2)) as Hlen.
        unfold pr in Hlen at 1. rewrite length_app in Hlen. cbn [length] in Hlen.
        unfold parse_field, pr. cbn [fst snd]. change (quote :: (k ++ [quote]) ++ 58 :: print_value x) with ((quote :: k ++ [quote]) ++ 58 :: print_value x). rewrite <- (app_assoc (quote :: k ++ [quote])), parse_string_ok by done. cbn [mbind option_bind app]. change (drop 1 (58 :: print_value x ++ r')) with (print_value x ++ r').
        pose proof (IH (k, x) Hx Hv fuel r') as E. cbn [snd] in *. rewrite E; [done|lia|done].
    + assert (Forall (fun x => starts (pr x)) l) as Hst by (apply list.Forall_forall; intros x _; eexists _, _; split; [reflexivity|unfold quote; lia]).
      pose proof (length_items pr l Hst). cbn [length]. rewrite length_app. lia.
Qed.
Lemma plain_bytes s : plain s -> bytes_ok s.
Proof. apply Forall_impl. unfold plain_char, is_byte. lia. Qed.
Lemma join_bytes l : Forall bytes_ok l -> bytes_ok (join [44] l).
Proof.
  intros H. destruct H as [|x l Hx Hl]; [constructor|]. rewrite join_commas. apply Forall_app. split; [done|].
  induction Hl as [|y l Hy Hl IH]; cbn [commas]; [constructor|]. constructor; [unfold is_byte; lia|]. by apply Forall_app.
Qed.
Lemma print_bytes v : plain_json v -> bytes_ok (print_value v).
Proof.
  assert (forall c l, is_byte c -> bytes_ok l -> bytes_ok (c :: l)) as Hcons by (intros; by constructor).
  induction v as [|[]|raw|s|l IH|l IH] using json_rect'; intros Hp; cbn [print_value].
  1-3: apply (bool_decide_unpack _); vm_compute; exact I.
  - destruct Hp as (z & Hz & ->). destruct (dec_ok z Hz) as (_ & _ & Hd). eapply Forall_impl; [|exact Hd]. unfold isDigit, is_byte. intros. cbn in *. lia.
  - apply Hcons; [unfold is_byte, quote; lia|]. apply Forall_app. split; [by apply plain_bytes|]. apply Hcons; [unfold is_byte, quote; lia|constructor].
  - apply plain_json_array in Hp. apply Hcons; [unfold is_byte; lia|]. apply Forall_app. split; [|apply Hcons; [unfold is_byte; lia|constructor]].
    apply join_bytes, list.Forall_fmap. apply list.Forall_forall. intros x Hx. rewrite list.Forall_forall in IH, Hp. by apply IH; [|apply Hp].
  - apply plain_json_object in Hp. apply Hcons; [unfold is_byte; lia|]. apply Forall_app. split; [|apply Hcons; [unfold is_byte; lia|constructor]].
    apply join_bytes, list.Forall_fmap. apply list.Forall_forall. intros [k x] Hx. rewrite list.Forall_forall in IH, Hp. destruct (Hp _ Hx) as [Hk Hv].
    cbn [compose fst snd] in *. apply Forall_app. split; [|apply Hcons; [unfold is_byte; lia|]; by apply (IH (k, x))].
    apply Hcons; [unfold is_byte, quote; lia|]. apply Forall_app. split; [by apply plain_bytes|]. apply Hcons; [unfold is_byte, quote; lia|constructor].
Qed.
#[export] Instance reference_laws : FastJsonLaws.
Proof.
  split; [| |done|done|done].
  2: { intros v Hv. split; [|by apply print_bytes]. destruct (print_starts v Hv) as (c & s & E & _). change (print_value v <> []). by rewrite E. }
  intros v Hv. unfold parseJSON, printJSON, reference_json.
  rewrite <- (app_nil_r (print_value v)) at 2. by rewrite parse_print_value.
Qed.
