(* ===== verification/StructsTheorems.v ===== *)
(** * Properties of the JSON forms *)

From stdpp Require Import strings.
From S2P Require Import Prelude Words Text AbiType AbiCodec Structs StructsFacts.

(** C29. What the library reads of the JSON it writes, for every JSON printer and
    parser that are inverse on plain values: a block with a difficulty comes back
    with its header and uncles and without its transactions, which its JSON does
    not carry; a log comes back with its event parsed anew; a transaction comes back
    with its hash, unless it has no input, no value or the nonce zero: these are
    left out of the JSON, and reading it is the error that the field is missing. *)
Theorem json_roundtrip `{FastJsonLaws} (parseLog : Log -> option ParsedEvent) (eventJson : ParsedEvent -> option json)
  (keccak : bytes -> Hash) (MarshalTo : rlp -> bytes) :
  (forall b, is_hash (keccak b)) ->
  (forall b b0, block_ok b -> BlockUnmarshalJSON b0 (BlockMarshalJSON b) = mret (header_of b)) /\
  (forall l, log_ok l -> (forall j, lEvent l ≫= eventJson = Some j -> plain_json j) ->
    LogUnmarshalJSON parseLog zeroLog (LogMarshalJSON eventJson l) = mret (ParseEvent parseLog (set_event None l))) /\
  (forall t, transaction_ok t ->
    let '(buf, t') := TransactionMarshalJSON keccak MarshalTo t in
    TransactionUnmarshalJSON zeroTransaction buf = match first_missing t with Some key => jerr (notFound key) | None => mret t' end).
Proof.
  intros Hk. split_and!.
  - intros b b0 Hb. unfold BlockUnmarshalJSON, BlockMarshalJSON. rewrite parse_print by by apply plain_block. by apply block_fields.
  - intros l Hl Hev. unfold LogUnmarshalJSON, LogMarshalJSON. rewrite parse_print by by apply plain_log. by apply log_fields.
  - intros t Ht. unfold TransactionMarshalJSON, TransactionHash.
    set (t' := if HashIsEmpty (tHash t) then _ else _).
    assert (transaction_ok t' /\ first_missing t' = first_missing t) as (Ht' & Em).
    { unfold t'. destruct (HashIsEmpty _); [|done]. split; [|done]. destruct Ht. split; cbn; auto. }
    unfold TransactionUnmarshalJSON. rewrite parse_print by (apply plain_transaction; [done|by apply to_hash]).
    rewrite <- Em. by apply transaction_result.
Qed.
Definition sample_block : Block :=
  mkBlock 7 (replicate 32 1) (replicate 32 2) zero_hash zero_hash zero_hash zero_hash (replicate 20 3) (Some 131072) [104; 105] 30000000 21000 1600000000 [] []
    [replicate 32 4].
Definition sample_log : Log := mkLog false 1 0 (replicate 32 5) (replicate 32 1) 7 (replicate 20 6) [replicate 32 7] [255] None.
Definition sample_tx : Transaction :=
  mkTransaction zero_hash (replicate 20 8) None [96; 0] 1 21000 (Some 5) 1 [27] [1] [2] zero_hash 7 0.
Lemma is_hash_replicate b : is_byte b -> is_hash (replicate 32 b).
Proof. intros. split; [by apply list.Forall_replicate|apply length_replicate]. Qed.
Lemma is_address_replicate b : is_byte b -> is_address (replicate 20 b).
Proof. intros. split; [by apply list.Forall_replicate|apply length_replicate]. Qed.
Ltac samples := cbn; try (unfold is_u64, is_byte; lia); try (apply is_hash_replicate; unfold is_byte; lia);
  try (apply is_address_replicate; unfold is_byte; lia); try (repeat constructor; unfold is_byte; lia); try done.
Lemma json_roundtrip_witness :
  BlockUnmarshalJSON zeroBlock (BlockMarshalJSON sample_block) = mret sample_block /\
  LogUnmarshalJSON (fun _ => None) zeroLog (LogMarshalJSON (fun _ => None) sample_log) = mret sample_log /\
  TransactionUnmarshalJSON zeroTransaction (TransactionMarshalJSON (fun _ => replicate 32 9) (fun _ => []) sample_tx).1
    = mret (set_hash (replicate 32 9) sample_tx).
Proof.
  destruct (json_roundtrip (fun _ => None) (fun _ => None) (fun _ => replicate 32 9) (fun _ => [])) as (Hb & Hl & Ht).
  { intros _. apply is_hash_replicate. unfold is_byte. lia. }
  split_and!.
  - apply (Hb sample_block). split; samples.
  - apply (Hl sample_log); [|done]. split; samples.
  - apply (Ht sample_tx). split; samples.
Defined.

(** A transaction with nonce 0 cannot be read back: the field is left out. *)
Example zero_nonce_lost (keccak : bytes -> Hash) (MarshalTo : rlp -> bytes) :
  TransactionUnmarshalJSON zeroTransaction
    (printJSON (transaction_json (replicate 32 9) (mkTransaction (replicate 32 9) (replicate 20 8) None [96; 0] 1 21000 (Some 5) 0 [27] [1] [2] zero_hash 7 0)))
  = jerr (notFound (str "nonce")).
Proof. vm_compute. reflexivity. Qed.
(** A hash that is no hexadecimal text is read as the value the receiver held. *)
Example malformed_hash_ignored (old : Hash) : decodeHash old (JObject [(str "hash", JString (str "0xzz"))]) (str "hash") = mret old.
Proof. reflexivity. Qed.
(** A log read from a text that is no JSON is unchanged, without an error. *)
Example not_json_is_no_error (l : Log) : LogUnmarshalJSON (fun _ => None) l (str "<html>") = mret l.
Proof. reflexivity. Qed.
(** A transaction without a signature inside a block is a panic. *)
Example malformed_transaction_panics :
  block_transactions (JObject [(str "transactions", JArray [JObject []])]) = Panic.
Proof. reflexivity. Qed.
