(* ===== verification/TrackerStore.v ===== *)
(** * Stores of the event tracker

    src/tracker/store: the interface [Store] with its entries as a class, what the
    tracker relies on ([StoreLaws]), and the in-memory store of
    src/tracker/store/inmem, which satisfies it.

    An entry is named by the hash it was opened with.  The operations of a store
    hold its lock, so each is one step. *)

From stdpp Require Import strings.
From S2P Require Import Prelude Words Text AbiType AbiCodec Structs.

Inductive store_error := storeFailed.

Class Store (S : Type) := {
  stGet : bytes -> M S (bytes + store_error);
  ListPrefix : bytes -> M S (list bytes + store_error);
  stSet : bytes -> bytes -> M S (() + store_error);
  GetEntry : bytes -> M S (() + store_error);
  LastIndex : bytes -> M S (Z + store_error);
  StoreLogs : bytes -> list Log -> M S (() + store_error);
  RemoveLogs : bytes -> Z -> M S (() + store_error);
  GetLog : bytes -> Z -> M S (Log + store_error);
}.

(** A store is a map from keys to values and, per entry, a list of logs; an
    operation that fails changes nothing. *)
Class StoreView (S : Type) := { value_of : S -> bytes -> bytes; logs_of : S -> bytes -> list Log }.
(** [s'] differs from [s] in the logs of [e] and the value of [k] at most. *)
Definition same_values {S} `{StoreView S} (s s' : S) : Prop := forall k, value_of s' k = value_of s k.
Definition same_logs {S} `{StoreView S} (s s' : S) : Prop := forall e, logs_of s' e = logs_of s e.
Definition other_logs {S} `{StoreView S} (e : bytes) (s s' : S) : Prop := forall e', e' <> e -> logs_of s' e' = logs_of s e'.
Definition failed {S A} `{StoreView S} (s : S) (r : A + store_error) (s' : S) : Prop :=
  exists x, r = inr x /\ same_values s s' /\ same_logs s s'.
Class StoreLaws (S : Type) `{Store S, StoreView S} : Prop := {
  law_Get k s : exists r s', stGet k s = Ret (r, s') /\
    (failed s r s' \/ r = inl (value_of s k) /\ same_values s s' /\ same_logs s s');
  law_Set k v s : exists r s', stSet k v s = Ret (r, s') /\
    (failed s r s' \/ r = inl () /\ same_logs s s' /\ value_of s' k = v /\ forall k', k' <> k -> value_of s' k' = value_of s k');
  law_GetEntry e s : exists r s', GetEntry e s = Ret (r, s') /\
    (failed s r s' \/ r = inl () /\ same_values s s' /\ same_logs s s');
  law_LastIndex e s : exists r s', LastIndex e s = Ret (r, s') /\
    (failed s r s' \/ r = inl (Z.of_nat (length (logs_of s e))) /\ same_values s s' /\ same_logs s s');
  law_StoreLogs e l s : exists r s', StoreLogs e l s = Ret (r, s') /\
    (failed s r s' \/ r = inl () /\ same_values s s' /\ other_logs e s s' /\ logs_of s' e = logs_of s e ++ l);
  law_RemoveLogs e n s : (n <= length (logs_of s e))%nat -> exists r s', RemoveLogs e (Z.of_nat n) s = Ret (r, s') /\
    (failed s r s' \/ r = inl () /\ same_values s s' /\ other_logs e s s' /\ logs_of s' e = take n (logs_of s e));
  law_GetLog e n l s : logs_of s e !! n = Some l -> exists r s', GetLog e (Z.of_nat n) s = Ret (r, s') /\
    (failed s r s' \/ r = inl l /\ same_values s s' /\ same_logs s s');
}.

(** ** The in-memory store *)
Record InmemStore := mkInmem { entries : gmap (list Z) (list Log); kv : gmap (list Z) (list Z) }.
Definition NewInmemStore : InmemStore := mkInmem ∅ ∅.
Definition inmemGet (k : bytes) : M InmemStore (bytes + store_error) := gets (fun s => inl (default [] (kv s !! k))).
(** A Go map is read in no particular order; the model takes the one of the map. *)
Definition inmemListPrefix (prefix : bytes) : M InmemStore (list bytes + store_error) :=
  gets (fun s => inl (snd <$> filter (fun e => strip_prefix prefix e.1 <> None) (map_to_list (kv s)))).
Definition inmemSet (k v : bytes) : M InmemStore (() + store_error) :=
  _ ← modify (fun s => mkInmem (entries s) (<[k := v]> (kv s))); mret (inl ()).
Definition entry_logs (s : InmemStore) (e : bytes) : list Log := default [] (entries s !! e).
Definition set_entry (e : bytes) (l : list Log) (s : InmemStore) : InmemStore := mkInmem (<[e := l]> (entries s)) (kv s).
Definition inmemGetEntry (hash : bytes) : M InmemStore (() + store_error) :=
  _ ← modify (fun s => match entries s !! hash with Some _ => s | None => set_entry hash [] s end); mret (inl ()).
Definition inmemLastIndex (e : bytes) : M InmemStore (Z + store_error) := gets (fun s => inl (Z.of_nat (length (entry_logs s e)))).
Definition inmemStoreLogs (e : bytes) (logs : list Log) : M InmemStore (() + store_error) :=
  _ ← modify (fun s => set_entry e (entry_logs s e ++ logs) s); mret (inl ()).
(** An index behind the logs panics, or within the capacity of the slice brings
    removed logs back; the tracker never passes one. *)
Definition inmemRemoveLogs (e : bytes) (indx : Z) : M InmemStore (() + store_error) :=
  s ← get;
  if Z.of_nat (length (entry_logs s e)) <? indx then panic
  else _ ← put (set_entry e (take (Z.to_nat indx) (entry_logs s e)) s); mret (inl ()).
Definition inmemGetLog (e : bytes) (indx : Z) : M InmemStore (Log + store_error) :=
  s ← get; match entry_logs s e !! Z.to_nat indx with Some l => mret (inl l) | None => panic end.
#[export] Instance inmem_Store : Store InmemStore := {|
  stGet := inmemGet; ListPrefix := inmemListPrefix; stSet := inmemSet; GetEntry := inmemGetEntry; LastIndex := inmemLastIndex;
  StoreLogs := inmemStoreLogs; RemoveLogs := inmemRemoveLogs; GetLog := inmemGetLog |}.
#[export] Instance inmem_StoreView : StoreView InmemStore :=
  {| value_of s k := default [] (kv s !! k); logs_of := entry_logs |}.

Lemma entry_logs_set e l s e' : entry_logs (set_entry e l s) e' = if bool_decide (e' = e) then l else entry_logs s e'.
Proof. unfold entry_logs, set_entry. cbn. case_bool_decide as E; [subst; by rewrite lookup_insert_eq|by rewrite lookup_insert_ne]. Qed.
#[export] Instance inmem_StoreLaws : StoreLaws InmemStore.
Proof.
  split; intros.
  - eexists _, _. split; [reflexivity|]. right. done.
  - eexists _, _. split; [reflexivity|]. right. split_and!; [done|done|cbn; by rewrite lookup_insert_eq|].
    intros k' Hk. cbn. by rewrite lookup_insert_ne.
  - eexists _, _. split; [reflexivity|]. right. split_and!; [done| |].
    + intros k. cbn. by destruct (entries s !! e).
    + intros e'. cbn. destruct (entries s !! e) eqn:E; [done|]. rewrite (entry_logs_set e [] s e').
      case_bool_decide; [|done]. subst. unfold entry_logs. by rewrite E.
  - eexists _, _. split; [reflexivity|]. right. done.
  - eexists _, _. split; [reflexivity|]. right. split_and!; [done|done| |].
    + intros e' He. cbn. by rewrite entry_logs_set, bool_decide_false.
    + cbn. by rewrite entry_logs_set, bool_decide_true.
  - cbn in *. eexists _, _. split; [cbv [inmemRemoveLogs mbind M_bind outcome_bind get]; rewrite (proj2 (Z.ltb_ge _ _)) by lia; reflexivity|]. right. split_and!; [done|done| |].
    + intros e' He. cbn. by rewrite entry_logs_set, bool_decide_false.
    + cbn. by rewrite entry_logs_set, bool_decide_true, Nat2Z.id.
  - cbn in *. eexists _, _. split; [cbv [inmemGetLog mbind M_bind outcome_bind get]; rewrite Nat2Z.id, H; reflexivity|]. by right.
Qed.
