(* ===== verification/Tracker.v ===== *)
(** * The event tracker

    src/tracker/tracker.go and block_tracker.go: a tracker keeps the last blocks
    of the chain ([tBlocks], at most [MaxBlockBacklog]), follows the head of the
    chain through reorganisations, and keeps the logs that match its filters in a
    store.

    The node behind the [Provider] interface is a parameter.  Its answers may
    change with every call: each method gets the number of calls made so far.  A
    block that the node does not know is a nil pointer ([None]).

    The code runs in goroutines that share the tracker under [blocksLock].  The
    only place where a [Sync] gives the lock up (the bulk synchronisation, and the
    gap between the end of [syncImpl] and the store to [synced]) is an [interfere]
    step, in which any number of head blocks ([arrivals]) is handled.  A bulk
    synchronisation and the handling of a block work on different parts of the
    state, so running one after the other stands for their interleavings.

    An event is sent on the unbuffered channel of its filter.  Whether somebody
    receives from the channel is up to the client ([fReader], by the number of
    calls of the node made so far): a received event is appended to [tEvents]; with
    [Async] an event nobody waits for is dropped; without it the send blocks, and
    the run that makes it does not return ([NoFuel]).  The notifications on
    [SyncCh], [DoneCh] and [ReadyCh] carry no state. *)

From stdpp Require Import strings.
From S2P Require Import Prelude Words Text AbiType AbiCodec Structs TrackerStore.

Definition dbGenesis : bytes := str "genesis".
Definition dbChainID : bytes := str "chainID".
Definition dbLastBlock : bytes := str "lastBlock".
Definition dbFilter : bytes := str "filter".
Definition defaultMaxBlockBacklog : Z := 10.
Definition defaultBatchSize : Z := 100.

(** ** Configurations, filters, events *)
Record FilterConfig := mkFilterConfig {
  cfAddress : list Address; cfTopics : list (option Hash); cfStart : Z; cfHash : bytes; cfAsync : bool;
}.
Definition buildHash (sha256 : bytes -> bytes) (f : FilterConfig) : FilterConfig :=
  let text := mjoin (AddressString <$> cfAddress f)
              ++ mjoin ((fun t => match t with None => str "empty" | Some h => HashString h end) <$> cfTopics f) in
  mkFilterConfig (cfAddress f) (cfTopics f) (cfStart f) (EncodeToString (sha256 text)) (cfAsync f).
Definition parseTopic (topic : list (option Hash)) : list (option (list Hash)) :=
  (fun item => match item with Some h => Some [h] | None => None end) <$> topic.
Definition getFilterSearch (f : FilterConfig) : LogFilter := mkLogFilter None None None (cfAddress f) (parseTopic (cfTopics f)).
Record Config := mkConfig { BatchSize : Z; MaxBlockBacklog : Z; EtherscanFastTrack : bool }.
Definition DefaultConfig : Config := mkConfig defaultBatchSize defaultMaxBlockBacklog false.
Record Filter := mkFilter { fConfig : FilterConfig; fSynced : bool; fReader : nat -> bool }.
Record Event := mkTrackerEvent { evAdded : list Log; evRemoved : list Log }.
Record BlockEvent := mkBlockEvent { beAdded : list Block; beRemoved : list Block }.
Inductive EventType := EventAdd | EventDel.

(** ** Errors *)
Inductive provider_error := tooMuchData | providerFailed.
Inductive tracker_error :=
| EProvider (e : provider_error) | EStore (e : store_error) | EJson (e : json_error) | EHex
| ENumbers | EReorgTooBig | EBadGenesis | EFastTrack (e : tracker_error) | EStoreAhead | EFromHigher
| EBadSequence (last next : Z) | EReconcile | EParent (h : Hash) | ECancelled | ENotAString | ENumber.
Definition tooMuchDataRequestedError (e : provider_error) : bool := match e with tooMuchData => true | _ => false end.

(** ** The node *)
Record Provider := mkProvider {
  pBlockByHash : nat -> Hash -> option Block + provider_error;
  pBlockByNumber : nat -> Z -> option Block + provider_error;
  pLogs : nat -> LogFilter -> list Log + provider_error;
  pChainID : nat -> Z + provider_error;
}.
(** Etherscan: whether there is one for a chain, and the [blockNumber] fields of
    the first logs of an address, where they are strings *)
Record Etherscan := mkEtherscan { esFor : Z -> bool; esLogs : nat -> Address -> list (option bytes) + provider_error }.

(** ** The state *)
Record Tracker (S : Type) := mkTracker {
  tStore : S; tPreSynced : bool; tBlocks : list Block; tFilters : list Filter;
  tEvents : list (nat * Event);           (* the events received: the filter and the event *)
  tBlockEvents : list BlockEvent; tCalls : nat;
}.
Arguments mkTracker {S}. Arguments tStore {S}. Arguments tPreSynced {S}. Arguments tBlocks {S}. Arguments tFilters {S}.
Arguments tEvents {S}. Arguments tBlockEvents {S}. Arguments tCalls {S}.
Section Setters.
Context {S : Type}.
Implicit Types t : Tracker S.
Definition set_tStore (x : S) t := mkTracker x (tPreSynced t) (tBlocks t) (tFilters t) (tEvents t) (tBlockEvents t) (tCalls t).
Definition set_tPreSynced x t := mkTracker (tStore t) x (tBlocks t) (tFilters t) (tEvents t) (tBlockEvents t) (tCalls t).
Definition set_tBlocks x t := mkTracker (tStore t) (tPreSynced t) x (tFilters t) (tEvents t) (tBlockEvents t) (tCalls t).
Definition set_tFilters x t := mkTracker (tStore t) (tPreSynced t) (tBlocks t) x (tEvents t) (tBlockEvents t) (tCalls t).
Definition set_tEvents x t := mkTracker (tStore t) (tPreSynced t) (tBlocks t) (tFilters t) x (tBlockEvents t) (tCalls t).
Definition set_tBlockEvents x t := mkTracker (tStore t) (tPreSynced t) (tBlocks t) (tFilters t) (tEvents t) x (tCalls t).
Definition set_tCalls x t := mkTracker (tStore t) (tPreSynced t) (tBlocks t) (tFilters t) (tEvents t) (tBlockEvents t) x.
End Setters.

(** ** Code that may fail: an error or a panic ends it, what it changed stays. *)
Definition TM (S A : Type) : Type := M (Tracker S) (A + tracker_error).
#[export] Instance TM_ret S : MRet (TM S) := fun A a t => Ret (inl a, t).
#[export] Instance TM_bind S : MBind (TM S) := fun A B f m t =>
  match m t with
  | Ret (inl a, t') => f a t'
  | Ret (inr e, t') => Ret (inr e, t')
  | PanicAt p => PanicAt p
  | NoFuel => NoFuel
  end.
Definition fail {S A} (e : tracker_error) : TM S A := fun t => Ret (inr e, t).
Definition crash {S A} : TM S A := fun _ => Panic.
Definition outOfFuel {S A} : TM S A := fun _ => NoFuel.
Definition reads {S A} (f : Tracker S -> A) : TM S A := fun t => Ret (inl (f t), t).
Definition update {S} (f : Tracker S -> Tracker S) : TM S () := fun t => Ret (inl (), f t).
(** A method of the store *)
Definition stored {S A} (m : M S (A + store_error)) : TM S A := fun t =>
  '(r, s) ← m (tStore t);
  Ret (match r with inl a => inl a | inr e => inr (EStore e) end, set_tStore s t).
(** A call of the node *)
Definition ask {S A} (q : nat -> A + provider_error) : TM S (A + provider_error) := fun t =>
  Ret (inl (q (tCalls t)), set_tCalls (Datatypes.S (tCalls t)) t).
Definition call {S A} (q : nat -> A + provider_error) : TM S A :=
  r ← ask q; match r with inl a => mret a | inr e => fail (EProvider e) end.
Definition wrap {S A} (f : tracker_error -> tracker_error) (m : TM S A) : TM S A := fun t =>
  match m t with Ret (inr e, t') => Ret (inr (f e), t') | r => r end.
Definition attempt {S A} (m : TM S A) : TM S (A + tracker_error) := fun t =>
  match m t with Ret (r, t') => Ret (inl r, t') | PanicAt s => PanicAt s | NoFuel => NoFuel end.
(** Dereferencing a block *)
Definition deref {S} (b : option Block) : TM S Block := match b with Some b => mret b | None => crash end.

(** [uint64(float64(b) * 0.10)]: both roundings are to 53 bits, to the nearest
    and to even; 0.10 is [3602879701896397 / 2^55]. *)
Definition round53 (m : Z) : Z :=
  let e := Z.log2 m - 52 in
  if e <=? 0 then m
  else let q := m / 2 ^ e in let r := m mod 2 ^ e in let h := 2 ^ (e - 1) in
       (if (h <? r) || ((r =? h) && Z.odd q) then q + 1 else q) * 2 ^ e.
Definition additiveFactor_of (batchSize : Z) : Z := round53 (round53 batchSize * 3602879701896397) / 2 ^ 55.

Section Tracker.
Context {S : Type} `{Store S} `{FastJson}.
Context (p : Provider) (es : Etherscan) (config : Config) (cancelled : nat -> bool).
Context (sha256 : bytes -> bytes) (configJson : FilterConfig -> bytes) (configParse : bytes -> option FilterConfig).
Abbreviation TM := (TM S).

Definition GetBlockByHash (h : Hash) : TM (option Block) := call (fun k => pBlockByHash p k h).
Definition GetBlockByNumber (n : Z) : TM (option Block) := call (fun k => pBlockByNumber p k n).
Definition GetLogs (q : LogFilter) : TM (list Log + provider_error) := ask (fun k => pLogs p k q).
Definition ChainID : TM Z := call (pChainID p).
Definition getFilter (f : nat) : TM Filter :=
  o ← reads (fun t => tFilters t !! f); match o with Some x => mret x | None => crash end.

(** ** Filters *)
(** [reader]: when the client will receive from the new filter's channel *)
Definition NewFilter (reader : nat -> bool) (c : option FilterConfig) : TM nat :=
  let c := default (mkFilterConfig [] [] 0 [] false) c in
  let c := if bool_decide (cfHash c = []) then buildHash sha256 c else c in
  _ ← stored (GetEntry (cfHash c));
  let filterKey := dbFilter ++ str "_" ++ cfHash c in
  data ← stored (stGet filterKey);
  _ ← (if bool_decide (data = []) then stored (stSet filterKey (EncodeToString (configJson c))) else mret () : TM ());
  n ← reads (fun t => length (tFilters t));
  _ ← update (fun t => set_tFilters (tFilters t ++ [mkFilter c false reader]) t);
  mret n.
Definition lastBlockKey (c : FilterConfig) : bytes := dbLastBlock ++ str "_" ++ cfHash c.
Definition GetLastBlock (f : nat) : TM (option Block) :=
  x ← getFilter f;
  buf ← stored (stGet (lastBlockKey (fConfig x)));
  if bool_decide (buf = []) then mret None
  else let '(raw, ok) := DecodeString buf in
       if negb ok then fail EHex
       else match BlockUnmarshalJSON zeroBlock raw with
            | Ret (inl b) => mret (Some b)
            | Ret (inr e) => fail (EJson e)
            | PanicAt s => fun _ => PanicAt s
            | NoFuel => outOfFuel
            end.
Definition with_difficulty (b : Block) : Block :=
  match bDifficulty b with
  | Some _ => b
  | None =>
      mkBlock (bNumber b) (bHash b) (bParentHash b) (bSha3Uncles b) (bTransactionsRoot b) (bStateRoot b) (bReceiptsRoot b) (bMiner b)
        (Some 0) (bExtraData b) (bGasLimit b) (bGasUsed b) (bTimestamp b) (bTransactions b) (bTransactionsHashes b) (bUncles b)
  end.
Definition storeLastBlock (f : nat) (b : Block) : TM () :=
  x ← getFilter f;
  stored (stSet (lastBlockKey (fConfig x)) (EncodeToString (BlockMarshalJSON (with_difficulty b)))).
(** The send on [EventCh]: with [Async] it is a [select] with a default, without
    it waits for a receiver. *)
Definition emitEvent (f : nat) (e : Event) : TM () :=
  x ← getFilter f;
  received ← reads (fun t => fReader x (tCalls t));
  if (received : bool) then update (fun t => set_tEvents (tEvents t ++ [(f, e)]) t)
  else if cfAsync (fConfig x) then mret ()
  else outOfFuel.
Definition emitLogs (f : nat) (typ : EventType) (logs : list Log) : TM () :=
  emitEvent f (match typ with EventAdd => mkTrackerEvent logs [] | EventDel => mkTrackerEvent [] logs end).
Definition IsSynced (f : nat) : TM bool := x ← getFilter f; mret (fSynced x).
Definition set_synced (f : nat) : TM () :=
  update (fun t => set_tFilters (alter (fun x => mkFilter (fConfig x) true (fReader x)) f (tFilters t)) t).

(** ** Following the chain *)
Fixpoint ancestor_loop (n : nat) (block pivot : Block) : TM Z :=
  match n with
  | O => fail EReorgTooBig
  | Datatypes.S n =>
      if negb (bNumber block =? bNumber pivot) then fail ENumbers
      else if bool_decide (bHash block = bHash pivot) then mret (bNumber block)
      else block' ← GetBlockByHash (bParentHash block);
           pivot' ← GetBlockByHash (bParentHash pivot);
           match n with
           | O => fail EReorgTooBig
           | _ => block' ← deref block'; pivot' ← deref pivot'; ancestor_loop n block' pivot'
           end
  end.
Definition findAncestor (block pivot : Block) : TM Z := ancestor_loop (Z.to_nat (MaxBlockBacklog config)) block pivot.
Fixpoint populate_loop (n : nat) (block : Block) (blocks : list Block) : TM (list Block) :=
  match n with
  | O => mret blocks
  | Datatypes.S n =>
      if bNumber block =? 0 then mret (block :: blocks)
      else parent ← GetBlockByHash (bParentHash block);
           match n with
           | O => mret (block :: blocks)
           | _ => parent ← deref parent; populate_loop n parent (block :: blocks)
           end
  end.
Definition populateBlocks : TM (list Block) :=
  block ← GetBlockByNumber Latest;
  block ← deref block;
  if bNumber block =? 0 then mret [] else populate_loop (Z.to_nat (MaxBlockBacklog config)) block [].
Definition addBlockLocked (block : Block) : TM () :=
  _ ← update (fun t => set_tBlocks (if Z.of_nat (length (tBlocks t)) =? MaxBlockBacklog config then tail (tBlocks t) else tBlocks t) t);
  blocks ← reads tBlocks;
  match list.last blocks with
  | Some b =>
      if negb (add64 (bNumber b) 1 =? bNumber block) then fail (EBadSequence (bNumber b) (bNumber block))
      else update (fun t => set_tBlocks (tBlocks t ++ [block]) t)
  | None => update (fun t => set_tBlocks (tBlocks t ++ [block]) t)
  end.
Fixpoint index_of (hash : Hash) (l : list Block) : option nat :=
  match l with
  | [] => None
  | b :: l => if bool_decide (bHash b = hash) then Some O else Datatypes.S <$> index_of hash l
  end.
Definition blockAtIndex (hash : Hash) : TM (option nat) := reads (fun t => index_of hash (tBlocks t)).
(** The blocks fetched so far, newest first *)
Fixpoint backfill (n : nat) (block : Block) (added : list Block) : TM (list Block * nat) :=
  match n with
  | O => fail EReconcile
  | Datatypes.S n =>
      r ← ask (fun k => pBlockByHash p k (bParentHash block));
      match r with
      | inr _ => fail (EParent (bParentHash block))
      | inl parent =>
          parent ← deref parent;
          indx ← blockAtIndex (bParentHash parent);
          match indx with
          | Some i => mret (added ++ [parent], i)
          | None => backfill n parent (added ++ [parent])
          end
      end
  end.
(** The new blocks in order, and the index of the block they follow where the
    head changes branch *)
Definition handleReconcileImpl (block : Block) : TM (list Block * option nat) :=
  known ← blockAtIndex (bHash block);
  match known with
  | Some _ => mret ([], None)
  | None =>
      blocks ← reads tBlocks;
      match list.last blocks with
      | None => mret ([block], None)
      | Some head =>
          if bool_decide (bHash head = bParentHash block) then mret ([block], None)
          else
            fork ← blockAtIndex (bParentHash block);
            match fork with
            | Some i => mret ([block], Some i)
            | None =>
                '(added, i) ← backfill (Z.to_nat (MaxBlockBacklog config + 1)) block [block];
                mret (rev added, Some i)
            end
      end
  end.
Fixpoint add_blocks (blocks : list Block) : TM () :=
  match blocks with
  | [] => mret ()
  | b :: blocks => _ ← addBlockLocked b; add_blocks blocks
  end.
Definition handleBlockEvent (block : Block) : TM (option BlockEvent) :=
  '(blocks, indx) ← handleReconcileImpl block;
  match blocks with
  | [] => mret None
  | _ =>
      removed ← (match indx with
                 | Some i =>
                     removed ← reads (fun t => drop (i + 1) (tBlocks t));
                     _ ← update (fun t => set_tBlocks (take (i + 1) (tBlocks t)) t);
                     mret removed
                 | None => mret []
                 end : TM (list Block));
      _ ← add_blocks blocks;
      mret (Some (mkBlockEvent blocks removed))
  end.

(** ** Logs *)
(** From the last log backwards: the logs to remove, newest first, and how many
    stay *)
Fixpoint remove_loop (e : bytes) (number : Z) (hash : option Hash) (index : nat) (remove : list Log) : TM (list Log * nat) :=
  match index with
  | O => mret (remove, O)
  | Datatypes.S elemIndex =>
      log ← stored (GetLog e (Z.of_nat elemIndex));
      if (lBlockNumber log =? number) && match hash with Some h => negb (bool_decide (lBlockHash log = h)) | None => false end
         || (lBlockNumber log <? number)
      then mret (remove, index)
      else remove_loop e number hash elemIndex (remove ++ [log])
  end.
Definition removeLogs (f : nat) (number : Z) (hash : option Hash) : TM (list Log) :=
  x ← getFilter f;
  index ← stored (LastIndex (cfHash (fConfig x)));
  if index =? 0 then mret []
  else '(remove, n) ← remove_loop (cfHash (fConfig x)) number hash (Z.to_nat index) [];
       _ ← stored (RemoveLogs (cfHash (fConfig x)) (Z.of_nat n));
       mret remove.
(** Up to [n] attempts *)
Fixpoint retry_logs (n : nat) (q : LogFilter) : TM (list Log) :=
  match n with
  | O => mret []
  | Datatypes.S n' =>
      r ← GetLogs q;
      match r with
      | inl logs => mret logs
      | inr e => match n' with O => fail (EProvider e) | _ => retry_logs n' q end
      end
  end.
Definition set_blockhash (h : Hash) (q : LogFilter) : LogFilter := mkLogFilter (Some h) (fFrom q) (fTo q) (fAddress q) (fTopics q).
Fixpoint filter_blocks (f : nat) (added : list Block) : TM (list Log) :=
  match added with
  | [] => mret []
  | block :: added =>
      x ← getFilter f;
      logs ← retry_logs 5 (set_blockhash (bHash block) (getFilterSearch (fConfig x)));
      _ ← stored (StoreLogs (cfHash (fConfig x)) logs);
      rest ← filter_blocks f added;
      mret (logs ++ rest)
  end.
Definition doFilter (f : nat) (added removed : list Block) : TM Event :=
  evRem ← (match removed with
           | [] => mret []
           | pivot :: _ => logs ← removeLogs f (bNumber pivot) (Some (bHash pivot)); mret (rev logs)
           end : TM (list Log));
  evAdd ← filter_blocks f added;
  match list.last added with
  | None => crash
  | Some b => _ ← storeLastBlock f b; mret (mkTrackerEvent evAdd evRem)
  end.
Fixpoint notify (fs : list nat) (added removed : list Block) : TM () :=
  match fs with
  | [] => mret ()
  | f :: fs =>
      synced ← IsSynced f;
      _ ← (if (synced : bool) then (evnt ← doFilter f added removed; emitEvent f evnt) else mret ());
      notify fs added removed
  end.
Definition handleReconcile (block : Block) : TM () :=
  blockEvnt ← handleBlockEvent block;
  match blockEvnt with
  | None => mret ()
  | Some be =>
      _ ← update (fun t => set_tBlockEvents (tBlockEvents t ++ [be]) t);
      n ← reads (fun t => length (tFilters t));
      notify (seq 0 n) (beAdded be) (beRemoved be)
  end.

(** ** Synchronising a filter *)
Fixpoint batch_loop (fuel f : nat) (query : LogFilter) (to additive batchSize i : Z) : TM () :=
  match fuel with
  | O => outOfFuel
  | Datatypes.S fuel =>
      let dst := Z.min to (add64 i batchSize) in
      r ← GetLogs (SetToUint64 dst (SetFromUint64 i query));
      match r with
      | inr e => if tooMuchDataRequestedError e then batch_loop fuel f query to additive (batchSize / 2) i else fail (EProvider e)
      | inl logs =>
          x ← getFilter f;
          _ ← stored (StoreLogs (cfHash (fConfig x)) logs);
          _ ← emitLogs f EventAdd logs;
          block ← GetBlockByNumber (to_int64 dst);
          block ← deref block;
          _ ← storeLastBlock f block;
          k ← reads tCalls;
          if cancelled k then fail ECancelled
          else let i := add64 (add64 i batchSize) 1 in
               let batchSize := if batchSize <? BatchSize config then Z.min (BatchSize config) (add64 batchSize additive) else batchSize in
               if i <=? to then batch_loop fuel f query to additive batchSize i else mret ()
      end
  end.
Definition syncBatch (fuel f : nat) (from to : Z) : TM () :=
  x ← getFilter f;
  batch_loop fuel f (getFilterSearch (fConfig x)) to (additiveFactor_of (BatchSize config)) (BatchSize config) from.
Definition preSyncCheckImpl : TM () :=
  rGenesis ← GetBlockByNumber 0;
  rChainID ← ChainID;
  genesis ← stored (stGet dbGenesis);
  chainID ← stored (stGet dbChainID);
  rGenesis ← deref rGenesis;
  if negb (bool_decide (genesis = [])) then
    if negb (bool_decide (genesis = HashString (bHash rGenesis))) || negb (bool_decide (chainID = decInt rChainID)) then fail EBadGenesis
    else mret ()
  else _ ← stored (stSet dbGenesis (HashString (bHash rGenesis))); stored (stSet dbChainID (decInt rChainID)).
(** [sync.Once]: only the first call runs the check, and only it can fail. *)
Definition preSyncCheck : TM () :=
  done ← reads tPreSynced;
  if done : bool then mret () else _ ← update (set_tPreSynced true); preSyncCheckImpl.
Definition parseUint64orHex (s : bytes) : option Z :=
  match strip_prefix x0 s with Some s => ParseUint s | None => ParseUint10 s end.
Definition firstLog (addr : Address) : TM Z :=
  out ← call (fun k => esLogs es k addr);
  match out with
  | [] => mret 0
  | None :: _ => fail ENotAString
  | Some cc :: _ => match parseUint64orHex cc with Some num => mret num | None => fail ENumber end
  end.
Fixpoint min_block (addrs : list Address) (minBlock : Z) : TM Z :=
  match addrs with
  | [] => mret minBlock
  | a :: addrs => num ← firstLog a; min_block addrs (if num <? minBlock then num else minBlock)
  end.
Definition fastTrack (c : FilterConfig) : TM (option Block) :=
  if negb (cfStart c =? 0) then GetBlockByNumber (to_int64 (cfStart c))
  else if bool_decide (cfAddress c = []) then mret None
  else if EtherscanFastTrack config then
    chainID ← ChainID;
    if negb (esFor es (Z.abs chainID mod W)) then mret None
    else minBlock ← min_block (cfAddress c) MaxUint64; GetBlockByNumber (to_int64 (sub64 minBlock 1))
  else mret None.
(** Other goroutines while the lock is free *)
Fixpoint handle_all (l : list Block) : TM () :=
  match l with
  | [] => mret ()
  | b :: l => _ ← attempt (handleReconcile b); handle_all l
  end.
Context (arrivals : nat -> list Block).
Definition interfere : TM () := k ← reads tCalls; handle_all (arrivals k).
Fixpoint bulk_loop (fuel f : nat) (origin targetNum : Z) : TM (Z * Z) :=
  match fuel with
  | O => outOfFuel
  | Datatypes.S fuel' =>
      if targetNum <? origin then fail EFromHigher
      else if add64 (sub64 targetNum origin) 1 <=? MaxBlockBacklog config then mret (origin, targetNum)
      else let limit := sub64 targetNum (MaxBlockBacklog config) in
           _ ← syncBatch fuel f origin limit;
           _ ← interfere;
           blocks ← reads tBlocks;
           match list.last blocks with None => crash | Some b => bulk_loop fuel' f (add64 limit 1) (bNumber b) end
  end.
(** Where to go on: behind the last block, or behind the block where the branch
    of the last block leaves the chain *)
Definition resume (f : nat) (last : Block) (targetNum : Z) : TM Z :=
  if targetNum <? bNumber last then fail EStoreAhead
  else
    pivot ← GetBlockByNumber (to_int64 (bNumber last));
    pivot ← deref pivot;
    if bool_decide (bHash pivot = bHash last) then
      mret (if bNumber last =? targetNum then bNumber last else add64 (bNumber last) 1)
    else
      ancestor ← findAncestor last pivot;
      logs ← removeLogs f (add64 ancestor 1) None;
      _ ← emitLogs f EventDel logs;
      _ ← GetBlockByNumber (to_int64 ancestor);
      mret (add64 ancestor 1).
Definition catchUp (fuel f : nat) (origin targetNum : Z) : TM () :=
  '(origin, targetNum) ← (if MaxBlockBacklog config <? add64 (sub64 targetNum origin) 1 then bulk_loop fuel f origin targetNum
                         else mret (origin, targetNum) : TM (Z * Z));
  blocks ← reads tBlocks;
  let start := sub64 (sub64 (u64 (Z.of_nat (length blocks))) 1) (sub64 targetNum origin) in
  if Z.of_nat (length blocks) <? start then crash
  else evnt ← doFilter f (drop (Z.to_nat start) blocks) []; emitEvent f evnt.
Definition syncImpl (fuel f : nat) : TM () :=
  _ ← preSyncCheck;
  blocks ← reads tBlocks;
  match list.last blocks with
  | None => mret ()
  | Some target =>
      stored_last ← GetLastBlock f;
      x ← getFilter f;
      match stored_last with
      | Some l =>
          if bool_decide (bHash l = bHash target) then mret ()
          else origin ← resume f l (bNumber target); catchUp fuel f origin (bNumber target)
      | None =>
          start ← wrap EFastTrack (fastTrack (fConfig x));
          match start with
          | None => catchUp fuel f 0 (bNumber target)
          | Some l => _ ← storeLastBlock f l; origin ← resume f l (bNumber target); catchUp fuel f origin (bNumber target)
          end
      end
  end.
Definition Sync (fuel f : nat) : TM () := _ ← syncImpl fuel f; _ ← interfere; set_synced f.

(** ** Starting, and polling the head *)
Definition Start : TM () :=
  _ ← preSyncCheck; blocks ← populateBlocks; update (set_tBlocks blocks).
(** One round of the poller; the last block it handled *)
Definition poll (lastBlock : option Block) : TM (option Block) :=
  r ← ask (fun k => pBlockByNumber p k Latest);
  match r with
  | inr _ => mret lastBlock
  | inl block =>
      block ← deref block;
      if match lastBlock with Some l => bool_decide (bHash l = bHash block) | None => false end then mret lastBlock
      else r ← attempt (handleReconcile block); mret (match r with inl _ => Some block | inr _ => lastBlock end)
  end.
Fixpoint parse_configs (l : list bytes) : TM (list FilterConfig) :=
  match l with
  | [] => mret []
  | item :: l =>
      let '(raw, ok) := DecodeString item in
      if negb ok then fail EHex
      else match configParse raw with
           | None => fail (EJson badJSON)
           | Some c => rest ← parse_configs l; mret (c :: rest)
           end
  end.
Definition GetSavedFilters : TM (list FilterConfig) := data ← stored (ListPrefix dbFilter); parse_configs data.
End Tracker.
Definition NewTracker {S} (store : S) (config : Config) : Tracker S * Config :=
  (mkTracker store false [] [] [] [] O,
   mkConfig (if BatchSize config =? 0 then defaultBatchSize else BatchSize config)
     (if MaxBlockBacklog config =? 0 then defaultMaxBlockBacklog else MaxBlockBacklog config) (EtherscanFastTrack config)).
