(* ===== verification/TrackerFacts.v ===== *)
(** * How the tracker follows the chain

    A weakest precondition for the tracker's code, chains of blocks, and what
    [handleBlockEvent] does to the window of blocks. *)

From stdpp Require Import strings.
From S2P Require Import Prelude Words Text AbiType AbiCodec Structs TrackerStore Tracker.

(** ** Running the tracker's code: it returns, without a panic, with [Q]. *)
Section Runs.
Context {S : Type}.
Implicit Types t : Tracker S.
Definition runs {A} (m : TM S A) (Q : A + tracker_error -> Tracker S -> Prop) (t : Tracker S) : Prop :=
  match m t with Ret (r, t') => Q r t' | _ => False end.
(** [Q] after a result, and [E] after an error *)
Definition either {A} (Q : A -> Tracker S -> Prop) (E : Tracker S -> Prop) (r : A + tracker_error) (t : Tracker S) : Prop :=
  match r with inl a => Q a t | inr _ => E t end.

Lemma truns_mono {A} (m : TM S A) (P Q : A + tracker_error -> Tracker S -> Prop) t :
  (forall r t', P r t' -> Q r t') -> runs m P t -> runs m Q t.
Proof. unfold runs. intros H. destruct (m t) as [[r t']| |]; auto. Qed.
Lemma truns_bind {A B} (m : TM S A) (f : A -> TM S B) Q t :
  runs m (fun r t' => match r with inl a => runs (f a) Q t' | inr e => Q (inr e) t' end) t -> runs (m ≫= f) Q t.
Proof. cbv [runs mbind TM_bind]. destruct (m t) as [[[a|e] t']| |]; done. Qed.
Lemma truns_ret {A} (a : A) (Q : A + tracker_error -> Tracker S -> Prop) t : Q (inl a) t -> runs (mret a) Q t.
Proof. done. Qed.
Lemma runs_fail {A} e (Q : A + tracker_error -> Tracker S -> Prop) t : Q (inr e) t -> runs (fail e) Q t.
Proof. done. Qed.
Lemma runs_reads {A} (f : Tracker S -> A) Q t : Q (inl (f t)) t -> runs (reads f) Q t.
Proof. done. Qed.
Lemma runs_update f (Q : () + tracker_error -> Tracker S -> Prop) t : Q (inl ()) (f t) -> runs (update f) Q t.
Proof. done. Qed.
Lemma runs_ask {A} (q : nat -> A + provider_error) Q t :
  Q (inl (q (tCalls t))) (set_tCalls (Datatypes.S (tCalls t)) t) -> runs (ask q) Q t.
Proof. done. Qed.
Lemma runs_call {A} (q : nat -> A + provider_error) Q t :
  (forall a, q (tCalls t) = inl a -> Q (inl a) (set_tCalls (Datatypes.S (tCalls t)) t)) ->
  (forall e, q (tCalls t) = inr e -> Q (inr (EProvider e)) (set_tCalls (Datatypes.S (tCalls t)) t)) -> runs (call q) Q t.
Proof. intros Ha He. apply truns_bind, runs_ask. destruct (q (tCalls t)); [by apply Ha|by apply He]. Qed.
Lemma runs_stored {A} (m : M S (A + store_error)) r s Q t :
  m (tStore t) = Ret (r, s) -> Q (match r with inl a => inl a | inr e => inr (EStore e) end) (set_tStore s t) -> runs (stored m) Q t.
Proof. unfold runs, stored. intros E HQ. rewrite E. exact HQ. Qed.
Lemma runs_elim {A} (m : TM S A) Q t r t' : runs m Q t -> m t = Ret (r, t') -> Q r t'.
Proof. unfold runs. intros H E. by rewrite E in H. Qed.
Lemma runs_attempt {A} (m : TM S A) (Q : (A + tracker_error) + tracker_error -> Tracker S -> Prop) t :
  runs m (fun r t' => Q (inl r) t') t -> runs (attempt m) Q t.
Proof. unfold runs, attempt. destruct (m t) as [[r t']| |]; done. Qed.
End Runs.

(** ** Chains *)
Definition linked (a b : Block) : Prop := bParentHash b = bHash a /\ bNumber b = bNumber a + 1.
Fixpoint chain (l : list Block) : Prop :=
  match l with
  | [] => True
  | a :: l' => match l' with [] => True | b :: _ => linked a b end /\ chain l'
  end.
Definition joins (l k : list Block) : Prop := forall a b, list.last l = Some a -> head k = Some b -> linked a b.
Lemma chain_append l k : chain (l ++ k) <-> chain l /\ chain k /\ joins l k.
Proof.
  induction l as [|a l IH]; cbn [app chain].
  - split; [intros; split_and!; [done|done|by intros ? ? [=]]|by intros (_ & ? & _)].
  - rewrite IH. unfold joins. destruct l as [|a' l]; cbn [app].
    + destruct k as [|b k]; cbn; [split; [intros; split_and!; naive_solver|naive_solver]|].
      split; [intros (Hl & _ & Hk & _)|intros (_ & Hk & Hj)]; split_and!; try done; naive_solver.
    + cbn [list.last]. tauto.
Qed.
Lemma chain_drop n l : chain l -> chain (drop n l).
Proof. intros H. rewrite <- (take_drop n l) in H. by apply chain_append in H as (_ & ? & _). Qed.
Lemma chain_take n l : chain l -> chain (take n l).
Proof. intros H. rewrite <- (take_drop n l) in H. by apply chain_append in H as (? & _). Qed.
Lemma chain_numbers l i a : chain l -> l !! O = Some a -> forall b, l !! i = Some b -> bNumber b = bNumber a + Z.of_nat i.
Proof.
  revert a l. induction i as [|i IH]; intros a l Hc H0 b Hb; [rewrite H0 in Hb; injection Hb as ->; lia|].
  destruct l as [|a' [|c l]]; try done. cbn in H0. injection H0 as ->. destruct Hc as [[_ Hn] Hc].
  rewrite (IH c (c :: l) Hc eq_refl b Hb). lia.
Qed.
Lemma chain_number_inj l i j a b : chain l -> l !! i = Some a -> l !! j = Some b -> bNumber a = bNumber b -> i = j.
Proof.
  intros Hc Ha Hb E. destruct (l !! O) as [z|] eqn:Hz; [|destruct l; done].
  rewrite (chain_numbers l i z Hc Hz a Ha), (chain_numbers l j z Hc Hz b Hb) in E. lia.
Qed.
(** The last [n] elements *)
Definition lastn {A} (n : nat) (l : list A) : list A := drop (length l - n) l.
Lemma lastn_all {A} n (l : list A) : (length l <= n)%nat -> lastn n l = l.
Proof. intros. unfold lastn. by replace (length l - n)%nat with O by lia. Qed.
Lemma length_lastn {A} n (l : list A) : length (lastn n l) = Nat.min n (length l).
Proof. unfold lastn. rewrite length_drop. lia. Qed.
Lemma lastn_app {A} n (l k : list A) : lastn n (lastn n l ++ k) = lastn n (l ++ k).
Proof.
  unfold lastn. rewrite <- drop_app_le, length_drop, length_app, drop_drop by lia. f_equal. lia.
Qed.
Lemma last_lastn {A} n (l : list A) : (1 <= n)%nat -> list.last (lastn n l) = list.last l.
Proof.
  intros Hn. destruct l as [|x l] using rev_ind; [done|]. unfold lastn. rewrite length_app. cbn [length].
  rewrite drop_app_le by lia. by rewrite !last_snoc.
Qed.

(** ** The window *)
Lemma index_of_Some h l i : index_of h l = Some i -> exists b, l !! i = Some b /\ bHash b = h.
Proof.
  revert i. induction l as [|b l IH]; intros i; cbn; [done|]. case_bool_decide as E; [intros [= <-]; eauto|].
  destruct (index_of h l) as [j|]; [|done]. intros [= <-]. cbn. by apply IH.
Qed.
Lemma index_of_None h l : index_of h l = None -> forall b, b ∈ l -> bHash b <> h.
Proof.
  induction l as [|b l IH]; cbn; [by intros _ ? ?%elem_of_nil|]. case_bool_decide as E; [done|].
  destruct (index_of h l); [done|]. intros _ x [-> |Hx]%elem_of_cons; [done|by apply IH].
Qed.

Section Window.
Context {S : Type} (p : Provider) (config : Config).
(** The blocks the node shows: a hash names one block, and a block follows its
    parent. *)
Context (known : Block -> Prop).
Context (known_inj : forall a b, known a -> known b -> bHash a = bHash b -> a = b).
Context (known_parent : forall a b, known a -> known b -> bParentHash b = bHash a -> bNumber b = bNumber a + 1).
Context (known_u64 : forall b, known b -> is_u64 (bNumber b)).
(** It answers with the block, or with an error. *)
Context (node_hash : forall k h, match pBlockByHash p k h with inl (Some b) => known b /\ bHash b = h | inl None => False | inr _ => True end).
Context (Hmax : 1 <= MaxBlockBacklog config).
Implicit Types t : Tracker S.
Abbreviation Max := (Z.to_nat (MaxBlockBacklog config)).

Record window_ok (l : list Block) : Prop := { wo_chain : chain l; wo_known : Forall known l; wo_length : (length l <= Max)%nat }.

Lemma index_of_chain h l i : index_of h l = Some i -> exists b, l !! i = Some b /\ bHash b = h /\ list.last (take (i + 1) l) = Some b.
Proof.
  intros (b & Hb & Hh)%index_of_Some. exists b. split_and!; [done|done|].
  rewrite Nat.add_1_r, (take_S_r l i b Hb). apply last_snoc.
Qed.
(** The blocks fetched backwards form a chain that starts behind a block of the
    window. *)
Lemma backfill_ok n block tail t :
  Forall known (block :: tail) -> chain (block :: tail) ->
  runs (backfill p n block (rev (block :: tail)))
    (fun r t' => (exists k, t' = set_tCalls k t) /\
       match r with
       | inl (added, i) => exists hd rest, rev added = hd :: rest ++ block :: tail /\ Forall known (rev added) /\ chain (rev added) /\
           index_of (bParentHash hd) (tBlocks t) = Some i
       | inr _ => True
       end) t.
Proof.
  revert block tail t. induction n as [|n IH]; intros block tail t Hk Hc; cbn [backfill].
  - apply runs_fail. split; [|done]. exists (tCalls t). by destruct t.
  - apply truns_bind, runs_ask. pose proof (node_hash (tCalls t) (bParentHash block)) as Hn.
    destruct (pBlockByHash p (tCalls t) (bParentHash block)) as [[parent|]|e]; [|done|apply runs_fail; split; [by eexists|done]].
    destruct Hn as [Hkp Hh]. cbn [deref]. apply truns_bind, truns_ret. apply truns_bind, runs_reads.
    assert (linked parent block) as Hl by (split; [done|apply known_parent; [done| |done]; by inversion Hk]).
    assert (Forall known (parent :: block :: tail)) as Hk' by by constructor.
    assert (chain (parent :: block :: tail)) as Hc' by by split.
    change (rev (block :: tail) ++ [parent]) with (rev (parent :: block :: tail)).
    change (tBlocks (set_tCalls _ t)) with (tBlocks t).
    destruct (index_of (bParentHash parent) (tBlocks t)) as [i|] eqn:Ei.
    + apply truns_ret. split; [by eexists|]. exists parent, []. by rewrite rev_involutive.
    + eapply truns_mono; [|apply (IH parent (block :: tail)); done]. intros r t' [[k ->] Hr]. split; [by eexists|].
      destruct r as [[added i]|e]; [|done]. destruct Hr as (hd & rest & E & Hka & Hca & Hi). exists hd, (rest ++ [parent]).
      rewrite <- app_assoc. done.
Qed.
Definition common_of (i : option nat) (l : list Block) : list Block := match i with Some i => take (i + 1) l | None => l end.
Lemma common_fork i l block rest : Forall known l -> chain l -> Forall known (block :: rest) -> chain (block :: rest) ->
  index_of (bParentHash block) l = Some i -> chain (take (i + 1) l ++ block :: rest) /\ take (i + 1) l <> [].
Proof.
  intros Hkl Hcl Hk Hc Hi. destruct (index_of_chain _ _ _ Hi) as (b & Hb & Hh & Hlast). split.
  - apply chain_append. split_and!; [by apply chain_take|done|]. intros x y Hx [= <-]. rewrite Hlast in Hx. injection Hx as <-.
    split; [done|]. apply known_parent; [|by inversion Hk|done]. rewrite list.Forall_forall in Hkl. apply Hkl. by apply list_elem_of_lookup_2 in Hb.
  - intros E. by rewrite E in Hlast.
Qed.
Lemma handleReconcileImpl_ok block t : window_ok (tBlocks t) -> known block ->
  runs (handleReconcileImpl p config block)
    (fun r t' => (exists k, t' = set_tCalls k t) /\
       match r with
       | inl (new, i) =>
           new = [] /\ i = None /\ block ∈ tBlocks t \/
           list.last new = Some block /\ Forall known new /\ chain (common_of i (tBlocks t) ++ new) /\ (common_of i (tBlocks t) = [] -> tBlocks t = [])
       | inr _ => True
       end) t.
Proof.
  intros [Hc Hk _] Hb. pose proof (list.Forall_forall known (tBlocks t)) as Hf. assert (exists k, t = set_tCalls k t) as Ht by (exists (tCalls t); by destruct t).
  unfold handleReconcileImpl. apply truns_bind, runs_reads. destruct (index_of (bHash block) (tBlocks t)) as [i|] eqn:Ei.
  { apply truns_ret. split; [done|]. left. split_and!; [done|done|]. apply index_of_Some in Ei as (b & Hbi & Hh).
    apply list_elem_of_lookup_2 in Hbi. rewrite <- (known_inj b block); [done| |done|done]. by apply Hf. }
  apply truns_bind, runs_reads. destruct (list.last (tBlocks t)) as [head|] eqn:Hl.
  2: { apply truns_ret. split; [done|]. right. apply last_None in Hl. rewrite Hl. cbn. split_and!; [done|by constructor|done|done|done]. }
  case_bool_decide as Eh.
  { apply truns_ret. split; [done|]. right. split_and!; [done|by constructor| |done]. cbn [common_of]. apply chain_append. split_and!; [done|done|].
    intros x y Hx [= <-]. rewrite Hl in Hx. injection Hx as <-. split; [done|]. apply known_parent; [|done|done]. apply Hf; [done|].
    by apply last_Some_elem_of. }
  apply truns_bind, runs_reads. destruct (index_of (bParentHash block) (tBlocks t)) as [i|] eqn:Ep.
  { apply truns_ret. split; [done|]. right. destruct (common_fork i (tBlocks t) block []) as [H1 H2]; try done; [by constructor|].
    split_and!; [done|by constructor|done|done]. }
  apply truns_bind. eapply truns_mono; [|apply (backfill_ok _ block []); [by constructor|done]].
  intros r t' [[k ->] Hr]. destruct r as [[added i]|e]; [|split; [by eexists|done]].
  destruct Hr as (hd & rest & E & Hka & Hca & Hi). apply truns_ret. split; [by eexists|]. right. rewrite E in *.
  destruct (common_fork i (tBlocks t) hd (rest ++ [block])) as [H1 H2]; try done.
  change (hd :: rest ++ [block]) with ((hd :: rest) ++ [block]) in *. split_and!; [apply last_snoc|done|done|done].
Qed.
(** Appending blocks keeps the last ones. *)
Lemma addBlockLocked_ok block t : (length (tBlocks t) <= Max)%nat -> chain (tBlocks t ++ [block]) -> Forall known (tBlocks t) -> known block ->
  runs (addBlockLocked config block) (fun r t' => r = inl () /\ t' = set_tBlocks (lastn Max (tBlocks t ++ [block])) t) t.
Proof.
  intros Hlen Hc Hk Hb. unfold addBlockLocked. apply truns_bind, runs_update.
  set (l' := if _ =? _ then _ else _).
  assert (l' = drop (length (tBlocks t) + 1 - Max) (tBlocks t)) as El.
  { unfold l'. destruct (Z.eqb_spec (Z.of_nat (length (tBlocks t))) (MaxBlockBacklog config)) as [E|E].
    - replace (length (tBlocks t) + 1 - Max)%nat with 1%nat by lia. by destruct (tBlocks t).
    - by replace (length (tBlocks t) + 1 - Max)%nat with O by lia. }
  apply truns_bind, runs_reads. change (tBlocks (set_tBlocks l' t)) with l'.
  assert (lastn Max (tBlocks t ++ [block]) = l' ++ [block]) as Er.
  { unfold lastn. rewrite length_app. cbn [length]. rewrite drop_app_le by lia. by rewrite El. }
  assert (forall b, list.last l' = Some b -> add64 (bNumber b) 1 = bNumber block) as Hn.
  { intros b Hlb. assert (list.last (tBlocks t) = Some b) as Hlb2.
    { rewrite El in Hlb. rewrite <- (take_drop (length (tBlocks t) + 1 - Max) (tBlocks t)). rewrite last_app, Hlb. done. }
    apply chain_append in Hc as (_ & _ & Hj). destruct (Hj b block Hlb2 eq_refl) as [_ E]. unfold add64. rewrite u64_small; [done|].
    rewrite <- E. by apply known_u64. }
  destruct (list.last l') as [b|] eqn:Hl.
  - rewrite (Hn b eq_refl), Z.eqb_refl. cbn [negb]. apply runs_update. split; [done|]. cbn. by rewrite Er.
  - apply runs_update. split; [done|]. cbn. by rewrite Er.
Qed.
Lemma add_blocks_ok new t : (length (tBlocks t) <= Max)%nat -> chain (tBlocks t ++ new) -> Forall known (tBlocks t) -> Forall known new ->
  runs (add_blocks config new) (fun r t' => r = inl () /\ t' = set_tBlocks (lastn Max (tBlocks t ++ new)) t) t.
Proof.
  revert t. induction new as [|b new IH]; intros t Hlen Hc Hk Hn; cbn [add_blocks].
  - apply truns_ret. split; [done|]. rewrite app_nil_r, lastn_all by done. by destruct t.
  - change (b :: new) with ([b] ++ new) in *. rewrite app_assoc in Hc. inversion Hn; subst.
    apply truns_bind. eapply truns_mono; [|apply addBlockLocked_ok; [done|by apply chain_append in Hc as (? & _)|done|done]].
    intros r t' [-> ->]. eapply truns_mono; [|apply IH].
    + intros r t' [-> ->]. split; [done|]. cbn [tBlocks set_tBlocks]. rewrite lastn_app, <- app_assoc. done.
    + cbn. rewrite length_lastn. lia.
    + cbn. unfold lastn. rewrite <- drop_app_le by lia. by apply chain_drop.
    + cbn. apply Forall_drop, Forall_app. split; [done|by constructor].
    + done.
Qed.
Lemma handleBlockEvent_ok block t : window_ok (tBlocks t) -> known block ->
  runs (handleBlockEvent p config block)
    (fun r t' => exists k,
       match r with
       | inl (Some e) => exists common, tBlocks t = common ++ beRemoved e /\ chain (common ++ beAdded e) /\ Forall known (beAdded e) /\
           list.last (beAdded e) = Some block /\ (common = [] -> tBlocks t = []) /\
           t' = set_tBlocks (lastn Max (common ++ beAdded e)) (set_tCalls k t)
       | inl None => t' = set_tCalls k t /\ block ∈ tBlocks t
       | inr _ => t' = set_tCalls k t
       end) t.
Proof.
  intros Hw Hb. unfold handleBlockEvent. apply truns_bind. eapply truns_mono; [|by apply handleReconcileImpl_ok].
  intros r t' [[k ->] Hr]. destruct r as [[new i]|e]; [|by exists k].
  destruct Hr as [(-> & -> & Hin)|(Hlast & Hkn & Hc & Hne)]; [apply truns_ret; by exists k|].
  destruct new as [|b new]; [done|]. set (new' := b :: new) in *. destruct Hw as [Hcl Hkl Hlen].
  assert (tBlocks t = common_of i (tBlocks t) ++ match i with Some i => drop (i + 1) (tBlocks t) | None => [] end) as Hsplit.
  { destruct i as [i|]; cbn; [by rewrite take_drop|by rewrite app_nil_r]. }
  apply truns_bind. destruct i as [i|]; cbn [common_of] in *.
  - apply truns_bind, runs_reads, truns_bind, runs_update, truns_ret, truns_bind.
    eapply truns_mono; [|apply add_blocks_ok; cbn; [rewrite length_take; lia|done|by apply Forall_take|done]].
    intros r t' [-> ->]. apply truns_ret. exists k, (take (i + 1) (tBlocks t)). cbn. split_and!; try done.
  - apply truns_ret, truns_bind. eapply truns_mono; [|apply add_blocks_ok; cbn; done].
    intros r t' [-> ->]. apply truns_ret. exists k, (tBlocks t). cbn. split_and!; try done.
Qed.
End Window.
