(* ===== verification/TrackerLogs.v ===== *)
(** * The logs of a filter follow the chain

    What [removeLogs], [doFilter] and [handleReconcile] do to the stored logs. *)

From stdpp Require Import strings.
From S2P Require Import Prelude Words Text AbiType AbiCodec Structs TrackerStore Tracker TrackerFacts.

(** ** What an operation leaves alone *)
Record frame {S} (t t' : Tracker S) : Prop := {
  fr_blocks : tBlocks t' = tBlocks t; fr_filters : tFilters t' = tFilters t; fr_events : tEvents t' = tEvents t;
  fr_blockEvents : tBlockEvents t' = tBlockEvents t; fr_pre : tPreSynced t' = tPreSynced t;
}.
#[export] Instance frame_preorder {S} : PreOrder (@frame S).
Proof. split; [by split|]. intros a b c [] []. split; congruence. Qed.
Lemma frame_store {S} (s : S) t : frame t (set_tStore s t).
Proof. by split. Qed.
Lemma frame_calls {S} k (t : Tracker S) : frame t (set_tCalls k t).
Proof. by split. Qed.
#[export] Hint Resolve frame_store frame_calls : core.

Section Stored.
Context {S : Type} `{StoreLaws S}.
Implicit Types t : Tracker S.
Abbreviation logs t := (logs_of (tStore t)).
Abbreviation value t := (value_of (tStore t)).

(** Operations that only read the store *)
Definition unchanged (t t' : Tracker S) : Prop := frame t t' /\ same_values (tStore t) (tStore t') /\ same_logs (tStore t) (tStore t').
#[export] Instance unchanged_preorder : PreOrder unchanged.
Proof.
  split; [by split|]. intros a b c (F1 & V1 & L1) (F2 & V2 & L2). split; [by etrans|].
  split; intros x; [by rewrite V2, V1|by rewrite L2, L1].
Qed.
Lemma unchanged_calls k t : unchanged t (set_tCalls k t).
Proof. split; [done|by split]. Qed.
Lemma unchanged_store t s : same_values (tStore t) s -> same_logs (tStore t) s -> unchanged t (set_tStore s t).
Proof. intros. split; [done|by split]. Qed.

Lemma runs_Get k Q t :
  (forall t' r, unchanged t t' -> (forall b, r = inl b -> b = value t k) -> Q r t') -> runs (stored (stGet k)) Q t.
Proof.
  intros HQ. destruct (law_Get k (tStore t)) as (r & s & E & Hr). apply (runs_stored _ r s); [done|].
  destruct Hr as [(x & -> & Hv & Hl)|(-> & Hv & Hl)]; apply HQ; try (by apply unchanged_store); naive_solver.
Qed.
Lemma runs_LastIndex e Q t :
  (forall t' r, unchanged t t' -> (forall n, r = inl n -> n = Z.of_nat (length (logs t e))) -> Q r t') -> runs (stored (LastIndex e)) Q t.
Proof.
  intros HQ. destruct (law_LastIndex e (tStore t)) as (r & s & E & Hr). apply (runs_stored _ r s); [done|].
  destruct Hr as [(x & -> & Hv & Hl)|(-> & Hv & Hl)]; apply HQ; try (by apply unchanged_store); naive_solver.
Qed.
Lemma runs_GetLog e n l Q t : logs t e !! n = Some l ->
  (forall t' r, unchanged t t' -> (forall x, r = inl x -> x = l) -> Q r t') -> runs (stored (GetLog e (Z.of_nat n))) Q t.
Proof.
  intros Hn HQ. destruct (law_GetLog e n l (tStore t) Hn) as (r & s & E & Hr). apply (runs_stored _ r s); [done|].
  destruct Hr as [(x & -> & Hv & Hl)|(-> & Hv & Hl)]; apply HQ; try (by apply unchanged_store); naive_solver.
Qed.
(** Operations that write one entry or one value *)
Definition writes_logs (e : bytes) (new : list Log) (t t' : Tracker S) : Prop :=
  frame t t' /\ same_values (tStore t) (tStore t') /\ other_logs e (tStore t) (tStore t') /\ logs t' e = new.
Definition writes_value (k v : bytes) (t t' : Tracker S) : Prop :=
  frame t t' /\ same_logs (tStore t) (tStore t') /\ value t' k = v /\ forall k', k' <> k -> value t' k' = value t k'.
Lemma runs_StoreLogs e l Q t :
  (forall t' x, unchanged t t' -> Q (inr x) t') -> (forall t', writes_logs e (logs t e ++ l) t t' -> Q (inl ()) t') ->
  runs (stored (StoreLogs e l)) Q t.
Proof.
  intros HE HQ. destruct (law_StoreLogs e l (tStore t)) as (r & s & E & Hr). apply (runs_stored _ r s); [done|].
  destruct Hr as [(x & -> & Hv & Hl)|(-> & Hv & Ho & Hl)]; [by apply HE, unchanged_store|]. apply HQ. by split_and!.
Qed.
Lemma runs_RemoveLogs e n Q t : (n <= length (logs t e))%nat ->
  (forall t' x, unchanged t t' -> Q (inr x) t') -> (forall t', writes_logs e (take n (logs t e)) t t' -> Q (inl ()) t') ->
  runs (stored (RemoveLogs e (Z.of_nat n))) Q t.
Proof.
  intros Hn HE HQ. destruct (law_RemoveLogs e n (tStore t) Hn) as (r & s & E & Hr). apply (runs_stored _ r s); [done|].
  destruct Hr as [(x & -> & Hv & Hl)|(-> & Hv & Ho & Hl)]; [by apply HE, unchanged_store|]. apply HQ. by split_and!.
Qed.
Lemma runs_Set k v Q t :
  (forall t' x, unchanged t t' -> Q (inr x) t') -> (forall t', writes_value k v t t' -> Q (inl ()) t') -> runs (stored (stSet k v)) Q t.
Proof.
  intros HE HQ. destruct (law_Set k v (tStore t)) as (r & s & E & Hr). apply (runs_stored _ r s); [done|].
  destruct Hr as [(x & -> & Hv & Hl)|(-> & Hl & Hv & Ho)]; [by apply HE, unchanged_store|]. apply HQ. by split_and!.
Qed.
Lemma runs_getFilter f x Q t : tFilters t !! f = Some x -> Q (inl x) t -> runs (getFilter f) Q t.
Proof. intros Hf HQ. apply truns_bind, runs_reads. by rewrite Hf. Qed.
(** A filter whose events cannot block the tracker: they are dropped when nobody
    waits, or somebody always receives them. *)
Definition attended (x : Filter) : Prop := forall k, fReader x k = true.
Definition nonblocking (x : Filter) : Prop := cfAsync (fConfig x) = true \/ attended x.
Lemma runs_emit f x ev Q t : tFilters t !! f = Some x -> nonblocking x ->
  (forall evs, (forall z, z ∈ tEvents t -> z ∈ evs) -> (fReader x (tCalls t) = true -> evs = tEvents t ++ [(f, ev)]) ->
    Q (inl ()) (set_tEvents evs t)) -> runs (emitEvent f ev) Q t.
Proof.
  intros Hf Hnb HQ. apply truns_bind, (runs_getFilter f x); [done|]. apply truns_bind, runs_reads.
  destruct (fReader x (tCalls t)) eqn:Er.
  - apply runs_update, HQ; [|done]. intros z Hz. apply elem_of_app. by left.
  - destruct (cfAsync (fConfig x)) eqn:Ea; [|destruct Hnb as [|Hat]; [congruence|by rewrite Hat in Er]].
    apply truns_ret. specialize (HQ (tEvents t) ltac:(done) ltac:(done)). by destruct t.
Qed.

(** ** Removing logs *)
Definition stays (number : Z) (hash : option Hash) (l : Log) : bool :=
  (lBlockNumber l =? number) && match hash with Some h => negb (bool_decide (lBlockHash l = h)) | None => false end || (lBlockNumber l <? number).
Lemma remove_loop_ok e number hash L0 R rest acc t :
  logs t e = (L0 ++ R) ++ rest -> Forall (fun l => stays number hash l = false) R ->
  (forall l, list.last L0 = Some l -> stays number hash l = true) ->
  runs (remove_loop e number hash (length (L0 ++ R)) acc)
    (fun r t' => unchanged t t' /\ forall x, r = inl x -> x = (acc ++ rev R, length L0)) t.
Proof.
  revert rest acc t. induction R as [|l R IH] using rev_ind; intros rest acc t Hlogs HR HL0.
  - rewrite app_nil_r in *. destruct L0 as [|l L0] using rev_ind.
    + apply truns_ret. split; [done|]. intros ? [= <-]. cbn. by rewrite app_nil_r.
    + clear IHL0. rewrite length_app, Nat.add_1_r. cbn [remove_loop]. apply truns_bind. apply (runs_GetLog e _ l).
      { rewrite Hlogs, <- app_assoc. by apply list_lookup_middle. }
      intros t' [l'|x] Hu Hr; [|by split]. rewrite (Hr l' eq_refl). change (_ || _) with (stays number hash l).
      rewrite (HL0 l) by apply last_snoc. apply truns_ret. split; [done|]. intros ? [= <-]. cbn. by rewrite app_nil_r.
  - rewrite app_assoc in *. rewrite length_app, Nat.add_1_r. cbn [remove_loop]. apply truns_bind. apply Forall_app in HR as [HR Hl].
    apply (runs_GetLog e _ l). { rewrite Hlogs, <- app_assoc. by apply list_lookup_middle. }
    intros t' [l'|x] Hu Hr; [|by split]. rewrite (Hr l' eq_refl). change (_ || _) with (stays number hash l).
    assert (stays number hash l = false) as -> by by inversion Hl.
    eapply truns_mono; [|apply (IH (l :: rest)); [|done|done]].
    + intros r t2 [Hu2 Hr2]. split; [by etrans|]. intros x Hx. rewrite (Hr2 x Hx). by rewrite rev_app_distr, <- app_assoc.
    + destruct Hu as (_ & _ & Hl'). rewrite Hl', Hlogs. by rewrite <- app_assoc.
Qed.
Lemma removeLogs_ok f x number hash L0 R t :
  tFilters t !! f = Some x -> logs t (cfHash (fConfig x)) = L0 ++ R -> Forall (fun l => stays number hash l = false) R ->
  (forall l, list.last L0 = Some l -> stays number hash l = true) ->
  runs (removeLogs f number hash)
    (fun r t' => match r with inl rem => rem = rev R /\ writes_logs (cfHash (fConfig x)) L0 t t' | inr _ => unchanged t t' end) t.
Proof.
  intros Hf Hlogs HR HL0. set (e := cfHash (fConfig x)) in *. unfold removeLogs. apply truns_bind, (runs_getFilter f x); [done|].
  apply truns_bind, runs_LastIndex. intros t1 [n|y] Hu Hn; [|done]. rewrite (Hn n eq_refl). fold e.
  destruct (Z.eqb_spec (Z.of_nat (length (logs t e))) 0) as [E|E].
  - apply truns_ret. assert (L0 = [] /\ R = []) as [-> ->] by (rewrite Hlogs, length_app in E; destruct L0, R; cbn in E; lia || done).
    split; [done|]. destruct Hu as (F & V & L). split_and!; [done|done|by intros ? _|by rewrite L, Hlogs].
  - apply truns_bind. rewrite Nat2Z.id. eapply truns_mono; [|rewrite Hlogs; apply (remove_loop_ok e number hash L0 R []); [|done|done]].
    2: { destruct Hu as (_ & _ & L). by rewrite L, app_nil_r. }
    intros r t2 [Hu2 Hr2]. assert (unchanged t t2) as Hu' by by etrans. destruct r as [[rem k]|y]; [|done].
    specialize (Hr2 _ eq_refl). injection Hr2 as -> ->. apply truns_bind.
    assert (logs t2 e = L0 ++ R) as Hl2 by (destruct Hu' as (_ & _ & L); by rewrite L). destruct Hu' as (F & V & L).
    apply runs_RemoveLogs; [rewrite Hl2, length_app; lia| |].
    + intros t3 y (F3 & V3 & L3). split; [by etrans|]. split; intros z; [by rewrite V3, V|by rewrite L3, L].
    + intros t3 (F3 & V3 & O3 & L3). apply truns_ret. split; [done|]. split_and!; [by etrans|intros z; by rewrite V3, V| |].
      * intros e' He. by rewrite (O3 e' He), L.
      * by rewrite L3, Hl2, take_app_length.
Qed.
End Stored.

Section Follow.
Context {S : Type} `{StoreLaws S} `{FastJson}.
Context (p : Provider) (config : Config).
Context (known : Block -> Prop).
Context (known_inj : forall a b, known a -> known b -> bHash a = bHash b -> a = b).
Context (known_parent : forall a b, known a -> known b -> bParentHash b = bHash a -> bNumber b = bNumber a + 1).
Context (known_u64 : forall b, known b -> is_u64 (bNumber b)).
Context (node_hash : forall k h, match pBlockByHash p k h with inl (Some b) => known b /\ bHash b = h | inl None => False | inr _ => True end).
Context (Hmax : 1 <= MaxBlockBacklog config).
(** The logs of a block that match addresses and topics *)
Context (block_logs : list Address -> list (option (list Hash)) -> Hash -> list Log).
Context (node_logs : forall k q h, fBlockHash q = Some h ->
  match pLogs p k q with inl l => l = block_logs (fAddress q) (fTopics q) h | inr _ => True end).
Context (logs_of_block : forall a ts b, known b ->
  Forall (fun l => lBlockNumber l = bNumber b /\ lBlockHash l = bHash b) (block_logs a ts (bHash b))).
Implicit Types t : Tracker S.
Abbreviation logs t := (logs_of (tStore t)).
Abbreviation value t := (value_of (tStore t)).

(** The logs of a block, and of blocks, that match a filter *)
Definition matching (c : FilterConfig) (b : Block) : list Log := block_logs (cfAddress c) (parseTopic (cfTopics c)) (bHash b).
Definition history (c : FilterConfig) (l : list Block) : list Log := mjoin (matching c <$> l).
Lemma history_app c l k : history c (l ++ k) = history c l ++ history c k.
Proof. unfold history. by rewrite fmap_app, join_app. Qed.
Lemma history_numbers c l : Forall known l -> Forall (fun x => exists b, b ∈ l /\ lBlockNumber x = bNumber b /\ lBlockHash x = bHash b) (history c l).
Proof.
  induction 1 as [|b l Hb Hl IH]; [constructor|]. change (history c (b :: l)) with (matching c b ++ history c l). apply Forall_app. split.
  - eapply Forall_impl; [|by apply logs_of_block]. intros x [Hn Hh]. exists b. split; [apply elem_of_cons; by left|done].
  - eapply Forall_impl; [|exact IH]. intros x (b' & Hb' & Hx). exists b'. split; [apply elem_of_cons; by right|done].
Qed.
Lemma chain_after b l b' : chain (b :: l) -> b' ∈ l -> bNumber b < bNumber b'.
Proof.
  intros Hc (i & Hi)%list_elem_of_lookup. pose proof (chain_numbers (b :: l) (Datatypes.S i) b Hc eq_refl b' Hi). lia.
Qed.

Lemma retry_logs_ok n q h t : (0 < n)%nat -> fBlockHash q = Some h ->
  runs (retry_logs p n q) (fun r t' => unchanged t t' /\ forall l, r = inl l -> l = block_logs (fAddress q) (fTopics q) h) t.
Proof.
  intros Hn Hq. revert t. induction n as [|n IH]; [lia|]. intros t. cbn [retry_logs]. apply truns_bind, runs_ask.
  pose proof (node_logs (tCalls t) q h Hq) as Hl. destruct (pLogs p (tCalls t) q) as [l|e].
  - apply truns_ret. split; [apply unchanged_calls|]. by intros ? [= <-].
  - destruct n as [|n]; [apply runs_fail; split; [apply unchanged_calls|done]|].
    eapply truns_mono; [|apply IH; lia]. intros r t' [Hu Hr]. split; [|done]. etrans; [apply unchanged_calls|exact Hu].
Qed.
(** The entry [e] has the logs [new], and nothing else changed but the values. *)
Definition entry_is (e : bytes) (new : list Log) (t t' : Tracker S) : Prop :=
  frame t t' /\ other_logs e (tStore t) (tStore t') /\ logs t' e = new.
Lemma filter_blocks_ok f x added t : tFilters t !! f = Some x ->
  runs (filter_blocks p f added)
    (fun r t' => match r with
                 | inl new => new = history (fConfig x) added /\ writes_logs (cfHash (fConfig x)) (logs t (cfHash (fConfig x)) ++ new) t t'
                 | inr _ => frame t t' /\ same_values (tStore t) (tStore t') /\ other_logs (cfHash (fConfig x)) (tStore t) (tStore t')
                 end) t.
Proof.
  set (e := cfHash (fConfig x)). revert t. induction added as [|b added IH]; intros t Hf; cbn [filter_blocks].
  - apply truns_ret. split; [done|]. split_and!; [done|done|done|by rewrite app_nil_r].
  - apply truns_bind, (runs_getFilter f x); [done|]. apply truns_bind.
    eapply truns_mono; [|apply (retry_logs_ok 5 _ (bHash b)); [lia|done]]. intros r t1 [(F1 & V1 & L1) Hr].
    destruct r as [l|y]; [|split_and!; [done|done|intros e' _; apply L1]]. specialize (Hr l eq_refl). apply truns_bind, runs_StoreLogs.
    + intros t2 y (F2 & V2 & L2). split_and!; [by etrans|intros z; by rewrite V2, V1|intros z _; by rewrite L2, L1].
    + intros t2 (F2 & V2 & O2 & L2). fold e in O2, L2. assert (frame t t2) as F by by etrans. apply truns_bind.
      eapply truns_mono; [|apply IH; by rewrite (fr_filters _ _ F)]. fold e. intros [rest|y] t3.
      * intros [-> (F3 & V3 & O3 & L3)]. apply truns_ret. split; [by subst l|]. split_and!; [by etrans|intros z; by rewrite V3, V2, V1| |].
        -- intros e' He. by rewrite (O3 e' He), (O2 e' He), L1.
        -- rewrite L3, L2, L1. by rewrite app_assoc.
      * intros (F3 & V3 & O3). split_and!; [by etrans|intros z; by rewrite V3, V2, V1|]. intros e' He. by rewrite (O3 e' He), (O2 e' He), L1.
Qed.
Definition last_text (b : Block) : bytes := EncodeToString (BlockMarshalJSON (with_difficulty b)).
Definition below (n : Z) (l : list Log) : Prop := Forall (fun x => lBlockNumber x < n) l.
(** What [doFilter] does: the logs of the removed blocks go, those of the added
    blocks come. *)
Lemma doFilter_ok f x L0 added removed b t : tFilters t !! f = Some x -> list.last added = Some b ->
  Forall known removed -> chain removed -> (forall b, head removed = Some b -> below (bNumber b) L0) ->
  logs t (cfHash (fConfig x)) = L0 ++ history (fConfig x) removed ->
  runs (doFilter p f added removed)
    (fun r t' => match r with
                 | inl ev => ev = mkTrackerEvent (history (fConfig x) added) (history (fConfig x) removed) /\
                     entry_is (cfHash (fConfig x)) (L0 ++ history (fConfig x) added) t t' /\ value t' (lastBlockKey (fConfig x)) = last_text b /\
                     forall k, k <> lastBlockKey (fConfig x) -> value t' k = value t k
                 | inr _ => frame t t' /\ other_logs (cfHash (fConfig x)) (tStore t) (tStore t')
                 end) t.
Proof.
  intros Hf Hlast Hk Hc HL0 Hlogs. set (c := fConfig x) in *. set (e := cfHash c) in *. unfold doFilter. apply truns_bind.
  assert (runs (match removed with [] => mret [] | pivot :: _ => logs ← removeLogs f (bNumber pivot) (Some (bHash pivot)); mret (rev logs) end)
    (fun r t' => match r with inl l => l = history c removed /\ writes_logs e L0 t t' | inr _ => unchanged t t' end) t) as Hrem.
  { destruct removed as [|pivot removed]; [apply truns_ret; split; [done|]; split_and!; try done; by rewrite Hlogs, app_nil_r|].
    apply truns_bind. eapply truns_mono; [|apply (removeLogs_ok f x _ _ L0 (history c (pivot :: removed))); [done|done| |]].
    - intros [l|y] t1; [|done]. intros [-> Hw]. apply truns_ret. by rewrite rev_involutive.
    - eapply Forall_impl; [|by apply history_numbers]. intros l (b' & Hb' & Hn & Hh). unfold stays. rewrite Hn.
      apply elem_of_cons in Hb' as [-> |Hb'].
      + rewrite Z.eqb_refl, Hh, bool_decide_true by done. cbn. apply Z.ltb_irrefl.
      + pose proof (chain_after pivot removed b' Hc Hb'). zbool; lia.
    - intros l Hl. specialize (HL0 pivot eq_refl). unfold below in HL0. rewrite list.Forall_forall in HL0.
      specialize (HL0 l (last_Some_elem_of _ _ Hl)). unfold stays. apply orb_true_intro. right. by apply Z.ltb_lt. }
  eapply truns_mono; [|exact Hrem]. intros [l|y] t1; [|intros (F & V & L); split; [done|intros ? _; apply L]].
  intros [-> (F1 & V1 & O1 & L1)]. apply truns_bind. eapply truns_mono; [|apply (filter_blocks_ok f x); by rewrite (fr_filters _ _ F1)].
  fold c e. intros [l|y] t2; [|intros (F2 & V2 & O2); split; [by etrans|]; intros e' He; by rewrite (O2 e' He), (O1 e' He)].
  intros [-> (F2 & V2 & O2 & L2)]. rewrite Hlast. apply truns_bind. assert (frame t t2) as F by by etrans.
  apply truns_bind, (runs_getFilter f x); [by rewrite (fr_filters _ _ F)|]. fold c. apply runs_Set.
  - intros t3 z (F3 & V3 & L3). split; [by etrans|]. intros e' He. by rewrite L3, (O2 e' He), (O1 e' He).
  - intros t3 (F3 & L3 & V3 & Vo3). apply truns_ret. split; [done|]. split; [split_and!; [by etrans| |]|split; [done|]].
    + intros e' He. by rewrite L3, (O2 e' He), (O1 e' He).
    + by rewrite L3, L2, L1.
    + intros k Hkey. by rewrite (Vo3 k Hkey), V2, V1.
Qed.
(** ** All the filters *)
(** Filters have entries of their own. *)
Definition distinct (fs : list Filter) : Prop :=
  forall i j x y, fs !! i = Some x -> fs !! j = Some y -> cfHash (fConfig x) = cfHash (fConfig y) -> i = j.
(** The event a filter gets *)
Definition change (c : FilterConfig) (added removed : list Block) : Event := mkTrackerEvent (history c added) (history c removed).
Lemma notify_ok fs (L0 : nat -> list Log) added removed b t :
  NoDup fs -> distinct (tFilters t) -> (forall f x, tFilters t !! f = Some x -> nonblocking x) -> list.last added = Some b -> Forall known removed -> chain removed ->
  (forall f, f ∈ fs -> is_Some (tFilters t !! f)) ->
  (forall f x, f ∈ fs -> tFilters t !! f = Some x -> fSynced x = true ->
     logs t (cfHash (fConfig x)) = L0 f ++ history (fConfig x) removed /\ (forall b, head removed = Some b -> below (bNumber b) (L0 f))) ->
  runs (notify p fs added removed)
    (fun r t' => tBlocks t' = tBlocks t /\ tFilters t' = tFilters t /\
       forall u, r = inl u ->
         (forall f x, f ∈ fs -> tFilters t !! f = Some x -> fSynced x = true ->
            logs t' (cfHash (fConfig x)) = L0 f ++ history (fConfig x) added /\ (attended x -> (f, change (fConfig x) added removed) ∈ tEvents t')) /\
         (forall e, (forall f x, f ∈ fs -> tFilters t !! f = Some x -> fSynced x = true -> cfHash (fConfig x) <> e) -> logs t' e = logs t e) /\
         (forall z, z ∈ tEvents t -> z ∈ tEvents t')) t.
Proof.
  intros Hnd Hdis Hnb Hlast Hk Hc Hsome Hinv. revert t Hdis Hnb Hsome Hinv.
  induction Hnd as [|f fs Hnf Hnd IH]; intros t Hdis Hnb Hsome Hinv; cbn [notify].
  { apply truns_ret. split_and!; [done|done|]. intros ? _. split_and!; [by intros ? ? ?%elem_of_nil|done|done]. }
  destruct (Hsome f ltac:(apply elem_of_cons; by left)) as [x Hx].
  assert (forall g, g ∈ fs -> g ∈ f :: fs) as Hin by (intros; apply elem_of_cons; by right).
  apply truns_bind. apply truns_bind, (runs_getFilter f x); [done|]. apply truns_ret, truns_bind.
  destruct (fSynced x) eqn:Hsync.
  - destruct (Hinv f x ltac:(apply elem_of_cons; by left) Hx Hsync) as [Hl0 Hb0]. set (e := cfHash (fConfig x)) in *.
    apply truns_bind. eapply truns_mono; [|apply (doFilter_ok f x (L0 f) added removed b); done].
    fold e. intros [ev|y] t1; [|intros [F _]; split_and!; [by apply fr_blocks|by apply fr_filters|done]].
    intros (-> & (F1 & O1 & L1) & _). apply (runs_emit f x); [by rewrite (fr_filters _ _ F1)|by apply (Hnb f)|].
    intros evs Hevs Hatt. set (t2 := set_tEvents evs t1).
    assert (tFilters t2 = tFilters t) as Ef by by apply (fr_filters _ _ F1).
    assert (tBlocks t2 = tBlocks t) as Eb by by apply (fr_blocks _ _ F1).
    assert (forall g y, g ∈ fs -> tFilters t !! g = Some y -> cfHash (fConfig y) <> e) as Hother.
    { intros g y Hg Hy E. assert (g = f) as -> by (by apply (Hdis g f y x)). done. }
    eapply truns_mono; [|apply IH].
    + intros r t3 (B3 & F3 & H3). split_and!; [by rewrite B3|by rewrite F3|]. intros u Hu. destruct (H3 u Hu) as (H31 & H32 & H33).
      rewrite Ef in H31, H32. split_and!.
      * intros g y [-> |Hg]%elem_of_cons Hy Hsy.
        -- rewrite Hx in Hy. injection Hy as <-. split.
           ++ fold e. rewrite H32; [exact L1|]. intros g y Hg Hy _. by apply (Hother g).
           ++ intros Hat. apply H33. unfold t2. cbn. rewrite (Hatt (Hat _)). apply elem_of_app. right. by apply list_elem_of_singleton.
        -- by apply H31.
      * intros e' He'. rewrite H32 by eauto. apply O1. intros ->. by apply (He' f x ltac:(apply elem_of_cons; by left) Hx Hsync).
      * intros z Hz. apply H33. unfold t2. cbn. apply Hevs. by rewrite (fr_events _ _ F1).
    + by rewrite Ef.
    + by rewrite Ef.
    + intros g Hg. rewrite Ef. by apply Hsome, Hin.
    + intros g y Hg Hy Hsy. rewrite Ef in Hy. change (logs t2) with (logs t1). rewrite (O1 _ (Hother g y Hg Hy)). apply Hinv; auto.
  - apply truns_ret. eapply truns_mono; [|apply IH; auto]. intros r t3 (B3 & F3 & H3). split_and!; [done|done|]. intros u Hu.
    destruct (H3 u Hu) as (H31 & H32 & H33). split_and!; [|by intros; apply H32; eauto|done].
    intros g y [-> |Hg]%elem_of_cons Hy Hsy; [rewrite Hx in Hy; injection Hy as <-; congruence|by apply H31].
Qed.

(** ** Refinement
    The filter [f] has seen the blocks [h], the last of which are the window, and
    stored their logs behind the older ones, [pre]. *)
Record follows (f : nat) (h : list Block) (pre : list Log) (t : Tracker S) : Prop := {
  fo_filter : exists x, tFilters t !! f = Some x /\ fSynced x = true /\ logs t (cfHash (fConfig x)) = pre ++ history (fConfig x) h;
  fo_window : exists older, h = older ++ tBlocks t;
  fo_chain : chain h; fo_known : Forall known h; fo_some : tBlocks t <> [];
  fo_below : forall b, head h = Some b -> below (bNumber b) pre;
}.
Lemma handleReconcile_ok block (hs : nat -> list Block) (pre : nat -> list Log) t :
  window_ok config known (tBlocks t) -> tBlocks t <> [] -> known block -> distinct (tFilters t) ->
  (forall f x, tFilters t !! f = Some x -> nonblocking x) ->
  (forall f x, tFilters t !! f = Some x -> fSynced x = true -> follows f (hs f) (pre f) t) ->
  runs (handleReconcile p config block)
    (fun r t' => window_ok config known (tBlocks t') /\ tFilters t' = tFilters t /\
       forall u, r = inl u ->
         tBlocks t' = tBlocks t /\ block ∈ tBlocks t /\ (forall f x, tFilters t !! f = Some x -> fSynced x = true -> follows f (hs f) (pre f) t') \/
         exists common added removed, tBlocks t = common ++ removed /\ common <> [] /\ tBlocks t' = lastn (Z.to_nat (MaxBlockBacklog config)) (common ++ added) /\
           list.last added = Some block /\
           forall f x, tFilters t !! f = Some x -> fSynced x = true ->
             exists h0, hs f = h0 ++ removed /\ follows f (h0 ++ added) (pre f) t' /\ (attended x -> (f, change (fConfig x) added removed) ∈ tEvents t')) t.
Proof.
  intros Hw Hne Hb Hdis Hnb Hfol. unfold handleReconcile. apply truns_bind.
  eapply truns_mono; [|by apply (handleBlockEvent_ok p config known)].
  intros r t1 [k Hr]. assert (forall t', frame t t' -> same_logs (tStore t) (tStore t') -> forall f x, tFilters t !! f = Some x -> fSynced x = true -> follows f (hs f) (pre f) t') as Hkeep.
  { intros t' F L f x Hx Hs. destruct (Hfol f x Hx Hs) as [(y & Hy & Hsy & Hl) (o & Ho) ? ? Hn ?]. split; [|exists o; by rewrite (fr_blocks _ _ F)|done|done|by rewrite (fr_blocks _ _ F)|done].
    exists y. rewrite (fr_filters _ _ F), L. done. }
  destruct r as [[ev|]|e].
  2: { destruct Hr as [-> Hin]. apply truns_ret. split_and!; [done|done|]. intros u _. left. split_and!; [done|done|]. by apply Hkeep. }
  2: { subst t1. split_and!; [done|done|done]. }
  destruct ev as [added removed]. cbn [beAdded beRemoved] in *. destruct Hr as (common & Hsplit & Hc & Hka & Hlast & Hcom & ->).
  destruct Hw as [Hwc Hwk Hwl]. assert (common <> []) as Hcne by (intros ->; by apply Hne, Hcom).
  assert (Forall known (common ++ added)) as Hkca by (rewrite Hsplit in Hwk; apply Forall_app in Hwk as [? _]; by apply Forall_app).
  apply truns_bind, runs_update, truns_bind, runs_reads. set (t2 := set_tBlockEvents _ _).
  assert (forall f x, tFilters t !! f = Some x -> fSynced x = true -> exists older, hs f = older ++ common ++ removed) as Hold.
  { intros f x Hx Hs. destruct (fo_window _ _ _ _ (Hfol f x Hx Hs)) as [o Ho]. exists o. by rewrite Ho, Hsplit. }
  set (h0 f := take (length (hs f) - length removed) (hs f)).
  assert (forall f x, tFilters t !! f = Some x -> fSynced x = true -> hs f = h0 f ++ removed /\ exists older, h0 f = older ++ common) as Hh0.
  { intros f x Hx Hs. destruct (Hold f x Hx Hs) as [o Ho]. assert (h0 f = o ++ common) as E.
    { unfold h0. rewrite Ho, !length_app. replace (length o + (length common + length removed) - length removed)%nat with (length (o ++ common)) by (rewrite length_app; lia).
      by rewrite app_assoc, take_app_length. }
    rewrite E. split; [by rewrite Ho, app_assoc|by exists o]. }
  eapply truns_mono; [|apply (notify_ok (seq 0 (length (tFilters t2))) (fun f => pre f ++ history (match tFilters t !! f with Some x => fConfig x | None => mkFilterConfig [] [] 0 [] false end) (h0 f)) added removed block)].
  - intros r t3 (B3 & F3 & H3). assert (tBlocks t3 = lastn (Z.to_nat (MaxBlockBacklog config)) (common ++ added)) as Eb by by rewrite B3.
    split_and!; [|by rewrite F3|].
    { rewrite Eb. split; [by apply chain_drop|by apply Forall_drop|rewrite length_lastn; lia]. }
    intros u Hu. right. exists common, added, removed. split_and!; [done|done|done|done|]. intros f x Hx Hs.
    destruct (H3 u Hu) as (H31 & _ & _). destruct (H31 f x) as [Hl Hev]; [apply elem_of_seq; apply lookup_lt_Some in Hx; cbn; lia|done|done|].
    destruct (Hh0 f x Hx Hs) as [EH [o Eo]]. destruct (Hfol f x Hx Hs) as [_ _ Hch Hkh _ Hbe]. exists (h0 f). split_and!; [done| |done]. split.
    + exists x. rewrite F3. split_and!; [done|done|]. rewrite Hl, Hx, history_app. by rewrite app_assoc.
    + rewrite Eb, Eo. exists (o ++ take (length (common ++ added) - Z.to_nat (MaxBlockBacklog config)) (common ++ added)).
      unfold lastn. rewrite <- !app_assoc. by rewrite take_drop.
    + rewrite Eo, <- app_assoc. apply chain_append. rewrite EH, Eo, <- app_assoc in Hch. apply chain_append in Hch as (Ho & _ & Hj).
      split_and!; [done|done|]. intros a b Ha Hb'. apply Hj; [done|]. destruct common; [done|]. exact Hb'.
    + apply Forall_app. split; [|done]. rewrite EH in Hkh. by apply Forall_app in Hkh as [? _].
    + rewrite Eb. intros E. apply (f_equal length) in E. rewrite length_lastn, length_app in E. destruct common; [done|]. cbn in E. lia.
    + intros b Hbh. apply Hbe. rewrite EH. destruct (h0 f) as [|z l] eqn:Ez; [symmetry in Eo; by apply app_nil in Eo as [_ ?]|]. exact Hbh.
  - apply NoDup_seq.
  - done.
  - done.
  - done.
  - rewrite Hsplit in Hwk. by apply Forall_app in Hwk as [_ ?].
  - rewrite Hsplit in Hwc. by apply chain_append in Hwc as (_ & ? & _).
  - intros f Hf. apply elem_of_seq in Hf. apply lookup_lt_is_Some. cbn in *. lia.
  - intros f x _ Hx Hs. cbn in Hx. rewrite Hx. destruct (Hh0 f x Hx Hs) as [EH [o Eo]]. destruct (Hfol f x Hx Hs) as [(y & Hy & _ & Hl) _ Hch Hkh _ Hbe].
    rewrite Hx in Hy. injection Hy as <-. split.
    + cbn. rewrite Hl, EH, history_app. by rewrite app_assoc.
    + intros b Hbr. unfold below. apply Forall_app. rewrite EH in Hch, Hkh, Hbe.
      assert (forall z, z ∈ h0 f -> bNumber z < bNumber b) as Hlt.
      { intros z Hz. apply list_elem_of_lookup in Hz as (i & Hi). assert (i < length (h0 f))%nat by by eapply lookup_lt_Some.
        destruct (h0 f ++ removed) as [|a0 l0] eqn:E0; [destruct (h0 f); done|].
        assert ((a0 :: l0) !! i = Some z) as Hi' by (rewrite <- E0; by rewrite lookup_app_l by done).
        assert ((a0 :: l0) !! length (h0 f) = Some b) as Hb' by (rewrite <- E0, lookup_app_r, Nat.sub_diag by lia; destruct removed; done).
        rewrite (chain_numbers _ i a0 Hch eq_refl z Hi'), (chain_numbers _ _ a0 Hch eq_refl b Hb'). lia. }
      split.
      * destruct (h0 f) as [|z l] eqn:Ez; [symmetry in Eo; by apply app_nil in Eo as [_ ?]|]. specialize (Hbe z eq_refl). eapply Forall_impl; [|exact Hbe].
        cbn. intros q Hq. specialize (Hlt z ltac:(apply elem_of_cons; by left)). lia.
      * eapply Forall_impl; [|apply history_numbers; by apply Forall_app in Hkh as [? _]]. cbn. intros q (z & Hz & -> & _). by apply Hlt.
Qed.
End Follow.
