(* ===== verification/TrackerSync.v ===== *)
(** * Synchronising a filter

    On a chain that stands still, [Sync] brings the logs of a filter to the head
    of the chain, from nothing or from the block it had reached, on this chain or
    on a branch that is not too long. *)

From stdpp Require Import strings.
From S2P Require Import Prelude Words Text AbiType AbiCodec Structs StructsFacts TrackerStore Tracker TrackerFacts TrackerLogs.

(** ** Ranges of a list *)
Definition range {A} (a b : Z) (l : list A) : list A := take (Z.to_nat (b - a + 1)) (drop (Z.to_nat a) l).
Lemma range_split {A} a b c (l : list A) : 0 <= a <= b + 1 -> b <= c -> range a c l = range a b l ++ range (b + 1) c l.
Proof.
  intros. unfold range. replace (Z.to_nat (b + 1)) with (Z.to_nat a + Z.to_nat (b - a + 1))%nat by lia. rewrite <- drop_drop.
  replace (Z.to_nat (c - a + 1)) with (Z.to_nat (b - a + 1) + Z.to_nat (c - (b + 1) + 1))%nat by lia. by rewrite take_take_drop.
Qed.
Lemma range_end {A} a (l : list A) : 0 <= a -> range a (Z.of_nat (length l) - 1) l = drop (Z.to_nat a) l.
Proof. intros. unfold range. apply take_ge. rewrite length_drop. lia. Qed.
Lemma Len64_half b : 0 < b -> Len64 (b / 2) = Len64 b - 1.
Proof.
  intros Hb. unfold Len64. destruct (Z.eqb_spec b 0); [lia|]. destruct (Z.eqb_spec (b / 2) 0) as [E|E].
  - assert (b = 1) as -> by dlia. done.
  - rewrite (Z.div_mod b 2) at 2 by lia. pose proof (Z.mod_pos_bound b 2 ltac:(lia)).
    assert (0 < b / 2) by (pose proof (Z.div_pos b 2); lia).
    assert (b mod 2 = 0 \/ b mod 2 = 1) as [-> | ->] by lia.
    + rewrite Z.add_0_r, Z.log2_double by done. lia.
    + rewrite Z.log2_succ_double by done. lia.
Qed.
Lemma Len64_range b : 0 <= b < 2 ^ 62 -> 0 <= Len64 b <= 62.
Proof.
  intros Hb. unfold Len64. destruct (Z.eqb_spec b 0); [lia|]. pose proof (Z.log2_nonneg b).
  assert (Z.log2 b < 62) by (apply Z.log2_lt_pow2; lia). lia.
Qed.

Section Sync.
Context {S : Type} `{StoreLaws S} `{FastJsonLaws}.
Context (p : Provider) (es : Etherscan) (config : Config) (cancelled : nat -> bool) (arrivals : nat -> list Block).
Context (known : Block -> Prop).
Context (known_inj : forall a b, known a -> known b -> bHash a = bHash b -> a = b).
Context (known_ok : forall b, known b -> block_ok (with_difficulty b)).
Context (Hmax : 1 <= MaxBlockBacklog config < 2 ^ 62) (Hbatch : 0 <= BatchSize config < 2 ^ 62).
Context (block_logs : list Address -> list (option (list Hash)) -> Hash -> list Log).
Context (logs_of_block : forall a ts b, known b ->
  Forall (fun l => lBlockNumber l = bNumber b /\ lBlockHash l = bHash b) (block_logs a ts (bHash b))).
(** The chain, which stands still: nobody else handles a block, the node answers
    with the blocks of the chain by number, with any known block by hash, and with
    the logs of a block or of a range; it may refuse a range of several blocks. *)
Context (C : list Block) (HC : chain C) (HCk : Forall known C) (HC0 : forall b, head C = Some b -> bNumber b = 0) (HCsize : Z.of_nat (length C) < 2 ^ 62).
Context (quiet : forall k, arrivals k = []) (not_cancelled : forall k, cancelled k = false).
Context (node_number : forall k n b, C !! Z.to_nat n = Some b -> 0 <= n -> pBlockByNumber p k n = inl (Some b)).
Context (node_parent : forall k b, known b -> 0 < bNumber b -> exists a, pBlockByHash p k (bParentHash b) = inl (Some a) /\ known a /\ bHash a = bParentHash b).
Context (node_block : forall k q h, fBlockHash q = Some h -> pLogs p k q = inl (block_logs (fAddress q) (fTopics q) h)).
Context (node_range : forall k q a b, fBlockHash q = None -> fFrom q = Some a -> fTo q = Some b -> 0 <= a <= b -> b < Z.of_nat (length C) ->
  pLogs p k q = inl (mjoin ((fun x => block_logs (fAddress q) (fTopics q) (bHash x)) <$> range a b C)) \/ pLogs p k q = inr tooMuchData /\ a < b).
Implicit Types t : Tracker S.
Abbreviation logs t := (logs_of (tStore t)).
Abbreviation value t := (value_of (tStore t)).
Abbreviation history := (history block_logs).

(** Only the store can fail. *)
Definition store_only {A} (r : A + tracker_error) : Prop := forall e, r = inr e -> exists s, e = EStore s.
(** What a synchronisation keeps *)
Record kept (t t' : Tracker S) : Prop := {
  k_blocks : tBlocks t' = tBlocks t; k_filters : tFilters t' = tFilters t; k_pre : tPreSynced t' = tPreSynced t;
}.
#[export] Instance kept_preorder : PreOrder kept.
Proof. split; [by split|]. intros a b c [] []. split; congruence. Qed.
Lemma frame_kept t t' : frame t t' -> kept t t'.
Proof. intros []. by split. Qed.

Lemma chain_index i b : C !! i = Some b -> bNumber b = Z.of_nat i.
Proof.
  intros Hi. destruct (C !! O) as [z|] eqn:Hz; [|destruct C; done]. rewrite (chain_numbers C i z HC Hz b Hi), (HC0 z); [lia|]. by destruct C.
Qed.
Lemma chain_lookup n : 0 <= n < Z.of_nat (length C) -> exists b, C !! Z.to_nat n = Some b /\ bNumber b = n /\ known b.
Proof.
  intros Hn. destruct (lookup_lt_is_Some_2 C (Z.to_nat n) ltac:(lia)) as [b Hb]. exists b. split_and!; [done| |].
  - rewrite (chain_index _ _ Hb). lia.
  - rewrite list.Forall_forall in HCk. apply HCk. by apply list_elem_of_lookup_2 in Hb.
Qed.
Lemma int_of n : 0 <= n < Z.of_nat (length C) -> to_int64 n = n.
Proof. intros. apply to_int64_nowrap. lia. Qed.
Lemma history_range c a b k q : q = SetToUint64 b (SetFromUint64 a (getFilterSearch c)) -> 0 <= a <= b -> b < Z.of_nat (length C) ->
  pLogs p k q = inl (history c (range a b C)) \/ pLogs p k q = inr tooMuchData /\ a < b.
Proof.
  intros -> Hab Hb. apply (node_range k (SetToUint64 b (SetFromUint64 a (getFilterSearch c))) a b); cbn; rewrite ?int_of by lia; done.
Qed.
Lemma storeLast_ok f x b Q t : tFilters t !! f = Some x ->
  (forall t' s, frame t t' -> Q (inr (EStore s)) t') ->
  (forall t', writes_value (lastBlockKey (fConfig x)) (last_text b) t t' -> Q (inl ()) t') -> runs (storeLastBlock f b) Q t.
Proof.
  intros Hf HE HQ. apply truns_bind, (runs_getFilter f x); [done|].
  destruct (law_Set (lastBlockKey (fConfig x)) (last_text b) (tStore t)) as (r & s & E & Hr). apply (runs_stored _ r s); [exact E|].
  destruct Hr as [(y & -> & Hv & Hl)|(-> & Hl & Hv & Ho)]; [by apply HE|]. apply HQ. by split_and!.
Qed.
Lemma StoreLogs_ok e l Q t :
  (forall t' s, frame t t' -> Q (inr (EStore s)) t') -> (forall t', writes_logs e (logs t e ++ l) t t' -> Q (inl ()) t') -> runs (stored (StoreLogs e l)) Q t.
Proof.
  intros HE HQ. destruct (law_StoreLogs e l (tStore t)) as (r & s & E & Hr). apply (runs_stored _ r s); [exact E|].
  destruct Hr as [(y & -> & Hv & Hl)|(-> & Hv & Ho & Hl)]; [by apply HE|]. apply HQ. by split_and!.
Qed.

(** ** The bulk synchronisation fetches every block of its range once, in order. *)
Lemma batch_loop_ok fuel f x to additive batch i t :
  tFilters t !! f = Some x -> nonblocking x -> 0 <= i <= to -> to < Z.of_nat (length C) -> 0 <= batch <= BatchSize config ->
  65 * (to - i) + Len64 batch + 1 <= Z.of_nat fuel ->
  runs (batch_loop p config cancelled fuel f (getFilterSearch (fConfig x)) to additive batch i)
    (fun r t' => kept t t' /\ store_only r /\ forall u, r = inl u ->
       logs t' (cfHash (fConfig x)) = logs t (cfHash (fConfig x)) ++ history (fConfig x) (range i to C)) t.
Proof.
  set (c := fConfig x). set (e := cfHash c). revert batch i t. induction fuel as [|fuel IH]; intros batch i t Hf Hfree Hi Hto Hb Hfuel.
  { pose proof (Len64_range batch ltac:(lia)). lia. }
  cbn [batch_loop]. apply truns_bind, runs_ask. set (t1 := set_tCalls _ t).
  assert (add64 i batch = i + batch) as Ead by (apply add64_nowrap; unfold is_u64; lia). rewrite Ead. set (dst := Z.min to (i + batch)).
  assert (i <= dst <= to) as Hdst by lia.
  destruct (history_range c i dst (tCalls t) _ eq_refl ltac:(lia) ltac:(lia)) as [-> |[-> Hlt]].
  2: { cbn [tooMuchDataRequestedError]. pose proof (Len64_half batch ltac:(lia)).
       eapply truns_mono; [|apply (IH (batch / 2) i t1); [done|done|done|done|dlia|lia]]. intros r t' (K & H'). split; [|done]. etrans; [|exact K]. by split. }
  apply truns_bind, (runs_getFilter f x); [done|]. fold c e. apply truns_bind, StoreLogs_ok.
  { intros t2 s F. split_and!; [by apply frame_kept; etrans; [apply frame_calls|exact F]|intros ? [= <-]; eauto|done]. }
  intros t2 (F2 & _ & O2 & L2). apply truns_bind, (runs_emit f x); [by rewrite (fr_filters _ _ F2)|done|]. intros evs _ _. set (t3 := set_tEvents evs t2). apply truns_bind.
  destruct (chain_lookup dst ltac:(lia)) as (b & Hbd & Hnb & Hkb). rewrite (int_of dst) by lia.
  apply truns_bind, runs_ask. rewrite (node_number _ dst b Hbd) by lia. apply truns_ret. cbn [deref]. apply truns_bind, truns_ret, truns_bind.
  assert (kept t t3) as K3 by (destruct F2; by split).
  assert (tFilters t3 !! f = Some x) as Hf3 by by rewrite (k_filters _ _ K3). apply (storeLast_ok f x); [exact Hf3| |].
  { intros t4 s F. split_and!; [|intros ? [= <-]; eauto|done]. etrans; [exact K3|]. apply frame_kept in F. etrans; [|exact F]. by split. }
  intros t4 (F4 & L4 & _). assert (kept t t4) as K4 by (etrans; [exact K3|]; apply frame_kept in F4; etrans; [|exact F4]; by split).
  assert (logs t4 e = logs t e ++ history c (range i dst C)) as Elogs by (rewrite L4; exact L2).
  apply truns_bind, runs_reads. rewrite not_cancelled. rewrite (add64_nowrap (i + batch) 1) by (unfold is_u64; lia).
  set (batch' := if batch <? BatchSize config then _ else _).
  assert (0 <= batch' <= BatchSize config) as Hb' by (unfold batch'; pose proof (add64_range batch additive); unfold is_u64 in *; destruct (batch <? _); lia).
  destruct (Z.leb_spec (i + batch + 1) to) as [Hle|Hgt].
  - pose proof (Len64_range batch ltac:(lia)). pose proof (Len64_range batch' ltac:(lia)).
    eapply truns_mono; [|apply (IH batch' (i + batch + 1) t4); [by rewrite (k_filters _ _ K4)|done|lia|done|done|lia]].
    intros r t5 (K5 & Hs & Hr). split_and!; [by etrans|done|]. intros u Hu. fold c e in Hr. rewrite (Hr u Hu), Elogs, <- app_assoc.
    assert (dst = i + batch) as Ed by lia. rewrite <- history_app. rewrite Ed, <- range_split by lia. done.
  - apply truns_ret. split_and!; [done|by intros ? [=]|]. intros u _. rewrite Elogs. by replace dst with to by lia.
Qed.
Lemma filter_sync f x added t : tFilters t !! f = Some x ->
  runs (filter_blocks p f added)
    (fun r t' => frame t t' /\ store_only r /\ forall new, r = inl new -> logs t' (cfHash (fConfig x)) = logs t (cfHash (fConfig x)) ++ history (fConfig x) added) t.
Proof.
  set (e := cfHash (fConfig x)). revert t. induction added as [|b added IH]; intros t Hf; cbn [filter_blocks].
  - apply truns_ret. split_and!; [done|by intros ? [=]|]. intros. by rewrite app_nil_r.
  - apply truns_bind, (runs_getFilter f x); [done|]. apply truns_bind. cbn [retry_logs]. apply truns_bind, runs_ask.
    rewrite (node_block _ _ (bHash b)) by done. apply truns_ret, truns_bind, StoreLogs_ok.
    + intros t2 s F. split_and!; [etrans; [apply frame_calls|exact F]|intros ? [= <-]; eauto|done].
    + intros t2 (F2 & _ & _ & L2). assert (frame t t2) as F by (etrans; [apply frame_calls|exact F2]). apply truns_bind.
      eapply truns_mono; [|apply IH; by rewrite (fr_filters _ _ F)]. intros [rest|y] t3 (F3 & Hs & Hr).
      * apply truns_ret. split_and!; [by etrans|by intros ? [=]|]. intros new _. fold e in Hr. rewrite (Hr rest eq_refl). fold e in L2. rewrite L2, <- app_assoc. done.
      * split_and!; [by etrans| |done]. intros ? [= <-]. by apply Hs.
Qed.
Lemma doFilter_sync f x added b t : tFilters t !! f = Some x -> list.last added = Some b ->
  runs (doFilter p f added [])
    (fun r t' => kept t t' /\ store_only r /\ forall ev, r = inl ev -> logs t' (cfHash (fConfig x)) = logs t (cfHash (fConfig x)) ++ history (fConfig x) added) t.
Proof.
  intros Hf Hlast. unfold doFilter. apply truns_bind, truns_ret, truns_bind. eapply truns_mono; [|by apply (filter_sync f x)].
  intros [new|y] t1 (F1 & Hs & Hr); [|split_and!; [by apply frame_kept|intros ? [= <-]; by apply Hs|done]].
  rewrite Hlast. apply truns_bind, (storeLast_ok f x); [by rewrite (fr_filters _ _ F1)| |].
  - intros t2 s F. split_and!; [by apply frame_kept; etrans|intros ? [= <-]; eauto|done].
  - intros t2 (F2 & L2 & _). apply truns_ret. split_and!; [by apply frame_kept; etrans|by intros ? [=]|]. intros ev _. by rewrite L2, (Hr new eq_refl).
Qed.
(** ** From an origin to the head *)
Definition enough_fuel (fuel : nat) : Prop := 65 * Z.of_nat (length C) + 65 <= Z.of_nat fuel.
Lemma interfere_quiet (Q : () + tracker_error -> Tracker S -> Prop) t : Q (inl ()) t -> runs (interfere p config arrivals) Q t.
Proof. intros HQ. apply truns_bind, runs_reads. by rewrite quiet. Qed.
Lemma last_number : C <> [] -> exists b, list.last C = Some b /\ bNumber b = Z.of_nat (length C) - 1.
Proof.
  intros Hne. destruct (list.last C) as [b|] eqn:E; [|by apply last_None in E]. exists b. split; [done|].
  rewrite last_lookup in E. rewrite (chain_index _ _ E). apply lookup_lt_Some in E. lia.
Qed.
Lemma bulk_loop_ok fuel f x origin target t : tFilters t !! f = Some x -> nonblocking x -> C <> [] -> list.last (tBlocks t) = list.last C ->
  target = Z.of_nat (length C) - 1 -> 0 <= origin <= target -> MaxBlockBacklog config < target - origin + 1 -> enough_fuel fuel ->
  runs (bulk_loop p config cancelled arrivals fuel f origin target)
    (fun r t' => kept t t' /\ store_only r /\ forall o, r = inl o -> o = (target - MaxBlockBacklog config + 1, target) /\
       logs t' (cfHash (fConfig x)) = logs t (cfHash (fConfig x)) ++ history (fConfig x) (range origin (target - MaxBlockBacklog config) C)) t.
Proof.
  intros Hf Hfree Hne Hlast Ht Ho Hstep Hfuel. destruct (last_number Hne) as (b & Hb & Hn). unfold enough_fuel in Hfuel.
  destruct fuel as [|[|fuel]]; [lia|lia|]. cbn [bulk_loop]. destruct (Z.ltb_spec target origin); [lia|].
  assert (is_u64 target /\ is_u64 origin) as [? ?] by (unfold is_u64; lia).
  assert (forall o, 0 <= o <= target -> add64 (sub64 target o) 1 = target - o + 1) as Ealign.
  { intros o Ho'. rewrite sub64_nowrap, add64_nowrap by (unfold is_u64 in *; lia). done. }
  rewrite Ealign by lia. destruct (Z.leb_spec (target - origin + 1) (MaxBlockBacklog config)); [lia|].
  rewrite (sub64_nowrap target (MaxBlockBacklog config)) by (unfold is_u64 in *; lia).
  apply truns_bind. unfold syncBatch. apply truns_bind, (runs_getFilter f x); [done|].
  pose proof (Len64_range (BatchSize config) ltac:(lia)).
  eapply truns_mono; [|apply (batch_loop_ok _ f x); [done|done|lia|lia|lia|lia]]. intros [u|y] t1 (K1 & Hs & Hr).
  2: { split_and!; [done|intros ? [= <-]; by apply Hs|done]. }
  apply truns_bind, interfere_quiet. apply truns_bind, runs_reads. rewrite (k_blocks _ _ K1), Hlast, Hb, Hn, <- Ht.
  rewrite add64_nowrap by (unfold is_u64 in *; lia). destruct (Z.ltb_spec target (target - MaxBlockBacklog config + 1)); [lia|].
  rewrite Ealign by lia. destruct (Z.leb_spec (target - (target - MaxBlockBacklog config + 1) + 1) (MaxBlockBacklog config)); [|lia].
  apply truns_ret. split_and!; [done|by intros ? [=]|]. intros o [= <-]. split; [done|]. by apply (Hr u).
Qed.
Lemma catchUp_ok fuel f x origin target t : tFilters t !! f = Some x -> nonblocking x -> C <> [] -> tBlocks t = lastn (Z.to_nat (MaxBlockBacklog config)) C ->
  target = Z.of_nat (length C) - 1 -> 0 <= origin <= target -> enough_fuel fuel ->
  runs (catchUp p config cancelled arrivals fuel f origin target)
    (fun r t' => kept t t' /\ store_only r /\ forall u, r = inl u ->
       logs t' (cfHash (fConfig x)) = logs t (cfHash (fConfig x)) ++ history (fConfig x) (drop (Z.to_nat origin) C)) t.
Proof.
  intros Hf Hfree Hne Hw Ht Ho Hfuel. unfold catchUp. apply truns_bind.
  assert (is_u64 target /\ is_u64 origin) as [? ?] by (unfold is_u64; lia).
  assert (runs (if MaxBlockBacklog config <? add64 (sub64 target origin) 1 then bulk_loop p config cancelled arrivals fuel f origin target else mret (origin, target))
    (fun r t' => kept t t' /\ store_only r /\ forall o, r = inl o -> exists o', o = (o', target) /\ origin <= o' <= target /\ target - o' + 1 <= MaxBlockBacklog config /\
       logs t' (cfHash (fConfig x)) = logs t (cfHash (fConfig x)) ++ history (fConfig x) (range origin (o' - 1) C)) t) as Hbulk.
  { rewrite sub64_nowrap, add64_nowrap by (unfold is_u64 in *; lia). destruct (Z.ltb_spec (MaxBlockBacklog config) (target - origin + 1)).
    - eapply truns_mono; [|apply (bulk_loop_ok fuel f x); try done; by rewrite Hw, last_lastn by lia].
      intros r t1 (K1 & Hs & Hr). split_and!; [done|done|]. intros o Ho'. destruct (Hr o Ho') as [-> Hl]. eexists. split_and!; [done|lia|lia|lia|].
      rewrite Hl. do 3 f_equal. lia.
    - apply truns_ret. split_and!; [done|by intros ? [=]|]. intros o [= <-]. exists origin. split_and!; [done|lia|lia|lia|].
      unfold range. replace (Z.to_nat (origin - 1 - origin + 1)) with O by lia. cbn. by rewrite app_nil_r. }
  eapply truns_mono; [|exact Hbulk]. intros [o|y] t1 (K1 & Hs & Hr); [|split_and!; [done|intros ? [= <-]; by apply Hs|done]].
  destruct (Hr o eq_refl) as (o' & -> & Ho' & Hmax' & Hl1). apply truns_bind, runs_reads. rewrite (k_blocks _ _ K1), Hw.
  set (L := lastn (Z.to_nat (MaxBlockBacklog config)) C).
  assert (length L = Nat.min (Z.to_nat (MaxBlockBacklog config)) (length C)) as HL by apply length_lastn.
  assert (1 <= length C)%nat as HC1 by (destruct C; [done|cbn; lia]).
  rewrite (u64_small (Z.of_nat (length L))), (sub64_nowrap (Z.of_nat (length L)) 1), (sub64_nowrap target o'), sub64_nowrap by (unfold is_u64 in *; lia).
  destruct (Z.ltb_spec (Z.of_nat (length L)) (Z.of_nat (length L) - 1 - (target - o'))); [lia|].
  assert (drop (Z.to_nat (Z.of_nat (length L) - 1 - (target - o'))) L = drop (Z.to_nat o') C) as ->.
  { unfold L, lastn. rewrite drop_drop. f_equal. fold (lastn (Z.to_nat (MaxBlockBacklog config)) C) L. lia. }
  destruct (last_number Hne) as (b & Hb & _).
  assert (list.last (drop (Z.to_nat o') C) = Some b) as Hlast.
  { rewrite <- Hb. rewrite <- (take_drop (Z.to_nat o') C) at 2. rewrite last_app. destruct (list.last (drop (Z.to_nat o') C)) eqn:E; [done|].
    apply last_None in E. apply (f_equal length) in E. rewrite length_drop in E. cbn in E. lia. }
  apply truns_bind. eapply truns_mono; [|apply (doFilter_sync f x _ b); [by rewrite (k_filters _ _ K1)|done]].
  intros [ev|y] t2 (K2 & Hs2 & Hr2); [|split_and!; [by etrans|intros ? [= <-]; by apply Hs2|done]].
  assert (kept t t2) as K by by etrans. apply (runs_emit f x); [by rewrite (k_filters _ _ K)|done|]. intros evs _ _.
  split_and!; [etrans; [exact K|]; by split|by intros ? [=]|]. intros u _. cbn.
  rewrite (Hr2 ev eq_refl), Hl1, <- app_assoc, <- history_app. do 2 f_equal.
  rewrite <- (range_end o'), <- (range_end origin) by lia. rewrite (range_split origin (o' - 1) (Z.of_nat (length C) - 1)) by lia. by replace (o' - 1 + 1) with o' by lia.
Qed.
(** ** Where a branch leaves the chain *)
(** [P ++ X] is the branch a filter has seen, and the chain goes on with [Y]. *)
Record branch (P X Y : list Block) : Prop := {
  br_chain : C = P ++ Y; br_some : P <> []; br_linked : chain (P ++ X); br_known : Forall known (P ++ X);
  br_fork : forall x y, head X = Some x -> head Y = Some y -> bHash x <> bHash y;
}.
Definition alike (a b : Block) : Prop := bNumber a = bNumber b /\ bHash a = bHash b /\ bParentHash a = bParentHash b.
Lemma chain_parent l i a b : chain l -> l !! i = Some a -> l !! Datatypes.S i = Some b -> bParentHash b = bHash a.
Proof.
  revert i. induction l as [|z l IH]; intros i Hc Ha Hb; [done|]. destruct Hc as [Hl Hc]. destruct i as [|i].
  - cbn in *. destruct l as [|b' l]; [done|]. cbn in Hb. injection Hb as ->. injection Ha as ->. apply Hl.
  - by apply (IH i).
Qed.
Lemma known_in l i b : Forall known l -> l !! i = Some b -> known b.
Proof. intros Hl Hb. rewrite list.Forall_forall in Hl. apply Hl. by apply list_elem_of_lookup_2 in Hb. Qed.
Section Branch.
Context (P X Y : list Block) (HB : branch P X Y).
Lemma branch_number i b : (P ++ X) !! i = Some b -> bNumber b = Z.of_nat i.
Proof.
  intros Hb. destruct HB as [EC Hs Hl Hk _]. destruct P as [|z P']; [done|].
  rewrite (chain_numbers _ i z Hl eq_refl b Hb), (HC0 z); [lia|]. by rewrite EC.
Qed.
Lemma diverge i x y : X !! i = Some x -> Y !! i = Some y -> bHash x <> bHash y.
Proof.
  destruct HB as [EC Hs Hl Hk Hf]. revert x y. induction i as [|i IH]; intros x y Hx Hy.
  - apply Hf; [by destruct X|by destruct Y].
  - intros E. destruct (lookup_lt_is_Some_2 X i) as [x' Hx']; [apply lookup_lt_Some in Hx; lia|].
    destruct (lookup_lt_is_Some_2 Y i) as [y' Hy']; [apply lookup_lt_Some in Hy; lia|]. apply (IH x' y' Hx' Hy').
    assert (forall k l z, l !! k = Some z -> (P ++ l) !! (length P + k)%nat = Some z) as Hin by (intros k l z Hz; rewrite lookup_app_r by lia; by replace (length P + k - length P)%nat with k by lia).
    assert (x = y) as -> by (apply known_inj; [by apply (known_in _ _ _ Hk (Hin _ _ _ Hx))|rewrite EC in HCk; by apply (known_in _ _ _ HCk (Hin _ _ _ Hy))|done]).
    pose proof (Hin _ _ _ Hx) as H1x. pose proof (Hin _ _ _ Hy) as H1y. rewrite Nat.add_succ_r in H1x, H1y.
    rewrite <- (chain_parent _ _ _ _ Hl (Hin _ _ _ Hx') H1x). rewrite EC in HC. by rewrite <- (chain_parent _ _ _ _ HC (Hin _ _ _ Hy') H1y).
Qed.
(** The parent of a block of a chain, as the node shows it *)
Lemma fetch_parent l i a b Q t : chain l -> Forall known l -> l !! i = Some a -> l !! Datatypes.S i = Some b -> 0 < bNumber b ->
  (forall k, Q (inl (Some a)) (set_tCalls k t)) -> runs (GetBlockByHash p (bParentHash b)) Q t.
Proof.
  intros Hc Hk Ha Hb Hn HQ. apply truns_bind, runs_ask. destruct (node_parent (tCalls t) b (known_in _ _ _ Hk Hb) Hn) as (a' & -> & Hka & Hh).
  assert (a' = a) as -> by (apply known_inj; [done|by apply (known_in _ _ _ Hk Ha)|]; by rewrite Hh, (chain_parent l i a b)).
  apply truns_ret. apply HQ.
Qed.
Lemma ancestor_loop_ok d : forall n block a pivot t, (d < n)%nat ->
  (P ++ X) !! (length P - 1 + d)%nat = Some a -> alike block a -> C !! (length P - 1 + d)%nat = Some pivot ->
  runs (ancestor_loop p n block pivot) (fun r t' => (exists k, t' = set_tCalls k t) /\ r = inl (Z.of_nat (length P) - 1)) t.
Proof.
  assert (1 <= length P)%nat as HP by (destruct (decide (length P = O)) as [E|]; [by apply nil_length_inv, (br_some _ _ _ HB) in E|lia]).
  induction d as [|d IH]; intros n block a pivot t Hn Ha (An & Ah & Ap) Hp; (destruct n as [|n]; [lia|]); cbn [ancestor_loop];
    rewrite An, (branch_number _ _ Ha), (chain_index _ _ Hp), Z.eqb_refl; cbn [negb].
  - assert (a = pivot) as -> by (rewrite (br_chain _ _ _ HB) in Hp; rewrite lookup_app_l in Ha, Hp by lia; congruence).
    rewrite Ah, bool_decide_true by done. apply truns_ret. split; [exists (tCalls t); by destruct t|]. f_equal. lia.
  - assert (X !! d = Some a) as HXa by (rewrite lookup_app_r in Ha by lia; by replace (length P - 1 + Datatypes.S d - length P)%nat with d in Ha by lia).
    assert (Y !! d = Some pivot) as HYp.
    { rewrite (br_chain _ _ _ HB) in Hp. rewrite lookup_app_r in Hp by lia. by replace (length P - 1 + Datatypes.S d - length P)%nat with d in Hp by lia. }
    rewrite Ah, bool_decide_false by by apply (diverge d).
    destruct (lookup_lt_is_Some_2 (P ++ X) (length P - 1 + d)) as [a' Ha']; [apply lookup_lt_Some in Ha; lia|].
    destruct (lookup_lt_is_Some_2 C (length P - 1 + d)) as [q Hq]; [apply lookup_lt_Some in Hp; lia|].
    rewrite Nat.add_succ_r in Ha, Hp. rewrite Ap. apply truns_bind.
    apply (fetch_parent (P ++ X) (length P - 1 + d) a'); [apply HB|apply HB|done|done|rewrite (branch_number _ _ Ha); lia|].
    intros k1. apply truns_bind. apply (fetch_parent C (length P - 1 + d) q); [done|done|done|done|rewrite (chain_index _ _ Hp); lia|].
    intros k2. destruct n as [|n]; [lia|]. cbn [deref]. apply truns_bind, truns_ret, truns_bind, truns_ret.
    eapply truns_mono; [|apply (IH (Datatypes.S n) a' a' q); [lia|done|by split_and!|done]].
    intros r t' [[k ->] ->]. split; [by eexists|done].
Qed.
End Branch.
(** ** Code whose only errors are those of the store *)
Definition errs_store {A} (m : TM S A) : Prop := forall t e t', m t = Ret (inr e, t') -> exists s, e = EStore s.
Lemma errs_bind {A B} (m : TM S A) (k : A -> TM S B) : errs_store m -> (forall a, errs_store (k a)) -> errs_store (m ≫= k).
Proof.
  intros Hm Hk t e t'. unfold mbind, TM_bind. destruct (m t) as [[[a|x] t1]| |] eqn:E; [apply Hk| |done|done].
  intros [= <- <-]. by apply (Hm t x t1).
Qed.
Lemma errs_stored {A} (m : M S (A + store_error)) : errs_store (stored m).
Proof. intros t e t'. unfold stored. cbn. destruct (m (tStore t)) as [[[a|x] s]| |]; cbn; try done. intros [= <- _]. eauto. Qed.
Lemma errs_ret {A} (a : A) : errs_store (mret a).
Proof. by intros t e t' [=]. Qed.
Lemma errs_getFilter f : errs_store (getFilter f : TM S Filter).
Proof. apply errs_bind; [by intros t e t' [=]|]. intros [x|]; [apply errs_ret|by intros t e t' [=]]. Qed.
Lemma errs_remove_loop e number hash n acc : errs_store (remove_loop e number hash n acc : TM S _).
Proof.
  revert acc. induction n as [|n IH]; intros acc; cbn [remove_loop]; [apply errs_ret|]. apply errs_bind; [apply errs_stored|].
  intros l. destruct (_ || _); [apply errs_ret|apply IH].
Qed.
Lemma errs_removeLogs f number hash : errs_store (removeLogs f number hash : TM S _).
Proof.
  apply errs_bind; [apply errs_getFilter|]. intros x. apply errs_bind; [apply errs_stored|]. intros n. destruct (n =? 0); [apply errs_ret|].
  apply errs_bind; [apply errs_remove_loop|]. intros [rem k]. apply errs_bind; [apply errs_stored|]. intros _. apply errs_ret.
Qed.
Lemma runs_errs {A} (m : TM S A) Q t : errs_store m -> runs m Q t -> runs m (fun r t' => Q r t' /\ store_only r) t.
Proof.
  unfold runs, store_only. intros He. specialize (He t). destruct (m t) as [[r t']| |]; [|done|done]. intros HQ. split; [done|]. intros e ->. eauto.
Qed.

(** ** The last block, as it comes back from the store *)
Lemma alike_header b : alike (header_of (with_difficulty b)) b.
Proof. unfold with_difficulty. by destruct (bDifficulty b). Qed.
Definition saved (ob : option Block) : bytes := match ob with None => [] | Some b => last_text b end.
Lemma last_text_some b : known b -> last_text b <> [].
Proof.
  intros Hb. destruct (print_text _ (plain_block _ (known_ok b Hb))) as [Hne _]. unfold last_text, BlockMarshalJSON.
  by destruct (printJSON (block_json (with_difficulty b))).
Qed.
Lemma GetLastBlock_ok f x ob t : tFilters t !! f = Some x -> (forall b, ob = Some b -> known b) -> value t (lastBlockKey (fConfig x)) = saved ob ->
  runs (GetLastBlock f)
    (fun r t' => unchanged t t' /\ store_only r /\ forall o, r = inl o ->
       match ob with None => o = None | Some b => exists b', o = Some b' /\ alike b' b end) t.
Proof.
  intros Hf Hk Hv. apply truns_bind, (runs_getFilter f x); [done|]. apply truns_bind.
  eapply truns_mono; [|apply (runs_errs _ (fun r t' => unchanged t t' /\ forall b, r = inl b -> b = value t (lastBlockKey (fConfig x)))); [apply errs_stored|by apply runs_Get]].
  intros [buf|e] t1 [[U Hr] Hs]; [|split_and!; [done|intros ? [= <-]; by apply Hs|done]].
  rewrite (Hr buf eq_refl), Hv. destruct ob as [b|]; cbn [saved].
  2: { rewrite bool_decide_true by done. apply truns_ret. split_and!; [done|by intros ? [=]|by intros ? [=]]. }
  specialize (Hk b eq_refl). rewrite bool_decide_false by by apply last_text_some.
  pose proof (plain_block _ (known_ok b Hk)) as Hp. destruct (print_text _ Hp) as [_ Hby].
  unfold last_text. rewrite DecodeString_EncodeToString by exact Hby. cbn [negb]. unfold BlockUnmarshalJSON, BlockMarshalJSON.
  rewrite parse_print by done. rewrite block_fields by by apply known_ok. apply truns_ret. split_and!; [done|by intros ? [=]|].
  intros o [= <-]. eexists. split; [done|apply alike_header].
Qed.

(** ** The origin of the synchronisation: behind the last block that is on the
    chain, with the logs of the branch removed *)
Lemma resume_ok f x P X Y b b' target t : tFilters t !! f = Some x -> nonblocking x -> branch P X Y -> list.last (P ++ X) = Some b -> alike b' b ->
  target = Z.of_nat (length C) - 1 -> (length X <= length Y)%nat -> (length X < Z.to_nat (MaxBlockBacklog config))%nat -> Y <> [] ->
  logs t (cfHash (fConfig x)) = history (fConfig x) (P ++ X) ->
  runs (resume p config f b' target)
    (fun r t' => kept t t' /\ store_only r /\ forall o, r = inl o ->
       o = Z.of_nat (length P) /\ logs t' (cfHash (fConfig x)) = history (fConfig x) P) t.
Proof.
  intros Hf Hfree HB Hlast (An & Ah & Ap) Ht Hxy Hx HY Hlogs. set (e := cfHash (fConfig x)) in *. set (c := fConfig x) in *.
  assert (1 <= length P)%nat as HP by (destruct (decide (length P = O)) as [E|]; [by apply nil_length_inv, (br_some _ _ _ HB) in E|lia]).
  assert (length C = length P + length Y)%nat as HlC by by rewrite (br_chain _ _ _ HB), length_app.
  assert (1 <= length Y)%nat as HY1 by (destruct Y; [done|cbn; lia]).
  rewrite last_lookup, length_app in Hlast. set (i := Nat.pred (length P + length X)) in *.
  assert (i = length P - 1 + length X)%nat as Ei by lia.
  assert (bNumber b = Z.of_nat i) as Hnb by (by apply (branch_number P X Y HB)).
  unfold resume. rewrite An, Hnb. destruct (Z.ltb_spec target (Z.of_nat i)); [lia|]. rewrite int_of by lia.
  destruct (chain_lookup (Z.of_nat i) ltac:(lia)) as (pivot & Hpv & Hnp & Hkp). apply truns_bind. apply truns_bind, runs_ask.
  rewrite (node_number _ _ pivot Hpv) by lia. apply truns_ret. cbn [deref]. apply truns_bind, truns_ret. rewrite Nat2Z.id in Hpv.
  assert (history c (P ++ X) = history c P ++ history c X) as Happ by apply history_app.
  case_bool_decide as Eh.
  - apply truns_ret. assert (X = []) as ->.
    { destruct X as [|x0 X'] eqn:EX; [done|]. exfalso. assert (length X = Datatypes.S (length X')) as HlX by by rewrite EX.
      rewrite <- EX in *. clear EX. apply (diverge P X Y HB (length X - 1) b pivot); [| |congruence].
      - rewrite lookup_app_r in Hlast by lia. by replace (i - length P)%nat with (length X - 1)%nat in Hlast by lia.
      - rewrite (br_chain _ _ _ HB), lookup_app_r in Hpv by lia. by replace (i - length P)%nat with (length X - 1)%nat in Hpv by lia. }
    cbn [length] in *. split_and!; [by split|by intros ? [=]|]. intros o [= <-]. split; [|by rewrite app_nil_r in Hlogs].
    destruct (Z.eqb_spec (Z.of_nat i) target); [lia|]. rewrite add64_nowrap by (unfold is_u64; lia). lia.
  - apply truns_bind. unfold findAncestor. rewrite Ei in Hlast, Hpv.
    eapply truns_mono; [|apply (ancestor_loop_ok P X Y HB (length X) _ _ b pivot); [done|done|by split_and!|done]].
    intros r t1 [[k Et1] ->]. rewrite add64_nowrap by (unfold is_u64; lia). replace (Z.of_nat (length P) - 1 + 1) with (Z.of_nat (length P)) by lia.
    apply truns_bind. eapply truns_mono; [|apply (runs_errs _ (fun r t' => match r with inl rem => rem = rev (history c X) /\ writes_logs e (history c P) t1 t' | inr _ => unchanged t1 t' end));
      [apply errs_removeLogs|apply (removeLogs_ok f x); [by rewrite Et1|rewrite Et1; change (logs t e = history c P ++ history c X); by rewrite Hlogs, Happ| |]]].
    + intros [rem|y] t2 [Hw Hs].
      * destruct Hw as [_ (F2 & _ & _ & L2)]. apply truns_bind, (runs_emit f x); [by rewrite (fr_filters _ _ F2), Et1|done|]. intros evs _ _. cbn [length]. rewrite int_of by lia.
        destruct (chain_lookup (Z.of_nat (length P) - 1) ltac:(lia)) as (a & Ha & _ & _). apply truns_bind. apply truns_bind, runs_ask.
        rewrite (node_number _ _ a Ha) by lia. do 2 apply truns_ret. split_and!; [|by intros ? [=]|].
        -- subst t1. apply frame_kept in F2. destruct F2. by split.
        -- intros o [= <-]. done.
      * destruct Hw as (F2 & _). split_and!; [|intros ? [= <-]; by apply Hs|done]. subst t1. apply frame_kept in F2. destruct F2. by split.
    + pose proof (history_numbers known block_logs logs_of_block c X) as Hn. eapply Forall_impl; [|apply Hn; pose proof (br_known _ _ _ HB) as Hk; by apply Forall_app in Hk as [_ ?]].
      cbn. intros l (z & Hz & Ez & _). apply list_elem_of_lookup in Hz as (j & Hj). unfold stays. rewrite Ez, andb_false_r. cbn.
      rewrite (branch_number P X Y HB (length P + j) z); [apply Z.ltb_ge; lia|]. rewrite lookup_app_r by lia. by replace (length P + j - length P)%nat with j by lia.
    + intros l Hl. apply last_Some_elem_of in Hl. pose proof (br_known _ _ _ HB) as [Hk _]%Forall_app.
      pose proof (history_numbers known block_logs logs_of_block c P Hk) as Hn. rewrite list.Forall_forall in Hn.
      destruct (Hn l Hl) as (z & Hz & Ez & _).
      apply list_elem_of_lookup in Hz as (j & Hj). pose proof (lookup_lt_Some _ _ _ Hj). unfold stays. rewrite Ez, andb_false_r. cbn.
      rewrite (branch_number P X Y HB j z); [apply Z.ltb_lt; lia|]. by rewrite lookup_app_l.
Qed.
(** ** [Sync]
    What the store has of a filter: nothing, or the logs of a branch up to the
    block it names as the last one. *)
Inductive progress (x : Filter) (t : Tracker S) : Prop :=
| fresh : value t (lastBlockKey (fConfig x)) = [] -> logs t (cfHash (fConfig x)) = [] -> cfStart (fConfig x) = 0 ->
    EtherscanFastTrack config = false -> progress x t
| reached P X Y b : branch P X Y -> list.last (P ++ X) = Some b -> value t (lastBlockKey (fConfig x)) = last_text b ->
    logs t (cfHash (fConfig x)) = history (fConfig x) (P ++ X) -> (length X <= length Y)%nat ->
    (length X < Z.to_nat (MaxBlockBacklog config))%nat -> progress x t.
Lemma unchanged_kept t t' : unchanged t t' -> kept t t'.
Proof. intros [F _]. by apply frame_kept. Qed.
Lemma last_known l b : Forall known l -> list.last l = Some b -> known b.
Proof. intros Hl Hb. rewrite list.Forall_forall in Hl. by apply Hl, last_Some_elem_of. Qed.
Lemma syncImpl_ok fuel f x t : tFilters t !! f = Some x -> nonblocking x -> tPreSynced t = true -> C <> [] ->
  tBlocks t = lastn (Z.to_nat (MaxBlockBacklog config)) C -> enough_fuel fuel -> progress x t ->
  runs (syncImpl p es config cancelled arrivals fuel f)
    (fun r t' => kept t t' /\ store_only r /\ forall u, r = inl u -> logs t' (cfHash (fConfig x)) = history (fConfig x) C) t.
Proof.
  intros Hf Hfree Hpre HCne Hw Hfuel Hpr. destruct (last_number HCne) as (target & Htg & Hnt).
  assert (1 <= length C)%nat as HC1 by (destruct (decide (length C = O)) as [E|]; [by apply nil_length_inv in E|lia]).
  unfold syncImpl. apply truns_bind. apply truns_bind, runs_reads. rewrite Hpre. apply truns_ret.
  apply truns_bind, runs_reads. rewrite Hw, last_lastn by lia. rewrite Htg, Hnt. apply truns_bind.
  destruct Hpr as [Hv Hl Hst Hes|P X Y b HB Hlast Hv Hl Hxy Hx].
  - eapply truns_mono; [|apply (GetLastBlock_ok f x None); [done|done|done]]. intros [o|y] t1 (U1 & Hs & Hr).
    2: { split_and!; [by apply unchanged_kept|intros ? [= <-]; by apply Hs|done]. }
    rewrite (Hr o eq_refl). assert (kept t t1) as K1 by by apply unchanged_kept. assert (tFilters t1 !! f = Some x) as Hf1 by by rewrite (k_filters _ _ K1).
    apply truns_bind, (runs_getFilter f x); [done|]. apply truns_bind.
    assert (wrap EFastTrack (fastTrack p es config (fConfig x)) t1 = Ret (inl None, t1)) as Eft.
    { unfold wrap, fastTrack. rewrite Hst, Hes. cbn [negb Z.eqb]. by case_bool_decide. }
    unfold runs at 1. rewrite Eft. destruct U1 as (F1 & _ & L1).
    eapply truns_mono; [|apply (catchUp_ok fuel f x 0); [done|done|done|by rewrite (k_blocks _ _ K1)|done|lia|done]].
    intros r t2 (K2 & Hs2 & Hr2). split_and!; [by etrans|done|]. intros u Hu. rewrite (Hr2 u Hu), L1, Hl. done.
  - pose proof (last_known _ _ (br_known _ _ _ HB) Hlast) as Hkb.
    eapply truns_mono; [|apply (GetLastBlock_ok f x (Some b)); [done|by intros ? [= <-]|done]]. intros [o|y] t1 (U1 & Hs & Hr).
    2: { split_and!; [by apply unchanged_kept|intros ? [= <-]; by apply Hs|done]. }
    destruct (Hr o eq_refl) as (b' & -> & Hal). assert (kept t t1) as K1 by by apply unchanged_kept.
    assert (tFilters t1 !! f = Some x) as Hf1 by by rewrite (k_filters _ _ K1). destruct U1 as (F1 & _ & L1).
    apply truns_bind, (runs_getFilter f x); [done|]. case_bool_decide as Eh.
    + apply truns_ret. split_and!; [done|by intros ? [=]|]. intros u _. rewrite L1, Hl. f_equal. symmetry.
      assert (b = target) as -> by (apply known_inj; [done|by apply (last_known C)|]; destruct Hal as (_ & <- & _); done).
      rewrite last_lookup, length_app in Hlast. pose proof (branch_number P X Y HB _ _ Hlast) as Hn.
      assert (length C = length P + length Y)%nat as HlC by by rewrite (br_chain _ _ _ HB), length_app.
      assert (1 <= length P)%nat as HP by (destruct (decide (length P = O)) as [E|]; [by apply nil_length_inv, (br_some _ _ _ HB) in E|lia]).
      assert (length X = length Y) as Exy by lia. rewrite (br_chain _ _ _ HB). f_equal.
      destruct (decide (length X = O)) as [E0|E0]; [rewrite (nil_length_inv X E0), (nil_length_inv Y) by lia; done|].
      exfalso. apply (diverge P X Y HB (length X - 1) target target); [| |done].
      * rewrite lookup_app_r in Hlast by lia. by replace (Nat.pred (length P + length X) - length P)%nat with (length X - 1)%nat in Hlast by lia.
      * rewrite (br_chain _ _ _ HB), last_lookup, length_app, lookup_app_r in Htg by lia.
        by replace (Nat.pred (length P + length Y) - length P)%nat with (length X - 1)%nat in Htg by lia.
    + assert (Y <> []) as HY.
      { intros ->. destruct X; [|cbn in Hxy; lia]. rewrite app_nil_r in Hlast. pose proof (br_chain _ _ _ HB) as EC. rewrite app_nil_r in EC. subst P.
        rewrite Htg in Hlast. injection Hlast as ->. by destruct Hal as (_ & ? & _). }
      apply truns_bind. eapply truns_mono; [|apply (resume_ok f x P X Y b); [done|done|done|done|done|reflexivity|done|done|done|by rewrite L1]].
      intros [o|y] t2 (K2 & Hs2 & Hr2). 2: { split_and!; [by etrans|intros ? [= <-]; by apply Hs2|done]. }
      destruct (Hr2 o eq_refl) as [-> Hl2]. assert (kept t t2) as K by by etrans.
      assert (length C = length P + length Y)%nat as HlC by by rewrite (br_chain _ _ _ HB), length_app.
      assert (1 <= length Y)%nat by (destruct Y; [done|cbn; lia]).
      eapply truns_mono; [|apply (catchUp_ok fuel f x (Z.of_nat (length P))); [by rewrite (k_filters _ _ K)|done|done|by rewrite (k_blocks _ _ K)|done|lia|done]].
      intros r t3 (K3 & Hs3 & Hr3). split_and!; [by etrans|done|]. intros u Hu. rewrite (Hr3 u Hu), Hl2, <- history_app. f_equal.
      rewrite Nat2Z.id, (br_chain _ _ _ HB). by rewrite drop_app_length.
Qed.
Lemma Sync_ok fuel f x t : tFilters t !! f = Some x -> nonblocking x -> tPreSynced t = true -> C <> [] ->
  tBlocks t = lastn (Z.to_nat (MaxBlockBacklog config)) C -> enough_fuel fuel -> progress x t ->
  runs (Sync p es config cancelled arrivals fuel f)
    (fun r t' => tBlocks t' = tBlocks t /\ store_only r /\ forall u, r = inl u ->
       logs t' (cfHash (fConfig x)) = history (fConfig x) C /\ tFilters t' !! f = Some (mkFilter (fConfig x) true (fReader x))) t.
Proof.
  intros Hf Hfree Hpre HCne Hw Hfuel Hpr. apply truns_bind. eapply truns_mono; [|by apply (syncImpl_ok fuel f x)].
  intros [u|y] t1 (K1 & Hs & Hr); [|split_and!; [apply K1|intros ? [= <-]; by apply Hs|done]].
  apply truns_bind, interfere_quiet, runs_update. split_and!; [apply K1|by intros ? [=]|]. intros u' _. split; [exact (Hr u eq_refl)|].
  cbn. rewrite list_lookup_alter_eq, (k_filters _ _ K1), Hf. done.
Qed.
End Sync.
