(* ===== verification/TrackerTheorems.v ===== *)
(** * Properties of the event tracker *)

From stdpp Require Import strings.
From S2P Require Import Prelude Words Text AbiType AbiCodec Structs StructsFacts TrackerStore Tracker TrackerFacts TrackerLogs TrackerSync.


(** ** A small world: a chain of four blocks, and a fork of the third *)
Definition word (n : Z) : Hash := replicate 31 0 ++ [n].
Definition blk (n h parent : Z) : Block :=
  mkBlock n (word h) (word parent) zero_hash zero_hash zero_hash zero_hash zero_address (Some 0) [] 0 0 0 [] [] [].
Definition b0 : Block := blk 0 1 0.
Definition b1 : Block := blk 1 2 1.
Definition b2 : Block := blk 2 3 2.
Definition b2' : Block := blk 2 13 2.
Definition b3 : Block := blk 3 4 3.
Definition world : list Block := [b0; b1; b2; b2'; b3].
Definition world_logs (_ : list Address) (_ : list (option (list Hash))) (h : Hash) : list Log :=
  match index_of h world with
  | Some i => match world !! i with Some b => [mkLog false 0 0 zero_hash h (bNumber b) zero_address [] [] None] | None => [] end
  | None => []
  end.
(** A node whose chain is [C]; it refuses ranges of more than two blocks. *)
Definition world_node (C : list Block) : Provider := mkProvider
  (fun _ h => match index_of h world ≫= fun i => world !! i with Some b => inl (Some b) | None => inr providerFailed end)
  (fun _ n => if n =? Latest then inl (list.last C) else inl (C !! Z.to_nat n))
  (fun _ q => match fBlockHash q, fFrom q, fTo q with
              | Some h, _, _ => inl (world_logs (fAddress q) (fTopics q) h)
              | None, Some a, Some b => if a + 1 <? b then inr tooMuchData else inl (mjoin ((fun x => world_logs (fAddress q) (fTopics q) (bHash x)) <$> range a b C))
              | _, _, _ => inr providerFailed
              end)
  (fun _ => inl 1).

Section Null.
Context {S : Type} `{StoreLaws S} `{FastJson} (p : Provider) (config : Config) (known : Block -> Prop).
Context (shown : forall k h, match pBlockByHash p k h with inl (Some b) => known b /\ bHash b = h | _ => True end).
End Null.

Definition world_config : Config := mkConfig 10 2 false.
Definition everything : FilterConfig := mkFilterConfig [] [] 0 (str "f") true.
Definition world_log (b : Block) : list Log := world_logs [] [] (bHash b).
(** The client receives all the time. *)
Definition listening (_ : nat) : bool := true.
(** The filter has followed [b0], [b1], [b2]; the window is the last two. *)
Definition following : Tracker InmemStore :=
  mkTracker (mkInmem {[str "f" := world_log b0 ++ world_log b1 ++ world_log b2]} ∅) true [b1; b2] [mkFilter everything true listening] [] [] 0.
(** What the handler computes there: the log of [b2] gives way to that of [b2']. *)
Example fork_replaces_log :
  match handleReconcile (world_node [b0; b1; b2']) world_config b2' following with
  | Ret (inl _, t) => logs_of (tStore t) (str "f") = world_log b0 ++ world_log b1 ++ world_log b2' /\ tBlocks t = [b1; b2'] /\
      tEvents t = [(O, mkTrackerEvent (world_log b2') (world_log b2))]
  | _ => False
  end.
Proof. vm_compute. done. Qed.

Definition no_etherscan : Etherscan := mkEtherscan (fun _ => false) (fun _ _ => inr providerFailed).
(** The filter has synchronised up to [b2], and the chain has moved to [b2']. *)
Definition behind : Tracker InmemStore :=
  mkTracker (mkInmem {[str "f" := world_log b0 ++ world_log b1 ++ world_log b2]} {[lastBlockKey everything := last_text b2]})
    true [b1; b2'] [mkFilter everything false listening] [] [] 0.
Example sync_switches_branch :
  match Sync (world_node [b0; b1; b2']) no_etherscan world_config (fun _ => false) (fun _ => []) 300 0 behind with
  | Ret (inl _, t) => logs_of (tStore t) (str "f") = world_log b0 ++ world_log b1 ++ world_log b2' /\ fSynced <$> tFilters t = [true]
  | _ => False
  end.
Proof. vm_compute. done. Qed.

(** ** Defects *)
(** A reorganisation shortens the window, and synchronising a filter whose last
    block lies before it panics, although it is not far behind: the slice
    expression assumes a full window. *)
Example sync_after_reorg_panics :
  let t := mkTracker (mkInmem ∅ ∅) true [b1; b2; b3] [mkFilter everything false listening] [] [] 0 in
  let p := world_node [b0; b1; b2'] in
  let config := mkConfig 10 3 false in
  match handleReconcile p config b2' t with
  | Ret (inl _, t') => tBlocks t' = [b1; b2'] /\ Sync p no_etherscan config (fun _ => false) (fun _ => []) 300 0 t' = Panic
  | _ => False
  end.
Proof. vm_compute. done. Qed.
(** A block that is handled between the end of [syncImpl] and the store to
    [synced] passes the filter by: its log is never stored. *)
Example race_loses_logs :
  let p := world_node [b0; b1; b2] in
  let config := mkConfig 10 2 false in
  match Sync p no_etherscan config (fun _ => false) (fun k => if (2 <=? k)%nat then [b2] else []) 300 0
          (mkTracker (mkInmem ∅ ∅) true [b0; b1] [mkFilter everything false listening] [] [] 0) with
  | Ret (inl _, t) => tBlocks t = [b1; b2] /\ fSynced <$> tFilters t = [true] /\ logs_of (tStore t) (str "f") = world_log b0 ++ world_log b1 /\
      match poll p config None t with Ret (inl (Some b), t') => b = b2 /\ logs_of (tStore t') (str "f") = world_log b0 ++ world_log b1 | _ => False end
  | _ => False
  end.
Proof. vm_compute. done. Qed.
(** When the logs of a block cannot be fetched the handler fails, but the block
    is in the window: the next poll takes it for known, and its logs are lost. *)
Example failed_fetch_loses_logs :
  let node := world_node [b0; b1; b2] in
  let p := mkProvider (pBlockByHash node) (pBlockByNumber node) (fun k q => if (k <? 6)%nat then inr providerFailed else pLogs node k q) (pChainID node) in
  let t := mkTracker (mkInmem {[str "f" := world_log b0 ++ world_log b1]} ∅) true [b0; b1] [mkFilter everything true listening] [] [] 0 in
  match poll p world_config None t with
  | Ret (inl None, t') =>
      match poll p world_config None t' with
      | Ret (inl (Some b), t2) => b = b2 /\ tBlocks t2 = [b1; b2] /\ logs_of (tStore t2) (str "f") = world_log b0 ++ world_log b1
      | _ => False
      end
  | _ => False
  end.
Proof. vm_compute. done. Qed.
(** A node that answers null for an unknown parent makes the tracker panic. *)
Example null_parent_panics :
  handleReconcile (mkProvider (fun _ _ => inl None) (fun _ _ => inl None) (fun _ _ => inl []) (fun _ => inl 1)) world_config (blk 9 99 98)
    (mkTracker (mkInmem ∅ ∅) true [b1; b2] [] [] [] 0) = Panic.
Proof. vm_compute. done. Qed.
(** A filter that is not asynchronous and whose events nobody receives stops the
    tracker: the send blocks. *)
Example unread_event_blocks :
  let quietly := mkFilter (mkFilterConfig [] [] 0 (str "f") false) true (fun _ => false) in
  handleReconcile (world_node [b0; b1; b2]) world_config b2
    (mkTracker (mkInmem {[str "f" := world_log b0 ++ world_log b1]} ∅) true [b0; b1] [quietly] [] [] 0) = NoFuel.
Proof. vm_compute. done. Qed.
(** The genesis check fails once; the second call passes. *)
Example genesis_check_passes_second_time :
  let t := mkTracker (mkInmem ∅ {[dbGenesis := str "0xff"]}) false [] [] [] [] 0 in
  match preSyncCheck (world_node [b0; b1]) t with
  | Ret (inr EBadGenesis, t') => match preSyncCheck (world_node [b0; b1]) t' with Ret (inl _, _) => True | _ => False end
  | _ => False
  end.
Proof. vm_compute. done. Qed.
(** With the Etherscan fast track, an address without logs moves the start to
    the latest block, past the logs of the other addresses. *)
Example fast_track_skips_logs :
  let es := mkEtherscan (fun _ => true) (fun _ a => if bool_decide (a = zero_address) then inl [] else inl [Some (str "0x1")]) in
  match fastTrack (world_node [b0; b1; b2]) es (mkConfig 10 2 true) (mkFilterConfig [zero_address; replicate 20 1] [] 0 [] true) following with
  | Ret (inl b, _) => b = Some b2
  | _ => False
  end.
Proof. vm_compute. done. Qed.
(** A filter on several addresses is sent as one on every address. *)
Lemma many_addresses_lost (q : LogFilter) : (2 <= length (fAddress q))%nat ->
  filter_json q = filter_json (mkLogFilter (fBlockHash q) (fFrom q) (fTo q) [] (fTopics q)).
Proof. intros Hl. unfold filter_json. destruct (fAddress q) as [|a [|b l]]; cbn in Hl; [lia|lia|done]. Qed.
