(* ===== verification/Rpc.v ===== *)
(** * The JSON-RPC client

    src/jsonrpc: the methods of eth.go, net.go and web3.go over the transport, and
    the text helpers of util.go.

    The interface [Transport] (src/jsonrpc/transport/transport.go) is a class: a
    call names a method and its parameters as JSON, and answers with the raw JSON
    of the result or an error.  Its implementations (HTTP, websocket, IPC) are
    input and output.  The node behind it is a state of its own, so two calls may
    get two answers.  [GoJson] is what the client uses of encoding/json: the value
    of a text, and the texts of the elements of an array. *)

From stdpp Require Import strings.
From S2P Require Import Prelude Words Text Structs.

Class Transport (N : Type) := { transportCall : bytes -> list json -> N -> (bytes + Z) * N }.
Class GoJson := { goJSON : bytes -> option json; goElems : bytes -> option (list bytes) }.

Inductive rpc_error := callError (code : Z) | outError | numError | bigError | prefixError | hexError.

(** ** util.go *)
Definition encodeUintToHex (i : Z) : bytes := x0 ++ hexNum i.
(** [big.Int.SetString] leaves an undefined number where it fails. *)
Definition parseBigInt (undefined : bytes -> Z) (s : bytes) : Z :=
  let s := default s (strip_prefix x0 s) in default (undefined s) (SetString s).
Definition parseUint64orHex (s : bytes) : Z + rpc_error :=
  let r := match strip_prefix x0 s with Some s => ParseUint s | None => ParseUint10 s end in
  match r with Some z => inl z | None => inr numError end.
Definition encodeToHex (b : bytes) : bytes := x0 ++ EncodeToString b.
Definition parseHexBytes (s : bytes) : bytes + rpc_error :=
  match strip_prefix x0 s with
  | None => inr prefixError
  | Some s => let '(buf, ok) := DecodeString s in if (ok : bool) then inl buf else inr hexError
  end.
Definition DefaultGasFactor (i : Z) : Z := add64 (mul64 i 130 / 100) 500000.

(** ** Decoding a result into the variable of the caller

    A JSON null leaves a string empty, a flag false, a hash zero and a pointer
    nil. *)
Definition reply (A : Type) : Type := outcome (A + rpc_error).
Definition of_jresult {A} (r : jresult A) : reply A :=
  match r with Ret (inl a) => Ret (inl a) | Ret (inr _) => Ret (inr outError) | PanicAt p => PanicAt p | NoFuel => NoFuel end.
Section Decode.
Context `{GoJson}.
Definition out_string (raw : bytes) : reply bytes :=
  match goJSON raw with Some (JString s) => Ret (inl s) | Some JNull => Ret (inl []) | _ => Ret (inr outError) end.
Definition out_bool (raw : bytes) : reply bool :=
  match goJSON raw with Some (JBool b) => Ret (inl b) | Some JNull => Ret (inl false) | _ => Ret (inr outError) end.
(** A type with [UnmarshalText], of [size] bytes *)
Definition text_value (size : nat) (v : json) : option bytes :=
  match v with
  | JNull => Some (replicate size 0)
  | JString s => match unmarshalTextByte s (Z.of_nat size) with inl b => Some b | inr _ => None end
  | _ => None
  end.
Definition out_text (size : nat) (raw : bytes) : reply bytes :=
  Ret (match v ← goJSON raw; text_value size v with Some b => inl b | None => inr outError end).
Definition out_texts (size : nat) (raw : bytes) : reply (list bytes) :=
  Ret (match goJSON raw with
       | Some JNull => inl []
       | Some (JArray l) => match mapM (text_value size) l with Some bs => inl bs | None => inr outError end
       | _ => inr outError
       end).
(** A pointer to a type with [UnmarshalJSON] *)
Definition out_pointer {A} (read : bytes -> jresult A) (raw : bytes) : reply (option A) :=
  match goJSON raw with
  | None => Ret (inr outError)
  | Some JNull => Ret (inl None)
  | Some _ => match of_jresult (read raw) with Ret (inl a) => Ret (inl (Some a)) | Ret (inr e) => Ret (inr e) | PanicAt p => PanicAt p | NoFuel => NoFuel end
  end.
Fixpoint out_pointers {A} (read : bytes -> jresult A) (raws : list bytes) : reply (list (option A)) :=
  match raws with
  | [] => Ret (inl [])
  | raw :: raws =>
      r ← out_pointer read raw;
      match r with
      | inr e => Ret (inr e)
      | inl a => rs ← out_pointers read raws; Ret (match rs with inl l => inl (a :: l) | inr e => inr e end)
      end
  end.
Definition out_array {A} (read : bytes -> jresult A) (raw : bytes) : reply (list (option A)) :=
  match goJSON raw with
  | Some JNull => Ret (inl [])
  | Some (JArray _) => match goElems raw with Some raws => out_pointers read raws | None => Ret (inr outError) end
  | _ => Ret (inr outError)
  end.
End Decode.

(** ** The methods *)
Section Client.
Context {N : Type} `{Transport N} `{GoJson} `{FastJson} (parseLog : Log -> option ParsedEvent).
Context (keccak : bytes -> Hash) (MarshalTo : rlp -> bytes) (undefined : bytes -> Z).
(** The function of the client that scales estimates; nil is [None]. *)
Context (GasLimitFactor : option (Z -> Z)).
Abbreviation rpc A := (M N (A + rpc_error)).

Definition clientCall {A} (method : String.string) (out : bytes -> reply A) (params : list json) : rpc A := fun n =>
  match transportCall (str method) params n with
  | (inr code, n) => Ret (inr (callError code), n)
  | (inl raw, n) => r ← out raw; Ret (r, n)
  end.
Arguments clientCall {A} method%_string out params.
(** [if err := c.Call(...); err != nil { return err }; return f(out)] *)
Definition andThen {A B} (m : rpc A) (f : A -> outcome (B + rpc_error)) : rpc B :=
  r ← m; match r with inl a => lift (f a) | inr e => mret (inr e) end.
Definition pureReply {A B} (f : A -> B + rpc_error) (a : A) : outcome (B + rpc_error) := Ret (f a).
(** [block.String()] comes before the call, and may panic. *)
Definition withBlock {A} (b : Z) (k : json -> rpc A) : rpc A := s ← lift (BlockNumberString b); k (JString s).

Definition eth_GetCode (addr : Address) : rpc bytes := clientCall "eth_getCode" out_string [jbytes addr; JString (str "latest")].
Definition eth_Accounts : rpc (list Address) := clientCall "eth_accounts" (out_texts 20) [].
Definition eth_BlockNumber : rpc Z := andThen (clientCall "eth_blockNumber" out_string []) (pureReply parseUint64orHex).
Definition readBlock : bytes -> jresult Block := BlockUnmarshalJSON zeroBlock.
Definition readTransaction : bytes -> jresult Transaction := TransactionUnmarshalJSON zeroTransaction.
Definition readReceipt : bytes -> jresult Receipt := ReceiptUnmarshalJSON parseLog zeroReceipt.
Definition readLog : bytes -> jresult Log := LogUnmarshalJSON parseLog zeroLog.
Definition eth_GetBlockByNumber (i : Z) (full : bool) : rpc (option Block) :=
  withBlock i (fun b => clientCall "eth_getBlockByNumber" (out_pointer readBlock) [b; JBool full]).
Definition eth_GetBlockByHash (hash : Hash) (full : bool) : rpc (option Block) :=
  clientCall "eth_getBlockByHash" (out_pointer readBlock) [jbytes hash; JBool full].
(** The result is a string that holds JSON. *)
Definition eth_GetFilterChanges (id : bytes) : rpc (list (option Log)) :=
  andThen (clientCall "eth_getFilterChanges" out_string [JString id]) (out_array readLog).
Definition eth_GetFilterChangesBlock (id : bytes) : rpc (list Hash) :=
  andThen (clientCall "eth_getFilterChanges" out_string [JString id]) (out_texts 32).
Definition eth_GetTransactionByHash (hash : Hash) : rpc (option Transaction) :=
  clientCall "eth_getTransactionByHash" (out_pointer readTransaction) [jbytes hash].
Definition eth_GetTransactionByBlockHashAndIndex (blockHash : Hash) (index : Z) : rpc (option Transaction) :=
  clientCall "eth_getTransactionByBlockHashAndIndex" (out_pointer readTransaction) [jbytes blockHash; jnum index].
Definition eth_GetTransactionByBlockNumberAndIndex (blockNumber index : Z) : rpc (option Transaction) :=
  withBlock blockNumber (fun b => clientCall "eth_getTransactionByBlockNumberAndIndex" (out_pointer readTransaction) [b; jnum index]).
Definition eth_NewFilter (filter : LogFilter) : rpc bytes :=
  f ← lift (filter_json filter); clientCall "eth_newFilter" out_string [f].
Definition eth_NewBlockFilter : rpc bytes := clientCall "eth_newBlockFilter" out_string [JNull].
Definition eth_UninstallFilter (id : bytes) : rpc bool := clientCall "eth_uninstallFilter" out_bool [JString id].
Definition eth_SendRawTransaction (data : bytes) : rpc Hash :=
  clientCall "eth_sendRawTransaction" (out_text 32) [JString (x0 ++ EncodeToString data)].
(** Writing the transaction computes its hash, which it keeps. *)
Definition eth_SendTransaction (txn : Transaction) : M N ((Hash + rpc_error) * Transaction) :=
  let '(h, txn) := TransactionHash keccak MarshalTo txn in
  r ← clientCall "eth_sendTransaction" (out_text 32) [transaction_json h txn]; mret (r, txn).
Definition eth_GetTransactionReceipt (hash : Hash) : rpc (option Receipt) :=
  clientCall "eth_getTransactionReceipt" (out_pointer readReceipt) [jbytes hash].
Definition eth_GetNonce (addr : Address) (blockNumber : Z) : rpc Z :=
  andThen (withBlock blockNumber (fun b => clientCall "eth_getTransactionCount" out_string [jbytes addr; b])) (pureReply parseUint64orHex).
(** The slot is written without leading zeros; [HexToHash] panics on a text that
    is not exactly 32 bytes. *)
Definition eth_GetStorage (account : Address) (key : Hash) (blockNumber : Z) : rpc Hash :=
  andThen (withBlock blockNumber (fun b =>
             clientCall "eth_getStorageAt" out_string [jbytes account; JString (x0 ++ hexNum (be_val key)); b]))
          (fun out => h ← HexToHash out; Ret (inl h)).
(** [out[2:]] panics on fewer than two bytes. *)
Definition eth_GetBalance (addr : Address) (blockNumber : Z) : rpc Z :=
  andThen (withBlock blockNumber (fun b => clientCall "eth_getBalance" out_string [jbytes addr; b]))
          (fun out => if len out <? 2 then Panic
                      else Ret (match SetString (drop 2 out) with Some z => inl z | None => inr bigError end)).
Definition eth_GasPrice : rpc Z := andThen (clientCall "eth_gasPrice" out_string []) (pureReply parseUint64orHex).
Definition eth_Call (msg : CallMsg) (block : Z) : rpc bytes :=
  withBlock block (fun b => clientCall "eth_call" out_string [callmsg_json msg; b]).
Definition parseAndApplyFactor (out : bytes) : Z + rpc_error :=
  match parseUint64orHex out with
  | inr e => inr e
  | inl gas => inl (match GasLimitFactor with Some f => f gas | None => gas end)
  end.
Definition eth_EstimateGasContract (bin : bytes) : rpc Z :=
  andThen (clientCall "eth_estimateGas" out_string [JObject [(str "data", JString (x0 ++ EncodeToString bin))]])
          (pureReply parseAndApplyFactor).
Definition eth_EstimateGas (msg : CallMsg) : rpc Z :=
  andThen (clientCall "eth_estimateGas" out_string [callmsg_json msg]) (pureReply parseAndApplyFactor).
Definition eth_GetLogs (filter : LogFilter) : rpc (list (option Log)) :=
  f ← lift (filter_json filter); clientCall "eth_getLogs" (out_array readLog) [f].
Definition eth_ChainID : rpc Z :=
  andThen (clientCall "eth_chainId" out_string []) (pureReply (fun out => inl (parseBigInt undefined out))).

Definition net_Version : rpc Z := andThen (clientCall "net_version" out_string []) (pureReply parseUint64orHex).
Definition net_Listening : rpc bool := clientCall "net_listening" out_bool [].
Definition net_PeerCount : rpc Z := andThen (clientCall "net_peerCount" out_string []) (pureReply parseUint64orHex).
Definition web3_ClientVersion : rpc bytes := clientCall "web3_clientVersion" out_string [].
Definition web3_Sha3 (val : bytes) : rpc bytes :=
  andThen (clientCall "web3_sha3" out_string [JString (encodeToHex val)]) (pureReply parseHexBytes).
End Client.
Arguments clientCall {N _ A} method%_string out params.
