(* ===== verification/Remote.v ===== *)
(** * The state of a remote node as a store

    src/executor/remotedb/remotedb.go: accounts and storage slots are asked of a
    node over the client of Rpc.v and kept, so that a key is asked for once.
    [utils.Ensure] panics on an error of the client.  The trace output is left
    out.

    The second half compares it with a fixed store: whatever a node answers, and
    however it changes between two requests, all reads come from one function of
    the key; and on a node that shows one world they are the keys of that world. *)

From stdpp Require Import strings.
From S2P Require Import Prelude Words Text Uint256 Uint256Arith Params Config Stack Memory Opcodes Analysis State Codec.
From S2P Require Import Uint256Bits InstrSafety Storage StorageFacts Structs StructsFacts Rpc Precompiles.

Record RemoteDB := mkRemote { Accounts : gmap (list Z) EthAccount; Slots : gmap (list Z * list Z) Hash }.
Definition NewRemoteDB : RemoteDB := mkRemote ∅ ∅.

Section Remote.
Context {N : Type} `{Transport N} `{GoJson} `{FastJson} (keccak : bytes -> Hash).
Abbreviation remote A := (M (RemoteDB * N) A).

(** A request: [utils.Ensure(err)] *)
Definition ask {A} (m : M N (A + rpc_error)) : remote A := fun '(r, n) =>
  '(a, n) ← m n; match a with inl a => Ret (a, (r, n)) | inr _ => Panic end.
Definition GetAccount (addr : Address) : remote EthAccount :=
  r ← gets fst;
  match Accounts r !! addr with
  | Some acc => mret acc
  | None =>
      nonce ← ask (eth_GetNonce addr Latest);
      balance ← ask (eth_GetBalance addr Latest);
      code ← ask (eth_GetCode addr);
      codeRaw ← (if len code <? 2 then panic
                 else let '(b, ok) := DecodeString (drop 2 code) in if (ok : bool) then mret b else panic);
      let hash := keccak codeRaw in
      let acct := mkAccount nonce (Some (FromBig balance).1) codeRaw hash in
      _ ← modify (fun '(r, n) => (mkRemote (<[addr := acct]> (Accounts r)) (Slots r), n));
      mret acct
  end.
Definition GetStorage (addr : Address) (key : Hash) : remote Hash :=
  r ← gets fst;
  match Slots r !! (addr, key) with
  | Some val => mret val
  | None =>
      val ← ask (eth_GetStorage addr key Latest);
      _ ← modify (fun '(r, n) => (mkRemote (Accounts r) (<[(addr, key) := val]> (Slots r)), n));
      mret val
  end.
Definition Get (key : bytes) : remote bytes :=
  match key with
  | [] => panic
  | p :: rest =>
      if p =? ST_ETH_ACCOUNT then
        acct ← GetAccount (BytesToAddress rest); lift (SerializeToBytes acct)
      else if p =? ST_STORAGE then
        if len key <? 21 then panic
        else GetStorage (BytesToAddress (slice 1 21 key)) (BytesToHash (drop 21 key))
      else panic
  end.
Definition BatchPut (key value : bytes) : remote () := panic.
Definition BatchDelete (key : bytes) : remote () := panic.
Definition remoteNewIterator {SI} (prefix : bytes) : outcome SI := Panic.
(** A nil block is dereferenced. *)
Definition GetBlockHash (height : Z) : remote Hash :=
  block ← ask (eth_GetBlockByNumber (to_int64 height) false);
  match block with Some b => mret (bHash b) | None => panic end.

(** ** Reading twice *)
(** What is kept for a key *)
Definition kept_for (r : RemoteDB) (key : bytes) : option bytes :=
  match key with
  | [] => None
  | p :: rest =>
      if p =? ST_ETH_ACCOUNT then
        a ← Accounts r !! BytesToAddress rest; match SerializeToBytes a with Ret b => Some b | _ => None end
      else if p =? ST_STORAGE then
        if len key <? 21 then None else Slots r !! (BytesToAddress (slice 1 21 key), BytesToHash (drop 21 key))
      else None
  end.
Definition grows (r r' : RemoteDB) : Prop := Accounts r ⊆ Accounts r' /\ Slots r ⊆ Slots r'.
#[local] Instance grows_preorder : PreOrder grows.
Proof. split; [by intros r | intros r1 r2 r3 [? ?] [? ?]; split; by etrans]. Qed.
Lemma kept_grows r r' key v : grows r r' -> kept_for r key = Some v -> kept_for r' key = Some v.
Proof.
  intros [Ha Hs]. destruct key as [|p rest]; [done|]. cbn [kept_for]. destruct (p =? ST_ETH_ACCOUNT).
  - destruct (Accounts r !! _) as [a|] eqn:E; [|done]. by rewrite (lookup_weaken _ _ _ _ E Ha).
  - destruct (p =? ST_STORAGE); [|done]. destruct (_ <? 21); [done|]. intros E. by eapply lookup_weaken.
Qed.

Lemma ask_frame {A} (m : M N (A + rpc_error)) r n a r' n' : ask m (r, n) = Ret (a, (r', n')) -> r' = r.
Proof. unfold ask. destruct (m n) as [[[x|e] n1]|?|]; cbn; intros E; try done. by injection E as _ <- _. Qed.
Lemma code_frame code (r : RemoteDB * N) b r' :
  (if len code <? 2 then panic else let '(b, ok) := DecodeString (drop 2 code) in if (ok : bool) then mret b else panic : remote bytes) r
  = Ret (b, r') -> r' = r.
Proof. destruct (_ <? 2); [done|]. destruct (DecodeString _) as [x []]; [|done]. by intros [= _ <-]. Qed.
Lemma GetAccount_kept addr r n a r' n' : GetAccount addr (r, n) = Ret (a, (r', n')) ->
  grows r r' /\ Accounts r' !! addr = Some a.
Proof.
  unfold GetAccount. intros (r0 & s0 & [= <- <-] & E)%M_bind_inv. cbn [fst] in E.
  destruct (Accounts r !! addr) as [acc|] eqn:Ea; [injection E as <- <- <-; by split|].
  apply M_bind_inv in E as (nonce & [r1 n1] & E1 & E). apply ask_frame in E1 as ->.
  apply M_bind_inv in E as (bal & [r2 n2] & E2 & E). apply ask_frame in E2 as ->.
  apply M_bind_inv in E as (code & [r3 n3] & E3 & E). apply ask_frame in E3 as ->.
  apply M_bind_inv in E as (raw & s4 & E4 & E). apply code_frame in E4 as ->.
  injection E as <- <- <-. split; [|apply lookup_insert_eq]. split; [by apply insert_subseteq | done].
Qed.
Lemma GetStorage_kept addr key r n v r' n' : GetStorage addr key (r, n) = Ret (v, (r', n')) ->
  grows r r' /\ Slots r' !! (addr, key) = Some v.
Proof.
  unfold GetStorage. intros (r0 & s0 & [= <- <-] & E)%M_bind_inv. cbn [fst] in E.
  destruct (Slots r !! (addr, key)) as [acc|] eqn:Ea; [injection E as <- <- <-; by split|].
  apply M_bind_inv in E as (val & [r1 n1] & E1 & E). apply ask_frame in E1 as ->.
  injection E as <- <- <-. split; [|apply lookup_insert_eq]. split; [done | by apply insert_subseteq].
Qed.
(** A read leaves its answer behind, and keeps the earlier ones. *)
Lemma Get_kept key r n v r' n' : Get key (r, n) = Ret (v, (r', n')) -> grows r r' /\ kept_for r' key = Some v.
Proof.
  destruct key as [|p rest]; [done|]. cbn [Get kept_for]. destruct (p =? ST_ETH_ACCOUNT).
  - intros (a & [r1 n1] & E1 & E)%M_bind_inv. destruct (GetAccount_kept _ _ _ _ _ _ E1) as [Hg Ha]. revert E. unfold lift.
    destruct (SerializeToBytes a) as [b|?|] eqn:Es; cbn; intros E; try done. injection E as <- <- <-. split; [done|].
    rewrite Ha. cbn [mbind option_bind]. by rewrite Es.
  - destruct (p =? ST_STORAGE); [|done]. destruct (_ <? 21); [done|]. apply GetStorage_kept.
Qed.
(** A key that was read is answered without a request. *)
Lemma Get_hit key r n v : kept_for r key = Some v -> Get key (r, n) = Ret (v, (r, n)).
Proof.
  destruct key as [|p rest]; [done|]. cbn [Get kept_for]. destruct (p =? ST_ETH_ACCOUNT).
  - destruct (Accounts r !! _) as [a|] eqn:Ea; [|done]. cbn [mbind option_bind]. destruct (SerializeToBytes a) as [b| |] eqn:Es; [|done..].
    intros [= <-]. unfold GetAccount. cbv [mbind M_bind outcome_bind gets]. cbn [fst]. rewrite Ea. cbn. unfold lift. by rewrite Es.
  - destruct (p =? ST_STORAGE); [|done]. destruct (_ <? 21); [done|]. intros E. unfold GetStorage.
    cbv [mbind M_bind outcome_bind gets]. cbn [fst]. by rewrite E.
Qed.
Fixpoint read_all (keys : list bytes) : remote (list bytes) :=
  match keys with [] => mret [] | k :: keys => v ← Get k; vs ← read_all keys; mret (v :: vs) end.
Lemma read_all_kept keys : forall r n vs r' n', read_all keys (r, n) = Ret (vs, (r', n')) ->
  grows r r' /\ Forall2 (fun k v => kept_for r' k = Some v) keys vs.
Proof.
  induction keys as [|k keys IH]; intros r n vs r' n' E; cbn [read_all] in E; [injection E as <- <- <-; by split|].
  apply M_bind_inv in E as (v & [r1 n1] & E1 & E). apply M_bind_inv in E as (vs1 & [r2 n2] & E2 & E).
  injection E as <- <- <-. destruct (Get_kept _ _ _ _ _ _ E1) as [G1 K1]. destruct (IH _ _ _ _ _ E2) as [G2 K2].
  split; [by etrans|]. constructor; [by eapply kept_grows | done].
Qed.
Lemma read_all_again keys vs r n : Forall2 (fun k v => kept_for r k = Some v) keys vs -> read_all keys (r, n) = Ret (vs, (r, n)).
Proof.
  induction 1 as [|k v keys vs Hk _ IH]; [done|]. cbn [read_all].
  rewrite (M_bind_eq _ _ _ _ _ (Get_hit k r n v Hk)), (M_bind_eq _ _ _ _ _ IH). done.
Qed.
End Remote.

(** ** A node that shows one world *)
Record NodeWorld := mkNodeWorld {
  wNonce : Address -> Z; wBalance : Address -> Z; wCode : Address -> bytes; wSlot : Address -> Hash -> Hash;
}.
Record world_ok (w : NodeWorld) : Prop := {
  w_nonce a : is_u64 (wNonce w a);
  w_balance a : 0 <= wBalance w a < 2 ^ 256;
  w_code a : is_slice (wCode w a);
  w_slot a k : is_hash (wSlot w a k);
}.
Section World.
Context {N : Type} `{Transport N} `{GoJson} `{FastJson} (keccak : bytes -> Hash).
Context (w : NodeWorld) (Hw : world_ok w) (Hk : forall b, is_hash (keccak b)).
(** [standing n]: in the state [n] the node answers for [w], and goes on to. *)
Context (standing : N -> Prop).
Definition says (method : String.string) (params : list json) (text : bytes) : Prop := forall n, standing n ->
  exists raw n', transportCall (str method) params n = (inl raw, n') /\ standing n' /\ goJSON raw = Some (JString text).
Arguments says method%_string params text.
Definition latest : json := JString (str "latest").
(** What the JSON-RPC interface of a node documents. *)
Record shows : Prop := {
  sh_nonce a : says "eth_getTransactionCount" [jbytes a; latest] (x0 ++ hexNum (wNonce w a));
  sh_balance a : says "eth_getBalance" [jbytes a; latest] (x0 ++ hexNum (wBalance w a));
  sh_code a : says "eth_getCode" [jbytes a; latest] (toText (wCode w a));
  sh_slot a k : is_hash k -> says "eth_getStorageAt" [jbytes a; JString (x0 ++ hexNum (be_val k)); latest] (toText (wSlot w a k));
}.
Context (Hsh : shows).

Definition world_account (a : Address) : EthAccount :=
  mkAccount (wNonce w a) (Some (of_Z (wBalance w a))) (wCode w a) (keccak (wCode w a)).
(** The store a standing node amounts to *)
Definition world_store (key : bytes) : store_result :=
  match key with
  | [] => StoreNotFound
  | p :: rest =>
      if p =? ST_ETH_ACCOUNT then
        let a := world_account (BytesToAddress rest) in
        Found (account_bytes (Nonce a) (of_Z (wBalance w (BytesToAddress rest))) (acctCode a) (acctCodeHash a))
      else if p =? ST_STORAGE then
        if len key <? 21 then StoreNotFound else Found (wSlot w (BytesToAddress (slice 1 21 key)) (BytesToHash (drop 21 key)))
      else StoreNotFound
  end.
Record follows (r : RemoteDB) : Prop := {
  fo_accounts a x : Accounts r !! a = Some x -> x = world_account a;
  fo_slots a k v : Slots r !! (a, k) = Some v -> v = wSlot w a k;
}.
Lemma follows_new : follows NewRemoteDB.
Proof. split; intros; by rewrite ?lookup_empty in *. Qed.

Lemma account_ok_world a : account_ok (world_account a).
Proof. split; cbn; [apply Hw|intros b [= <-]; apply of_Z_ok|apply Hw|apply Hk]. Qed.
Lemma ask_string {A} method params text (f : bytes -> outcome (A + rpc_error)) a r n :
  says method params text -> f text = Ret (inl a) -> standing n ->
  exists n', ask (andThen (clientCall method out_string params) f) (r, n) = Ret (a, (r, n')) /\ standing n'.
Proof.
  intros Hs Ef Hn. destruct (Hs n Hn) as (raw & n' & Ec & Hn' & Ej). exists n'. split; [|done].
  unfold ask, andThen, clientCall, out_string. cbv [mbind M_bind outcome_bind lift]. by rewrite Ec, Ej, Ef.
Qed.
Lemma parseUint64orHex_hex z : is_u64 z -> parseUint64orHex (x0 ++ hexNum z) = inl z.
Proof. intros Hz. unfold parseUint64orHex. cbn [strip_prefix x0 app Z.eqb Pos.eqb]. by rewrite ParseUint_hexNum. Qed.
Lemma two_more z : (len (x0 ++ z) <? 2) = false.
Proof. rewrite len_app. pose proof (len_nonneg z). change (len x0) with 2. zbool; [lia|done]. Qed.
Lemma ask_nonce a r n : standing n -> exists n', ask (eth_GetNonce a Latest) (r, n) = Ret (wNonce w a, (r, n')) /\ standing n'.
Proof.
  intros Hn. eapply (ask_string "eth_getTransactionCount" [jbytes a; latest]); [apply Hsh | | exact Hn].
  unfold pureReply. by rewrite parseUint64orHex_hex by apply Hw.
Qed.
Lemma ask_balance a r n : standing n -> exists n', ask (eth_GetBalance a Latest) (r, n) = Ret (wBalance w a, (r, n')) /\ standing n'.
Proof.
  intros Hn. eapply (ask_string "eth_getBalance" [jbytes a; latest]); [apply Hsh | | exact Hn]. cbv beta.
  rewrite two_more. change (drop 2 (x0 ++ ?z)) with z. by rewrite SetString_hexNum.
Qed.
Lemma ask_code a r n : standing n -> exists n', ask (eth_GetCode a) (r, n) = Ret (toText (wCode w a), (r, n')) /\ standing n'.
Proof.
  intros Hn. destruct (sh_code Hsh a n Hn) as (raw & n' & Ec & Hn' & Ej). exists n'. split; [|done].
  unfold ask, eth_GetCode, clientCall, out_string. fold latest. cbv [mbind outcome_bind]. by rewrite Ec, Ej.
Qed.
Lemma ask_slot a k r n : is_hash k -> standing n ->
  exists n', ask (eth_GetStorage a k Latest) (r, n) = Ret (wSlot w a k, (r, n')) /\ standing n'.
Proof.
  intros Hh Hn. eapply (ask_string "eth_getStorageAt" [jbytes a; JString (x0 ++ hexNum (be_val k)); latest]); [by apply Hsh | | exact Hn].
  cbv beta. unfold HexToHash. rewrite HashUnmarshalText_toText by apply Hw. done.
Qed.
Lemma FromBig_world a : (FromBig (wBalance w a)).1 = of_Z (wBalance w a).
Proof. unfold FromBig. by rewrite SetFromBig_ok. Qed.
Lemma GetAccount_shows a r n : follows r -> standing n -> exists r' n',
  GetAccount keccak a (r, n) = Ret (world_account a, (r', n')) /\ follows r' /\ standing n'.
Proof.
  intros Hr Hn. unfold GetAccount. change ((gets fst ≫= ?k) (r, n)) with (k r (r, n)). cbv beta.
  destruct (Accounts r !! a) as [x|] eqn:Ea.
  { exists r, n. rewrite (fo_accounts _ Hr _ _ Ea). done. }
  destruct (ask_nonce a r n Hn) as (n1 & E1 & Hn1). rewrite (M_bind_eq _ _ _ _ _ E1).
  destruct (ask_balance a r n1 Hn1) as (n2 & E2 & Hn2). rewrite (M_bind_eq _ _ _ _ _ E2).
  destruct (ask_code a r n2 Hn2) as (n3 & E3 & Hn3). rewrite (M_bind_eq _ _ _ _ _ E3).
  unfold toText. rewrite two_more. change (drop 2 (x0 ++ ?z)) with z. rewrite DecodeString_EncodeToString by apply Hw.
  cbv zeta. rewrite FromBig_world. fold (world_account a). eexists _, n3. split; [reflexivity|]. split; [|done].
  split; cbn [Accounts Slots]; [|apply Hr]. intros b y. destruct (decide (a = b)) as [->|Hne].
  - rewrite lookup_insert_eq. by intros [= <-].
  - rewrite lookup_insert_ne by done. apply Hr.
Qed.
Lemma GetStorage_shows a k r n : is_hash k -> follows r -> standing n -> exists r' n',
  GetStorage a k (r, n) = Ret (wSlot w a k, (r', n')) /\ follows r' /\ standing n'.
Proof.
  intros Hh Hr Hn. unfold GetStorage. change ((gets fst ≫= ?k) (r, n)) with (k r (r, n)). cbv beta.
  destruct (Slots r !! (a, k)) as [x|] eqn:Ea.
  { exists r, n. rewrite (fo_slots _ Hr _ _ _ Ea). done. }
  destruct (ask_slot a k r n Hh Hn) as (n1 & E1 & Hn1). rewrite (M_bind_eq _ _ _ _ _ E1).
  eexists _, n1. split; [reflexivity|]. split; [|done]. split; cbn [Accounts Slots]; [apply Hr|]. intros b k' v.
  destruct (decide ((a, k) = (b, k'))) as [[= -> ->]|Hne].
  - rewrite lookup_insert_eq. by intros [= <-].
  - rewrite lookup_insert_ne by done. apply Hr.
Qed.
(** The keys the state database asks for *)
Definition state_key (key : bytes) : Prop := bytes_ok key /\
  match key with p :: rest => p = ST_ETH_ACCOUNT \/ p = ST_STORAGE /\ 21 <= len key | [] => False end.
Lemma account_key a : bytes_ok a -> state_key (ST_ETH_ACCOUNT :: a).
Proof. intros Ha. split; [by constructor | by left]. Qed.
Lemma slot_key a k : is_address a -> is_hash k -> state_key (ST_STORAGE :: a ++ k).
Proof.
  intros [Ha Hl] [Hh Hlk]. split; [constructor; [done | by apply Forall_app]|]. right. split; [done|].
  unfold len. cbn [length]. rewrite length_app. lia.
Qed.
Lemma Get_shows key r n : state_key key -> follows r -> standing n -> exists v r' n',
  Get keccak key (r, n) = Ret (v, (r', n')) /\ world_store key = Found v /\ follows r' /\ standing n'.
Proof.
  intros [Hb Hk'] Hr Hn. destruct key as [|p rest]; [done|]. cbn [Get world_store]. destruct Hk' as [->|[-> Hl]].
  - rewrite Z.eqb_refl. destruct (GetAccount_shows (BytesToAddress rest) r n Hr Hn) as (r' & n' & E & Hr' & Hn').
    rewrite (M_bind_eq _ _ _ _ _ E). unfold lift.
    rewrite (SerializeToBytes_ok _ (of_Z (wBalance w (BytesToAddress rest))) (account_ok_world _) eq_refl).
    eexists _, r', n'. by split.
  - change (ST_STORAGE =? ST_ETH_ACCOUNT) with false. cbv iota. rewrite Z.eqb_refl. rewrite (proj2 (Z.ltb_ge _ _) Hl).
    destruct (GetStorage_shows (BytesToAddress (slice 1 21 (ST_STORAGE :: rest))) (BytesToHash (drop 21 (ST_STORAGE :: rest))) r n) as (r' & n' & E & Hr' & Hn'); [|done..|].
    + by apply BytesToHash_ok, Forall_drop.
    + rewrite E. by eexists _, r', n'.
Qed.
Lemma read_all_shows keys : forall r n, Forall state_key keys -> follows r -> standing n -> exists vs r' n',
  read_all keccak keys (r, n) = Ret (vs, (r', n')) /\ Forall2 (fun k v => world_store k = Found v) keys vs /\ follows r' /\ standing n'.
Proof.
  induction keys as [|k keys IH]; intros r n Hks Hr Hn; [by exists [], r, n|]. apply list.Forall_cons in Hks as [Hk1 Hks]. cbn [read_all].
  destruct (Get_shows k r n Hk1 Hr Hn) as (v & r1 & n1 & E1 & Ev & Hr1 & Hn1). rewrite (M_bind_eq _ _ _ _ _ E1).
  destruct (IH r1 n1 Hks Hr1 Hn1) as (vs & r2 & n2 & E2 & Hvs & Hr2 & Hn2). rewrite (M_bind_eq _ _ _ _ _ E2).
  exists (v :: vs), r2, n2. split; [done|]. split; [by constructor | done].
Qed.
Lemma world_store_ok (Hz : forall b, keccak b <> zero_hash) key v : world_store key = Found v -> value_ok key v.
Proof.
  destruct key as [|p rest]; [done|]. cbn [world_store value_ok]. destruct (p =? ST_ETH_ACCOUNT).
  - intros [= <-]. right. eexists _, _, _, _. split; [reflexivity|]. split; [apply account_ok_world|].
    unfold IsEmpty. cbn. rewrite bool_decide_eq_false_2 by apply Hz. by rewrite andb_false_r.
  - destruct (p =? ST_STORAGE); [|done]. destruct (_ <? 21); [done|]. intros [= <-].
    split; [apply Hw|]. unfold len, max_slice. rewrite (proj2 (w_slot _ Hw _ _)). lia.
Qed.
End World.
