(* ===== verification/Process.v ===== *)
(** * The executor

    src/executor/state_processor.go ([applyTransaction], [ApplyTransaction]) and
    executor.go ([Executor]): a transaction is turned into a message, run by the
    state transition of Executor.v on the database of Storage.v, the database is
    committed to the overlay, and a receipt is made of the result.

    The executor's [overlayDB] is the backend of its [cacheDB], one object in the
    code and one value here.  The store below is the remote node, as the function
    of the key that Remote.v proves it to be; [RemoteDB.NewIterator] panics.
    Tracing only observes and is left out.

    Parameters: the random heights of the tables, [util.BytesPrefix], the order in
    which Go visits the map of suicided contracts ([order]), the spare bytes
    behind returned data, the hashes of earlier blocks the node answers
    ([hashFn]), the RLP library and the registered parser of logs. *)

From S2P Require Import Prelude Words Uint256 Params Config Stack Memory Opcodes Analysis State GasTable.
From S2P Require Import Instructions JumpTable Evm Interpreter Codec Storage Executor SkipList Iterators SkipListTheorems Cleaning.
From S2P Require Structs.
From S2P Require Import Rpc Remote.

(** No iterator of the remote store exists. *)
#[export] Instance no_iterator : StoreIterator () Empty_set := {|
  itFirst _ (i : Empty_set) := match i with end; itNext _ (i : Empty_set) := match i with end;
  itKey (i : Empty_set) := match i with end; itValue (i : Empty_set) := match i with end;
  itError (i : Empty_set) := match i with end;
|}.

Inductive process_error := MessageError (e : exec_error) | CommitError (code : Z) | DatabaseError (e : db_error).

(** The fields of a transaction a message is made of *)
Definition message_tx (t : Structs.Transaction) : Transaction :=
  mkTransaction (Structs.tFrom t) (Structs.tTo t) (Structs.tInput t) (Structs.tGasPrice t) (Structs.tGas t) (Structs.tValue t)
    (Structs.tNonce t).
Definition storage_log (l : StorageLog) : Address * list Hash * bytes := (LogAddress l, Topics l, LogData l).

Record Eip155Context := mkEip155 { ctxBlockHash : Hash; ctxTxIndex : Z; ctxHeight : Z; ctxTimestamp : Z; ctxCoinbase : Address }.
Record Executor := mkExecutor { exStore : bytes -> store_result; exCacheDB : CacheDB SkipTable; exChainID : Z }.

Section Process.
Context (draws : bytes -> bytes -> nat -> Z) (BytesPrefix : bytes -> Range) (order : gset (list Z) -> list Address).
Context (spare : bytes -> bytes) (o : Outside) (hashFn : Z -> Hash) (MarshalTo : Structs.rlp -> bytes).
Context (parseLog : Structs.Log -> option Structs.ParsedEvent) (fuel : nat).
Abbreviation DB := (StorageDB SkipTable).
#[local] Instance process_table : MemDB SkipTable := skip_MemDB draws.
#[local] Instance process_db : StateDB DB := storage_StateDB (oKeccak256 o).

(** [statedb.Commit()] *)
Definition commit : M (EVM DB) (option Z) := fun e =>
  '(err, s) ← sdbCommit draws (remoteNewIterator (SI := Empty_set)) BytesPrefix fuel (order (Suicided (statedb e))) (statedb e);
  Ret (err, set_statedb s e).

Definition new_receipt (status : Z) (hash : Hash) (from : Address) (gasUsed : Z) : Structs.Receipt :=
  Structs.mkReceipt status hash 0 zero_address zero_hash from 0 gasUsed 0 [] [].
Definition set_contract (a : Address) (r : Structs.Receipt) : Structs.Receipt :=
  Structs.mkReceipt (Structs.rStatus r) (Structs.rTransactionHash r) (Structs.rTransactionIndex r) a (Structs.rBlockHash r)
    (Structs.rFrom r) (Structs.rBlockNumber r) (Structs.rGasUsed r) (Structs.rCumulativeGasUsed r) (Structs.rLogsBloom r) (Structs.rLogs r).
Definition set_block (hash : Hash) (number : Z) (r : Structs.Receipt) : Structs.Receipt :=
  Structs.mkReceipt (Structs.rStatus r) (Structs.rTransactionHash r) (Structs.rTransactionIndex r) (Structs.rContractAddress r) hash
    (Structs.rFrom r) number (Structs.rGasUsed r) (Structs.rCumulativeGasUsed r) (Structs.rLogsBloom r) (Structs.rLogs r).
Definition set_index (i : Z) (r : Structs.Receipt) : Structs.Receipt :=
  Structs.mkReceipt (Structs.rStatus r) (Structs.rTransactionHash r) i (Structs.rContractAddress r) (Structs.rBlockHash r)
    (Structs.rFrom r) (Structs.rBlockNumber r) (Structs.rGasUsed r) (Structs.rCumulativeGasUsed r) (Structs.rLogsBloom r) (Structs.rLogs r).

Definition txHash (tx : Structs.Transaction) : Hash := (Structs.TransactionHash (oKeccak256 o) MarshalTo tx).1.
(** A transaction that creates a contract stores its address. *)
Definition addContract (env : Env DB) (msg : message) (receipt : Structs.Receipt) : M (EVM DB) Structs.Receipt :=
  match to msg with
  | None => n ← db (GetNonce (Origin env)); mret (set_contract (oCreateAddress o (Origin env) (sub64 n 1)) receipt)
  | Some _ => mret receipt
  end.
(** The receipt, after the commit; the logs take the receipt's index, still zero. *)
Definition makeReceipt (env : Env DB) (msg : message) (tx : Structs.Transaction) (result : ExecutionResult)
  : M (EVM DB) Structs.Receipt :=
  let status := if Failed result then 0 else 1 in
  receipt ← addContract env msg (new_receipt status (txHash tx) (from msg) (UsedGas result));
  s ← gets statedb;
  let receipt := set_block (BlockHash s) (bigUint64 (BlockNumber env)) receipt in
  mret (Structs.AddStorageLogs parseLog (storage_log <$> GetLogs s) receipt).
Definition applyTransaction (env : Env DB) (config : ChainConfig) (jt : JumpTable DB) (msg : message)
    (tx : Structs.Transaction) (usedGas : Z) (feeReceiver : Address)
  : M (EVM DB) (ExecutionResult * Structs.Receipt * Z + process_error) :=
  _ ← modify (fun e => Executor.Reset (statedb e) e);
  r ← ApplyMessage env config jt fuel msg feeReceiver spare;
  match r with
  | inr e => mret (inr (MessageError e))
  | inl result =>
      err ← commit;
      match err with
      | Some code => mret (inr (CommitError code))
      | None =>
          let usedGas := add64 usedGas (UsedGas result) in
          receipt ← makeReceipt env msg tx result;
          mret (inl (result, receipt, usedGas))
      end
  end.
Definition ApplyTransaction (config : ChainConfig) (statedb_ : DB) (blockHeight timestamp : Z) (tx : Structs.Transaction)
    (usedGas : Z) (feeReceiver : Address) (cfg : EvmConfig) (check : bool)
  : outcome ((ExecutionResult * Structs.Receipt * Z + process_error) * DB) :=
  let msg := MessageFromTx (message_tx tx) check in
  let blockContext := NewEVMBlockContext blockHeight timestamp hashFn in
  '(jt, e) ← NewEVM blockContext statedb_ config cfg;
  let env := evm_env o blockContext (NewEVMTxContext msg) config cfg in
  '(r, e) ← applyTransaction env config jt msg tx usedGas feeReceiver e;
  Ret (r, statedb e).

(** ** Executor *)
Definition fresh_cache (store : bytes -> store_result) : CacheDB SkipTable := NewCacheDB (NewOverlayDB store).
Definition NewExecutor (store : bytes -> store_result) : Executor := mkExecutor store (fresh_cache store) 1234.
Definition ResetOverlay (ex : Executor) : Executor := mkExecutor (exStore ex) (fresh_cache (exStore ex)) (exChainID ex).
Definition ExecuteTransaction (tx : Structs.Transaction) (ctx : Eip155Context) (ex : Executor)
  : outcome ((ExecutionResult * Structs.Receipt + process_error) * Executor) :=
  let config := GetChainConfig (exChainID ex) in
  let statedb_ := NewStateDB (exCacheDB ex) (txHash tx) (ctxBlockHash ctx) in
  '(r, s) ← ApplyTransaction config statedb_ (ctxHeight ctx) (ctxTimestamp ctx) tx 0 (ctxCoinbase ctx) (mkEvmConfig false false []) false;
  let ex := mkExecutor (exStore ex) (cacheDB s) (exChainID ex) in
  match r with
  | inr e => Ret (inr e, ex)
  | inl (result, receipt, _) =>
      match DbErr s with
      | Some e => Ret (inr (DatabaseError e), ex)
      | None => Ret (inl (result, set_index (ctxTxIndex ctx) receipt), ex)
      end
  end.
End Process.
