(* ===== verification/ProcessTheorems.v ===== *)
(** * Theorems about the executor and the remote store

    Reads of a remote node come from one fixed store
    ([remote_reads_are_stable]); executing a transaction is the message, the
    commit and the receipt, on every branch ([execute_transaction_exact]). *)

From stdpp Require Import strings.
From S2P Require Import Prelude Words Uint256 Uint256Arith Uint256Div Uint256Bits Params Config Stack Memory.
From S2P Require Import Opcodes Analysis State GasTable Instructions JumpTable Evm Interpreter Invariants.
From S2P Require Import InstrSafety GasSafety StepSafety TableSafety Safety Codec Storage StorageFacts.
From S2P Require Import Executor ExecutorFacts SkipList Iterators SkipListTheorems Cleaning.
From S2P Require Structs.
From S2P Require Import World Text.
From S2P Require StructsFacts.
From S2P Require Import Rpc Remote Process.

(** ** Reading a remote node *)
(** C26.  A remote node is read as one fixed store.  Whatever the node answers and
    however it changes between requests, the values a sequence of reads returns are
    those of one function of the key, which agrees with every value read before;
    reading the same keys again returns them without asking the node.  On a node
    that shows one world the reads return, for every key the state database uses,
    exactly the accounts and slots of that world, in the encoding the database
    decodes. *)
Theorem remote_reads_are_stable {N} `{Transport N} `{GoJson} `{Structs.FastJson} (keccak : bytes -> Hash) keys r n :
  (forall vs r' n', read_all keccak keys (r, n) = Ret (vs, (r', n')) ->
     (exists store : bytes -> bytes, vs = store <$> keys /\ forall k v, kept_for r k = Some v -> store k = v) /\
     forall n2, read_all keccak keys (r', n2) = Ret (vs, (r', n2))) /\
  (forall w standing, world_ok w -> (forall b, is_hash (keccak b)) -> shows w standing -> follows keccak w r -> standing n ->
     Forall state_key keys ->
     exists vs r' n', read_all keccak keys (r, n) = Ret (vs, (r', n')) /\
       Forall2 (fun k v => world_store keccak w k = Found v) keys vs /\ follows keccak w r' /\ standing n').
Proof.
  split.
  - intros vs r' n' E. destruct (read_all_kept keccak keys r n vs r' n' E) as [Hg Hv]. split.
    + exists (fun k => default [] (kept_for r' k)). split.
      * clear E. induction Hv as [|k v keys vs Hk _ IH]; [done|]. cbn. by rewrite Hk, <- IH.
      * intros k v Hk. by rewrite (kept_grows r r' k v Hg Hk).
    + intros n2. by apply read_all_again.
  - intros w standing Hw Hk Hsh Hr Hn Hkeys. by apply read_all_shows.
Qed.

(** ** Executing a transaction *)
Section Execute.
Context (draws : bytes -> bytes -> nat -> Z) (BytesPrefix : bytes -> Range) (order : gset (list Z) -> list Address).
Context (spare : bytes -> bytes) (o : Outside) (hashFn : Z -> Hash) (MarshalTo : Structs.rlp -> bytes).
Context (parseLog : Structs.Log -> option Structs.ParsedEvent) (fuel : nat).
Abbreviation DB := (StorageDB SkipTable).
#[local] Instance exec_table : MemDB SkipTable := skip_MemDB draws.
#[local] Instance exec_table_laws : MemDBLaws SkipTable := skip_MemDBLaws draws.
#[local] Instance exec_db : StateDB DB := storage_StateDB (oKeccak256 o).
Abbreviation exec := (ExecuteTransaction draws BytesPrefix order spare o hashFn MarshalTo parseLog fuel).

Context (tx : Structs.Transaction) (ctx : Eip155Context) (ex : Executor).
(** The configuration, message, environment and machine a transaction starts with *)
Definition tx_config : ChainConfig := GetChainConfig (exChainID ex).
Definition tx_message : message := MessageFromTx (message_tx tx) false.
Definition tx_env : Env DB :=
  evm_env o (NewEVMBlockContext (ctxHeight ctx) (ctxTimestamp ctx) hashFn) (NewEVMTxContext tx_message) tx_config (mkEvmConfig false false []).
Definition tx_start : EVM DB :=
  mkEVM (NewStateDB (exCacheDB ex) (txHash o MarshalTo tx) (ctxBlockHash ctx)) 0 0 false [] ∅ 0.
Definition tx_table : outcome (JumpTable DB) := NewEVMInterpreter (chainRules tx_env) [].

(** What a receipt says of a run that ended in [s] *)
Definition receipt_for (used : Z) (failed : bool) (s : DB) (r : Structs.Receipt) : Prop :=
  Structs.rStatus r = (if failed then 0 else 1) /\ Structs.rGasUsed r = used /\ Structs.rFrom r = Structs.tFrom tx /\
  Structs.rTransactionHash r = txHash o MarshalTo tx /\ Structs.rTransactionIndex r = ctxTxIndex ctx /\
  Structs.rBlockHash r = ctxBlockHash ctx /\ Structs.rBlockNumber r = bigUint64 (to_int64 (ctxHeight ctx)) /\
  (forall a, Structs.tTo tx = Some a -> Structs.rContractAddress r = zero_address) /\
  (fun l => (Structs.lAddress l, Structs.lTopics l, Structs.lData l)) <$> Structs.rLogs r = storage_log <$> logs s.
(** The executor after a run that ended in [s]: the database is committed. *)
Definition committed (s : DB) (ex' : Executor) : Prop :=
  cache_ok (exCacheDB ex') /\ (forall k, view (exCacheDB ex') k = view (cacheDB s) k) /\
  (forall k, memGet k (memdb (exCacheDB ex')) = None) /\ calm (backend (exCacheDB ex')) /\
  exStore ex' = exStore ex /\ exChainID ex' = exChainID ex.

Context (Hout : outside_ok o) (Hhash : forall n, is_hash (hashFn n)).
Context (Hcalm : calm (backend (exCacheDB ex))).
#[local] Instance exec_spec : StateDBSpec DB := calm_spec (oKeccak256 o) (out_keccak o Hout) (statedb tx_start) Hcalm.
#[local] Instance exec_mode : Mode := IsByzantium tx_config (Some (to_int64 (ctxHeight ctx))).
Context (Hmsg : msg_ok fuel tx_message) (Hcache : cache_ok (exCacheDB ex)).
Context (Horder : forall s, order s ≡ₚ elements s).

Lemma tx_env_ok : env_ok tx_env.
Proof. apply evm_env_ok; [done|done|apply Hmsg|done]. Qed.
Lemma tx_table_built : exists jt, tx_table = Ret jt /\ good frontier_keys jt.
Proof. exact (NewEVMInterpreter_good (S := DB) (chainRules tx_env) [] eq_refl). Qed.
Lemma tx_start_ok : evm_ok tx_start.
Proof. by split. Qed.
Lemma tx_applied jt : tx_table = Ret jt ->
  wp (applyMsg tx_env tx_config (Run tx_env jt fuel) tx_message (ctxCoinbase ctx))
     (applied tx_env tx_config jt fuel tx_message (ctxCoinbase ctx) tx_start) tx_start.
Proof.
  intros Ejt. destruct tx_table_built as (jt' & E & Hg). rewrite Ejt in E. injection E as <-.
  apply applyMsg_ok; [apply tx_env_ok|done|intros a s b s' [Hs _]; by apply storage_balances|done|apply tx_start_ok|done].
Qed.

(** The commit of a run without destroyed contracts, and of one with some *)
Abbreviation commitE := (commit draws BytesPrefix order fuel).
Definition after_commit (s : DB) : DB :=
  set_cache (cacheCommit (cacheDB s)) (set_snapshots [] (set_suicided ∅ s)).
Lemma commit_clean e : Suicided (statedb e) = ∅ -> commitE e = Ret (None, set_statedb (after_commit (statedb e)) e).
Proof.
  intros E. unfold commit. rewrite E. assert (order ∅ = []) as ->.
  { apply Permutation_nil. rewrite (Horder ∅). by rewrite elements_empty. }
  by destruct e as [[] ? ? ? ? ? ?].
Qed.
Lemma commit_destroyed e : Suicided (statedb e) <> ∅ -> commitE e = Panic.
Proof.
  intros Hne. unfold commit. destruct (order (Suicided (statedb e))) as [|a l] eqn:E; [|done].
  destruct Hne. apply leibniz_equiv, elements_empty_inv. apply Permutation_nil. by rewrite <- (Horder _), E.
Qed.
Lemma after_commit_ok s : storage_ok s -> storage_ok (after_commit s).
Proof.
  intros [Hc Hr _ _]. split; cbn; [by apply cacheCommit_ok|done|done|]. by intros i sn.
Qed.

Lemma storage_logs_of r i l :
  (fun l => (Structs.lAddress l, Structs.lTopics l, Structs.lData l)) <$> Structs.storage_logs parseLog r i l = l.
Proof.
  revert i. induction l as [|[[a t] d] l IH]; intros i; [done|]. cbn. rewrite IH. f_equal.
  unfold Structs.ParseEvent. by destruct (parseLog _).
Qed.
(** Reading the nonce for the receipt changes nothing. *)
Lemma addContract_ok receipt e : storage_ok (statedb e) -> calm (backend (cacheDB (statedb e))) -> exists a,
  addContract draws o tx_env tx_message receipt e = Ret (match Structs.tTo tx with None => set_contract a receipt | Some _ => receipt end, e).
Proof.
  intros Hs Hc. unfold addContract. change (to tx_message) with (Structs.tTo tx). destruct (Structs.tTo tx); [by exists zero_address|].
  destruct (sdbGetNonce_calm (Origin tx_env) _ Hs Hc) as (n & En). eexists.
  assert (E : db (GetNonce (Origin tx_env)) e = Ret (n, e)) by (unfold db; cbn [GetNonce exec_db storage_StateDB]; setoid_rewrite En; by destruct e).
  rewrite (M_bind_eq _ _ _ _ _ E). reflexivity.
Qed.
Lemma makeReceipt_ok result e : storage_ok (statedb e) -> calm (backend (cacheDB (statedb e))) -> bhash (statedb e) = ctxBlockHash ctx ->
  exists r, makeReceipt draws o MarshalTo parseLog tx_env tx_message tx result e = Ret (r, e) /\
    receipt_for (UsedGas result) (Failed result) (statedb e) (set_index (ctxTxIndex ctx) r).
Proof.
  intros Hs Hc Hb. unfold makeReceipt.
  destruct (addContract_ok (new_receipt (if Failed result then 0 else 1) (txHash o MarshalTo tx) (from tx_message) (UsedGas result)) e Hs Hc) as (a & E).
  rewrite (M_bind_eq _ _ _ _ _ E). eexists. split; [reflexivity|]. unfold BlockHash. rewrite Hb.
  destruct (Structs.tTo tx) as [b|] eqn:Et; split_and!; try done; try apply storage_logs_of; cbn; intros c; by rewrite Et.
Qed.

Abbreviation message_run jt := (applyMsg tx_env tx_config (Run tx_env jt fuel) tx_message (ctxCoinbase ctx) tx_start).
Abbreviation apply_tx jt := (applyTransaction draws BytesPrefix order spare o MarshalTo parseLog fuel tx_env tx_config jt tx_message tx 0
  (ctxCoinbase ctx)).
(** The end of [ExecuteTransaction] *)
Definition exec_end (r : ExecutionResult * Structs.Receipt * Z + process_error) (s : DB)
  : outcome ((ExecutionResult * Structs.Receipt + process_error) * Executor) :=
  let ex := mkExecutor (exStore ex) (cacheDB s) (exChainID ex) in
  match r with
  | inr e => Ret (inr e, ex)
  | inl (result, receipt, _) =>
      match dbErr (backend (cacheDB s)) with
      | Some e => Ret (inr (DatabaseError e), ex)
      | None => Ret (inl (result, set_index (ctxTxIndex ctx) receipt), ex)
      end
  end.
Lemma exec_eq jt : tx_table = Ret jt -> exec tx ctx ex = ('(r, e) ← apply_tx jt tx_start; exec_end r (statedb e)).
Proof.
  intros Ejt. unfold ExecuteTransaction, ApplyTransaction, NewEVM.
  change (NewEVMInterpreter (RulesAt (GetChainConfig (exChainID ex)) (Some (bcBlockNumber (NewEVMBlockContext (ctxHeight ctx) (ctxTimestamp ctx) hashFn))))
    (ExtraEips (mkEvmConfig false false []))) with tx_table.
  rewrite Ejt. cbn [mbind outcome_bind]. fold tx_config tx_message tx_start.
  match goal with |- ((?m ≫= _) ≫= _) = _ => change m with (apply_tx jt tx_start) end. by destruct (apply_tx jt tx_start) as [[r e]| |].
Qed.
(** [applyTransaction] starts with the message, *)
Lemma apply_tx_eq jt : apply_tx jt tx_start =
  ('(r, e) ← message_run jt;
   match r with
   | inr e0 => Ret (inr (MessageError e0), e)
   | inl (used, vmerr, ret) =>
       result ← NewExecutionResult used vmerr ret (spare ret);
       (err ← commitE; match err with
        | Some code => mret (inr (CommitError code))
        | None => receipt ← makeReceipt draws o MarshalTo parseLog tx_env tx_message tx result;
                  mret (inl (result, receipt, add64 0 (UsedGas result)))
        end) e
   end).
Proof.
  unfold applyTransaction, ApplyMessage, TransitionDb. cbv [mbind M_bind outcome_bind modify lift].
  change (Executor.Reset (statedb tx_start) tx_start) with tx_start.
  destruct (applyMsg _ _ _ _ _ tx_start) as [[[[[used vmerr] ret]|e0] e]|p|]; try done.
  by destruct (NewExecutionResult used vmerr ret (spare ret)).
Qed.
(** and goes on with the commit and the receipt. *)
Lemma execute_after jt used vmerr ret e' : tx_table = Ret jt -> message_run jt = Ret (inl (used, vmerr, ret), e') ->
  storage_ok (statedb e') -> framed (statedb tx_start) (statedb e') ->
  match NewExecutionResult used vmerr ret (spare ret) with
  | Ret result =>
      if decide (Suicided (statedb e') = ∅) then
        exists receipt ex', exec tx ctx ex = Ret (inl (result, receipt), ex') /\
          receipt_for (UsedGas result) (Failed result) (statedb e') receipt /\ committed (statedb e') ex'
      else exec tx ctx ex = Panic
  | PanicAt p => exec tx ctx ex = PanicAt p
  | NoFuel => exec tx ctx ex = NoFuel
  end.
Proof.
  intros Ejt Erun Hs [Hb Hh _]. rewrite (exec_eq jt Ejt), apply_tx_eq, Erun. cbn [mbind outcome_bind].
  destruct (NewExecutionResult used vmerr ret (spare ret)) as [result|p|]; [|done..]. cbn [mbind outcome_bind]. case_decide as Hd.
  - rewrite (M_bind_eq _ _ _ _ _ (commit_clean e' Hd)). set (e2 := set_statedb _ e').
    assert (Hs2 : storage_ok (statedb e2)) by by apply after_commit_ok.
    assert (Hc2 : calm (backend (cacheDB (statedb e2)))) by (apply cacheCommit_calm; by rewrite Hb).
    destruct (makeReceipt_ok result e2 Hs2 Hc2) as (r & Er & Hr); [by cbn; rewrite Hh|].
    rewrite (M_bind_eq _ _ _ _ _ Er). cbn [mret M_ret mbind outcome_bind]. unfold exec_end. rewrite (proj1 Hc2).
    eexists _, _. split; [reflexivity|]. split; [exact Hr|]. split_and!; try done; try apply Hs2; intros k; apply cacheCommit_view.
  - assert (E : forall k, (commitE ≫= k) e' = PanicAt (A := (ExecutionResult * Structs.Receipt * Z + process_error) * EVM DB) PCode) by (intros k; cbv [mbind M_bind outcome_bind]; by rewrite (commit_destroyed e' Hd)).
    by rewrite E.
Qed.

Lemma NewExecutionResult_shape used vmerr ret sp :
  match NewExecutionResult used vmerr ret sp with
  | Ret result => UsedGas result = used /\ Failed result = bool_decide (vmerr <> None)
  | PanicAt p => p = PCode
  | NoFuel => False
  end.
Proof.
  unfold NewExecutionResult. destruct vmerr as [e|]; [|done].
  assert (H : match DecodeRevert ret sp with PanicAt p => p = PCode | NoFuel => False | Ret _ => True end).
  { unfold DecodeRevert, readLength. destruct (_ && _); [|done]. destruct (negb _); [done|].
    destruct (2 ^ 63 <=? _); [done|]. destruct (_ <? _); [done|]. cbn [mbind outcome_bind]. by destruct (slice_ok _ _ _). }
  by destruct (DecodeRevert ret sp).
Qed.

(** C3.  Executing a transaction, on every branch, over a store that does not
    fail.  With fuel above the gas limit the message comes to an end and does not
    panic in the executor's own code, the nonce is not checked, and the gas is
    accounted for.  When it returns, the revert data can be read and no contract was
    destroyed, the transaction returns the result and a receipt with the status,
    the gas used, the sender, the hash, index and block of the transaction and the
    logs of the run in order; the changes are in the overlay, the cache is empty,
    every key reads as at the end of the message, and the executor is ready for the
    next transaction.  When a contract was destroyed, or the revert data is
    malformed, it panics. *)
Theorem execute_transaction_exact :
  exists jt, tx_table = Ret jt /\
  match message_run jt with
  | Ret (inl (used, vmerr, ret), e') =>
      settled tx_env tx_config jt fuel tx_message (ctxCoinbase ctx) tx_start used vmerr ret e' /\
      match NewExecutionResult used vmerr ret (spare ret) with
      | Ret result =>
          if decide (Suicided (statedb e') = ∅) then
            exists receipt ex', exec tx ctx ex = Ret (inl (result, receipt), ex') /\
              receipt_for used (bool_decide (vmerr <> None)) (statedb e') receipt /\ committed (statedb e') ex'
          else exec tx ctx ex = Panic
      | _ => exec tx ctx ex = Panic
      end
  | Ret (inr _, _) | NoFuel | PanicAt PCode => False
  | PanicAt p => exec tx ctx ex = PanicAt p
  end.
Proof.
  destruct tx_table_built as (jt & Ejt & _). exists jt. split; [done|].
  pose proof (tx_applied jt Ejt) as Hwp. unfold wp in Hwp.
  destruct (message_run jt) as [[[[[used vmerr] ret]|e0] e']|p|] eqn:Erun; [|by destruct Hwp as [_ [? _]]| |done].
  - destruct Hwp as [Hstep Hset]. split; [done|]. destruct (e_db _ (s_ok _ _ Hstep)) as [Hs Hf].
    pose proof (execute_after jt used vmerr ret e' Ejt Erun Hs Hf) as Hx.
    pose proof (NewExecutionResult_shape used vmerr ret (spare ret)) as Hsh.
    destruct (NewExecutionResult used vmerr ret (spare ret)) as [result|p|]; [|by subst|done].
    destruct Hsh as [<- <-]. exact Hx.
  - assert (E : exec tx ctx ex = PanicAt p) by (rewrite (exec_eq jt Ejt), apply_tx_eq, Erun; done). by destruct p.
Qed.
End Execute.

(** ** A node and an executor to run *)
(** Every account has nonce 5, 7 wei and the code [code]; every slot holds 9. *)
Definition world1 (code : bytes) : NodeWorld := mkNodeWorld (fun _ => 5) (fun _ => 7) (fun _ => code) (fun _ _ => be_bytes 32 9).
#[local] Existing Instance StructsFacts.reference_json.
#[local] Instance transport1 : Transport () := {| transportCall m params n :=
  let text :=
    if bool_decide (m = str "eth_getTransactionCount") then x0 ++ hexNum 5
    else if bool_decide (m = str "eth_getBalance") then x0 ++ hexNum 7
    else if bool_decide (m = str "eth_getCode") then toText [] else toText (be_bytes 32 9) in
  (inl (Structs.printJSON (Structs.JString text)), n) |}.
#[local] Instance gojson1 : GoJson := {| goJSON := Structs.parseJSON; goElems := fun _ => None |}.
Lemma world1_ok code : is_slice code -> world_ok (world1 code).
Proof. intros Hc. split; cbn; intros; [unfold is_u64; lia|lia|done|]. split; [apply be_bytes_ok | apply length_be_bytes]. Qed.
Lemma shows1 : shows (world1 []) (fun _ : () => True).
Proof. split; intros; intros n _; eexists _, n; (split; [reflexivity|]); (split; [done|]); vm_compute; reflexivity. Qed.
Definition alice1 : Address := be_bytes 20 0xa11ce.
Definition keys1 : list bytes := [ST_ETH_ACCOUNT :: alice1; ST_STORAGE :: alice1 ++ be_bytes 32 1; ST_ETH_ACCOUNT :: alice1].
Lemma remote_reads_are_stable_witness : exists vs r' n', read_all hash0 keys1 (NewRemoteDB, ()) = Ret (vs, (r', n')) /\
  Forall2 (fun k v => world_store hash0 (world1 []) k = Found v) keys1 vs.
Proof.
  destruct (proj2 (remote_reads_are_stable hash0 keys1 NewRemoteDB ()) (world1 []) (fun _ => True)) as (vs & r' & n' & E & Hv & _);
    [by apply world1_ok, slice_lit|apply is_hash0|apply shows1|apply follows_new|done| |].
  - repeat apply list.Forall_cons_2; [apply account_key, be_bytes_ok|apply slot_key|apply account_key, be_bytes_ok|constructor];
      (split; [apply be_bytes_ok | apply length_be_bytes]).
  - by exists vs, r', n'.
Defined.

(** A transaction from [alice1] to [alice1], with no price, in the block 100 *)
Definition tx1 : Structs.Transaction :=
  Structs.mkTransaction zero_hash alice1 (Some alice1) [] 0 60000 (Some 0) 5 [] [] [] zero_hash 0 0.
Definition ctx1 : Eip155Context := mkEip155 (be_bytes 32 77) 3 100 1600000000 zero_address.
Definition draws1 (k v : bytes) (i : nat) : Z := 1.
Definition executor1 (code : bytes) : Executor := NewExecutor draws1 (world_store hash0 (world1 code)).
Definition run1 (code : bytes) :=
  ExecuteTransaction draws1 (fun k => mkRange (Some k) None) elements (fun _ => []) outside0 (fun n => hash0 [n mod 256]) (fun _ => [])
    (fun _ => None) (Z.to_nat 60001) tx1 ctx1 (executor1 code).
Lemma executor1_ok code : is_slice code -> cache_ok (D := SkipTable) (H := skip_MemDB draws1) (exCacheDB (executor1 code)).
Proof.
  intros Hc. pose proof (skip_MemDBLaws draws1) as L. split; cbn [executor1 NewExecutor exCacheDB fresh_cache NewCacheDB NewOverlayDB memdb backend omemdb store_].
  - intros k v. by rewrite memGet_new.
  - intros k v. by rewrite memGet_new.
  - intros k v. apply world_store_ok; [by apply world1_ok|apply is_hash0|apply hash0_nonzero].
Qed.
Lemma executor1_calm code : calm (backend (exCacheDB (executor1 code))).
Proof.
  split; [done|]. intros k c. cbn. unfold world_store. destruct k as [|p k]; [done|]. destruct (_ =? _); [done|].
  destruct (_ =? _); [|done]. by destruct (_ <? _).
Qed.
Lemma tx1_ok : msg_ok (Z.to_nat 60001) (tx_message tx1).
Proof.
  assert (Ha : is_address alice1) by (split; [apply be_bytes_ok | apply length_be_bytes]).
  split; try done; cbn; by intros a [= <-].
Qed.
Lemma execute_transaction_exact_witness : exists result receipt ex' used vmerr s, run1 [] = Ret (inl (result, receipt), ex') /\
  receipt_for outside0 (fun _ => []) tx1 ctx1 used (bool_decide (vmerr <> (None : option exec_error))) s receipt /\
  committed draws1 (executor1 []) s ex'.
Proof.
  assert (Hret : match run1 [] with Ret (inl _, _) => true | _ => false end = true) by (vm_compute; reflexivity).
  destruct (execute_transaction_exact draws1 (fun k => mkRange (Some k) None) elements (fun _ => []) outside0
    (fun n => hash0 [n mod 256]) (fun _ => []) (fun _ => None) (Z.to_nat 60001) tx1 ctx1 (executor1 []) outside0_ok
    (fun n => is_hash0 _) (executor1_calm []) tx1_ok (executor1_ok [] (slice_lit [] eq_refl)) (fun s => Permutation_refl _))
    as (jt & _ & H).
  unfold run1 in Hret |- *. set (x := ExecuteTransaction _ _ _ _ _ _ _ _ _ _ _ _) in *. clearbody x.
  match type of H with match ?m with _ => _ end => destruct m as [[[[[used vmerr] ret]|e0] e']|p|] end; [|destruct H| |destruct H].
  - destruct H as [_ H]. destruct (NewExecutionResult _ _ _ _) as [result|p|]; [|rewrite H in Hret; discriminate Hret..].
    destruct (decide _); [|rewrite H in Hret; discriminate Hret]. destruct H as (receipt & ex' & E & Hr & Hc).
    exists result, receipt, ex', used, vmerr, (statedb e'). split; [exact E|]. split; [exact Hr | exact Hc].
  - destruct p; [destruct H|rewrite H in Hret; discriminate Hret..].
Defined.

(** ** Where the executor goes wrong *)
(** A transaction that destroys a contract panics: the remote store has no
    iterator to list the storage of the contract with ([PUSH1 0; SELFDESTRUCT]). *)
Example destroying_panics : run1 [0x60; 0; 0xff] = Panic.
Proof. vm_compute. reflexivity. Qed.
(** The index of the transaction is set after the logs were made: they keep zero
    ([PUSH1 0; PUSH1 0; LOG0; STOP] as transaction 3). *)
Example logs_keep_index_zero : exists result receipt ex', run1 [0x60; 0; 0x60; 0; 0xa0; 0] = Ret (inl (result, receipt), ex') /\
  Structs.rTransactionIndex receipt = 3 /\ Structs.lTransactionIndex <$> Structs.rLogs receipt = [0].
Proof.
  assert (H : match run1 [0x60; 0; 0x60; 0; 0xa0; 0] with
    | Ret (inl (_, receipt), _) => (Structs.rTransactionIndex receipt, Structs.lTransactionIndex <$> Structs.rLogs receipt)
    | _ => (0, []) end = (3, [0])) by (vm_compute; reflexivity).
  destruct (run1 _) as [[[[result receipt]|e] ex']|p|]; [|done..]. injection H as H1 H2. by exists result, receipt, ex'.
Qed.
(** A node that answers a slot without its leading zeros, as some do, is not
    understood. *)
Example short_slot_panics : Structs.HexToHash (str "0x0") = Panic.
Proof. vm_compute. reflexivity. Qed.
