(* ===== verification/Fields.v ===== *)
(** * Commutative rings, finite fields and their extensions

    The reference algebra for src/crypto/bn256/google: quotient rings by
    [t^2 = b] and [t^3 = b], powers, Fermat's theorem for a field given by the
    list of its elements, and the additivity of the [p]-th power in
    characteristic [p]; and a criterion for prime numbers.  Nothing here depends on
    the code. *)

From Stdlib Require Import ZArith Zdivisibility NArith List Permutation Lia Ring Field Ring_theory.
Import ListNotations.

Declare Scope ralg_scope.
Delimit Scope ralg_scope with R.

(** ** Rings *)
Record cring := mkCring {
  car :> Type;
  r0 : car;
  r1 : car;
  radd : car -> car -> car;
  rmul : car -> car -> car;
  rsub : car -> car -> car;
  ropp : car -> car;
  rth : ring_theory r0 r1 radd rmul rsub ropp eq;
}.
Arguments r0 {_}.
Arguments r1 {_}.
Arguments radd {_} _ _.
Arguments rmul {_} _ _.
Arguments rsub {_} _ _.
Arguments ropp {_} _.
Notation "0" := r0 : ralg_scope.
Notation "1" := r1 : ralg_scope.
Infix "+" := radd : ralg_scope.
Infix "*" := rmul : ralg_scope.
Infix "-" := rsub : ralg_scope.
Notation "- x" := (ropp x) : ralg_scope.
#[local] Open Scope ralg_scope.

(** A field: every element but zero has an inverse, equality is decidable. *)
Record fld := mkFld {
  fring :> cring;
  rinv : fring -> fring;
  f_neq : (1 : fring) <> 0;
  f_inv : forall x : fring, x <> 0 -> rinv x * x = 1;
  f_dec : forall x y : fring, {x = y} + {x <> y};
}.
Arguments rinv {_} _.
Definition rdiv {F : fld} (x y : F) : F := x * rinv y.
Infix "/" := rdiv : ralg_scope.

Lemma fth (F : fld) : field_theory (0 : F) 1 radd rmul rsub ropp rdiv rinv eq.
Proof. constructor; [apply rth | apply f_neq | reflexivity | apply f_inv]. Qed.

(** ** Powers *)
(** The power is sealed: the exponents of the code have hundreds of digits, and
    no comparison of terms may unfold the iteration. *)
Definition rpow_def (R : cring) (x : R) (n : N) : R := N.iter n (rmul x) 1.
Lemma rpow_seal : {f : forall R : cring, R -> N -> R | f = rpow_def}.
Proof. now exists rpow_def. Qed.
Definition rpow {R : cring} : R -> N -> R := proj1_sig rpow_seal R.
Lemma rpow_unseal (R : cring) (x : R) (n : N) : rpow x n = N.iter n (rmul x) 1.
Proof. unfold rpow. now rewrite (proj2_sig rpow_seal). Qed.
Infix "^" := rpow : ralg_scope.

Section Pow.
Context (R : cring).
Add Ring R_ring : (rth R).
Implicit Types x y : R.

Lemma rpow_0 x : x ^ 0%N = 1.
Proof. apply rpow_unseal. Qed.
Lemma rpow_succ x n : x ^ N.succ n = x * x ^ n.
Proof. now rewrite !rpow_unseal, N.iter_succ. Qed.
Lemma rpow_1 x : x ^ 1%N = x.
Proof. change 1%N with (N.succ 0). rewrite rpow_succ, rpow_0. ring. Qed.
Lemma rpow_2 x : x ^ 2%N = x * x.
Proof. change 2%N with (N.succ 1). now rewrite rpow_succ, rpow_1. Qed.
Lemma rpow_add x m n : x ^ (m + n)%N = x ^ m * x ^ n.
Proof.
  induction m as [|m IH] using N.peano_ind; [rewrite N.add_0_l, rpow_0; ring|].
  rewrite N.add_succ_l, !rpow_succ, IH. ring.
Qed.
Lemma rpow_one n : (1 : R) ^ n = 1.
Proof. induction n as [|n IH] using N.peano_ind; [apply rpow_0|]. rewrite rpow_succ, IH. ring. Qed.
Lemma rpow_mul x m n : x ^ (m * n)%N = (x ^ m) ^ n.
Proof.
  induction n as [|n IH] using N.peano_ind; [now rewrite N.mul_0_r, !rpow_0|].
  rewrite N.mul_succ_r, N.add_comm, rpow_add, rpow_succ, IH. reflexivity.
Qed.
Lemma rpow_base x y n : (x * y) ^ n = x ^ n * y ^ n.
Proof.
  induction n as [|n IH] using N.peano_ind; [rewrite !rpow_0; ring|].
  rewrite !rpow_succ, IH. ring.
Qed.
Lemma rpow_zero n : n <> 0%N -> (0 : R) ^ n = 0.
Proof. intros H. destruct (N.zero_or_succ n) as [->|[m ->]]; [easy|]. rewrite rpow_succ. ring. Qed.
Lemma rpow_opp_odd (k : N) : (- (1) : R) ^ (2 * k + 1)%N = - (1).
Proof.
  rewrite rpow_add, rpow_mul, rpow_2, rpow_1. replace (- (1) * - (1)) with (1 : R) by ring. rewrite rpow_one. ring.
Qed.
(** An exponent may be reduced modulo any exponent that gives one. *)
Lemma rpow_mod x m n : x ^ m = 1 -> m <> 0%N -> x ^ n = x ^ (n mod m)%N.
Proof.
  intros H Hm. rewrite (N.div_mod n m) at 1 by exact Hm.
  rewrite rpow_add, rpow_mul, H, rpow_one. ring.
Qed.
End Pow.

(** ** Consequences of having inverses *)
Section FieldFacts.
Context (F : fld).
Add Field F_field : (fth F).
Implicit Types x y : F.

Lemma f_integral x y : x * y = 0 -> x = 0 \/ y = 0.
Proof.
  intros H. destruct (f_dec F x 0) as [|Hx]; [now left|right].
  assert (E : y = rinv x * (x * y)) by (field; exact Hx). rewrite E, H. ring.
Qed.
Lemma f_mul_neq x y : x <> 0 -> y <> 0 -> x * y <> 0.
Proof. intros Hx Hy H. destruct (f_integral x y H); contradiction. Qed.
Lemma f_inv_neq x : x <> 0 -> rinv x <> 0.
Proof. intros Hx H. apply (f_neq F). rewrite <- (f_inv F x Hx), H. ring. Qed.
Lemma f_cancel x y z : x <> 0 -> x * y = x * z -> y = z.
Proof.
  intros Hx H. assert (E : y = rinv x * (x * y)) by (field; exact Hx). rewrite E, H. field. exact Hx.
Qed.
Lemma f_pow_neq x n : x <> 0 -> x ^ n <> 0.
Proof.
  intros Hx. induction n as [|n IH] using N.peano_ind; [rewrite rpow_0; apply f_neq|].
  rewrite rpow_succ. now apply f_mul_neq.
Qed.
Lemma f_inv_unique x y : x * y = 1 -> rinv x = y.
Proof.
  intros H. assert (Hx : x <> 0). { intros ->. apply (f_neq F). rewrite <- H. ring. }
  apply (f_cancel x); [exact Hx|]. rewrite H. field. exact Hx.
Qed.
End FieldFacts.

(** ** Fermat's theorem for a finite field *)
Record enum (R : cring) := mkEnum {
  elts : list R;
  elts_nodup : NoDup elts;
  elts_all : forall x, In x elts;
}.
Arguments elts {_}.
Definition order {R : cring} (E : enum R) : N := N.of_nat (length (elts E)).

Section Fermat.
Context (F : fld) (E : enum F).
Add Field F_field2 : (fth F).
Implicit Types x y : F.

Definition rprod (l : list F) : F := fold_right rmul 1 l.
Lemma rprod_perm l l' : Permutation l l' -> rprod l = rprod l'.
Proof. unfold rprod. induction 1; cbn [fold_right]; [reflexivity | congruence | ring | congruence]. Qed.
Lemma rprod_scale x l : rprod (map (rmul x) l) = x ^ N.of_nat (length l) * rprod l.
Proof.
  unfold rprod. induction l as [|y l IH]; cbn [map fold_right length] in *; [rewrite rpow_0; ring|].
  rewrite Nat2N.inj_succ, rpow_succ, IH. ring.
Qed.
Lemma rprod_neq l : ~ In 0 l -> rprod l <> 0.
Proof.
  unfold rprod. induction l as [|x l IH]; cbn [fold_right In]; intros H; [apply f_neq|].
  apply f_mul_neq; [tauto | apply IH; tauto].
Qed.

Theorem finite_fermat (x : F) : x <> 0 -> x ^ (order E - 1)%N = 1.
Proof.
  intros Hx. destruct (in_split _ _ (elts_all F E 0)) as (l1 & l2 & HE).
  pose proof (elts_nodup F E) as Hnd. rewrite HE in Hnd. apply NoDup_remove in Hnd as [Hnd H0].
  set (l := l1 ++ l2) in *.
  assert (Hlen : (order E - 1)%N = N.of_nat (length l)).
  { unfold order, l. rewrite HE, !length_app. cbn [length]. lia. }
  assert (Hall : forall y, y <> 0 -> In y l).
  { intros y Hy. pose proof (elts_all F E y) as H. rewrite HE in H. unfold l.
    apply in_app_iff. apply in_app_iff in H as [H|[H|H]]; [now left | congruence | now right]. }
  assert (Hperm : Permutation l (map (rmul x) l)).
  { symmetry. apply NoDup_Permutation_bis.
    - apply Finite.Injective_map_NoDup; [intros a b; now apply f_cancel | exact Hnd].
    - now rewrite length_map.
    - intros y Hy. apply in_map_iff in Hy as (z & <- & Hz). apply Hall, f_mul_neq; [exact Hx|].
      intros ->. contradiction. }
  apply rprod_perm in Hperm. rewrite rprod_scale in Hperm. rewrite Hlen.
  apply (f_cancel F (rprod l)); [now apply rprod_neq|].
  transitivity (x ^ N.of_nat (length l) * rprod l); [ring|]. rewrite <- Hperm. ring.
Qed.

Lemma finite_fermat_all (x : F) : order E <> 0%N -> x ^ order E = x.
Proof.
  intros HE. destruct (f_dec F x 0) as [->|Hx]; [now apply rpow_zero|].
  replace (order E) with (N.succ (order E - 1)) by lia. rewrite rpow_succ, finite_fermat by exact Hx. ring.
Qed.
Lemma finite_inverse (x : F) : (1 < order E)%N -> x <> 0 -> rinv x = x ^ (order E - 2)%N.
Proof.
  intros HE Hx. apply f_inv_unique. rewrite <- rpow_succ.
  replace (N.succ (order E - 2)) with (order E - 1)%N by lia. now apply finite_fermat.
Qed.
(** An element whose [(q-1)/k]-th power is not one has no [k]-th root. *)
Lemma no_root (k : N) (b : F) :
  k <> 0%N -> b <> 0 -> ((order E - 1) mod k)%N = 0%N -> b ^ ((order E - 1) / k)%N <> 1 -> forall s, s ^ k <> b.
Proof.
  intros Hk Hb Hmod Hpow s Hs. apply Hpow. rewrite <- Hs, <- rpow_mul.
  replace (k * ((order E - 1) / k))%N with (order E - 1)%N.
  - apply finite_fermat. intros ->. apply Hb. rewrite <- Hs. now apply rpow_zero.
  - rewrite (N.div_mod (order E - 1) k) at 1 by exact Hk. lia.
Qed.
End Fermat.

Lemma NoDup_list_prod {A B} (l : list A) (l' : list B) : NoDup l -> NoDup l' -> NoDup (list_prod l l').
Proof.
  intros Hl Hl'. induction Hl as [|a l Ha Hl IH]; cbn [list_prod]; [constructor|]. apply NoDup_app.
  - apply Finite.Injective_map_NoDup; [intros x y; congruence | exact Hl'].
  - exact IH.
  - intros [x y] H1 H2. apply in_map_iff in H1 as (? & [= <- <-] & _). apply in_prod_iff in H2. tauto.
Qed.

(** ** The ring [R[w]/(w^2 - b)]: the pair [(x, y)] is [x w + y] *)
Section Quad.
Context (R : cring) (b : R).
Add Ring R_ring2 : (rth R).

Definition qadd (p q : R * R) : R * R := (fst p + fst q, snd p + snd q).
Definition qsub (p q : R * R) : R * R := (fst p - fst q, snd p - snd q).
Definition qopp (p : R * R) : R * R := (- fst p, - snd p).
Definition qmul (p q : R * R) : R * R :=
  (fst p * snd q + fst q * snd p, snd p * snd q + b * (fst p * fst q)).
Lemma quad_theory : ring_theory (0, 0) (0, 1) qadd qmul qsub qopp eq.
Proof.
  constructor; intros; repeat match goal with p : (_ * _)%type |- _ => destruct p end;
    unfold qadd, qmul, qsub, qopp; cbn [fst snd]; f_equal; ring.
Qed.
Definition Quad : cring := mkCring (R * R) (0, 0) (0, 1) qadd qmul qsub qopp quad_theory.
Definition qconst (y : R) : Quad := (0, y).
Definition qgen : Quad := (1, 0).

Lemma qgen_square : qgen * qgen = qconst b.
Proof. cbn. unfold qmul, qgen, qconst. cbn [fst snd]. f_equal; ring. Qed.
Lemma quad_split (x y : R) : ((x, y) : Quad) = qconst x * qgen + qconst y.
Proof. cbn. unfold qmul, qadd, qgen, qconst. cbn [fst snd]. f_equal; ring. Qed.
Lemma qconst_mul (x y : R) : qconst (x * y) = qconst x * qconst y.
Proof. cbn. unfold qmul, qconst. cbn [fst snd]. f_equal; ring. Qed.
Lemma qconst_pow (x : R) n : qconst (x ^ n) = qconst x ^ n.
Proof.
  induction n as [|n IH] using N.peano_ind; [now rewrite !rpow_0|].
  now rewrite !rpow_succ, qconst_mul, IH.
Qed.
(** An odd power of the generator *)
Lemma qgen_pow (k : N) : (qgen : Quad) ^ (2 * k + 1)%N = qconst (b ^ k) * qgen.
Proof. rewrite rpow_add, rpow_mul, rpow_2, rpow_1, qgen_square, qconst_pow. reflexivity. Qed.
Lemma quad_add (x y x' y' : R) : ((x, y) : Quad) + (x', y') = (x + x', y + y').
Proof. reflexivity. Qed.
Lemma quad_sub (x y x' y' : R) : ((x, y) : Quad) - (x', y') = (x - x', y - y').
Proof. reflexivity. Qed.
Lemma quad_opp (x y : R) : - ((x, y) : Quad) = (- x, - y).
Proof. reflexivity. Qed.
Lemma quad_mul (x y x' y' : R) : ((x, y) : Quad) * (x', y') = (x * y' + x' * y, y * y' + b * (x * x')).
Proof. reflexivity. Qed.
Definition quad_enum (E : enum R) : enum Quad.
Proof.
  refine (mkEnum Quad (list_prod (elts E) (elts E)) _ _).
  - apply NoDup_list_prod; apply elts_nodup.
  - intros [x y]. apply in_prod; apply elts_all.
Defined.
Lemma quad_order (E : enum R) : order (quad_enum E) = (order E * order E)%N.
Proof. unfold order. rewrite <- Nat2N.inj_mul. f_equal. exact (length_prod (elts E) (elts E)). Qed.
End Quad.
Arguments qconst {_ _} _.
Arguments qgen {_ _}.

Section QuadField.
Context (F : fld) (b : F) (Hb : forall s : F, s * s <> b).
Add Field F_field3 : (fth F).
Implicit Types p : Quad F b.

Definition qnorm (p : F * F) : F := snd p * snd p - b * (fst p * fst p).
Lemma qnorm_neq p : p <> 0 -> qnorm p <> 0.
Proof.
  destruct p as [x y]. unfold qnorm. cbn [fst snd]. intros Hp Hn.
  destruct (f_dec F x 0) as [->|Hx].
  - assert (H : y * y = 0) by (rewrite <- Hn; ring). apply Hp.
    destruct (f_integral F _ _ H) as [->| ->]; reflexivity.
  - apply (Hb (y / x)). assert (H : y * y = b * (x * x)).
    { transitivity (y * y - b * (x * x) + b * (x * x)); [ring | rewrite Hn; ring]. }
    transitivity (y * y / (x * x)); [field; exact Hx|]. rewrite H. field. exact Hx.
Qed.
Definition qinv (p : F * F) : F * F := (- fst p * rinv (qnorm p), snd p * rinv (qnorm p)).
Lemma qinv_ok p : p <> 0 -> (qinv p : Quad F b) * p = 1.
Proof.
  intros Hp. pose proof (qnorm_neq p Hp) as Hn. destruct p as [x y].
  cbn. unfold qmul, qinv. unfold qnorm in *. cbn [fst snd] in *. f_equal; field; exact Hn.
Qed.
Lemma quad_neq : (1 : Quad F b) <> 0.
Proof. cbn. intros H. apply (f_neq F). congruence. Qed.
Definition quad_dec (p q : Quad F b) : {p = q} + {p <> q}.
Proof.
  destruct p as [x y], q as [x' y']. destruct (f_dec F x x') as [->|]; [|right; congruence].
  destruct (f_dec F y y') as [->|]; [now left | right; congruence].
Defined.
Definition QuadF : fld := mkFld (Quad F b) qinv quad_neq qinv_ok quad_dec.
End QuadField.

(** ** The ring [R[t]/(t^3 - b)]: the triple [(x, y, z)] is [x t^2 + y t + z] *)
Section Cubic.
Context (R : cring) (b : R).
Add Ring R_ring4 : (rth R).

Definition cx (p : R * R * R) : R := fst (fst p).
Definition cy (p : R * R * R) : R := snd (fst p).
Definition cz (p : R * R * R) : R := snd p.
Definition cadd (p q : R * R * R) : R * R * R := (cx p + cx q, cy p + cy q, cz p + cz q).
Definition csub (p q : R * R * R) : R * R * R := (cx p - cx q, cy p - cy q, cz p - cz q).
Definition copp (p : R * R * R) : R * R * R := (- cx p, - cy p, - cz p).
Definition cmul (p q : R * R * R) : R * R * R :=
  (cx p * cz q + cy p * cy q + cz p * cx q,
   cy p * cz q + cz p * cy q + b * (cx p * cx q),
   cz p * cz q + b * (cx p * cy q + cy p * cx q)).
Lemma cubic_theory : ring_theory (0, 0, 0) (0, 0, 1) cadd cmul csub copp eq.
Proof.
  constructor; intros; repeat match goal with p : (_ * _)%type |- _ => destruct p end;
    unfold cadd, cmul, csub, copp, cx, cy, cz; cbn [fst snd]; (f_equal; [f_equal|]; ring).
Qed.
Definition Cubic : cring := mkCring (R * R * R) (0, 0, 0) (0, 0, 1) cadd cmul csub copp cubic_theory.
Definition cconst (z : R) : Cubic := (0, 0, z).
Definition cgen : Cubic := (0, 1, 0).

Lemma cgen_cube : cgen * (cgen * cgen) = cconst b.
Proof. cbn. unfold cmul, cgen, cconst, cx, cy, cz. cbn [fst snd]. f_equal; [f_equal|]; ring. Qed.
Lemma cubic_split (x y z : R) :
  ((x, y, z) : Cubic) = cconst x * (cgen * cgen) + (cconst y * cgen + cconst z).
Proof. cbn. unfold cmul, cadd, cgen, cconst, cx, cy, cz. cbn [fst snd]. f_equal; [f_equal|]; ring. Qed.
Lemma cconst_mul (x y : R) : cconst (x * y) = cconst x * cconst y.
Proof. cbn. unfold cmul, cconst, cx, cy, cz. cbn [fst snd]. f_equal; [f_equal|]; ring. Qed.
Lemma cconst_pow (x : R) n : cconst (x ^ n) = cconst x ^ n.
Proof.
  induction n as [|n IH] using N.peano_ind; [now rewrite !rpow_0|].
  now rewrite !rpow_succ, cconst_mul, IH.
Qed.
Lemma cgen_pow (k : N) : (cgen : Cubic) ^ (3 * k + 1)%N = cconst (b ^ k) * cgen.
Proof.
  rewrite rpow_add, rpow_mul, rpow_1. change 3%N with (N.succ 2).
  rewrite rpow_succ, rpow_2, cgen_cube, cconst_pow. reflexivity.
Qed.
Lemma cubic_add (x y z x' y' z' : R) : ((x, y, z) : Cubic) + (x', y', z') = (x + x', y + y', z + z').
Proof. reflexivity. Qed.
Lemma cubic_sub (x y z x' y' z' : R) : ((x, y, z) : Cubic) - (x', y', z') = (x - x', y - y', z - z').
Proof. reflexivity. Qed.
Lemma cubic_opp (x y z : R) : - ((x, y, z) : Cubic) = (- x, - y, - z).
Proof. reflexivity. Qed.
Lemma cubic_mul (x y z x' y' z' : R) : ((x, y, z) : Cubic) * (x', y', z') =
  (x * z' + y * y' + z * x', y * z' + z * y' + b * (x * x'), z * z' + b * (x * y' + y * x')).
Proof. reflexivity. Qed.
Definition cubic_enum (E : enum R) : enum Cubic.
Proof.
  refine (mkEnum Cubic (list_prod (list_prod (elts E) (elts E)) (elts E)) _ _).
  - repeat apply NoDup_list_prod; apply elts_nodup.
  - intros [[x y] z]. repeat apply in_prod; apply elts_all.
Defined.
Lemma cubic_order (E : enum R) : order (cubic_enum E) = (order E * order E * order E)%N.
Proof. 
  unfold order. rewrite <- !Nat2N.inj_mul. f_equal.
  etransitivity; [exact (length_prod (list_prod (elts E) (elts E)) (elts E))|]. now rewrite length_prod.
 Qed.
End Cubic.
Arguments cconst {_ _} _.
Arguments cgen {_ _}.
Arguments cx {_} _.
Arguments cy {_} _.
Arguments cz {_} _.

Section CubicField.
Context (F : fld) (b : F) (Hb : forall s : F, s * (s * s) <> b).
Add Field F_field5 : (fth F).
Implicit Types p : Cubic F b.

Definition cA (p : F * F * F) : F := cz p * cz p - b * (cx p * cy p).
Definition cB (p : F * F * F) : F := b * (cx p * cx p) - cy p * cz p.
Definition cC (p : F * F * F) : F := cy p * cy p - cx p * cz p.
Definition cnorm (p : F * F * F) : F := b * (cC p * cy p) + cA p * cz p + b * (cB p * cx p).

(** Division of [t^3 - b] by [x t^2 + y t + z] leaves [C t - B]. *)
Lemma cubic_remainder (x y z s : F) :
  x * x * (s * (s * s)) = (x * (s * s) + y * s + z) * (x * s - y) + cC (x, y, z) * s - cB (x, y, z) + b * (x * x).
Proof. unfold cB, cC, cx, cy, cz. cbn [fst snd]. ring. Qed.
Lemma cnorm_relation (x y z : F) :
  cnorm (x, y, z) = 0 -> cB (x, y, z) * cB (x, y, z) = cA (x, y, z) * cC (x, y, z).
Proof.
  intros Hn. set (A := cA (x, y, z)). set (B := cB (x, y, z)). set (C := cC (x, y, z)).
  transitivity (x * cnorm (x, y, z) + A * C); [|rewrite Hn; ring].
  subst A B C. unfold cnorm, cA, cB, cC, cx, cy, cz. cbn [fst snd]. ring.
Qed.
(** The norm of [y t + z] is [b y^3 + z^3]. *)
Lemma cnorm_low (y z : F) : cnorm (0, y, z) = 0 -> y = 0 /\ z = 0.
Proof.
  intros Hn. unfold cnorm, cA, cB, cC, cx, cy, cz in Hn. cbn [fst snd] in Hn.
  assert (H : z * (z * z) = - (b * (y * (y * y)))).
  { transitivity ((0 : F) - b * (y * (y * y))); [rewrite <- Hn; ring | ring]. }
  destruct (f_dec F y 0) as [->|Hy].
  - split; [reflexivity|]. assert (H' : z * (z * z) = 0) by (rewrite H; ring).
    destruct (f_integral F _ _ H') as [|H'']; [assumption|]. destruct (f_integral F _ _ H''); assumption.
  - destruct (Hb (- z / y)). transitivity (- (z * (z * z)) / (y * (y * y))); [field; exact Hy|].
    rewrite H. field. exact Hy.
Qed.
(** A vanishing norm with [x <> 0] makes [y/x] or [B/C] a cube root of [b]. *)
Lemma cnorm_high (x y z : F) : x <> 0 -> cnorm (x, y, z) <> 0.
Proof.
  intros Hx Hn. pose proof (cnorm_relation x y z Hn) as HB.
  assert (H2 : x * cA (x, y, z) + y * cB (x, y, z) + z * cC (x, y, z) = 0)
    by (unfold cA, cB, cC, cx, cy, cz; cbn [fst snd]; ring).
  destruct (f_dec F (cC (x, y, z)) 0) as [HC|HC].
  - assert (HB0 : cB (x, y, z) = 0).
    { rewrite HC in HB. assert (H : cB (x, y, z) * cB (x, y, z) = 0) by (rewrite HB; ring).
      destruct (f_integral F _ _ H); assumption. }
    apply (Hb (y / x)). unfold cB, cC, cx, cy, cz in HB0, HC. cbn [fst snd] in HB0, HC.
    assert (H : y * (y * y) = b * (x * (x * x))).
    { transitivity (y * (y * y - x * z) - x * (b * (x * x) - y * z) + b * (x * (x * x))); [ring|].
      rewrite HC, HB0. ring. }
    transitivity (y * (y * y) / (x * (x * x))); [field; exact Hx|]. rewrite H. field. exact Hx.
  - set (B := cB (x, y, z)) in *. set (C := cC (x, y, z)) in *.
    assert (Hq : x * (B / C * (B / C)) + y * (B / C) + z = 0).
    { transitivity ((x * (B * B) + y * B * C + z * C * C) / (C * C)); [field; exact HC|]. rewrite HB.
      transitivity ((x * cA (x, y, z) + y * B + z * C) / C); [field; exact HC|]. rewrite H2. field. exact HC. }
    apply (Hb (B / C)). apply (f_cancel F (x * x)); [now apply f_mul_neq|].
    rewrite cubic_remainder with (y := y) (z := z), Hq. fold B C.
    transitivity (C * (B / C) - B + b * (x * x)); [ring|]. field. exact HC.
Qed.
Lemma cnorm_neq p : p <> 0 -> cnorm p <> 0.
Proof.
  destruct p as [[x y] z]. intros Hp Hn. destruct (f_dec F x 0) as [->|Hx].
  - destruct (cnorm_low y z Hn) as [-> ->]. now apply Hp.
  - now apply (cnorm_high x y z).
Qed.
Definition cinv (p : F * F * F) : F * F * F :=
  (cC p * rinv (cnorm p), cB p * rinv (cnorm p), cA p * rinv (cnorm p)).
Lemma cinv_ok p : p <> 0 -> (cinv p : Cubic F b) * p = 1.
Proof.
  intros Hp. pose proof (cnorm_neq p Hp) as Hn. destruct p as [[x y] z].
  cbn. unfold cmul, cinv. cbn [cx cy cz fst snd]. revert Hn. set (n := cnorm (x, y, z)). intros Hn.
  assert (E : n = cnorm (x, y, z)) by reflexivity. unfold cnorm in E.
  unfold cA, cB, cC, cx, cy, cz in *. cbn [fst snd] in *.
  f_equal; [f_equal|]; [field; exact Hn | field; exact Hn |].
  transitivity (n * rinv n); [rewrite E; ring | field; exact Hn].
Qed.
Lemma cubic_neq : (1 : Cubic F b) <> 0.
Proof. cbn. intros H. apply (f_neq F). congruence. Qed.
Definition cubic_dec (p q : Cubic F b) : {p = q} + {p <> q}.
Proof.
  destruct p as [[x y] z], q as [[x' y'] z'].
  destruct (f_dec F x x') as [->|]; [|right; congruence].
  destruct (f_dec F y y') as [->|]; [|right; congruence].
  destruct (f_dec F z z') as [->|]; [now left | right; congruence].
Defined.
Definition CubicF : fld := mkFld (Cubic F b) cinv cubic_neq cinv_ok cubic_dec.
End CubicField.

(** ** The [p]-th power in characteristic [p] *)
Fixpoint binom (n k : nat) : nat :=
  match n, k with
  | _, O => 1
  | O, S _ => 0
  | S n, S k => binom n k + binom n (S k)
  end.
Lemma binom_0 n : binom n 0 = 1%nat.
Proof. now destruct n. Qed.
Lemma binom_above n k : (n < k)%nat -> binom n k = 0%nat.
Proof.
  revert k. induction n as [|n IH]; intros [|k] H; try lia; cbn [binom]; [reflexivity|].
  rewrite !IH by lia. reflexivity.
Qed.
Lemma binom_diag n : binom n n = 1%nat.
Proof. induction n as [|n IH]; [reflexivity|]. cbn [binom]. rewrite IH, binom_above; lia. Qed.
Lemma binom_absorb n k : (S k * binom (S n) (S k) = S n * binom n k)%nat.
Proof.
  revert k. induction n as [|n IH]; intros k.
  { destruct k as [|k]; [reflexivity|]. cbn [binom]. lia. }
  assert (Hstep : forall m j, binom (S m) (S j) = (binom m j + binom m (S j))%nat) by reflexivity.
  rewrite (Hstep (S n) k). pose proof (IH k) as H1.
  destruct k as [|k]; [rewrite binom_0 in *; lia|].
  pose proof (IH k) as H2. rewrite (Hstep n k) in *. nia.
Qed.
Lemma binom_prime (p k : nat) :
  Z.prime (Z.of_nat p) -> (0 < k < p)%nat -> exists m, binom p k = (p * m)%nat.
Proof.
  intros Hp Hk. destruct p as [|n]; [lia|]. destruct k as [|k]; [lia|].
  assert (Hd : (Z.of_nat (S n) | Z.of_nat (S k) * Z.of_nat (binom (S n) (S k)))%Z).
  { rewrite <- Nat2Z.inj_mul, binom_absorb, Nat2Z.inj_mul. apply Z.divide_factor_l. }
  apply Z.divide_prime_mul in Hd as [Hd|[m Hm]]; [|clear Hk|exact Hp].
  - apply Z.divide_pos_le in Hd; lia.
  - exists (Z.to_nat m). nia.
Qed.

Section Frobenius.
Context (R : cring).
Add Ring R_ring6 : (rth R).
Implicit Types x y : R.

(** [n] times [x] *)
Definition nmul (n : nat) x : R := Nat.iter n (radd x) 0.
Lemma nmul_O x : nmul 0 x = 0.
Proof. reflexivity. Qed.
Lemma nmul_S n x : nmul (S n) x = x + nmul n x.
Proof. reflexivity. Qed.
Lemma nmul_add m n x : nmul (m + n) x = nmul m x + nmul n x.
Proof. induction m as [|m IH]; cbn [Nat.add]; rewrite ?nmul_O, ?nmul_S, ?IH; ring. Qed.
Lemma nmul_mul m n x : nmul (m * n) x = nmul n (nmul m x).
Proof.
  induction n as [|n IH]; [rewrite Nat.mul_0_r; reflexivity|].
  rewrite Nat.mul_succ_r, Nat.add_comm, nmul_add, IH. reflexivity.
Qed.
Lemma nmul_scale n x y : nmul n (x * y) = x * nmul n y.
Proof. induction n as [|n IH]; rewrite ?nmul_O, ?nmul_S, ?IH; ring. Qed.
Lemma nmul_zero n : nmul n (0 : R) = 0.
Proof. induction n as [|n IH]; rewrite ?nmul_O, ?nmul_S, ?IH; ring. Qed.

(** Sums of the first [n] values *)
Fixpoint rsum (f : nat -> R) (n : nat) : R := match n with O => 0 | S n => rsum f n + f n end.
Lemma rsum_ext f g n : (forall k, (k < n)%nat -> f k = g k) -> rsum f n = rsum g n.
Proof. induction n as [|n IH]; intros H; cbn [rsum]; [reflexivity|]. rewrite IH, H; auto. Qed.
Lemma rsum_add f g n : rsum (fun k => f k + g k) n = rsum f n + rsum g n.
Proof. induction n as [|n IH]; cbn [rsum]; [ring | rewrite IH; ring]. Qed.
Lemma rsum_scale a f n : rsum (fun k => a * f k) n = a * rsum f n.
Proof. induction n as [|n IH]; cbn [rsum]; [ring | rewrite IH; ring]. Qed.
Lemma rsum_head f n : rsum f (S n) = f O + rsum (fun k => f (S k)) n.
Proof. induction n as [|n IH]; [cbn; ring|]. change (rsum f (S (S n))) with (rsum f (S n) + f (S n)). rewrite IH. cbn [rsum]. ring. Qed.
Lemma rsum_zero f n : (forall k, (k < n)%nat -> f k = 0) -> rsum f n = 0.
Proof. induction n as [|n IH]; intros H; cbn [rsum]; [reflexivity|]. rewrite IH, H; auto. ring. Qed.

Definition npow x (n : nat) : R := x ^ N.of_nat n.
Lemma npow_O x : npow x 0 = 1.
Proof. apply rpow_0. Qed.
Lemma npow_S x n : npow x (S n) = x * npow x n.
Proof. unfold npow. now rewrite Nat2N.inj_succ, rpow_succ. Qed.
Definition bterm x y (n k : nat) : R := nmul (binom n k) (npow x k * npow y (n - k)).

Lemma bterm_last x y n : bterm x y n (S n) = 0.
Proof. unfold bterm. now rewrite binom_above by lia. Qed.
Lemma bterm_step x y n k : (k <= n)%nat -> bterm x y (S n) (S k) = x * bterm x y n k + y * bterm x y n (S k).
Proof.
  intros Hk. unfold bterm. cbn [binom]. rewrite nmul_add, Nat.sub_succ, npow_S, <- !nmul_scale.
  replace (x * npow x k * npow y (n - k)) with (x * (npow x k * npow y (n - k))) by ring.
  destruct (Nat.eq_dec k n) as [->|Hne]; [rewrite (binom_above n (S n)) by lia; reflexivity|].
  f_equal. replace (n - k)%nat with (S (n - S k)) by lia. rewrite !npow_S. f_equal. ring.
Qed.
Lemma binomial x y n : npow (x + y) n = rsum (bterm x y n) (S n).
Proof.
  induction n as [|n IH].
  { cbn [rsum]. unfold bterm. cbn [binom Nat.sub]. rewrite !npow_O, nmul_S, nmul_O. ring. }
  rewrite rsum_head, (rsum_ext _ (fun k => x * bterm x y n k + y * bterm x y n (S k)))
    by (intros; apply bterm_step; lia).
  rewrite rsum_add, !rsum_scale, npow_S, IH.
  assert (E : rsum (fun k => bterm x y n (S k)) (S n) = rsum (bterm x y n) (S n) - bterm x y n 0).
  { rewrite (rsum_head (bterm x y n) n). cbn [rsum]. rewrite bterm_last. ring. }
  assert (E0 : bterm x y (S n) 0 = y * bterm x y n 0).
  { unfold bterm. rewrite !binom_0, !Nat.sub_0_r, npow_S, <- nmul_scale. f_equal. ring. }
  rewrite E, E0. ring.
Qed.

Theorem frobenius_add (p : nat) (x y : R) :
  Z.prime (Z.of_nat p) -> nmul p (1 : R) = 0 -> npow (x + y) p = npow x p + npow y p.
Proof.
  intros Hp Hchar. rewrite binomial. assert (1 < p)%nat by (destruct Hp; lia).
  destruct p as [|p]; [lia|]. rewrite rsum_head. cbn [rsum]. rewrite rsum_zero.
  - unfold bterm at 1 2. rewrite binom_0, binom_diag, Nat.sub_diag, Nat.sub_0_r, !npow_O, !nmul_S, !nmul_O. ring.
  - intros k Hk. unfold bterm. destruct (binom_prime (S p) (S k) Hp ltac:(lia)) as [m ->].
    set (t := npow x (S k) * npow y (S p - S k)).
    rewrite nmul_mul. replace t with (t * 1) by ring. rewrite nmul_scale, Hchar.
    replace (t * 0) with (0 : R) by ring. apply nmul_zero.
Qed.
End Frobenius.

(** The characteristic of an extension *)
Section Characteristic.
Context (R : cring) (b : R).
Add Ring R_ring7 : (rth R).
Lemma nmul_qconst n (y : R) : nmul (Quad R b) n (qconst y) = qconst (nmul R n y).
Proof.
  induction n as [|n IH]; [reflexivity|]. rewrite !nmul_S, IH. unfold qconst. rewrite quad_add. f_equal. ring.
Qed.
Lemma nmul_cconst n (z : R) : nmul (Cubic R b) n (cconst z) = cconst (nmul R n z).
Proof.
  induction n as [|n IH]; [reflexivity|]. rewrite !nmul_S, IH. unfold cconst. rewrite cubic_add. (apply f_equal2; [apply f_equal2|]; ring).
Qed.
Lemma quad_char n : nmul R n 1 = 0 -> nmul (Quad R b) n 1 = 0.
Proof. intros H. change (1 : Quad R b) with (qconst (b := b) (1 : R)). rewrite nmul_qconst, H. reflexivity. Qed.
Lemma cubic_char n : nmul R n 1 = 0 -> nmul (Cubic R b) n 1 = 0.
Proof. intros H. change (1 : Cubic R b) with (cconst (b := b) (1 : R)). rewrite nmul_cconst, H. reflexivity. Qed.
End Characteristic.

(** ** Square and multiply, from the top bit down *)
Section SquareMultiply.
Context {T : Type} (sq : T -> T) (mul : T -> T -> T) (R : cring) (f : T -> R).
Context (Hsq : forall a, f (sq a) = f a * f a) (Hmul : forall a b, f (mul a b) = f a * f b).
Add Ring R_ring8 : (rth R).

Fixpoint exp_loop (n : nat) (sum a : T) (power : Z) : T :=
  match n with
  | O => sum
  | S i => let t := sq sum in exp_loop i (if Z.testbit power (Z.of_nat i) then mul t a else t) a power
  end.
Lemma mod_pow2_succ (a i : Z) : (0 <= i -> a mod 2 ^ (i + 1) = a mod 2 ^ i + Z.b2z (Z.testbit a i) * 2 ^ i)%Z.
Proof.
  intros Hi. rewrite Z.pow_add_r, Z.pow_1_r, Z.rem_mul_r by lia. rewrite Z.testbit_spec' by lia. lia.
Qed.
Lemma exp_loop_spec n sum a power : (0 <= power)%Z ->
  f (exp_loop n sum a power) = f sum ^ (2 ^ N.of_nat n)%N * f a ^ Z.to_N (power mod 2 ^ Z.of_nat n).
Proof.
  intros Hp. revert sum. induction n as [|i IH]; intros sum; cbn [exp_loop].
  { change (2 ^ N.of_nat 0)%N with 1%N. rewrite Z.mod_1_r, rpow_1. change (Z.to_N 0) with 0%N. rewrite rpow_0. ring. }
  cbv zeta. rewrite IH, Nat2N.inj_succ, N.pow_succ_r', rpow_mul, rpow_2.
  rewrite Nat2Z.inj_succ, <- Z.add_1_r, mod_pow2_succ by lia.
  pose proof (Z.mod_pos_bound power (2 ^ Z.of_nat i) ltac:(lia)).
  destruct (Z.testbit power (Z.of_nat i)); cbn [Z.b2z].
  - rewrite Hmul, Hsq, rpow_base, Z2N.inj_add, rpow_add, Z.mul_1_l by lia.
    replace (Z.to_N (2 ^ Z.of_nat i)) with (2 ^ N.of_nat i)%N by (rewrite Z2N.inj_pow, <- nat_N_Z, N2Z.id by lia; reflexivity). ring.
  - now rewrite Hsq, Z.mul_0_l, Z.add_0_r.
Qed.
End SquareMultiply.

(** ** Primality by certificates

    Pocklington's criterion, used to show that the modulus of the curves of
    src/crypto/bn256/google/constants.go is a prime number.  A certificate is a
    base and a list of prime divisors of [n - 1] whose product is at least the
    square root of [n]; small primes are checked by trial division. *)
From Stdlib Require Import Zcong Zpow_facts Znumtheory Bool Zmod.
#[local] Open Scope Z_scope.

(** ** Powers that are one modulo [p] *)
Section Order.
Context (p a : Z) (Hp : 1 < p).

Lemma pow_one_mul (m k : Z) : 0 <= m -> 0 <= k -> a ^ m mod p = 1 -> a ^ (m * k) mod p = 1.
Proof.
  intros Hm Hk H. rewrite Z.pow_mul_r by lia. rewrite <- Z.mod_pow_l, H, Z.pow_1_l by lia.
  apply Z.mod_1_l; lia.
Qed.
Lemma pow_one_mod (m n : Z) : 0 <= m -> 0 < n -> a ^ m mod p = 1 -> a ^ n mod p = 1 -> a ^ (m mod n) mod p = 1.
Proof.
  intros Hm Hn H1 H2.
  pose proof (Z.mod_pos_bound m n Hn). pose proof (Z.div_pos m n Hm Hn).
  rewrite (Z.div_mod m n) in H1 by lia.
  rewrite Z.pow_add_r, Z.mul_mod, pow_one_mul, Z.mul_1_l, Z.mod_mod in H1 by lia. exact H1.
Qed.
(** The exponents of which the power is one are closed under the greatest common divisor. *)
Lemma pow_one_gcd (n m : Z) : 0 <= n -> 0 <= m -> a ^ m mod p = 1 -> a ^ n mod p = 1 -> a ^ Z.gcd m n mod p = 1.
Proof.
  intros Hn. revert n Hn m. apply (Z_lt_induction (fun n => forall m, 0 <= m -> a ^ m mod p = 1 ->
    a ^ n mod p = 1 -> a ^ Z.gcd m n mod p = 1)). intros n IH m Hm H1 H2.
  destruct (Z.eq_dec n 0) as [->|Hn].
  { rewrite Z.gcd_0_r, Z.abs_eq by lia. exact H1. }
  destruct (Z_lt_le_dec n 0) as [Hneg|Hpos].
  { rewrite Z.pow_neg_r in H2 by lia. rewrite Z.mod_0_l in H2; lia. }
  rewrite Z.gcd_comm, <- Z.gcd_mod by lia. rewrite Z.gcd_comm.
  pose proof (Z.mod_pos_bound m n ltac:(lia)).
  apply IH; [lia | lia | exact H2 | apply pow_one_mod; auto; lia].
Qed.
End Order.

(** ** Prime divisors *)
Lemma prime_divisor (n : Z) : 1 < n -> exists p, Z.prime p /\ (p | n).
Proof.
  intros Hn. assert (H0 : 0 <= n) by lia. revert n H0 Hn.
  apply (Z_lt_induction (fun n => 1 < n -> exists p, Z.prime p /\ (p | n))). intros x IH Hx.
  destruct (prime_dec x) as [Hp|Hp].
  - exists x. split; [now apply prime_alt | apply Z.divide_refl].
  - destruct (not_prime_divide x Hx Hp) as (d & Hd & Hdx).
    destruct (IH d ltac:(lia) ltac:(lia)) as (p & Hpp & Hpd).
    exists p. split; [exact Hpp | now apply Z.divide_trans with d].
Qed.
Lemma prime_of_large_divisors (n F : Z) :
  1 < n -> 0 <= F -> n <= F * F -> (forall p, Z.prime p -> (p | n) -> F < p) -> Z.prime n.
Proof.
  intros Hn HF Hsq H. apply prime_alt. destruct (prime_dec n) as [Hp|Hp]; [exact Hp|exfalso].
  destruct (not_prime_divide n Hn Hp) as (d & Hd & e & He).
  assert (1 < e) by nia.
  destruct (prime_divisor d ltac:(lia)) as (p & Hpp & Hpd).
  destruct (prime_divisor e ltac:(lia)) as (q & Hqp & Hqd).
  assert (F < p). { apply H; [auto|]. rewrite He. now apply Z.divide_mul_r. }
  assert (F < q). { apply H; [auto|]. rewrite He. now apply Z.divide_mul_l. }
  apply Z.divide_pos_le in Hpd; [|lia]. apply Z.divide_pos_le in Hqd; [|lia]. nia.
Qed.

(** ** Pocklington's criterion *)
Fixpoint prodZ (l : list Z) : Z := match l with [] => 1 | x :: l => x * prodZ l end.

Lemma prodZ_divide (l : list Z) (m : Z) :
  NoDup l -> Forall Z.prime l -> Forall (fun q => (q | m)) l -> (prodZ l | m).
Proof.
  intros Hnd Hp. revert m. induction Hnd as [|q l Hq Hnd IH]; intros m Hm; cbn [prodZ].
  { apply Z.divide_1_l. }
  inversion Hp as [|? ? Hqp Hl]; subst. inversion Hm as [|? ? [k Hk] Hml]; subst.
  rewrite Z.mul_comm. apply Z.mul_divide_mono_r. apply IH; [exact Hl|].
  rewrite Forall_forall in *. intros r Hr.
  destruct (proj1 (Z.divide_prime_mul k q r (Hl r Hr)) (Hml r Hr)) as [H|H]; [exact H|].
  apply Z.divide_prime_prime in H; [subst; contradiction | auto | auto].
Qed.

(** What is computed: [a^(n-1) = 1] modulo [n], and for every listed prime [q]
    the number [a^((n-1)/q) - 1] is coprime to [n]. *)
Definition certified (n a : Z) (qs : list Z) : bool :=
  (1 <? n) && (n <=? prodZ qs * prodZ qs) && (Zpow_mod a (n - 1) n =? 1)
  && forallb (fun q => ((n - 1) mod q =? 0) && (Z.gcd (Zpow_mod a ((n - 1) / q) n - 1) n =? 1)) qs.

Lemma divisor_step (n a q p : Z) :
  1 < n -> Z.prime q -> Z.prime p -> (p | n) -> (q | n - 1) ->
  a ^ (n - 1) mod n = 1 -> Z.gcd (a ^ ((n - 1) / q) mod n - 1) n = 1 -> (q | p - 1).
Proof.
  intros Hn Hq Hp Hpn Hqn Hfull Hgcd.
  pose proof (Z.prime_ge_2 _ Hp). pose proof (Z.prime_ge_2 _ Hq).
  assert (Hmodp : forall x, x mod n mod p = x mod p) by (intros x; apply Z.mod_mod_divide; exact Hpn).
  assert (H1 : a ^ (n - 1) mod p = 1).
  { rewrite <- Hmodp, Hfull. apply Z.mod_1_l; lia. }
  assert (Ha : a mod p <> 0).
  { intros Ha. rewrite <- Z.mod_pow_l, Ha, Z.pow_0_l, Z.mod_0_l in H1; lia. }
  pose proof (Z.fermat_nz p a Hp Ha) as H2.
  assert (H3 : a ^ Z.gcd (p - 1) (n - 1) mod p = 1) by (apply pow_one_gcd; lia || assumption).
  set (e := Z.gcd (p - 1) (n - 1)) in *.
  assert (He : (e | n - 1)) by apply Z.gcd_divide_r.
  assert (Hep : (e | p - 1)) by apply Z.gcd_divide_l.
  apply Z.divide_trans with e; [|exact Hep].
  destruct He as [k Hk]. rewrite Hk in Hqn.
  destruct (proj1 (Z.divide_prime_mul _ _ q Hq) Hqn) as [[j Hj]|Hqe]; [exfalso|exact Hqe].
  assert (0 <= e) by apply Z.gcd_nonneg. assert (0 <= j) by nia.
  assert (Hsub : a ^ ((n - 1) / q) mod p = 1).
  { rewrite Hk, Hj. replace (j * q * e) with (e * j * q) by ring. rewrite Z.div_mul by lia.
    apply pow_one_mul; lia || assumption. }
  assert (Hd : (p | a ^ ((n - 1) / q) mod n - 1)).
  { apply Z.mod_divide; [lia|]. rewrite Zminus_mod, Hmodp, Hsub, Z.mod_1_l by lia. reflexivity. }
  pose proof (Z.gcd_greatest _ _ _ Hd Hpn) as Hone. rewrite Hgcd in Hone.
  apply Z.divide_pos_le in Hone; lia.
Qed.

Theorem pocklington (n a : Z) (qs : list Z) :
  NoDup qs -> Forall Z.prime qs -> certified n a qs = true -> Z.prime n.
Proof.
  intros Hnd Hqs Hc. unfold certified in Hc.
  apply andb_true_iff in Hc as [Hc Hall]. apply andb_true_iff in Hc as [Hc Hfull].
  apply andb_true_iff in Hc as [Hn Hsq]. rewrite forallb_forall in Hall.
  apply Z.ltb_lt in Hn. apply Z.leb_le in Hsq. apply Z.eqb_eq in Hfull.
  rewrite Zpow_mod_correct in Hfull by lia.
  assert (Hpos : 0 <= prodZ qs).
  { clear -Hqs. induction Hqs as [|q l Hq _ IH]; cbn [prodZ]; [lia|]. pose proof (Z.prime_ge_2 _ Hq). nia. }
  apply (prime_of_large_divisors n (prodZ qs)); try assumption.
  intros p Hp Hpn. pose proof (Z.prime_ge_2 _ Hp).
  assert (Hdiv : (prodZ qs | p - 1)).
  { apply prodZ_divide; try assumption. rewrite Forall_forall in *. intros q Hq.
    specialize (Hall q Hq). apply andb_true_iff in Hall as [Hdq Hg].
    apply Z.eqb_eq in Hdq, Hg. pose proof (Z.prime_ge_2 _ (Hqs q Hq)).
    rewrite Zpow_mod_correct in Hg by lia.
    apply (divisor_step n a q p); auto. apply Z.mod_divide; lia || assumption. }
  apply Z.divide_pos_le in Hdiv; lia.
Qed.

(** ** Trial division up to the square root *)
Definition trial (n k : Z) : bool :=
  (1 <? n) && (n <=? k * k) && forallb (fun d => negb (n mod Z.of_nat d =? 0)) (seq 2 (Z.to_nat k - 1)).
Lemma trial_prime (n k : Z) : 0 <= k -> trial n k = true -> Z.prime n.
Proof.
  intros Hk. unfold trial. intros [[Hn Hs]%andb_true_iff H]%andb_true_iff.
  apply Z.ltb_lt in Hn. apply Z.leb_le in Hs. rewrite forallb_forall in H.
  apply (prime_of_large_divisors n k); try assumption.
  intros d Hd%Z.prime_ge_2 Hdn. apply Z.nle_gt. intros Hle.
  specialize (H (Z.to_nat d) ltac:(apply in_seq; lia)). rewrite Z2Nat.id in H by lia.
  rewrite negb_true_iff, Z.eqb_neq in H. apply H, Z.mod_divide; lia || assumption.
Qed.

(** ** The certificate of the modulus *)
Ltac certify a qs :=
  apply (pocklington _ a qs);
  [ repeat (apply NoDup_cons; [cbn; lia|]); apply NoDup_nil
  | repeat (apply Forall_cons; [assumption|]); apply Forall_nil
  | vm_compute; reflexivity ].
Ltac small_prime k := apply (trial_prime _ k); [lia | vm_compute; reflexivity].

Lemma prime_911 : Z.prime 911. Proof. small_prime 31. Qed.
Lemma prime_3557 : Z.prime 3557. Proof. small_prime 60. Qed.
Lemma prime_13327 : Z.prime 13327. Proof. small_prime 116. Qed.
Lemma prime_1263766531 : Z.prime 1263766531. 
Proof. pose proof prime_911. pose proof prime_3557. certify 2 [911; 3557]. Qed.
Lemma prime_173171039 : Z.prime 173171039. 
Proof. pose proof prime_13327. certify 2 [13327]. Qed.
Lemma prime_35385462869 : Z.prime 35385462869. Proof. pose proof prime_1263766531. certify 2 [1263766531]. Qed.
Lemma prime_2480874801745591 : Z.prime 2480874801745591.
Proof. pose proof prime_35385462869. certify 2 [35385462869]. Qed.
Lemma prime_13427688667394608761327070753331941386769 : Z.prime 13427688667394608761327070753331941386769.
Proof. pose proof prime_2480874801745591. pose proof prime_173171039. certify 2 [2480874801745591; 173171039]. Qed.
Lemma prime_bn256 : Z.prime 21888242871839275222246405745257275088696311157297823662689037894645226208583.
Proof.
  pose proof prime_13427688667394608761327070753331941386769.
  certify 2 [13427688667394608761327070753331941386769].
Qed.
