(* ===== verification/Bn256.v ===== *)
(** * The bn256 curve

    src/crypto/bn256/google: the fields gfP2, gfP6 and gfP12, the points of the
    curve and of its twist, the optimal Ate pairing and the groups G1, G2 and GT.
    A [*big.Int] is a [Z] that need not be reduced, as in the code.  A method
    that writes its receiver returns the receiver's new value; a receiver of
    which a part survives is the first argument.  [stale] is the number that an
    object taken from the pool still holds. *)

From Stdlib Require Import Zcong.
From stdpp Require Import strings.
From S2P Require Import Prelude Words Text BigInt.

(** ** constants.go *)
Definition u : Z := 4965661367192848881.
Definition P : Z := 21888242871839275222246405745257275088696311157297823662689037894645226208583.
Definition Order : Z := 21888242871839275222246405745257275088548364400416034343698204186575808495617.

Record gfP2 := mkGfP2 { x2 : Z; y2 : Z }.
Record gfP6 := mkGfP6 { x6 : gfP2; y6 : gfP2; z6 : gfP2 }.
Record gfP12 := mkGfP12 { x12 : gfP6; y12 : gfP6 }.
Record curvePoint := mkCurvePoint { cpx : Z; cpy : Z; cpz : Z; cpt : Z }.
Record twistPoint := mkTwistPoint { tpx : gfP2; tpy : gfP2; tpz : gfP2; tpt : gfP2 }.

Definition xiToPMinus1Over6 : gfP2 :=
  mkGfP2 16469823323077808223889137241176536799009286646108169935659301613961712198316
         8376118865763821496583973867626364092589906065868298776909617916018768340080.
Definition xiToPMinus1Over3 : gfP2 :=
  mkGfP2 10307601595873709700152284273816112264069230130616436755625194854815875713954
         21575463638280843010398324269430826099269044274347216827212613867836435027261.
Definition xiToPMinus1Over2 : gfP2 :=
  mkGfP2 3505843767911556378687030309984248845540243509899259641013678093033130930403
         2821565182194536844548159561693502659359617185244120367078079554186484126554.
Definition xiToPSquaredMinus1Over3 : Z := 21888242871839275220042445260109153167277707414472061641714758635765020556616.
Definition xiTo2PSquaredMinus2Over3 : Z := 2203960485148121921418603742825762020974279258880205651966.
Definition xiToPSquaredMinus1Over6 : Z := 21888242871839275220042445260109153167277707414472061641714758635765020556617.
Definition xiTo2PMinus2Over3 : gfP2 :=
  mkGfP2 19937756971775647987995932169929341994314640652964949448313374472400716661030
         2581911344467009335267311115468803099551665605076196740867805258568234346338.

(** ** What the code uses of [math/big] *)
(** [ModInverse]: [None] where the number has no inverse; the receiver is then unchanged. *)
Definition ModInverse (g n : Z) : option Z := if Z.gcd g n =? 1 then Some (Z.invmod g n) else None.
(** [words := x.Bits(); len(words) == 1 && words[0] == 1] does not look at the sign. *)
Definition bits_one (x : Z) : bool := Z.abs x =? 1.
Definition minimal (x : Z) : Z := if (x <? 0) || (P <=? x) then x mod P else x.

(** ** The pool *)
Record bnPool := mkPool { bns : list Z; count : Z }.
Definition bnPool_Get (pool : option bnPool) : Z * option bnPool :=
  match pool with
  | None => (0, None)
  | Some p =>
      match list.last (bns p) with
      | None => (0, Some (mkPool (bns p) (count p + 1)))
      | Some bn => (bn, Some (mkPool (take (length (bns p) - 1) (bns p)) (count p + 1)))
      end
  end.
Definition bnPool_Put (pool : option bnPool) (bn : Z) : option bnPool :=
  match pool with None => None | Some p => Some (mkPool (bns p ++ [bn]) (count p - 1)) end.
Definition bnPool_Count (p : bnPool) : Z := count p.

(** ** gfp2.go *)
Definition gfP2_String (e : gfP2) : bytes :=
  str "(" ++ decInt (x2 e mod P) ++ str "," ++ decInt (y2 e mod P) ++ str ")".
Definition gfP2_SetZero : gfP2 := mkGfP2 0 0.
Definition gfP2_SetOne : gfP2 := mkGfP2 0 1.
Definition gfP2_Minimal (e : gfP2) : gfP2 := mkGfP2 (minimal (x2 e)) (minimal (y2 e)).
Definition gfP2_IsZero (e : gfP2) : bool := (x2 e =? 0) && (y2 e =? 0).
Definition gfP2_IsOne (e : gfP2) : bool := if negb (x2 e =? 0) then false else bits_one (y2 e).
Definition gfP2_Conjugate (a : gfP2) : gfP2 := mkGfP2 (- x2 a) (y2 a).
Definition gfP2_Negative (a : gfP2) : gfP2 := mkGfP2 (- x2 a) (- y2 a).
Definition gfP2_Add (a b : gfP2) : gfP2 := mkGfP2 (x2 a + x2 b) (y2 a + y2 b).
Definition gfP2_Sub (a b : gfP2) : gfP2 := mkGfP2 (x2 a - x2 b) (y2 a - y2 b).
Definition gfP2_Double (a : gfP2) : gfP2 := mkGfP2 (Z.shiftl (x2 a) 1) (Z.shiftl (y2 a) 1).
Definition gfP2_Mul (a b : gfP2) : gfP2 :=
  let tx := x2 a * y2 b in
  let t := x2 b * y2 a in
  let tx := tx + t in
  let tx := tx mod P in
  let ty := y2 a * y2 b in
  let t := x2 a * x2 b in
  let ty := ty - t in
  mkGfP2 tx (ty mod P).
Definition gfP2_MulScalar (a : gfP2) (b : Z) : gfP2 := mkGfP2 (x2 a * b) (y2 a * b).
Definition gfP2_MulXi (a : gfP2) : gfP2 :=
  let tx := Z.shiftl (x2 a) 3 in
  let tx := tx + x2 a in
  let tx := tx + y2 a in
  let ty := Z.shiftl (y2 a) 3 in
  let ty := ty + y2 a in
  let ty := ty - x2 a in
  mkGfP2 tx ty.
Definition gfP2_Square (a : gfP2) : gfP2 :=
  let t1 := y2 a - x2 a in
  let t2 := x2 a + y2 a in
  let ty := (t1 * t2) mod P in
  let t1 := x2 a * y2 a in
  let t1 := Z.shiftl t1 1 in
  mkGfP2 (t1 mod P) ty.
(** [for i := power.BitLen() - 1; i >= 0; i--] *)
Fixpoint gfP2_exp_loop (n : nat) (sum a : gfP2) (power : Z) : gfP2 :=
  match n with
  | O => sum
  | S i =>
      let t := gfP2_Square sum in
      gfP2_exp_loop i (if Z.testbit power (Z.of_nat i) then gfP2_Mul t a else t) a power
  end.
Definition gfP2_Exp (a : gfP2) (power : Z) : gfP2 := gfP2_exp_loop (Z.to_nat (BitLen power)) gfP2_SetOne a power.
Definition gfP2_Real (e : gfP2) : Z := x2 e.
Definition gfP2_Imag (e : gfP2) : Z := y2 e.

(** ** gfp6.go *)
Definition gfP6_String (e : gfP6) : bytes :=
  str "(" ++ gfP2_String (x6 e) ++ str "," ++ gfP2_String (y6 e) ++ str "," ++ gfP2_String (z6 e) ++ str ")".
Definition gfP6_SetZero : gfP6 := mkGfP6 gfP2_SetZero gfP2_SetZero gfP2_SetZero.
Definition gfP6_SetOne : gfP6 := mkGfP6 gfP2_SetZero gfP2_SetZero gfP2_SetOne.
Definition gfP6_Minimal (e : gfP6) : gfP6 := mkGfP6 (gfP2_Minimal (x6 e)) (gfP2_Minimal (y6 e)) (gfP2_Minimal (z6 e)).
Definition gfP6_IsZero (e : gfP6) : bool := gfP2_IsZero (x6 e) && gfP2_IsZero (y6 e) && gfP2_IsZero (z6 e).
Definition gfP6_IsOne (e : gfP6) : bool := gfP2_IsZero (x6 e) && gfP2_IsZero (y6 e) && gfP2_IsOne (z6 e).
Definition gfP6_Negative (a : gfP6) : gfP6 := mkGfP6 (gfP2_Negative (x6 a)) (gfP2_Negative (y6 a)) (gfP2_Negative (z6 a)).
Definition gfP6_Frobenius (a : gfP6) : gfP6 :=
  let x := gfP2_Conjugate (x6 a) in
  let y := gfP2_Conjugate (y6 a) in
  let z := gfP2_Conjugate (z6 a) in
  mkGfP6 (gfP2_Mul x xiTo2PMinus2Over3) (gfP2_Mul y xiToPMinus1Over3) z.
Definition gfP6_FrobeniusP2 (a : gfP6) : gfP6 :=
  mkGfP6 (gfP2_MulScalar (x6 a) xiTo2PSquaredMinus2Over3) (gfP2_MulScalar (y6 a) xiToPSquaredMinus1Over3) (z6 a).
Definition gfP6_Add (a b : gfP6) : gfP6 :=
  mkGfP6 (gfP2_Add (x6 a) (x6 b)) (gfP2_Add (y6 a) (y6 b)) (gfP2_Add (z6 a) (z6 b)).
Definition gfP6_Sub (a b : gfP6) : gfP6 :=
  mkGfP6 (gfP2_Sub (x6 a) (x6 b)) (gfP2_Sub (y6 a) (y6 b)) (gfP2_Sub (z6 a) (z6 b)).
Definition gfP6_Double (a : gfP6) : gfP6 := mkGfP6 (gfP2_Double (x6 a)) (gfP2_Double (y6 a)) (gfP2_Double (z6 a)).
Definition gfP6_Mul (a b : gfP6) : gfP6 :=
  let v0 := gfP2_Mul (z6 a) (z6 b) in
  let v1 := gfP2_Mul (y6 a) (y6 b) in
  let v2 := gfP2_Mul (x6 a) (x6 b) in
  let t0 := gfP2_Add (x6 a) (y6 a) in
  let t1 := gfP2_Add (x6 b) (y6 b) in
  let tz := gfP2_Mul t0 t1 in
  let tz := gfP2_Sub tz v1 in
  let tz := gfP2_Sub tz v2 in
  let tz := gfP2_MulXi tz in
  let tz := gfP2_Add tz v0 in
  let t0 := gfP2_Add (y6 a) (z6 a) in
  let t1 := gfP2_Add (y6 b) (z6 b) in
  let ty := gfP2_Mul t0 t1 in
  let ty := gfP2_Sub ty v0 in
  let ty := gfP2_Sub ty v1 in
  let t0 := gfP2_MulXi v2 in
  let ty := gfP2_Add ty t0 in
  let t0 := gfP2_Add (x6 a) (z6 a) in
  let t1 := gfP2_Add (x6 b) (z6 b) in
  let tx := gfP2_Mul t0 t1 in
  let tx := gfP2_Sub tx v0 in
  let tx := gfP2_Add tx v1 in
  let tx := gfP2_Sub tx v2 in
  mkGfP6 tx ty tz.
Definition gfP6_MulScalar (a : gfP6) (b : gfP2) : gfP6 :=
  mkGfP6 (gfP2_Mul (x6 a) b) (gfP2_Mul (y6 a) b) (gfP2_Mul (z6 a) b).
Definition gfP6_MulGFP (a : gfP6) (b : Z) : gfP6 :=
  mkGfP6 (gfP2_MulScalar (x6 a) b) (gfP2_MulScalar (y6 a) b) (gfP2_MulScalar (z6 a) b).
Definition gfP6_MulTau (a : gfP6) : gfP6 :=
  let tz := gfP2_MulXi (x6 a) in
  let ty := y6 a in
  mkGfP6 ty (z6 a) tz.
Definition gfP6_Square (a : gfP6) : gfP6 :=
  let v0 := gfP2_Square (z6 a) in
  let v1 := gfP2_Square (y6 a) in
  let v2 := gfP2_Square (x6 a) in
  let c0 := gfP2_Add (x6 a) (y6 a) in
  let c0 := gfP2_Square c0 in
  let c0 := gfP2_Sub c0 v1 in
  let c0 := gfP2_Sub c0 v2 in
  let c0 := gfP2_MulXi c0 in
  let c0 := gfP2_Add c0 v0 in
  let c1 := gfP2_Add (y6 a) (z6 a) in
  let c1 := gfP2_Square c1 in
  let c1 := gfP2_Sub c1 v0 in
  let c1 := gfP2_Sub c1 v1 in
  let xiV2 := gfP2_MulXi v2 in
  let c1 := gfP2_Add c1 xiV2 in
  let c2 := gfP2_Add (x6 a) (z6 a) in
  let c2 := gfP2_Square c2 in
  let c2 := gfP2_Sub c2 v0 in
  let c2 := gfP2_Add c2 v1 in
  let c2 := gfP2_Sub c2 v2 in
  mkGfP6 c2 c1 c0.

(** ** gfp12.go *)
Definition gfP12_String (e : gfP12) : bytes := str "(" ++ gfP6_String (x12 e) ++ str "," ++ gfP6_String (y12 e) ++ str ")".
Definition gfP12_SetZero : gfP12 := mkGfP12 gfP6_SetZero gfP6_SetZero.
Definition gfP12_SetOne : gfP12 := mkGfP12 gfP6_SetZero gfP6_SetOne.
Definition gfP12_Minimal (e : gfP12) : gfP12 := mkGfP12 (gfP6_Minimal (x12 e)) (gfP6_Minimal (y12 e)).
(** Both tests reduce the receiver first. *)
Definition gfP12_IsZero (e : gfP12) : gfP12 * bool :=
  let e := gfP12_Minimal e in (e, gfP6_IsZero (x12 e) && gfP6_IsZero (y12 e)).
Definition gfP12_IsOne (e : gfP12) : gfP12 * bool :=
  let e := gfP12_Minimal e in (e, gfP6_IsZero (x12 e) && gfP6_IsOne (y12 e)).
(** The receiver's new value and what is returned, which is the argument. *)
Definition gfP12_Conjugate (a : gfP12) : gfP12 * gfP12 := (mkGfP12 (gfP6_Negative (x12 a)) (y12 a), a).
Definition gfP12_Negative (a : gfP12) : gfP12 := mkGfP12 (gfP6_Negative (x12 a)) (gfP6_Negative (y12 a)).
Definition gfP12_Frobenius (a : gfP12) : gfP12 :=
  let x := gfP6_Frobenius (x12 a) in
  let y := gfP6_Frobenius (y12 a) in
  mkGfP12 (gfP6_MulScalar x xiToPMinus1Over6) y.
Definition gfP12_FrobeniusP2 (a : gfP12) : gfP12 :=
  let x := gfP6_FrobeniusP2 (x12 a) in
  let x := gfP6_MulGFP x xiToPSquaredMinus1Over6 in
  mkGfP12 x (gfP6_FrobeniusP2 (y12 a)).
Definition gfP12_Add (a b : gfP12) : gfP12 := mkGfP12 (gfP6_Add (x12 a) (x12 b)) (gfP6_Add (y12 a) (y12 b)).
Definition gfP12_Sub (a b : gfP12) : gfP12 := mkGfP12 (gfP6_Sub (x12 a) (x12 b)) (gfP6_Sub (y12 a) (y12 b)).
Definition gfP12_Mul (a b : gfP12) : gfP12 :=
  let tx := gfP6_Mul (x12 a) (y12 b) in
  let t := gfP6_Mul (x12 b) (y12 a) in
  let tx := gfP6_Add tx t in
  let ty := gfP6_Mul (y12 a) (y12 b) in
  let t := gfP6_Mul (x12 a) (x12 b) in
  let t := gfP6_MulTau t in
  mkGfP12 tx (gfP6_Add ty t).
(** The product is taken with the receiver, not with the argument [a]. *)
Definition gfP12_MulScalar (e a : gfP12) (b : gfP6) : gfP12 := mkGfP12 (gfP6_Mul (x12 e) b) (gfP6_Mul (y12 e) b).
Definition gfP12_Square (a : gfP12) : gfP12 :=
  let v0 := gfP6_Mul (x12 a) (y12 a) in
  let t := gfP6_MulTau (x12 a) in
  let t := gfP6_Add (y12 a) t in
  let ty := gfP6_Add (x12 a) (y12 a) in
  let ty := gfP6_Mul ty t in
  let ty := gfP6_Sub ty v0 in
  let t := gfP6_MulTau v0 in
  let ty := gfP6_Sub ty t in
  mkGfP12 (gfP6_Double v0) ty.
Fixpoint gfP12_exp_loop (n : nat) (sum a : gfP12) (power : Z) : gfP12 :=
  match n with
  | O => sum
  | S i =>
      let t := gfP12_Square sum in
      gfP12_exp_loop i (if Z.testbit power (Z.of_nat i) then gfP12_Mul t a else t) a power
  end.
Definition gfP12_Exp (a : gfP12) (power : Z) : gfP12 := gfP12_exp_loop (Z.to_nat (BitLen power)) gfP12_SetOne a power.

(** ** curve.go *)
Definition curveB : Z := 3.
Definition curveGen : curvePoint := mkCurvePoint 1 2 1 1.
(** [y^2 = x^3 + 3]; only meant for points with [z = 1]. *)
Definition curve_IsOnCurve (c : curvePoint) : bool :=
  let yy := cpy c * cpy c in
  let xxx := cpx c * cpx c in
  let xxx := xxx * cpx c in
  let yy := yy - xxx in
  let yy := yy - curveB in
  minimal yy =? 0.
Definition curve_SetInfinity (c : curvePoint) : curvePoint := mkCurvePoint (cpx c) (cpy c) 0 (cpt c).
Definition curve_IsInfinity (c : curvePoint) : bool := cpz c =? 0.
(** [same]: receiver and argument are one object, so that [c.y] is [a.y]. *)
Definition curve_Double (same : bool) (c a : curvePoint) : curvePoint :=
  let A := (cpx a * cpx a) mod P in
  let B := (cpy a * cpy a) mod P in
  let C_ := (B * B) mod P in
  let t := cpx a + B in
  let t2 := (t * t) mod P in
  let t := t2 - A in
  let t2 := t - C_ in
  let d := t2 + t2 in
  let t := A + A in
  let e := t + A in
  let f := (e * e) mod P in
  let t := d + d in
  let cx := f - t in
  let t := C_ + C_ in
  let t2 := t + t in
  let t := t2 + t2 in
  let cy := d - cx in
  let t2 := (e * cy) mod P in
  let cy := t2 - t in
  let t := ((if same then cy else cpy a) * cpz a) mod P in
  mkCurvePoint cx cy (t + t) (cpt c).
(** [same]: the receiver and [a] are one object. *)
Definition curve_Add (same : bool) (c a b : curvePoint) : curvePoint :=
  if curve_IsInfinity a then b
  else if curve_IsInfinity b then a
  else
    let z1z1 := (cpz a * cpz a) mod P in
    let z2z2 := (cpz b * cpz b) mod P in
    let u1 := (cpx a * z2z2) mod P in
    let u2 := (cpx b * z1z1) mod P in
    let t := (cpz b * z2z2) mod P in
    let s1 := (cpy a * t) mod P in
    let t := (cpz a * z1z1) mod P in
    let s2 := (cpy b * t) mod P in
    let h := u2 - u1 in
    let xEqual := h =? 0 in
    let t := h + h in
    let i := (t * t) mod P in
    let j := (h * i) mod P in
    let t := s2 - s1 in
    let yEqual := t =? 0 in
    if xEqual && yEqual then curve_Double same c a
    else
      let r := t + t in
      let v := (u1 * i) mod P in
      let t4 := (r * r) mod P in
      let t := v + v in
      let t6 := t4 - j in
      let cx := t6 - t in
      let t := v - cx in
      let t4 := (s1 * j) mod P in
      let t6 := t4 + t4 in
      let t4 := (r * t) mod P in
      let cy := t4 - t6 in
      let t := cpz a + cpz b in
      let t4 := (t * t) mod P in
      let t := t4 - z1z1 in
      let t4 := t - z2z2 in
      mkCurvePoint cx cy ((t4 * h) mod P) (cpt c).
Definition curve_Negative (a : curvePoint) : curvePoint := mkCurvePoint (cpx a) (- cpy a) (cpz a) 0.
(** [None]: the inverse of [z] is nil, and using it panics. *)
Definition curve_MakeAffine (c : curvePoint) : option curvePoint :=
  if bits_one (cpz c) then Some c
  else if curve_IsInfinity c then Some (mkCurvePoint 0 1 0 0)
  else
    zInv ← ModInverse (cpz c) P;
    let t := (cpy c * zInv) mod P in
    let zInv2 := (zInv * zInv) mod P in
    let y := (t * zInv2) mod P in
    let t := (cpx c * zInv2) mod P in
    Some (mkCurvePoint t y 1 1).

(** ** twist.go *)
Definition twistB : gfP2 :=
  mkGfP2 266929791119991161246907387137283842545076965332900288569378510910307636690
         19485874751759354771024239261021720505790618469301721065564631296452457478373.
Definition twistGen : twistPoint := mkTwistPoint
  (mkGfP2 11559732032986387107991004021392285783925812861821192530917403151452391805634
          10857046999023057135944570762232829481370756359578518086990519993285655852781)
  (mkGfP2 4082367875863433681332203403145435568316851327593401208105741076214120093531
          8495653923123431417604973247489272438418190587263600148770280649306958101930)
  (mkGfP2 0 1) (mkGfP2 0 1).
Definition twist_String (c : twistPoint) : bytes :=
  str "(" ++ gfP2_String (tpx c) ++ str ", " ++ gfP2_String (tpy c) ++ str ", " ++ gfP2_String (tpz c) ++ str ")".
Definition twist_SetInfinity (c : twistPoint) : twistPoint := mkTwistPoint (tpx c) (tpy c) gfP2_SetZero (tpt c).
Definition twist_IsInfinity (c : twistPoint) : bool := gfP2_IsZero (tpz c).
Definition twist_Double (same : bool) (c a : twistPoint) : twistPoint :=
  let A := gfP2_Square (tpx a) in
  let B := gfP2_Square (tpy a) in
  let C_ := gfP2_Square B in
  let t := gfP2_Add (tpx a) B in
  let t2 := gfP2_Square t in
  let t := gfP2_Sub t2 A in
  let t2 := gfP2_Sub t C_ in
  let d := gfP2_Add t2 t2 in
  let t := gfP2_Add A A in
  let e := gfP2_Add t A in
  let f := gfP2_Square e in
  let t := gfP2_Add d d in
  let cx := gfP2_Sub f t in
  let t := gfP2_Add C_ C_ in
  let t2 := gfP2_Add t t in
  let t := gfP2_Add t2 t2 in
  let cy := gfP2_Sub d cx in
  let t2 := gfP2_Mul e cy in
  let cy := gfP2_Sub t2 t in
  let t := gfP2_Mul (if same then cy else tpy a) (tpz a) in
  mkTwistPoint cx cy (gfP2_Add t t) (tpt c).
Definition twist_Add (same : bool) (c a b : twistPoint) : twistPoint :=
  if twist_IsInfinity a then b
  else if twist_IsInfinity b then a
  else
    let z1z1 := gfP2_Square (tpz a) in
    let z2z2 := gfP2_Square (tpz b) in
    let u1 := gfP2_Mul (tpx a) z2z2 in
    let u2 := gfP2_Mul (tpx b) z1z1 in
    let t := gfP2_Mul (tpz b) z2z2 in
    let s1 := gfP2_Mul (tpy a) t in
    let t := gfP2_Mul (tpz a) z1z1 in
    let s2 := gfP2_Mul (tpy b) t in
    let h := gfP2_Sub u2 u1 in
    let xEqual := gfP2_IsZero h in
    let t := gfP2_Add h h in
    let i := gfP2_Square t in
    let j := gfP2_Mul h i in
    let t := gfP2_Sub s2 s1 in
    let yEqual := gfP2_IsZero t in
    if xEqual && yEqual then twist_Double same c a
    else
      let r := gfP2_Add t t in
      let v := gfP2_Mul u1 i in
      let t4 := gfP2_Square r in
      let t := gfP2_Add v v in
      let t6 := gfP2_Sub t4 j in
      let cx := gfP2_Sub t6 t in
      let t := gfP2_Sub v cx in
      let t4 := gfP2_Mul s1 j in
      let t6 := gfP2_Add t4 t4 in
      let t4 := gfP2_Mul r t in
      let cy := gfP2_Sub t4 t6 in
      let t := gfP2_Add (tpz a) (tpz b) in
      let t4 := gfP2_Square t in
      let t := gfP2_Sub t4 z1z1 in
      let t4 := gfP2_Sub t z2z2 in
      mkTwistPoint cx cy (gfP2_Mul t4 h) (tpt c).
Definition twist_Negative (a : twistPoint) : twistPoint :=
  mkTwistPoint (tpx a) (gfP2_Sub gfP2_SetZero (tpy a)) (tpz a) gfP2_SetZero.

(** ** optate.go *)
Definition lineFunctionAdd (r p : twistPoint) (q : curvePoint) (r2 : gfP2) : gfP2 * gfP2 * gfP2 * twistPoint :=
  let B := gfP2_Mul (tpx p) (tpt r) in
  let D := gfP2_Add (tpy p) (tpz r) in
  let D := gfP2_Square D in
  let D := gfP2_Sub D r2 in
  let D := gfP2_Sub D (tpt r) in
  let D := gfP2_Mul D (tpt r) in
  let H := gfP2_Sub B (tpx r) in
  let I := gfP2_Square H in
  let E := gfP2_Add I I in
  let E := gfP2_Add E E in
  let J := gfP2_Mul H E in
  let L1 := gfP2_Sub D (tpy r) in
  let L1 := gfP2_Sub L1 (tpy r) in
  let V := gfP2_Mul (tpx r) E in
  let rx := gfP2_Square L1 in
  let rx := gfP2_Sub rx J in
  let rx := gfP2_Sub rx V in
  let rx := gfP2_Sub rx V in
  let rz := gfP2_Add (tpz r) H in
  let rz := gfP2_Square rz in
  let rz := gfP2_Sub rz (tpt r) in
  let rz := gfP2_Sub rz I in
  let t := gfP2_Sub V rx in
  let t := gfP2_Mul t L1 in
  let t2 := gfP2_Mul (tpy r) J in
  let t2 := gfP2_Add t2 t2 in
  let ry := gfP2_Sub t t2 in
  let rt := gfP2_Square rz in
  let t := gfP2_Add (tpy p) rz in
  let t := gfP2_Square t in
  let t := gfP2_Sub t r2 in
  let t := gfP2_Sub t rt in
  let t2 := gfP2_Mul L1 (tpx p) in
  let t2 := gfP2_Add t2 t2 in
  let a := gfP2_Sub t2 t in
  let c := gfP2_MulScalar rz (cpy q) in
  let c := gfP2_Add c c in
  let b := gfP2_SetZero in
  let b := gfP2_Sub b L1 in
  let b := gfP2_MulScalar b (cpx q) in
  let b := gfP2_Add b b in
  (a, b, c, mkTwistPoint rx ry rz rt).
Definition lineFunctionDouble (r : twistPoint) (q : curvePoint) : gfP2 * gfP2 * gfP2 * twistPoint :=
  let A := gfP2_Square (tpx r) in
  let B := gfP2_Square (tpy r) in
  let C_ := gfP2_Square B in
  let D := gfP2_Add (tpx r) B in
  let D := gfP2_Square D in
  let D := gfP2_Sub D A in
  let D := gfP2_Sub D C_ in
  let D := gfP2_Add D D in
  let E := gfP2_Add A A in
  let E := gfP2_Add E A in
  let G := gfP2_Square E in
  let rx := gfP2_Sub G D in
  let rx := gfP2_Sub rx D in
  let rz := gfP2_Add (tpy r) (tpz r) in
  let rz := gfP2_Square rz in
  let rz := gfP2_Sub rz B in
  let rz := gfP2_Sub rz (tpt r) in
  let ry := gfP2_Sub D rx in
  let ry := gfP2_Mul ry E in
  let t := gfP2_Add C_ C_ in
  let t := gfP2_Add t t in
  let t := gfP2_Add t t in
  let ry := gfP2_Sub ry t in
  let rt := gfP2_Square rz in
  let t := gfP2_Mul E (tpt r) in
  let t := gfP2_Add t t in
  let b := gfP2_SetZero in
  let b := gfP2_Sub b t in
  let b := gfP2_MulScalar b (cpx q) in
  let a := gfP2_Add (tpx r) E in
  let a := gfP2_Square a in
  let a := gfP2_Sub a A in
  let a := gfP2_Sub a G in
  let t := gfP2_Add B B in
  let t := gfP2_Add t t in
  let a := gfP2_Sub a t in
  let c := gfP2_Mul rz (tpt r) in
  let c := gfP2_Add c c in
  let c := gfP2_MulScalar c (cpy q) in
  (a, b, c, mkTwistPoint rx ry rz rt).
Definition mulLine (ret : gfP12) (a b c : gfP2) : gfP12 :=
  let a2 := mkGfP6 gfP2_SetZero a b in
  let a2 := gfP6_Mul a2 (x12 ret) in
  let t3 := gfP6_MulScalar (y12 ret) c in
  let t := gfP2_Add b c in
  let t2 := mkGfP6 gfP2_SetZero a t in
  let x := gfP6_Add (x12 ret) (y12 ret) in
  let y := t3 in
  let x := gfP6_Mul x t2 in
  let x := gfP6_Sub x a2 in
  let x := gfP6_Sub x y in
  let a2 := gfP6_MulTau a2 in
  let y := gfP6_Add y a2 in
  mkGfP12 x y.
Definition sixuPlus2NAF : list Z :=
  [0; 0; 0; 1; 0; 1; 0; -1; 0; 0; 1; -1; 0; 0; 1; 0;
   0; 1; 1; 0; -1; 0; 0; 1; 0; -1; 0; 0; 0; 0; 1; 1;
   1; 0; 0; -1; 0; 0; 1; 0; 0; 0; 0; 0; -1; 0; 0; 1;
   1; 0; 0; -1; 0; 0; 0; 1; 1; 0; -1; 0; 0; 1; 0; 1; 1].
(** [for i := len(sixuPlus2NAF) - 1; i > 0; i--] from [i = n] on; the result is
    the value and the point. *)
Fixpoint miller_loop (n : nat) (aAffine minusA r : twistPoint) (bAffine : curvePoint) (r2 : gfP2) (ret : gfP12)
  : gfP12 * twistPoint :=
  match n with
  | O => (ret, r)
  | S i =>
      let '(a, b, c, newR) := lineFunctionDouble r bAffine in
      let ret := if (Z.of_nat (S i) =? len sixuPlus2NAF - 1) then ret else gfP12_Square ret in
      let ret := mulLine ret a b c in
      let r := newR in
      let digit := nth i sixuPlus2NAF 0 in
      if digit =? 1 then
        let '(a, b, c, newR) := lineFunctionAdd r aAffine bAffine r2 in
        miller_loop i aAffine minusA newR bAffine r2 (mulLine ret a b c)
      else if digit =? -1 then
        let '(a, b, c, newR) := lineFunctionAdd r minusA bAffine r2 in
        miller_loop i aAffine minusA newR bAffine r2 (mulLine ret a b c)
      else miller_loop i aAffine minusA r bAffine r2 ret
  end.

Section Pool.
Context (stale : Z).

(** ** Objects from the pool *)
Definition newGFp2 : gfP2 := mkGfP2 stale stale.
Definition newGFp6 : gfP6 := mkGfP6 newGFp2 newGFp2 newGFp2.
Definition newGFp12 : gfP12 := mkGfP12 newGFp6 newGFp6.
Definition newCurvePoint : curvePoint := mkCurvePoint stale stale stale stale.
Definition newTwistPoint : twistPoint := mkTwistPoint newGFp2 newGFp2 newGFp2 newGFp2.

(** ** Inversion: a number without inverse leaves what the pool handed out *)
Definition gfP2_Invert (a : gfP2) : gfP2 :=
  let t := y2 a * y2 a in
  let t2 := x2 a * x2 a in
  let t := t + t2 in
  let inv := default stale (ModInverse t P) in
  let x := - x2 a in
  let x := x * inv in
  let x := x mod P in
  let y := y2 a * inv in
  mkGfP2 x (y mod P).
Definition gfP6_Invert (a : gfP6) : gfP6 :=
  let A := gfP2_Square (z6 a) in
  let t1 := gfP2_Mul (x6 a) (y6 a) in
  let t1 := gfP2_MulXi t1 in
  let A := gfP2_Sub A t1 in
  let B := gfP2_Square (x6 a) in
  let B := gfP2_MulXi B in
  let t1 := gfP2_Mul (y6 a) (z6 a) in
  let B := gfP2_Sub B t1 in
  let C_ := gfP2_Square (y6 a) in
  let t1 := gfP2_Mul (x6 a) (z6 a) in
  let C_ := gfP2_Sub C_ t1 in
  let F := gfP2_Mul C_ (y6 a) in
  let F := gfP2_MulXi F in
  let t1 := gfP2_Mul A (z6 a) in
  let F := gfP2_Add F t1 in
  let t1 := gfP2_Mul B (x6 a) in
  let t1 := gfP2_MulXi t1 in
  let F := gfP2_Add F t1 in
  let F := gfP2_Invert F in
  mkGfP6 (gfP2_Mul C_ F) (gfP2_Mul B F) (gfP2_Mul A F).
Definition gfP12_Invert (a : gfP12) : gfP12 :=
  let t1 := gfP6_Square (x12 a) in
  let t2 := gfP6_Square (y12 a) in
  let t1 := gfP6_MulTau t1 in
  let t1 := gfP6_Sub t2 t1 in
  let t2 := gfP6_Invert t1 in
  let e := mkGfP12 (gfP6_Negative (x12 a)) (y12 a) in
  gfP12_MulScalar e e t2.

(** ** Multiplication of points *)
(** [for i := scalar.BitLen(); i >= 0; i--] *)
Fixpoint curve_mul_loop (n : nat) (sum t a : curvePoint) (scalar : Z) : curvePoint :=
  match n with
  | O => sum
  | S i =>
      let t := curve_Double false t sum in
      curve_mul_loop i (if Z.testbit scalar (Z.of_nat i) then curve_Add false sum t a else t) t a scalar
  end.
Definition curve_Mul (a : curvePoint) (scalar : Z) : curvePoint :=
  let sum := curve_SetInfinity newCurvePoint in
  curve_mul_loop (Z.to_nat (BitLen scalar + 1)) sum newCurvePoint a scalar.
Fixpoint twist_mul_loop (n : nat) (sum t a : twistPoint) (scalar : Z) : twistPoint :=
  match n with
  | O => sum
  | S i =>
      let t := twist_Double false t sum in
      twist_mul_loop i (if Z.testbit scalar (Z.of_nat i) then twist_Add false sum t a else t) t a scalar
  end.
Definition twist_Mul (a : twistPoint) (scalar : Z) : twistPoint :=
  let sum := twist_SetInfinity newTwistPoint in
  twist_mul_loop (Z.to_nat (BitLen scalar + 1)) sum newTwistPoint a scalar.
(** On the curve [y^2 = x^3 + 3/xi] and of order dividing [Order]. *)
Definition twist_IsOnCurve (c : twistPoint) : bool :=
  let yy := gfP2_Square (tpy c) in
  let xxx := gfP2_Square (tpx c) in
  let xxx := gfP2_Mul xxx (tpx c) in
  let yy := gfP2_Sub yy xxx in
  let yy := gfP2_Sub yy twistB in
  let yy := gfP2_Minimal yy in
  if negb (x2 yy =? 0) || negb (y2 yy =? 0) then false
  else
    let cneg := twist_Mul c Order in
    gfP2_IsZero (tpz cneg).
Definition twist_MakeAffine (c : twistPoint) : twistPoint :=
  if gfP2_IsOne (tpz c) then c
  else if twist_IsInfinity c then mkTwistPoint gfP2_SetZero gfP2_SetOne gfP2_SetZero gfP2_SetZero
  else
    let zInv := gfP2_Invert (tpz c) in
    let t := gfP2_Mul (tpy c) zInv in
    let zInv2 := gfP2_Square zInv in
    let y := gfP2_Mul t zInv2 in
    let t := gfP2_Mul (tpx c) zInv2 in
    mkTwistPoint t y gfP2_SetOne gfP2_SetOne.
Definition curve_String (c : curvePoint) : option bytes :=
  c ← curve_MakeAffine c;
  Some (str "(" ++ decInt (cpx c) ++ str ", " ++ decInt (cpy c) ++ str ")").

(** ** The pairing; [None] is the panic of [curve_MakeAffine] *)
Definition miller (q : twistPoint) (p : curvePoint) : option gfP12 :=
  let aAffine := twist_MakeAffine q in
  bAffine ← curve_MakeAffine p;
  let minusA := twist_Negative aAffine in
  let r := aAffine in
  let r2 := gfP2_Square (tpy aAffine) in
  let '(ret, r) := miller_loop (length sixuPlus2NAF - 1) aAffine minusA r bAffine r2 gfP12_SetOne in
  let q1x := gfP2_Conjugate (tpx aAffine) in
  let q1x := gfP2_Mul q1x xiToPMinus1Over3 in
  let q1y := gfP2_Conjugate (tpy aAffine) in
  let q1y := gfP2_Mul q1y xiToPMinus1Over2 in
  let q1 := mkTwistPoint q1x q1y gfP2_SetOne gfP2_SetOne in
  let minusQ2 := mkTwistPoint (gfP2_MulScalar (tpx aAffine) xiToPSquaredMinus1Over3) (tpy aAffine) gfP2_SetOne gfP2_SetOne in
  let r2 := gfP2_Square (tpy q1) in
  let '(a, b, c, newR) := lineFunctionAdd r q1 bAffine r2 in
  let ret := mulLine ret a b c in
  let r := newR in
  let r2 := gfP2_Square (tpy minusQ2) in
  let '(a, b, c, newR) := lineFunctionAdd r minusQ2 bAffine r2 in
  Some (mulLine ret a b c).
Definition finalExponentiation (input : gfP12) : gfP12 :=
  let t1 := mkGfP12 (gfP6_Negative (x12 input)) (y12 input) in
  let inv := gfP12_Invert input in
  let t1 := gfP12_Mul t1 inv in
  let t2 := gfP12_FrobeniusP2 t1 in
  let t1 := gfP12_Mul t1 t2 in
  let fp := gfP12_Frobenius t1 in
  let fp2 := gfP12_FrobeniusP2 t1 in
  let fp3 := gfP12_Frobenius fp2 in
  let fu := gfP12_Exp t1 u in
  let fu2 := gfP12_Exp fu u in
  let fu3 := gfP12_Exp fu2 u in
  let y3 := gfP12_Frobenius fu in
  let fu2p := gfP12_Frobenius fu2 in
  let fu3p := gfP12_Frobenius fu3 in
  let y2 := gfP12_FrobeniusP2 fu2 in
  let y0 := gfP12_Mul fp fp2 in
  let y0 := gfP12_Mul y0 fp3 in
  let y1 := (gfP12_Conjugate t1).1 in
  let y5 := (gfP12_Conjugate fu2).1 in
  let y3 := (gfP12_Conjugate y3).1 in
  let y4 := gfP12_Mul fu fu2p in
  let y4 := (gfP12_Conjugate y4).1 in
  let y6 := gfP12_Mul fu3 fu3p in
  let y6 := (gfP12_Conjugate y6).1 in
  let t0 := gfP12_Square y6 in
  let t0 := gfP12_Mul t0 y4 in
  let t0 := gfP12_Mul t0 y5 in
  let t1 := gfP12_Mul y3 y5 in
  let t1 := gfP12_Mul t1 t0 in
  let t0 := gfP12_Mul t0 y2 in
  let t1 := gfP12_Square t1 in
  let t1 := gfP12_Mul t1 t0 in
  let t1 := gfP12_Square t1 in
  let t0 := gfP12_Mul t1 y1 in
  let t1 := gfP12_Mul t1 y0 in
  let t0 := gfP12_Square t0 in
  gfP12_Mul t0 t1.
Definition optimalAte (a : twistPoint) (b : curvePoint) : option gfP12 :=
  e ← miller a b;
  let ret := finalExponentiation e in
  Some (if twist_IsInfinity a || curve_IsInfinity b then gfP12_SetOne else ret).
End Pool.

(** ** bn256.go: the groups *)
Definition errNotEnoughData : Z := 21.
Definition errExceedsModulus : Z := 22.
Definition errMalformedPoint : Z := 23.
Definition numBytes : Z := 32.
(** [copy(ret[k*numBytes-len(b):], b)] with [b] the bytes of a number below [2^256] *)
Definition field_bytes (z : Z) : bytes := replicate (Z.to_nat (numBytes - len (bigBytes z))) 0 ++ bigBytes z.
(** [m[k*numBytes : (k+1)*numBytes]] as a number *)
Definition field_at (k : Z) (m : bytes) : Z := be_val (slice (k * numBytes) ((k + 1) * numBytes) m).

(** A receiver whose point is nil gets a new one. *)
Definition G1_point (e : option curvePoint) : curvePoint := default (newCurvePoint 0) e.
Definition G2_point (e : option twistPoint) : twistPoint := default (newTwistPoint 0) e.
Definition GT_point (e : option gfP12) : gfP12 := default (newGFp12 0) e.

(** [rand.Int] drawn until it is positive; a draw is a number below [Order] or an error. *)
Fixpoint random_scalar (draws : list (option Z)) : option (option Z) :=
  match draws with
  | [] => None
  | None :: _ => Some None
  | Some k :: draws => if 0 <? k then Some (Some k) else random_scalar draws
  end.

Definition G1_String (p : curvePoint) : option bytes := s ← curve_String p; Some (str "bn256.G1" ++ s).
Definition G1_CurvePoints (p : curvePoint) : Z * Z * Z * Z := (cpx p, cpy p, cpz p, cpt p).
Definition G1_ScalarBaseMult (k : Z) : curvePoint := curve_Mul 0 curveGen k.
Definition G1_ScalarMult (a : curvePoint) (k : Z) : curvePoint := curve_Mul 0 a k.
Definition G1_Add (same : bool) (e : option curvePoint) (a b : curvePoint) : curvePoint := curve_Add same (G1_point e) a b.
Definition G1_Neg (a : curvePoint) : curvePoint := curve_Negative a.
Definition RandomG1 (draws : list (option Z)) : option (option (Z * curvePoint)) :=
  k ← random_scalar draws;
  Some (k ← k; Some (k, G1_ScalarBaseMult k)).
(** The bytes and the receiver, which is brought into affine form; [None] is a panic. *)
Definition G1_Marshal (e : curvePoint) : option (bytes * curvePoint) :=
  if curve_IsInfinity e then Some (replicate 64 0, e)
  else
    e ← curve_MakeAffine e;
    Some (field_bytes (cpx e mod P) ++ field_bytes (cpy e mod P), e).
(** The receiver's point afterwards, and the rest of the input or an error. *)
Definition G1_Unmarshal (e : option curvePoint) (m : bytes) : option curvePoint * (bytes + Z) :=
  if negb (len m =? 2 * numBytes) then (e, inr errNotEnoughData)
  else
    let p := G1_point e in
    let p := mkCurvePoint (field_at 0 m) (cpy p) (cpz p) (cpt p) in
    if P <=? cpx p then (Some p, inr errExceedsModulus)
    else
      let p := mkCurvePoint (cpx p) (field_at 1 m) (cpz p) (cpt p) in
      if P <=? cpy p then (Some p, inr errExceedsModulus)
      else if (cpx p =? 0) && (cpy p =? 0) then
        (Some (mkCurvePoint (cpx p) 1 0 0), inl (drop 64 m))
      else
        let p := mkCurvePoint (cpx p) (cpy p) 1 1 in
        if negb (curve_IsOnCurve p) then (Some p, inr errMalformedPoint)
        else (Some p, inl (drop 64 m)).

Definition G2_String (p : twistPoint) : bytes := str "bn256.G2" ++ twist_String p.
Definition G2_CurvePoints (p : twistPoint) : gfP2 * gfP2 * gfP2 * gfP2 := (tpx p, tpy p, tpz p, tpt p).
Definition G2_ScalarBaseMult (k : Z) : twistPoint := twist_Mul 0 twistGen k.
Definition G2_ScalarMult (a : twistPoint) (k : Z) : twistPoint := twist_Mul 0 a k.
Definition G2_Add (same : bool) (e : option twistPoint) (a b : twistPoint) : twistPoint := twist_Add same (G2_point e) a b.
Definition RandomG2 (draws : list (option Z)) : option (option (Z * twistPoint)) :=
  k ← random_scalar draws;
  Some (k ← k; Some (k, G2_ScalarBaseMult k)).
Definition G2_Marshal (n : twistPoint) : bytes * twistPoint :=
  if twist_IsInfinity n then (replicate 128 0, n)
  else
    let n := twist_MakeAffine 0 n in
    (field_bytes (x2 (tpx n) mod P) ++ field_bytes (y2 (tpx n) mod P)
     ++ field_bytes (x2 (tpy n) mod P) ++ field_bytes (y2 (tpy n) mod P), n).
Definition G2_Unmarshal (stale : Z) (e : option twistPoint) (m : bytes) : option twistPoint * (bytes + Z) :=
  if negb (len m =? 4 * numBytes) then (e, inr errNotEnoughData)
  else
    let p := G2_point e in
    let xx := field_at 0 m in
    if P <=? xx then (Some (mkTwistPoint (mkGfP2 xx (y2 (tpx p))) (tpy p) (tpz p) (tpt p)), inr errExceedsModulus)
    else
      let xy := field_at 1 m in
      if P <=? xy then (Some (mkTwistPoint (mkGfP2 xx xy) (tpy p) (tpz p) (tpt p)), inr errExceedsModulus)
      else
        let yx := field_at 2 m in
        if P <=? yx then (Some (mkTwistPoint (mkGfP2 xx xy) (mkGfP2 yx (y2 (tpy p))) (tpz p) (tpt p)), inr errExceedsModulus)
        else
          let yy := field_at 3 m in
          if P <=? yy then (Some (mkTwistPoint (mkGfP2 xx xy) (mkGfP2 yx yy) (tpz p) (tpt p)), inr errExceedsModulus)
          else if (xx =? 0) && (xy =? 0) && (yx =? 0) && (yy =? 0) then
            (Some (mkTwistPoint (mkGfP2 xx xy) gfP2_SetOne gfP2_SetZero gfP2_SetZero), inl (drop 128 m))
          else
            let p := mkTwistPoint (mkGfP2 xx xy) (mkGfP2 yx yy) gfP2_SetOne gfP2_SetOne in
            if negb (twist_IsOnCurve stale p) then (Some p, inr errMalformedPoint)
            else (Some p, inl (drop 128 m)).

Definition GT_String (p : gfP12) : bytes := str "bn256.GT" ++ gfP12_String p.
Definition GT_ScalarMult (a : gfP12) (k : Z) : gfP12 := gfP12_Exp a k.
Definition GT_Add (a b : gfP12) : gfP12 := gfP12_Mul a b.
Definition GT_Neg (stale : Z) (a : gfP12) : gfP12 := gfP12_Invert stale a.
Definition gfP2_fields (e : gfP2) : bytes := field_bytes (x2 e) ++ field_bytes (y2 e).
Definition gfP6_fields (e : gfP6) : bytes := gfP2_fields (x6 e) ++ gfP2_fields (y6 e) ++ gfP2_fields (z6 e).
Definition GT_Marshal (n : gfP12) : bytes * gfP12 :=
  let n := gfP12_Minimal n in (gfP6_fields (x12 n) ++ gfP6_fields (y12 n), n).
Definition GT_Unmarshal (e : option gfP12) (m : bytes) : option gfP12 * bool :=
  if negb (len m =? 12 * numBytes) then (e, false)
  else
    let f k := mkGfP2 (field_at (2 * k) m) (field_at (2 * k + 1) m) in
    (Some (mkGfP12 (mkGfP6 (f 0) (f 1) (f 2)) (mkGfP6 (f 3) (f 4) (f 5))), true).

Section Pairing.
Context (stale : Z).

Definition Pair (g1 : curvePoint) (g2 : twistPoint) : option gfP12 := optimalAte stale g2 g1.
(** [b[i]] panics when the second list is shorter; it is not looked at when [a[i]] is infinity. *)
Fixpoint pairing_product (acc : gfP12) (a : list curvePoint) (b : list twistPoint) : option gfP12 :=
  match a with
  | [] => Some acc
  | p :: a =>
      if curve_IsInfinity p then pairing_product acc a (tail b)
      else
        match b with
        | [] => None
        | q :: b =>
            if twist_IsInfinity q then pairing_product acc a b
            else m ← miller stale q p; pairing_product (gfP12_Mul acc m) a b
        end
  end.
Definition PairingCheck (a : list curvePoint) (b : list twistPoint) : option bool :=
  acc ← pairing_product gfP12_SetOne a b;
  let ret := finalExponentiation stale acc in
  Some (gfP12_IsOne ret).2.
End Pairing.
