(* ===== verification/Bn256Tower.v ===== *)
(** * The tower of fields of bn256

    The code of gfp2.go, gfp6.go and gfp12.go against the fields of [P], [P^2],
    [P^6] and [P^12] elements built by Fields.v: [phi2], [phi6] and [phi12] read
    an element of the code, and every operation of the code is the operation of
    the field. *)

From Stdlib Require Import Zmod Ring Field.
From stdpp Require Import base.
From S2P Require Import Prelude BigInt Fields Bn256.
#[local] Open Scope ralg_scope.
#[local] Opaque P.

(** ** The prime field *)
Lemma P_prime : Z.prime P.
Proof. exact prime_bn256. Qed.
Lemma P_ge : (2 <= P)%Z.
Proof. apply Z.prime_ge_2, P_prime. Qed.

Definition FpR : cring := mkCring (Zmod P) Zmod.zero Zmod.one Zmod.add Zmod.mul Zmod.sub Zmod.opp (Zmod.ring_theory P).
Lemma Fp_neq : (1 : FpR) <> 0.
Proof. apply Zmod.one_neq_zero. pose proof P_ge. lia. Qed.
Lemma Fp_inv (x : FpR) : x <> 0 -> (Zmod.inv x : FpR) * x = 1.
Proof. intros Hx. apply Zmod.mul_inv_same_l_prime; [exact P_prime | exact Hx]. Qed.
Definition Fp_dec (x y : FpR) : {x = y} + {x <> y}.
Proof. destruct (Zmod.eqb x y) eqn:E; [left; now apply Zmod.eqb_eq|right; intros ->; now rewrite Zmod.eqb_refl in E]. Defined.
Definition Fp : fld := mkFld FpR Zmod.inv Fp_neq Fp_inv Fp_dec.
Definition phi (z : Z) : Fp := Zmod.of_Z P z.

Lemma phi_add a b : phi (a + b) = phi a + phi b.
Proof. apply Zmod.of_Z_add. Qed.
Lemma phi_sub a b : phi (a - b) = phi a - phi b.
Proof. apply Zmod.of_Z_sub. Qed.
Lemma phi_mul a b : phi (a * b) = phi a * phi b.
Proof. apply Zmod.of_Z_mul. Qed.
Lemma phi_opp a : phi (- a) = - phi a.
Proof. apply Zmod.of_Z_opp. Qed.
Lemma phi_mod a : phi (a mod P) = phi a.
Proof. apply Zmod.of_Z_mod. Qed.
Lemma phi_0 : phi 0 = 0.
Proof. apply Zmod.of_Z_0. Qed.
Lemma phi_1 : phi 1 = 1.
Proof. apply Zmod.of_Z_1. Qed.
Lemma phi_eq a b : phi a = phi b <-> a mod P = b mod P.
Proof. apply Zmod.of_Z_inj. Qed.
Lemma phi_shift1 a : phi (Z.shiftl a 1) = phi a + phi a.
Proof. rewrite Z.shiftl_mul_pow2 by lia. replace (a * 2 ^ 1)%Z with (a + a)%Z by lia. apply phi_add. Qed.
Lemma phi_minimal a : phi (minimal a) = phi a.
Proof. unfold minimal. destruct (_ || _); [apply phi_mod | done]. Qed.
Lemma phi_zero a : phi a = 0 <-> a mod P = 0%Z.
Proof. rewrite <- phi_0, phi_eq. now rewrite Z.mod_0_l by (pose proof P_ge; lia). Qed.
(** The number below [P] *)
Definition toZ (x : Fp) : Z := Zmod.unsigned (x : Zmod P).
Lemma toZ_phi z : toZ (phi z) = (z mod P)%Z.
Proof. apply Zmod.unsigned_of_Z. Qed.
Lemma phi_toZ x : phi (toZ x) = x.
Proof. apply Zmod.of_Z_unsigned. Qed.
Create Rewrite HintDb bn256.
#[export] Hint Rewrite phi_add phi_sub phi_mul phi_opp phi_mod phi_0 phi_1 phi_shift1 phi_minimal : bn256.
Add Field Fp_field : (fth Fp).

(** The list of all elements is sealed, as it is never to be computed. *)
Lemma Fp_finite : {E : enum Fp | order E = Z.to_N P}.
Proof.
  pose proof P_ge. assert (HP : (P <> 0)%Z) by lia.
  exists (mkEnum Fp (Zmod.elements P) (Zmod.NoDup_elements P) (fun x => Zmod.in_elements (m:=P) x HP)).
  change (N.of_nat (length (Zmod.elements P)) = Z.to_N P). rewrite Zmod.length_elements. lia.
Qed.
Definition FpE : enum Fp := proj1_sig Fp_finite.
Lemma Fp_order : order FpE = Z.to_N P.
Proof. exact (proj2_sig Fp_finite). Qed.
Lemma Fp_fermat (x : Fp) : x ^ Z.to_N P = x.
Proof.
  pose proof P_ge. destruct (f_dec Fp x 0) as [->|Hx]; [apply rpow_zero; lia|].
  replace (Z.to_N P) with (N.succ (order FpE - 1)) by (rewrite Fp_order; lia).
  rewrite rpow_succ, finite_fermat by exact Hx. ring.
Qed.
Definition pN : N := Z.to_N P.
Lemma pN_val : pN = 21888242871839275222246405745257275088696311157297823662689037894645226208583%N.
Proof. reflexivity. Qed.

Lemma pN_of : Z.to_N P = pN.
Proof. reflexivity. Qed.
#[global] Opaque pN Fp phi toZ.

(** ** The quadratic extension, [i^2 = -1] *)
Lemma no_sqrt (s : Fp) : s * s <> - (1).
Proof.
  rewrite <- rpow_2. apply (no_root Fp FpE 2); [easy | | |].
  - intros H. apply (f_neq Fp). transitivity (- (- (1)) : Fp); [ring|]. rewrite H. ring.
  - rewrite Fp_order, pN_of, pN_val. reflexivity.
  - rewrite Fp_order, pN_of, pN_val.
    match goal with |- _ ^ ?n <> _ => let k := eval vm_compute in (N.div2 n) in
      replace n with (2 * k + 1)%N by (vm_compute; reflexivity) end.
    rewrite rpow_opp_odd. intros H. apply (f_neq Fp).
    assert (E : phi 2 = 0). { change (phi (1 + 1) = 0). autorewrite with bn256. rewrite <- H at 2. ring. }
    rewrite phi_zero in E. pose proof P_ge. exfalso. revert E. vm_compute. discriminate.
Qed.
Definition F2 : fld := QuadF Fp (- (1)) no_sqrt.
Definition phi2 (e : gfP2) : F2 := (phi (x2 e), phi (y2 e)).
Definition xi : F2 := (phi 1, phi 9).
Add Field F2_field : (fth F2).

(** Unfolds an operation of the code and compares the coordinates. *)
Ltac coordinates2 :=
  cbn [x2 y2]; autorewrite with bn256; (reflexivity || (apply f_equal2; ring)).
Lemma phi2_zero : phi2 gfP2_SetZero = 0.
Proof. unfold phi2, gfP2_SetZero. coordinates2. Qed.
Lemma phi2_one : phi2 gfP2_SetOne = 1.
Proof. unfold phi2, gfP2_SetOne. coordinates2. Qed.
Lemma phi2_Minimal e : phi2 (gfP2_Minimal e) = phi2 e.
Proof. unfold phi2, gfP2_Minimal. coordinates2. Qed.
Lemma phi2_Add a b : phi2 (gfP2_Add a b) = phi2 a + phi2 b.
Proof. unfold phi2, gfP2_Add. coordinates2. Qed.
Lemma phi2_Sub a b : phi2 (gfP2_Sub a b) = phi2 a - phi2 b.
Proof. unfold phi2, gfP2_Sub. coordinates2. Qed.
Lemma phi2_Negative a : phi2 (gfP2_Negative a) = - phi2 a.
Proof. unfold phi2, gfP2_Negative. coordinates2. Qed.
Lemma phi2_Double a : phi2 (gfP2_Double a) = phi2 a + phi2 a.
Proof. unfold phi2, gfP2_Double. coordinates2. Qed.
Lemma phi2_Mul a b : phi2 (gfP2_Mul a b) = phi2 a * phi2 b.
Proof. unfold phi2, gfP2_Mul. cbv zeta. change (@rmul F2) with (@rmul (Quad Fp (- (1)))). rewrite quad_mul. coordinates2. Qed.
Lemma phi2_Square a : phi2 (gfP2_Square a) = phi2 a * phi2 a.
Proof. unfold phi2, gfP2_Square. cbv zeta. change (@rmul F2) with (@rmul (Quad Fp (- (1)))). rewrite quad_mul. coordinates2. Qed.
Lemma phi2_MulScalar a k : phi2 (gfP2_MulScalar a k) = (qconst (phi k) : F2) * phi2 a.
Proof. unfold phi2, gfP2_MulScalar, qconst. change (@rmul F2) with (@rmul (Quad Fp (- (1)))). rewrite quad_mul. coordinates2. Qed.
Lemma phi2_MulXi a : phi2 (gfP2_MulXi a) = xi * phi2 a.
Proof.
  unfold phi2, gfP2_MulXi, xi. cbv zeta. change (@rmul F2) with (@rmul (Quad Fp (- (1)))). rewrite quad_mul. cbn [x2 y2].
  assert (E : forall z, phi (Z.shiftl z 3) = phi 8 * phi z).
  { intros z. rewrite Z.shiftl_mul_pow2, Z.mul_comm by lia. apply phi_mul. }
  change 9%Z with (8 + 1)%Z. autorewrite with bn256. rewrite !E. apply f_equal2; ring.
Qed.
Lemma phi2_eq a b : phi2 a = phi2 b <-> x2 a mod P = x2 b mod P /\ y2 a mod P = y2 b mod P.
Proof.
  unfold phi2. rewrite <- !phi_eq. split; [intros H; split; [exact (f_equal fst H) | exact (f_equal snd H)] | now intros [-> ->]].
Qed.
#[export] Hint Rewrite phi2_zero phi2_one phi2_Minimal phi2_Add phi2_Sub phi2_Negative phi2_Double phi2_Mul phi2_Square
  phi2_MulScalar phi2_MulXi : bn256.

(** The [P]-th power is the conjugate. *)
Lemma P_nat : {n : nat | Z.of_nat n = P}.
Proof. exists (Z.to_nat P). pose proof P_ge. lia. Qed.
Definition pnat : nat := proj1_sig P_nat.
Lemma pnat_val : Z.of_nat pnat = P.
Proof. exact (proj2_sig P_nat). Qed.
Lemma pnat_prime : Z.prime (Z.of_nat pnat).
Proof. rewrite pnat_val. exact P_prime. Qed.
Lemma frob_add (R : cring) (x y : R) : nmul R pnat 1 = 0 -> (x + y) ^ pN = x ^ pN + y ^ pN.
Proof.
  intros Hc. pose proof (frobenius_add R pnat x y pnat_prime Hc) as H. unfold npow in H.
  replace (N.of_nat pnat) with pN in H; [exact H|]. rewrite <- pN_of, <- pnat_val. lia.
Qed.
Lemma frob_poly1 (R : cring) (a b t : R) : nmul R pnat 1 = 0 -> (a * t + b) ^ pN = a ^ pN * t ^ pN + b ^ pN.
Proof. intros Hc. now rewrite (frob_add R _ _ Hc), rpow_base. Qed.
Lemma frob_poly2 (R : cring) (a b c t : R) : nmul R pnat 1 = 0 ->
  (a * (t * t) + (b * t + c)) ^ pN = a ^ pN * (t ^ pN * t ^ pN) + (b ^ pN * t ^ pN + c ^ pN).
Proof. intros Hc. now rewrite (frob_add R _ _ Hc), (frob_poly1 R _ _ _ Hc), !rpow_base. Qed.
Lemma nmul_phi n : nmul Fp n 1 = phi (Z.of_nat n).
Proof.
  induction n as [|n IH]; [symmetry; apply phi_0|].
  rewrite nmul_S, IH, Nat2Z.inj_succ, <- Z.add_1_l, phi_add, phi_1. reflexivity.
Qed.
Lemma Fp_char : nmul Fp pnat 1 = 0.
Proof.
  rewrite nmul_phi, phi_zero, pnat_val.
  apply Z.mod_same. pose proof P_ge. lia.
Qed.
Lemma F2_char : nmul F2 pnat 1 = 0.
Proof. exact (quad_char Fp _ pnat Fp_char). Qed.

Definition conj2 (p : F2) : F2 := (- fst p, snd p).
Lemma pN_1 : pN = (2 * (2 * 5472060717959818805561601436314318772174077789324455915672259473661306552145 + 1) + 1)%N.
Proof. rewrite pN_val. reflexivity. Qed.
Lemma i_pow_p : (qgen : F2) ^ pN = - (qgen : F2).
Proof.
  rewrite pN_1 at 1.
  etransitivity; [exact (qgen_pow Fp (- (1)) _)|]. rewrite rpow_opp_odd.
  unfold qconst, qgen. rewrite quad_mul. change (@ropp F2) with (@ropp (Quad Fp (- (1)))). rewrite quad_opp. apply f_equal2; ring.
Qed.
Lemma qconst_pow_p (x : Fp) : (qconst x : F2) ^ pN = qconst x.
Proof. etransitivity; [symmetry; exact (qconst_pow Fp (- (1)) x pN)|]. f_equal. apply Fp_fermat. Qed.
Lemma F2_frobenius (p : F2) : p ^ pN = conj2 p.
Proof.
  destruct p as [x y].
  assert (E : ((x, y) : F2) = (qconst x : F2) * (qgen : F2) + (qconst y : F2)) by exact (quad_split Fp (- (1)) x y).
  rewrite E at 1. rewrite (frob_add F2 _ _ F2_char), rpow_base, !qconst_pow_p, i_pow_p.
  unfold conj2, qconst, qgen. cbn [fst snd].
  change (((0, x) : Quad Fp (- (1))) * - ((1, 0) : Quad Fp (- (1))) + ((0, y) : Quad Fp (- (1))) = (- x, y)).
  rewrite quad_opp, quad_mul, quad_add. apply f_equal2; ring.
Qed.
Lemma phi2_Conjugate a : phi2 (gfP2_Conjugate a) = phi2 a ^ pN.
Proof. rewrite F2_frobenius. unfold phi2, gfP2_Conjugate, conj2. cbn [x2 y2 fst snd]. now autorewrite with bn256. Qed.

(** [Exp] *)
Lemma BitLen_mod (k : Z) : (0 <= k -> k mod 2 ^ BitLen k = k)%Z.
Proof.
  intros Hk. unfold BitLen. destruct (Z.eqb_spec k 0) as [->|Hne]; [done|].
  rewrite Z.abs_eq by lia. apply Z.mod_small. split; [lia|]. apply Z.log2_spec. lia.
Qed.
Lemma BitLen_nonneg (k : Z) : (0 <= BitLen k)%Z.
Proof. unfold BitLen. destruct (_ =? _); [done|]. pose proof (Z.log2_nonneg (Z.abs k)). lia. Qed.
Lemma gfP2_exp_loop_eq n sum a k : gfP2_exp_loop n sum a k = exp_loop gfP2_Square gfP2_Mul n sum a k.
Proof. revert sum. induction n as [|n IH]; intros sum; cbn [gfP2_exp_loop exp_loop]; [done|]. apply IH. Qed.
Lemma phi2_Exp a k : (0 <= k)%Z -> phi2 (gfP2_Exp a k) = phi2 a ^ Z.to_N k.
Proof.
  intros Hk. unfold gfP2_Exp.
  rewrite gfP2_exp_loop_eq, (exp_loop_spec gfP2_Square gfP2_Mul F2 phi2 phi2_Square phi2_Mul) by exact Hk.
  rewrite Z2Nat.id, BitLen_mod, phi2_one, rpow_one by (apply BitLen_nonneg || done). ring.
Qed.

(** ** The powers of [xi] listed in constants.go *)
Lemma xi_phi : xi = phi2 (mkGfP2 1 9).
Proof. reflexivity. Qed.
Definition e6 : N := 3648040478639879203707734290876212514782718526216303943781506315774204368097.
Lemma pN_6 : pN = (6 * e6 + 1)%N.
Proof. rewrite pN_val. reflexivity. Qed.
#[global] Opaque e6.
Lemma xi_PMinus1Over6 : phi2 xiToPMinus1Over6 = xi ^ e6.
Proof.
  rewrite xi_phi. change e6 with (Z.to_N (Z.of_N e6)). rewrite <- phi2_Exp by lia. apply (f_equal phi2). vm_compute. reflexivity.
Qed.
Ltac by_products :=
  rewrite <- ?phi2_Mul, <- ?phi2_one, <- ?phi2_Negative; apply phi2_eq; vm_compute; split; reflexivity.
Lemma xi_PMinus1Over3 : phi2 xiToPMinus1Over3 = xi ^ (2 * e6)%N.
Proof. rewrite N.mul_comm, rpow_mul, <- xi_PMinus1Over6, rpow_2. by_products. Qed.
Lemma xi_PMinus1Over2 : phi2 xiToPMinus1Over2 = xi ^ (3 * e6)%N.
Proof.
  rewrite N.mul_comm, rpow_mul, <- xi_PMinus1Over6. change 3%N with (N.succ 2). rewrite rpow_succ, rpow_2. by_products.
Qed.
Lemma xi_2PMinus2Over3 : phi2 xiTo2PMinus2Over3 = xi ^ (4 * e6)%N.
Proof.
  replace (4 * e6)%N with (e6 * 2 * 2)%N by lia. rewrite !rpow_mul, <- xi_PMinus1Over6, !rpow_2. by_products.
Qed.

(** The multipliers of the [P^2]-th power are numbers: the norms of the others. *)
Lemma norm_power (a : gfP2) (k : Z) :
  phi2 (gfP2_Mul (gfP2_Conjugate a) a) = phi2 (mkGfP2 0 k) -> phi2 a ^ pN * phi2 a = qconst (phi k).
Proof. intros H. rewrite <- phi2_Conjugate, <- phi2_Mul, H. unfold phi2. cbn [x2 y2]. now rewrite phi_0. Qed.
Ltac by_norm := apply norm_power, phi2_eq; vm_compute; split; reflexivity.
Lemma norm_6 : phi2 xiToPMinus1Over6 ^ pN * phi2 xiToPMinus1Over6 = qconst (phi xiToPSquaredMinus1Over6).
Proof. by_norm. Qed.
Lemma norm_3 : phi2 xiToPMinus1Over3 ^ pN * phi2 xiToPMinus1Over3 = qconst (phi xiToPSquaredMinus1Over3).
Proof. by_norm. Qed.
Lemma norm_23 : phi2 xiTo2PMinus2Over3 ^ pN * phi2 xiTo2PMinus2Over3 = qconst (phi xiTo2PSquaredMinus2Over3).
Proof. by_norm. Qed.

(** ** The sextic extension, [tau^3 = xi] *)
Definition F2E : enum F2 := quad_enum Fp (- (1)) FpE.
Lemma F2_order : order F2E = (pN * pN)%N.
Proof. etransitivity; [exact (quad_order Fp (- (1)) FpE)|]. now rewrite Fp_order, pN_of. Qed.
Lemma xi_neq : xi <> 0.
Proof. rewrite xi_phi, <- phi2_zero, phi2_eq. vm_compute. intros [? ?]. discriminate. Qed.
Lemma no_cube_root (s : F2) : s * (s * s) <> xi.
Proof.
  rewrite <- (rpow_2 F2), <- (rpow_succ F2). apply (no_root F2 F2E 3); [easy | exact xi_neq | |].
  - rewrite F2_order, pN_6. clear.
    replace ((6 * e6 + 1) * (6 * e6 + 1) - 1)%N with ((4 * e6 + 12 * e6 * e6) * 3)%N by lia. apply N.Div0.mod_mul.
  - rewrite F2_order.
    replace ((pN * pN - 1) / 3)%N with (2 * e6 * (pN + 1))%N.
    2:{ rewrite pN_6. replace ((6 * e6 + 1) * (6 * e6 + 1) - 1)%N with (2 * e6 * (6 * e6 + 1 + 1) * 3)%N by lia.
        now rewrite N.div_mul. }
    rewrite rpow_mul, <- xi_PMinus1Over3, rpow_add, rpow_1, norm_3. intros H.
    apply (f_equal snd) in H. change (phi xiToPSquaredMinus1Over3 = 1) in H. rewrite <- phi_1, phi_eq in H.
    revert H. vm_compute. discriminate.
Qed.
Definition F6 : fld := CubicF F2 xi no_cube_root.
Definition phi6 (e : gfP6) : F6 := (phi2 (x6 e), phi2 (y6 e), phi2 (z6 e)).
Add Field F6_field : (fth F6).
Abbreviation Q2 := (Quad Fp (- (1))).
Abbreviation C6 := (Cubic F2 xi).

Ltac coordinates6 :=
  cbv zeta; cbn [x6 y6 z6]; autorewrite with bn256;
  change (@rmul F6) with (@rmul C6); change (@radd F6) with (@radd C6);
  change (@rsub F6) with (@rsub C6); change (@ropp F6) with (@ropp C6);
  rewrite ?cubic_mul, ?cubic_add, ?cubic_sub, ?cubic_opp;
  (reflexivity || (apply f_equal2; [apply f_equal2|]; ring)).
Lemma phi6_zero : phi6 gfP6_SetZero = 0.
Proof. unfold phi6, gfP6_SetZero. coordinates6. Qed.
Lemma phi6_one : phi6 gfP6_SetOne = 1.
Proof. unfold phi6, gfP6_SetOne. coordinates6. Qed.
Lemma phi6_Minimal e : phi6 (gfP6_Minimal e) = phi6 e.
Proof. unfold phi6, gfP6_Minimal. coordinates6. Qed.
Lemma phi6_Add a b : phi6 (gfP6_Add a b) = phi6 a + phi6 b.
Proof. unfold phi6, gfP6_Add. coordinates6. Qed.
Lemma phi6_Sub a b : phi6 (gfP6_Sub a b) = phi6 a - phi6 b.
Proof. unfold phi6, gfP6_Sub. coordinates6. Qed.
Lemma phi6_Negative a : phi6 (gfP6_Negative a) = - phi6 a.
Proof. unfold phi6, gfP6_Negative. coordinates6. Qed.
Lemma phi6_Double a : phi6 (gfP6_Double a) = phi6 a + phi6 a.
Proof. unfold phi6, gfP6_Double. coordinates6. Qed.
Lemma phi6_Mul a b : phi6 (gfP6_Mul a b) = phi6 a * phi6 b.
Proof. unfold phi6, gfP6_Mul. coordinates6. Qed.
Lemma phi6_Square a : phi6 (gfP6_Square a) = phi6 a * phi6 a.
Proof. unfold phi6, gfP6_Square. coordinates6. Qed.
Lemma phi6_MulScalar a b : phi6 (gfP6_MulScalar a b) = (cconst (phi2 b) : F6) * phi6 a.
Proof. unfold phi6, gfP6_MulScalar, cconst. coordinates6. Qed.
Lemma phi6_MulGFP a k : phi6 (gfP6_MulGFP a k) = (cconst (qconst (phi k) : F2) : F6) * phi6 a.
Proof. unfold phi6, gfP6_MulGFP, cconst. coordinates6. Qed.
Definition tau : F6 := cgen.
Lemma phi6_MulTau a : phi6 (gfP6_MulTau a) = tau * phi6 a.
Proof. unfold phi6, gfP6_MulTau, tau, cgen. coordinates6. Qed.
#[export] Hint Rewrite phi6_zero phi6_one phi6_Minimal phi6_Add phi6_Sub phi6_Negative phi6_Double phi6_Mul phi6_Square
  phi6_MulScalar phi6_MulGFP phi6_MulTau : bn256.

(** The [P]-th power *)
Lemma F6_char : nmul F6 pnat 1 = 0.
Proof. exact (cubic_char F2 xi pnat F2_char). Qed.
Lemma cconst_power (x : F2) n : (cconst x : F6) ^ n = cconst (x ^ n).
Proof. symmetry. exact (cconst_pow F2 xi x n). Qed.
Lemma cconst_times (x y : F2) : (cconst x : F6) * (cconst y : F6) = cconst (x * y).
Proof. symmetry. exact (cconst_mul F2 xi x y). Qed.
Lemma tau_pow_p : tau ^ pN = (cconst (xi ^ (2 * e6)%N) : F6) * tau.
Proof. replace pN with (3 * (2 * e6) + 1)%N by (rewrite pN_6; lia). exact (cgen_pow F2 xi (2 * e6)). Qed.
Lemma F6_split (x y z : F2) : ((x, y, z) : F6) = (cconst x : F6) * (tau * tau) + ((cconst y : F6) * tau + (cconst z : F6)).
Proof. exact (cubic_split F2 xi x y z). Qed.
Lemma F6_frobenius (x y z : F2) :
  ((x, y, z) : F6) ^ pN = (x ^ pN * xi ^ (4 * e6)%N, y ^ pN * xi ^ (2 * e6)%N, z ^ pN).
Proof.
  etransitivity; [exact (f_equal (fun e : F6 => e ^ pN) (F6_split x y z))|].
  etransitivity; [exact (frob_poly2 F6 _ _ _ _ F6_char)|].
  etransitivity; [|symmetry; apply F6_split].
  rewrite (cconst_power x), (cconst_power y), (cconst_power z), tau_pow_p.
  replace (4 * e6)%N with (2 * e6 + 2 * e6)%N by lia. rewrite rpow_add.
  rewrite <- !cconst_times. ring.
Qed.
Lemma phi6_Frobenius a : phi6 (gfP6_Frobenius a) = phi6 a ^ pN.
Proof.
  unfold phi6 at 2. rewrite F6_frobenius, <- xi_2PMinus2Over3, <- xi_PMinus1Over3.
  unfold phi6, gfP6_Frobenius. cbv zeta. cbn [x6 y6 z6]. now rewrite !phi2_Mul, !phi2_Conjugate.
Qed.
(** The [P^2]-th power *)
Lemma F2_frobenius2 (x : F2) : (x ^ pN) ^ pN = x.
Proof. rewrite !F2_frobenius. destruct x as [x y]. unfold conj2. cbn [fst snd]. apply f_equal2; ring. Qed.
Lemma twisted (x k : F2) (m : F2) : k ^ pN * k = m -> (x ^ pN * k) ^ pN * k = m * x.
Proof. intros H. rewrite rpow_base, F2_frobenius2, <- H. ring. Qed.
Lemma phi6_FrobeniusP2 a : phi6 (gfP6_FrobeniusP2 a) = (phi6 a ^ pN) ^ pN.
Proof.
  rewrite <- !phi6_Frobenius. unfold phi6, gfP6_FrobeniusP2, gfP6_Frobenius. cbv zeta. cbn [x6 y6 z6].
  rewrite !phi2_Mul, !phi2_Conjugate, !phi2_Mul, !phi2_Conjugate, !phi2_MulScalar, F2_frobenius2.
  now rewrite (twisted _ _ _ norm_23), (twisted _ _ _ norm_3).
Qed.
#[export] Hint Rewrite phi6_Frobenius phi6_FrobeniusP2 : bn256.

(** ** The extension of degree twelve, [omega^2 = tau] *)
Definition F6E : enum F6 := cubic_enum F2 xi F2E.
Lemma F6_order : order F6E = (pN * pN * (pN * pN) * (pN * pN))%N.
Proof. etransitivity; [exact (cubic_order F2 xi F2E)|]. now rewrite F2_order. Qed.
(** [(P^6-1)/2], as three times a product *)
Definition half6 : N := (3 * (e6 * (pN + 1) * (pN * pN * (pN * pN) + pN * pN + 1)))%N.
Lemma half6_ok : (order F6E - 1 = half6 * 2)%N.
Proof. rewrite F6_order. unfold half6. rewrite pN_6. lia. Qed.
Lemma number_pow (k : Z) : (qconst (phi k) : F2) ^ (pN * pN)%N = qconst (phi k).
Proof. now rewrite rpow_mul, !qconst_pow_p. Qed.
Lemma tau_half : tau ^ half6 = - (1).
Proof.
  unfold half6. rewrite rpow_mul. change 3%N with (N.succ 2). rewrite rpow_succ, rpow_2.
  assert (E : tau * (tau * tau) = (cconst xi : F6)) by exact (cgen_cube F2 xi). rewrite E, cconst_power, rpow_mul, rpow_mul.
  rewrite <- xi_PMinus1Over6, (rpow_add F2 _ pN 1), rpow_1, norm_6, !rpow_add, rpow_mul, !number_pow, rpow_1.
  assert (E' : ((qconst (phi xiToPSquaredMinus1Over6) : F2) * qconst (phi xiToPSquaredMinus1Over6)
                * qconst (phi xiToPSquaredMinus1Over6) : F2) = - (1)).
  { assert (Hk : (qconst (phi xiToPSquaredMinus1Over6) : F2) = phi2 (mkGfP2 0 xiToPSquaredMinus1Over6))
      by (unfold phi2; cbn [x2 y2]; now rewrite phi_0).
    rewrite Hk. by_products. }
  rewrite E'. change ((0, 0, - (1)) = (- (0), - (0), - (1)) :> F6). apply f_equal2; [apply f_equal2|]; ring.
Qed.
Lemma no_sqrt_tau (s : F6) : s * s <> tau.
Proof.
  rewrite <- (rpow_2 F6). apply (no_root F6 F6E 2); [easy | | |].
  - intros H. apply (f_equal cy) in H. exact (f_neq F2 H).
  - rewrite half6_ok. apply N.Div0.mod_mul.
  - rewrite half6_ok, N.div_mul, tau_half by easy. intros H. apply (f_equal cz) in H. apply (f_equal snd) in H.
    change (- (1) = (1 : Fp)) in H. rewrite <- phi_1, <- phi_opp, phi_eq in H. revert H. vm_compute. discriminate.
Qed.
Definition F12 : fld := QuadF F6 tau no_sqrt_tau.
Definition phi12 (e : gfP12) : F12 := (phi6 (x12 e), phi6 (y12 e)).
Add Field F12_field : (fth F12).
Abbreviation Q12 := (Quad F6 tau).
Ltac coordinates12 :=
  cbv zeta; cbn [x12 y12]; autorewrite with bn256;
  change (@rmul F12) with (@rmul Q12); change (@radd F12) with (@radd Q12);
  change (@rsub F12) with (@rsub Q12); change (@ropp F12) with (@ropp Q12);
  rewrite ?quad_mul, ?quad_add, ?quad_sub, ?quad_opp; apply f_equal2; ring.
Lemma phi12_zero : phi12 gfP12_SetZero = 0.
Proof. unfold phi12, gfP12_SetZero. cbn [x12 y12]. autorewrite with bn256. reflexivity. Qed.
Lemma phi12_one : phi12 gfP12_SetOne = 1.
Proof. unfold phi12, gfP12_SetOne. cbn [x12 y12]. autorewrite with bn256. reflexivity. Qed.
Lemma phi12_Minimal e : phi12 (gfP12_Minimal e) = phi12 e.
Proof. unfold phi12, gfP12_Minimal. coordinates12. Qed.
Lemma phi12_Add a b : phi12 (gfP12_Add a b) = phi12 a + phi12 b.
Proof. unfold phi12, gfP12_Add. coordinates12. Qed.
Lemma phi12_Sub a b : phi12 (gfP12_Sub a b) = phi12 a - phi12 b.
Proof. unfold phi12, gfP12_Sub. coordinates12. Qed.
Lemma phi12_Negative a : phi12 (gfP12_Negative a) = - phi12 a.
Proof. unfold phi12, gfP12_Negative. coordinates12. Qed.
Lemma phi12_Mul a b : phi12 (gfP12_Mul a b) = phi12 a * phi12 b.
Proof. unfold phi12, gfP12_Mul. coordinates12. Qed.
Lemma phi12_Square a : phi12 (gfP12_Square a) = phi12 a * phi12 a.
Proof. unfold phi12, gfP12_Square. coordinates12. Qed.
Lemma gfP12_exp_loop_eq n sum a k : gfP12_exp_loop n sum a k = exp_loop gfP12_Square gfP12_Mul n sum a k.
Proof. revert sum. induction n as [|n IH]; intros sum; cbn [gfP12_exp_loop exp_loop]; [done|]. apply IH. Qed.
Lemma phi12_Exp a k : (0 <= k)%Z -> phi12 (gfP12_Exp a k) = phi12 a ^ Z.to_N k.
Proof.
  intros Hk. unfold gfP12_Exp.
  rewrite gfP12_exp_loop_eq, (exp_loop_spec gfP12_Square gfP12_Mul F12 phi12 phi12_Square phi12_Mul) by exact Hk.
  rewrite Z2Nat.id, BitLen_mod, phi12_one, rpow_one by (apply BitLen_nonneg || done). ring.
Qed.
