(* ===== verification/Curves.v ===== *)
(** * Short Weierstrass curves [y^2 = x^3 + b]

    The reference for curve.go and twist.go of src/crypto/bn256/google: the chord
    and tangent law on affine points over any field in which [2 <> 0], and the
    Jacobian formulas of the code, which compute it without division. *)

From Stdlib Require Import ZArith List Lia Ring Field.
From S2P Require Import Fields.
#[local] Open Scope ralg_scope.

Section Curve.
Context (F : fld) (b : F).
Add Field F_field : (fth F).
Implicit Types x y z : F.

(** ** The affine law *)
Inductive apoint := Inf | Aff (x y : F).
Definition on_curve (p : apoint) : Prop :=
  match p with Inf => True | Aff x y => y * y = x * x * x + b end.
(** The third point of the line with slope [l] through [(x1, y1)], mirrored. *)
Definition third (l x1 y1 x2 : F) : apoint :=
  let x3 := l * l - x1 - x2 in Aff x3 (l * (x1 - x3) - y1).
Definition aadd (p q : apoint) : apoint :=
  match p, q with
  | Inf, _ => q
  | _, Inf => p
  | Aff x1 y1, Aff x2 y2 =>
      if f_dec F x1 x2 then
        if f_dec F y1 y2 then
          if f_dec F y1 0 then Inf
          else third ((x1 * x1 + x1 * x1 + x1 * x1) / (y1 + y1)) x1 y1 x1
        else Inf
      else third ((y2 - y1) / (x2 - x1)) x1 y1 x2
  end.
Definition aneg (p : apoint) : apoint := match p with Inf => Inf | Aff x y => Aff x (- y) end.
(** Multiples, from the binary digits of the number *)
Fixpoint amul_pos (n : positive) (p : apoint) : apoint :=
  match n with
  | xH => p
  | xO n => aadd (amul_pos n p) (amul_pos n p)
  | xI n => aadd (aadd (amul_pos n p) (amul_pos n p)) p
  end.
Definition amul (n : Z) (p : apoint) : apoint := match n with Zpos n => amul_pos n p | _ => Inf end.

Hypothesis two_neq : (1 + 1 : F) <> 0.

Lemma double_zero y : y + y = 0 -> y = 0.
Proof.
  intros H. destruct (f_integral F (1 + 1) y) as [H'|H']; [rewrite <- H; ring | contradiction | exact H'].
Qed.
(** The slope makes [(x1, y1)] and [(x2, _)] roots; then so is the third point. *)
Lemma third_on_curve l x1 y1 x2 :
  on_curve (Aff x1 y1) -> l * (y1 + y1 + l * (x2 - x1)) = x1 * x1 + x1 * x2 + x2 * x2 -> on_curve (third l x1 y1 x2).
Proof.
  cbn [on_curve third]. intros H1 HK. set (x3 := l * l - x1 - x2).
  assert (Hb : b = y1 * y1 - x1 * x1 * x1) by (rewrite H1; ring).
  rewrite Hb.
  transitivity (x3 * x3 * x3 + (y1 * y1 - x1 * x1 * x1) + (x1 - x3) * (x2 - x3) * (l * l - x1 - x2 - x3)
    + (x1 - x3) * (x1 * x1 + x1 * x2 + x2 * x2 - l * (y1 + y1 + l * (x2 - x1)))).
  - ring.
  - rewrite HK. subst x3. ring.
Qed.
Theorem aadd_on_curve p q : on_curve p -> on_curve q -> on_curve (aadd p q).
Proof.
  destruct p as [|x1 y1], q as [|x2 y2]; cbn [aadd]; try (intros; assumption).
  intros H1 H2. destruct (f_dec F x1 x2) as [->|Hx].
  - destruct (f_dec F y1 y2) as [->|Hy]; [|exact I]. destruct (f_dec F y2 0) as [->|Hy0]; [exact I|].
    apply third_on_curve; [exact H1|].
    assert (Hd : y2 + y2 <> 0) by (intros H; now apply Hy0, double_zero).
    field. exact Hd.
  - assert (Hd : x2 - x1 <> 0).
    { intros H. apply Hx. transitivity (x2 - (x2 - x1)); [ring | rewrite H; ring]. }
    apply third_on_curve; [exact H1|]. cbn [on_curve] in H1, H2. apply (f_cancel F (x2 - x1)); [exact Hd|].
    transitivity ((y2 - y1) * (y2 + y1)); [field; exact Hd|].
    transitivity (y2 * y2 - y1 * y1); [ring | rewrite H1, H2; ring].
Qed.
Lemma origin_off_curve : b <> 0 -> ~ on_curve (Aff 0 0).
Proof. cbn [on_curve]. intros Hb H. apply Hb. transitivity ((0 * 0 * 0 + b) - 0 * 0 * 0 : F); [ring | rewrite <- H; ring]. Qed.
Lemma aneg_on_curve p : on_curve p -> on_curve (aneg p).
Proof. destruct p as [|x y]; cbn; [trivial|]. intros H. rewrite <- H. ring. Qed.
Lemma amul_on_curve n p : on_curve p -> on_curve (amul n p).
Proof.
  intros Hp. destruct n as [|n|n]; cbn; [exact I | | exact I].
  induction n as [n IH|n IH|]; cbn [amul_pos]; auto using aadd_on_curve.
Qed.
Lemma aadd_inf p : aadd p Inf = p.
Proof. now destruct p. Qed.
Lemma amul_inf n : amul n Inf = Inf.
Proof. destruct n as [|n|n]; cbn; [reflexivity | | reflexivity]. induction n as [n IH|n IH|]; cbn [amul_pos]; now rewrite ?IH. Qed.
Lemma aadd_neg p : aadd p (aneg p) = Inf.
Proof.
  destruct p as [|x y]; [reflexivity|]. cbn [aneg aadd]. destruct (f_dec F x x) as [_|H]; [|congruence].
  destruct (f_dec F y (- y)) as [H|_]; [|reflexivity]. destruct (f_dec F y 0) as [_|H0]; [reflexivity|].
  destruct H0. apply double_zero. rewrite H at 1. ring.
Qed.
Lemma amul_step n (d : bool) p : (0 <= n)%Z ->
  amul (2 * n + Z.b2z d) p = if d then aadd (aadd (amul n p) (amul n p)) p else aadd (amul n p) (amul n p).
Proof. intros Hn. destruct n as [|n|n]; [|destruct d; reflexivity | lia]. destruct d; reflexivity. Qed.

(** ** Jacobian coordinates: [(x, y, z)] is [(x/z^2, y/z^3)] *)
Definition to_aff (p : F * F * F) : apoint :=
  let '(x, y, z) := p in
  if f_dec F z 0 then Inf else Aff (x / (z * z)) (y / (z * z * z)).
Definition jdouble (p : F * F * F) : F * F * F :=
  let '(x, y, z) := p in
  let A := x * x in
  let B := y * y in
  let C := B * B in
  let s := (x + B) * (x + B) - A - C in
  let d := s + s in
  let e := A + A + A in
  let x3 := e * e - (d + d) in
  (x3, e * (d - x3) - (C + C + (C + C) + (C + C + (C + C))), y * z + y * z).
Definition jchord (p q : F * F * F) : F * F * F :=
  let '(x1, y1, z1) := p in
  let '(x2, y2, z2) := q in
  let u1 := x1 * (z2 * z2) in
  let u2 := x2 * (z1 * z1) in
  let s1 := y1 * (z2 * (z2 * z2)) in
  let s2 := y2 * (z1 * (z1 * z1)) in
  let h := u2 - u1 in
  let i := (h + h) * (h + h) in
  let j := h * i in
  let r := (s2 - s1) + (s2 - s1) in
  let v := u1 * i in
  let x3 := r * r - j - (v + v) in
  (x3, r * (v - x3) - (s1 * j + s1 * j), ((z1 + z2) * (z1 + z2) - z1 * z1 - z2 * z2) * h).
Definition jsame (p q : F * F * F) : bool :=
  let '(x1, y1, z1) := p in
  let '(x2, y2, z2) := q in
  (if f_dec F (x2 * (z1 * z1) - x1 * (z2 * z2)) 0 then true else false)
  && (if f_dec F (y2 * (z1 * (z1 * z1)) - y1 * (z2 * (z2 * z2))) 0 then true else false).
Definition jadd (p q : F * F * F) : F * F * F :=
  if f_dec F (snd p) 0 then q
  else if f_dec F (snd q) 0 then p
  else if jsame p q then jdouble p else jchord p q.

Lemma sub_zero x y : x - y = 0 <-> x = y.
Proof. split; [intros H; transitivity (x - y + y); [ring | rewrite H; ring] | intros ->; ring]. Qed.
Lemma div_eq x1 z1 x2 z2 : z1 <> 0 -> z2 <> 0 -> (x1 / z1 = x2 / z2 <-> x1 * z2 = x2 * z1).
Proof.
  intros H1 H2. split; intros H.
  - transitivity (x1 / z1 * (z1 * z2)); [field; exact H1|]. rewrite H. field. exact H2.
  - transitivity (x1 * z2 / (z1 * z2)); [field; now split|]. rewrite H. field. now split.
Qed.
Lemma to_aff_Aff x y z : z <> 0 -> to_aff (x, y, z) = Aff (x / (z * z)) (y / (z * z * z)).
Proof. intros Hz. cbn. destruct (f_dec F z 0); [contradiction | reflexivity]. Qed.
Lemma to_aff_Inf x y z : z = 0 -> to_aff (x, y, z) = Inf.
Proof. intros Hz. cbn. destruct (f_dec F z 0); [reflexivity | contradiction]. Qed.
Lemma div_zero x z : z <> 0 -> (x / z = 0 <-> x = 0).
Proof.
  intros Hz. split; intros H; [transitivity (x / z * z); [field; exact Hz | rewrite H; ring] | rewrite H; field; exact Hz].
Qed.

Theorem jdouble_ok p : to_aff (jdouble p) = aadd (to_aff p) (to_aff p).
Proof.
  destruct p as [[x y] z]. destruct (f_dec F z 0) as [Hz|Hz].
  { rewrite (to_aff_Inf x y z Hz). cbn [aadd jdouble]. apply to_aff_Inf. rewrite Hz. ring. }
  rewrite (to_aff_Aff x y z Hz). cbn [aadd jdouble].
  assert (Hz3 : z * z * z <> 0) by (repeat apply f_mul_neq; exact Hz).
  destruct (f_dec F (x / (z * z)) (x / (z * z))) as [_|H]; [|congruence].
  destruct (f_dec F (y / (z * z * z)) (y / (z * z * z))) as [_|H]; [|congruence].
  destruct (f_dec F (y / (z * z * z)) 0) as [Hy|Hy]; rewrite (div_zero y _ Hz3) in Hy.
  { apply to_aff_Inf. rewrite Hy. ring. }
  assert (Hyy : y + y <> 0) by (intros H; now apply Hy, double_zero).
  assert (Hyz : y * z + y * z <> 0).
  { intros H. apply double_zero in H. apply f_integral in H as [H|H]; contradiction. }
  rewrite to_aff_Aff by exact Hyz. unfold third.
  assert (E : (x / (z * z) * (x / (z * z)) + x / (z * z) * (x / (z * z)) + x / (z * z) * (x / (z * z)))
                / (y / (z * z * z) + y / (z * z * z)) = (x * x + x * x + x * x) / ((y + y) * z)).
  { field. now split. }
  rewrite E. f_equal; field; repeat split; assumption.
Qed.
Lemma jsame_spec x1 y1 z1 x2 y2 z2 : z1 <> 0 -> z2 <> 0 ->
  jsame (x1, y1, z1) (x2, y2, z2) = true <->
  x1 / (z1 * z1) = x2 / (z2 * z2) /\ y1 / (z1 * z1 * z1) = y2 / (z2 * z2 * z2).
Proof.
  intros H1 H2. rewrite !div_eq by (repeat apply f_mul_neq; assumption).
  assert (EX : x2 * (z1 * z1) - x1 * (z2 * z2) = 0 <-> x1 * (z2 * z2) = x2 * (z1 * z1))
    by (rewrite sub_zero; split; congruence).
  assert (EY : y2 * (z1 * (z1 * z1)) - y1 * (z2 * (z2 * z2)) = 0 <-> y1 * (z2 * z2 * z2) = y2 * (z1 * z1 * z1)).
  { replace (z1 * (z1 * z1)) with (z1 * z1 * z1) by ring. replace (z2 * (z2 * z2)) with (z2 * z2 * z2) by ring.
    rewrite sub_zero. split; congruence. }
  rewrite <- EX, <- EY. unfold jsame. destruct (f_dec F _ 0) as [A|A]; destruct (f_dec F _ 0) as [B|B]; cbn.
  all: split; [intros; try discriminate; now split | intros [? ?]; try reflexivity; contradiction].
Qed.
Theorem jchord_ok p q :
  snd p <> 0 -> snd q <> 0 -> jsame p q = false -> to_aff (jchord p q) = aadd (to_aff p) (to_aff q).
Proof.
  destruct p as [[x1 y1] z1], q as [[x2 y2] z2]. cbn [snd]. intros H1 H2 Hs.
  rewrite (to_aff_Aff x1 y1 z1 H1), (to_aff_Aff x2 y2 z2 H2). cbn [aadd jchord].
  assert (Hsame : ~ (x1 / (z1 * z1) = x2 / (z2 * z2) /\ y1 / (z1 * z1 * z1) = y2 / (z2 * z2 * z2))).
  { intros H. apply (jsame_spec _ _ _ _ _ _ H1 H2) in H. congruence. }
  destruct (f_dec F (x1 / (z1 * z1)) (x2 / (z2 * z2))) as [Hx|Hx].
  - destruct (f_dec F (y1 / (z1 * z1 * z1)) (y2 / (z2 * z2 * z2))) as [Hy|Hy]; [tauto|].
    apply to_aff_Inf. rewrite div_eq in Hx by (repeat apply f_mul_neq; assumption). rewrite Hx. ring.
  - rewrite div_eq in Hx by (repeat apply f_mul_neq; assumption).
    set (h := x2 * (z1 * z1) - x1 * (z2 * z2)).
    assert (Hh : h <> 0) by (unfold h; rewrite sub_zero; congruence).
    assert (Hz : ((z1 + z2) * (z1 + z2) - z1 * z1 - z2 * z2) * h <> 0).
    { replace ((z1 + z2) * (z1 + z2) - z1 * z1 - z2 * z2) with ((1 + 1) * (z1 * z2)) by ring.
      repeat apply f_mul_neq; assumption. }
    rewrite to_aff_Aff by exact Hz. unfold third.
    assert (E : (y2 / (z2 * z2 * z2) - y1 / (z1 * z1 * z1)) / (x2 / (z2 * z2) - x1 / (z1 * z1))
                = (y2 * (z1 * (z1 * z1)) - y1 * (z2 * (z2 * z2))) / (z1 * z2 * h)).
    { unfold h. field. repeat split; try assumption. }
    rewrite E. replace ((z1 + z2) * (z1 + z2) - z1 * z1 - z2 * z2) with ((1 + 1) * (z1 * z2)) by ring.
    assert (Ex : x2 / (z2 * z2) = x1 / (z1 * z1) + h / (z1 * z1 * (z2 * z2))) by (unfold h; field; now split).
    rewrite Ex. clearbody h. f_equal; field; repeat split; assumption.
Qed.
Theorem jadd_ok p q : to_aff (jadd p q) = aadd (to_aff p) (to_aff q).
Proof.
  unfold jadd. destruct (f_dec F (snd p) 0) as [Hp|Hp].
  { destruct p as [[x y] z]. cbn [snd] in Hp. now rewrite (to_aff_Inf x y z Hp). }
  destruct (f_dec F (snd q) 0) as [Hq|Hq].
  { destruct q as [[x y] z]. cbn [snd] in Hq. now rewrite (to_aff_Inf x y z Hq), aadd_inf. }
  destruct (jsame p q) eqn:Hs; [|now apply jchord_ok].
  rewrite jdouble_ok. f_equal. destruct p as [[x1 y1] z1], q as [[x2 y2] z2]. cbn [snd] in *.
  apply (jsame_spec _ _ _ _ _ _ Hp Hq) in Hs as [Hx Hy].
  now rewrite !to_aff_Aff, Hx, Hy by assumption.
Qed.
End Curve.
Arguments Inf {_}.
Arguments Aff {_} _ _.
