(* ===== verification/Bn256Power.v ===== *)
(** * Inversion, Frobenius and the final exponentiation of bn256

    The inversions of gfp2.go, gfp6.go and gfp12.go invert every element but
    zero, whatever the pool hands out; [Frobenius] and [FrobeniusP2] are powers;
    [finalExponentiation] is the power its comment promises. *)

From Stdlib Require Import Zmod Zcong Ring Field.
From stdpp Require Import base.
From S2P Require Import Prelude BigInt Fields Bn256 Bn256Tower.
#[local] Open Scope ralg_scope.

(** ** Inversion *)
Lemma ModInverse_some (t : Z) : phi t <> 0 -> exists v, ModInverse t P = Some v /\ phi v = rinv (phi t).
Proof.
  intros Ht. rewrite phi_zero in Ht. unfold ModInverse. pose proof P_ge.
  assert (Hc : Z.gcd t P = 1%Z).
  { rewrite Z.gcd_comm. apply Z.coprime_prime_l; [exact P_prime|]. intros Hd. apply Ht, Z.mod_divide; [lia|done]. }
  rewrite Hc. exists (Z.invmod t P). split; [done|]. symmetry. apply (f_inv_unique Fp).
  rewrite <- phi_mul, <- phi_1, Z.mul_comm. apply phi_eq. rewrite Z.invmod_coprime; [|lia|exact Hc].
  symmetry. apply Z.mod_1_l. lia.
Qed.
Lemma ModInverse_none (t : Z) : phi t = 0 -> ModInverse t P = None.
Proof.
  intros Ht. rewrite phi_zero in Ht. unfold ModInverse. pose proof P_ge.
  apply Z.mod_divide in Ht; [|lia].
  assert (Hg : Z.gcd t P = P). { apply Z.gcd_unique_alt; [lia|]. intros q. split; [|tauto]. intros Hq. split; [now apply Z.divide_trans with P | done]. }
  now rewrite Hg, (proj2 (Z.eqb_neq P 1)) by lia.
Qed.

Section Invert.
Context (stale : Z).

Lemma phi2_Invert a : phi2 (gfP2_Invert stale a) = rinv (phi2 a).
Proof.
  change (@rinv F2) with (qinv Fp (- (1))). unfold phi2, gfP2_Invert, qinv, qnorm. cbv zeta. cbn [x2 y2 fst snd].
  destruct (f_dec Fp (phi (y2 a * y2 a + x2 a * x2 a)) 0) as [Hn|Hn].
  - assert (H0 : phi2 a = 0).
    { destruct (f_dec F2 (phi2 a) 0) as [|Hne]; [done|]. destruct (qnorm_neq Fp (- (1)) no_sqrt (phi2 a) Hne).
      unfold qnorm, phi2. cbn [fst snd]. rewrite <- Hn. autorewrite with bn256. ring. }
    rewrite (ModInverse_none _ Hn). cbn [from_option id].
    assert (Hx : phi (x2 a) = 0) by exact (f_equal fst H0). assert (Hy : phi (y2 a) = 0) by exact (f_equal snd H0).
    autorewrite with bn256. rewrite Hx, Hy. apply f_equal2; ring.
  - destruct (ModInverse_some _ Hn) as (v & -> & Hv). cbn [from_option id].
    autorewrite with bn256. rewrite Hv. autorewrite with bn256. apply f_equal2; f_equal; f_equal; ring.
Qed.
Lemma phi6_Invert a : phi6 (gfP6_Invert stale a) = rinv (phi6 a).
Proof.
  change (@rinv F6) with (cinv F2 xi). unfold phi6, gfP6_Invert, cinv. cbv zeta. cbn [x6 y6 z6].
  rewrite !phi2_Mul, phi2_Invert. autorewrite with bn256.
  unfold cnorm, cA, cB, cC, cx, cy, cz. cbn [fst snd].
  match goal with |- (_ * rinv ?m, _, _) = (_ * rinv ?n, _, _) => replace m with n by ring end.
  apply f_equal2; [apply f_equal2|]; ring.
Qed.
Lemma phi12_Invert a : phi12 (gfP12_Invert stale a) = rinv (phi12 a).
Proof.
  change (@rinv F12) with (qinv F6 tau). unfold phi12, gfP12_Invert, gfP12_MulScalar, qinv, qnorm. cbv zeta.
  cbn [x12 y12 fst snd]. rewrite !phi6_Mul, phi6_Invert. autorewrite with bn256. reflexivity.
Qed.
End Invert.

(** The number the pool hands out is never seen: a number without inverse is a
    multiple of [P], and then both coordinates are. *)
Lemma gfP2_Invert_stale s s' a : gfP2_Invert s a = gfP2_Invert s' a.
Proof.
  pose proof (phi2_Invert s a) as H. rewrite <- (phi2_Invert s' a), phi2_eq in H. destruct H as [Hx Hy].
  unfold gfP2_Invert in *. cbv zeta in *. cbn [x2 y2] in *. rewrite !Z.mod_mod in Hx, Hy by (pose proof P_ge; lia).
  now rewrite Hx, Hy.
Qed.
Lemma gfP6_Invert_stale s s' a : gfP6_Invert s a = gfP6_Invert s' a.
Proof. unfold gfP6_Invert. cbv zeta. now rewrite (gfP2_Invert_stale s s'). Qed.
Lemma gfP12_Invert_stale s s' a : gfP12_Invert s a = gfP12_Invert s' a.
Proof. unfold gfP12_Invert. cbv zeta. now rewrite (gfP6_Invert_stale s s'). Qed.
Lemma finalExponentiation_stale s s' a : finalExponentiation s a = finalExponentiation s' a.
Proof. unfold finalExponentiation. now rewrite (gfP12_Invert_stale s s'). Qed.

(** ** Frobenius on the field of [P^12] elements *)
Definition omega : F12 := qgen.
Lemma F12_char : nmul F12 pnat 1 = 0.
Proof. exact (quad_char F6 tau pnat F6_char). Qed.
Lemma F12_split (x y : F6) : ((x, y) : F12) = (qconst x : F12) * omega + (qconst y : F12).
Proof. exact (quad_split F6 tau x y). Qed.
Lemma qconst12_power (x : F6) n : (qconst x : F12) ^ n = qconst (x ^ n).
Proof. symmetry. exact (qconst_pow F6 tau x n). Qed.
Lemma qconst12_times (x y : F6) : (qconst x : F12) * (qconst y : F12) = qconst (x * y).
Proof. symmetry. exact (qconst_mul F6 tau x y). Qed.
Lemma omega_pow k : omega ^ (2 * k + 1)%N = (qconst (tau ^ k) : F12) * omega.
Proof. exact (qgen_pow F6 tau k). Qed.
Lemma tau_cube : tau ^ 3%N = (cconst xi : F6).
Proof. change 3%N with (N.succ 2). rewrite rpow_succ, rpow_2. exact (cgen_cube F2 xi). Qed.
Lemma F12_frobenius (x y : F6) : ((x, y) : F12) ^ pN = (x ^ pN * (cconst (xi ^ e6) : F6), y ^ pN).
Proof.
  etransitivity; [exact (f_equal (fun e : F12 => e ^ pN) (F12_split x y))|].
  etransitivity; [exact (frob_poly1 F12 _ _ _ F12_char)|].
  etransitivity; [|symmetry; apply F12_split].
  replace (omega ^ pN) with ((qconst (cconst (xi ^ e6) : F6) : F12) * omega).
  - rewrite (qconst12_power x), (qconst12_power y), <- (qconst12_times (x ^ pN)). ring.
  - replace pN with (2 * (3 * e6) + 1)%N by (rewrite pN_6; lia).
    now rewrite omega_pow, rpow_mul, tau_cube, cconst_power.
Qed.
Lemma phi12_Frobenius a : phi12 (gfP12_Frobenius a) = phi12 a ^ pN.
Proof.
  unfold phi12 at 2. rewrite F12_frobenius, <- xi_PMinus1Over6. unfold phi12, gfP12_Frobenius. cbv zeta. cbn [x12 y12].
  rewrite phi6_MulScalar, !phi6_Frobenius. apply f_equal2; ring.
Qed.
Lemma phi12_FrobeniusP2 a : phi12 (gfP12_FrobeniusP2 a) = (phi12 a ^ pN) ^ pN.
Proof.
  unfold phi12 at 2. rewrite !F12_frobenius, rpow_base, cconst_power.
  unfold phi12, gfP12_FrobeniusP2. cbv zeta. cbn [x12 y12].
  rewrite phi6_MulGFP, !phi6_FrobeniusP2, <- norm_6, <- xi_PMinus1Over6, <- cconst_times. apply f_equal2; ring.
Qed.

(** The [P^6]-th power is the conjugate. *)
Definition p6 : N := (pN * pN * (pN * pN) * (pN * pN))%N.
Lemma frob6_add (R : cring) (x y : R) : nmul R pnat 1 = 0 -> (x + y) ^ p6 = x ^ p6 + y ^ p6.
Proof. intros Hc. unfold p6. rewrite !N.mul_assoc, !rpow_mul. now rewrite !(frob_add R _ _ Hc). Qed.
Lemma p6_order : order F6E = p6.
Proof. exact F6_order. Qed.
Lemma p6_half : p6 = (2 * half6 + 1)%N.
Proof. pose proof half6_ok as H. rewrite p6_order in H. enough (p6 <> 0%N) by lia. unfold p6. rewrite pN_val. discriminate. Qed.
Lemma omega_pow_p6 : omega ^ p6 = - omega.
Proof.
  rewrite p6_half, omega_pow, tau_half.
  change ((((0, - (1)) : Q12) * ((1, 0) : Q12)) = - ((1, 0) : Q12)).
  rewrite quad_mul, quad_opp. apply f_equal2; ring.
Qed.
Lemma F12_conjugate (x y : F6) : ((x, y) : F12) ^ p6 = (- x, y).
Proof.
  assert (Hf : forall z : F6, z ^ p6 = z).
  { intros z. rewrite <- p6_order at 1. apply finite_fermat_all. rewrite p6_order, p6_half. lia. }
  etransitivity; [exact (f_equal (fun e : F12 => e ^ p6) (F12_split x y))|].
  etransitivity; [exact (frob6_add F12 _ _ F12_char)|].
  rewrite rpow_base, (qconst12_power x), (qconst12_power y), (Hf x), (Hf y), omega_pow_p6.
  change (((0, x) : Q12) * - ((1, 0) : Q12) + ((0, y) : Q12) = ((- x, y) : Q12)).
  rewrite quad_opp, quad_mul, quad_add. apply f_equal2; ring.
Qed.
Lemma phi12_conjugate x y : phi12 (mkGfP12 (gfP6_Negative x) y) = phi12 (mkGfP12 x y) ^ p6.
Proof. unfold phi12. cbn [x12 y12]. now rewrite F12_conjugate, phi6_Negative. Qed.

(** ** The final exponentiation *)
Definition F12E : enum F12 := quad_enum F6 tau F6E.
Definition p12 : N := (p6 * p6)%N.
Lemma F12_order : order F12E = p12.
Proof. etransitivity; [exact (quad_order F6 tau F6E)|]. now rewrite p6_order. Qed.

Lemma p12_gt : (2 < p12)%N.
Proof. unfold p12. enough (1 < p6)%N by nia. unfold p6. enough (1 < pN)%N by nia. rewrite pN_val. reflexivity. Qed.
(** Zero has no inverse; the code returns zero. *)
Lemma F12_inv_zero : rinv (0 : F12) = 0.
Proof.
  change (@rinv F12) with (qinv F6 tau). unfold qinv. set (n := rinv (qnorm F6 tau _)).
  change ((- (0 : F6) * n, (0 : F6) * n) = ((0 : F6), (0 : F6))). apply f_equal2; ring.
Qed.
(** The exponents of the values of [finalExponentiation], step by step. *)
Definition final_power (p v p6 inv : N) : N :=
  let t1 := p6 in
  let i := inv in
  let t1 := (t1 + i)%N in
  let t2 := (t1 * p * p)%N in
  let t1 := (t1 + t2)%N in
  let fp := (t1 * p)%N in
  let fp2 := (t1 * p * p)%N in
  let fp3 := (fp2 * p)%N in
  let fu := (t1 * v)%N in
  let fu2 := (fu * v)%N in
  let fu3 := (fu2 * v)%N in
  let y3 := (fu * p)%N in
  let fu2p := (fu2 * p)%N in
  let fu3p := (fu3 * p)%N in
  let y2 := (fu2 * p * p)%N in
  let y0 := (fp + fp2)%N in
  let y0 := (y0 + fp3)%N in
  let y1 := (t1 * p6)%N in
  let y5 := (fu2 * p6)%N in
  let y3 := (y3 * p6)%N in
  let y4 := (fu + fu2p)%N in
  let y4 := (y4 * p6)%N in
  let y6 := (fu3 + fu3p)%N in
  let y6 := (y6 * p6)%N in
  let t0 := (y6 * 2)%N in
  let t0 := (t0 + y4)%N in
  let t0 := (t0 + y5)%N in
  let t1 := (y3 + y5)%N in
  let t1 := (t1 + t0)%N in
  let t0 := (t0 + y2)%N in
  let t1 := (t1 * 2)%N in
  let t1 := (t1 + t0)%N in
  let t1 := (t1 * 2)%N in
  let t0 := (t1 + y1)%N in
  let t1 := (t1 + y0)%N in
  let t0 := (t0 * 2)%N in
  (t0 + t1)%N.

Section Final.
Context (stale : Z) (f : F12).

(** The value [e] of the code is the [n]-th power of [f]. *)
Inductive is_power (e : gfP12) (n : N) : Prop := IsPower : phi12 e = f ^ n -> is_power e n.
Lemma is_power_let {A} (e : gfP12) (n : N) (b : gfP12 -> A) (c : N -> N) (Q : A -> N -> Prop) :
  is_power e n -> (forall e n, is_power e n -> Q (b e) (c n)) -> Q (b e) (c n).
Proof. auto. Qed.
Lemma is_power_Mul a b m n : is_power a m -> is_power b n -> is_power (gfP12_Mul a b) (m + n).
Proof. intros [Ha] [Hb]. constructor. now rewrite phi12_Mul, Ha, Hb, rpow_add. Qed.
Lemma is_power_Square a m : is_power a m -> is_power (gfP12_Square a) (m * 2).
Proof. intros [Ha]. constructor. now rewrite phi12_Square, Ha, rpow_mul, rpow_2. Qed.
Lemma is_power_Frobenius a m : is_power a m -> is_power (gfP12_Frobenius a) (m * pN).
Proof. intros [Ha]. constructor. now rewrite phi12_Frobenius, Ha, rpow_mul. Qed.
Lemma is_power_FrobeniusP2 a m : is_power a m -> is_power (gfP12_FrobeniusP2 a) (m * pN * pN).
Proof. intros [Ha]. constructor. now rewrite phi12_FrobeniusP2, Ha, !rpow_mul. Qed.
Lemma is_power_Exp a m : is_power a m -> is_power (gfP12_Exp a u) (m * Z.to_N u).
Proof. intros [Ha]. constructor. now rewrite phi12_Exp, Ha, rpow_mul. Qed.
Lemma is_power_conj a m : is_power a m -> is_power (mkGfP12 (gfP6_Negative (x12 a)) (y12 a)) (m * p6).
Proof. intros [Ha]. constructor. rewrite phi12_conjugate, rpow_mul, <- Ha. now destruct a. Qed.
Lemma is_power_Conjugate a m : is_power a m -> is_power (gfP12_Conjugate a).1 (m * p6).
Proof. apply is_power_conj. Qed.
Lemma is_power_Invert a : phi12 a = f -> is_power (gfP12_Invert stale a) (p12 - 2).
Proof.
  intros Ha. constructor. rewrite phi12_Invert, Ha.
  pose proof p12_gt.
  destruct (f_dec F12 f 0) as [->|Hf]; [rewrite rpow_zero by lia; exact F12_inv_zero|].
  rewrite <- F12_order. apply finite_inverse; [rewrite F12_order; lia | exact Hf].
Qed.
Ltac power_of :=
  lazymatch goal with
  | H : is_power ?a _ |- is_power ?a _ => exact H
  | |- is_power (gfP12_Mul _ _) _ => apply is_power_Mul; power_of
  | |- is_power (gfP12_Square _) _ => apply is_power_Square; power_of
  | |- is_power (gfP12_Frobenius _) _ => apply is_power_Frobenius; power_of
  | |- is_power (gfP12_FrobeniusP2 _) _ => apply is_power_FrobeniusP2; power_of
  | |- is_power (gfP12_Exp _ _) _ => apply is_power_Exp; power_of
  | |- is_power (gfP12_Conjugate _).1 _ => apply is_power_Conjugate; power_of
  end.
Ltac power_step :=
  lazymatch goal with
  | |- is_power (let x := ?v in @?b x) (let y := ?e in @?c y) =>
      refine (is_power_let v e b c is_power _ _); [power_of | let w := fresh "w" in let n := fresh "n" in intros w n ?; cbv beta]
  end.
Lemma finalExponentiation_steps a : phi12 a = f ->
  is_power (finalExponentiation stale a) (final_power pN (Z.to_N u) p6 (p12 - 2)).
Proof.
  intros Ha.
  assert (H1 : is_power (mkGfP12 (gfP6_Negative (x12 a)) (y12 a)) p6).
  { replace p6 with (1 * p6)%N by lia. apply is_power_conj. constructor. now rewrite rpow_1. }
  pose proof (is_power_Invert a Ha) as H2.
  cbv beta delta [finalExponentiation final_power].
  repeat power_step. power_of.
Qed.
End Final.

(** The exponent, modulo the order of the multiplicative group. *)
Lemma final_power_value :
  (final_power pN (Z.to_N u) p6 (p12 - 2) mod (p12 - 1) = Z.to_N ((P ^ 12 - 1) / Order))%N.
Proof. vm_compute. reflexivity. Qed.
Lemma p12_value : (p12 - 1)%N = (Z.to_N ((P ^ 12 - 1) / Order) * Z.to_N Order)%N.
Proof. vm_compute. reflexivity. Qed.
Theorem finalExponentiation_power stale a :
  phi12 (finalExponentiation stale a) = phi12 a ^ Z.to_N ((P ^ 12 - 1) / Order).
Proof.
  destruct (finalExponentiation_steps stale (phi12 a) a eq_refl) as [H]. rewrite H, <- final_power_value.
  pose proof p12_gt.
  destruct (f_dec F12 (phi12 a) 0) as [->|Ha].
  - assert (HK : Z.to_N ((P ^ 12 - 1) / Order) <> 0%N) by (intros E; pose proof p12_value as Hv; rewrite E in Hv; lia).
    rewrite !rpow_zero; [done | now rewrite final_power_value |].
    intros E. pose proof final_power_value as Hv. rewrite E in Hv. now rewrite <- Hv in HK.
  - apply rpow_mod; [|lia]. rewrite <- F12_order. now apply finite_fermat.
Qed.
(** The results form a group of exponent [Order]. *)
Lemma finalExponentiation_order stale a : phi12 a <> 0 -> phi12 (finalExponentiation stale a) ^ Z.to_N Order = 1.
Proof.
  intros Ha. rewrite finalExponentiation_power, <- rpow_mul, <- p12_value, <- F12_order. now apply finite_fermat.
Qed.

(** ** The tests for zero and one *)
Lemma minimal_range x : (0 <= minimal x < P)%Z.
Proof.
  unfold minimal. destruct (_ || _) eqn:E; [apply Z.mod_pos_bound; pose proof P_ge; lia|].
  apply orb_false_iff in E as [E1%Z.ltb_ge E2%Z.leb_gt]. done.
Qed.
Lemma minimal_is x k : (0 <= k < P)%Z -> minimal x = k <-> phi x = phi k.
Proof.
  intros Hk. split; [intros <-; now rewrite phi_minimal|]. intros H. rewrite <- (phi_minimal x), phi_eq in H.
  pose proof (minimal_range x). now rewrite !Z.mod_small in H by assumption.
Qed.
Lemma test_zero2 e : gfP2_IsZero (gfP2_Minimal e) = true <-> phi2 e = 0.
Proof.
  unfold gfP2_IsZero, gfP2_Minimal. cbn [x2 y2]. pose proof P_ge.
  rewrite andb_true_iff, !Z.eqb_eq, !minimal_is by lia. rewrite <- phi2_zero. unfold phi2. cbn [x2 y2 gfP2_SetZero].
  split; [intros [-> ->]; reflexivity | intros E; split; [exact (f_equal fst E) | exact (f_equal snd E)]].
Qed.
Lemma test_one2 e : gfP2_IsOne (gfP2_Minimal e) = true <-> phi2 e = 1.
Proof.
  unfold gfP2_IsOne, bits_one, gfP2_Minimal. cbn [x2 y2]. pose proof P_ge. pose proof (minimal_range (y2 e)).
  rewrite Z.abs_eq by lia. rewrite <- phi2_one. unfold phi2. cbn [x2 y2 gfP2_SetOne].
  destruct (Z.eqb_spec (minimal (x2 e)) 0) as [Hx|Hx]; rewrite minimal_is in Hx by lia; cbn [negb].
  - rewrite Z.eqb_eq, minimal_is by lia. rewrite Hx. split; [intros ->; reflexivity | intros E; exact (f_equal snd E)].
  - split; [discriminate|]. intros E. destruct Hx. exact (f_equal fst E).
Qed.
Lemma test_one12 e : (gfP12_IsOne e).2 = true <-> phi12 e = 1.
Proof.
  unfold gfP12_IsOne, gfP6_IsZero, gfP6_IsOne, gfP12_Minimal, gfP6_Minimal. cbv zeta. cbn [snd x12 y12 x6 y6 z6].
  rewrite !andb_true_iff, !test_zero2, test_one2. rewrite <- phi12_one. unfold phi12, phi6, gfP12_SetOne, gfP6_SetZero, gfP6_SetOne.
  cbn [x12 y12 x6 y6 z6]. rewrite phi2_zero, phi2_one. split.
  - intros [[[-> ->] ->] [[-> ->] ->]]. reflexivity.
  - intros E. pose proof (f_equal fst E) as E1. pose proof (f_equal snd E) as E2.
    split; repeat split; solve [exact (f_equal cx E1) | exact (f_equal cy E1) | exact (f_equal cz E1)
      | exact (f_equal cx E2) | exact (f_equal cy E2) | exact (f_equal cz E2)].
Qed.
