(* ===== verification/Bn256Curve.v ===== *)
(** * The points of bn256

    curve.go and twist.go of src/crypto/bn256/google against the affine law of
    Curves.v: the Jacobian routines of the code compute the chord and tangent
    law, multiplication is double-and-add, and the points stay on the curve. *)

From Stdlib Require Import Zmod Ring Field.
From stdpp Require Import base.
From S2P Require Import Prelude BigInt Fields Curves Bn256 Bn256Tower Bn256Power.
#[local] Open Scope ralg_scope.
#[local] Opaque P.

(** ** Reduced numbers *)
Definition reduced (a : Z) : Prop := (0 <= a < P)%Z.
Lemma reduced_mod a : reduced (a mod P).
Proof. apply Z.mod_pos_bound. pose proof P_ge. lia. Qed.
Lemma reduced_eq a b : reduced a -> reduced b -> phi a = phi b -> a = b.
Proof. intros Ha Hb H. rewrite phi_eq in H. now rewrite !Z.mod_small in H by assumption. Qed.
Lemma reduced_0 : reduced 0.
Proof. unfold reduced. pose proof P_ge. lia. Qed.
Lemma reduced_1 : reduced 1.
Proof. unfold reduced. pose proof P_ge. lia. Qed.
Lemma minimal_reduced x : reduced (minimal x).
Proof. apply minimal_range. Qed.
Lemma P_odd : (P mod 2 = 1)%Z.
Proof. vm_compute. reflexivity. Qed.
Lemma reduced_double a : reduced a -> phi (a + a) = 0 -> (a + a = 0)%Z.
Proof.
  unfold reduced. intros Ha H. rewrite phi_zero in H. pose proof P_ge. pose proof P_odd.
  apply Z.mod_divide in H; [|lia]. destruct H as [k Hk]. assert (k = 0 \/ k = 1)%Z as [->| ->] by nia; [lia|].
  rewrite Z.mul_1_l in Hk. rewrite <- Hk in *. replace (a + a)%Z with (a * 2)%Z in * by lia. rewrite Z.mod_mul in *; lia.
Qed.
Lemma difference_zero a b : (a mod P - b mod P =? 0)%Z = if f_dec Fp (phi a - phi b) 0 then true else false.
Proof.
  destruct (f_dec Fp _ 0) as [H|H]; rewrite (sub_zero Fp), phi_eq in H.
  - rewrite H. apply Z.eqb_eq. lia.
  - apply Z.eqb_neq. lia.
Qed.
Lemma two_Fp : (1 + 1 : Fp) <> 0.
Proof.
  rewrite <- phi_1, <- phi_add, phi_zero. change (1 + 1)%Z with 2%Z. rewrite Z.mod_small; [lia|].
  pose proof P_ge. pose proof P_odd. split; [lia|]. destruct (Z.eq_dec P 2) as [E|]; [rewrite E in *; discriminate | lia].
Qed.
Lemma two_F2 : (1 + 1 : F2) <> 0.
Proof. intros H. exact (two_Fp (f_equal snd H)). Qed.

(** ** curve.go *)
Definition phiC (c : curvePoint) : Fp * Fp * Fp := (phi (cpx c), phi (cpy c), phi (cpz c)).
Definition affC (c : curvePoint) : apoint Fp := to_aff Fp (phiC c).
Definition b1 : Fp := phi curveB.
(** Infinity is the only point whose third coordinate is a multiple of [P]. *)
Definition z_ok (z : Z) : Prop := (0 <= z)%Z /\ (phi z = 0 -> z = 0%Z).
Definition curve_valid (c : curvePoint) : Prop := z_ok (cpz c) /\ on_curve Fp b1 (affC c).

Lemma z_ok_reduced z : reduced z -> z_ok z.
Proof. intros H. split; [apply H|]. intros H0. apply reduced_eq; [done | apply reduced_0 | now rewrite phi_0]. Qed.
Lemma z_ok_test z : z_ok z -> (z =? 0)%Z = if f_dec Fp (phi z) 0 then true else false.
Proof.
  intros [_ Hz]. destruct (f_dec Fp (phi z) 0) as [H|H]; [now rewrite (Hz H)|].
  apply Z.eqb_neq. intros ->. now rewrite phi_0 in H.
Qed.
Lemma curve_Double_phi c a : phiC (curve_Double false c a) = jdouble Fp (phiC a).
Proof.
  unfold phiC, curve_Double, jdouble. cbv zeta. cbn [cpx cpy cpz]. autorewrite with bn256.
  apply f_equal2; [apply f_equal2|]; ring.
Qed.
Lemma curve_Double_z c a : z_ok (cpz (curve_Double false c a)).
Proof.
  unfold curve_Double. cbv zeta. cbn [cpz]. pose proof (reduced_mod (cpy a * cpz a)) as H. split; [destruct H; lia|].
  now apply reduced_double.
Qed.
Lemma curve_Add_phi c a b : z_ok (cpz a) -> z_ok (cpz b) -> phiC (curve_Add false c a b) = jadd Fp (phiC a) (phiC b).
Proof.
  intros Ha Hb. unfold jadd. cbn [phiC snd]. unfold curve_Add, curve_IsInfinity. rewrite (z_ok_test _ Ha), (z_ok_test _ Hb).
  destruct (f_dec Fp (phi (cpz a)) 0); [done|]. destruct (f_dec Fp (phi (cpz b)) 0); [done|].
  cbv zeta. rewrite !difference_zero. unfold phiC at 2 3, jsame. autorewrite with bn256.
  destruct (_ && _); [apply curve_Double_phi|].
  unfold phiC, jchord. cbn [cpx cpy cpz]. autorewrite with bn256. apply f_equal2; [apply f_equal2|]; ring.
Qed.
Lemma curve_Add_z c a b : z_ok (cpz a) -> z_ok (cpz b) -> z_ok (cpz (curve_Add false c a b)).
Proof.
  intros Ha Hb. unfold curve_Add. destruct (curve_IsInfinity a); [done|]. destruct (curve_IsInfinity b); [done|].
  cbv zeta. destruct (_ && _); [apply curve_Double_z|]. cbn [cpz]. apply z_ok_reduced, reduced_mod.
Qed.

(** The affine law *)
Lemma curve_Double_aff c a : affC (curve_Double false c a) = aadd Fp (affC a) (affC a).
Proof. unfold affC. rewrite curve_Double_phi. apply jdouble_ok, two_Fp. Qed.
Lemma curve_Add_aff c a b : z_ok (cpz a) -> z_ok (cpz b) -> affC (curve_Add false c a b) = aadd Fp (affC a) (affC b).
Proof. intros Ha Hb. unfold affC. rewrite curve_Add_phi by assumption. apply jadd_ok, two_Fp. Qed.
Lemma affC_inf c : cpz c = 0%Z -> affC c = Inf.
Proof. intros H. unfold affC, phiC. rewrite H, phi_0. now apply to_aff_Inf. Qed.
Lemma div_one (F : fld) (x : F) : x / (1 * 1) = x /\ x / (1 * 1 * 1) = x.
Proof.
  assert (H : forall d : F, d = 1 -> x / d = x).
  { intros d ->. unfold rdiv. pose proof (f_inv F 1 (f_neq F)) as E.
    assert (E' : rinv (1 : F) = 1) by (apply f_inv_unique; apply (Rmul_1_l (rth F))).
    rewrite E', (Rmul_comm (rth F)). apply (Rmul_1_l (rth F)). }
  split; apply H; rewrite !(Rmul_1_l (rth F)); reflexivity.
Qed.
Lemma to_aff_one (F : fld) (x y : F) : to_aff F (x, y, 1) = Aff x y.
Proof. rewrite to_aff_Aff by apply f_neq. now rewrite (proj1 (div_one F x)), (proj2 (div_one F y)). Qed.
Lemma affC_one c : cpz c = 1%Z -> affC c = Aff (phi (cpx c)) (phi (cpy c)).
Proof. intros H. unfold affC, phiC. rewrite H, phi_1. apply to_aff_one. Qed.
Lemma curve_Negative_aff a : affC (curve_Negative a) = aneg Fp (affC a).
Proof.
  unfold affC, phiC, curve_Negative. cbn [cpx cpy cpz]. rewrite phi_opp.
  destruct (f_dec Fp (phi (cpz a)) 0) as [H|H].
  - now rewrite !to_aff_Inf by exact H.
  - rewrite !to_aff_Aff by exact H. cbn [aneg]. f_equal. field. exact H.
Qed.
Lemma curve_Double_valid c a : curve_valid a -> curve_valid (curve_Double false c a).
Proof.
  intros [Hz Ha]. split; [apply curve_Double_z|]. rewrite curve_Double_aff. apply aadd_on_curve; auto using two_Fp.
Qed.
Lemma curve_Add_valid c a b : curve_valid a -> curve_valid b -> curve_valid (curve_Add false c a b).
Proof.
  intros [Hza Ha] [Hzb Hb]. split; [now apply curve_Add_z|].
  rewrite curve_Add_aff by assumption. apply aadd_on_curve; auto using two_Fp.
Qed.
Lemma curve_Negative_valid a : curve_valid a -> curve_valid (curve_Negative a).
Proof. intros [Hz Ha]. split; [exact Hz|]. rewrite curve_Negative_aff. now apply aneg_on_curve. Qed.

(** A receiver that is also the first argument matters only when the sum doubles. *)
Lemma jsame_aff (F : fld) (p q : F * F * F) : snd p <> 0 -> snd q <> 0 -> jsame F p q = true -> to_aff F p = to_aff F q.
Proof.
  destruct p as [[x1 y1] z1], q as [[x2 y2] z2]. cbn [snd]. intros H1 H2 [Hx Hy]%jsame_spec; [|done..].
  now rewrite !to_aff_Aff, Hx, Hy by assumption.
Qed.
Lemma curve_Add_in_place c a b : z_ok (cpz a) -> z_ok (cpz b) -> affC a <> affC b -> curve_Add true c a b = curve_Add false c a b.
Proof.
  intros Ha Hb Hne. unfold curve_Add, curve_IsInfinity. rewrite (z_ok_test _ Ha), (z_ok_test _ Hb).
  destruct (f_dec Fp (phi (cpz a)) 0) as [|H1]; [done|]. destruct (f_dec Fp (phi (cpz b)) 0) as [|H2]; [done|].
  cbv zeta. match goal with |- (if ?t then _ else _) = _ => destruct t eqn:E; [exfalso|done] end.
  rewrite !difference_zero in E. autorewrite with bn256 in E. apply Hne, jsame_aff; [exact H1|exact H2|exact E].
Qed.

(** Multiplication by a number: the digits from the top down. *)
Lemma shift_step (k : Z) (i : nat) :
  (k / 2 ^ Z.of_nat i = 2 * (k / 2 ^ Z.of_nat (S i)) + Z.b2z (Z.testbit k (Z.of_nat i)))%Z.
Proof.
  rewrite Z.testbit_spec' by lia. rewrite Nat2Z.inj_succ, Z.pow_succ_r by lia.
  rewrite (Z.mul_comm 2 (2 ^ Z.of_nat i)), <- Z.div_div by lia.
  apply Z.div_mod. lia.
Qed.
Lemma shift_start (k : Z) : (0 <= k -> k / 2 ^ Z.of_nat (Z.to_nat (BitLen k + 1)) = 0)%Z.
Proof.
  intros Hk. pose proof (BitLen_nonneg k). rewrite Z2Nat.id by lia. apply Z.div_small. split; [done|].
  pose proof (BitLen_mod k Hk) as H1. pose proof (Z.mod_pos_bound k (2 ^ BitLen k) ltac:(lia)).
  rewrite Z.pow_add_r by lia. lia.
Qed.
Lemma curve_mul_loop_aff n sum t a k : (0 <= k)%Z -> z_ok (cpz a) -> z_ok (cpz sum) ->
  affC sum = amul Fp (k / 2 ^ Z.of_nat n) (affC a) ->
  z_ok (cpz (curve_mul_loop n sum t a k)) /\ affC (curve_mul_loop n sum t a k) = amul Fp k (affC a).
Proof.
  intros Hk Ha. revert sum t. induction n as [|i IH]; intros sum t Hs E; cbn [curve_mul_loop].
  { change (2 ^ Z.of_nat 0)%Z with 1%Z in E. now rewrite Z.div_1_r in E. }
  cbv zeta. pose proof (curve_Double_z t sum) as Hd.
  assert (0 <= k / 2 ^ Z.of_nat (S i))%Z by (apply Z.div_pos; lia).
  apply IH; [destruct (Z.testbit _ _); [now apply curve_Add_z | done]|].
  rewrite shift_step, amul_step, <- E by assumption.
  destruct (Z.testbit _ _); [now rewrite curve_Add_aff, curve_Double_aff by assumption | apply curve_Double_aff].
Qed.
Theorem curve_Mul_aff s a k : (0 <= k)%Z -> z_ok (cpz a) ->
  z_ok (cpz (curve_Mul s a k)) /\ affC (curve_Mul s a k) = amul Fp k (affC a).
Proof.
  intros Hk Ha. unfold curve_Mul. cbv zeta.
  apply curve_mul_loop_aff; [done | done | apply z_ok_reduced, reduced_0|].
  rewrite shift_start by done. now rewrite affC_inf.
Qed.
Lemma curve_Mul_valid s a k : (0 <= k)%Z -> curve_valid a -> curve_valid (curve_Mul s a k).
Proof.
  intros Hk [Hz Ha]. destruct (curve_Mul_aff s a k Hk Hz) as [Hz' E]. split; [done|]. rewrite E.
  apply amul_on_curve; auto using two_Fp.
Qed.

(** Affine form *)
Lemma curve_MakeAffine_ok c : z_ok (cpz c) -> exists c', curve_MakeAffine c = Some c' /\ affC c' = affC c /\
  (cpz c' = 0%Z \/ cpz c' = 1%Z) /\ (cpz c' = 0%Z <-> cpz c = 0%Z).
Proof.
  intros Hz. unfold curve_MakeAffine, bits_one, curve_IsInfinity.
  destruct (Z.eqb_spec (Z.abs (cpz c)) 1) as [H1|H1].
  { exists c. destruct Hz. repeat split; auto; lia. }
  destruct (Z.eqb_spec (cpz c) 0) as [H0|H0].
  { eexists. split; [done|]. split; [|split; [by left | done]]. now rewrite !affC_inf. }
  assert (Hne : phi (cpz c) <> 0) by (intros H; now apply H0, Hz).
  destruct (ModInverse_some _ Hne) as (v & -> & Hv). cbn [mbind option_bind].
  eexists. split; [done|]. split; [|split; [by right | done]].
  rewrite affC_one by done. unfold affC, phiC. rewrite to_aff_Aff by exact Hne. cbn [cpx cpy].
  autorewrite with bn256. rewrite Hv. f_equal; field; exact Hne.
Qed.
Lemma curve_IsOnCurve_ok c : cpz c = 1%Z -> curve_IsOnCurve c = true <-> on_curve Fp b1 (affC c).
Proof.
  intros Hz. rewrite affC_one by exact Hz. unfold curve_IsOnCurve. cbv zeta. cbn [on_curve].
  rewrite Z.eqb_eq.
  match goal with |- minimal ?e = 0%Z <-> _ => assert (E : minimal e = 0%Z <-> phi e = 0) end.
  { split; [intros H; rewrite <- phi_minimal, H; apply phi_0|]. intros H.
    rewrite <- phi_minimal in H. apply reduced_eq; [apply minimal_reduced | apply reduced_0 | now rewrite phi_0]. }
  rewrite E. autorewrite with bn256. fold b1. set (x := phi (cpx c)). set (y := phi (cpy c)).
  transitivity (y * y - (x * x * x + b1) = 0); [|apply sub_zero].
  replace (y * y - x * x * x - b1) with (y * y - (x * x * x + b1)) by ring. done.
Qed.

(** ** twist.go *)
Definition reduced2 (e : gfP2) : Prop := reduced (x2 e) /\ reduced (y2 e).
Lemma reduced2_Mul a b : reduced2 (gfP2_Mul a b).
Proof. split; apply reduced_mod. Qed.
Lemma reduced2_Square a : reduced2 (gfP2_Square a).
Proof. split; apply reduced_mod. Qed.
Lemma reduced2_eq a b : reduced2 a -> reduced2 b -> phi2 a = phi2 b -> a = b.
Proof.
  destruct a as [ax ay], b as [bx by_]. intros [Hax Hay] [Hbx Hby] H. cbn [x2 y2] in *.
  f_equal; apply reduced_eq; try done; [exact (f_equal fst H) | exact (f_equal snd H)].
Qed.
Lemma IsZero_reduced e : reduced2 e -> gfP2_IsZero e = if f_dec F2 (phi2 e) 0 then true else false.
Proof.
  intros He. destruct (f_dec F2 (phi2 e) 0) as [H|H].
  - rewrite <- phi2_zero in H. apply reduced2_eq in H; [now subst e | done | split; apply reduced_0].
  - apply not_true_is_false. unfold gfP2_IsZero. intros [Hx Hy]%andb_true_iff. apply Z.eqb_eq in Hx, Hy.
    apply H. rewrite <- phi2_zero. apply phi2_eq. cbn. now rewrite Hx, Hy.
Qed.
Lemma difference_zero2 a b : reduced2 a -> reduced2 b ->
  gfP2_IsZero (gfP2_Sub a b) = if f_dec F2 (phi2 a - phi2 b) 0 then true else false.
Proof.
  intros Ha Hb. destruct (f_dec F2 _ 0) as [H|H]; rewrite (sub_zero F2) in H.
  - apply reduced2_eq in H; [|done..]. subst. unfold gfP2_IsZero, gfP2_Sub. cbn [x2 y2]. now rewrite !Z.sub_diag.
  - apply not_true_is_false. unfold gfP2_IsZero, gfP2_Sub. cbn [x2 y2]. intros [Hx Hy]%andb_true_iff.
    apply Z.eqb_eq in Hx, Hy. apply H. apply phi2_eq. split; f_equal; lia.
Qed.

Definition phiT (c : twistPoint) : F2 * F2 * F2 := (phi2 (tpx c), phi2 (tpy c), phi2 (tpz c)).
Definition affT (c : twistPoint) : apoint F2 := to_aff F2 (phiT c).
Definition b2 : F2 := phi2 twistB.
Definition z2_ok (z : gfP2) : Prop := (0 <= x2 z)%Z /\ (0 <= y2 z)%Z /\ (phi2 z = 0 -> z = gfP2_SetZero).
Definition twist_valid (c : twistPoint) : Prop := z2_ok (tpz c) /\ on_curve F2 b2 (affT c).
(** The twist is [y^2 = x^3 + 3/xi]. *)
Lemma twistB_ok : b2 * xi = qconst b1.
Proof.
  unfold b2. rewrite xi_phi, <- phi2_Mul. transitivity (phi2 (mkGfP2 0 curveB)).
  - apply phi2_eq. vm_compute. split; reflexivity.
  - unfold phi2. cbn [x2 y2]. now rewrite phi_0.
Qed.

Lemma z2_ok_reduced z : reduced2 z -> z2_ok z.
Proof.
  intros H. split; [apply H|]. split; [apply H|]. intros H0. rewrite <- phi2_zero in H0.
  apply reduced2_eq; [done | split; apply reduced_0 | done].
Qed.
Lemma z2_ok_test z : z2_ok z -> gfP2_IsZero z = if f_dec F2 (phi2 z) 0 then true else false.
Proof.
  intros (_ & _ & Hz). destruct (f_dec F2 (phi2 z) 0) as [H|H]; [now rewrite (Hz H)|].
  apply not_true_is_false. unfold gfP2_IsZero. intros [Hx Hy]%andb_true_iff. apply Z.eqb_eq in Hx, Hy.
  apply H. rewrite <- phi2_zero. apply phi2_eq. cbn. now rewrite Hx, Hy.
Qed.
Lemma twist_Double_phi c a : phiT (twist_Double false c a) = jdouble F2 (phiT a).
Proof.
  unfold phiT, twist_Double, jdouble. cbv zeta. cbn [tpx tpy tpz]. autorewrite with bn256.
  apply f_equal2; [apply f_equal2|]; ring.
Qed.
Lemma twist_Double_z c a : z2_ok (tpz (twist_Double false c a)).
Proof.
  unfold twist_Double. cbv zeta. cbn [tpz]. destruct (reduced2_Mul (tpy a) (tpz a)) as [Hx Hy].
  set (t := gfP2_Mul (tpy a) (tpz a)) in *. unfold z2_ok, gfP2_Add. cbn [x2 y2].
  split; [destruct Hx; lia|]. split; [destruct Hy; lia|]. intros H. unfold gfP2_SetZero.
  f_equal; apply reduced_double; try done; [exact (f_equal fst H) | exact (f_equal snd H)].
Qed.
Lemma twist_Add_phi c a b : z2_ok (tpz a) -> z2_ok (tpz b) -> phiT (twist_Add false c a b) = jadd F2 (phiT a) (phiT b).
Proof.
  intros Ha Hb. unfold jadd. cbn [phiT snd]. unfold twist_Add, twist_IsInfinity.
  rewrite (z2_ok_test _ Ha), (z2_ok_test _ Hb).
  destruct (f_dec F2 (phi2 (tpz a)) 0); [done|]. destruct (f_dec F2 (phi2 (tpz b)) 0); [done|].
  cbv zeta. rewrite !difference_zero2 by apply reduced2_Mul. unfold phiT at 2 3, jsame. autorewrite with bn256.
  destruct (_ && _); [apply twist_Double_phi|].
  unfold phiT, jchord. cbn [tpx tpy tpz]. autorewrite with bn256. apply f_equal2; [apply f_equal2|]; ring.
Qed.
Lemma twist_Add_z c a b : z2_ok (tpz a) -> z2_ok (tpz b) -> z2_ok (tpz (twist_Add false c a b)).
Proof.
  intros Ha Hb. unfold twist_Add. destruct (twist_IsInfinity a); [done|]. destruct (twist_IsInfinity b); [done|].
  cbv zeta. destruct (_ && _); [apply twist_Double_z|]. cbn [tpz]. apply z2_ok_reduced, reduced2_Mul.
Qed.
Lemma twist_Double_aff c a : affT (twist_Double false c a) = aadd F2 (affT a) (affT a).
Proof. unfold affT. rewrite twist_Double_phi. apply jdouble_ok, two_F2. Qed.
Lemma twist_Add_aff c a b : z2_ok (tpz a) -> z2_ok (tpz b) -> affT (twist_Add false c a b) = aadd F2 (affT a) (affT b).
Proof. intros Ha Hb. unfold affT. rewrite twist_Add_phi by assumption. apply jadd_ok, two_F2. Qed.
Lemma affT_inf c : tpz c = gfP2_SetZero -> affT c = Inf.
Proof. intros H. unfold affT, phiT. rewrite H, phi2_zero. now apply to_aff_Inf. Qed.
Lemma affT_one c : tpz c = gfP2_SetOne -> affT c = Aff (phi2 (tpx c)) (phi2 (tpy c)).
Proof. intros H. unfold affT, phiT. rewrite H, phi2_one. apply to_aff_one. Qed.
Lemma twist_Negative_aff a : affT (twist_Negative a) = aneg F2 (affT a).
Proof.
  unfold affT, phiT, twist_Negative. cbn [tpx tpy tpz]. autorewrite with bn256.
  destruct (f_dec F2 (phi2 (tpz a)) 0) as [H|H].
  - now rewrite !to_aff_Inf by exact H.
  - rewrite !to_aff_Aff by exact H. cbn [aneg]. f_equal. field. exact H.
Qed.
Lemma twist_Negative_valid a : twist_valid a -> twist_valid (twist_Negative a).
Proof. intros [Hz Ha]. split; [exact Hz|]. rewrite twist_Negative_aff. now apply aneg_on_curve. Qed.
Lemma twist_Add_in_place c a b : z2_ok (tpz a) -> z2_ok (tpz b) -> affT a <> affT b -> twist_Add true c a b = twist_Add false c a b.
Proof.
  intros Ha Hb Hne. unfold twist_Add, twist_IsInfinity. rewrite (z2_ok_test _ Ha), (z2_ok_test _ Hb).
  destruct (f_dec F2 (phi2 (tpz a)) 0) as [|H1]; [done|]. destruct (f_dec F2 (phi2 (tpz b)) 0) as [|H2]; [done|].
  cbv zeta. match goal with |- (if ?t then _ else _) = _ => destruct t eqn:E; [exfalso|done] end.
  rewrite !difference_zero2 in E by apply reduced2_Mul. autorewrite with bn256 in E. apply Hne, jsame_aff; [exact H1|exact H2|exact E].
Qed.
Lemma twist_Double_valid c a : twist_valid a -> twist_valid (twist_Double false c a).
Proof.
  intros [Hz Ha]. split; [apply twist_Double_z|]. rewrite twist_Double_aff. apply aadd_on_curve; auto using two_F2.
Qed.
Lemma twist_Add_valid c a b : twist_valid a -> twist_valid b -> twist_valid (twist_Add false c a b).
Proof.
  intros [Hza Ha] [Hzb Hb]. split; [now apply twist_Add_z|].
  rewrite twist_Add_aff by assumption. apply aadd_on_curve; auto using two_F2.
Qed.
Lemma twist_mul_loop_aff n sum t a k : (0 <= k)%Z -> z2_ok (tpz a) -> z2_ok (tpz sum) ->
  affT sum = amul F2 (k / 2 ^ Z.of_nat n) (affT a) ->
  z2_ok (tpz (twist_mul_loop n sum t a k)) /\ affT (twist_mul_loop n sum t a k) = amul F2 k (affT a).
Proof.
  intros Hk Ha. revert sum t. induction n as [|i IH]; intros sum t Hs E; cbn [twist_mul_loop].
  { change (2 ^ Z.of_nat 0)%Z with 1%Z in E. now rewrite Z.div_1_r in E. }
  cbv zeta. pose proof (twist_Double_z t sum) as Hd.
  assert (0 <= k / 2 ^ Z.of_nat (S i))%Z by (apply Z.div_pos; lia).
  apply IH; [destruct (Z.testbit _ _); [now apply twist_Add_z | done]|].
  rewrite shift_step, amul_step, <- E by assumption.
  destruct (Z.testbit _ _); [now rewrite twist_Add_aff, twist_Double_aff by assumption | apply twist_Double_aff].
Qed.
Theorem twist_Mul_aff s a k : (0 <= k)%Z -> z2_ok (tpz a) ->
  z2_ok (tpz (twist_Mul s a k)) /\ affT (twist_Mul s a k) = amul F2 k (affT a).
Proof.
  intros Hk Ha. unfold twist_Mul. cbv zeta.
  apply twist_mul_loop_aff; [done | done | apply z2_ok_reduced; split; apply reduced_0|].
  rewrite shift_start by done. now rewrite affT_inf.
Qed.
Lemma twist_Mul_valid s a k : (0 <= k)%Z -> twist_valid a -> twist_valid (twist_Mul s a k).
Proof.
  intros Hk [Hz Ha]. destruct (twist_Mul_aff s a k Hk Hz) as [Hz' E]. split; [done|]. rewrite E.
  apply amul_on_curve; auto using two_F2.
Qed.
Lemma twist_MakeAffine_ok s c : z2_ok (tpz c) -> affT (twist_MakeAffine s c) = affT c /\
  (tpz (twist_MakeAffine s c) = gfP2_SetZero \/ tpz (twist_MakeAffine s c) = gfP2_SetOne) /\
  (tpz (twist_MakeAffine s c) = gfP2_SetZero <-> tpz c = gfP2_SetZero).
Proof.
  intros Hz. unfold twist_MakeAffine. destruct (gfP2_IsOne (tpz c)) eqn:H1.
  { split; [done|]. split; [right | done]. unfold gfP2_IsOne, bits_one in H1. destruct Hz as (Hx & Hy & _).
    destruct (Z.eqb_spec (x2 (tpz c)) 0) as [E|]; [|discriminate]. apply Z.eqb_eq in H1.
    destruct (tpz c) as [zx zy]. cbn [x2 y2] in *. unfold gfP2_SetOne. f_equal; lia. }
  unfold twist_IsInfinity. rewrite (z2_ok_test _ Hz). destruct (f_dec F2 (phi2 (tpz c)) 0) as [H0|H0].
  { destruct Hz as (_ & _ & Hz). rewrite (affT_inf c (Hz H0)), affT_inf by done. split; [done|]. split; [by left|].
    split; [intros _; now apply Hz | done]. }
  cbv zeta. rewrite affT_one by done. split; [|split; [by right|]].
  - unfold affT, phiT. rewrite to_aff_Aff by exact H0. cbn [tpx tpy]. autorewrite with bn256. rewrite phi2_Invert.
    f_equal; field; exact H0.
  - cbn [tpz]. split; [discriminate|]. intros E. rewrite E, phi2_zero in H0. contradiction.
Qed.
(** Accepted points satisfy the equation, and [Order] times the point is infinity. *)
Lemma twist_IsOnCurve_ok s c : tpz c = gfP2_SetOne ->
  twist_IsOnCurve s c = true <-> on_curve F2 b2 (affT c) /\ amul F2 Order (affT c) = Inf.
Proof.
  intros Hz. unfold twist_IsOnCurve. cbv zeta.
  set (e := gfP2_Sub (gfP2_Sub _ _) twistB).
  assert (Hr : reduced2 (gfP2_Minimal e)) by (split; apply minimal_reduced).
  assert (Hon : on_curve F2 b2 (affT c) <-> phi2 e = 0).
  { rewrite affT_one by exact Hz. cbn [on_curve]. unfold e. autorewrite with bn256. fold b2.
    set (x := phi2 (tpx c)). set (y := phi2 (tpy c)).
    replace (y * y - x * x * x - b2) with (y * y - (x * x * x + b2)) by ring. symmetry. apply sub_zero. }
  assert (Hz1 : z2_ok (tpz c)) by (rewrite Hz; apply z2_ok_reduced; split; [apply reduced_0 | apply reduced_1]).
  destruct (twist_Mul_aff s c Order ltac:(done) Hz1) as [HzM EM].
  rewrite <- negb_andb. change ((x2 (gfP2_Minimal e) =? 0)%Z && (y2 (gfP2_Minimal e) =? 0)%Z) with (gfP2_IsZero (gfP2_Minimal e)).
  rewrite (IsZero_reduced _ Hr), phi2_Minimal. destruct (f_dec F2 (phi2 e) 0) as [H|H]; cbn [negb].
  - rewrite (z2_ok_test _ HzM), <- EM. unfold affT at 2, phiT. destruct (f_dec F2 _ 0) as [H0|H0].
    + rewrite to_aff_Inf by exact H0. tauto.
    + rewrite to_aff_Aff by exact H0. split; [discriminate | intros [_ ?]; discriminate].
  - split; [discriminate|]. intros [Ho _]. tauto.
Qed.
Lemma twistGen_on_curve : on_curve F2 b2 (affT twistGen).
Proof.
  rewrite affT_one by done. cbn [on_curve]. unfold b2. rewrite <- !phi2_Mul, <- phi2_Add. apply phi2_eq. vm_compute. split; reflexivity.
Qed.
