(* ===== verification/Bn256Groups.v ===== *)
(** * The groups of bn256.go: encodings

    Marshal and Unmarshal of G1, G2 and GT against the encoding of affine points
    and field elements as words of 32 bytes. *)

From stdpp Require Import base.
From S2P Require Import Prelude Memory BigInt Fields Curves Bn256 Bn256Tower Bn256Power Bn256Curve.
#[local] Opaque P.

(** ** Words *)
Definition words_bytes (l : list Z) : bytes := flat_map (be_bytes 32) l.
Lemma P_256 : P < 256 ^ 32.
Proof. vm_compute. reflexivity. Qed.
Lemma reduced_word z : reduced z -> 0 <= z < 256 ^ Z.of_nat 32.
Proof. intros [H1 H2]. pose proof P_256. change (Z.of_nat 32) with 32. lia. Qed.
Lemma field_bytes_word z : reduced z -> field_bytes z = be_bytes 32 z.
Proof.
  intros Hz%reduced_word. change (Z.of_nat 32) with 32 in Hz. destruct (bigBytes_ok z ltac:(lia)) as [Hb Hv].
  pose proof (bigBytes_len z 32 ltac:(lia) Hz) as Hl. unfold field_bytes, numBytes.
  set (l := replicate _ 0 ++ bigBytes z).
  assert (Hlen : length l = 32%nat). { unfold l, len in *. rewrite length_app, length_replicate. lia. }
  rewrite <- (be_bytes_be_val l), Hlen; [|apply Forall_app; split; [apply bytes_ok_replicate|done]].
  unfold l. now rewrite be_val_replicate0, Hv.
Qed.
Lemma length_words l : length (words_bytes l) = (32 * length l)%nat.
Proof. induction l as [|z l IH]; [done|]. cbn [words_bytes flat_map length]. rewrite length_app, length_be_bytes. unfold words_bytes in IH. lia. Qed.
Lemma drop_words k l : drop (32 * k) (words_bytes l) = words_bytes (drop k l).
Proof.
  revert l. induction k as [|k IH]; intros l; [by rewrite Nat.mul_0_r|]. destruct l as [|z l]; [by rewrite drop_nil|].
  cbn [words_bytes flat_map drop]. replace (32 * S k)%nat with (length (be_bytes 32 z) + 32 * k)%nat by (rewrite length_be_bytes; lia).
  rewrite <- drop_drop, drop_app_length. apply IH.
Qed.
Lemma field_at_drop k m : 0 <= k -> field_at k m = be_val (take 32 (drop (32 * Z.to_nat k) m)).
Proof.
  intros Hk. unfold field_at, slice, numBytes. f_equal. f_equal; [lia|]. f_equal. lia.
Qed.
Lemma field_at_words k l z : l !! k = Some z -> reduced z -> field_at (Z.of_nat k) (words_bytes l) = z.
Proof.
  intros Hl Hz. rewrite field_at_drop by lia. rewrite Nat2Z.id, drop_words. rewrite (drop_S _ _ _ Hl).
  cbn [words_bytes flat_map]. rewrite <- (length_be_bytes 32 z) at 1. rewrite take_app_length, be_val_be_bytes.
  apply Z.mod_small, reduced_word, Hz.
Qed.
Lemma field_at_tail k m : 0 <= k -> field_at (k + 1) m = field_at k (drop 32 m).
Proof. intros Hk. rewrite !field_at_drop, drop_drop by lia. do 3 f_equal. lia. Qed.
Lemma fields_words n m : bytes_ok m -> length m = (32 * n)%nat ->
  words_bytes (map (fun k => field_at (Z.of_nat k) m) (seq 0 n)) = m.
Proof.
  revert m. induction n as [|n IH]; intros m Hm Hl; [by destruct m|].
  rewrite <- cons_seq, <- fmap_S_seq. cbn [map words_bytes flat_map]. rewrite map_map.
  rewrite (map_ext _ (fun k => field_at (Z.of_nat k) (drop 32 m))) by (intros k; rewrite <- field_at_tail by lia; f_equal; lia).
  fold (words_bytes (map (fun k => field_at (Z.of_nat k) (drop 32 m)) (seq 0 n))).
  rewrite IH; [|by apply Forall_drop|rewrite length_drop; lia].
  rewrite field_at_drop by done. rewrite Nat.mul_0_r, drop_0.
  rewrite <- (take_drop 32 m) at 3. f_equal.
  transitivity (be_bytes (length (take 32 m)) (be_val (take 32 m))).
  - f_equal. rewrite length_take. lia.
  - apply be_bytes_be_val. by apply Forall_take.
Qed.
Lemma field_at_nonneg k m : bytes_ok m -> 0 <= field_at k m.
Proof. intros Hm. unfold field_at. apply be_val_bound, bytes_ok_slice, Hm. Qed.
Lemma field_reduced k m : bytes_ok m -> (P <=? field_at k m) = false -> reduced (field_at k m).
Proof. intros Hm H%Z.leb_gt. split; [by apply field_at_nonneg | done]. Qed.
Lemma len_64 m : (len m =? 2 * numBytes) = true -> length m = (32 * 2)%nat.
Proof. unfold len, numBytes. intros H%Z.eqb_eq. lia. Qed.
Lemma toZ_reduced x : reduced (toZ x).
Proof. rewrite <- (phi_toZ x), toZ_phi. apply reduced_mod. Qed.
Lemma toZ_of z : reduced z -> toZ (phi z) = z.
Proof. intros Hz. rewrite toZ_phi. by apply Z.mod_small. Qed.
Lemma toZ_zero x : toZ x = 0 <-> x = r0.
Proof. split; [intros H; rewrite <- (phi_toZ x), H; apply phi_0 | intros ->; rewrite <- phi_0, toZ_phi; by apply Z.mod_small, reduced_0]. Qed.

(** ** G1 *)
Definition encode1 (p : apoint Fp) : bytes :=
  match p with Inf => words_bytes [0; 0] | Aff x y => words_bytes [toZ x; toZ y] end.
Lemma zeros_words n : replicate (32 * n) 0 = words_bytes (replicate n 0).
Proof.
  induction n as [|n IH]; [done|]. replace (32 * S n)%nat with (32 + 32 * n)%nat by lia.
  rewrite replicate_add, IH. reflexivity.
Qed.
Lemma encode1_length p : length (encode1 p) = 64%nat.
Proof. destruct p; cbn [encode1]; rewrite length_words; reflexivity. Qed.
Lemma words_bytes_ok l : bytes_ok (words_bytes l).
Proof. induction l as [|z l IH]; [constructor|]. apply Forall_app. split; [apply be_bytes_ok | exact IH]. Qed.
Lemma encode1_bytes p : bytes_ok (encode1 p).
Proof. destruct p; apply words_bytes_ok. Qed.
Lemma pair_fields a b : reduced a -> reduced b -> field_bytes a ++ field_bytes b = words_bytes [a; b].
Proof. intros Ha Hb. cbn [words_bytes flat_map]. by rewrite !field_bytes_word, app_nil_r. Qed.

Lemma G1_Marshal_ok c : z_ok (cpz c) -> exists c', G1_Marshal c = Some (encode1 (affC c), c') /\ affC c' = affC c.
Proof.
  intros Hz. unfold G1_Marshal, curve_IsInfinity. destruct (Z.eqb_spec (cpz c) 0) as [H0|H0].
  { exists c. rewrite (affC_inf c H0). split; [|done]. change (replicate 64 0) with (replicate (32 * 2) 0). by rewrite zeros_words. }
  destruct (curve_MakeAffine_ok c Hz) as (c' & -> & E & Hc & Hiff). cbn [mbind option_bind].
  destruct Hc as [Hc|Hc]; [tauto|]. exists c'. split; [|done].
  rewrite <- E, (affC_one c' Hc). cbn [encode1]. rewrite !toZ_phi, pair_fields by apply reduced_mod. done.
Qed.

Lemma three_nonzero : b1 <> r0.
Proof. unfold b1. rewrite phi_zero. vm_compute. discriminate. Qed.
(** Whatever is accepted is the encoding of a point of the curve, and is kept reduced. *)
Lemma G1_Unmarshal_sound e m p rest : bytes_ok m -> G1_Unmarshal e m = (Some p, inl rest) ->
  curve_valid p /\ m = encode1 (affC p) /\ rest = [].
Proof.
  intros Hm. unfold G1_Unmarshal. destruct (len m =? 2 * numBytes) eqn:Hl; [|done]. apply len_64 in Hl. cbv zeta. cbn [negb cpx cpy cpz cpt].
  destruct (P <=? field_at 0 m) eqn:Hx; [done|]. destruct (P <=? field_at 1 m) eqn:Hy; [done|].
  apply (field_reduced _ _ Hm) in Hx, Hy.
  assert (Em : m = words_bytes [field_at 0 m; field_at 1 m]) by (symmetry; exact (fields_words 2 m Hm Hl)).
  assert (Hd : drop 64 m = []) by (apply nil_length_inv; rewrite length_drop; lia).
  destruct ((field_at 0 m =? 0) && (field_at 1 m =? 0)) eqn:H0.
  - intros [= <- <-]. apply andb_true_iff in H0 as [E0%Z.eqb_eq E1%Z.eqb_eq]. rewrite affC_inf by done.
    split_and!; [|by rewrite Em at 1; rewrite E0, E1|done]. split; [apply z_ok_reduced, reduced_0 | by rewrite affC_inf].
  - destruct (curve_IsOnCurve _) eqn:Ho; [|done]. cbn [negb]. intros [= <- <-].
    apply curve_IsOnCurve_ok in Ho; [|done]. rewrite affC_one in * by done. cbn [cpx cpy encode1] in *.
    split_and!; [|by rewrite !toZ_of|done]. split; [apply z_ok_reduced, reduced_1 | by rewrite affC_one].
Qed.
(** The representation that [Unmarshal] builds *)
Definition point1 (pt : apoint Fp) : curvePoint :=
  match pt with Inf => mkCurvePoint 0 1 0 0 | Aff x y => mkCurvePoint (toZ x) (toZ y) 1 1 end.
Lemma point1_aff pt : affC (point1 pt) = pt.
Proof. destruct pt as [|x y]; [by rewrite affC_inf|]. rewrite affC_one by done. cbn [point1 cpx cpy]. by rewrite !phi_toZ. Qed.
Lemma point1_z pt : z_ok (cpz (point1 pt)).
Proof. destruct pt; apply z_ok_reduced; [apply reduced_0 | apply reduced_1]. Qed.
Lemma point1_valid pt : on_curve Fp b1 pt -> curve_valid (point1 pt).
Proof. intros H. split; [apply point1_z | by rewrite point1_aff]. Qed.
Lemma G1_Unmarshal_complete e pt : on_curve Fp b1 pt -> G1_Unmarshal e (encode1 pt) = (Some (point1 pt), inl []).
Proof.
  intros Ho. pose proof (encode1_length pt) as Hl.
  assert (Hd : drop 64 (encode1 pt) = []) by (apply nil_length_inv; rewrite length_drop; lia).
  unfold G1_Unmarshal. rewrite Hd. unfold len. rewrite Hl. cbn [negb Z.eqb]. change (Z.of_nat 64 =? 2 * numBytes) with true. cbn [negb].
  destruct pt as [|x y]; cbn [encode1] in *.
  - assert (E0 : field_at 0 (words_bytes [0; 0]) = 0) by (apply (field_at_words 0); [done | apply reduced_0]).
    assert (E1 : field_at 1 (words_bytes [0; 0]) = 0) by (apply (field_at_words 1); [done | apply reduced_0]).
    rewrite E0, E1. cbv zeta. cbn [cpx cpy cpz cpt]. rewrite (proj2 (Z.leb_gt P 0)) by apply reduced_0. cbn [Z.eqb andb].
    done.
  - pose proof (toZ_reduced x) as Hx. pose proof (toZ_reduced y) as Hy.
    assert (E0 : field_at 0 (words_bytes [toZ x; toZ y]) = toZ x) by (by apply (field_at_words 0)).
    assert (E1 : field_at 1 (words_bytes [toZ x; toZ y]) = toZ y) by (by apply (field_at_words 1)).
    rewrite E0, E1. cbv zeta. cbn [cpx cpy cpz cpt].
    rewrite (proj2 (Z.leb_gt P (toZ x))), (proj2 (Z.leb_gt P (toZ y))) by (apply Hx || apply Hy).
    pose proof (point1_aff (Aff x y)) as Ep. cbn [point1] in *. set (p := mkCurvePoint (toZ x) (toZ y) 1 1) in *.
    destruct (Z.eqb_spec (toZ x) 0) as [Zx|Zx]; [destruct (Z.eqb_spec (toZ y) 0) as [Zy|Zy]|]; cbn [andb].
    { apply toZ_zero in Zx, Zy. subst. by apply (origin_off_curve Fp b1 three_nonzero) in Ho. }
    all: by rewrite (proj2 (curve_IsOnCurve_ok p eq_refl)) by (rewrite Ep; done).
Qed.

(** ** G2 *)
Definition encode2 (p : apoint F2) : bytes :=
  match p with
  | Inf => words_bytes [0; 0; 0; 0]
  | Aff x y => words_bytes [toZ (fst x); toZ (snd x); toZ (fst y); toZ (snd y)]
  end.
(** The points [Unmarshal] accepts: of the twist, and killed by [Order]. *)
Definition in_G2 (p : apoint F2) : Prop := on_curve F2 b2 p /\ amul F2 Order p = Inf.
Lemma in_G2_inf : in_G2 Inf.
Proof. split; [exact I | apply amul_inf]. Qed.
Lemma encode2_length p : length (encode2 p) = 128%nat.
Proof. destruct p; cbn [encode2]; rewrite length_words; reflexivity. Qed.
Lemma encode2_bytes p : bytes_ok (encode2 p).
Proof. destruct p; apply words_bytes_ok. Qed.
Lemma four_fields a b c d : reduced a -> reduced b -> reduced c -> reduced d ->
  field_bytes a ++ field_bytes b ++ field_bytes c ++ field_bytes d = words_bytes [a; b; c; d].
Proof. intros Ha Hb Hc Hd. cbn [words_bytes flat_map]. by rewrite !field_bytes_word, app_nil_r. Qed.
Lemma G2_Marshal_ok c : z2_ok (tpz c) -> (G2_Marshal c).1 = encode2 (affT c) /\ affT (G2_Marshal c).2 = affT c.
Proof.
  intros Hz. unfold G2_Marshal, twist_IsInfinity. rewrite (z2_ok_test _ Hz). destruct (f_dec F2 (phi2 (tpz c)) r0) as [H0|H0].
  { destruct Hz as (_ & _ & Hz). rewrite (affT_inf c (Hz H0)). split; [|exact (affT_inf c (Hz H0))]. change (replicate 128 0) with (replicate (32 * 4) 0). by rewrite zeros_words. }
  destruct (twist_MakeAffine_ok 0 c Hz) as (E & Hc & Hiff).
  assert (Hne : tpz c <> gfP2_SetZero) by (intros E0; apply H0; rewrite E0; apply phi2_zero).
  destruct Hc as [Hc|Hc]; [tauto|]. cbn [fst snd]. split; [|done].
  rewrite <- E, (affT_one _ Hc). cbn [encode2 fst snd phi2]. rewrite !toZ_phi, four_fields by apply reduced_mod. done.
Qed.
Lemma three_nonzero2 : b2 <> r0.
Proof. unfold b2. rewrite <- phi2_zero, phi2_eq. vm_compute. intros [? _]. discriminate. Qed.
Lemma len_128 m : (len m =? 4 * numBytes) = true -> length m = (32 * 4)%nat.
Proof. unfold len, numBytes. intros H%Z.eqb_eq. lia. Qed.
Lemma z2_zero : z2_ok gfP2_SetZero.
Proof. apply z2_ok_reduced. split; apply reduced_0. Qed.
Lemma z2_one : z2_ok gfP2_SetOne.
Proof. apply z2_ok_reduced. split; [apply reduced_0 | apply reduced_1]. Qed.
Lemma G2_Unmarshal_sound s e m p rest : bytes_ok m -> G2_Unmarshal s e m = (Some p, inl rest) ->
  z2_ok (tpz p) /\ in_G2 (affT p) /\ m = encode2 (affT p) /\ rest = [].
Proof.
  intros Hm. unfold G2_Unmarshal. destruct (len m =? 4 * numBytes) eqn:Hl; [|done]. apply len_128 in Hl. cbv zeta. cbn [negb].
  destruct (P <=? field_at 0 m) eqn:H0; [done|]. destruct (P <=? field_at 1 m) eqn:H1; [done|].
  destruct (P <=? field_at 2 m) eqn:H2; [done|]. destruct (P <=? field_at 3 m) eqn:H3; [done|].
  apply (field_reduced _ _ Hm) in H0, H1, H2, H3.
  assert (Em : m = words_bytes [field_at 0 m; field_at 1 m; field_at 2 m; field_at 3 m]) by (symmetry; exact (fields_words 4 m Hm Hl)).
  assert (Hd : drop 128 m = []) by (apply nil_length_inv; rewrite length_drop; lia).
  destruct (_ && _ && _ && _) eqn:Hz.
  - intros [= <- <-]. rewrite !andb_true_iff, !Z.eqb_eq in Hz. destruct Hz as [[[E0 E1] E2] E3].
    rewrite affT_inf by done. split; [exact z2_zero|]. split; [exact in_G2_inf|]. split; [by rewrite Em at 1; rewrite E0, E1, E2, E3 | exact Hd].
  - destruct (twist_IsOnCurve _ _) eqn:Ho; [|done]. cbn [negb]. intros [= <- <-].
    apply twist_IsOnCurve_ok in Ho; [|done]. split; [exact z2_one|]. split; [exact Ho|]. split; [|exact Hd].
    rewrite affT_one by done. cbn [tpx tpy encode2 phi2 fst snd x2 y2]. by rewrite !toZ_of.
Qed.
Definition point2 (pt : apoint F2) : twistPoint :=
  match pt with
  | Inf => mkTwistPoint gfP2_SetZero gfP2_SetOne gfP2_SetZero gfP2_SetZero
  | Aff x y => mkTwistPoint (mkGfP2 (toZ (fst x)) (toZ (snd x))) (mkGfP2 (toZ (fst y)) (toZ (snd y))) gfP2_SetOne gfP2_SetOne
  end.
Lemma phi2_toZ (x : F2) : phi2 (mkGfP2 (toZ (fst x)) (toZ (snd x))) = x.
Proof. unfold phi2. cbn [x2 y2]. rewrite !phi_toZ. by destruct x. Qed.
Lemma point2_aff pt : affT (point2 pt) = pt.
Proof. destruct pt as [|x y]; [by rewrite affT_inf|]. rewrite affT_one by done. cbn [point2 tpx tpy]. by rewrite !phi2_toZ. Qed.
Lemma point2_z pt : z2_ok (tpz (point2 pt)).
Proof. destruct pt; [exact z2_zero | exact z2_one]. Qed.
Lemma G2_Unmarshal_complete s e pt : in_G2 pt -> G2_Unmarshal s e (encode2 pt) = (Some (point2 pt), inl []).
Proof.
  intros Ho. pose proof (encode2_length pt) as Hl.
  assert (Hd : drop 128 (encode2 pt) = []) by (apply nil_length_inv; rewrite length_drop; lia).
  unfold G2_Unmarshal. rewrite Hd. unfold len. rewrite Hl. change (Z.of_nat 128 =? 4 * numBytes) with true. cbn [negb].
  destruct pt as [|[xx xy] [yx yy]]; cbn [encode2 fst snd] in *.
  - assert (E : forall k : nat, (k < 4)%nat -> field_at (Z.of_nat k) (words_bytes [0; 0; 0; 0]) = 0).
    { intros k Hk. apply field_at_words; [|apply reduced_0]. by do 4 (destruct k as [|k]; [done|]); lia. }
    rewrite (E 0%nat ltac:(lia) : field_at 0 _ = 0), (E 1%nat ltac:(lia) : field_at 1 _ = 0),
      (E 2%nat ltac:(lia) : field_at 2 _ = 0), (E 3%nat ltac:(lia) : field_at 3 _ = 0). cbv zeta.
    rewrite (proj2 (Z.leb_gt P 0)) by apply reduced_0. cbn [Z.eqb andb].
    done.
  - pose proof (toZ_reduced xx) as H0. pose proof (toZ_reduced xy) as H1. pose proof (toZ_reduced yx) as H2. pose proof (toZ_reduced yy) as H3.
    set (m := words_bytes _).
    assert (E0 : field_at 0 m = toZ xx) by (by apply (field_at_words 0)). assert (E1 : field_at 1 m = toZ xy) by (by apply (field_at_words 1)).
    assert (E2 : field_at 2 m = toZ yx) by (by apply (field_at_words 2)). assert (E3 : field_at 3 m = toZ yy) by (by apply (field_at_words 3)).
    rewrite E0, E1, E2, E3. cbv zeta.
    rewrite (proj2 (Z.leb_gt P (toZ xx))), (proj2 (Z.leb_gt P (toZ xy))), (proj2 (Z.leb_gt P (toZ yx))), (proj2 (Z.leb_gt P (toZ yy)))
      by (apply H0 || apply H1 || apply H2 || apply H3).
    pose proof (point2_aff (Aff ((xx, xy) : F2) ((yx, yy) : F2))) as Ep. cbn [point2 fst snd] in *.
    set (p := mkTwistPoint (mkGfP2 (toZ xx) (toZ xy)) (mkGfP2 (toZ yx) (toZ yy)) gfP2_SetOne gfP2_SetOne) in *.
    destruct (_ && _ && _ && _) eqn:Hz.
    { exfalso. rewrite !andb_true_iff, !Z.eqb_eq, !toZ_zero in Hz. destruct Hz as [[[-> ->] ->] ->].
      exact (origin_off_curve F2 b2 three_nonzero2 (proj1 Ho)). }
    by rewrite (proj2 (twist_IsOnCurve_ok s p eq_refl)) by (rewrite Ep; exact Ho).
Qed.

(** ** GT *)
Lemma reduced_minimal z : reduced z -> minimal z = z.
Proof. intros [H1 H2]. unfold minimal. by rewrite (proj2 (Z.ltb_ge z 0)), (proj2 (Z.leb_gt P z)). Qed.
Definition reduced6 (e : gfP6) : Prop := reduced2 (x6 e) /\ reduced2 (y6 e) /\ reduced2 (z6 e).
Definition reduced12 (e : gfP12) : Prop := reduced6 (x12 e) /\ reduced6 (y12 e).
Lemma reduced12_Minimal e : reduced12 (gfP12_Minimal e).
Proof. repeat split; apply minimal_reduced. Qed.
Lemma fields12 (e : gfP12) : reduced12 e -> gfP6_fields (x12 e) ++ gfP6_fields (y12 e) =
  words_bytes [x2 (x6 (x12 e)); y2 (x6 (x12 e)); x2 (y6 (x12 e)); y2 (y6 (x12 e)); x2 (z6 (x12 e)); y2 (z6 (x12 e));
               x2 (x6 (y12 e)); y2 (x6 (y12 e)); x2 (y6 (y12 e)); y2 (y6 (y12 e)); x2 (z6 (y12 e)); y2 (z6 (y12 e))].
Proof.
  intros (((? & ?) & (? & ?) & ? & ?) & (? & ?) & (? & ?) & ? & ?). unfold gfP6_fields, gfP2_fields.
  rewrite !field_bytes_word by assumption. cbn [words_bytes flat_map]. by rewrite app_nil_r, <- !app_assoc.
Qed.
Lemma GT_roundtrip e n : GT_Unmarshal e (GT_Marshal n).1 = (Some (gfP12_Minimal n), true).
Proof.
  unfold GT_Marshal. cbv zeta. cbn [fst]. pose proof (reduced12_Minimal n) as Hr. set (r := gfP12_Minimal n) in *.
  rewrite fields12 by exact Hr. set (l := [_; _; _; _; _; _; _; _; _; _; _; _]). unfold GT_Unmarshal, len.
  rewrite length_words. change (Z.of_nat (32 * length l) =? 12 * numBytes) with true. cbn [negb].
  assert (E : forall (k : nat) z, l !! k = Some z -> field_at (Z.of_nat k) (words_bytes l) = z).
  { intros k z Hk. apply field_at_words; [done|]. destruct Hr as (((? & ?) & (? & ?) & ? & ?) & (? & ?) & (? & ?) & ? & ?).
    do 12 (destruct k as [|k]; [injection Hk as <-; assumption|]). done. }
  f_equal. f_equal.
  assert (Hr' : forall (x : gfP2), mkGfP2 (x2 x) (y2 x) = x) by (by intros []).
  change (2 * 0) with (Z.of_nat 0). change (Z.of_nat 0 + 1) with (Z.of_nat 1). change (2 * 1) with (Z.of_nat 2). change (Z.of_nat 2 + 1) with (Z.of_nat 3).
  change (2 * 2) with (Z.of_nat 4). change (Z.of_nat 4 + 1) with (Z.of_nat 5). change (2 * 3) with (Z.of_nat 6). change (Z.of_nat 6 + 1) with (Z.of_nat 7).
  change (2 * 4) with (Z.of_nat 8). change (Z.of_nat 8 + 1) with (Z.of_nat 9). change (2 * 5) with (Z.of_nat 10). change (Z.of_nat 10 + 1) with (Z.of_nat 11).
  rewrite (E 0%nat _ eq_refl), (E 1%nat _ eq_refl), (E 2%nat _ eq_refl), (E 3%nat _ eq_refl), (E 4%nat _ eq_refl), (E 5%nat _ eq_refl), (E 6%nat _ eq_refl), (E 7%nat _ eq_refl), (E 8%nat _ eq_refl), (E 9%nat _ eq_refl), (E 10%nat _ eq_refl), (E 11%nat _ eq_refl).
  rewrite !Hr'. by destruct r as [[] []].
Qed.
