(* ===== verification/Bn256Pairing.v ===== *)
(** * The pairing of bn256

    optate.go: the points and lines of the Miller loop against the affine law,
    and [PairingCheck] of bn256.go against the product of Miller values raised to
    [(P^12 - 1) / Order]. *)

From Stdlib Require Import Ring Field.
From stdpp Require Import base.
From S2P Require Import Prelude BigInt Fields Curves Bn256 Bn256Tower Bn256Power Bn256Curve Bn256Groups.
#[local] Open Scope ralg_scope.
#[local] Opaque P.
Add Field F2_field2 : (fth F2).
Add Field F6_field2 : (fth F6).

(** ** The loop counter *)
Definition digits_value (l : list Z) : Z := foldr (fun d acc => (d + 2 * acc)%Z) 0%Z l.
Example loop_counter : digits_value sixuPlus2NAF = (6 * u + 2)%Z.
Proof. vm_compute. reflexivity. Qed.
(** Despite its name the list has adjacent non-zero digits. *)
Example not_non_adjacent : nth 17 sixuPlus2NAF 0%Z = 1%Z /\ nth 18 sixuPlus2NAF 0%Z = 1%Z.
Proof. by split. Qed.

(** ** Lines *)
(** The element of the field with [P^12] elements that a line stands for *)
Definition line_value (a b c : F2) : F12 :=
  (((0, a, b) : F6), ((0, 0, c) : F6)).
Lemma phi12_mulLine ret a b c : phi12 (mulLine ret a b c) = phi12 ret * line_value (phi2 a) (phi2 b) (phi2 c).
Proof.
  unfold mulLine. cbv zeta.
  set (A := mkGfP6 gfP2_SetZero a b).
  assert (HA : phi6 A = ((0, phi2 a, phi2 b) : F6)) by (unfold phi6, A; cbn [x6 y6 z6]; by rewrite phi2_zero).
  assert (HB : phi6 (mkGfP6 gfP2_SetZero a (gfP2_Add b c)) = phi6 A + (cconst (phi2 c) : F6)).
  { rewrite HA. unfold phi6. cbn [x6 y6 z6]. rewrite phi2_zero, phi2_Add.
    change (((0, phi2 a, phi2 b + phi2 c) : C6) = ((0, phi2 a, phi2 b) : C6) + ((0, 0, phi2 c) : C6)).
    rewrite cubic_add. apply f_equal2; [apply f_equal2|]; ring. }
  unfold line_value. rewrite <- HA. change ((0, 0, phi2 c) : F6) with (cconst (phi2 c) : F6).
  unfold phi12. cbn [x12 y12]. change (@rmul F12) with (@rmul Q12). rewrite quad_mul.
  rewrite phi6_Sub, phi6_Sub, phi6_Mul, HB, phi6_Add, phi6_Add, phi6_MulTau, phi6_MulScalar, phi6_Mul.
  apply f_equal2; ring.
Qed.

(** What the loop keeps: [t = z^2]. *)
Definition t_ok (r : twistPoint) : Prop := phi2 (tpt r) = phi2 (tpz r) * phi2 (tpz r).
(** The point of a doubling step is the double of [r]; its line is the tangent. *)
Lemma lineFunctionDouble_ok r q a b c r' : t_ok r -> lineFunctionDouble r q = (a, b, c, r') ->
  phiT r' = jdouble F2 (phiT r) /\ t_ok r' /\
  (phi2 (tpz r) <> 0 -> phi2 (tpy r) <> 0 ->
   let x := phi2 (tpx r) / (phi2 (tpz r) * phi2 (tpz r)) in
   let y := phi2 (tpy r) / (phi2 (tpz r) * phi2 (tpz r) * phi2 (tpz r)) in
   let l := (x * x + x * x + x * x) / (y + y) in
   exists k, k <> 0 /\ phi2 a = k * (l * x - y) /\ phi2 b = k * (- l * qconst (phi (cpx q))) /\ phi2 c = k * qconst (phi (cpy q))).
Proof.
  unfold t_ok. intros Ht [= <- <- <- <-]. unfold phiT. cbn [tpx tpy tpz tpt]. autorewrite with bn256. rewrite Ht.
  split; [unfold jdouble; apply f_equal2; [apply f_equal2|]; ring|]. split; [reflexivity|].
  intros Hz Hy. cbv zeta. generalize dependent (phi2 (tpx r)). intros x. generalize dependent (phi2 (tpy r)). intros y Hy.
  generalize dependent (phi2 (tpz r)). intros z _ Hz.
  assert (Hyy : y + y <> 0) by (intros H; now apply Hy, (double_zero F2 two_F2)).
  exists ((1 + 1) * ((y * z + y * z) * (z * z))). split_and!.
  - repeat apply f_mul_neq; try assumption; [exact two_F2|]. intros H. apply (double_zero F2 two_F2) in H.
    apply f_integral in H as [?|?]; contradiction.
  - field. split; assumption.
  - field. split; assumption.
  - ring.
Qed.
(** An addition step with an affine point [p] is the chord through [r] and [p]. *)
Lemma lineFunctionAdd_ok r p q r2 a b c r' : t_ok r -> phi2 r2 = phi2 (tpy p) * phi2 (tpy p) ->
  lineFunctionAdd r p q r2 = (a, b, c, r') ->
  phiT r' = jchord F2 (phiT r) (phi2 (tpx p), phi2 (tpy p), 1) /\ t_ok r' /\
  (phi2 (tpz r) <> 0 -> phi2 (tpx p) * (phi2 (tpz r) * phi2 (tpz r)) - phi2 (tpx r) <> 0 ->
   let x := phi2 (tpx r) / (phi2 (tpz r) * phi2 (tpz r)) in
   let y := phi2 (tpy r) / (phi2 (tpz r) * phi2 (tpz r) * phi2 (tpz r)) in
   let l := (phi2 (tpy p) - y) / (phi2 (tpx p) - x) in
   exists k, k <> 0 /\ phi2 a = k * (l * phi2 (tpx p) - phi2 (tpy p)) /\ phi2 b = k * (- l * qconst (phi (cpx q)))
     /\ phi2 c = k * qconst (phi (cpy q))).
Proof.
  unfold t_ok. intros Ht Hr2 [= <- <- <- <-]. unfold phiT. cbn [tpx tpy tpz tpt]. autorewrite with bn256. rewrite Ht, Hr2.
  split; [unfold jchord; apply f_equal2; [apply f_equal2|]; ring|]. split; [reflexivity|].
  generalize (phi2 (tpx r)) (phi2 (tpy r)) (phi2 (tpx p)) (phi2 (tpy p)). intros x y px py.
  generalize dependent (phi2 (tpz r)). intros z _ Hz Hh. cbv zeta.
  exists ((1 + 1) * ((z * (px * (z * z) - x)) + (z * (px * (z * z) - x)))). split_and!.
  - apply f_mul_neq; [exact two_F2|]. intros H. apply (double_zero F2 two_F2) in H.
    apply f_integral in H as [?|?]; contradiction.
  - field. split; assumption.
  - field. split; assumption.
  - ring.
Qed.

(** ** The check *)
Lemma miller_stale s s' q p : miller s q p = miller s' q p.
Proof.
  unfold miller, twist_MakeAffine. now rewrite (gfP2_Invert_stale s s').
Qed.
Lemma miller_some s q p : z_ok (cpz p) -> is_Some (miller s q p).
Proof.
  intros Hp. unfold miller. cbv zeta. destruct (curve_MakeAffine_ok p Hp) as (p' & -> & _). cbn [mbind option_bind].
  destruct (miller_loop _ _ _ _ _ _ _) as [ret r]. destruct (lineFunctionAdd _ _ _ _) as [[[? ?] ?] ?].
  destruct (lineFunctionAdd _ _ _ _) as [[[? ?] ?] ?]. done.
Qed.
(** The value of the Miller loop at two affine points; infinity counts as one. *)
Definition miller_value (p : apoint Fp) (q : apoint F2) : F12 :=
  match p, q with
  | Aff _ _, Aff _ _ => match miller 0 (point2 q) (point1 p) with Some m => phi12 m | None => 1 end
  | _, _ => 1
  end.
Definition pairing_value (l : list (apoint Fp * apoint F2)) : F12 :=
  foldr (fun pq acc => miller_value pq.1 pq.2 * acc) 1 l.
Definition final_exponent : N := Z.to_N ((P ^ 12 - 1) / Order).

Lemma mul_assoc12 (x y z : F12) : x * y * z = x * (y * z).
Proof. symmetry. apply (Rmul_assoc (rth F12)). Qed.
Lemma mul_one12 (x : F12) : 1 * x = x.
Proof. apply (Rmul_1_l (rth F12)). Qed.
Lemma mul_comm12 (x y : F12) : x * y = y * x.
Proof. apply (Rmul_comm (rth F12)). Qed.
Lemma pairing_product_ok s acc l : exists r,
  pairing_product s acc (point1 <$> l.*1) (point2 <$> l.*2) = Some r /\ phi12 r = phi12 acc * pairing_value l.
Proof.
  revert acc. induction l as [|[p q] l IH]; intros acc; cbn [fmap list_fmap pairing_product].
  { exists acc. split; [done|]. change (pairing_value []) with (1 : F12). by rewrite mul_comm12, mul_one12. }
  destruct p as [|x y]; cbn [fst snd].
  { cbn [point1 curve_IsInfinity cpz Z.eqb tail]. destruct (IH acc) as (r & Hr & E). exists r. split; [exact Hr|].
    rewrite E. cbn [pairing_value foldr fst snd miller_value]. by rewrite mul_one12. }
  change (curve_IsInfinity (point1 (Aff x y))) with false. cbn iota.
  destruct q as [|qx qy].
  { cbn [point2]. change (twist_IsInfinity _) with true. destruct (IH acc) as (r & Hr & E). exists r. split; [exact Hr|].
    rewrite E. cbn [pairing_value foldr fst snd miller_value]. by rewrite mul_one12. }
  change (twist_IsInfinity (point2 (Aff qx qy))) with false. cbn iota.
  rewrite (miller_stale s 0). cbn [pairing_value foldr fst snd miller_value].
  destruct (miller_some 0 (point2 (Aff qx qy)) (point1 (Aff x y)) (point1_z _)) as [m ->]. cbn [mbind option_bind].
  destruct (IH (gfP12_Mul acc m)) as (r & Hr & E). exists r. split; [exact Hr|]. rewrite E, phi12_Mul, mul_assoc12. done.
Qed.
Theorem PairingCheck_ok s l : PairingCheck s (point1 <$> l.*1) (point2 <$> l.*2) =
  Some (if f_dec F12 (pairing_value l ^ final_exponent) 1 then true else false).
Proof.
  unfold PairingCheck. destruct (pairing_product_ok s gfP12_SetOne l) as (r & -> & E). cbn [mbind option_bind]. f_equal.
  rewrite phi12_one, mul_one12 in E. pose proof (finalExponentiation_power s r) as Hf. rewrite E in Hf. fold final_exponent in Hf.
  pose proof (test_one12 (finalExponentiation s r)) as Ht. rewrite Hf in Ht.
  destruct (f_dec F12 _ 1) as [H|H]; [by apply Ht|]. apply not_true_is_false. tauto.
Qed.
