(* ===== verification/Bn256Theorems.v ===== *)
(** * Theorems on bn256 and the contracts that use it

    The field and group operations of src/crypto/bn256, and the contracts at
    addresses 6, 7 and 8 of src/evm/contracts.go run on them. *)

From stdpp Require Import base.
From S2P Require Import Prelude Memory BigInt Fields Curves Bn256 Bn256Tower Bn256Power Bn256Curve Bn256Groups Bn256Pairing.
From S2P Require Import Words State Precompiles PrecompileFacts.
#[local] Opaque P.

(** ** The curve as the contracts see it *)
(** bn256 has no operations for [MultiExp], [InCorrectSubgroup] and [MapToCurve],
    and no contract asks for them; no point the contracts meet makes [Marshal]
    panic ([curve_MakeAffine_ok]). *)
Definition bn1 : Curve :=
  mkCurve curvePoint
    (fun m => match G1_Unmarshal None m with (Some p, inl _) => inl p | (_, inr e) => inr e | (None, inl _) => inr 0 end)
    (G1_Add false None) G1_ScalarMult (fun _ _ => newCurvePoint 0) (fun _ => true) (fun _ => inr 0)
    (fun p => match G1_Marshal p with Some (b, _) => b | None => replicate 64 0 end).
Definition bn2 : Curve :=
  mkCurve twistPoint
    (fun m => match G2_Unmarshal 0 None m with (Some p, inl _) => inl p | (_, inr e) => inr e | (None, inl _) => inr 0 end)
    (G2_Add false None) G2_ScalarMult (fun _ _ => newTwistPoint 0) (fun _ => true) (fun _ => inr 0)
    (fun p => (G2_Marshal p).1).
Definition bn256_crypto (C : Crypto) : Crypto :=
  mkCrypto (Keccak256 C) (sha256Sum C) (ripemd160Sum C) (Ecrecover C) bn1 bn2
    (fun a b => default false (PairingCheck 0 a b)) (blsG1 C) (blsG2 C) (blsPairingCheck C).

(** A window of the input is the encoding of a point, or it is refused. *)
Lemma bn1_Unmarshal m : bytes_ok m ->
  (exists p, on_curve Fp b1 p /\ m = encode1 p /\ Unmarshal bn1 m = inl (point1 p)) \/
  (exists e, Unmarshal bn1 m = inr e /\ ~ exists p, on_curve Fp b1 p /\ m = encode1 p).
Proof.
  intros Hm. cbn [Unmarshal bn1]. destruct (G1_Unmarshal None m) as [[p|] [rest|e]] eqn:E.
  - left. destruct (G1_Unmarshal_sound _ _ _ _ Hm E) as ([_ Ho] & Em & _). exists (affC p). split; [done|]. split; [done|].
    rewrite Em in E at 1. rewrite (G1_Unmarshal_complete None _ Ho) in E. injection E as E' _. by rewrite E'.
  - right. exists e. split; [done|]. intros (pt & Ho & ->). rewrite (G1_Unmarshal_complete None _ Ho) in E. done.
  - right. exists 0. split; [done|]. intros (pt & Ho & ->). rewrite (G1_Unmarshal_complete None _ Ho) in E. done.
  - right. exists e. split; [done|]. intros (pt & Ho & ->). rewrite (G1_Unmarshal_complete None _ Ho) in E. done.
Qed.
Lemma bn2_Unmarshal m : bytes_ok m ->
  (exists p, in_G2 p /\ m = encode2 p /\ Unmarshal bn2 m = inl (point2 p)) \/
  (exists e, Unmarshal bn2 m = inr e /\ ~ exists p, in_G2 p /\ m = encode2 p).
Proof.
  intros Hm. cbn [Unmarshal bn2]. destruct (G2_Unmarshal 0 None m) as [[p|] [rest|e]] eqn:E.
  - left. destruct (G2_Unmarshal_sound _ _ _ _ _ Hm E) as (_ & Ho & Em & _). exists (affT p). split; [done|]. split; [done|].
    rewrite Em in E at 1. rewrite (G2_Unmarshal_complete 0 None _ Ho) in E. injection E as E' _. by rewrite E'.
  - right. exists e. split; [done|]. intros (pt & Ho & ->). rewrite (G2_Unmarshal_complete 0 None _ Ho) in E. done.
  - right. exists 0. split; [done|]. intros (pt & Ho & ->). rewrite (G2_Unmarshal_complete 0 None _ Ho) in E. done.
  - right. exists e. split; [done|]. intros (pt & Ho & ->). rewrite (G2_Unmarshal_complete 0 None _ Ho) in E. done.
Qed.
Lemma bn1_Marshal p : z_ok (cpz p) -> Marshal bn1 p = encode1 (affC p).
Proof. intros Hz. cbn [Marshal bn1]. by destruct (G1_Marshal_ok p Hz) as (c' & -> & _). Qed.

(** The interface the contracts' safety is proved against. *)
Lemma bn256_crypto_ok C : crypto_ok C -> crypto_ok (bn256_crypto C).
Proof.
  intros [? ? ? ? _ ? ?]. constructor; try assumption. constructor. intros p. cbn [bnG1 bn256_crypto Marshal bn1].
  unfold G1_Marshal. destruct (curve_IsInfinity p); [split; [apply bytes_ok_replicate | done]|].
  destruct (curve_MakeAffine p) as [c|]; cbn [mbind option_bind]; [|split; [apply bytes_ok_replicate | done]].
  rewrite pair_fields by apply reduced_mod. split; [apply words_bytes_ok | unfold len; by rewrite length_words].
Qed.

(** ** The contracts of addition and multiplication *)
Section Contracts.
Context (C : Crypto) (input : bytes) (Hin : is_slice input).

Lemma read_window start size : is_u64 start -> 0 <= size <= 2 ^ 32 -> data_at input start size = Some (window input start size).
Proof. destruct Hin. intros Hs Hz. apply data_at_window; [done | unfold maxAlloc; lia | done]. Qed.
Lemma window_bytes start size : bytes_ok (window input start size).
Proof. apply window_ok, Hin. Qed.
Lemma add_contract :
  (exists p q, on_curve Fp b1 p /\ on_curve Fp b1 q /\ window input 0 64 = encode1 p /\ window input 64 64 = encode1 q /\
     runBn256Add (bn256_crypto C) input = ok (encode1 (aadd Fp p q))) \/
  (exists e, runBn256Add (bn256_crypto C) input = fail e /\
     ~ exists p q, on_curve Fp b1 p /\ on_curve Fp b1 q /\ window input 0 64 = encode1 p /\ window input 64 64 = encode1 q).
Proof.
  unfold runBn256Add. rewrite !read_window by (unfold is_u64; lia). cbn [mbind option_bind bn256_crypto bnG1].
  destruct (bn1_Unmarshal _ (window_bytes 0 64)) as [(p & Hp & Ep & ->)|(e & -> & Hno)].
  2:{ right. exists e. split; [done|]. intros (p & q & Hp & _ & Ep & _). apply Hno. eauto. }
  destruct (bn1_Unmarshal _ (window_bytes 64 64)) as [(q & Hq & Eq & ->)|(e & -> & Hno)].
  2:{ right. exists e. split; [done|]. intros (p' & q & _ & Hq & _ & Eq). apply Hno. eauto. }
  left. exists p, q. split_and!; try done. f_equal. cbn [PAdd bn1]. unfold G1_Add.
  rewrite bn1_Marshal by (apply curve_Add_z; apply point1_z).
  by rewrite curve_Add_aff, !point1_aff by apply point1_z.
Qed.
Lemma mul_contract :
  (exists p, on_curve Fp b1 p /\ window input 0 64 = encode1 p /\
     runBn256ScalarMul (bn256_crypto C) input = ok (encode1 (amul Fp (be_val (window input 64 32)) p))) \/
  (exists e, runBn256ScalarMul (bn256_crypto C) input = fail e /\ ~ exists p, on_curve Fp b1 p /\ window input 0 64 = encode1 p).
Proof.
  unfold runBn256ScalarMul. rewrite !read_window by (unfold is_u64; lia). cbn [mbind option_bind bn256_crypto bnG1].
  destruct (bn1_Unmarshal _ (window_bytes 0 64)) as [(p & Hp & Ep & ->)|(e & -> & Hno)]; [left|right; by exists e].
  exists p. split; [done|]. split; [done|]. f_equal. cbn [ScalarMult bn1]. unfold G1_ScalarMult.
  destruct (curve_Mul_aff 0 (point1 p) (be_val (window input 64 32))) as [Hz Ha];
    [by apply be_val_bound, window_bytes | apply point1_z|].
  rewrite bn1_Marshal by exact Hz. by rewrite Ha, point1_aff.
Qed.
End Contracts.

(** ** The pairing contract *)
Definition encode_pair (pq : apoint Fp * apoint F2) : bytes := encode1 pq.1 ++ encode2 pq.2.
Definition encode_pairs (l : list (apoint Fp * apoint F2)) : bytes := flat_map encode_pair l.
Definition pair_ok (pq : apoint Fp * apoint F2) : Prop := on_curve Fp b1 pq.1 /\ in_G2 pq.2.
Definition pairing_answer (l : list (apoint Fp * apoint F2)) : bytes :=
  if f_dec F12 (rpow (pairing_value l) final_exponent) r1 then true32Byte else false32Byte.

Lemma encode_pair_length pq : length (encode_pair pq) = 192%nat.
Proof. unfold encode_pair. by rewrite length_app, encode1_length, encode2_length. Qed.
Lemma cut_slice (l : bytes) (i n : Z) : 0 <= i -> 0 <= n -> i + n <= len l ->
  sub_slice i (i + n) l = Some (take (Z.to_nat n) (drop (Z.to_nat i) l)).
Proof.
  intros Hi Hn Hl. unfold sub_slice. rewrite (proj2 (slice_ok_true _ _ _)) by lia. unfold slice. do 2 f_equal. lia.
Qed.
Lemma encode_pairs_cons l m : l <> [] -> encode_pairs l = m -> exists pq l', l = pq :: l' /\
  take 64 m = encode1 pq.1 /\ take 128 (drop 64 m) = encode2 pq.2 /\ drop 192 m = encode_pairs l'.
Proof.
  destruct l as [|[p q] l]; [done|]. intros _ <-. exists (p, q), l. split; [done|].
  cbn [encode_pairs flat_map]. unfold encode_pair. cbn [fst snd].
  rewrite <- app_assoc. pose proof (encode1_length p) as H1. pose proof (encode2_length q) as H2. split_and!.
  - by apply take_app_length'.
  - rewrite drop_app_length' by done. by apply take_app_length'.
  - change 192%nat with (64 + 128)%nat. rewrite <- drop_drop, drop_app_length' by done. by apply drop_app_length'.
Qed.

Section Pairs.
Context (C : Crypto) (input : bytes) (Hin : bytes_ok input).

Lemma pairing_points_ok n i : 0 <= i -> i + 192 * Z.of_nat n = len input ->
  (exists l, Forall pair_ok l /\ drop (Z.to_nat i) input = encode_pairs l /\
     pairing_points (bn256_crypto C) n i input = Some (inl (point1 <$> l.*1, point2 <$> l.*2))) \/
  (exists e, pairing_points (bn256_crypto C) n i input = Some (inr e) /\
     ~ exists l, Forall pair_ok l /\ drop (Z.to_nat i) input = encode_pairs l).
Proof.
  revert i. induction n as [|n IH]; intros i Hi Hl; cbn [pairing_points].
  { left. exists []. split; [constructor|]. split; [|done]. apply drop_ge. unfold len in *. lia. }
  set (m := drop (Z.to_nat i) input).
  assert (Hlen : (192 <= length m)%nat) by (unfold m, len in *; rewrite length_drop; lia).
  assert (Hne : forall l, m = encode_pairs l -> l <> []) by (intros l E ->; rewrite E in Hlen; cbn in Hlen; lia).
  assert (Hm : bytes_ok m) by (by apply Forall_drop).
  assert (S1 : sub_slice i (i + 64) input = Some (take 64 m)) by (apply (cut_slice input i 64); lia).
  assert (S2 : sub_slice (i + 64) (i + 192) input = Some (take 128 (drop 64 m))).
  { replace (i + 192) with (i + 64 + 128) by lia. rewrite (cut_slice input (i + 64) 128) by lia. unfold m. rewrite drop_drop. do 3 f_equal. lia. }
  rewrite S1. cbn [mbind option_bind bn256_crypto bnG1 bnG2].
  destruct (bn1_Unmarshal (take 64 m)) as [(p & Hp & Ep & ->)|(e & -> & Hno)]; [by apply Forall_take| |].
  2:{ right. exists e. split; [done|]. intros (l & Hok & E). destruct (encode_pairs_cons l m (Hne l E) (eq_sym E)) as (pq & l' & -> & E1 & _).
      apply Hno. exists pq.1. split; [|done]. inversion Hok as [|? ? [H _] _]. exact H. }
  rewrite S2. cbn [mbind option_bind].
  destruct (bn2_Unmarshal (take 128 (drop 64 m))) as [(q & Hq & Eq & ->)|(e & -> & Hno)]; [by apply Forall_take, Forall_drop| |].
  2:{ right. exists e. split; [done|]. intros (l & Hok & E). destruct (encode_pairs_cons l m (Hne l E) (eq_sym E)) as (pq & l' & -> & _ & E2 & _).
      apply Hno. exists pq.2. split; [|done]. inversion Hok as [|? ? [_ H] _]. exact H. }
  assert (Em : m = encode_pair (p, q) ++ drop (Z.to_nat (i + 192)) input).
  { unfold encode_pair. cbn [fst snd]. rewrite <- Ep, <- Eq. replace (drop (Z.to_nat (i + 192)) input) with (drop 128 (drop 64 m)).
    - by rewrite <- app_assoc, take_drop, take_drop.
    - unfold m. rewrite !drop_drop. f_equal. lia. }
  destruct (IH (i + 192) ltac:(lia) ltac:(lia)) as [(l & Hok & El & ->)|(e & -> & Hno)]; cbn [mbind option_bind].
  - left. exists ((p, q) :: l). split; [by constructor|]. split; [|done]. by rewrite Em, El.
  - right. exists e. split; [done|]. intros (l & Hok & E). destruct (encode_pairs_cons l m (Hne l E) (eq_sym E)) as (pq & l' & -> & _ & _ & E3).
    apply Hno. exists l'. split; [by inversion Hok|]. rewrite <- E3. unfold m. rewrite drop_drop. f_equal. lia.
Qed.
Lemma pairing_contract : len input mod 192 = 0 ->
  (exists l, Forall pair_ok l /\ input = encode_pairs l /\ runBn256Pairing (bn256_crypto C) input = ok (pairing_answer l)) \/
  (exists e, runBn256Pairing (bn256_crypto C) input = fail e /\ ~ exists l, Forall pair_ok l /\ input = encode_pairs l).
Proof.
  intros Hmod. unfold runBn256Pairing. rewrite Hmod. cbn [Z.ltb Z.compare].
  assert (Hn : 0 <= len input) by (unfold len; lia).
  destruct (pairing_points_ok (Z.to_nat (len input / 192)) 0 ltac:(lia)) as [(l & Hok & El & ->)|(e & -> & Hno)].
  - rewrite Z2Nat.id by (apply Z.div_pos; lia). pose proof (Z.div_mod (len input) 192 ltac:(lia)). lia.
  - left. exists l. split; [done|]. split; [done|]. cbn [mbind option_bind bn256_crypto bnPairingCheck]. rewrite PairingCheck_ok. cbn [from_option id].
    unfold pairing_answer. by destruct (f_dec F12 _ _).
  - right. by exists e.
Qed.
End Pairs.

(** ** The tower of fields *)
(** C23.  The arithmetic of gfp2.go, gfp6.go and gfp12.go is that of the fields with
    [P^2], [P^6] and [P^12] elements.  [P] is a prime; reading the numbers modulo
    [P], in gfP12 the Karatsuba product is the product, [Square] the square,
    [Exp] the power for every exponent that is not negative, [Frobenius] and
    [FrobeniusP2] the [P]-th and [P^2]-th power, [Conjugate] the [P^6]-th power,
    and [mulLine] the product with a sparse element; [Invert] inverts every
    element but zero of all three fields, and the number the pool hands out where
    [ModInverse] fails is never seen. *)
Theorem field_tower_exact stale :
  Z.prime P /\
  (forall a b, phi12 (gfP12_Mul a b) = rmul (phi12 a) (phi12 b) /\ phi12 (gfP12_Square a) = rmul (phi12 a) (phi12 a) /\
     phi12 (gfP12_Add a b) = radd (phi12 a) (phi12 b) /\ phi12 (gfP12_Sub a b) = rsub (phi12 a) (phi12 b)) /\
  (forall a k, 0 <= k -> phi12 (gfP12_Exp a k) = rpow (phi12 a) (Z.to_N k)) /\
  (forall a, phi12 (gfP12_Frobenius a) = rpow (phi12 a) (Z.to_N P) /\
     phi12 (gfP12_FrobeniusP2 a) = rpow (rpow (phi12 a) (Z.to_N P)) (Z.to_N P) /\
     phi12 (gfP12_Conjugate a).1 = rpow (phi12 a) p6) /\
  (forall ret a b c, phi12 (mulLine ret a b c) = rmul (phi12 ret) (line_value (phi2 a) (phi2 b) (phi2 c))) /\
  (forall a, phi2 a <> r0 -> phi2 (gfP2_Mul (gfP2_Invert stale a) a) = r1) /\
  (forall a, phi6 a <> r0 -> phi6 (gfP6_Mul (gfP6_Invert stale a) a) = r1) /\
  (forall a, phi12 a <> r0 -> phi12 (gfP12_Mul (gfP12_Invert stale a) a) = r1) /\
  (forall a stale', gfP12_Invert stale a = gfP12_Invert stale' a).
Proof.
  split; [exact P_prime|]. split; [auto using phi12_Mul, phi12_Square, phi12_Add, phi12_Sub|].
  split; [exact phi12_Exp|]. split.
  { intros a. split; [exact (phi12_Frobenius a)|]. split; [exact (phi12_FrobeniusP2 a)|].
    destruct a as [x y]. exact (phi12_conjugate x y). }
  split; [exact phi12_mulLine|].
  split; [intros a Ha; rewrite phi2_Mul, phi2_Invert; by apply f_inv|].
  split; [intros a Ha; rewrite phi6_Mul, phi6_Invert; by apply f_inv|].
  split; [intros a Ha; rewrite phi12_Mul, phi12_Invert; by apply f_inv|].
  intros a stale'. apply gfP12_Invert_stale.
Qed.

(** C24.  [finalExponentiation] computes what its comment says: the power with
    exponent [(P^12 - 1) / Order], of every element of the field, zero included
    (its inversion leaves zero).  Of an element other than zero the result has an
    order that divides [Order]: it lies in GT. *)
Theorem final_exponentiation_exact stale a :
  phi12 (finalExponentiation stale a) = rpow (phi12 a) (Z.to_N ((P ^ 12 - 1) / Order)) /\
  (phi12 a = r0 \/ rpow (phi12 (finalExponentiation stale a)) (Z.to_N Order) = r1).
Proof.
  split; [apply finalExponentiation_power|]. destruct (f_dec F12 (phi12 a) r0) as [H|H]; [by left | right].
  by apply finalExponentiation_order.
Qed.

(** ** Points *)
(** C33.  Points stay well-formed.  A point of G1 is well-formed when it satisfies
    the curve's equation in Jacobian coordinates and its [z] is no negative
    number, and no multiple of [P] but zero, so that the code's test for infinity
    is right; the same for the twist.  The generators are well-formed, and these
    keep a point so, for the curve and for the twist: adding and doubling into a
    receiver that is not the first argument; adding two different points into any
    receiver (when the receiver is the first argument and the points are equal the
    sum is doubled in place, which leaves the curve); negating; multiplying by any
    number that is not negative; and bringing a point into affine form, which never
    meets a missing inverse, keeps the affine point and leaves [z] zero or one. *)
Theorem points_wellformed :
  (curve_valid curveGen /\
   (forall c a b, curve_valid a -> curve_valid b -> curve_valid (curve_Add false c a b)) /\
   (forall same c a b, curve_valid a -> curve_valid b -> affC a <> affC b -> curve_valid (curve_Add same c a b)) /\
   (forall c a, curve_valid a -> curve_valid (curve_Double false c a)) /\
   (forall a, curve_valid a -> curve_valid (curve_Negative a)) /\
   (forall stale a k, 0 <= k -> curve_valid a -> curve_valid (curve_Mul stale a k)) /\
   (forall a, curve_valid a -> exists a', curve_MakeAffine a = Some a' /\ curve_valid a' /\ affC a' = affC a /\ (cpz a' = 0 \/ cpz a' = 1))) /\
  (twist_valid twistGen /\
   (forall c a b, twist_valid a -> twist_valid b -> twist_valid (twist_Add false c a b)) /\
   (forall same c a b, twist_valid a -> twist_valid b -> affT a <> affT b -> twist_valid (twist_Add same c a b)) /\
   (forall c a, twist_valid a -> twist_valid (twist_Double false c a)) /\
   (forall a, twist_valid a -> twist_valid (twist_Negative a)) /\
   (forall stale a k, 0 <= k -> twist_valid a -> twist_valid (twist_Mul stale a k)) /\
   (forall stale a, twist_valid a -> let a' := twist_MakeAffine stale a in
      twist_valid a' /\ affT a' = affT a /\ (tpz a' = gfP2_SetZero \/ tpz a' = gfP2_SetOne))).
Proof.
  split.
  - split. { split; [apply z_ok_reduced, reduced_1|]. apply curve_IsOnCurve_ok; [done|]. vm_compute. reflexivity. }
    split; [exact curve_Add_valid|]. split.
    { intros [] c a b Ha Hb Hne; [|by apply curve_Add_valid]. rewrite curve_Add_in_place by (done || apply Ha || apply Hb). by apply curve_Add_valid. }
    split; [exact curve_Double_valid|]. split; [exact curve_Negative_valid|]. split; [exact curve_Mul_valid|].
    intros a [Hz Ho]. destruct (curve_MakeAffine_ok a Hz) as (a' & H & E & Hz' & _). exists a'. split; [done|].
    split; [|by split]. split; [|by rewrite E]. apply z_ok_reduced. destruct Hz' as [->| ->]; [apply reduced_0|apply reduced_1].
  - split. { split; [exact z2_one|]. apply twistGen_on_curve. }
    split; [exact twist_Add_valid|]. split.
    { intros [] c a b Ha Hb Hne; [|by apply twist_Add_valid]. rewrite twist_Add_in_place by (done || apply Ha || apply Hb). by apply twist_Add_valid. }
    split; [exact twist_Double_valid|]. split; [exact twist_Negative_valid|]. split; [exact twist_Mul_valid|].
    intros stale a [Hz Ho]. destruct (twist_MakeAffine_ok stale a Hz) as (E & Hz' & _). cbv zeta.
    split; [|by split]. split; [|by rewrite E]. destruct Hz' as [->| ->]; [apply z2_ok_reduced; split; apply reduced_0|exact z2_one].
Qed.

(** ** Encodings *)
(** C34.  The encodings are exact.  [G1.Unmarshal] accepts a byte string if and only
    if it is the encoding of a point of the curve, 64 bytes with both coordinates
    below [P] or 64 zeros for infinity, and [G1.Marshal] of the point it builds
    returns the string; [G2.Unmarshal] likewise accepts exactly the encodings of
    the points of the twist that [Order] multiplies to infinity.  Marshalling any
    well-formed point, affine or not, gives the encoding of its affine point. *)
Theorem encodings_exact m : bytes_ok m ->
  ((exists p rest, G1_Unmarshal None m = (Some p, inl rest)) <-> exists pt, on_curve Fp b1 pt /\ m = encode1 pt) /\
  (forall p rest, G1_Unmarshal None m = (Some p, inl rest) -> curve_valid p /\ exists p', G1_Marshal p = Some (m, p')) /\
  ((exists p rest, G2_Unmarshal 0 None m = (Some p, inl rest)) <-> exists pt, in_G2 pt /\ m = encode2 pt) /\
  (forall p rest, G2_Unmarshal 0 None m = (Some p, inl rest) -> twist_valid p /\ (G2_Marshal p).1 = m) /\
  (forall c, curve_valid c -> exists c', G1_Marshal c = Some (encode1 (affC c), c')) /\
  (forall c, twist_valid c -> (G2_Marshal c).1 = encode2 (affT c)).
Proof.
  intros Hm. split; [|split; [|split; [|split; [|split]]]].
  - split; [intros (p & rest & E) | intros (pt & Ho & ->)].
    + destruct (G1_Unmarshal_sound _ _ _ _ Hm E) as ([_ Ho] & Em & _). by exists (affC p).
    + exists (point1 pt), []. by apply G1_Unmarshal_complete.
  - intros p rest E. destruct (G1_Unmarshal_sound _ _ _ _ Hm E) as (Hv & Em & _). split; [done|].
    destruct (G1_Marshal_ok p (proj1 Hv)) as (p' & E' & _). exists p'. by rewrite E', <- Em.
  - split; [intros (p & rest & E) | intros (pt & Ho & ->)].
    + destruct (G2_Unmarshal_sound _ _ _ _ _ Hm E) as (_ & Ho & Em & _). by exists (affT p).
    + exists (point2 pt), []. by apply G2_Unmarshal_complete.
  - intros p rest E. destruct (G2_Unmarshal_sound _ _ _ _ _ Hm E) as (Hz & [Ho _] & Em & _). split; [by split|].
    rewrite Em. by apply G2_Marshal_ok.
  - intros c [Hz _]. destruct (G1_Marshal_ok c Hz) as (c' & E & _). by exists c'.
  - intros c [Hz _]. by apply G2_Marshal_ok.
Qed.
(** The encoding of the generator *)
Lemma encodings_exact_witness : exists p, G1_Unmarshal None (words_bytes [1; 2]) = (Some p, inl []) /\
  curve_valid p /\ exists p', G1_Marshal p = Some (words_bytes [1; 2], p').
Proof.
  assert (Hm : bytes_ok (words_bytes [1; 2])) by apply words_bytes_ok.
  assert (E : G1_Unmarshal None (words_bytes [1; 2]) = (Some (mkCurvePoint 1 2 1 1), inl [])) by (vm_compute; reflexivity).
  exists (mkCurvePoint 1 2 1 1). split; [exact E|]. exact (proj1 (proj2 (encodings_exact _ Hm)) _ _ E).
Defined.

(** ** The contracts *)
(** A choice of the other functions, to run the contracts *)
Definition plain_curve : Curve := mkCurve unit (fun _ => inl ()) (fun _ _ => ()) (fun _ _ => ()) (fun _ _ => ()) (fun _ => true) (fun _ => inl ()) (fun _ => []).
Definition plain_crypto : Crypto :=
  mkCrypto (fun b => b) (fun b => b) (fun b => b) (fun _ _ => None) plain_curve plain_curve (fun _ _ => true) plain_curve plain_curve (fun _ => true).

(** C21.  The contracts at addresses 6 and 7 implement the group of the curve.  On
    every input, read as if followed by zeros: if the first 64 bytes and the next
    64 encode points of the curve, the addition contract returns the encoding of
    their sum under the chord and tangent law; if the first 64 bytes encode a
    point, the multiplication contract returns the encoding of its multiple by the
    number in the next 32 bytes, doubling and adding over its binary digits; in
    every other case they fail with an error.  They never panic. *)
Theorem curve_contracts_implement_group C input : is_slice input ->
  ((exists p q, on_curve Fp b1 p /\ on_curve Fp b1 q /\ window input 0 64 = encode1 p /\ window input 64 64 = encode1 q /\
      runBn256Add (bn256_crypto C) input = ok (encode1 (aadd Fp p q))) \/
   (exists e, runBn256Add (bn256_crypto C) input = fail e /\
      ~ exists p q, on_curve Fp b1 p /\ on_curve Fp b1 q /\ window input 0 64 = encode1 p /\ window input 64 64 = encode1 q)) /\
  ((exists p, on_curve Fp b1 p /\ window input 0 64 = encode1 p /\
      runBn256ScalarMul (bn256_crypto C) input = ok (encode1 (amul Fp (be_val (window input 64 32)) p))) \/
   (exists e, runBn256ScalarMul (bn256_crypto C) input = fail e /\
      ~ exists p, on_curve Fp b1 p /\ window input 0 64 = encode1 p)).
Proof. intros Hin. split; [by apply add_contract | by apply mul_contract]. Qed.
(** The generator added to itself *)
Lemma curve_contracts_implement_group_witness : is_slice (words_bytes [1; 2; 1; 2]) /\
  exists p q, window (words_bytes [1; 2; 1; 2]) 0 64 = encode1 p /\ window (words_bytes [1; 2; 1; 2]) 64 64 = encode1 q /\
    runBn256Add (bn256_crypto plain_crypto) (words_bytes [1; 2; 1; 2]) = ok (encode1 (aadd Fp p q)).
Proof.
  assert (Hin : is_slice (words_bytes [1; 2; 1; 2])) by (split; [apply words_bytes_ok | vm_compute; discriminate]).
  split; [exact Hin|].
  destruct (curve_contracts_implement_group plain_crypto _ Hin) as [[(p & q & _ & _ & Ep & Eq & H)|(e & H & _)] _].
  - exists p, q. split; [exact Ep|]. split; [exact Eq | exact H].
  - exfalso. revert H. vm_compute. discriminate.
Defined.

(** C22.  The pairing contract at address 8.  An input whose length is no multiple
    of 192 is refused.  Any other input either is a sequence of encodings of pairs
    of a point of the curve and a point of the twist's subgroup, and the contract
    returns 1 or 0, in 32 bytes, as the product of the values of the Miller loop at
    the pairs without infinity, raised to [(P^12 - 1) / Order], is or is not one;
    or it is no such sequence and the contract fails with an error.  It never
    panics, and the empty input gives 1. *)
Theorem pairing_contract_exact C input : is_slice input ->
  (len input mod 192 <> 0 -> runBn256Pairing (bn256_crypto C) input = fail errBadPairingInput) /\
  (len input mod 192 = 0 ->
   (exists l, Forall pair_ok l /\ input = encode_pairs l /\
      runBn256Pairing (bn256_crypto C) input =
        ok (if f_dec F12 (rpow (pairing_value l) (Z.to_N ((P ^ 12 - 1) / Order))) r1 then true32Byte else false32Byte)) \/
   (exists e, runBn256Pairing (bn256_crypto C) input = fail e /\ ~ exists l, Forall pair_ok l /\ input = encode_pairs l)) /\
  runBn256Pairing (bn256_crypto C) [] = ok true32Byte.
Proof.
  intros [Hb _]. split; [|split].
  - intros Hmod. unfold runBn256Pairing. pose proof (Z.mod_pos_bound (len input) 192 ltac:(lia)).
    by rewrite (proj2 (Z.ltb_lt 0 (len input mod 192))) by lia.
  - exact (pairing_contract C input Hb).
  - change (ok (if default false (PairingCheck 0 (point1 <$> (@nil (apoint Fp * apoint F2)).*1) (point2 <$> (@nil (apoint Fp * apoint F2)).*2))
                then true32Byte else false32Byte) = ok true32Byte).
    rewrite PairingCheck_ok. cbn [from_option id]. change (pairing_value []) with (r1 (c := F12)). rewrite rpow_one.
    by destruct (f_dec F12 r1 r1).
Qed.
(** The generator paired with infinity, and an input that is one byte long *)
Lemma pairing_contract_exact_witness : is_slice (words_bytes [1; 2; 0; 0; 0; 0]) /\
  (exists l, Forall pair_ok l /\ words_bytes [1; 2; 0; 0; 0; 0] = encode_pairs l /\
     runBn256Pairing (bn256_crypto plain_crypto) (words_bytes [1; 2; 0; 0; 0; 0]) =
       ok (if f_dec F12 (rpow (pairing_value l) (Z.to_N ((P ^ 12 - 1) / Order))) r1 then true32Byte else false32Byte)) /\
  runBn256Pairing (bn256_crypto plain_crypto) [7] = fail errBadPairingInput.
Proof.
  assert (Hin : is_slice (words_bytes [1; 2; 0; 0; 0; 0])) by (split; [apply words_bytes_ok | vm_compute; discriminate]).
  assert (H7 : is_slice [7]) by (split; [repeat constructor; unfold is_byte; lia | vm_compute; discriminate]).
  split; [exact Hin|]. split; [|apply (proj1 (pairing_contract_exact plain_crypto [7] H7)); vm_compute; discriminate].
  destruct (proj1 (proj2 (pairing_contract_exact plain_crypto _ Hin)) eq_refl) as [H|(e & H & _)]; [exact H|].
  exfalso. revert H. vm_compute. discriminate.
Defined.

(** ** Where the code goes wrong *)
(** A receiver that is also the first argument: doubling overwrites [a.y] before
    it is read for the third coordinate, and the sum leaves the curve. *)
Example doubling_in_place_leaves_curve :
  (c ← curve_MakeAffine (G1_Add true (Some curveGen) curveGen curveGen); Some (curve_IsOnCurve c)) = Some false /\
  (c ← curve_MakeAffine (G1_Add false None curveGen curveGen); Some (curve_IsOnCurve c)) = Some true.
Proof. split; vm_compute; reflexivity. Qed.
(** The test for one does not look at the sign: minus one passes. *)
Example minus_one_is_one : gfP2_IsOne (mkGfP2 0 (-1)) = true.
Proof. reflexivity. Qed.
